(* ===== verification/_CoqProject ===== *)
-Q . S2P
Prelude.v
JsMap.v
Bytes.v
JsString.v
Effects.v
Fifo.v
Framing.v
SendBuffer.v
Batcher.v
MeshPacket.v
IpPacket.v
Search.v
Graph.v
Router.v
Scheduler.v
Crypto.v
Onion.v
IpManager.v
NatTable.v
Signalling.v
SignallingClient.v
SignallingViews.v
SendRetry.v
Chains.v
Pipeline.v
Node.v
NodeFlow.v
NodeEdge.v
Sockets.v
SocketFlow.v
Quic.v
WebRtc.v
WebRtcFlow.v
WebRtcSignals.v
WebRtcIce.v
Transports.v
Discovery.v
DiscoveryFlow.v
Handshake.v
Connectivity.v
UserspaceNat.v
NatStream.v
NatLive.v
NatIcmp.v
VpnFraming.v
VpnPackets.v
VpnBridge.v
VpnBridgeFlow.v
DnsBoot.v
TlsReplay.v
Base62.v
TlsEncSni.v
TlsHello.v
TlsRebuild.v
TlsRetry.v
TlsRelay.v
