(* ===== verification/Prelude.v ===== *)
(** * The mesh VPN: a verification development

    ** The program

    The repository holds two programs that share no code: the mesh VPN (README,
    section "Mesh VPN"), the nodes of src/ and the signalling server of server/; and
    the self-contained tunnel scripts/clean-vpn.js with its helpers in scripts/lib/.
    This development is about the mesh, and about the core of the tunnel: its bridge
    of TUN packets, the relay of TLS connections with hidden names, and the protocol
    by which it takes over a machine's DNS.

    A node of the mesh registers with a signalling server, learns of the other nodes,
    opens transports to them (WebRTC, QUIC-like UDP, WebSocket), exchanges session
    keys over the signalling channel, and carries IP packets read from a TUN device
    along routes of relays to an exit node, one layer of encryption per hop; the exit
    terminates the IP traffic in a userspace NAT, which speaks TCP, UDP and ICMP to
    the client on one side and uses ordinary sockets on the other.

    clean-vpn bridges a TUN device over one framed connection to its exit (attachTunBridge),
    or relays single TLS connections: the client's end replaces the server name of the
    ClientHello by a name that holds the encrypted origin, the exit's end decodes it,
    admits it once, restores the hello and connects to the origin.

    ** Files and sources

    Paths are relative to the repository's root.  Each file but the first five models
    the source it names, with the source's names where Rocq allows them; the order is
    that of the data path.

    - Prelude: outcomes (a call returns or throws), record update, automation, lists.
    - JsMap: [Map] and [Set] in insertion order.  Bytes: [Buffer], with Node's range
      checks.  JsString: strings as UTF-16 code units, UTF-8, decimal numbers.
    - Effects: a state monad with exceptions, with a total and a partial weakest
      precondition.  The NAT and the address manager are written in it.
    - Fifo: the contract of an outgoing queue, a class; Framing: length-prefixed
      entries, shared by the two aggregation formats.
    - SendBuffer (src/transport/send-buffer.js), Batcher (src/network/batcher.js):
      both are proved to be instances of [Fifo].
    - MeshPacket and IpPacket (src/network/packet.js): the overlay's packet; IPv4,
      TCP and UDP parsing, building and checksums.
    - Search, Graph (src/core/graph.js) and Router (src/core/router.js): the searches
      over an adjacency function, the graph that instantiates them, and the table of
      routes kept with them.
    - Scheduler (src/core/scheduler.js): multipath scheduling and the duplicate filter.
    - Crypto (src/crypto/identity.js, session.js, encrypt.js) and Onion
      (src/crypto/onion.js, and the onion part of src/core/router.js), over the
      interfaces [Aead], [KeyAgreement] and [Signature].
    - IpManager (src/network/ip-manager.js), NatTable (src/exit/nat.js): address
      leases, the address routing table and the mapping table.
    - Signalling (server/signalling-server.js), SignallingClient
      (src/control/signalling.js), SignallingViews: the two of them together.
    - SendRetry, Chains (parts of src/core/node.js): the retry queues per peer, an
      instance of [Fifo], and the chains of promises that keep a peer's tasks in order.
    - Pipeline (src/workers/pipeline.js, tx-worker.js, rx-worker.js): the two pools and
      the jobs they run; Node (src/core/node.js): the data plane of a node, whose
      handlers submit jobs to the pools and record what they send, and NodeFlow, where
      nodes, workers and the formats are composed; NodeEdge: runs that go wrong.
    - Sockets (src/transport/websocket.js, ws-data-server.js): the WebSocket transports,
      with the sockets of a peer that come and go, and SocketFlow, what they deliver;
      Transports (src/transport/manager.js): the transport manager; Quic
      (src/transport/quic.js): the datagrams of the QUIC transport.
    - WebRtc (src/transport/webrtc.js): the WebRTC transport, its connections, channels
      and timers; WebRtcFlow: what it delivers; WebRtcSignals: offers and answers;
      WebRtcIce: remote candidates.
    - Discovery (src/control/discovery.js): the works it runs one after the other with
      their suspension points, its timers and handlers; DiscoveryFlow: its histories;
      Handshake: two nodes and the signals between them; Connectivity: discovery over the transport manager.
    - VpnFraming (scripts/clean-vpn.js): packets in a TCP stream, and the batched writer;
      VpnPackets: its tests on packets; VpnBridge: attachTunBridge, with its endpoints,
      queues, timers and reconnections, and VpnBridgeFlow, its histories.
    - DnsBoot (scripts/lib/dns-boot.mjs): the protocol of the DNS take-over at boot.
    - TlsReplay (scripts/lib/transparent-tls-replay.mjs): the table of admitted tokens;
      Base62 and TlsEncSni (transparent-tls-enc-sni.mjs): encrypted origin names; TlsHello
      (tls-clienthello-ja3.mjs): the parser of the first ClientHello; TlsRebuild
      (transparent-tls-ch-rebuild.mjs): replacing and restoring its name; TlsRetry
      (transparent-tls-retry.mjs): the guard of a TLS 1.3 retry; TlsRelay
      (transparent-tls-io.mjs, transparent-tls-runtime.mjs): the reader of the hello and
      the two ends, where all of these are composed.
    - UserspaceNat (src/exit/userspace-nat.js), with its theorems in NatStream,
      NatLive and NatIcmp.

    ** How programs are modelled

    State is a record, an operation a function on it, a callback or a timer an event:
    a history is a list of events or the closure of a step relation, and "in every
    history" quantifies over all of them.  Errors are values of [outcome].  Clocks
    ([Date.now()]), randomness ([Math.random()], [randomBytes]) and what the operating
    system or a library answers are arguments of the operation that asks.  Numbers
    are integers; the code's 32-bit operations and byte truncations are written out;
    the scheduler's weights and averages are rationals (no rounding).  Libraries that
    are not in the repository (ciphers and curves, geoip) are parameters, their
    documented laws the fields of a class; each class has a concrete instance, which
    the witnesses use.

    ** What the theorems show

    - Outgoing queues deliver exactly once and in order, their frames fit, and the
      receiver takes any bytes without throwing ([sb_delivery], [unframe_safe],
      [batcher_per_peer_fifo]).
    - Formats round-trip, with the exact conditions and errors at the boundaries
      ([packet_roundtrip], [serialize_range], [deserialize_v2_accepts],
      [tcp_packet_roundtrip], [udp_packet_roundtrip], [synack_options_roundtrip],
      [parseIPPacket_total], [parseTcpSynOptions_total]).
    - The graph stays symmetric; the searches are optimal, complete and terminate;
      the routes handed out are valid and avoid what they must, in every history
      ([graph_symmetric], [findShortestPath_correct],
      [findShortestPathWeighted_correct], [findPathToNearestExitWeighted_correct],
      [findAllPathsToExits_correct], [rebuildActiveRoutes_correct],
      [findRouteToExit_sound], [removeLocalConnection_reroutes],
      [selectBestExitNode_best]).
    - Scheduling is fair, copies take distinct paths, duplicates are dropped
      ([round_robin_fair], [multipath_distinct_copies], [scheduler_bounds],
      [reorder_buffer_dedup]).
    - Encryption, sessions and identities ([decrypt_iff], [session_agreement],
      [nodeId_type], [identity_roundtrip]); onion packets deliver along the route and
      tell each hop only its successor, and the two builders agree
      ([onion_delivers], [wrap_is_buildOnionPacket]).
    - Addresses are leased to one node at a time, the address table routes over live
      announcements, mappings live as long as they are used ([leases_exclusive],
      [routing_table_correct], [nat_mapping_lives]).
    - The control plane: the messages a client receives give it exactly the server's
      registry; addresses are unique; the client keeps trying, and does nothing more when
      told to stop ([signalling_views_agree], [virtual_ips_unique], [client_lifecycle]).
    - Workers and nodes: every callback is called once, one worker keeps the order,
      what one end of a link sends the other reads ([callbacks_called_once],
      [one_worker_queue], [link_delivers]); a strict retry queue is a FIFO channel
      ([send_retry_fifo]); a packet of the client's TUN leaves the exit unchanged and
      the answer comes back ([client_reaches_exit], [exit_answers_client]); relays
      forward exactly what they should and no packet travels for ever
      ([relay_forwards], [packets_die_out]).
    - Transports and discovery: a WebSocket transport hands over a prefix of what was
      accepted, in order ([ws_delivers]); the WebRTC transport loses and duplicates
      nothing, settles the promise of every offer and answer but those it forgets in two
      ways, and keeps the order of the candidates ([webrtc_conserves], [webrtc_settles],
      [webrtc_candidates_in_order]); the manager tracks which transports are up
      ([manager_tracks]); discovery's established peers are those connected
      ([established_are_connected]); a handshake that is not broken leaves both ends with
      one key, whatever else happens at them ([handshake_agrees]), it closes only peers that left ([close_only_departed]), its
      chain of works ends ([chain_drains]) and its tables agree ([discovery_consistent]).
    - The tunnel: the framer gives what was written however the stream is cut, the bridge
      keeps the order and bounds of its queues through reconnections, stale endpoints do no
      harm, and what may be sent is sent or waits ([vpn_stream_delivers],
      [stream_framer_refines], [bridge_keeps_order], [stale_events_harmless],
      [bridge_reaches_wire]); its tests on packets agree at the two ends
      ([ipv6_ends_agree], [lazy_connect_agrees], [tun_echo_reply]).
    - The relay of TLS connections: the origin receives the bytes the application sent
      ([relay_transparent]), because names are decoded ([enc_sni_roundtrip],
      [base62_roundtrip]) and rewritten hellos restored ([hello_restored]); no token opens
      two connections ([relay_admits_once], [replay_once], [replay_refines]); a retry does
      not show the name ([retry_hides_name]) and chunks do not matter ([retry_chunks],
      [hello_reader_lazy]); which hello makes the parser throw ([short_hello_throws]).
    - DNS at boot: work is admitted on evidence only, and no history is a dead end
      ([dns_admission_evidence], [dns_boot_recoverable]).
    - The userspace NAT: what the client's TCP reads is a prefix of what the server
      sent, and all of it under enough acknowledgements; echo replies; exactly which
      packets make the handler throw ([nat_stream_integrity], [nat_drains],
      [icmp_echo_reply], [handlePacket_throws]).

    The examples at the end of several files run the code on inputs where it does not
    do what it means to.

    ** Fuel

    Loops that are not structural take fuel that is proved enough: the number of
    queued packets ([drain]) or of bytes left ([unframe_loop], [unbatch_loop],
    [syn_options_loop], [flush_loop]), the number of nodes for the breadth-first
    search and of edges for the weighted one (Search.v), the length of the address
    range ([alloc_loop]).  [fold_carry] folds four times, enough for the sum of any
    IP packet.

    ** Not modelled

    - The TUN device and the routing set-up of the operating system (network/tun.js,
      network/linux-rp-filter.js, exit/nat-manager.js): commands run through the shell.
    - Metrics, configuration synchronisation and the control API (debug/metrics.js,
      config-sync.js, control/control-api.js): counters, files and HTTP around a JSON
      object; nothing modelled here reads them.
    - Of the node (core/node.js) the set-up in [constructor] and [start] (wiring, TUN
      device, timers, the echo server), and index.js; of the WebRTC transport its logs and
      the TURN test.
    - Of clean-vpn the set-up, the command line, the commands of the operating system, the
      TLS fingerprints (JA3, JA4, for diagnostics), the traffic classifier, the sockets
      and timers of RelaySession, the destination policy, and the processes around the DNS
      protocol: adapters, journals on disk, installers and labs.
    - device/, native/, helpers/ and the test tools: other languages, tooling. *)

From Corelib Require Export ssreflect.
From stdpp Require Export base tactics list gmap strings pretty.
From Stdlib Require Export ZArith Lia.

#[global] Open Scope general_if_scope.
#[export] Set SsrOldRewriteGoalsOrder.
#[export] Set Default Proof Using "Type".
#[export] Set Warnings "-rewrite-rw,-clear-no-such-hyp,-level-tolerance".

(** ** Outcomes: a JavaScript call returns a value or throws *)

Inductive js_error : Type :=
  | RangeError        (** a Buffer access or a value outside its range *)
  | TypeError
  | SyntaxError       (** JSON.parse *)
  | Error (msg : string).

#[export] Instance js_error_eq_dec : EqDecision js_error.
Proof. solve_decision. Defined.

Inductive outcome (A : Type) : Type :=
  | Ret (a : A)
  | Throw (e : js_error).
Arguments Ret {A} a.
Arguments Throw {A} e.

#[export] Instance outcome_ret : MRet outcome := @Ret.
#[export] Instance outcome_bind : MBind outcome := λ A B k m,
  match m with Ret a => k a | Throw e => Throw e end.
#[export] Instance outcome_fmap : FMap outcome := λ A B f m,
  match m with Ret a => Ret (f a) | Throw e => Throw e end.

(** [guard_js b e]: continue when [b] holds, throw [e] otherwise. *)
Definition guard_js (b : bool) (e : js_error) : outcome unit :=
  if b then Ret tt else Throw e.

Lemma outcome_bind_Ret {A B} (m : outcome A) (k : A → outcome B) b :
  m ≫= k = Ret b ↔ ∃ a, m = Ret a ∧ k a = Ret b.
Proof. destruct m; simpl; split; [by eauto|by intros (? & [= ->] & ?)|done|by intros (? & ? & ?)]. Qed.

Lemma ret_bind {A B} (a : A) (k : A → outcome B) : Ret a ≫= k = k a.
Proof. done. Qed.

Lemma Ret_inj {A} (a b : A) : Ret a = Ret b → a = b.
Proof. by intros [= ->]. Qed.

Lemma guard_js_Ret b e u : guard_js b e = Ret u ↔ b = true.
Proof. destruct u, b; done. Qed.

(** [o || d] for an optional number: absent and 0 take the default. *)
Definition js_or (o : option Z) (d : Z) : Z :=
  match o with Some z => if (z =? 0)%Z then d else z | None => d end.

(** ** Record update: [r <| f := v |>] and [r <| f ::= g |>]

    A record declares its constructor applied to its own fields ([Eta]); the
    setter of a field is found by abstracting that field. *)

Class Eta (R : Type) := eta : R → R.
Class Setter {R T : Type} (p : R → T) := set_field : (T → T) → R → R.
#[global] Arguments set_field {R T} p {Setter} g r.

Ltac find_setter :=
  lazymatch goal with
  | |- @Setter ?R ?T ?p =>
      let e := constr:(@eta R _) in
      let body := eval hnf in e in
      let pat := eval pattern p in body in
      lazymatch pat with ?mk _ => exact (λ g, mk (λ r, g (p r))) end
  end.
#[export] Hint Extern 1 (Setter _) => find_setter : typeclass_instances.

Declare Scope record_scope.
Delimit Scope record_scope with record.
Notation "r <| p := v |>" := (set_field p (λ _, v) r)
  (at level 1, left associativity, p at level 10, v at level 200) : record_scope.
Notation "r <| p ::= g |>" := (set_field p g r)
  (at level 1, left associativity, p at level 10, g at level 200) : record_scope.
#[global] Open Scope record_scope.

(** ** Automation *)

Create HintDb mesh.
Create Rewrite HintDb mesh.
Create Rewrite HintDb omap.
#[export] Hint Rewrite @length_app @length_map @length_take @length_drop
  @length_replicate @length_reverse : mesh.

(** Turn boolean comparisons of hypotheses and goal into propositions. *)
Ltac bool_to_prop :=
  repeat match goal with
  | H : (_ && _) = true |- _ => apply andb_true_iff in H; destruct H
  | H : (_ || _) = false |- _ => apply orb_false_iff in H; destruct H
  | H : negb _ = true |- _ => apply negb_true_iff in H
  | H : negb _ = false |- _ => apply negb_false_iff in H
  | H : bool_decide _ = true |- _ => apply bool_decide_eq_true in H
  | H : bool_decide _ = false |- _ => apply bool_decide_eq_false in H
  | H : (_ <? _)%Z = true |- _ => apply Z.ltb_lt in H
  | H : (_ <? _)%Z = false |- _ => apply Z.ltb_ge in H
  | H : (_ <=? _)%Z = true |- _ => apply Z.leb_le in H
  | H : (_ <=? _)%Z = false |- _ => apply Z.leb_gt in H
  | H : (_ =? _)%Z = true |- _ => apply Z.eqb_eq in H
  | H : (_ =? _)%Z = false |- _ => apply Z.eqb_neq in H
  end.

(** Split the innermost [match]/[if] of the goal or of a hypothesis, keeping the equation. *)
Ltac case_goal :=
  match goal with
  | |- context [match ?x with _ => _ end] =>
      lazymatch x with context [match _ with _ => _ end] => fail | _ => destruct x eqn:? end
  end.
Ltac case_in H :=
  match type of H with
  | context [match ?x with _ => _ end] =>
      lazymatch x with context [match _ with _ => _ end] => fail | _ => destruct x eqn:? end
  end.

(** Length arithmetic on lists: unfold the length lemmas and call [lia]. *)
Ltac len := autorewrite with mesh in *; simpl in *; try lia.

(** ** Lists *)

Section lists.
Context {A : Type}.
Implicit Types l k : list A.

Lemma foldl_inv {B} (f : B → A → B) (I : B → Prop) l b : (∀ b a, I b → I (f b a)) → I b → I (foldl f b l).
Proof. intros Hf. revert b. induction l; intros b Hb; [done|]. simpl. auto. Qed.

Lemma take_app_exact l k n : n = length l → take n (l ++ k) = l.
Proof. intros ->. apply take_app_length. Qed.

Lemma drop_app_exact l k n : n = length l → drop n (l ++ k) = k.
Proof. intros ->. apply drop_app_length. Qed.

Lemma prefix_take_drop l n : l = take n l ++ drop n l.
Proof. symmetry. apply take_drop. Qed.

Lemma filter_all (P : A → Prop) `{∀ x, Decision (P x)} l :
  Forall P l → filter P l = l.
Proof. induction 1; [done|]. rewrite filter_cons_True //. congruence. Qed.

Lemma filter_none (P : A → Prop) `{∀ x, Decision (P x)} l :
  Forall (λ x, ¬ P x) l → filter P l = [].
Proof. induction 1; [done|]. rewrite filter_cons_False //. Qed.

Lemma last_snoc_inv l x : last l = Some x → ∃ l', l = l' ++ [x].
Proof. apply last_Some. Qed.
End lists.

(** Sum of an integer-valued function over a list. *)
Definition sumZ {A} (f : A → Z) (l : list A) : Z := foldr (λ a s, (f a + s)%Z) 0%Z l.

Section sums.
Context {A : Type} (f : A → Z).
Local Open Scope Z_scope.

Lemma sumZ_nil : sumZ f [] = 0.
Proof. done. Qed.
Lemma sumZ_cons a l : sumZ f (a :: l) = f a + sumZ f l.
Proof. done. Qed.
Lemma sumZ_app l k : sumZ f (l ++ k) = sumZ f l + sumZ f k.
Proof. induction l as [|a l IH]; simpl; [lia|]. rewrite IH. lia. Qed.
Lemma sumZ_nonneg l : (∀ a, 0 <= f a) → 0 <= sumZ f l.
Proof. intros Hf. induction l as [|a l IH]; simpl; [lia|]. specialize (Hf a). lia. Qed.
End sums.
#[export] Hint Rewrite @sumZ_nil @sumZ_cons @sumZ_app : mesh.
