(* ===== verification/JsMap.v ===== *)
(** * Insertion-ordered maps and sets

    JavaScript's [Map] and [Set] (and objects used as dictionaries) iterate in
    insertion order, which the routing code depends on for its tie-breaking and
    the servers for their broadcast order.  An [omap] is the list of a [Map]'s
    entries in iteration order; [om_set] keeps the position of a key that is
    already present, as [Map.prototype.set] does.  An [oset] is the list of a
    [Set]'s elements.  [om_wf]/[NoDup] is the invariant every operation keeps. *)

From S2P Require Import Prelude.

Section omap.
Context {K V : Type} `{EqDecision K}.

Definition omap : Type := list (K * V).
Implicit Types m : omap.

(** [Map.prototype.get] *)
Fixpoint om_get (k : K) (m : omap) : option V :=
  match m with
  | [] => None
  | (k', v) :: m' => if decide (k = k') then Some v else om_get k m'
  end.

(** [Map.prototype.set] *)
Fixpoint om_set (k : K) (v : V) (m : omap) : omap :=
  match m with
  | [] => [(k, v)]
  | (k', v') :: m' => if decide (k = k') then (k', v) :: m' else (k', v') :: om_set k v m'
  end.

(** [Map.prototype.delete] *)
Definition om_delete (k : K) (m : omap) : omap := filter (λ p, p.1 ≠ k) m.

(** [Map.prototype.has], [.size], [.keys()], [.values()] *)
Definition om_has (k : K) (m : omap) : bool := bool_decide (is_Some (om_get k m)).
Definition om_size (m : omap) : nat := length m.
Definition om_keys (m : omap) : list K := m.*1.
Definition om_values (m : omap) : list V := m.*2.

(** A [for (const [k, v] of map)] loop that deletes the entries satisfying a test. *)
Definition om_delete_if (P : K → V → bool) (m : omap) : omap :=
  filter (λ p, P p.1 p.2 = false) m.

(** Apply an in-place mutation to the value a key holds. *)
Definition om_update (k : K) (f : V → V) (m : omap) : omap :=
  match om_get k m with Some v => om_set k (f v) m | None => m end.

Definition om_wf (m : omap) : Prop := NoDup (om_keys m).

Lemma om_get_nil k : om_get k [] = None.
Proof. done. Qed.

Lemma om_get_set_eq k v m : om_get k (om_set k v m) = Some v.
Proof.
  induction m as [|[k' v'] m IH]; simpl.
  - by rewrite decide_True.
  - destruct (decide (k = k')) as [->|]; simpl.
    + by rewrite decide_True.
    + by rewrite decide_False.
Qed.

Lemma om_get_set_ne k k' v m : k ≠ k' → om_get k (om_set k' v m) = om_get k m.
Proof.
  intros Hne. induction m as [|[k1 v1] m IH]; simpl.
  - by rewrite decide_False.
  - destruct (decide (k' = k1)) as [->|]; simpl.
    + by rewrite !decide_False.
    + by rewrite IH.
Qed.

Lemma om_get_set k k' v m :
  om_get k (om_set k' v m) = if decide (k = k') then Some v else om_get k m.
Proof.
  case_decide as Hk; [subst; apply om_get_set_eq|by apply om_get_set_ne].
Qed.

Lemma om_delete_cons k k1 v1 m :
  om_delete k ((k1, v1) :: m) =
    if decide (k1 = k) then om_delete k m else (k1, v1) :: om_delete k m.
Proof. rewrite /om_delete filter_cons /=. repeat case_decide; done. Qed.

Lemma om_get_delete k k' m :
  om_get k (om_delete k' m) = if decide (k = k') then None else om_get k m.
Proof.
  induction m as [|[k1 v1] m IH]; simpl; [by case_decide|].
  rewrite om_delete_cons. destruct (decide (k1 = k')) as [->|Hne]; simpl.
  - rewrite IH. repeat case_decide; congruence.
  - rewrite IH. repeat case_decide; congruence.
Qed.

Lemma om_get_delete_eq k m : om_get k (om_delete k m) = None.
Proof. rewrite om_get_delete. by rewrite decide_True. Qed.

Lemma om_get_delete_ne k k' m : k ≠ k' → om_get k (om_delete k' m) = om_get k m.
Proof. intros. rewrite om_get_delete. by rewrite decide_False. Qed.

Lemma om_get_Some_elem k v m : om_get k m = Some v → (k, v) ∈ m.
Proof.
  induction m as [|[k' v'] m IH]; simpl; [done|].
  case_decide; intros ?; simplify_eq; [left|right; auto].
Qed.

Lemma om_elem_set p k v m : p ∈ om_set k v m → p ∈ m ∨ p = (k, v).
Proof.
  induction m as [|[k' v'] m IH]; simpl; [intros ->%list_elem_of_singleton; by right|].
  case_decide; intros [->|Hp]%elem_of_cons; subst; [by right|left; by right|left; by left|].
  destruct (IH Hp); [left; by right|by right].
Qed.

Lemma om_elem_delete p k m : p ∈ om_delete k m → p ∈ m.
Proof. by intros [_ ?]%list_elem_of_filter. Qed.

Lemma om_elem_get k v m : om_wf m → (k, v) ∈ m → om_get k m = Some v.
Proof.
  rewrite /om_wf /om_keys. induction m as [|[k' v'] m IH]; simpl; [by inversion 2|].
  intros [Hk Hm]%NoDup_cons [[= -> ->]|Hin]%elem_of_cons.
  - by rewrite decide_True.
  - rewrite decide_False; [by apply IH|]. intros ->.
    apply Hk. apply list_elem_of_fmap. by exists (k', v).
Qed.

Lemma om_get_keys k m : is_Some (om_get k m) ↔ k ∈ om_keys m.
Proof.
  rewrite /om_keys. split.
  - intros [v Hv%om_get_Some_elem]. apply list_elem_of_fmap. by exists (k, v).
  - induction m as [|[k' v'] m IH]; simpl; [by inversion 1|].
    intros [->|Hin]%elem_of_cons; case_decide; first [done|by eexists|by apply IH].
Qed.

Lemma om_has_true k m : om_has k m = true ↔ k ∈ om_keys m.
Proof. rewrite /om_has bool_decide_eq_true. apply om_get_keys. Qed.

Lemma om_has_get k m : om_has k m = true ↔ is_Some (om_get k m).
Proof. rewrite om_has_true. symmetry. apply om_get_keys. Qed.

Lemma om_has_false k m : om_has k m = false ↔ om_get k m = None.
Proof. rewrite /om_has bool_decide_eq_false. by rewrite -eq_None_not_Some. Qed.

Lemma om_set_fresh k v m : om_get k m = None → om_set k v m = m ++ [(k, v)].
Proof.
  induction m as [|[k1 v1] m IH]; simpl; [done|]. case_decide; [done|]. intros Hm. by rewrite IH.
Qed.

Lemma om_delete_none k m : om_get k m = None → om_delete k m = m.
Proof.
  induction m as [|[k1 v1] m IH]; simpl; [done|]. rewrite om_delete_cons.
  case_decide; [done|]. intros Hm. rewrite decide_False; [by rewrite IH|done].
Qed.

Lemma om_delete_perm k v m : om_wf m → om_get k m = Some v → m ≡ₚ (k, v) :: om_delete k m.
Proof.
  unfold om_wf. induction m as [|[k1 v1] m IH]; simpl; [done|].
  intros [Hk Hm]%NoDup_cons. rewrite om_delete_cons. case_decide as Hd; [subst|].
  - intros [= ->]. rewrite decide_True // om_delete_none //.
    destruct (om_get k1 m) eqn:E; [|done]. destruct Hk. apply om_get_keys. by rewrite E.
  - rewrite decide_False //. intros Hg. rewrite {1}(IH Hm Hg). apply Permutation_swap.
Qed.

Lemma om_keys_set k v m :
  om_keys (om_set k v m) = if om_has k m then om_keys m else om_keys m ++ [k].
Proof.
  induction m as [|[k' v'] m IH]; simpl; [done|].
  rewrite {1}/om_has /=. destruct (decide (k = k')) as [->|]; simpl; [done|].
  rewrite IH. by rewrite /om_has; case_bool_decide.
Qed.

Lemma om_elem_keys_set j k v m : j ∈ om_keys (om_set k v m) ↔ j = k ∨ j ∈ om_keys m.
Proof.
  rewrite om_keys_set. destruct (om_has k m) eqn:E; [|set_solver].
  apply om_has_true in E. set_solver.
Qed.

Lemma om_elem_keys_delete j k m : j ∈ om_keys (om_delete k m) ↔ j ≠ k ∧ j ∈ om_keys m.
Proof.
  rewrite -!om_get_keys om_get_delete. case_decide; split.
  - by intros [].
  - by intros [? ?].
  - done.
  - by intros [? ?].
Qed.

Lemma om_set_wf k v m : om_wf m → om_wf (om_set k v m).
Proof.
  rewrite /om_wf om_keys_set. destruct (om_has k m) eqn:E; [done|].
  intros Hm. apply NoDup_app. split; [done|]. split; [|by apply NoDup_singleton].
  intros j Hj ->%list_elem_of_singleton.
  apply om_has_true in Hj. congruence.
Qed.

Lemma om_filter_wf (P : K * V → Prop) `{∀ p, Decision (P p)} m :
  om_wf m → om_wf (filter P m).
Proof.
  rewrite /om_wf /om_keys. induction m as [|[k v] m IH]; simpl; [done|].
  intros [Hk Hm]%NoDup_cons. rewrite filter_cons. case_decide; simpl; [|auto].
  apply NoDup_cons. split; [|auto].
  intros Hin. apply Hk. apply list_elem_of_fmap in Hin as ([k' v'] & ? & Hin).
  apply list_elem_of_filter in Hin as [_ Hin].
  apply list_elem_of_fmap. by exists (k', v').
Qed.

Lemma om_delete_wf k m : om_wf m → om_wf (om_delete k m).
Proof. apply om_filter_wf. Qed.

Lemma om_delete_if_wf P m : om_wf m → om_wf (om_delete_if P m).
Proof. apply om_filter_wf. Qed.

Lemma om_update_wf k f m : om_wf m → om_wf (om_update k f m).
Proof. rewrite /om_update. case_match; [apply om_set_wf|done]. Qed.

Lemma om_get_update k k' f m :
  om_get k (om_update k' f m) = if decide (k = k') then f <$> om_get k m else om_get k m.
Proof.
  rewrite /om_update. destruct (om_get k' m) as [v|] eqn:E.
  - rewrite om_get_set. case_decide; [subst; by rewrite E|done].
  - case_decide; [subst; by rewrite E|done].
Qed.

Lemma om_get_filter (P : K * V → Prop) `{∀ p, Decision (P p)} k m :
  om_wf m →
  om_get k (filter P m) =
    match om_get k m with Some v => if decide (P (k, v)) then Some v else None | None => None end.
Proof.
  rewrite /om_wf /om_keys. induction m as [|[k1 v1] m IH]; simpl; [done|].
  intros [Hk Hm]%NoDup_cons. rewrite filter_cons.
  specialize (IH Hm). destruct (decide (k = k1)) as [->|Hne].
  - case_decide; simpl; [by rewrite decide_True|].
    rewrite IH. destruct (om_get k1 m) as [v|] eqn:E; [|done].
    apply om_get_Some_elem in E. exfalso. apply Hk.
    apply list_elem_of_fmap. by exists (k1, v).
  - case_decide; simpl; [by rewrite decide_False|done].
Qed.

Lemma om_get_delete_if P k m :
  om_wf m →
  om_get k (om_delete_if P m) =
    match om_get k m with Some v => if P k v then None else Some v | None => None end.
Proof.
  intros Hm. rewrite /om_delete_if om_get_filter //=.
  destruct (om_get k m) as [v|]; [|done]. simpl. by destruct (P k v).
Qed.

Lemma om_size_set k v m :
  om_size (om_set k v m) = if om_has k m then om_size m else S (om_size m).
Proof.
  assert (∀ m', om_size m' = length (om_keys m')) as Hs.
  { intros. by rewrite /om_size /om_keys length_fmap. }
  rewrite !Hs om_keys_set. destruct (om_has k m); [done|].
  rewrite length_app /=. lia.
Qed.
End omap.
Arguments omap : clear implicits.

#[export] Hint Resolve om_set_wf om_delete_wf om_delete_if_wf om_update_wf : mesh.
#[export] Hint Rewrite @om_get_set_eq @om_get_delete_eq : omap.

(** Decide a lookup in an updated map by cases on the keys. *)
Ltac omap_simpl :=
  repeat first
    [ rewrite om_get_set in * | rewrite om_get_delete in * | rewrite om_get_update in *
    | progress autorewrite with omap in * ];
  repeat case_decide; simplify_eq/=.

(** ** Insertion-ordered sets ([Set]) *)

Section oset.
Context {A : Type} `{EqDecision A}.

Definition oset : Type := list A.
Implicit Types s : oset.

Definition os_has (a : A) (s : oset) : bool := bool_decide (a ∈ s).
Definition os_add (a : A) (s : oset) : oset := if os_has a s then s else s ++ [a].
Definition os_delete (a : A) (s : oset) : oset := filter (λ b, b ≠ a) s.
(** [new Set(iterable)] *)
Definition os_of_list (l : list A) : oset := foldl (λ s a, os_add a s) [] l.

Lemma os_has_true a s : os_has a s = true ↔ a ∈ s.
Proof. apply bool_decide_eq_true. Qed.
Lemma os_has_false a s : os_has a s = false ↔ a ∉ s.
Proof. apply bool_decide_eq_false. Qed.

Lemma os_elem_add a b s : a ∈ os_add b s ↔ a = b ∨ a ∈ s.
Proof.
  rewrite /os_add. destruct (os_has b s) eqn:E; [|set_solver].
  apply os_has_true in E. set_solver.
Qed.

Lemma os_elem_delete a b s : a ∈ os_delete b s ↔ a ≠ b ∧ a ∈ s.
Proof. rewrite /os_delete list_elem_of_filter. done. Qed.

Lemma os_has_add_ne a b s : a ≠ b → os_has a (os_add b s) = os_has a s.
Proof. intros Hab. apply eq_true_iff_eq. rewrite !os_has_true os_elem_add. naive_solver. Qed.
Lemma os_has_delete_ne a b s : a ≠ b → os_has a (os_delete b s) = os_has a s.
Proof. intros Hab. apply eq_true_iff_eq. rewrite !os_has_true os_elem_delete. naive_solver. Qed.
Lemma os_add_NoDup a s : NoDup s → NoDup (os_add a s).
Proof.
  rewrite /os_add. destruct (os_has a s) eqn:E; [done|].
  apply os_has_false in E. intros. apply NoDup_app. split; [done|].
  split; [|by apply NoDup_singleton]. intros x ? ->%list_elem_of_singleton. done.
Qed.

Lemma os_delete_NoDup a s : NoDup s → NoDup (os_delete a s).
Proof. apply NoDup_filter. Qed.

Lemma os_of_list_spec l : NoDup (os_of_list l) ∧ ∀ a, a ∈ os_of_list l ↔ a ∈ l.
Proof.
  rewrite /os_of_list.
  enough (∀ s, NoDup s →
    NoDup (foldl (λ s a, os_add a s) s l) ∧
    ∀ a, a ∈ foldl (λ s a, os_add a s) s l ↔ a ∈ s ∨ a ∈ l) as H.
  { destruct (H []) as [? ?]; [apply NoDup_nil_2|]. split; [done|]. set_solver. }
  induction l as [|x l IH]; intros s Hs; simpl; [set_solver|].
  destruct (IH (os_add x s)) as [? Hel]; [by apply os_add_NoDup|].
  split; [done|]. intros a. rewrite Hel os_elem_add. set_solver.
Qed.
End oset.
Arguments oset : clear implicits.

#[export] Hint Resolve os_add_NoDup os_delete_NoDup : mesh.
