(* ===== verification/Bytes.v ===== *)
(** * Node's [Buffer] and JavaScript strings

    A [Buffer] is the list of its bytes (integers, [bytes_ok] when each is in
    [0, 255]); a JavaScript string is the list of its UTF-16 code units.  The
    reads and writes throw [RangeError] exactly where Node's do, [buf_copy]
    clips as [Buffer.prototype.copy] does, and the two UTF-8 conversions
    ([Buffer.from(string)] and [buf.toString()]) are modelled in full,
    replacement characters included. *)

From S2P Require Import Prelude.
Local Open Scope Z_scope.

(** A string and a buffer have the same representation; the names say which is meant. *)
Abbreviation jstr := (list Z).
Abbreviation buffer := (list Z).

Definition blen (b : buffer) : Z := Z.of_nat (length b).
Definition byte_ok (b : Z) : Prop := 0 <= b < 256.
Definition bytes_ok (l : buffer) : Prop := Forall byte_ok l.

#[export] Instance byte_ok_dec b : Decision (byte_ok b).
Proof. unfold byte_ok. apply _. Defined.
#[export] Instance bytes_ok_dec l : Decision (bytes_ok l).
Proof. unfold bytes_ok. apply _. Defined.

(** ** Big-endian integers *)

(** The value of a big-endian byte sequence. *)
Fixpoint be_acc (a : Z) (l : buffer) : Z :=
  match l with [] => a | b :: l' => be_acc (a * 256 + b) l' end.
Definition be_value (l : buffer) : Z := be_acc 0 l.

(** The [n] low bytes of [v], most significant first. *)
Fixpoint be_bytes (n : nat) (v : Z) : buffer :=
  match n with O => [] | S n' => (v / 256 ^ Z.of_nat n') mod 256 :: be_bytes n' v end.

Lemma length_be_bytes n v : length (be_bytes n v) = n.
Proof. induction n; simpl; congruence. Qed.
#[export] Hint Rewrite length_be_bytes : mesh.

Lemma be_bytes_ok n v : bytes_ok (be_bytes n v).
Proof.
  induction n as [|n IH]; simpl; constructor; [|done].
  red. apply Z.mod_pos_bound. lia.
Qed.

Lemma pow256_succ n : 256 ^ Z.of_nat (S n) = 256 * 256 ^ Z.of_nat n.
Proof. rewrite Nat2Z.inj_succ Z.pow_succ_r; lia. Qed.
Lemma pow256_pos n : 0 < 256 ^ Z.of_nat n.
Proof. apply Z.pow_pos_nonneg; lia. Qed.

Lemma be_acc_app a l k : be_acc a (l ++ k) = be_acc (be_acc a l) k.
Proof. revert a. induction l as [|b l IH]; intros a; simpl; [done|apply IH]. Qed.

Lemma be_acc_shift a l : be_acc a l = a * 256 ^ Z.of_nat (length l) + be_value l.
Proof.
  unfold be_value. revert a. induction l as [|b l IH]; intros a; [simpl; lia|].
  change (be_acc a (b :: l)) with (be_acc (a * 256 + b) l).
  change (be_acc 0 (b :: l)) with (be_acc (0 * 256 + b) l).
  change (length (b :: l)) with (S (length l)).
  rewrite (IH (a * 256 + b)) (IH (0 * 256 + b)) pow256_succ. lia.
Qed.

Lemma be_value_bytes_mod n v : be_value (be_bytes n v) = v mod 256 ^ Z.of_nat n.
Proof.
  induction n as [|n IH]; [simpl; by rewrite Z.mod_1_r|].
  change (be_bytes (S n) v) with ((v / 256 ^ Z.of_nat n) mod 256 :: be_bytes n v).
  rewrite /be_value /= be_acc_shift length_be_bytes IH pow256_succ.
  rewrite (Z.mul_comm 256). pose proof (pow256_pos n).
  rewrite Z.rem_mul_r; lia.
Qed.

Lemma be_value_bytes n v : 0 <= v < 256 ^ Z.of_nat n → be_value (be_bytes n v) = v.
Proof. intros. by rewrite be_value_bytes_mod Z.mod_small. Qed.

Lemma be_value_range l : bytes_ok l → 0 <= be_value l < 256 ^ Z.of_nat (length l).
Proof.
  induction 1 as [|b l Hb Hl IH]; [done|].
  rewrite /be_value /= be_acc_shift. rewrite pow256_succ. unfold byte_ok in Hb. nia.
Qed.

Lemma be_bytes_acc a l : bytes_ok l → be_bytes (length l) (be_acc a l) = l.
Proof.
  intros Hl. revert a. induction Hl as [|b l Hb Hl IH]; intros a; [done|].
  simpl. rewrite IH. f_equal. rewrite be_acc_shift.
  pose proof (be_value_range _ Hl). rewrite Z.div_add_l; [|pose proof (pow256_pos (length l)); lia].
  rewrite (Z.div_small (be_value l)) // Z.add_0_r Z.add_comm Z_mod_plus_full.
  by apply Z.mod_small.
Qed.

Lemma be_bytes_value n l : bytes_ok l → length l = n → be_bytes n (be_value l) = l.
Proof. intros ? <-. by apply be_bytes_acc. Qed.

Lemma be_bytes_1 v : be_bytes 1 v = [v mod 256].
Proof. simpl. by rewrite Z.div_1_r. Qed.
Lemma be_bytes_2 v : be_bytes 2 v = [(v / 256) mod 256; v mod 256].
Proof. simpl. by rewrite Z.div_1_r. Qed.

#[global] Opaque be_bytes.

(** Two-byte values, the form [readUInt16BE] takes. *)
Lemma be_value_2 a b : be_value [a; b] = a * 256 + b.
Proof. unfold be_value. simpl. lia. Qed.

(** ** Reading: [buf.readUIntnnBE(off)], [buf.subarray(a, b)], [buf[i]] *)

Definition subarray (a b : nat) (buf : buffer) : buffer := take (b - a) (drop a buf).

Definition read_uint (n off : nat) (buf : buffer) : outcome Z :=
  if (off + n <=? length buf)%nat then Ret (be_value (subarray off (off + n) buf))
  else Throw RangeError.

Abbreviation read_u8 := (read_uint 1).
Abbreviation read_u16 := (read_uint 2).
Abbreviation read_u32 := (read_uint 4).

(** [buf[i]] used as a number: an absent byte ([undefined]) coerces to 0 in the
    bit operations the code applies to it. *)
Definition byte_at (i : nat) (buf : buffer) : Z := default 0 (buf !! i).

Lemma subarray_mid (p m s : buffer) a b :
  a = length p → b = (length p + length m)%nat → subarray a b (p ++ m ++ s) = m.
Proof.
  intros -> ->. unfold subarray. rewrite drop_app_length.
  by rewrite take_app_exact; [|lia].
Qed.

Lemma read_uint_mid n (p m s : buffer) off :
  off = length p → n = length m → read_uint n off (p ++ m ++ s) = Ret (be_value m).
Proof.
  intros -> ->. unfold read_uint. rewrite !length_app.
  destruct (Nat.leb_spec (length p + length m) (length p + (length m + length s))); [|lia].
  by rewrite subarray_mid.
Qed.

Lemma read_uint_ok n off buf :
  (off + n <= length buf)%nat → read_uint n off buf = Ret (be_value (subarray off (off + n) buf)).
Proof. intros. unfold read_uint. by rewrite (proj2 (Nat.leb_le _ _)). Qed.

Lemma read_uint_fail n off buf : (length buf < off + n)%nat → read_uint n off buf = Throw RangeError.
Proof. intros. unfold read_uint. by rewrite (proj2 (Nat.leb_gt _ _)). Qed.

Lemma bytes_ok_take n l : bytes_ok l → bytes_ok (take n l).
Proof. apply Forall_take. Qed.
Lemma bytes_ok_drop n l : bytes_ok l → bytes_ok (drop n l).
Proof. apply Forall_drop. Qed.
Lemma bytes_ok_subarray a b l : bytes_ok l → bytes_ok (subarray a b l).
Proof. intros. apply bytes_ok_take, bytes_ok_drop. done. Qed.
Lemma bytes_ok_app l k : bytes_ok (l ++ k) ↔ bytes_ok l ∧ bytes_ok k.
Proof. apply Forall_app. Qed.

Lemma subarray_plus a n (l : buffer) : subarray a (a + n) l = take n (drop a l).
Proof. unfold subarray. f_equal. lia. Qed.

Lemma length_subarray a b (l : buffer) :
  (b <= length l)%nat → length (subarray a b l) = (b - a)%nat.
Proof. intros. unfold subarray. rewrite length_take length_drop. lia. Qed.

(** ** Writing: [Buffer.alloc], [writeUIntnnBE], [src.copy(buf, off)] *)

Definition buf_alloc (n : nat) : buffer := replicate n 0.

Definition buf_copy (src : buffer) (off : nat) (buf : buffer) : buffer :=
  take (length buf) (take off buf ++ src ++ drop (off + length src) buf).

Definition write_uint (n : nat) (v : Z) (off : nat) (buf : buffer) : outcome buffer :=
  if (0 <=? v) && (v <? 256 ^ Z.of_nat n) && (off + n <=? length buf)%nat
  then Ret (buf_copy (be_bytes n v) off buf) else Throw RangeError.

Lemma length_buf_copy src off buf : length (buf_copy src off buf) = length buf.
Proof. unfold buf_copy. rewrite length_take !length_app length_take length_drop. lia. Qed.
#[export] Hint Rewrite length_buf_copy : mesh.

Lemma buf_copy_mid src (p m s : buffer) off :
  off = length p → length src = length m → buf_copy src off (p ++ m ++ s) = p ++ src ++ s.
Proof.
  intros -> Hl. unfold buf_copy. rewrite take_app_length.
  rewrite (assoc_L (++)) (drop_app_exact (p ++ m)); [|rewrite length_app; lia].
  rewrite take_ge; [done|]. rewrite !length_app. lia.
Qed.

Lemma write_uint_mid n v (p m s : buffer) off :
  0 <= v < 256 ^ Z.of_nat n → off = length p → n = length m →
  write_uint n v off (p ++ m ++ s) = Ret (p ++ be_bytes n v ++ s).
Proof.
  intros [H0 H1] Hoff Hn. unfold write_uint.
  rewrite (proj2 (Z.leb_le _ _) H0) (proj2 (Z.ltb_lt _ _) H1).
  rewrite (proj2 (Nat.leb_le _ _)); [simpl|rewrite !length_app; lia].
  by rewrite buf_copy_mid ?length_be_bytes.
Qed.

Lemma write_uint_Ret n v off buf b :
  write_uint n v off buf = Ret b →
  0 <= v < 256 ^ Z.of_nat n ∧ (off + n <= length buf)%nat ∧ b = buf_copy (be_bytes n v) off buf.
Proof.
  unfold write_uint. intros H. case_in H; simplify_eq. bool_to_prop.
  by rewrite ->Nat.leb_le in *.
Qed.

Lemma write_uint_big n v off buf :
  256 ^ Z.of_nat n <= v → write_uint n v off buf = Throw RangeError.
Proof. intros Hv. unfold write_uint. by rewrite (proj2 (Z.ltb_ge _ _) Hv) andb_false_r. Qed.

(** *** Sequential writes: [buffer.writeUInt8(v, offset++)] and friends *)

Record wbuf := Wbuf { wb_buf : buffer; wb_off : nat }.

Definition w_uint (n : nat) (v : Z) (w : wbuf) : outcome wbuf :=
  b ← write_uint n v (wb_off w) (wb_buf w); Ret (Wbuf b (wb_off w + n)).
Definition w_copy (src : buffer) (adv : nat) (w : wbuf) : wbuf :=
  Wbuf (buf_copy src (wb_off w) (wb_buf w)) (wb_off w + adv).

(** [wb_at pre k w]: [pre] has been written and [k] zero bytes remain. *)
Definition wb_at (pre : buffer) (k : nat) (w : wbuf) : Prop :=
  wb_buf w = pre ++ buf_alloc k ∧ wb_off w = length pre.

Lemma wb_at_alloc n : wb_at [] n (Wbuf (buf_alloc n) 0).
Proof. done. Qed.

Lemma buf_alloc_split n k : (n <= k)%nat → buf_alloc k = buf_alloc n ++ buf_alloc (k - n).
Proof. intros. unfold buf_alloc. rewrite -replicate_add. f_equal. lia. Qed.

Lemma w_uint_at n v pre k w :
  wb_at pre k w → (n <= k)%nat → 0 <= v < 256 ^ Z.of_nat n →
  ∃ w', w_uint n v w = Ret w' ∧ wb_at (pre ++ be_bytes n v) (k - n) w'.
Proof.
  intros [Hb Ho] Hk Hv. unfold w_uint.
  rewrite Hb (buf_alloc_split n) // (write_uint_mid _ _ _ _ _ _ Hv) //; last first.
  { by rewrite /buf_alloc length_replicate. }
  eexists. split; [done|]. split; simpl; [by rewrite -(assoc_L (++))|].
  rewrite Ho length_app length_be_bytes. done.
Qed.

Lemma w_copy_at src adv pre k w :
  wb_at pre k w → (length src <= k)%nat → adv = length src →
  wb_at (pre ++ src) (k - length src) (w_copy src adv w).
Proof.
  intros [Hb Ho] Hk ->. unfold w_copy. split; simpl.
  - rewrite Hb (buf_alloc_split (length src)) // buf_copy_mid.
    + by rewrite -(assoc_L (++)).
    + done.
    + by rewrite /buf_alloc length_replicate.
  - by rewrite Ho length_app.
Qed.

Lemma wb_at_done pre w : wb_at pre 0 w → wb_buf w = pre.
Proof. intros [-> _]. apply app_nil_r. Qed.

(** ** Sequential reads

    [drop off b = m ++ r] says what follows the read position; each lemma gives
    the value read and the same fact for the next position. *)

Lemma drop_next {A} off n (b m r : list A) :
  drop off b = m ++ r → length m = n → drop (off + n) b = r.
Proof. intros Hd <-. by rewrite -drop_drop Hd drop_app_length. Qed.

Lemma read_next n off b m r :
  drop off b = m ++ r → length m = n → (0 < n)%nat →
  read_uint n off b = Ret (be_value m) ∧ drop (off + n) b = r.
Proof.
  intros Hd Hm Hn. split; [|by eapply drop_next].
  pose proof (f_equal length Hd) as Hl. rewrite length_drop length_app in Hl.
  rewrite read_uint_ok; [|lia]. unfold subarray. rewrite Hd.
  by rewrite take_app_exact; [|lia].
Qed.

Lemma read_next_be n off b v r :
  drop off b = be_bytes n v ++ r → (0 < n)%nat → 0 <= v < 256 ^ Z.of_nat n →
  read_uint n off b = Ret v ∧ drop (off + n) b = r.
Proof.
  intros Hd Hn Hv. destruct (read_next n off b _ r Hd (length_be_bytes n v) Hn) as [-> Hr].
  by rewrite be_value_bytes.
Qed.

Lemma subarray_next off n b m r :
  drop off b = m ++ r → length m = n → subarray off (off + n) b = m.
Proof. intros Hd Hn. unfold subarray. rewrite Hd take_app_exact; [done|lia]. Qed.

(** *** Writes that do not throw, by position only *)

Lemma w_uint_total n v w :
  0 <= v < 256 ^ Z.of_nat n → (wb_off w + n <= length (wb_buf w))%nat →
  ∃ w', w_uint n v w = Ret w' ∧ length (wb_buf w') = length (wb_buf w) ∧
    wb_off w' = (wb_off w + n)%nat.
Proof.
  intros [H0 H1] Hl. unfold w_uint, write_uint.
  rewrite (proj2 (Z.leb_le _ _) H0) (proj2 (Z.ltb_lt _ _) H1) (proj2 (Nat.leb_le _ _) Hl).
  simpl. eexists. split; [done|]. by rewrite /= length_buf_copy.
Qed.

Lemma w_uint_Ret n v w w' :
  w_uint n v w = Ret w' →
  0 <= v < 256 ^ Z.of_nat n ∧ (wb_off w + n <= length (wb_buf w))%nat ∧
  length (wb_buf w') = length (wb_buf w) ∧ wb_off w' = (wb_off w + n)%nat.
Proof.
  unfold w_uint. intros (b & Hb & Hw)%outcome_bind_Ret.
  apply write_uint_Ret in Hb as (? & ? & ->). apply Ret_inj in Hw as <-.
  simpl. by rewrite length_buf_copy.
Qed.

(** ** Filling a zeroed buffer from the front

    [p ++ buf_alloc k] is a buffer whose first [length p] bytes are written. *)

(** [buf[i] = v]: ToUint8, ignored past the end. *)
Definition set_byte (i : nat) (v : Z) (buf : buffer) : buffer := <[i := v mod 256]> buf.

Lemma write_uint_zero n v p k off :
  off = length p → (n <= k)%nat → 0 <= v < 256 ^ Z.of_nat n →
  write_uint n v off (p ++ buf_alloc k) = Ret ((p ++ be_bytes n v) ++ buf_alloc (k - n)).
Proof.
  intros -> Hk Hv. rewrite (buf_alloc_split n k) // (write_uint_mid _ _ _ _ _ _ Hv) //.
  - by rewrite -(assoc_L (++)).
  - by rewrite /buf_alloc length_replicate.
Qed.

Lemma set_byte_mid i v p x s :
  i = length p → set_byte i v (p ++ x :: s) = p ++ (v mod 256) :: s.
Proof. intros ->. unfold set_byte. rewrite insert_app_r_alt // Nat.sub_diag. done. Qed.

Lemma set_byte_zero i v p k :
  i = length p → (0 < k)%nat →
  set_byte i v (p ++ buf_alloc k) = (p ++ [v mod 256]) ++ buf_alloc (k - 1).
Proof.
  intros Hi Hk. destruct k as [|k]; [lia|]. rewrite -(assoc_L (++)) /=.
  replace (k - 0)%nat with k by lia. by apply set_byte_mid.
Qed.

Lemma buf_copy_zero src off p k :
  off = length p → (length src <= k)%nat →
  buf_copy src off (p ++ buf_alloc k) = (p ++ src) ++ buf_alloc (k - length src).
Proof.
  intros -> Hk. rewrite (buf_alloc_split (length src) k) // buf_copy_mid //.
  - by rewrite -(assoc_L (++)).
  - by rewrite /buf_alloc length_replicate.
Qed.

Lemma buf_alloc_nil k : buf_alloc k = [] ++ buf_alloc k.
Proof. done. Qed.

Lemma length_buf_alloc n : length (buf_alloc n) = n.
Proof. apply length_replicate. Qed.
#[export] Hint Rewrite length_buf_alloc : mesh.

Lemma bytes_ok_alloc n : bytes_ok (buf_alloc n).
Proof. apply Forall_replicate. red. lia. Qed.

Lemma byte_next off b x r : drop off b = x :: r → byte_at off b = x ∧ drop (off + 1) b = r.
Proof.
  intros Hd. split; [|by eapply (drop_next off 1 b [x])].
  unfold byte_at. by rewrite -(Nat.add_0_r off) -lookup_drop Hd.
Qed.

(** [buf.readUInt16BE(off)] inside known bytes. *)
Lemma read_be_mid n v p s off :
  off = length p → 0 <= v < 256 ^ Z.of_nat n →
  read_uint n off (p ++ be_bytes n v ++ s) = Ret v.
Proof. intros -> Hv. rewrite read_uint_mid ?length_be_bytes // be_value_bytes //. Qed.
