(* ===== verification/JsString.v ===== *)
(** * JavaScript strings: literals, comparison, padding, UTF-8

    Strings are lists of UTF-16 code units.  [js] turns a Rocq literal into one,
    [num_str] is the decimal text of an integer in a template literal,
    [str_ltb] is the [<] of two strings, [utf8_encode] is [Buffer.from(s)] and
    [utf8_decode] is [buf.toString()]. *)

From S2P Require Import Prelude Bytes.
From Stdlib Require Import Ascii.
Local Open Scope Z_scope.

Definition js (s : string) : jstr :=
  map (λ a, Z.of_N (N_of_ascii a)) (String.list_ascii_of_string s).

(** [`${n}`] for an integer [n]. *)
Definition num_str (z : Z) : jstr := js (pretty z).

Lemma js_inj s t : js s = js t → s = t.
Proof.
  unfold js. revert t. induction s as [|a s IH]; intros [|b t]; simpl; [done..|].
  intros [= Ha%N2Z.inj Hs]. apply IH in Hs as ->.
  f_equal. rewrite -(ascii_N_embedding a) -(ascii_N_embedding b). by rewrite Ha.
Qed.

Lemma num_str_inj z1 z2 : num_str z1 = num_str z2 → z1 = z2.
Proof. intros H%js_inj. by apply (inj pretty). Qed.

(** ** Order: [a < b] on strings compares code units lexicographically *)

Fixpoint str_ltb (a b : jstr) : bool :=
  match a, b with
  | _, [] => false
  | [], _ :: _ => true
  | x :: a', y :: b' => (x <? y) || ((x =? y) && str_ltb a' b')
  end.

Lemma str_ltb_irrefl a : str_ltb a a = false.
Proof. induction a as [|x a IH]; simpl; [done|]. rewrite Z.ltb_irrefl Z.eqb_refl. done. Qed.

Lemma str_ltb_total a b : a ≠ b → str_ltb a b = negb (str_ltb b a).
Proof.
  revert b. induction a as [|x a IH]; intros [|y b] Hne; simpl; try done.
  destruct (Z.lt_trichotomy x y) as [Hlt|[->|Hlt]].
  - rewrite (proj2 (Z.ltb_lt x y) Hlt) (proj2 (Z.ltb_ge y x)); [|lia].
    rewrite (proj2 (Z.eqb_neq y x)); [done|lia].
  - rewrite Z.ltb_irrefl Z.eqb_refl. simpl. apply IH. congruence.
  - rewrite (proj2 (Z.ltb_lt y x) Hlt) (proj2 (Z.ltb_ge x y)); [|lia].
    rewrite (proj2 (Z.eqb_neq x y)); [done|lia].
Qed.

(** ** [s.padEnd(n, c)], [s.slice(0, n)], [s.replace(/\0/g, '')], [s.startsWith(p)] *)

Definition pad_end (n : nat) (c : Z) (s : jstr) : jstr := s ++ replicate (n - length s) c.
Definition slice0 (n : nat) (s : jstr) : jstr := take n s.
Definition strip_nul (s : jstr) : jstr := filter (λ c, c ≠ 0) s.
Definition starts_with (p s : jstr) : bool := bool_decide (take (length p) s = p).

(** ** UTF-8 *)

(** The code points of a UTF-16 string; a lone surrogate becomes U+FFFD. *)
Fixpoint code_points (s : jstr) : list Z :=
  match s with
  | [] => []
  | u :: s' =>
      if (0xD800 <=? u) && (u <=? 0xDBFF) then
        match s' with
        | l :: s'' =>
            if (0xDC00 <=? l) && (l <=? 0xDFFF)
            then (0x10000 + (u - 0xD800) * 0x400 + (l - 0xDC00)) :: code_points s''
            else 0xFFFD :: code_points s'
        | [] => [0xFFFD]
        end
      else if (0xDC00 <=? u) && (u <=? 0xDFFF) then 0xFFFD :: code_points s'
      else u :: code_points s'
  end.

Definition utf8_cp (c : Z) : buffer :=
  if c <? 0x80 then [c]
  else if c <? 0x800 then [0xC0 + c / 64; 0x80 + c mod 64]
  else if c <? 0x10000 then [0xE0 + c / 4096; 0x80 + (c / 64) mod 64; 0x80 + c mod 64]
  else [0xF0 + c / 262144; 0x80 + (c / 4096) mod 64; 0x80 + (c / 64) mod 64; 0x80 + c mod 64].

(** [Buffer.from(s)] *)
Definition utf8_encode (s : jstr) : buffer := mjoin (utf8_cp <$> code_points s).

(** Decoder state inside a multi-byte sequence: partial code point, bytes still
    needed, range of the next byte. *)
Record u8st := U8st { u8_cp : Z; u8_need : nat; u8_lo : Z; u8_hi : Z }.

Definition u8_start (b : Z) : list Z * option u8st :=
  if b <? 0x80 then ([b], None)
  else if (0xC2 <=? b) && (b <=? 0xDF) then ([], Some (U8st (b - 0xC0) 1 0x80 0xBF))
  else if (0xE0 <=? b) && (b <=? 0xEF) then
    ([], Some (U8st (b - 0xE0) 2 (if b =? 0xE0 then 0xA0 else 0x80)
                                 (if b =? 0xED then 0x9F else 0xBF)))
  else if (0xF0 <=? b) && (b <=? 0xF4) then
    ([], Some (U8st (b - 0xF0) 3 (if b =? 0xF0 then 0x90 else 0x80)
                                 (if b =? 0xF4 then 0x8F else 0xBF)))
  else ([0xFFFD], None).

Fixpoint u8_decode (st : option u8st) (l : buffer) : list Z :=
  match l with
  | [] => match st with Some _ => [0xFFFD] | None => [] end
  | b :: l' =>
      match st with
      | None => let (o, st') := u8_start b in o ++ u8_decode st' l'
      | Some s =>
          if (u8_lo s <=? b) && (b <=? u8_hi s) then
            let cp := u8_cp s * 64 + (b - 0x80) in
            if (u8_need s =? 1)%nat then cp :: u8_decode None l'
            else u8_decode (Some (U8st cp (u8_need s - 1) 0x80 0xBF)) l'
          else let (o, st') := u8_start b in 0xFFFD :: o ++ u8_decode st' l'
      end
  end.

Definition utf16_cp (c : Z) : jstr :=
  if c <? 0x10000 then [c]
  else [0xD800 + (c - 0x10000) / 0x400; 0xDC00 + (c - 0x10000) mod 0x400].

(** [buf.toString()] *)
Definition utf8_decode (b : buffer) : jstr := mjoin (utf16_cp <$> u8_decode None b).

(** *** Round trip *)

(** Valid code points: Unicode scalar values. *)
Definition scalar (c : Z) : Prop := 0 <= c < 0xD800 ∨ 0xE000 <= c < 0x110000.

(** Code units of a string without lone surrogates. *)
Fixpoint well_formed (s : jstr) : bool :=
  match s with
  | [] => true
  | u :: s' =>
      if (0xD800 <=? u) && (u <=? 0xDBFF) then
        match s' with
        | l :: s'' => (0xDC00 <=? l) && (l <=? 0xDFFF) && well_formed s''
        | [] => false
        end
      else (0 <=? u) && (u <? 0x10000) && negb ((0xDC00 <=? u) && (u <=? 0xDFFF)) && well_formed s'
  end.

Ltac ltb_cases :=
  repeat match goal with
  | |- context [?a <? ?b] => destruct (Z.ltb_spec a b); try lia; simpl
  | |- context [?a <=? ?b] => destruct (Z.leb_spec a b); try lia; simpl
  | |- context [?a =? ?b] => destruct (Z.eqb_spec a b); try lia; simpl
  end.

Lemma u8_start_2 b : 0xC2 <= b <= 0xDF → u8_start b = ([], Some (U8st (b - 0xC0) 1 0x80 0xBF)).
Proof. intros. unfold u8_start. ltb_cases. done. Qed.
Lemma u8_start_3 b : 0xE0 <= b <= 0xEF →
  u8_start b = ([], Some (U8st (b - 0xE0) 2 (if b =? 0xE0 then 0xA0 else 0x80)
                                 (if b =? 0xED then 0x9F else 0xBF))).
Proof.
  intros. unfold u8_start.
  rewrite (proj2 (Z.ltb_ge b 0x80)); [|lia]. rewrite (proj2 (Z.leb_gt b 0xDF)); [|lia].
  rewrite andb_false_r (proj2 (Z.leb_le 0xE0 b)); [|lia]. rewrite (proj2 (Z.leb_le b 0xEF)); [|lia].
  done.
Qed.
Lemma u8_start_4 b : 0xF0 <= b <= 0xF4 →
  u8_start b = ([], Some (U8st (b - 0xF0) 3 (if b =? 0xF0 then 0x90 else 0x80)
                                 (if b =? 0xF4 then 0x8F else 0xBF))).
Proof.
  intros. unfold u8_start.
  rewrite (proj2 (Z.ltb_ge b 0x80)); [|lia]. rewrite (proj2 (Z.leb_gt b 0xDF)); [|lia].
  rewrite (proj2 (Z.leb_gt b 0xEF)); [|lia].
  rewrite !andb_false_r (proj2 (Z.leb_le 0xF0 b)); [|lia]. rewrite (proj2 (Z.leb_le b 0xF4)); [|lia].
  done.
Qed.

(** One continuation byte is accepted. *)
Lemma u8_cont st b l :
  u8_lo st <= b <= u8_hi st →
  u8_decode (Some st) (b :: l) =
    (let cp := u8_cp st * 64 + (b - 0x80) in
     if (u8_need st =? 1)%nat then cp :: u8_decode None l
     else u8_decode (Some (U8st cp (u8_need st - 1) 0x80 0xBF)) l).
Proof.
  intros [H1 H2]. simpl. by rewrite (proj2 (Z.leb_le _ _) H1) (proj2 (Z.leb_le _ _) H2).
Qed.

Lemma u8_decode_start b l st :
  u8_start b = ([], st) → u8_decode None (b :: l) = u8_decode st l.
Proof. intros H. simpl. by rewrite H. Qed.

Lemma u8_decode_cp c l : scalar c → u8_decode None (utf8_cp c ++ l) = c :: u8_decode None l.
Proof.
  intros Hc. unfold utf8_cp. unfold scalar in Hc.
  destruct (Z.ltb_spec c 0x80); [simpl; rewrite /u8_start; ltb_cases; done|].
  destruct (Z.ltb_spec c 0x800); [|destruct (Z.ltb_spec c 0x10000)].
  - change ([?a; ?b] ++ l) with (a :: b :: l).
    assert (2 <= c / 64 < 32) by (split; [apply Z.div_le_lower_bound|apply Z.div_lt_upper_bound]; lia).
    pose proof (Z.mod_pos_bound c 64 ltac:(lia)).
    rewrite (u8_decode_start _ _ _ (u8_start_2 _ _)); [|lia].
    rewrite u8_cont /=; [|lia]. f_equal. pose proof (Z.div_mod c 64). lia.
  - change ([?a; ?b; ?d] ++ l) with (a :: b :: d :: l).
    assert (0 <= c / 4096 < 16) by (split; [apply Z.div_pos|apply Z.div_lt_upper_bound]; lia).
    pose proof (Z.mod_pos_bound c 64 ltac:(lia)). pose proof (Z.mod_pos_bound (c / 64) 64 ltac:(lia)).
    assert (c / 64 / 64 = c / 4096) as H64 by (rewrite Z.div_div; [done|lia..]).
    pose proof (Z.div_mod c 64). pose proof (Z.div_mod (c / 64) 64).
    rewrite (u8_decode_start _ _ _ (u8_start_3 _ _)); [|lia].
    rewrite u8_cont; cbn [u8_cp u8_need u8_lo u8_hi]; last first.
    { destruct (Z.eqb_spec (224 + c / 4096) 224), (Z.eqb_spec (224 + c / 4096) 237); lia. }
    cbn zeta. change (2 =? 1)%nat with false. cbn match.
    rewrite u8_cont /=; [|lia]. f_equal. lia.
  - change ([?a; ?b; ?d; ?e] ++ l) with (a :: b :: d :: e :: l).
    assert (0 <= c / 262144 < 5) by (split; [apply Z.div_pos|apply Z.div_lt_upper_bound]; lia).
    pose proof (Z.mod_pos_bound c 64 ltac:(lia)). pose proof (Z.mod_pos_bound (c / 64) 64 ltac:(lia)).
    pose proof (Z.mod_pos_bound (c / 4096) 64 ltac:(lia)).
    assert (c / 64 / 64 = c / 4096) by (rewrite Z.div_div; [done|lia..]).
    assert (c / 4096 / 64 = c / 262144) by (rewrite Z.div_div; [done|lia..]).
    pose proof (Z.div_mod c 64). pose proof (Z.div_mod (c / 64) 64). pose proof (Z.div_mod (c / 4096) 64).
    rewrite (u8_decode_start _ _ _ (u8_start_4 _ _)); [|lia].
    rewrite u8_cont; cbn [u8_cp u8_need u8_lo u8_hi]; last first.
    { destruct (Z.eqb_spec (240 + c / 262144) 240), (Z.eqb_spec (240 + c / 262144) 244); lia. }
    cbn zeta. change (3 =? 1)%nat with false. cbn match.
    rewrite u8_cont; cbn [u8_cp u8_need u8_lo u8_hi]; [|lia].
    cbn zeta. change (3 - 1 =? 1)%nat with false. cbn match.
    rewrite u8_cont /=; [|lia]. f_equal. lia.
Qed.

Lemma u8_decode_cps cs : Forall scalar cs → u8_decode None (mjoin (utf8_cp <$> cs)) = cs.
Proof. induction 1 as [|c cs Hc Hcs IH]; [done|]. csimpl. by rewrite u8_decode_cp // IH. Qed.

(** Induction over a well-formed string, one code point at a time. *)
Lemma well_formed_cps s :
  well_formed s = true →
  Forall scalar (code_points s) ∧ mjoin (utf16_cp <$> code_points s) = s.
Proof.
  remember (length s) as n eqn:Hn. revert s Hn.
  induction (lt_wf n) as [n _ IH]; intros s -> Hs.
  destruct s as [|u s']; [done|]. simpl in Hs |- *.
  destruct ((0xD800 <=? u) && (u <=? 0xDBFF)) eqn:Hhi.
  - destruct s' as [|l s'']; [done|]. bool_to_prop.
    destruct (IH (length s'')) with (s := s'') as [Hf Hj]; [simpl; lia|done|done|].
    rewrite (proj2 (Z.leb_le 0xDC00 l)) // (proj2 (Z.leb_le l 0xDFFF)) //. simpl.
    split; [constructor; [unfold scalar; lia|done]|]. csimpl. rewrite Hj.
    unfold utf16_cp. rewrite (proj2 (Z.ltb_ge _ _)); [|lia]. simpl.
    replace (0x10000 + (u - 0xD800) * 0x400 + (l - 0xDC00) - 0x10000)
      with ((l - 0xDC00) + (u - 0xD800) * 0x400) by lia.
    rewrite Z.div_add // Z_mod_plus_full Z.div_small ?Z.mod_small; [|lia..].
    f_equal; [lia|]. f_equal; lia.
  - destruct ((0xDC00 <=? u) && (u <=? 0xDFFF)) eqn:Hlo; [by rewrite andb_false_r in Hs|].
    bool_to_prop.
    destruct (IH (length s')) with (s := s') as [Hf Hj]; [simpl; lia|done|done|].
    assert (u < 0xD800 ∨ 0xDFFF < u).
    { apply andb_false_iff in Hhi as [?|?]; apply andb_false_iff in Hlo as [?|?]; bool_to_prop; lia. }
    split; [constructor; [unfold scalar; lia|done]|]. csimpl. rewrite Hj.
    unfold utf16_cp. by rewrite (proj2 (Z.ltb_lt u 0x10000)).
Qed.

Lemma utf8_roundtrip s : well_formed s = true → utf8_decode (utf8_encode s) = s.
Proof.
  intros [Hf Hj]%well_formed_cps. unfold utf8_decode, utf8_encode.
  by rewrite u8_decode_cps.
Qed.

(** *** ASCII strings: one byte per code unit *)

Definition ascii_str (s : jstr) : Prop := Forall (λ c, 0 <= c < 0x80) s.
#[export] Instance ascii_str_dec s : Decision (ascii_str s).
Proof. unfold ascii_str. apply _. Defined.

Lemma ascii_code_points s : ascii_str s → code_points s = s.
Proof.
  induction 1 as [|c s Hc Hs IH]; [done|]. simpl.
  rewrite (proj2 (Z.leb_gt 0xD800 c)) /=; [|lia].
  rewrite (proj2 (Z.leb_gt 0xDC00 c)) /=; [|lia]. by rewrite IH.
Qed.

Lemma ascii_encode s : ascii_str s → utf8_encode s = s.
Proof.
  intros Hs. unfold utf8_encode. rewrite ascii_code_points //.
  induction Hs as [|c s Hc Hs IH]; [done|]. csimpl. rewrite IH.
  unfold utf8_cp. by rewrite (proj2 (Z.ltb_lt c 0x80)); [|lia].
Qed.

Lemma ascii_decode s : ascii_str s → utf8_decode s = s.
Proof.
  intros Hs. unfold utf8_decode. assert (u8_decode None s = s) as ->.
  { induction Hs as [|c s Hc Hs IH]; [done|]. simpl. unfold u8_start.
    rewrite (proj2 (Z.ltb_lt c 0x80)) /=; [|lia]. by rewrite IH. }
  induction Hs as [|c s Hc Hs IH]; [done|]. csimpl. rewrite IH.
  unfold utf16_cp. by rewrite (proj2 (Z.ltb_lt c 0x10000)); [|lia].
Qed.

(** A decoding that is ASCII is of ASCII bytes: a sequence of several bytes, whole or
    broken, decodes to something else. *)
Lemma u8_decode_high l : ∀ s, 0x80 <= u8_lo s → 2 <= u8_cp s * 64 + (u8_lo s - 0x80) → (u8_need s = 1%nat → 2 <= u8_cp s) →
  ∃ c r, u8_decode (Some s) l = c :: r ∧ 0x80 <= c.
Proof.
  induction l as [|b l IH]; intros s Hlo Hcp H1; [by eexists _, []|]. cbn [u8_decode].
  destruct (_ && _) eqn:E; [|destruct (u8_start b) as [o st]; eexists _, _; split; [done|lia]]. bool_to_prop.
  destruct (Nat.eqb_spec (u8_need s) 1) as [En|En]; [eexists _, _; split; [done|]; specialize (H1 En); lia|].
  apply IH; cbn [u8_lo u8_cp]; lia.
Qed.

Lemma decode_ascii l : Forall (λ b, 0 <= b) l → ascii_str (utf8_decode l) → ascii_str l.
Proof.
  unfold utf8_decode. induction 1 as [|b l Hb _ IH]; intros H; [constructor|]. cbn [u8_decode] in H. unfold u8_start in H.
  assert (∀ c r, 0x80 <= c → ¬ ascii_str (mjoin (utf16_cp <$> c :: r))) as Hno.
  { intros c r Hc Ha. csimpl in Ha. unfold utf16_cp at 1 in Ha. apply Forall_app in Ha as [Ha _].
    destruct (Z.ltb_spec c 0x10000); apply Forall_cons in Ha as [Ha _]; [lia|].
    assert (0 <= (c - 0x10000) / 0x400) by (apply Z.div_pos; lia). lia. }
  destruct (Z.ltb_spec b 0x80) as [Hlt|Hge].
  - cbn [app] in H. csimpl in H. unfold utf16_cp at 1 in H. rewrite (proj2 (Z.ltb_lt b 0x10000)) in H; [|lia].
    apply Forall_app in H as [_ H]. constructor; [lia|by apply IH].
  - destruct (_ && _) eqn:E1; bool_to_prop.
    { destruct (u8_decode_high l (U8st (b - 0xC0) 1 0x80 0xBF)) as (c & r & E & Hc); cbn; [lia..|]. cbn [app] in H. rewrite E in H. by apply Hno in H. }
    destruct (_ && _) eqn:E2 in H; bool_to_prop.
    { match type of H with ascii_str (mjoin (_ <$> [] ++ u8_decode (Some ?s) l)) =>
        destruct (u8_decode_high l s) as (c & r & E & Hc) end; cbn; [case_match; lia|case_match; bool_to_prop; lia|done|].
      cbn [app] in H. rewrite E in H. by apply Hno in H. }
    destruct (_ && _) eqn:E3 in H; bool_to_prop; [|by apply Hno in H].
    match type of H with ascii_str (mjoin (_ <$> [] ++ u8_decode (Some ?s) l)) =>
      destruct (u8_decode_high l s) as (c & r & E & Hc) end; cbn; [case_match; lia|case_match; bool_to_prop; lia|done|].
    cbn [app] in H. rewrite E in H. by apply Hno in H.
Qed.

Lemma ascii_bytes_ok s : ascii_str s → bytes_ok s.
Proof. intros Hs. eapply Forall_impl; [exact Hs|]. intros c Hc. unfold byte_ok. simpl in Hc. lia. Qed.

Lemma ascii_js s :
  ascii_str (js s) ↔ Forall (λ a, (N_of_ascii a < 128)%N) (String.list_ascii_of_string s).
Proof.
  unfold ascii_str, js. rewrite Forall_map. apply Forall_iff. intros a. simpl. lia.
Qed.

(** [strip_nul] undoes the NUL padding of a string without NULs. *)
Lemma strip_nul_pad n s : Forall (λ c, c ≠ 0) s → strip_nul (pad_end n 0 s) = s.
Proof.
  intros Hs. unfold strip_nul, pad_end. rewrite filter_app.
  rewrite filter_all // filter_none ?app_nil_r //.
  apply Forall_replicate. auto.
Qed.

Lemma length_pad_end n c s : (length s <= n)%nat → length (pad_end n c s) = n.
Proof. intros. unfold pad_end. rewrite length_app length_replicate. lia. Qed.

(** ** Decimal numbers: [`${n}`], [Number(s)], [s.split(c)] *)

Definition digit (c : Z) : Prop := 48 <= c <= 57.
#[export] Instance digit_dec c : Decision (digit c).
Proof. unfold digit. apply _. Defined.

Fixpoint dec_go (a : Z) (s : jstr) : option Z :=
  match s with
  | [] => Some a
  | c :: s' => if decide (digit c) then dec_go (a * 10 + (c - 48)) s' else None
  end.

(** [Number(s)] on decimal integers; [None] ([NaN]) on any other string.  (The
    other numeric literals [Number] accepts do not occur in addresses.) *)
Definition js_number (s : jstr) : option Z :=
  match s with
  | 45 :: (_ :: _) as s' => Z.opp <$> dec_go 0 (tail s')
  | _ => dec_go 0 s
  end.

(** [s.split(c)] for a one-character separator. *)
Fixpoint js_split_go (c : Z) (cur : jstr) (s : jstr) : list jstr :=
  match s with
  | [] => [cur]
  | x :: s' => if x =? c then cur :: js_split_go c [] s' else js_split_go c (cur ++ [x]) s'
  end.
Definition js_split (c : Z) (s : jstr) : list jstr := js_split_go c [] s.

Lemma js_cons a s : js (String a s) = Z.of_N (N_of_ascii a) :: js s.
Proof. done. Qed.

Lemma pretty_N_char_digit x : (x < 10)%N → Z.of_N (N_of_ascii (pretty_N_char x)) = 48 + Z.of_N x.
Proof.
  intros H. assert (x = 0 ∨ x = 1 ∨ x = 2 ∨ x = 3 ∨ x = 4 ∨ x = 5 ∨ x = 6 ∨ x = 7 ∨ x = 8 ∨ x = 9)%N
    as Hx by lia.
  by repeat destruct Hx as [->|Hx]; subst.
Qed.

Lemma pretty_N_go_dec x : ∀ s,
  (Forall digit (js s) → Forall digit (js (pretty_N_go x s))) ∧
  dec_go 0 (js (pretty_N_go x s)) = dec_go (Z.of_N x) (js s).
Proof.
  induction (N.lt_wf_0 x) as [x _ IH]; intros s.
  destruct (decide (x = 0)%N) as [->|Hx]; [by rewrite pretty_N_go_0|].
  rewrite pretty_N_go_step; [|lia].
  pose proof (N.mod_lt x 10 ltac:(lia)) as Hm.
  pose proof (N.div_mod x 10 ltac:(lia)) as Hx'.
  assert (0 <= Z.of_N (x mod 10) < 10) as Hm' by (split; [apply N2Z.is_nonneg|exact (proj1 (N2Z.inj_lt _ _) Hm)]).
  assert (Z.of_N x = 10 * Z.of_N (x / 10) + Z.of_N (x mod 10)) as Hxz.
  { rewrite {1}Hx' N2Z.inj_add N2Z.inj_mul. done. }
  destruct (IH (x / 10)%N ltac:(apply N.div_lt; lia) (String (pretty_N_char (x mod 10)) s)) as [IHd IHv].
  rewrite js_cons pretty_N_char_digit // in IHd IHv. split.
  - intros Hs. apply IHd. constructor; [unfold digit; lia|done].
  - rewrite IHv. cbn [dec_go]. rewrite decide_True; [|unfold digit; lia]. f_equal. lia.
Qed.

Lemma num_str_nonneg n : 0 <= n → ∃ x, n = Z.of_N x ∧
  num_str n = if decide (x = 0)%N then js "0" else js (pretty_N_go x "").
Proof.
  intros Hn. exists (Z.to_N n). split; [lia|]. unfold num_str.
  destruct n; [done| |lia]. simpl. unfold pretty, pretty_Z, pretty, pretty_N.
  destruct (decide (N.pos p = 0)%N); done.
Qed.

Lemma num_str_digits n : 0 <= n → Forall digit (num_str n) ∧ num_str n ≠ [].
Proof.
  intros Hn. destruct (num_str_nonneg n Hn) as (x & -> & ->). case_decide as Hx.
  - split; [|done]. by apply Forall_singleton.
  - destruct (pretty_N_go_dec x "") as [Hd Hv]. split; [apply Hd; constructor|].
    intros He. rewrite He in Hv. simpl in Hv. simplify_eq. lia.
Qed.

Lemma js_number_num_str n : 0 <= n → js_number (num_str n) = Some n.
Proof.
  intros Hn. destruct (num_str_digits n Hn) as [Hd Hne].
  assert (js_number (num_str n) = dec_go 0 (num_str n)) as ->.
  { destruct Hd as [|c s Hc Hs]; [done|]. unfold js_number, digit in *.
    destruct (decide (c = 45)); [lia|]. repeat (case_match; try done). }
  destruct (num_str_nonneg n Hn) as (x & -> & ->). case_decide; [by subst|].
  by destruct (pretty_N_go_dec x "") as [_ ->].
Qed.

Lemma num_str_chars n : Forall (λ c, c = 45 ∨ digit c) (num_str n).
Proof.
  destruct (Z.leb_spec 0 n).
  - destruct (num_str_digits n) as [Hd _]; [done|]. eapply Forall_impl; [exact Hd|]. by right.
  - destruct n as [|p|p]; [done|done|]. unfold num_str, pretty, pretty_Z. simpl.
    change (js ("-" +:+ pretty (N.pos p))) with (45 :: num_str (Z.pos p)).
    constructor; [by left|]. destruct (num_str_digits (Z.pos p)) as [Hd _]; [done|].
    eapply Forall_impl; [exact Hd|]. by right.
Qed.

Lemma js_split_go_none c cur s k : c ∉ s →
  js_split_go c cur (s ++ c :: k) = (cur ++ s) :: js_split_go c [] k ∧
  js_split_go c cur s = [cur ++ s].
Proof.
  revert cur. induction s as [|x s IH]; intros cur Hc; simpl.
  - by rewrite Z.eqb_refl app_nil_r.
  - apply not_elem_of_cons in Hc as [Hx Hc].
    destruct (Z.eqb_spec x c) as [->|_]; [done|].
    destruct (IH (cur ++ [x]) Hc) as [-> ->]. by rewrite -(assoc_L (++)).
Qed.

(** A separator determines where a composite key splits. *)
Lemma sep_inj (c : Z) s s' k k' :
  c ∉ s → c ∉ s' → s ++ c :: k = s' ++ c :: k' → s = s' ∧ k = k'.
Proof.
  revert s'. induction s as [|x s IH]; intros [|y s'] Hs Hs' H; simplify_eq/=; [done|set_solver..|].
  destruct (IH s') as [-> ->]; [set_solver|set_solver|done|done].
Qed.

Lemma num_str_no_char c n : c ≠ 45 → ¬ digit c → c ∉ num_str n.
Proof.
  intros H1 H2 Hin. pose proof (num_str_chars n) as Hc. rewrite ->Forall_forall in Hc.
  destruct (Hc _ Hin); done.
Qed.

(** *** Dotted quads *)

Definition dotted (a b c d : Z) : jstr :=
  num_str a ++ 46 :: num_str b ++ 46 :: num_str c ++ 46 :: num_str d.

(** [s.split('.').map(Number)] *)
Definition ip_parts (s : jstr) : list (option Z) := js_number <$> js_split 46 s.

Lemma ip_parts_dotted a b c d :
  0 <= a → 0 <= b → 0 <= c → 0 <= d → ip_parts (dotted a b c d) = [Some a; Some b; Some c; Some d].
Proof.
  intros Ha Hb Hc Hd. unfold ip_parts, dotted, js_split.
  assert (∀ n, 46 ∉ num_str n) as Hn by (intros n; apply num_str_no_char; unfold digit; lia).
  rewrite (proj1 (js_split_go_none 46 _ _ _ (Hn a))) (proj1 (js_split_go_none 46 _ _ _ (Hn b))).
  rewrite (proj1 (js_split_go_none 46 _ _ _ (Hn c))) (proj2 (js_split_go_none 46 _ _ [] (Hn d))).
  simpl. by rewrite !js_number_num_str.
Qed.

Lemma dotted_inj a b c d a' b' c' d' :
  dotted a b c d = dotted a' b' c' d' → a = a' ∧ b = b' ∧ c = c' ∧ d = d'.
Proof.
  unfold dotted. assert (∀ n, 46 ∉ num_str n) as Hn by (intros n; apply num_str_no_char; unfold digit; lia).
  intros [Ha%num_str_inj H]%sep_inj; [|done|done].
  apply sep_inj in H as [Hb%num_str_inj H]; [|done|done].
  apply sep_inj in H as [Hc%num_str_inj Hd%num_str_inj]; done.
Qed.

(** ** [trim], [join], [includes], [toLowerCase] *)

(** [String.prototype.trim]: white space and line terminators. *)
Definition js_space (c : Z) : bool :=
  bool_decide (9 <= c <= 13 ∨ c = 32 ∨ c = 0xA0 ∨ c = 0x1680 ∨ 0x2000 <= c <= 0x200A ∨
    c = 0x2028 ∨ c = 0x2029 ∨ c = 0x202F ∨ c = 0x205F ∨ c = 0x3000 ∨ c = 0xFEFF).
Fixpoint trim_start (s : jstr) : jstr :=
  match s with c :: s' => if js_space c then trim_start s' else s | [] => [] end.
Definition js_trim (s : jstr) : jstr := rev (trim_start (rev (trim_start s))).
(** [arr.join(sep)] *)
Fixpoint js_join (sep : Z) (l : list jstr) : jstr :=
  match l with
  | [] => []
  | [x] => x
  | x :: l' => x ++ sep :: js_join sep l'
  end.
(** [s.includes(p)]. *)
Fixpoint js_includes (p s : jstr) : bool :=
  starts_with p s || match s with _ :: s' => js_includes p s' | [] => false end.
(** [toLowerCase] of ASCII text (and, compared with ASCII words without i and k, of any). *)
Definition ascii_lower (s : jstr) : jstr := (λ c, if (65 <=? c) && (c <=? 90) then c + 32 else c) <$> s.

Lemma trim_start_id s : Forall (λ c, js_space c = false) s → trim_start s = s.
Proof. destruct 1 as [|c s Hc _]; [done|]. cbn. by rewrite Hc. Qed.
Lemma trim_id s : Forall (λ c, js_space c = false) s → js_trim s = s.
Proof.
  intros Hs. unfold js_trim. rewrite trim_start_id // trim_start_id ?rev_involutive //.
  apply Forall_forall. intros c Hc. rewrite Forall_forall in Hs. apply Hs. by apply list_elem_of_In, in_rev, list_elem_of_In.
Qed.
