(* ===== verification/Effects.v ===== *)
(** * Stateful code that may throw

    [SM S A] is a computation on a state [S] that returns an [A] or throws, the
    state changes made before a throw being kept, as in the code.  [wp m Q s]:
    from [s], [m] returns (it does not throw) and the result satisfies [Q]. *)

From S2P Require Import Prelude.

Definition SM (S A : Type) : Type := S → outcome A * S.

#[export] Instance SM_ret S : MRet (SM S) := λ A a s, (Ret a, s).
#[export] Instance SM_bind S : MBind (SM S) := λ A B k m s,
  match m s with (Ret a, s') => k a s' | (Throw e, s') => (Throw e, s') end.

Section sm.
Context {S : Type}.

Definition get : SM S S := λ s, (Ret s, s).
Definition gets {A} (f : S → A) : SM S A := λ s, (Ret (f s), s).
Definition modify (f : S → S) : SM S () := λ s, (Ret tt, f s).
Definition lift {A} (o : outcome A) : SM S A := λ s, (o, s).
Definition skip : SM S () := mret tt.
(** [if (b) { m }] *)
Definition when (b : bool) (m : SM S ()) : SM S () := if b then m else skip.
(** [for (const a of l) { f(a) }] *)
Fixpoint for_each {A} (f : A → SM S ()) (l : list A) : SM S () :=
  match l with [] => skip | a :: l' => f a ;; for_each f l' end.
(** [try { m } catch (e) { h(e) }] *)
Definition try_catch {A} (m : SM S A) (h : js_error → SM S A) : SM S A := λ s,
  match m s with (Throw e, s') => h e s' | r => r end.
(** Run a computation on a part of the state; the part is missing: a [TypeError]. *)
Definition zoom {T A} (g : S → option T) (p : T → S → S) (m : SM T A) : SM S A := λ s,
  match g s with
  | Some t => let '(r, t') := m t in (r, p t' s)
  | None => (Throw TypeError, s)
  end.

Definition wp {A} (m : SM S A) (Q : A → S → Prop) (s : S) : Prop :=
  match m s with (Ret a, s') => Q a s' | (Throw _, _) => False end.

Lemma wp_ret {A} (a : A) (Q : A → S → Prop) s : Q a s → wp (mret a) Q s.
Proof. done. Qed.
Lemma wp_bind {A B} (m : SM S A) (k : A → SM S B) (Q : B → S → Prop) s :
  wp m (λ a, wp (k a) Q) s → wp (m ≫= k) Q s.
Proof. rewrite /wp /mbind /SM_bind. by destruct (m s) as [[a|e] s']. Qed.
Lemma wp_get (Q : S → S → Prop) s : Q s s → wp get Q s.
Proof. done. Qed.
Lemma wp_gets {A} (f : S → A) (Q : A → S → Prop) s : Q (f s) s → wp (gets f) Q s.
Proof. done. Qed.
Lemma wp_modify (f : S → S) (Q : () → S → Prop) s : Q tt (f s) → wp (modify f) Q s.
Proof. done. Qed.
Lemma wp_lift {A} (o : outcome A) a (Q : A → S → Prop) s : o = Ret a → Q a s → wp (lift o) Q s.
Proof. by intros ->. Qed.
Lemma wp_when b (m : SM S ()) (Q : () → S → Prop) s :
  (b = true → wp m Q s) → (b = false → Q tt s) → wp (when b m) Q s.
Proof. destruct b; simpl; [by auto|]. intros _ H. by apply wp_ret, H. Qed.
Lemma wp_mono {A} (m : SM S A) (P Q : A → S → Prop) s :
  wp m P s → (∀ a s', P a s' → Q a s') → wp m Q s.
Proof. rewrite /wp. destruct (m s) as [[a|e] s']; auto. Qed.
Lemma wp_run {A} (m : SM S A) (Q : A → S → Prop) s :
  wp m Q s → ∃ a, m s = (Ret a, (m s).2) ∧ Q a (m s).2.
Proof. rewrite /wp. destruct (m s) as [[a|e] s']; [by eexists|done]. Qed.
Lemma wp_and {A} (m : SM S A) (P Q : A → S → Prop) s :
  wp m P s → wp m Q s → wp m (λ a s', P a s' ∧ Q a s') s.
Proof. rewrite /wp. by destruct (m s) as [[a|e] s']. Qed.
Lemma wp_for_each {A} (f : A → SM S ()) (I : S → Prop) l s :
  (∀ a s, a ∈ l → I s → wp (f a) (λ _, I) s) → I s → wp (for_each f l) (λ _, I) s.
Proof.
  revert s. induction l as [|a l IH]; intros s Hf HI; simpl; [by apply wp_ret|].
  apply wp_bind. eapply wp_mono; [apply Hf; [left|done]|].
  intros [] s' HI'. apply IH; [|done]. intros b t Hb. apply Hf. by right.
Qed.
End sm.

Lemma wp_zoom {S T A} (g : S → option T) (p : T → S → S) (m : SM T A) (Q : A → S → Prop) s t :
  g s = Some t → wp m (λ a t', Q a (p t' s)) t → wp (zoom g p m) Q s.
Proof. rewrite /wp /zoom => -> . by destruct (m t) as [[a|e] t']. Qed.

#[global] Arguments wp : simpl never.

(** One step of symbolic execution. *)
Ltac wp_step :=
  lazymatch goal with
  | |- wp (mret _) _ _ => apply wp_ret
  | |- wp skip _ _ => apply wp_ret
  | |- wp (_ ≫= _) _ _ => apply wp_bind
  | |- wp get _ _ => apply wp_get
  | |- wp (gets _) _ _ => apply wp_gets
  | |- wp (modify _) _ _ => apply wp_modify
  | |- wp (when _ _) _ _ => apply wp_when; intros ?
  | |- wp (if ?b then _ else _) _ _ => destruct b eqn:?
  | |- wp (match ?x with _ => _ end) _ _ => destruct x eqn:?
  end.
Ltac wp_steps := repeat (wp_step; cbv beta).

(** Partial correctness: if the computation returns, the result satisfies [Q]. *)
Definition wlp {S A} (m : SM S A) (Q : A → S → Prop) (s : S) : Prop :=
  match m s with (Ret a, s') => Q a s' | (Throw _, _) => True end.

#[global] Arguments wlp : simpl never.

Section wlp.
Context {S : Type}.

Lemma wp_wlp {A} (m : SM S A) (Q : A → S → Prop) s : wp m Q s → wlp m Q s.
Proof. rewrite /wp /wlp. by destruct (m s) as [[a|e] s']. Qed.
Lemma wlp_ret {A} (a : A) (Q : A → S → Prop) s : Q a s → wlp (mret a) Q s.
Proof. done. Qed.
Lemma wlp_bind {A B} (m : SM S A) (k : A → SM S B) (Q : B → S → Prop) s :
  wlp m (λ a, wlp (k a) Q) s → wlp (m ≫= k) Q s.
Proof. rewrite /wlp /mbind /SM_bind. by destruct (m s) as [[a|e] s']. Qed.
Lemma wlp_any {A} (m : SM S A) (Q : A → S → Prop) s : (∀ a s', Q a s') → wlp m Q s.
Proof. intros HQ. unfold wlp. by destruct (m s) as [[a|e] s']. Qed.
(** Whatever the first computation does. *)
Lemma wlp_then {A B} (m : SM S A) (k : A → SM S B) (Q : B → S → Prop) s :
  (∀ a s', wlp (k a) Q s') → wlp (m ≫= k) Q s.
Proof. intros Hk. by apply wlp_bind, wlp_any. Qed.
Lemma wlp_get (Q : S → S → Prop) s : Q s s → wlp get Q s.
Proof. done. Qed.
Lemma wlp_gets {A} (f : S → A) (Q : A → S → Prop) s : Q (f s) s → wlp (gets f) Q s.
Proof. done. Qed.
Lemma wlp_modify (f : S → S) (Q : () → S → Prop) s : Q tt (f s) → wlp (modify f) Q s.
Proof. done. Qed.
Lemma wlp_lift {A} (o : outcome A) (Q : A → S → Prop) s :
  (∀ a, o = Ret a → Q a s) → wlp (lift o) Q s.
Proof. rewrite /wlp /lift. destruct o; auto. Qed.
Lemma wlp_when b (m : SM S ()) (Q : () → S → Prop) s :
  (b = true → wlp m Q s) → (b = false → Q tt s) → wlp (when b m) Q s.
Proof. destruct b; simpl; [by auto|]. intros _ H. by apply wlp_ret, H. Qed.
Lemma wlp_mono {A} (m : SM S A) (P Q : A → S → Prop) s :
  wlp m P s → (∀ a s', P a s' → Q a s') → wlp m Q s.
Proof. rewrite /wlp. destruct (m s) as [[a|e] s']; auto. Qed.
Lemma wlp_try_catch {A} (m : SM S A) h (Q : A → S → Prop) s :
  wlp m Q s → (∀ e s', wlp (h e) Q s') → wlp (try_catch m h) Q s.
Proof. unfold wlp, try_catch. destruct (m s) as [[a|e] s']; auto. intros _ Hh. apply Hh. Qed.
Lemma wlp_run {A} (m : SM S A) (Q : A → S → Prop) s a s' :
  wlp m Q s → m s = (Ret a, s') → Q a s'.
Proof. rewrite /wlp. intros H Hm. by rewrite Hm in H. Qed.
Lemma wlp_for_each {A} (f : A → SM S ()) (I : S → Prop) l s :
  (∀ a s, a ∈ l → I s → wlp (f a) (λ _, I) s) → I s → wlp (for_each f l) (λ _, I) s.
Proof.
  revert s. induction l as [|a l IH]; intros s Hf HI; simpl; [by apply wlp_ret|].
  apply wlp_bind. eapply wlp_mono; [apply Hf; [left|done]|].
  intros [] s' HI'. apply IH; [|done]. intros b t Hb. apply Hf. by right.
Qed.
End wlp.

Lemma wlp_zoom {S T A} (g : S → option T) (p : T → S → S) (m : SM T A) (Q : A → S → Prop) s :
  (∀ t, g s = Some t → wlp m (λ a t', Q a (p t' s)) t) → wlp (zoom g p m) Q s.
Proof.
  rewrite /wlp /zoom. destruct (g s) as [t|]; [|done]. intros H. specialize (H t eq_refl).
  by destruct (m t) as [[a|e] t'].
Qed.

Ltac wlp_step :=
  lazymatch goal with
  | |- wlp (mret _) _ _ => apply wlp_ret
  | |- wlp skip _ _ => apply wlp_ret
  | |- wlp (_ ≫= _) _ _ => apply wlp_bind
  | |- wlp get _ _ => apply wlp_get
  | |- wlp (gets _) _ _ => apply wlp_gets
  | |- wlp (modify _) _ _ => apply wlp_modify
  | |- wlp (lift _) _ _ => apply wlp_lift; intros ? ?
  | |- wlp (when _ _) _ _ => apply wlp_when; intros ?
  | |- wlp (if ?b then _ else _) _ _ => destruct b eqn:?
  | |- wlp (match ?x with _ => _ end) _ _ => destruct x eqn:?
  end.
Ltac wlp_steps := repeat (wlp_step; cbv beta).

Lemma wp_wlp_and {S A} (m : SM S A) (P Q : A → S → Prop) s :
  wp m P s → wlp m Q s → wp m (λ a s', P a s' ∧ Q a s') s.
Proof. rewrite /wp /wlp. by destruct (m s) as [[a|e] s']. Qed.

(** Running the first operation. *)
Lemma get_bind {S A} (k : S → SM S A) s : (get ≫= k) s = k s s.
Proof. done. Qed.
Lemma modify_bind {S A} (f : S → S) (k : () → SM S A) s : (modify f ≫= k) s = k tt (f s).
Proof. done. Qed.

(** ** Invariants: kept whether the computation returns or throws *)

Definition keeps {S A} (I : S → Prop) (m : SM S A) : Prop := ∀ s, I s → I (m s).2.

Section keeps.
Context {S : Type} (I : S → Prop).

Lemma keeps_ret {A} (a : A) : keeps I (mret a : SM S A).
Proof. by intros s. Qed.
Lemma keeps_bind {A B} (m : SM S A) (k : A → SM S B) : keeps I m → (∀ a, keeps I (k a)) → keeps I (m ≫= k).
Proof.
  intros Hm Hk s Hs. specialize (Hm s Hs). unfold mbind, SM_bind. destruct (m s) as [[a|e] s']; [|done].
  by apply Hk.
Qed.
Lemma keeps_bind_at {A B} (m : SM S A) (k : A → SM S B) s : I (m s).2 → (∀ a, keeps I (k a)) → I ((m ≫= k) s).2.
Proof. unfold mbind, SM_bind. destruct (m s) as [[a|e] s']; [|done]. intros Hs Hk. by apply Hk. Qed.
Lemma keeps_try_at {A} (m : SM S A) h s : I (m s).2 → (∀ e, keeps I (h e)) → I (try_catch m h s).2.
Proof. unfold try_catch. destruct (m s) as [[a|e] s']; [done|]. intros Hs Hh. by apply Hh. Qed.
Lemma keeps_get : keeps I get.
Proof. by intros s. Qed.
(** What the rest does may depend on the state it is in. *)
Lemma keeps_get_bind {A} (k : S → SM S A) : (∀ s, I s → I (k s s).2) → keeps I (get ≫= k).
Proof. by intros H s Hs; apply H. Qed.
Lemma keeps_modify (f : S → S) : (∀ s, I s → I (f s)) → keeps I (modify f).
Proof. by intros H s Hs; apply H. Qed.
Lemma keeps_lift {A} (o : outcome A) : keeps I (lift o).
Proof. by intros s. Qed.
Lemma keeps_when b (m : SM S ()) : (b = true → keeps I m) → keeps I (when b m).
Proof. destruct b; [by auto|]. intros _. apply keeps_ret. Qed.
Lemma keeps_for_each {A} (f : A → SM S ()) l : (∀ a, keeps I (f a)) → keeps I (for_each f l).
Proof. intros Hf. induction l; [apply keeps_ret|by apply keeps_bind]. Qed.
Lemma keeps_try_catch {A} (m : SM S A) h : keeps I m → (∀ e, keeps I (h e)) → keeps I (try_catch m h).
Proof.
  intros Hm Hh s Hs. specialize (Hm s Hs). unfold try_catch. destruct (m s) as [[a|e] s']; [done|by apply Hh].
Qed.
End keeps.

Ltac keeps_step :=
  lazymatch goal with
  | |- keeps _ (mret _) => apply keeps_ret
  | |- keeps _ skip => apply keeps_ret
  | |- keeps _ (_ ≫= _) => apply keeps_bind; [|intros ?]
  | |- keeps _ get => apply keeps_get
  | |- keeps _ (modify _) => apply keeps_modify; intros ? ?
  | |- keeps _ (lift _) => apply keeps_lift
  | |- keeps _ (when _ _) => apply keeps_when; intros ?
  | |- keeps _ (for_each _ _) => apply keeps_for_each; intros ?
  | |- keeps _ (try_catch _ _) => apply keeps_try_catch; [|intros ?]
  | |- keeps _ (if ?b then _ else _) => destruct b eqn:?
  | |- keeps _ (match ?x with _ => _ end) => destruct x eqn:?
  end.
Ltac keeps_steps := repeat (keeps_step; cbv beta).
