(* ===== verification/Fifo.v ===== *)
(** * The FIFO channel interface

    What the outgoing buffers promise their callers: every accepted message is
    delivered once, in the order of acceptance, or is still pending.  [Fifo] is
    the contract as a type class (a state machine with its pending queue and the
    messages an operation accepts and delivers); [fifo_run_spec] is the theorem
    every client uses.  TransportSendBuffer (SendBuffer.v), PacketBatcher
    (Batcher.v) and the per-peer retry queue of MeshNode (SendRetry.v) are its
    instances. *)

From S2P Require Import Prelude.

Class Fifo (S O M : Type) := {
  (** one operation: new state, messages it accepted, messages it delivered *)
  fifo_step : O → S → S * list M * list M;
  (** messages accepted and not yet delivered, oldest first *)
  fifo_pending : S → list M;
  (** invariant of the states, and the operations the contract covers *)
  fifo_inv : S → Prop;
  fifo_ok : O → Prop;
  fifo_law s o s' acc del :
    fifo_inv s → fifo_ok o → fifo_step o s = (s', acc, del) →
    fifo_inv s' ∧ fifo_pending s ++ acc = del ++ fifo_pending s';
}.

(** Run a list of operations, collecting what was accepted and delivered. *)
Fixpoint fifo_run {S O M} `{Fifo S O M} (ops : list O) (s : S) : S * list M * list M :=
  match ops with
  | [] => (s, [], [])
  | o :: ops' =>
      let '(s1, a1, d1) := fifo_step o s in
      let '(s2, a2, d2) := fifo_run ops' s1 in
      (s2, a1 ++ a2, d1 ++ d2)
  end.

Section fifo.
Context {S O M : Type} `{Fifo S O M}.

Lemma fifo_run_spec ops : ∀ s s' acc del,
  fifo_inv s → Forall fifo_ok ops → fifo_run ops s = (s', acc, del) →
  fifo_inv s' ∧ fifo_pending s ++ acc = del ++ fifo_pending s'.
Proof.
  induction ops as [|o ops IH]; simpl; intros s s' acc del Hs Hok Hrun.
  - simplify_eq. split; [done|]. by rewrite app_nil_r.
  - apply Forall_cons in Hok as [Ho Hok].
    destruct (fifo_step o s) as [[s1 a1] d1] eqn:E1.
    destruct (fifo_run ops s1) as [[s2 a2] d2] eqn:E2. simplify_eq.
    destruct (fifo_law _ _ _ _ _ Hs Ho E1) as [Hs1 Heq1].
    destruct (IH _ _ _ _ Hs1 Hok E2) as [Hs2 Heq2]. split; [done|].
    by rewrite (assoc_L (++)) Heq1 -!(assoc_L (++)) Heq2.
Qed.

Lemma fifo_run_app ops ops' s :
  fifo_run (ops ++ ops') s =
    let '(s1, a1, d1) := fifo_run ops s in
    let '(s2, a2, d2) := fifo_run ops' s1 in (s2, a1 ++ a2, d1 ++ d2).
Proof.
  revert s. induction ops as [|o ops IH]; intros s; simpl; [by destruct (fifo_run ops' s) as [[??]?]|].
  destruct (fifo_step o s) as [[s1 a1] d1]. rewrite IH. destruct (fifo_run ops s1) as [[s2 a2] d2].
  destruct (fifo_run ops' s2) as [[s3 a3] d3]. by rewrite !(assoc_L (++)).
Qed.

(** From an empty channel: what was delivered is a prefix of what was accepted. *)
Lemma fifo_run_prefix ops s s' acc del :
  fifo_inv s → fifo_pending s = [] → Forall fifo_ok ops → fifo_run ops s = (s', acc, del) →
  acc = del ++ fifo_pending s'.
Proof.
  intros Hs Hp Hok Hrun. destruct (fifo_run_spec _ _ _ _ _ Hs Hok Hrun) as [_ Heq].
  by rewrite Hp in Heq.
Qed.
End fifo.
