(* ===== verification/Framing.v ===== *)
(** * Length-prefixed entries

    The common part of the two aggregation formats: each packet is preceded by
    its length on [n] bytes ([n] = 2 in send-buffer.js, 4 in batcher.js).
    [write_entries] is the writing loop of both, [entries] the bytes it
    produces. *)

From S2P Require Import Prelude Bytes.
Local Open Scope Z_scope.

Section framing.
Context (n : nat).

Definition entry_size (p : buffer) : Z := Z.of_nat n + blen p.

(** [for (const pkt of packets) { buf.writeUIntBE(pkt.length, offset); pkt.copy(buf, offset) }] *)
Fixpoint write_entries (ps : list buffer) (w : wbuf) : outcome wbuf :=
  match ps with
  | [] => Ret w
  | pkt :: ps' =>
      w ← w_uint n (blen pkt) w;
      write_entries ps' (w_copy pkt (length pkt) w)
  end.

Definition entries (ps : list buffer) : buffer := ps ≫= λ p, be_bytes n (blen p) ++ p.

#[local] Arguments entries : simpl never.
#[local] Arguments entry_size : simpl never.

Lemma entries_cons p ps : entries (p :: ps) = be_bytes n (blen p) ++ p ++ entries ps.
Proof. unfold entries. rewrite bind_cons. by rewrite -(assoc_L (++)). Qed.

Lemma length_entries ps : Z.of_nat (length (entries ps)) = sumZ entry_size ps.
Proof.
  induction ps as [|p ps IH]; [done|].
  rewrite entries_cons !length_app length_be_bytes sumZ_cons -IH.
  unfold entry_size, blen. lia.
Qed.

Lemma blen_nonneg p : 0 <= blen p.
Proof. unfold blen. lia. Qed.

Lemma entry_size_ge p : Z.of_nat n <= entry_size p.
Proof. unfold entry_size. pose proof (blen_nonneg p). lia. Qed.

Lemma sum_entries_length ps : Z.of_nat n * Z.of_nat (length ps) <= sumZ entry_size ps.
Proof.
  induction ps as [|p ps IH]; simpl; [lia|]. pose proof (entry_size_ge p). lia.
Qed.

Lemma sum_entries_elem p ps : p ∈ ps → entry_size p <= sumZ entry_size ps.
Proof.
  induction 1 as [p ps|p q ps _ IH]; simpl.
  - pose proof (sum_entries_length ps). lia.
  - pose proof (entry_size_ge q). lia.
Qed.

(** The loop fills a buffer of exactly the right size, and does not throw when
    every length fits its field. *)
Lemma write_entries_at ps : ∀ pre k w,
  wb_at pre k w → Forall (λ p, blen p < 256 ^ Z.of_nat n) ps → sumZ entry_size ps = Z.of_nat k →
  ∃ w', write_entries ps w = Ret w' ∧ wb_at (pre ++ entries ps) 0 w'.
Proof.
  induction ps as [|p ps IH]; intros pre k w Hw Hps Hk.
  - exists w. split; [done|]. simpl in Hk. assert (k = 0%nat) as -> by lia.
    by rewrite app_nil_r.
  - apply Forall_cons in Hps as [Hp Hps]. rewrite sumZ_cons in Hk.
    pose proof (entry_size_ge p). pose proof (sum_entries_length ps).
    change (entry_size p) with (Z.of_nat n + Z.of_nat (length p)) in Hk, H.
    destruct (w_uint_at n (blen p) pre k w Hw) as (w1 & E1 & Hw1); [lia|unfold blen in *; lia|].
    simpl. rewrite E1. simpl.
    pose proof (w_copy_at p (length p) _ _ _ Hw1) as Hw2.
    destruct (IH _ _ _ (Hw2 ltac:(lia) eq_refl) Hps) as (w' & E & Hw'); [lia|].
    exists w'. split; [done|]. by rewrite entries_cons !(assoc_L (++)).
Qed.

End framing.
#[global] Arguments entries : simpl never.
#[global] Arguments entry_size : simpl never.
