(* ===== verification/SendBuffer.v ===== *)
(** * Transport-level aggregation (src/transport/send-buffer.js)

    [TransportSendBuffer] gathers small packets into frames
    [0xFE, count:16, (len:16, data)*]; [unframe] is the receiver.  A packet sent
    alone is sent as it is.  [isReady] is the transport's answer to each call
    inside one flush: an arbitrary function of the call's number. *)

From S2P Require Import Prelude Bytes Fifo Framing.
Local Open Scope Z_scope.

Definition FRAME_MARKER : Z := 0xFE.
Definition MAX_FRAME_SIZE : Z := 15000.
Definition FLUSH_INTERVAL_MS : Z := 2.
Definition HEADER_SIZE : Z := 3.
Definition DEFAULT_MAX_QUEUE : Z := 500.

(** ** Frames *)

Definition frame_size (ps : list buffer) : Z := HEADER_SIZE + sumZ (entry_size 2) ps.

(** [_sendFrame]: the bytes handed to [sendFn]. *)
Definition sendFrame (packets : list buffer) : outcome buffer :=
  match packets with
  | [p] => Ret p
  | _ =>
      let w := Wbuf (buf_alloc (Z.to_nat (frame_size packets))) 0 in
      let w := w_copy [FRAME_MARKER] 1 w in
      w ← w_uint 2 (Z.of_nat (length packets)) w;
      w ← write_entries 2 packets w;
      Ret (wb_buf w)
  end.

(** The loop of [unframe] from [offset], [i] entries to go; [None] is [null]. *)
Fixpoint unframe_loop (i : nat) (offset : nat) (data : buffer) : outcome (option (list buffer)) :=
  match i with
  | O => Ret (Some [])
  | S i' =>
      if (length data <? offset + 2)%nat then Ret None else
      len ← read_u16 offset data;
      let offset := (offset + 2)%nat in
      let len := Z.to_nat len in
      if (length data <? offset + len)%nat then Ret None else
      rest ← unframe_loop i' (offset + len) data;
      Ret (option_map (cons (subarray offset (offset + len) data)) rest)
  end.

Definition unframe (data : buffer) : outcome (option (list buffer)) :=
  if (HEADER_SIZE <=? blen data) && (byte_at 0 data =? FRAME_MARKER) then
    count ← read_u16 1 data;
    unframe_loop (Z.to_nat count) 3 data
  else Ret (Some [data]).

(** ** The buffer *)

Record TransportSendBuffer := SB {
  maxFrameSize : Z;
  maxQueuePackets : Z;
  packets : list buffer;
  currentSize : Z;
  timer : bool;        (** a flush timer is armed *)
}.

Definition sb_new (maxFrame maxQueue : option Z) : TransportSendBuffer :=
  SB (js_or maxFrame MAX_FRAME_SIZE) (js_or maxQueue DEFAULT_MAX_QUEUE)
     [] HEADER_SIZE false.

Definition sb_set (s : TransportSendBuffer) ps cs t : TransportSendBuffer :=
  SB (maxFrameSize s) (maxQueuePackets s) ps cs t.

(** The inner [for] of [_flush]: how many leading packets go into the next chunk. *)
Fixpoint batch_count (maxSize size : Z) (count : nat) (ps : list buffer) : nat :=
  match ps with
  | [] => count
  | p :: ps' =>
      let es := 2 + blen p in
      if (maxSize <? size + es) && (0 <? count)%nat then count
      else batch_count maxSize (size + es) (S count) ps'
  end.

(** The drain loop: frames sent and packets left. [fuel] is the number of packets:
    each round sends at least one ([drain_done]). *)
Fixpoint drain (fuel : nat) (calls : nat) (isReady : nat → bool) (maxSize : Z)
    (ps : list buffer) : outcome (list buffer * list buffer) :=
  match fuel, ps with
  | S fuel', _ :: _ =>
      if isReady calls then
        let count := batch_count maxSize HEADER_SIZE 0 ps in
        f ← sendFrame (take count ps);
        '(fs, rest) ← drain fuel' (S calls) isReady maxSize (drop count ps);
        Ret (f :: fs, rest)
      else Ret ([], ps)
  | _, _ => Ret ([], ps)
  end.

(** [_flush]: new state and frames handed to [sendFn]. *)
Definition sb_flush (isReady : nat → bool) (s : TransportSendBuffer) :
    outcome (TransportSendBuffer * list buffer) :=
  match packets s with
  | [] => Ret (sb_set s [] (currentSize s) false, [])
  | ps =>
      if negb (isReady 0%nat) then Ret (sb_set s ps (currentSize s) true, [])
      else if currentSize s <=? maxFrameSize s then
        f ← sendFrame ps;
        Ret (sb_set s [] HEADER_SIZE false, [f])
      else
        '(fs, rest) ← drain (length ps) 1 isReady (maxFrameSize s) ps;
        Ret (sb_set s rest (HEADER_SIZE + sumZ (entry_size 2) rest)
               (match rest with [] => false | _ => true end), fs)
  end.

(** [push]: the result, the new state and the frames sent. [r1] and [r2] answer
    [isReady] in its two possible flushes. *)
Definition sb_push (r1 r2 : nat → bool) (data : buffer) (s : TransportSendBuffer) :
    outcome (bool * TransportSendBuffer * list buffer) :=
  if maxQueuePackets s <=? Z.of_nat (length (packets s)) then Ret (false, s, [])
  else
    let entrySize := 2 + blen data in
    '(s, fs1) ←
      (if (maxFrameSize s <? currentSize s + entrySize) && (0 <? length (packets s))%nat
       then sb_flush r1 s else Ret (s, []));
    let s := sb_set s (packets s ++ [data]) (currentSize s + entrySize) (timer s) in
    if maxFrameSize s <=? currentSize s then
      '(s, fs2) ← sb_flush r2 s;
      Ret (true, s, fs1 ++ fs2)
    else Ret (true, sb_set s (packets s) (currentSize s) true, fs1).

(** [resume], [flush] and the timer's callback. *)
Definition sb_resume (r : nat → bool) (s : TransportSendBuffer) :=
  match packets s with [] => Ret (s, []) | _ => sb_flush r s end.
Definition sb_timer (r : nat → bool) (s : TransportSendBuffer) :=
  sb_flush r (sb_set s (packets s) (currentSize s) false).

Definition sb_stop (s : TransportSendBuffer) : TransportSendBuffer := sb_set s [] HEADER_SIZE false.
Definition sb_getQueueLength (s : TransportSendBuffer) : Z := Z.of_nat (length (packets s)).

(** ** Framing round trip *)

(** The bytes of a frame of several packets. *)
Lemma sendFrame_multi ps :
  length ps ≠ 1%nat → Forall (λ p, blen p < 65536) ps → Z.of_nat (length ps) < 65536 →
  sendFrame ps = Ret (FRAME_MARKER :: be_bytes 2 (Z.of_nat (length ps)) ++ entries 2 ps).
Proof.
  intros Hne Hps Hlen.
  assert (sendFrame ps =
    (w ← w_uint 2 (Z.of_nat (length ps))
      (w_copy [FRAME_MARKER] 1 (Wbuf (buf_alloc (Z.to_nat (frame_size ps))) 0));
     w ← write_entries 2 ps w; Ret (wb_buf w))) as -> by (by destruct ps as [|? [|? ?]]).
  pose proof (sum_entries_length 2 ps).
  assert (Z.to_nat (frame_size ps) = (3 + Z.to_nat (sumZ (entry_size 2) ps))%nat) as Hfs.
  { unfold frame_size, HEADER_SIZE. lia. }
  pose proof (w_copy_at [FRAME_MARKER] 1 _ _ _ (wb_at_alloc (Z.to_nat (frame_size ps)))) as H1.
  rewrite Hfs in H1 |- *. specialize (H1 ltac:(simpl; lia) eq_refl). simpl in H1.
  destruct (w_uint_at 2 (Z.of_nat (length ps)) _ _ _ H1) as (w1 & E1 & Hw1); [lia|lia|].
  rewrite E1. simpl.
  destruct (write_entries_at 2 ps _ _ _ Hw1 Hps) as (w2 & E2 & Hw2); [lia|].
  rewrite E2. simpl. f_equal. rewrite (wb_at_done _ _ Hw2). done.
Qed.

Lemma unframe_loop_entries ps : ∀ pre post,
  Forall (λ p, blen p < 65536) ps →
  unframe_loop (length ps) (length pre) (pre ++ entries 2 ps ++ post) = Ret (Some ps).
Proof.
  induction ps as [|p ps IH]; intros pre post Hps; [done|].
  apply Forall_cons in Hps as [Hp Hps]. rewrite entries_cons. cbn [unframe_loop length].
  rewrite -!(assoc_L (++)).
  destruct (Nat.ltb_spec (length (pre ++ be_bytes 2 (blen p) ++ p ++ entries 2 ps ++ post)) (length pre + 2));
    [rewrite !length_app length_be_bytes in H; lia|].
  rewrite (read_uint_mid 2 pre); [|done|by rewrite length_be_bytes].
  cbn [mbind outcome_bind].
  rewrite be_value_bytes; [|unfold blen in *; simpl; lia].
  unfold blen at 1 2 3. rewrite Nat2Z.id.
  assert (pre ++ be_bytes 2 (blen p) ++ p ++ entries 2 ps ++ post
          = (pre ++ be_bytes 2 (blen p)) ++ p ++ entries 2 ps ++ post) as Heq.
  { by rewrite -!(assoc_L (++)). }
  rewrite Heq subarray_mid; [|rewrite length_app length_be_bytes //|rewrite length_app length_be_bytes //].
  rewrite (assoc_L (++) (pre ++ be_bytes 2 (blen p)) p).
  replace (length pre + 2 + length p)%nat with (length ((pre ++ be_bytes 2 (blen p)) ++ p)).
  2:{ rewrite !length_app length_be_bytes. lia. }
  rewrite (proj2 (Nat.ltb_ge _ _)); [|rewrite !length_app; lia].
  by rewrite IH.
Qed.

(** A packet that the receiver does not mistake for a frame. *)
Definition plain (p : buffer) : Prop := blen p < HEADER_SIZE ∨ byte_at 0 p ≠ FRAME_MARKER.
#[export] Instance plain_dec p : Decision (plain p).
Proof. unfold plain. apply _. Defined.

Lemma unframe_plain p : plain p → unframe p = Ret (Some [p]).
Proof.
  intros Hp. unfold unframe.
  destruct ((HEADER_SIZE <=? blen p) && (byte_at 0 p =? FRAME_MARKER)) eqn:E; [|done].
  bool_to_prop. unfold plain in Hp. lia.
Qed.

Lemma unframe_multi ps :
  Forall (λ p, blen p < 65536) ps → Z.of_nat (length ps) < 65536 →
  unframe (FRAME_MARKER :: be_bytes 2 (Z.of_nat (length ps)) ++ entries 2 ps) = Ret (Some ps).
Proof.
  intros Hps Hlen. unfold unframe.
  set (d := FRAME_MARKER :: _).
  assert (HEADER_SIZE <= blen d) as Hd.
  { unfold d, blen, HEADER_SIZE. rewrite length_cons length_app length_be_bytes. lia. }
  rewrite (proj2 (Z.leb_le _ _) Hd) andb_true_l.
  assert ((byte_at 0 d =? FRAME_MARKER) = true) as -> by done.
  change d with ([FRAME_MARKER] ++ be_bytes 2 (Z.of_nat (length ps)) ++ entries 2 ps).
  rewrite read_uint_mid //. cbn [mbind outcome_bind].
  rewrite be_value_bytes; [|lia]. rewrite Nat2Z.id.
  pose proof (unframe_loop_entries ps ([FRAME_MARKER] ++ be_bytes 2 (Z.of_nat (length ps))) [] Hps) as H.
  rewrite app_nil_r -(assoc_L (++)) in H. apply H.
Qed.

(** [unframe] recovers the packets of every frame [_sendFrame] builds. *)
Lemma unframe_sendFrame ps f :
  ps ≠ [] → Forall plain ps → sendFrame ps = Ret f →
  Forall (λ p, blen p < 65536) ps → Z.of_nat (length ps) < 65536 →
  unframe f = Ret (Some ps).
Proof.
  intros Hne Hpl Hf Hps Hlen. destruct ps as [|p [|q ps]]; [done| |].
  - simpl in Hf. simplify_eq. apply unframe_plain. by apply Forall_cons in Hpl as [].
  - rewrite sendFrame_multi // in Hf. simplify_eq. by apply unframe_multi.
Qed.

(** ** The buffer's invariant *)

(** [fs] are the frames of consecutive chunks of [ps]; a chunk fits the frame
    size or is a single packet. *)
Inductive carries (maxSize : Z) : list buffer → list buffer → Prop :=
  | carries_nil : carries maxSize [] []
  | carries_cons g f fs ps :
      g ≠ [] → sendFrame g = Ret f → frame_size g <= maxSize ∨ length g = 1%nat →
      carries maxSize fs ps → carries maxSize (f :: fs) (g ++ ps).

Lemma carries_app m fs1 ps1 fs2 ps2 :
  carries m fs1 ps1 → carries m fs2 ps2 → carries m (fs1 ++ fs2) (ps1 ++ ps2).
Proof.
  induction 1 as [|g f fs ps Hg Hf Hs Hc IH]; intros H2; [done|].
  simpl. rewrite -(assoc_L (++)). constructor; auto.
Qed.

Lemma carries_single m g f :
  g ≠ [] → sendFrame g = Ret f → frame_size g <= m ∨ length g = 1%nat → carries m [f] g.
Proof. intros. rewrite -(app_nil_r g). constructor; auto using carries. Qed.

(** A frame-sized chunk can always be encoded. *)
Lemma frame_size_small g m :
  frame_size g <= m → m <= 65535 →
  Forall (λ p, blen p < 65536) g ∧ Z.of_nat (length g) < 65536.
Proof.
  unfold frame_size, HEADER_SIZE. intros H1 H2. split.
  - apply Forall_forall. intros p Hp. apply (sum_entries_elem 2) in Hp.
    change (entry_size 2 p) with (2 + blen p) in Hp. lia.
  - pose proof (sum_entries_length 2 g). lia.
Qed.

Lemma sendFrame_total g m :
  g ≠ [] → frame_size g <= m ∨ length g = 1%nat → m <= 65535 → ∃ f, sendFrame g = Ret f.
Proof.
  intros Hne Hg Hm. destruct (decide (length g = 1%nat)) as [H1|H1].
  - destruct g as [|p [|? ?]]; try done. by eexists.
  - destruct Hg as [Hg|]; [|done]. destruct (frame_size_small _ _ Hg Hm).
    rewrite sendFrame_multi //. by eexists.
Qed.

(** What the receiver gets from the frames. *)
Definition received (fs : list buffer) : list buffer :=
  fs ≫= λ f, match unframe f with Ret (Some ps) => ps | _ => [] end.

Lemma received_app fs1 fs2 : received (fs1 ++ fs2) = received fs1 ++ received fs2.
Proof. apply bind_app. Qed.

Lemma carries_received m fs ps :
  m <= 65535 → carries m fs ps → Forall plain ps → received fs = ps.
Proof.
  intros Hm. induction 1 as [|g f fs ps Hg Hf Hs Hc IH]; intros Hpl; [done|].
  apply Forall_app in Hpl as [Hpg Hpl]. unfold received. csimpl. fold (received fs).
  rewrite IH //. f_equal. destruct (decide (length g = 1%nat)) as [H1|H1].
  - destruct g as [|p [|? ?]]; try done. simpl in Hf. simplify_eq.
    rewrite unframe_plain //. by apply Forall_cons in Hpg as [].
  - destruct Hs as [Hs|]; [|done]. destruct (frame_size_small _ _ Hs Hm).
    by rewrite (unframe_sendFrame g f).
Qed.

(** Every frame can be read. *)
Lemma carries_decoded m fs ps : m <= 65535 → carries m fs ps → Forall plain ps → Forall (λ f, ∃ ps, unframe f = Ret (Some ps)) fs.
Proof.
  intros Hm. induction 1 as [|g f fs ps Hg Hf Hs Hc IH]; intros Hpl; [constructor|].
  apply Forall_app in Hpl as [Hpg Hpl]. constructor; [exists g|by apply IH]. destruct (decide (length g = 1%nat)) as [H1|H1].
  - destruct g as [|p [|? ?]]; try done. simpl in Hf. simplify_eq. rewrite unframe_plain //. by apply Forall_cons in Hpg as [].
  - destruct Hs as [Hs|]; [|done]. destruct (frame_size_small _ _ Hs Hm). by rewrite (unframe_sendFrame g f).
Qed.

Lemma batch_count_spec m ps : ∀ pre size,
  size = frame_size pre → (length pre = 0%nat ∨ length pre = 1%nat ∨ size <= m) →
  ∃ n, batch_count m size (length pre) ps = (length pre + n)%nat ∧ (n <= length ps)%nat ∧
    (ps ≠ [] → pre = [] → (0 < n)%nat) ∧
    (frame_size (pre ++ take n ps) <= m ∨ (length (pre ++ take n ps) <= 1)%nat).
Proof.
  induction ps as [|p ps IH]; intros pre size -> Hpre.
  - exists 0%nat. rewrite take_nil app_nil_r. simpl. split; [lia|]. split; [lia|]. split; [done|].
    destruct Hpre as [?|[?|?]]; [right|right|left]; lia.
  - simpl. case_match eqn:E.
    + bool_to_prop. apply Nat.ltb_lt in H0. exists 0%nat. rewrite take_0 app_nil_r.
      split; [lia|]. split; [lia|]. split; [by intros _ ->|].
      destruct Hpre as [?|[?|?]]; [lia|right; lia|by left].
    + destruct (IH (pre ++ [p]) (frame_size pre + (2 + blen p))) as (n & En & Hn & _ & Hs).
      { unfold frame_size. rewrite sumZ_app /= /entry_size /=. lia. }
      { rewrite length_app /=. apply andb_false_iff in E as [E|E].
        - apply Z.ltb_ge in E. right. by right.
        - apply Nat.ltb_ge in E. right. left. lia. }
      rewrite length_app /= in En. rewrite Nat.add_1_r in En.
      exists (S n). simpl. split; [lia|]. split; [lia|]. split; [lia|].
      rewrite -(assoc_L (++)) in Hs. exact Hs.
Qed.

(** Each round of the drain loop takes a non-empty chunk of frame size. *)
Lemma batch_count_chunk m ps :
  ps ≠ [] → let n := batch_count m HEADER_SIZE 0 ps in
  (0 < n <= length ps)%nat ∧ (frame_size (take n ps) <= m ∨ length (take n ps) = 1%nat).
Proof.
  intros Hne n. destruct (batch_count_spec m ps [] HEADER_SIZE) as (k & Ek & Hk & Hpos & Hs).
  { unfold frame_size. simpl. lia. }
  { by left. }
  simpl in Ek. fold n in Ek. subst k. specialize (Hpos Hne eq_refl).
  split; [lia|]. simpl in Hs. destruct Hs as [?|Hs]; [by left|right].
  rewrite length_take in Hs |- *. lia.
Qed.

(** The loop sends whole chunks in order and stops empty or not ready. *)
Lemma drain_spec fuel : ∀ calls r m ps,
  m <= 65535 → (length ps <= fuel)%nat →
  ∃ fs rest sent, drain fuel calls r m ps = Ret (fs, rest) ∧ ps = sent ++ rest ∧
    carries m fs sent ∧ (rest = [] ∨ ∃ c, r c = false).
Proof.
  induction fuel as [|fuel IH]; intros calls r m ps Hm Hf; simpl.
  - destruct ps; [|simpl in Hf; lia]. exists [], [], []. split; [done|]. split; [done|].
    split; [constructor|by left].
  - destruct ps as [|p ps]; [exists [], [], []; split; [done|]; split; [done|];
      split; [constructor|by left]|].
    destruct (r calls) eqn:Er.
    2:{ exists [], (p :: ps), []. split; [done|]. split; [done|].
        split; [constructor|right; by eexists]. }
    set (l := p :: ps). destruct (batch_count_chunk m l) as [[Hn Hn'] Hs]; [done|].
    set (n := batch_count m HEADER_SIZE 0 l) in *.
    assert (take n l ≠ []) as Hne by (intros H%(f_equal length); rewrite length_take in H; simpl in H; lia).
    destruct (sendFrame_total _ _ Hne Hs Hm) as [f Ef]. rewrite Ef. simpl.
    destruct (IH (S calls) r m (drop n l) Hm) as (fs & rest & sent & E & Hsp & Hc & Hr).
    { rewrite length_drop. unfold l in *. simpl in *. lia. }
    rewrite E. simpl. exists (f :: fs), rest, (take n l ++ sent).
    split; [done|]. split; [by rewrite -(assoc_L (++)) -Hsp take_drop|].
    split; [|done]. by constructor.
Qed.

Definition sb_inv (s : TransportSendBuffer) : Prop :=
  maxFrameSize s <= 65535 ∧ currentSize s = frame_size (packets s) ∧
  (packets s ≠ [] → timer s = true).

Lemma sb_flush_spec r s :
  maxFrameSize s <= 65535 → currentSize s = frame_size (packets s) →
  ∃ s' fs sent, sb_flush r s = Ret (s', fs) ∧ sb_inv s' ∧
    packets s = sent ++ packets s' ∧ carries (maxFrameSize s) fs sent ∧
    maxFrameSize s' = maxFrameSize s ∧ maxQueuePackets s' = maxQueuePackets s.
Proof.
  intros Hm Hc. unfold sb_flush. destruct (packets s) as [|p ps] eqn:Ep.
  { exists (sb_set s [] (currentSize s) false), [], []. split; [done|].
    split; [by split|]. split; [done|]. split; [constructor|done]. }
  destruct (r 0%nat) eqn:Er; simpl.
  2:{ exists (sb_set s (p :: ps) (currentSize s) true), [], []. split; [done|].
      split; [by split|]. split; [done|]. split; [constructor|done]. }
  destruct (Z.leb_spec (currentSize s) (maxFrameSize s)) as [Hle|Hgt].
  - rewrite Hc in Hle. destruct (sendFrame_total (p :: ps) (maxFrameSize s)) as [f Ef]; [done|by left|done|].
    simpl in Ef. rewrite Ef. simpl. exists (sb_set s [] HEADER_SIZE false), [f], (p :: ps).
    split; [done|]. split; [by split|]. split; [by rewrite app_nil_r|].
    split; [|done]. apply carries_single; [done|done|by left].
  - destruct (drain_spec (length (p :: ps)) 1 r (maxFrameSize s) (p :: ps)) as
      (fs & rest & sent & E & Hsp & Hcar & _); [done|done|].
    simpl in E. rewrite E. simpl.
    eexists _, fs, sent. split; [done|]. split; [|by split].
    split; [done|]. split; [done|]. by destruct rest.
Qed.

Lemma sb_push_spec r1 r2 data s :
  sb_inv s →
  ∃ b s' fs sent, sb_push r1 r2 data s = Ret (b, s', fs) ∧ sb_inv s' ∧
    packets s ++ (if b then [data] else []) = sent ++ packets s' ∧
    carries (maxFrameSize s) fs sent ∧ maxFrameSize s' = maxFrameSize s ∧
    b = (Z.of_nat (length (packets s)) <? maxQueuePackets s).
Proof.
  intros (Hm & Hc & Ht). unfold sb_push.
  destruct (Z.leb_spec (maxQueuePackets s) (Z.of_nat (length (packets s)))) as [Hle|Hlt].
  { exists false, s, [], []. split; [done|]. split; [done|]. rewrite app_nil_r.
    split; [done|]. split; [constructor|]. split; [done|]. symmetry. by apply Z.ltb_ge. }
  assert (∃ s1 fs1 sent1,
    (if (maxFrameSize s <? currentSize s + (2 + blen data)) && (0 <? length (packets s))%nat
     then sb_flush r1 s else Ret (s, [])) = Ret (s1, fs1) ∧ sb_inv s1 ∧
    packets s = sent1 ++ packets s1 ∧ carries (maxFrameSize s) fs1 sent1 ∧
    maxFrameSize s1 = maxFrameSize s) as (s1 & fs1 & sent1 & -> & (Hm1 & Hc1 & Ht1) & Hp1 & Hcar1 & Hmf).
  { case_match.
    - destruct (sb_flush_spec r1 s Hm Hc) as (s1 & fs1 & sent1 & ? & ? & ? & ? & ? & ?). eauto 10.
    - exists s, [], []. split; [done|]. split; [done|]. split; [done|]. split; [constructor|done]. }
  cbn [mbind outcome_bind]. set (s2 := sb_set s1 _ _ _).
  assert (currentSize s2 = frame_size (packets s2)) as Hc2.
  { simpl. rewrite Hc1. unfold frame_size. rewrite sumZ_app /= /entry_size /=. lia. }
  assert (true = (Z.of_nat (length (packets s)) <? maxQueuePackets s)) as Htrue.
  { symmetry. by apply Z.ltb_lt. }
  case_match eqn:E.
  - destruct (sb_flush_spec r2 s2) as (s3 & fs2 & sent2 & -> & Hi & Hp & Hcar & Hmf2 & _); [done..|].
    simpl. exists true, s3, (fs1 ++ fs2), (sent1 ++ sent2). split; [done|]. split; [done|].
    split; [|split; [|split; [by rewrite Hmf2|done]]].
    + simpl in Hp. by rewrite Hp1 -!(assoc_L (++)) Hp.
    + apply carries_app; [done|]. simpl in Hcar. by rewrite -Hmf.
  - exists true, (sb_set s2 (packets s2) (currentSize s2) true), fs1, sent1.
    split; [done|]. split; [by split|]. split; [|done]. simpl. by rewrite Hp1 (assoc_L (++)).
Qed.

(** ** Runs of the buffer *)

Inductive sb_op :=
  | SbPush (r1 r2 : nat → bool) (data : buffer)
  | SbFlush (r : nat → bool)
  | SbResume (r : nat → bool)
  | SbTimer (r : nat → bool).

(** One operation: new state, packets accepted ([push] returned [true]), frames sent. *)
Definition sb_step (o : sb_op) (s : TransportSendBuffer) :
    outcome (TransportSendBuffer * list buffer * list buffer) :=
  match o with
  | SbPush r1 r2 data =>
      '(b, s', fs) ← sb_push r1 r2 data s; Ret (s', (if b : bool then [data] else []), fs)
  | SbFlush r => '(s', fs) ← sb_flush r s; Ret (s', @nil buffer, fs)
  | SbResume r => '(s', fs) ← sb_resume r s; Ret (s', @nil buffer, fs)
  | SbTimer r => '(s', fs) ← sb_timer r s; Ret (s', @nil buffer, fs)
  end.

Fixpoint sb_run (ops : list sb_op) (s : TransportSendBuffer) :
    outcome (TransportSendBuffer * list buffer * list buffer) :=
  match ops with
  | [] => Ret (s, [], [])
  | o :: ops' =>
      '(s1, a1, f1) ← sb_step o s;
      '(s2, a2, f2) ← sb_run ops' s1;
      Ret (s2, a1 ++ a2, f1 ++ f2)
  end.

Definition sb_op_plain (o : sb_op) : Prop :=
  match o with SbPush _ _ data => plain data | _ => True end.

Lemma sb_step_spec o s :
  sb_inv s →
  ∃ s' acc fs sent, sb_step o s = Ret (s', acc, fs) ∧ sb_inv s' ∧
    maxFrameSize s' = maxFrameSize s ∧ (sb_op_plain o → Forall plain acc) ∧
    packets s ++ acc = sent ++ packets s' ∧ carries (maxFrameSize s) fs sent.
Proof.
  intros Hi. pose proof Hi as (Hm & Hc & _). destruct o as [r1 r2 data|r|r|r]; simpl.
  - destruct (sb_push_spec r1 r2 data s Hi) as (b & s' & fs & sent & E & Hi' & Hp & Hcar & Hmf & _).
    rewrite E. simpl. exists s', (if b then [data] else []), fs, sent. split; [done|]. split; [done|]. split; [done|].
    split; [by destruct b; intros; [apply Forall_singleton|constructor]|done].
  - destruct (sb_flush_spec r s Hm Hc) as (s' & fs & sent & -> & Hi' & Hp & Hcar & Hmf & _).
    simpl. exists s', [], fs, sent. rewrite app_nil_r. split_and!; try done; constructor.
  - destruct (decide (packets s = [])) as [Ep|Ep].
    + exists s, [], [], []. unfold sb_resume. rewrite Ep. split_and!; try done; constructor.
    + assert (sb_resume r s = sb_flush r s) as -> by (unfold sb_resume; by destruct (packets s)).
      destruct (sb_flush_spec r s Hm Hc) as (s' & fs & sent & -> & Hi' & Hp & Hcar & Hmf & _).
      simpl. exists s', [], fs, sent. rewrite app_nil_r. split_and!; try done; constructor.
  - unfold sb_timer.
    destruct (sb_flush_spec r (sb_set s (packets s) (currentSize s) false) Hm Hc)
      as (s' & fs & sent & -> & Hi' & Hp & Hcar & Hmf & _).
    simpl in *. exists s', [], fs, sent. rewrite app_nil_r. split_and!; try done; constructor.
Qed.

Lemma sb_run_spec ops : ∀ s,
  sb_inv s → Forall sb_op_plain ops →
  ∃ s' acc fs sent, sb_run ops s = Ret (s', acc, fs) ∧ sb_inv s' ∧
    maxFrameSize s' = maxFrameSize s ∧ Forall plain acc ∧
    packets s ++ acc = sent ++ packets s' ∧ carries (maxFrameSize s) fs sent.
Proof.
  induction ops as [|o ops IH]; intros s Hi Hops; simpl.
  - exists s, [], [], []. split_and!; try done; [by rewrite app_nil_r|constructor].
  - apply Forall_cons in Hops as [Ho Hops].
    destruct (sb_step_spec o s Hi) as (s1 & a1 & f1 & t1 & -> & Hi1 & Hm1 & Hp1 & He1 & Hc1). simpl.
    destruct (IH s1 Hi1 Hops) as (s2 & a2 & f2 & t2 & -> & Hi2 & Hm2 & Hp2 & He2 & Hc2). simpl.
    exists s2, (a1 ++ a2), (f1 ++ f2), (t1 ++ t2). split; [done|]. split; [done|].
    split; [congruence|]. split; [by apply Forall_app; auto|]. split.
    + by rewrite (assoc_L (++)) He1 -!(assoc_L (++)) He2.
    + apply carries_app; [done|]. by rewrite -Hm1.
Qed.

(** A frame is within the frame size, or is one packet sent alone. *)
Lemma carries_bound m fs ps :
  m <= 65535 → carries m fs ps → Forall (λ f, blen f <= m ∨ f ∈ ps) fs.
Proof.
  intros Hm. induction 1 as [|g f fs ps Hg Hf Hs Hc IH]; constructor.
  - destruct (decide (length g = 1%nat)) as [H1|H1].
    + destruct g as [|p [|? ?]]; try done. simpl in Hf. simplify_eq. right. set_solver.
    + destruct Hs as [Hs|]; [|done]. left. destruct (frame_size_small _ _ Hs Hm).
      rewrite sendFrame_multi // in Hf. apply Ret_inj in Hf as <-.
      unfold blen. rewrite length_cons length_app length_be_bytes.
      pose proof (length_entries 2 g). unfold frame_size, HEADER_SIZE in Hs. lia.
  - eapply Forall_impl; [exact IH|]. intros f' [?|?]; [by left|right; set_solver].
Qed.

Lemma sb_new_inv mf mq : js_or mf MAX_FRAME_SIZE <= 65535 → sb_inv (sb_new mf mq).
Proof. by split. Qed.

#[export] Program Instance sb_fifo : Fifo TransportSendBuffer sb_op buffer := {
  fifo_step o s := match sb_step o s with
                   | Ret (s', acc, fs) => (s', acc, received fs) | Throw _ => (s, [], []) end;
  fifo_pending := packets;
  fifo_inv s := sb_inv s ∧ Forall plain (packets s);
  fifo_ok := sb_op_plain
}.
Next Obligation.
  intros s o s' acc del [Hi Hpl] Ho. simpl.
  destruct (sb_step_spec o s Hi) as (s1 & a1 & fs & sent & -> & Hi1 & _ & Ha & Heq & Hc).
  intros ?; simplify_eq. assert (Forall plain (sent ++ packets s')) as Hp.
  { rewrite -Heq. apply Forall_app. auto. }
  apply Forall_app in Hp as [Hps Hp']. split; [by split|].
  rewrite (carries_received (maxFrameSize s) fs sent) //. by destruct Hi.
Qed.

(** C7: whatever the order of pushes, flushes, resumes and timer ticks and
    whatever the transport answers to [isReady], the send buffer never throws,
    the receiver's [unframe] of the frames it sends yields exactly the accepted
    packets that are no longer queued, once each and in the order of acceptance;
    no frame exceeds the frame size unless it is a single packet, and a
    non-empty queue always has its flush timer armed. *)
Theorem sb_delivery (mf mq : option Z) (ops : list sb_op) :
  js_or mf MAX_FRAME_SIZE <= 65535 → Forall sb_op_plain ops →
  ∃ s' acc fs, sb_run ops (sb_new mf mq) = Ret (s', acc, fs) ∧
    acc = received fs ++ packets s' ∧
    Forall (λ f, blen f <= js_or mf MAX_FRAME_SIZE ∨ f ∈ acc) fs ∧
    (packets s' ≠ [] → timer s' = true).
Proof.
  intros Hm Hops.
  destruct (sb_run_spec ops (sb_new mf mq) (sb_new_inv _ _ Hm) Hops)
    as (s' & acc & fs & sent & E & Hi & Hmf & Hpl & Heq & Hc). simpl in *.
  exists s', acc, fs. split; [done|]. subst acc. apply Forall_app in Hpl as [Hps _].
  split; [by rewrite (carries_received _ _ _ Hm Hc)|]. split; [|by destruct Hi as (_ & _ & ?)].
  eapply Forall_impl; [by eapply carries_bound|]. intros f [?|?]; [by left|right; set_solver].
Qed.

Lemma sb_delivery_witness :
  ∃ s' acc fs,
    sb_run [SbPush (λ _, true) (λ _, true) [1; 2]; SbPush (λ _, true) (λ _, false) [3];
            SbTimer (λ _, true)] (sb_new None None) = Ret (s', acc, fs) ∧
    acc = received fs ++ packets s' ∧
    Forall (λ f, blen f <= js_or None MAX_FRAME_SIZE ∨ f ∈ acc) fs ∧
    (packets s' ≠ [] → timer s' = true).
Proof.
  apply sb_delivery; [vm_compute; congruence|].
  repeat constructor; left; vm_compute; reflexivity.
Defined.

(** *** Malformed input *)

Lemma read_uint_bounds n off buf v :
  bytes_ok buf → read_uint n off buf = Ret v → 0 <= v < 256 ^ Z.of_nat n ∧ (off + n <= length buf)%nat.
Proof.
  intros Hb. unfold read_uint. case_match eqn:E; [|done]. intros [= <-]. apply Nat.leb_le in E.
  split; [|done]. pose proof (be_value_range _ (bytes_ok_subarray off (off + n) _ Hb)) as H.
  rewrite length_subarray // in H. by replace (off + n - off)%nat with n in H by lia.
Qed.

Lemma unframe_loop_spec data i : ∀ off,
  bytes_ok data → (off <= length data)%nat →
  ∃ r, unframe_loop i off data = Ret r ∧
    (∀ ps, r = Some ps → length ps = i ∧
       ∃ post, drop off data = entries 2 ps ++ post).
Proof.
  induction i as [|i IH]; intros off Hb Hoff; simpl.
  - exists (Some []). split; [done|]. intros ps [= <-]. split; [done|]. by exists (drop off data).
  - destruct (Nat.ltb_spec (length data) (off + 2)); [by exists None|].
    rewrite read_uint_ok //. simpl.
    set (v := be_value _). pose proof (be_value_range _ (bytes_ok_subarray off (off + 2) _ Hb)) as Hv.
    rewrite length_subarray // in Hv. fold v in Hv.
    destruct (Nat.ltb_spec (length data) (off + 2 + Z.to_nat v)) as [|Hlen]; [by exists None|].
    destruct (IH (off + 2 + Z.to_nat v)%nat Hb Hlen) as (r & -> & Hr). simpl.
    destruct r as [ps|]; [|by exists None]. simpl. eexists. split; [done|].
    intros ps' [= <-]. destruct (Hr ps eq_refl) as (Hl & post & Hd).
    split; [simpl; lia|].
    set (p := subarray (off + 2) (off + 2 + Z.to_nat v) data).
    assert (length p = Z.to_nat v) as Hp by (unfold p; rewrite length_subarray; lia).
    exists post.
    rewrite entries_cons -!(assoc_L (++)) -Hd.
    assert (be_bytes 2 (blen p) = subarray off (off + 2) data) as ->.
    { unfold blen. rewrite Hp Z2Nat.id; [|lia]. unfold v.
      apply be_bytes_value; [by apply bytes_ok_subarray|rewrite length_subarray; lia]. }
    unfold p, subarray.
    replace (off + 2 - off)%nat with 2%nat by lia.
    replace (off + 2 + Z.to_nat v - (off + 2))%nat with (Z.to_nat v) by lia.
    rewrite -{1}(take_drop 2 (drop off data)). f_equal.
    rewrite drop_drop -{1}(take_drop (Z.to_nat v) (drop (off + 2) data)). f_equal.
    by rewrite drop_drop.
Qed.

(** on any received bytes [unframe] terminates without an exception; when
    it returns packets for a marked frame they are the entries the frame really
    contains (as many as the header announces, and a prefix of its bytes), so a
    truncated frame is always refused as a whole. *)
Theorem unframe_safe (data : buffer) :
  bytes_ok data →
  ∃ r, unframe data = Ret r ∧
    (∀ ps, r = Some ps →
       ps = [data] ∧ plain data ∨
       ∃ post, data = FRAME_MARKER :: be_bytes 2 (Z.of_nat (length ps)) ++ entries 2 ps ++ post).
Proof.
  intros Hb. unfold unframe. case_match eqn:E.
  2:{ eexists. split; [done|]. intros ps [= <-]. left. split; [done|].
      unfold plain. apply andb_false_iff in E as [?|?]; bool_to_prop; [left|right]; lia. }
  bool_to_prop. unfold HEADER_SIZE, blen in *.
  destruct data as [|m data]; [simpl in *; lia|]. unfold byte_at in H0. simpl in H0. subst m.
  rewrite read_uint_ok; [simpl|simpl in *; lia].
  set (v := be_value _). pose proof (be_value_range _ (bytes_ok_subarray 1 3 _ Hb)) as Hv.
  rewrite length_subarray in Hv; [|simpl in *; lia]. fold v in Hv.
  destruct (unframe_loop_spec (FRAME_MARKER :: data) (Z.to_nat v) 3 Hb) as (r & -> & Hr).
  { simpl in *. lia. }
  exists r. split; [done|]. intros ps ->. destruct (Hr ps eq_refl) as (Hl & post & Hd).
  right. exists post. rewrite Hl Z2Nat.id; [|lia]. apply (f_equal (cons FRAME_MARKER)).
  assert (be_bytes 2 v = take 2 data) as ->.
  { unfold v. change (take 2 data) with (subarray 1 3 (FRAME_MARKER :: data)).
    apply be_bytes_value; [by apply bytes_ok_subarray|]. rewrite length_subarray; simpl in *; lia. }
  rewrite -Hd. simpl. by rewrite take_drop.
Qed.

Lemma unframe_safe_witness :
  ∃ r, unframe [0xFE; 0; 1; 0; 2; 7; 8] = Ret r ∧
    (∀ ps, r = Some ps →
       ps = [[0xFE; 0; 1; 0; 2; 7; 8]] ∧ plain [0xFE; 0; 1; 0; 2; 7; 8] ∨
       ∃ post, [0xFE; 0; 1; 0; 2; 7; 8] =
         FRAME_MARKER :: be_bytes 2 (Z.of_nat (length ps)) ++ entries 2 ps ++ post).
Proof. apply unframe_safe. by apply (bool_decide_unpack _). Defined.

(** A single packet that starts with the marker byte is sent raw and then
    misread by the receiver as a frame. *)
Lemma single_marker_packet_misread :
  sendFrame [[0xFE; 0; 0; 9]] = Ret [0xFE; 0; 0; 9] ∧ unframe [0xFE; 0; 0; 9] = Ret (Some []).
Proof. done. Qed.
