(* ===== verification/Batcher.v ===== *)
(** * Packet batching per peer (src/network/batcher.js)

    [PacketBatcher] collects the packets of one peer into batches
    [0xFF, 0xFF, count:16, (len:32, data)*]; a packet alone is sent as it is and
    [unbatch] is the receiver.  A batch object is reached through the map only,
    and its timer's callback flushes that object, so the state is the map. *)

From S2P Require Import Prelude JsMap Bytes JsString Fifo Framing.
Local Open Scope Z_scope.

Definition MAX_BATCH_SIZE : Z := 16384.
Definition BATCH_TIMEOUT_MS : Z := 15.

Record batch := Batch { b_packets : list buffer; b_size : Z; b_timer : bool }.
Definition batch_empty : batch := Batch [] 0 false.

(** [this.batches]: peerId -> batch *)
Abbreviation PacketBatcher := (omap jstr batch).

(** [_createBatch] *)
Definition createBatch (packets : list buffer) : outcome buffer :=
  let totalSize := 4 + sumZ (entry_size 4) packets in
  let w := Wbuf (buf_alloc (Z.to_nat totalSize)) 0 in
  w ← w_uint 1 0xFF w;
  w ← w_uint 1 0xFF w;
  w ← w_uint 2 (Z.of_nat (length packets)) w;
  w ← write_entries 4 packets w;
  Ret (wb_buf w).

(** [_flush] on the batch object: the object afterwards and what [sendFn] got. *)
Definition bt_flush (b : batch) : outcome (batch * list buffer) :=
  match b_packets b with
  | [] => Ret (Batch [] (b_size b) false, [])
  | [p] => Ret (batch_empty, [p])
  | ps => f ← createBatch ps; Ret (batch_empty, [f])
  end.

(** [add]: returns [true] always; the frames go to [peerId]. *)
Definition bt_add (peerId : jstr) (packet : buffer) (m : PacketBatcher) :
    outcome (PacketBatcher * list buffer) :=
  let b := default batch_empty (om_get peerId m) in
  let packetSize := 4 + blen packet in
  '(b, fs1) ←
    (if (0 <? b_size b) && (MAX_BATCH_SIZE <? b_size b + packetSize)
     then '(_, fs) ← bt_flush b; Ret (batch_empty, fs) else Ret (b, []));
  let b := Batch (b_packets b ++ [packet]) (b_size b + packetSize) true in
  '(b, fs2) ← (if MAX_BATCH_SIZE <=? b_size b then bt_flush b else Ret (b, []));
  Ret (om_set peerId b m, fs1 ++ fs2).

(** The timer of a peer's batch fires. *)
Definition bt_timer (peerId : jstr) (m : PacketBatcher) : outcome (PacketBatcher * list buffer) :=
  match om_get peerId m with
  | Some b => if b_timer b then '(b, fs) ← bt_flush b; Ret (om_set peerId b m, fs) else Ret (m, [])
  | None => Ret (m, [])
  end.

(** [flushAll]: the frames with their peers, in map order. *)
Fixpoint bt_flush_list (l : list (jstr * batch)) : outcome (list (jstr * buffer)) :=
  match l with
  | [] => Ret []
  | (p, b) :: l' =>
      '(_, fs) ← bt_flush b;
      rest ← bt_flush_list l';
      Ret (map (pair p) fs ++ rest)
  end.
Definition bt_flushAll (m : PacketBatcher) : outcome (PacketBatcher * list (jstr * buffer)) :=
  fs ← bt_flush_list m; Ret ([], fs).

Definition bt_stop (m : PacketBatcher) : PacketBatcher := [].

(** [unbatch]: stops early, keeping what it has read, on a truncated batch. *)
Fixpoint unbatch_loop (i : nat) (offset : nat) (data : buffer) : outcome (list buffer) :=
  match i with
  | O => Ret []
  | S i' =>
      if (length data <=? offset)%nat then Ret [] else
      if (length data <? offset + 4)%nat then Ret [] else
      pktLen ← read_u32 offset data;
      let offset := (offset + 4)%nat in
      let pktLen := Z.to_nat pktLen in
      if (length data <? offset + pktLen)%nat then Ret [] else
      rest ← unbatch_loop i' (offset + pktLen) data;
      Ret (subarray offset (offset + pktLen) data :: rest)
  end.

Definition unbatch (data : buffer) : outcome (list buffer) :=
  if (4 <=? blen data) && (byte_at 0 data =? 0xFF) && (byte_at 1 data =? 0xFF) then
    packetCount ← read_u16 2 data;
    unbatch_loop (Z.to_nat packetCount) 4 data
  else Ret [data].

(** ** Round trip *)

Definition batch_plain (p : buffer) : Prop :=
  blen p < 4 ∨ byte_at 0 p ≠ 0xFF ∨ byte_at 1 p ≠ 0xFF.
#[export] Instance batch_plain_dec p : Decision (batch_plain p).
Proof. unfold batch_plain. apply _. Defined.

Lemma unbatch_plain p : batch_plain p → unbatch p = Ret [p].
Proof.
  intros Hp. unfold unbatch. case_match eqn:E; [|done]. bool_to_prop. unfold batch_plain in Hp. lia.
Qed.

Lemma createBatch_bytes ps :
  Forall (λ p, blen p < 2 ^ 32) ps → Z.of_nat (length ps) < 65536 →
  createBatch ps = Ret ([0xFF; 0xFF] ++ be_bytes 2 (Z.of_nat (length ps)) ++ entries 4 ps).
Proof.
  intros Hps Hlen. unfold createBatch.
  pose proof (sum_entries_length 4 ps).
  replace (Z.to_nat (4 + sumZ (entry_size 4) ps)) with (4 + Z.to_nat (sumZ (entry_size 4) ps))%nat by lia.
  destruct (w_uint_at 1 0xFF _ _ _ (wb_at_alloc (4 + Z.to_nat (sumZ (entry_size 4) ps))))
    as (w1 & -> & Hw1); [lia|lia|].
  cbn [mbind outcome_bind].
  destruct (w_uint_at 1 0xFF _ _ _ Hw1) as (w2 & -> & Hw2); [lia|lia|].
  cbn [mbind outcome_bind].
  destruct (w_uint_at 2 (Z.of_nat (length ps)) _ _ _ Hw2) as (w3 & -> & Hw3); [lia|lia|].
  cbn [mbind outcome_bind].
  destruct (write_entries_at 4 ps _ _ _ Hw3) as (w4 & -> & Hw4); [done|lia|].
  cbn [mbind outcome_bind]. rewrite (wb_at_done _ _ Hw4). by rewrite -!(assoc_L (++)).
Qed.

Lemma unbatch_loop_entries ps : ∀ pre post,
  Forall (λ p, blen p < 2 ^ 32) ps →
  unbatch_loop (length ps) (length pre) (pre ++ entries 4 ps ++ post) = Ret ps.
Proof.
  induction ps as [|p ps IH]; intros pre post Hps; [done|].
  apply Forall_cons in Hps as [Hp Hps]. rewrite entries_cons. cbn [unbatch_loop length].
  rewrite -!(assoc_L (++)).
  set (d := pre ++ _). assert (length d = length pre + 4 + length p + length (entries 4 ps ++ post))%nat as Hd.
  { unfold d. rewrite !length_app length_be_bytes. lia. }
  rewrite (proj2 (Nat.leb_gt _ _)); [|lia]. rewrite (proj2 (Nat.ltb_ge _ _)); [|lia].
  unfold d at 1. rewrite (read_uint_mid 4 pre); [|done|by rewrite length_be_bytes].
  cbn [mbind outcome_bind].
  rewrite be_value_bytes; [|split; [apply blen_nonneg|exact Hp]].
  unfold blen. rewrite Nat2Z.id. rewrite (proj2 (Nat.ltb_ge _ _)); [|rewrite !length_app length_be_bytes; lia].
  assert (d = (pre ++ be_bytes 4 (blen p)) ++ p ++ entries 4 ps ++ post) as Heq.
  { unfold d. by rewrite -!(assoc_L (++)). }
  rewrite Heq subarray_mid; [|rewrite length_app length_be_bytes //..].
  rewrite (assoc_L (++) (pre ++ be_bytes 4 (blen p)) p).
  replace (length pre + 4 + length p)%nat with (length ((pre ++ be_bytes 4 (blen p)) ++ p)).
  2:{ rewrite !length_app length_be_bytes. lia. }
  by rewrite IH.
Qed.

Lemma unbatch_createBatch ps f :
  createBatch ps = Ret f → Forall (λ p, blen p < 2 ^ 32) ps → Z.of_nat (length ps) < 65536 →
  unbatch f = Ret ps.
Proof.
  intros Hf Hps Hlen. rewrite createBatch_bytes // in Hf. apply Ret_inj in Hf as <-.
  unfold unbatch. set (d := [0xFF; 0xFF] ++ _).
  assert (4 <= blen d) as Hd.
  { unfold d, blen. rewrite !length_app length_be_bytes. simpl. lia. }
  rewrite (proj2 (Z.leb_le _ _) Hd). change (byte_at 0 d =? 0xFF) with true.
  change (byte_at 1 d =? 0xFF) with true. cbn [andb].
  unfold d at 1. rewrite read_uint_mid //. cbn [mbind outcome_bind].
  rewrite be_value_bytes; [|lia]. rewrite Nat2Z.id.
  pose proof (unbatch_loop_entries ps ([0xFF; 0xFF] ++ be_bytes 2 (Z.of_nat (length ps))) [] Hps) as H.
  rewrite app_nil_r -(assoc_L (++)) length_app length_be_bytes in H. exact H.
Qed.

(** ** The FIFO contract of one peer's channel *)

Inductive bt_op := BtAdd (peerId : jstr) (packet : buffer) | BtTimer (peerId : jstr).

(** What the receiver at the other end obtains from the frames sent to it. *)
Definition unbatched (fs : list buffer) : list buffer :=
  fs ≫= λ f, match unbatch f with Ret ps => ps | _ => [] end.

Lemma unbatched_app fs1 fs2 : unbatched (fs1 ++ fs2) = unbatched fs1 ++ unbatched fs2.
Proof. apply bind_app. Qed.

(** Size accounting, the bound before an [add], and the armed timer. *)
Definition batch_inv (b : batch) : Prop :=
  b_size b = sumZ (entry_size 4) (b_packets b) ∧
  (b_size b <= MAX_BATCH_SIZE ∨ (length (b_packets b) <= 1)%nat) ∧
  Forall batch_plain (b_packets b) ∧ (b_packets b ≠ [] → b_timer b = true).

Lemma batch_small ps :
  sumZ (entry_size 4) ps <= MAX_BATCH_SIZE →
  Forall (λ p, blen p < 2 ^ 32) ps ∧ Z.of_nat (length ps) < 65536.
Proof.
  unfold MAX_BATCH_SIZE. intros H. split.
  - apply Forall_forall. intros p Hp%(sum_entries_elem 4).
    change (entry_size 4 p) with (4 + blen p) in Hp. lia.
  - pose proof (sum_entries_length 4 ps). lia.
Qed.

Lemma bt_flush_spec b :
  batch_inv b →
  ∃ b' fs, bt_flush b = Ret (b', fs) ∧ b_packets b' = [] ∧ batch_inv b' ∧
    unbatched fs = b_packets b ∧
    Forall (λ f, blen f <= MAX_BATCH_SIZE + 4 ∨ f ∈ b_packets b) fs.
Proof.
  intros (Hs & Hb & Hpl & _). unfold bt_flush.
  assert (batch_inv batch_empty) as Hempty.
  { split_and!; try done. left. unfold MAX_BATCH_SIZE. simpl. lia. }
  destruct (b_packets b) as [|p [|q ps]] eqn:E.
  - exists (Batch [] (b_size b) false), []. split_and!; try done.
  - exists batch_empty, [p]. split_and!; try done.
    + unfold unbatched. csimpl. rewrite unbatch_plain //. by apply Forall_singleton.
    + apply Forall_singleton. right. set_solver.
  - set (l := p :: q :: ps) in *. assert (sumZ (entry_size 4) l <= MAX_BATCH_SIZE) as Hl.
    { destruct Hb as [Hb|Hb]; [lia|simpl in Hb; lia]. }
    destruct (batch_small l Hl) as [H1 H2].
    assert (createBatch l = Ret ([0xFF; 0xFF] ++ be_bytes 2 (Z.of_nat (length l)) ++ entries 4 l)) as Ec.
    { by apply createBatch_bytes. }
    rewrite Ec. cbn [mbind outcome_bind]. eexists _, _. split; [done|]. split_and!; try done.
    + unfold unbatched. rewrite bind_cons. rewrite (unbatch_createBatch l _ Ec) //. apply app_nil_r.
    + apply Forall_singleton. left. clearbody l. unfold blen.
      rewrite !length_app length_be_bytes. pose proof (length_entries 4 l) as Hle.
      change (length [0xFF; 0xFF]) with 2%nat. lia.
Qed.

Definition bt_inv (m : PacketBatcher) : Prop :=
  ∀ p b, om_get p m = Some b → batch_inv b.

(** [add] accepts the packet; other peers are untouched. *)
Lemma bt_add_spec p pkt m :
  bt_inv m → batch_plain pkt →
  ∃ m' fs, bt_add p pkt m = Ret (m', fs) ∧ bt_inv m' ∧
    b_packets (default batch_empty (om_get p m)) ++ [pkt] =
      unbatched fs ++ b_packets (default batch_empty (om_get p m')) ∧
    (∀ q, q ≠ p → om_get q m' = om_get q m) ∧
    Forall (λ f, blen f <= MAX_BATCH_SIZE + 4 ∨ f ∈ b_packets (default batch_empty (om_get p m)) ++ [pkt]) fs.
Proof.
  intros Hm Hpkt. unfold bt_add.
  set (b0 := default batch_empty (om_get p m)).
  assert (batch_inv b0) as Hb0.
  { unfold b0. destruct (om_get p m) eqn:E; [by eapply Hm|]. split_and!; try done.
    left. unfold MAX_BATCH_SIZE. simpl. lia. }
  assert (∃ b1 fs1,
    (if (0 <? b_size b0) && (MAX_BATCH_SIZE <? b_size b0 + (4 + blen pkt))
     then '(_, fs) ← bt_flush b0; Ret (batch_empty, fs) else Ret (b0, [])) = Ret (b1, fs1) ∧
    b_packets b0 = unbatched fs1 ++ b_packets b1 ∧
    b_size b1 = sumZ (entry_size 4) (b_packets b1) ∧
    (b_packets b1 = [] ∨ b_size b1 + (4 + blen pkt) <= MAX_BATCH_SIZE) ∧
    Forall batch_plain (b_packets b1) ∧
    Forall (λ f, blen f <= MAX_BATCH_SIZE + 4 ∨ f ∈ b_packets b0) fs1) as
    (b1 & fs1 & -> & Hp1 & Hs1 & Hsz & Hpl & Hf1).
  { case_match eqn:E.
    - destruct (bt_flush_spec b0 Hb0) as (b' & fs & -> & _ & _ & Hu & Hf). simpl.
      exists batch_empty, fs. split_and!; try done; [|by left]. by rewrite Hu app_nil_r.
    - exists b0, []. destruct Hb0 as (? & _ & ? & _). split_and!; try done.
      apply andb_false_iff in E as [E|E]; bool_to_prop; [left|by right].
      pose proof (sum_entries_length 4 (b_packets b0)).
      destruct (b_packets b0); [done|simpl in *; lia]. }
  cbn [mbind outcome_bind].
  set (b2 := Batch (b_packets b1 ++ [pkt]) _ true).
  assert (batch_inv b2) as Hb2.
  { unfold b2. split_and!; simpl.
    - rewrite sumZ_app /= Hs1. unfold entry_size. lia.
    - destruct Hsz as [->|]; [right; simpl; lia|left; lia].
    - apply Forall_app. by rewrite Forall_singleton.
    - done. }
  assert (∃ b3 fs2, (if MAX_BATCH_SIZE <=? b_size b2 then bt_flush b2 else Ret (b2, [])) = Ret (b3, fs2) ∧
    batch_inv b3 ∧ b_packets b2 = unbatched fs2 ++ b_packets b3 ∧
    Forall (λ f, blen f <= MAX_BATCH_SIZE + 4 ∨ f ∈ b_packets b2) fs2) as (b3 & fs2 & -> & Hb3 & Hp3 & Hf2).
  { case_match.
    - destruct (bt_flush_spec b2 Hb2) as (b' & fs & -> & He & Hi & Hu & Hf).
      exists b', fs. split_and!; try done. by rewrite Hu He app_nil_r.
    - exists b2, []. split_and!; done. }
  cbn [mbind outcome_bind]. exists (om_set p b3 m), (fs1 ++ fs2). split; [done|]. split_and!.
  - intros q b Hq. rewrite om_get_set in Hq. case_decide; [by simplify_eq|by eapply Hm].
  - rewrite om_get_set_eq /=. by rewrite unbatched_app Hp1 -!(assoc_L (++)) -Hp3.
  - intros q Hq. by apply om_get_set_ne.
  - apply Forall_app. split; (eapply Forall_impl; [done|]); intros f [?|?]; try by left.
    + right. set_solver.
    + right. rewrite Hp1. simpl in *. set_solver.
Qed.

Lemma bt_timer_spec p m :
  bt_inv m →
  ∃ m' fs, bt_timer p m = Ret (m', fs) ∧ bt_inv m' ∧
    b_packets (default batch_empty (om_get p m)) =
      unbatched fs ++ b_packets (default batch_empty (om_get p m')) ∧
    (∀ q, q ≠ p → om_get q m' = om_get q m).
Proof.
  intros Hm. unfold bt_timer. destruct (om_get p m) as [b|] eqn:E.
  2:{ exists m, []. by rewrite E. }
  destruct (b_timer b) eqn:Et.
  2:{ exists m, []. by rewrite E. }
  destruct (bt_flush_spec b) as (b' & fs & -> & He & Hi & Hu & _); [by eapply Hm|].
  simpl. exists (om_set p b' m), fs. split; [done|]. split_and!.
  - intros q c Hq. rewrite om_get_set in Hq. case_decide; [by simplify_eq|by eapply Hm].
  - by rewrite om_get_set_eq /= Hu He app_nil_r.
  - intros q Hq. by apply om_get_set_ne.
Qed.

(** One operation as seen by peer [p]: the messages accepted for it and the
    frames sent to it. *)
Definition bt_step (p : jstr) (o : bt_op) (m : PacketBatcher) :
    outcome (PacketBatcher * list buffer * list buffer) :=
  match o with
  | BtAdd q pkt =>
      '(m', fs) ← bt_add q pkt m;
      Ret (m', (if decide (q = p) then [pkt] else []), (if decide (q = p) then fs else []))
  | BtTimer q => '(m', fs) ← bt_timer q m; Ret (m', [], (if decide (q = p) then fs else []))
  end.

Definition bt_op_plain (o : bt_op) : Prop :=
  match o with BtAdd _ pkt => batch_plain pkt | _ => True end.

Lemma bt_step_spec p o m :
  bt_inv m → bt_op_plain o →
  ∃ m' acc fs, bt_step p o m = Ret (m', acc, fs) ∧ bt_inv m' ∧
    b_packets (default batch_empty (om_get p m)) ++ acc =
      unbatched fs ++ b_packets (default batch_empty (om_get p m')).
Proof.
  intros Hm Ho. destruct o as [q pkt|q]; simpl.
  - destruct (bt_add_spec q pkt m Hm Ho) as (m' & fs & -> & Hi & Heq & Hother & _). simpl.
    eexists _, _, _. split; [done|]. split; [done|]. destruct (decide (q = p)) as [->|]; [done|].
    rewrite Hother; [by rewrite app_nil_r|done].
  - destruct (bt_timer_spec q m Hm) as (m' & fs & -> & Hi & Heq & Hother). simpl.
    eexists _, _, _. split; [done|]. split; [done|]. rewrite app_nil_r.
    destruct (decide (q = p)) as [->|]; [done|]. by rewrite Hother.
Qed.

(** The batcher is a FIFO channel for each peer. *)
#[export] Program Instance bt_fifo (p : jstr) : Fifo PacketBatcher bt_op buffer := {
  fifo_step o m := match bt_step p o m with
                   | Ret (m', acc, fs) => (m', acc, unbatched fs) | Throw _ => (m, [], []) end;
  fifo_pending m := b_packets (default batch_empty (om_get p m));
  fifo_inv := bt_inv;
  fifo_ok := bt_op_plain
}.
Next Obligation.
  intros p m o m' acc del Hm Ho. simpl.
  destruct (bt_step_spec p o m Hm Ho) as (m1 & a1 & fs & -> & Hi & Heq).
  intros ?; simplify_eq. done.
Qed.

(** Run operations, collecting what peer [p] is sent; an exception stops the run. *)
Fixpoint bt_run (p : jstr) (ops : list bt_op) (m : PacketBatcher) :
    outcome (PacketBatcher * list buffer * list buffer) :=
  match ops with
  | [] => Ret (m, [], [])
  | o :: ops' =>
      '(m1, a1, f1) ← bt_step p o m;
      '(m2, a2, f2) ← bt_run p ops' m1;
      Ret (m2, a1 ++ a2, f1 ++ f2)
  end.

(** C8: for every peer and every interleaving of [add]s for any peers with the
    firing of batch timers, the batcher never throws, and what [unbatch] recovers
    from the buffers sent to that peer, followed by the packets still in its
    batch, is exactly the sequence of packets added for it; packets still waiting
    always have the batch timer armed. *)
Theorem batcher_per_peer_fifo (p : jstr) (ops : list bt_op) :
  Forall bt_op_plain ops →
  ∃ m acc fs, bt_run p ops [] = Ret (m, acc, fs) ∧
    let b := default batch_empty (om_get p m) in
    acc = unbatched fs ++ b_packets b ∧ (b_packets b ≠ [] → b_timer b = true).
Proof.
  intros Hops.
  assert (∀ m, bt_inv m → ∃ m' acc fs, bt_run p ops m = Ret (m', acc, fs) ∧ bt_inv m' ∧
    fifo_run (H:=bt_fifo p) ops m = (m', acc, unbatched fs)) as H.
  { induction Hops as [|o ops Ho Hops IH]; intros m Hm; simpl; [by eexists _, _, _|].
    destruct (bt_step_spec p o m Hm Ho) as (m1 & a1 & f1 & E1 & Hm1 & _). rewrite E1. simpl.
    destruct (IH m1 Hm1) as (m2 & a2 & f2 & -> & Hm2 & ->). simpl.
    eexists _, _, _. split; [done|]. split; [done|]. by rewrite unbatched_app. }
  destruct (H []) as (m & acc & fs & E & Hm & Hrun); [done|].
  exists m, acc, fs. split; [done|]. split.
  - by apply (fifo_run_prefix (H:=bt_fifo p) ops [] m acc (unbatched fs)).
  - simpl. destruct (om_get p m) eqn:Eb; simpl; [|done]. by apply (Hm p _ Eb).
Qed.

Lemma batcher_per_peer_fifo_witness :
  ∃ m acc fs, bt_run (js "a") [BtAdd (js "a") [1]; BtAdd (js "b") [2]; BtAdd (js "a") [3; 4];
                               BtTimer (js "a"); BtAdd (js "a") [5]] [] = Ret (m, acc, fs) ∧
    let b := default batch_empty (om_get (js "a") m) in
    acc = unbatched fs ++ b_packets b ∧ (b_packets b ≠ [] → b_timer b = true).
Proof.
  apply batcher_per_peer_fifo. repeat constructor; left; vm_compute; reflexivity.
Defined.
