(* ===== verification/MeshPacket.v ===== *)
(** * Mesh packets (class [Packet] of src/network/packet.js)

    The overlay's own packet: header, source route, payload.  [serialize] writes
    the compact version 2 format; [deserialize] reads version 2 and the legacy
    JSON version 1.  [JSON.parse] of the two legacy fields is the argument
    [json_ids] (arrays of node ids are the only values written to them).  The
    module-level [flowIdCounter] and [Date.now()] are passed explicitly. *)

From S2P Require Import Prelude Bytes JsString.
Local Open Scope Z_scope.

Module PROTOCOLS.
Definition ICMP : Z := 1.
Definition TCP : Z := 6.
Definition UDP : Z := 17.
End PROTOCOLS.

Module TCP_FLAGS.
Definition FIN : Z := 0x01.
Definition SYN : Z := 0x02.
Definition RST : Z := 0x04.
Definition PSH : Z := 0x08.
Definition ACK : Z := 0x10.
Definition URG : Z := 0x20.
End TCP_FLAGS.

Module PacketType.
Definition DATA : Z := 0x01.
Definition CONTROL : Z := 0x02.
Definition PING : Z := 0x03.
Definition PONG : Z := 0x04.
Definition ACK : Z := 0x05.
Definition ROUTE_REQUEST : Z := 0x06.
Definition ROUTE_RESPONSE : Z := 0x07.
Definition DATA_DIRECT : Z := 0x08.
End PacketType.

Definition DEFAULT_TTL : Z := 32.
Definition MAX_TTL : Z := 64.
Definition NODE_ID_SIZE : nat := 16.

(** ** Flow identifiers *)

Definition hex_digit (d : Z) : Z := if d <? 10 then 48 + d else 87 + d.

(** [n.toString(16)] for [n >= 0]; [fuel] bounds the number of digits. *)
Fixpoint hex_go (fuel : nat) (n : Z) (acc : jstr) : jstr :=
  match fuel with
  | O => acc
  | S f => let acc' := hex_digit (n mod 16) :: acc in
           if n / 16 =? 0 then acc' else hex_go f (n / 16) acc'
  end.
Definition to_hex (n : Z) : jstr := hex_go 16 n [].

Definition pad_start (n : nat) (c : Z) (s : jstr) : jstr := replicate (n - length s) c ++ s.

(** [generateFlowId]: the id, and the counter afterwards. *)
Definition generateFlowId (flowIdPrefix : jstr) (flowIdCounter : Z) : jstr * Z :=
  (flowIdPrefix ++ pad_start 8 48 (to_hex flowIdCounter), flowIdCounter + 1).

(** ** The packet *)

Record Packet := MkPacket {
  version : Z;
  type : Z;
  flowId : jstr;
  seq : Z;
  hop : Z;
  ttl : Z;
  srcNode : option jstr;
  dstNode : option jstr;
  route : list jstr;
  visitedNodes : list jstr;
  timestamp : Z;
  payload : buffer
}.

(** The constructor's [options]; an absent field is [None]. *)
Record PacketOptions := MkOptions {
  o_version : option Z;
  o_type : option Z;
  o_flowId : option jstr;
  o_seq : option Z;
  o_hop : option Z;
  o_ttl : option Z;
  o_srcNode : option jstr;
  o_dstNode : option jstr;
  o_route : option (list jstr);
  o_visitedNodes : option (list jstr);
  o_timestamp : option Z;
  o_payload : option buffer
}.

(** [s || null] on strings: the empty string is falsy. *)
Definition str_or_null (s : option jstr) : option jstr :=
  match s with Some [] => None | _ => s end.

(** [new Packet(options)] *)
Definition new_packet (now : Z) (prefix : jstr) (counter : Z) (o : PacketOptions) : Packet * Z :=
  let '(fid, counter') :=
    match str_or_null (o_flowId o) with
    | Some f => (f, counter)
    | None => generateFlowId prefix counter
    end in
  (MkPacket (js_or (o_version o) 1) (js_or (o_type o) PacketType.DATA) fid
     (js_or (o_seq o) 0) (js_or (o_hop o) 0) (default DEFAULT_TTL (o_ttl o))
     (str_or_null (o_srcNode o)) (str_or_null (o_dstNode o))
     (default [] (o_route o)) (default [] (o_visitedNodes o))
     (js_or (o_timestamp o) now) (default [] (o_payload o)), counter').

(** *** Field updates *)

Definition set_ttl (p : Packet) (t : Z) : Packet :=
  MkPacket (version p) (type p) (flowId p) (seq p) (hop p) t (srcNode p) (dstNode p)
    (route p) (visitedNodes p) (timestamp p) (payload p).
Definition set_hop (p : Packet) (h : Z) : Packet :=
  MkPacket (version p) (type p) (flowId p) (seq p) h (ttl p) (srcNode p) (dstNode p)
    (route p) (visitedNodes p) (timestamp p) (payload p).
Definition set_visited (p : Packet) (v : list jstr) : Packet :=
  MkPacket (version p) (type p) (flowId p) (seq p) (hop p) (ttl p) (srcNode p) (dstNode p)
    (route p) v (timestamp p) (payload p).
Definition set_payload (p : Packet) (b : buffer) : Packet :=
  MkPacket (version p) (type p) (flowId p) (seq p) (hop p) (ttl p) (srcNode p) (dstNode p)
    (route p) (visitedNodes p) (timestamp p) b.

(** *** Methods *)

(** [decrementTTL]: the result and the packet afterwards. *)
Definition decrementTTL (p : Packet) : bool * Packet :=
  (0 <? ttl p - 1, set_ttl p (ttl p - 1)).
Definition isTTLExpired (p : Packet) : bool := ttl p <=? 0.
Definition hasVisited (n : jstr) (p : Packet) : bool := bool_decide (n ∈ visitedNodes p).
Definition addVisitedNode (n : jstr) (p : Packet) : Packet :=
  if hasVisited n p then p else set_visited p (visitedNodes p ++ [n]).
Definition getVisitedCount (p : Packet) : Z := Z.of_nat (length (visitedNodes p)).
Definition incrementHop (p : Packet) : Packet := set_hop p (hop p + 1).
Definition getNextHop (p : Packet) : option jstr :=
  if hop p <? Z.of_nat (length (route p)) then route p !! Z.to_nat (hop p) else None.
Definition isLastHop (p : Packet) : bool := Z.of_nat (length (route p)) - 1 <=? hop p.

Definition options_of (p : Packet) : PacketOptions :=
  MkOptions (Some (version p)) (Some (type p)) (Some (flowId p)) (Some (seq p)) (Some (hop p))
    (Some (ttl p)) (srcNode p) (dstNode p) (Some (route p)) (Some (visitedNodes p))
    (Some (timestamp p)) (Some (payload p)).
Definition clone (now : Z) (prefix : jstr) (counter : Z) (p : Packet) : Packet * Z :=
  new_packet now prefix counter (options_of p).

(** *** Factories *)

Definition no_options : PacketOptions :=
  MkOptions None None None None None None None None None None None None.

Definition createDataPacket now prefix counter (src dst : option jstr) (rt : list jstr)
    (pl : buffer) (fid : option jstr) (t : option Z) : Packet * Z :=
  new_packet now prefix counter
    (MkOptions None (Some PacketType.DATA) fid None None (Some (default DEFAULT_TTL t)) src dst
       (Some rt) None None (Some pl)).
Definition createPingPacket now prefix counter (src : option jstr) : Packet * Z :=
  new_packet now prefix counter
    (MkOptions None (Some PacketType.PING) None None None None src None None None (Some now) None).
Definition createPongPacket now prefix counter (src : option jstr) (originalTimestamp : Z) :
    Packet * Z :=
  new_packet now prefix counter
    (MkOptions None (Some PacketType.PONG) None None None None src None None None None
       (Some (utf8_encode (num_str originalTimestamp)))).
Definition createAckPacket now prefix counter (src : option jstr) (fid : jstr) (sq : Z) : Packet * Z :=
  new_packet now prefix counter
    (MkOptions None (Some PacketType.ACK) (Some fid) (Some sq) None None src None None None None None).

(** ** Serialization *)

(** [Buffer.from(s.padEnd(16, '\0').slice(0, 16))] *)
Definition id_bytes (s : jstr) : buffer :=
  utf8_encode (slice0 NODE_ID_SIZE (pad_end NODE_ID_SIZE 0 s)).

Definition w_id (s : jstr) (w : wbuf) : wbuf := w_copy (id_bytes s) NODE_ID_SIZE w.

Definition serialize (p : Packet) : outcome buffer :=
  let routeCount := Z.of_nat (length (route p)) in
  let totalSize := (58 + length (route p) * NODE_ID_SIZE + 4 + length (payload p))%nat in
  let w := Wbuf (buf_alloc totalSize) 0 in
  w ← w_uint 1 2 w;
  w ← w_uint 1 (type p) w;
  w ← w_uint 2 (hop p) w;
  w ← w_uint 1 (ttl p) w;
  w ← w_uint 1 routeCount w;
  w ← w_uint 4 (seq p) w;
  let w := w_id (flowId p) w in
  let w := w_id (default [] (srcNode p)) w in
  let w := w_id (default [] (dstNode p)) w in
  let w := foldl (λ w id, w_id id w) w (route p) in
  w ← w_uint 4 (blen (payload p)) w;
  Ret (wb_buf (w_copy (payload p) (length (payload p)) w)).

(** [buffer.subarray(off, off + 16).toString().replace(/\0/g, '')] *)
Definition read_id (off : nat) (b : buffer) : jstr :=
  strip_nul (utf8_decode (subarray off (off + NODE_ID_SIZE) b)).

(** The ids of the source route; entries past the end read as empty. *)
Fixpoint read_route (n : nat) (off : nat) (b : buffer) : list jstr :=
  match n with O => [] | S n' => read_id off b :: read_route n' (off + NODE_ID_SIZE) b end.

Definition deserializeV2 now prefix counter (b : buffer) : outcome (Packet * Z) :=
  _ ← guard_js (58 <=? blen b) (Error "Buffer too short for v2 packet header");
  version ← read_u8 0 b;
  type ← read_u8 1 b;
  hop ← read_u16 2 b;
  ttl ← read_u8 4 b;
  routeCount ← read_u8 5 b;
  seq ← read_u32 6 b;
  let flowId := read_id 10 b in
  let srcNode := str_or_null (Some (read_id 26 b)) in
  let dstNode := str_or_null (Some (read_id 42 b)) in
  let route := read_route (Z.to_nat routeCount) 58 b in
  let offset := (58 + Z.to_nat routeCount * NODE_ID_SIZE)%nat in
  payloadLen ← read_u32 offset b;
  let offset := (offset + 4)%nat in
  Ret (new_packet now prefix counter
    (MkOptions (Some version) (Some type) (Some flowId) (Some seq) (Some hop) (Some ttl)
       srcNode dstNode (Some route) (Some []) (Some now)
       (Some (subarray offset (offset + Z.to_nat payloadLen) b)))).

Section legacy.
(** [JSON.parse] on the text of a legacy route or visited list. *)
Context (json_ids : jstr → outcome (list jstr)).

Definition deserializeV1 (now : Z) (prefix : jstr) (counter : Z) (b : buffer) :
    outcome (Packet * Z) :=
  _ ← guard_js (66 <=? blen b) (Error "Buffer too short for v1 packet header");
  version ← read_u8 0 b;
  type ← read_u8 1 b;
  hop ← read_u16 2 b;
  ttl ← read_u8 4 b;
  seq ← read_u32 6 b;
  let flowId := read_id 10 b in
  let srcNode := str_or_null (Some (read_id 26 b)) in
  let dstNode := str_or_null (Some (read_id 42 b)) in
  timestamp ← read_uint 8 58 b;
  routeLen ← read_u16 66 b;
  let routeEnd := (68 + Z.to_nat routeLen)%nat in
  route ← json_ids (utf8_decode (subarray 68 routeEnd b));
  visitedLen ← read_u16 routeEnd b;
  let visitedEnd := (routeEnd + 2 + Z.to_nat visitedLen)%nat in
  visitedNodes ← json_ids (utf8_decode (subarray (routeEnd + 2) visitedEnd b));
  payloadLen ← read_u32 visitedEnd b;
  Ret (new_packet now prefix counter
    (MkOptions (Some version) (Some type) (Some flowId) (Some seq) (Some hop) (Some ttl)
       srcNode dstNode (Some route) (Some visitedNodes) (Some timestamp)
       (Some (subarray (visitedEnd + 4) (visitedEnd + 4 + Z.to_nat payloadLen) b)))).

Definition deserialize (now : Z) (prefix : jstr) (counter : Z) (b : buffer) :
    outcome (Packet * Z) :=
  _ ← guard_js (6 <=? blen b) (Error "Buffer too short for packet header");
  version ← read_u8 0 b;
  if version =? 2 then deserializeV2 now prefix counter b
  else deserializeV1 now prefix counter b.
End legacy.

(** ** Round trip *)

(** A node or flow id that survives the 16-byte field. *)
Definition id_ok (s : jstr) : Prop :=
  ascii_str s ∧ Forall (λ c, c ≠ 0) s ∧ (length s <= 16)%nat.
#[export] Instance id_ok_dec s : Decision (id_ok s).
Proof. unfold id_ok. apply _. Defined.

Lemma ascii_pad_end s : ascii_str s → ascii_str (pad_end 16 0 s).
Proof.
  intros Hs. apply Forall_app. split; [done|]. apply Forall_replicate. lia.
Qed.

Lemma id_bytes_ok s : id_ok s → id_bytes s = pad_end 16 0 s.
Proof.
  intros (Ha & _ & Hl). unfold id_bytes, slice0, NODE_ID_SIZE.
  rewrite take_ge; [|rewrite length_pad_end //]. by apply ascii_encode, ascii_pad_end.
Qed.

Lemma length_id_bytes s : id_ok s → length (id_bytes s) = 16%nat.
Proof. intros Hs. rewrite id_bytes_ok //. apply length_pad_end. apply Hs. Qed.

Lemma read_id_bytes s off b r :
  id_ok s → drop off b = id_bytes s ++ r → read_id off b = s ∧ drop (off + 16) b = r.
Proof.
  intros Hs Hd. split; [|eapply drop_next; [done|by apply length_id_bytes]].
  unfold read_id, NODE_ID_SIZE. rewrite (subarray_next _ _ _ _ _ Hd); [|by apply length_id_bytes].
  rewrite id_bytes_ok //. destruct Hs as (Ha & Hn & _).
  rewrite ascii_decode; [|by apply ascii_pad_end]. by apply strip_nul_pad.
Qed.

Lemma read_route_bytes rt : ∀ off b r,
  Forall id_ok rt → drop off b = (rt ≫= id_bytes) ++ r →
  read_route (length rt) off b = rt ∧ drop (off + length rt * 16) b = r.
Proof.
  induction rt as [|s rt IH]; intros off b r Hrt Hd; simpl.
  - by rewrite Nat.add_0_r.
  - apply Forall_cons in Hrt as [Hs Hrt]. rewrite bind_cons -(assoc_L (++)) in Hd.
    destruct (read_id_bytes s off b _ Hs Hd) as [-> Hd'].
    destruct (IH (off + 16)%nat b r Hrt Hd') as [Hr He].
    change (off + NODE_ID_SIZE)%nat with (off + 16)%nat. rewrite Hr.
    split; [done|]. rewrite -He. f_equal. lia.
Qed.

(** The fields fit their widths. *)
Definition fields_fit (p : Packet) : Prop :=
  0 <= type p < 256 ∧ 0 <= hop p < 65536 ∧ 0 <= ttl p < 256 ∧ (length (route p) < 256)%nat ∧
  0 <= seq p < 2 ^ 32 ∧ blen (payload p) < 2 ^ 32.

Definition ids_fit (p : Packet) : Prop :=
  id_ok (flowId p) ∧ id_ok (default [] (srcNode p)) ∧ id_ok (default [] (dstNode p)) ∧
  Forall id_ok (route p).

#[export] Instance fields_fit_dec p : Decision (fields_fit p) := ltac:(unfold fields_fit; apply _).
#[export] Instance ids_fit_dec p : Decision (ids_fit p) := ltac:(unfold ids_fit; apply _).

(** The bytes [serialize] produces. *)
Definition layout (p : Packet) : buffer :=
  be_bytes 1 2 ++ be_bytes 1 (type p) ++ be_bytes 2 (hop p) ++ be_bytes 1 (ttl p) ++
  be_bytes 1 (Z.of_nat (length (route p))) ++ be_bytes 4 (seq p) ++ id_bytes (flowId p) ++
  id_bytes (default [] (srcNode p)) ++ id_bytes (default [] (dstNode p)) ++
  (route p ≫= id_bytes) ++ be_bytes 4 (blen (payload p)) ++ payload p.

Lemma w_id_at s pre k w :
  id_ok s → wb_at pre k w → (16 <= k)%nat → wb_at (pre ++ id_bytes s) (k - 16) (w_id s w).
Proof.
  intros Hs Hw Hk. unfold w_id. rewrite -(length_id_bytes s Hs).
  apply w_copy_at; [done|by rewrite length_id_bytes|]. by rewrite length_id_bytes.
Qed.

Lemma w_route_at rt : ∀ pre k w,
  Forall id_ok rt → wb_at pre k w → (length rt * 16 <= k)%nat →
  wb_at (pre ++ (rt ≫= id_bytes)) (k - length rt * 16) (foldl (λ w id, w_id id w) w rt).
Proof.
  induction rt as [|s rt IH]; intros pre k w Hrt Hw Hk; cbn [foldl length].
  - simpl. by rewrite app_nil_r Nat.sub_0_r.
  - apply Forall_cons in Hrt as [Hs Hrt]. simpl in Hk.
    pose proof (IH _ _ _ Hrt (w_id_at s pre k w Hs Hw ltac:(lia)) ltac:(lia)) as H.
    rewrite bind_cons (assoc_L (++)).
    by replace (k - S (length rt) * 16)%nat with (k - 16 - length rt * 16)%nat by lia.
Qed.

Lemma serialize_layout p : fields_fit p → ids_fit p → serialize p = Ret (layout p).
Proof.
  intros (Ht & Hh & Htt & Hr & Hs & Hp) (If & Is & Id & Ir). unfold serialize, NODE_ID_SIZE.
  set (n := (58 + length (route p) * 16 + 4 + length (payload p))%nat).
  destruct (w_uint_at 1 2 _ _ _ (wb_at_alloc n)) as (w1 & -> & H1); [lia|lia|].
  cbn [mbind outcome_bind].
  destruct (w_uint_at 1 (type p) _ _ _ H1) as (w2 & -> & H2); [lia|lia|]. cbn [mbind outcome_bind].
  destruct (w_uint_at 2 (hop p) _ _ _ H2) as (w3 & -> & H3); [lia|lia|]. cbn [mbind outcome_bind].
  destruct (w_uint_at 1 (ttl p) _ _ _ H3) as (w4 & -> & H4); [lia|lia|]. cbn [mbind outcome_bind].
  destruct (w_uint_at 1 (Z.of_nat (length (route p))) _ _ _ H4) as (w5 & -> & H5); [lia|lia|].
  cbn [mbind outcome_bind].
  destruct (w_uint_at 4 (seq p) _ _ _ H5) as (w6 & -> & H6); [lia|lia|]. cbn [mbind outcome_bind].
  apply (w_id_at _ _ _ _ If) in H6; [|lia]. apply (w_id_at _ _ _ _ Is) in H6; [|lia].
  apply (w_id_at _ _ _ _ Id) in H6; [|lia]. apply (w_route_at _ _ _ _ Ir) in H6; [|lia].
  destruct (w_uint_at 4 (blen (payload p)) _ _ _ H6) as (w7 & -> & H7);
    [lia|unfold blen in *; lia|]. cbn [mbind outcome_bind].
  apply (w_copy_at (payload p) (length (payload p))) in H7; [|lia|done].
  f_equal. unfold wb_at in H7. destruct H7 as [-> _].
  match goal with |- context [buf_alloc ?k] => replace k with 0%nat by lia end.
  rewrite app_nil_r app_nil_l. unfold layout. by rewrite -!(assoc_L (++)).
Qed.

(** What a receiver sees: the wire drops the visited list and the timestamp. *)
Definition received_packet (now : Z) (p : Packet) : Packet :=
  MkPacket 2 (type p) (flowId p) (seq p) (hop p) (ttl p) (srcNode p) (dstNode p)
    (route p) [] now (payload p).

(** Field values the constructor leaves as they are. *)
Definition normal (p : Packet) : Prop :=
  type p ≠ 0 ∧ flowId p ≠ [] ∧ srcNode p ≠ Some [] ∧ dstNode p ≠ Some [].

#[export] Instance normal_dec p : Decision (normal p) := ltac:(unfold normal; apply _).

Lemma js_or_id z d : z ≠ 0 → js_or (Some z) d = z.
Proof. intros. unfold js_or. by rewrite (proj2 (Z.eqb_neq _ _)). Qed.
Lemma js_or_0 z : js_or (Some z) 0 = z.
Proof. unfold js_or. destruct (Z.eqb_spec z 0); congruence. Qed.
Lemma js_or_now now : js_or (Some now) now = now.
Proof. unfold js_or. by destruct (Z.eqb_spec now 0). Qed.
Lemma str_or_null_id s : s ≠ Some [] → str_or_null s = s.
Proof. by destruct s as [[]|]. Qed.
Lemma str_or_null_default s : s ≠ Some [] → str_or_null (Some (default [] s)) = s.
Proof. by destruct s as [[]|]. Qed.

Lemma deserialize_layout json_ids now prefix counter (p : Packet) :
  fields_fit p → ids_fit p → normal p →
  deserialize json_ids now prefix counter (layout p) = Ret (received_packet now p, counter).
Proof.
  intros Hf Hi (Nt & Nf & Ns & Nd).
  destruct Hf as (Ht & Hh & Htt & Hr & Hs & Hp). destruct Hi as (If & Is & Id & Ir).
  set (b := layout p). assert (drop 0 b = layout p) as D by done. unfold layout in D.
  assert (62 <= length b)%nat as Hlen.
  { unfold b, layout. rewrite !length_app !length_be_bytes !length_id_bytes //. lia. }
  unfold deserialize, deserializeV2, guard_js, NODE_ID_SIZE.
  rewrite !(proj2 (Z.leb_le _ (blen b))); [|unfold blen; lia..]. cbn [mbind outcome_bind].
  apply read_next_be in D as [E D]; [|lia|lia]. cbn [Nat.add] in D. rewrite !E. cbn [mbind outcome_bind].
  change (2 =? 2) with true. cbn match.
  apply read_next_be in D as [-> D]; [|lia|lia]. cbn [Nat.add] in D. cbn [mbind outcome_bind].
  apply read_next_be in D as [-> D]; [|lia|lia]. cbn [Nat.add] in D. cbn [mbind outcome_bind].
  apply read_next_be in D as [-> D]; [|lia|lia]. cbn [Nat.add] in D. cbn [mbind outcome_bind].
  apply read_next_be in D as [-> D]; [|lia|lia]. cbn [Nat.add] in D. cbn [mbind outcome_bind].
  apply read_next_be in D as [-> D]; [|lia|lia]. cbn [Nat.add] in D. cbn [mbind outcome_bind].
  apply read_id_bytes in D as [-> D]; [|done]. cbn [Nat.add] in D.
  apply read_id_bytes in D as [-> D]; [|done]. cbn [Nat.add] in D.
  apply read_id_bytes in D as [-> D]; [|done]. cbn [Nat.add] in D.
  rewrite !Nat2Z.id. apply read_route_bytes in D as [-> D]; [|done].
  apply read_next_be in D as [-> D]; [|lia|unfold blen in *; lia]. cbn [mbind outcome_bind].
  unfold blen. rewrite Nat2Z.id -(app_nil_r (payload p)) in D |- *.
  rewrite (subarray_next _ _ _ _ _ D); [|by rewrite app_nil_r].
  unfold new_packet. cbn [o_version o_type o_flowId o_seq o_hop o_ttl o_srcNode o_dstNode o_route
    o_visitedNodes o_timestamp o_payload default].
  rewrite !str_or_null_default // !str_or_null_id; [|congruence..].
  rewrite !js_or_0 js_or_now !js_or_id //.
Qed.

(** The fields a node reads before it parses a packet. *)
Lemma layout_peek (p : Packet) : fields_fit p → ids_fit p →
  (62 <= length (layout p))%nat ∧ byte_at 1 (layout p) = type p ∧
  read_id 26 (layout p) = default [] (srcNode p) ∧ read_id 42 (layout p) = default [] (dstNode p).
Proof.
  intros (Ht & Hh & Htt & Hr & Hs & Hp) (If & Is & Id & Ir).
  assert (drop 0 (layout p) = layout p) as D by done. unfold layout in D at 2.
  split. { unfold layout. rewrite !length_app !length_be_bytes !length_id_bytes //. lia. }
  apply read_next_be in D as [E D]; [|lia|lia]. cbn [Nat.add] in D.
  rewrite (be_bytes_1 (type p)) Z.mod_small // in D.
  split; [by apply byte_next in D as [-> _]|]. apply byte_next in D as [_ D]. cbn [Nat.add] in D.
  apply read_next_be in D as [_ D]; [|lia|lia]. cbn [Nat.add] in D.
  apply read_next_be in D as [_ D]; [|lia|lia]. cbn [Nat.add] in D.
  apply read_next_be in D as [_ D]; [|lia|lia]. cbn [Nat.add] in D.
  apply read_next_be in D as [_ D]; [|lia|lia]. cbn [Nat.add] in D.
  apply read_id_bytes in D as [_ D]; [|done]. cbn [Nat.add] in D.
  apply read_id_bytes in D as [-> D]; [|done]. cbn [Nat.add] in D.
  apply read_id_bytes in D as [-> D]; [|done]. done.
Qed.

(** C9: a packet whose fields fit the version 2 header survives the wire:
    [deserialize] of the bytes of [serialize] yields the same type, flow, sequence
    number, hop, TTL, endpoints, source route and payload, with an empty visited
    list and the receiver's clock, and generates no new flow id. *)
Theorem packet_roundtrip json_ids now prefix counter (p : Packet) :
  fields_fit p → ids_fit p → normal p →
  ∃ b, serialize p = Ret b ∧
    deserialize json_ids now prefix counter b = Ret (received_packet now p, counter).
Proof.
  intros Hf Hi Hn. exists (layout p).
  split; [by apply serialize_layout|by apply deserialize_layout].
Qed.

Definition sample_packet : Packet :=
  MkPacket 1 PacketType.DATA (js "5f3a00000001") 7 0 32 (Some (js "AbCdEf0123456789"))
    (Some (js "exitNode")) [js "relay-1"; js "exitNode"] [js "x"] 5 [1; 2; 3].

Lemma packet_roundtrip_witness :
  ∃ b, serialize sample_packet = Ret b ∧
    deserialize (λ _, Ret []) 1700 (js "5f3a") 2 b = Ret (received_packet 1700 sample_packet, 2).
Proof.
  apply packet_roundtrip.
  - unfold fields_fit, blen. simpl. repeat split; (lia || done).
  - by apply (bool_decide_unpack _); vm_compute.
  - repeat split; discriminate.
Defined.

(** ** Which packets can be written *)

Lemma w_id_pos s w : length (wb_buf (w_id s w)) = length (wb_buf w) ∧ wb_off (w_id s w) = (wb_off w + 16)%nat.
Proof. unfold w_id, w_copy. simpl. by rewrite length_buf_copy. Qed.

Lemma w_route_pos rt : ∀ w,
  length (wb_buf (foldl (λ w id, w_id id w) w rt)) = length (wb_buf w) ∧
  wb_off (foldl (λ w id, w_id id w) w rt) = (wb_off w + length rt * 16)%nat.
Proof.
  induction rt as [|s rt IH]; intros w; simpl; [split; [done|lia]|].
  destruct (IH (w_id s w)) as [-> ->]. destruct (w_id_pos s w) as [-> ->]. split; [done|lia].
Qed.

(** C36: [serialize] throws a [RangeError] exactly when a field does not fit its
    header slot (type, TTL or route count above one byte, hop above two, sequence
    number or payload length above four, or a negative value), whatever the ids
    are; otherwise the buffer has 62 bytes, 16 per route entry and the payload. *)
Theorem serialize_range (p : Packet) :
  (fields_fit p → ∃ b, serialize p = Ret b ∧
     length b = (62 + length (route p) * 16 + length (payload p))%nat) ∧
  (¬ fields_fit p → serialize p = Throw RangeError).
Proof.
  split.
  - intros (Ht & Hh & Htt & Hr & Hs & Hp). unfold serialize, NODE_ID_SIZE.
    set (n := (58 + length (route p) * 16 + 4 + length (payload p))%nat).
    set (w0 := Wbuf (buf_alloc n) 0).
    assert (length (wb_buf w0) = n ∧ wb_off w0 = 0%nat) as [L0 O0].
    { by rewrite /= /buf_alloc length_replicate. }
    destruct (w_uint_total 1 2 w0) as (w1 & -> & L1 & O1); [lia|lia|]. cbn [mbind outcome_bind].
    destruct (w_uint_total 1 (type p) w1) as (w2 & -> & L2 & O2); [lia|lia|]. cbn [mbind outcome_bind].
    destruct (w_uint_total 2 (hop p) w2) as (w3 & -> & L3 & O3); [lia|lia|]. cbn [mbind outcome_bind].
    destruct (w_uint_total 1 (ttl p) w3) as (w4 & -> & L4 & O4); [lia|lia|]. cbn [mbind outcome_bind].
    destruct (w_uint_total 1 (Z.of_nat (length (route p))) w4) as (w5 & -> & L5 & O5); [lia|lia|].
    cbn [mbind outcome_bind].
    destruct (w_uint_total 4 (seq p) w5) as (w6 & -> & L6 & O6); [lia|lia|]. cbn [mbind outcome_bind].
    set (w7 := foldl _ _ _).
    assert (length (wb_buf w7) = n ∧ wb_off w7 = (58 + length (route p) * 16)%nat) as [L7 O7].
    { unfold w7. destruct (w_route_pos (route p) (w_id (default [] (dstNode p))
        (w_id (default [] (srcNode p)) (w_id (flowId p) w6)))) as [-> ->].
      repeat match goal with |- context [w_id ?s ?w] => destruct (w_id_pos s w) as [-> ->] end. lia. }
    destruct (w_uint_total 4 (blen (payload p)) w7) as (w8 & -> & L8 & O8);
      [unfold blen in *; lia|lia|]. cbn [mbind outcome_bind].
    eexists. split; [done|]. simpl. rewrite length_buf_copy. lia.
  - intros Hn. unfold serialize.
    assert (∀ {A} n v w (k : wbuf → outcome A),
      (∀ w', 0 <= v < 256 ^ Z.of_nat n → k w' = Throw RangeError) →
      w_uint n v w ≫= k = Throw RangeError) as Hstep.
    { intros A n v w k Hk. unfold w_uint, write_uint.
      destruct (Z.leb_spec 0 v), (Z.ltb_spec v (256 ^ Z.of_nat n)),
        (Nat.leb_spec (wb_off w + n) (length (wb_buf w))); simpl; try done. by apply Hk. }
    repeat (apply Hstep; intros ? ?). exfalso. apply Hn.
    unfold fields_fit, blen in *. simpl in *. lia.
Qed.

Lemma serialize_range_witness :
  (∃ b, serialize sample_packet = Ret b ∧ length b = 97%nat) ∧
  serialize (set_ttl sample_packet (-1)) = Throw RangeError.
Proof.
  split.
  - apply (proj1 (serialize_range sample_packet)). unfold fields_fit, blen. simpl.
    repeat split; (lia || done).
  - apply (proj2 (serialize_range (set_ttl sample_packet (-1)))).
    intros (_ & _ & [Ht _] & _). by apply Ht.
Defined.

(** ** Which buffers can be read *)

(** Payload length field and payload offset of a version 2 buffer. *)
Definition v2_payload_off (b : buffer) : nat := (58 + Z.to_nat (byte_at 5 b) * 16)%nat.

Lemma read_u8_at off (b : buffer) :
  (off < length b)%nat → read_u8 off b = Ret (byte_at off b).
Proof.
  intros H. rewrite read_uint_ok; [|lia]. f_equal. unfold subarray, byte_at.
  replace (off + 1 - off)%nat with 1%nat by lia.
  destruct (lookup_lt_is_Some_2 b off H) as [x Hx]. rewrite Hx.
  rewrite (drop_S _ _ _ Hx). done.
Qed.

Lemma length_read_route n off b : length (read_route n off b) = n.
Proof. revert off. induction n as [|n IH]; intros off; [done|]. cbn [read_route length]. by rewrite IH. Qed.

(** reading a version 2 buffer never fails except on a short header: it
    succeeds exactly when the 58-byte header, the announced route and the length
    field are present.  A payload shorter than its length field is accepted and
    silently cut, so truncation is not detected at this layer. *)
Theorem deserialize_v2_accepts json_ids now prefix counter (b : buffer) :
  byte_at 0 b = 2 →
  let off := v2_payload_off b in
  if bool_decide (off + 4 <= length b)%nat
  then ∃ p c, deserialize json_ids now prefix counter b = Ret (p, c) ∧
         payload p = take (Z.to_nat (be_value (subarray off (off + 4) b))) (drop (off + 4) b) ∧
         length (route p) = Z.to_nat (byte_at 5 b)
  else ∃ e, deserialize json_ids now prefix counter b = Throw e.
Proof.
  intros Hv off. case_bool_decide as Hl.
  - unfold off, v2_payload_off in Hl.
    assert (6 <= blen b ∧ 58 <= blen b) as [H6 H58] by (unfold blen; lia).
    unfold deserialize, deserializeV2, guard_js, NODE_ID_SIZE.
    rewrite (proj2 (Z.leb_le _ _) H6) (proj2 (Z.leb_le _ _) H58). cbn [mbind outcome_bind].
    rewrite !read_u8_at; [|lia..]. cbn [mbind outcome_bind]. rewrite Hv.
    change (2 =? 2) with true. cbn match.
    rewrite !read_uint_ok; [|lia..]. cbn [mbind outcome_bind].
    destruct (new_packet now prefix counter _) as [p c] eqn:E. exists p, c. split; [done|].
    assert (p = fst (p, c)) as Hp by done. rewrite -E in Hp. subst p.
    unfold new_packet. case_match.
    cbn [fst payload route o_payload o_route default from_option id]. split.
    + apply subarray_plus.
    + apply length_read_route.
  - unfold deserialize, guard_js. destruct (Z.leb_spec 6 (blen b)); simpl; [|by eexists].
    rewrite read_u8_at; [|unfold blen in *; lia]. cbn [mbind outcome_bind]. rewrite Hv /=.
    unfold deserializeV2, guard_js.
    destruct (Z.leb_spec 58 (blen b)); cbn [mbind outcome_bind]; [|by eexists].
    rewrite !read_u8_at; [|unfold blen in *; lia..]. cbn [mbind outcome_bind].
    rewrite (read_uint_ok 2 2); [|unfold blen in *; lia]. cbn [mbind outcome_bind].
    rewrite (read_uint_ok 4 6); [|unfold blen in *; lia]. cbn [mbind outcome_bind].
    rewrite read_uint_fail; [by eexists|]. unfold off, v2_payload_off, NODE_ID_SIZE in *. lia.
Qed.

Definition empty_v2_buffer : buffer := 2 :: replicate 61 0.

Lemma deserialize_v2_accepts_witness :
  byte_at 0 empty_v2_buffer = 2 ∧
  (if bool_decide (v2_payload_off empty_v2_buffer + 4 <= length empty_v2_buffer)%nat
   then ∃ p c, deserialize (λ _, Ret []) 9 (js "ab") 0 empty_v2_buffer = Ret (p, c) ∧
     payload p = take (Z.to_nat (be_value (subarray 58 62 empty_v2_buffer)))
                   (drop 62 empty_v2_buffer) ∧
     length (route p) = 0%nat
   else ∃ e, deserialize (λ _, Ret []) 9 (js "ab") 0 empty_v2_buffer = Throw e).
Proof. split; [done|]. apply (deserialize_v2_accepts (λ _, Ret [])). done. Defined.

(** ** Flow identifiers do not repeat *)

Lemma hex_digit_inj a b : 0 <= a < 16 → 0 <= b < 16 → hex_digit a = hex_digit b → a = b.
Proof.
  intros Ha Hb. unfold hex_digit. destruct (Z.ltb_spec a 10), (Z.ltb_spec b 10); lia.
Qed.

(** The value of a string of hexadecimal digits. *)
Definition unhex (c : Z) : Z := if c <? 58 then c - 48 else c - 87.
Fixpoint hex_value (a : Z) (s : jstr) : Z :=
  match s with [] => a | c :: s' => hex_value (a * 16 + unhex c) s' end.

Lemma unhex_digit d : 0 <= d < 16 → unhex (hex_digit d) = d.
Proof.
  intros. unfold unhex, hex_digit. destruct (Z.ltb_spec d 10).
  - destruct (Z.ltb_spec (48 + d) 58); lia.
  - destruct (Z.ltb_spec (87 + d) 58); lia.
Qed.

Lemma hex_go_value fuel : ∀ n acc,
  0 <= n < 16 ^ Z.of_nat fuel → hex_value 0 (hex_go fuel n acc) = hex_value n acc.
Proof.
  induction fuel as [|f IH]; intros n acc Hn.
  - simpl in *. by replace n with 0 by lia.
  - rewrite Nat2Z.inj_succ Z.pow_succ_r in Hn; [|lia]. cbn [hex_go].
    pose proof (Z.mod_pos_bound n 16 ltac:(lia)). pose proof (Z.div_mod n 16 ltac:(lia)).
    assert (0 <= n / 16 < 16 ^ Z.of_nat f).
    { split; [apply Z.div_pos; lia|apply Z.div_lt_upper_bound; lia]. }
    destruct (Z.eqb_spec (n / 16) 0) as [E|E].
    + cbn [hex_value]. rewrite unhex_digit //. f_equal. lia.
    + rewrite IH //. cbn [hex_value]. rewrite unhex_digit //. f_equal. lia.
Qed.

Lemma hex_value_pad k s : hex_value 0 (replicate k 48 ++ s) = hex_value 0 s.
Proof. induction k as [|k IH]; [done|]. exact IH. Qed.

(** as long as the counter stays below 2^64, two calls of [generateFlowId]
    in a process give different flow ids, so the relays' duplicate filter, keyed
    by flow id and sequence number, never takes two packets of one sender for one. *)
Theorem flow_ids_unique (prefix : jstr) (c1 c2 : Z) :
  0 <= c1 < 2 ^ 64 → 0 <= c2 < 2 ^ 64 → c1 ≠ c2 →
  (generateFlowId prefix c1).1 ≠ (generateFlowId prefix c2).1.
Proof.
  intros H1 H2 Hne Heq. simpl in Heq. apply (inj (app prefix)) in Heq. apply Hne.
  apply (f_equal (hex_value 0)) in Heq. unfold pad_start in Heq.
  rewrite !hex_value_pad in Heq. unfold to_hex in Heq.
  by rewrite !hex_go_value in Heq.
Qed.

Lemma flow_ids_unique_witness :
  (generateFlowId (js "18c0ffee") 10).1 ≠ (generateFlowId (js "18c0ffee") 26).1.
Proof. apply flow_ids_unique; lia. Defined.

(** *** The flow ids a thread generates *)

(** The module state of packet.js: [Date.now().toString(16).slice(-8)], and fewer than
    2^32 packets made. *)
Definition gen_ok (prefix : jstr) (counter : Z) : Prop :=
  ascii_str prefix ∧ Forall (λ c, c ≠ 0) prefix ∧ (length prefix <= 8)%nat ∧ 0 <= counter < 2 ^ 32.
#[export] Instance gen_ok_dec prefix counter : Decision (gen_ok prefix counter).
Proof. unfold gen_ok. apply _. Defined.

Lemma hex_go_chars fuel : ∀ n acc, 0 <= n → Forall (λ c, 48 <= c < 128) acc →
  Forall (λ c, 48 <= c < 128) (hex_go fuel n acc).
Proof.
  induction fuel as [|f IH]; intros n acc Hn Ha; simpl; [done|].
  assert (Forall (λ c, 48 <= c < 128) (hex_digit (n mod 16) :: acc)) as H.
  { constructor; [|done]. unfold hex_digit. pose proof (Z.mod_pos_bound n 16 ltac:(lia)).
    destruct (_ <? _) eqn:E; bool_to_prop; lia. }
  destruct (n / 16 =? 0); [done|]. apply IH; [|done]. by apply Z.div_pos.
Qed.

Lemma hex_go_length fuel : ∀ k n acc, 0 <= n < 16 ^ Z.of_nat k → (1 <= k)%nat →
  (length (hex_go fuel n acc) <= k + length acc)%nat.
Proof.
  induction fuel as [|f IH]; intros k n acc Hn Hk; simpl; [lia|].
  destruct (n / 16 =? 0) eqn:E; [simpl; lia|]. apply Z.eqb_neq in E.
  destruct k as [|k]; [lia|]. rewrite Nat2Z.inj_succ Z.pow_succ_r in Hn; [|lia].
  assert (0 <= n / 16 < 16 ^ Z.of_nat k) as Hd by (split; [apply Z.div_pos|apply Z.div_lt_upper_bound]; lia).
  destruct k as [|k]; [simpl in Hd; lia|].
  pose proof (IH (S k) (n / 16) (hex_digit (n mod 16) :: acc) Hd ltac:(lia)). simpl in *. lia.
Qed.

Lemma generateFlowId_ok prefix counter : gen_ok prefix counter →
  id_ok (generateFlowId prefix counter).1 ∧ (generateFlowId prefix counter).1 ≠ [].
Proof.
  intros (Ha & Hn & Hl & Hc). unfold generateFlowId, pad_start. cbn [fst].
  assert (Forall (λ c, 48 <= c < 128) (to_hex counter)) as Hx by (by apply hex_go_chars; [lia|]).
  assert (length (to_hex counter) <= 8)%nat as Hxl.
  { etrans; [apply (hex_go_length 16 8); [|lia]; by change (16 ^ Z.of_nat 8) with (2 ^ 32)|by rewrite Nat.add_0_r]. }
  split; [split_and!|].
  - apply Forall_app. split; [done|]. apply Forall_app. split; [apply Forall_replicate; lia|].
    eapply Forall_impl; [exact Hx|]. simpl. intros. lia.
  - apply Forall_app. split; [done|]. apply Forall_app. split; [by apply Forall_replicate|].
    eapply Forall_impl; [exact Hx|]. simpl. intros. lia.
  - rewrite !length_app length_replicate. lia.
  - intros E. apply (f_equal length) in E. rewrite !length_app length_replicate in E. simpl in E. lia.
Qed.
