(* ===== verification/IpPacket.v ===== *)
(** * IPv4, TCP and UDP packets (functions of src/network/packet.js)

    Parsing and building of the packets the tunnel device and the userspace NAT
    exchange with the operating system.  IP addresses are strings, as in the
    code; a buffer element assignment keeps the low byte; [ToInt32] is written
    out where the code uses bit operations on sums. *)

From S2P Require Import Prelude Bytes JsString MeshPacket.
Local Open Scope Z_scope.

(** [ToInt32] and [x >>> 0] on integers. *)
Definition int32 (x : Z) : Z := (x + 2 ^ 31) mod 2 ^ 32 - 2 ^ 31.
Definition uint32 (x : Z) : Z := x mod 2 ^ 32.

(** [s.split('.').map(Number)[i]] stored in a byte: NaN and undefined give 0. *)
Definition ip_byte (i : nat) (s : jstr) : Z := default 0 (mjoin (ip_parts s !! i)) mod 256.
Definition ip4 (s : jstr) : buffer := [ip_byte 0 s; ip_byte 1 s; ip_byte 2 s; ip_byte 3 s].

(** ** Checksums *)

(** The summing loop: 16-bit words, a last odd byte as the high half. *)
Fixpoint word_sum (b : buffer) : Z :=
  match b with
  | x :: y :: r => (x * 256 + y) + word_sum r
  | [x] => Z.shiftl x 8
  | [] => 0
  end.

(** [while (sum >> 16) sum = (sum & 0xffff) + (sum >> 16)] *)
Fixpoint fold_carry (fuel : nat) (sum : Z) : Z :=
  match fuel with
  | O => sum
  | S f =>
      if Z.shiftr (int32 sum) 16 =? 0 then sum
      else fold_carry f (Z.land (int32 sum) 0xffff + Z.shiftr (int32 sum) 16)
  end.

Definition calculateIPChecksum (b : buffer) : Z :=
  Z.land (Z.lnot (int32 (fold_carry 4 (word_sum b)))) 0xffff.

(** The common body of the two transport checksums. *)
Definition transport_checksum (proto : Z) (srcIp dstIp : jstr) (seg : buffer) : outcome Z :=
  let totalLen := (12 + length seg)%nat in
  let paddedLen := if (totalLen mod 2 =? 0)%nat then totalLen else (totalLen + 1)%nat in
  let b := buf_alloc paddedLen in
  let b := set_byte 0 (ip_byte 0 srcIp) b in
  let b := set_byte 1 (ip_byte 1 srcIp) b in
  let b := set_byte 2 (ip_byte 2 srcIp) b in
  let b := set_byte 3 (ip_byte 3 srcIp) b in
  let b := set_byte 4 (ip_byte 0 dstIp) b in
  let b := set_byte 5 (ip_byte 1 dstIp) b in
  let b := set_byte 6 (ip_byte 2 dstIp) b in
  let b := set_byte 7 (ip_byte 3 dstIp) b in
  let b := set_byte 8 0 b in
  let b := set_byte 9 proto b in
  b ← write_uint 2 (blen seg) 10 b;
  let b := buf_copy seg 12 b in
  Ret (calculateIPChecksum b).

Definition calculateTCPChecksum (srcIp dstIp : jstr) (tcpSegment : buffer) : outcome Z :=
  transport_checksum PROTOCOLS.TCP srcIp dstIp tcpSegment.
Definition calculateUDPChecksum (srcIp dstIp : jstr) (udpDatagram : buffer) : outcome Z :=
  transport_checksum PROTOCOLS.UDP srcIp dstIp udpDatagram.

(** ** Builders *)

Definition buildTCPSegment (srcPort dstPort seq ack flags : Z) (data : buffer)
    (windowSize : Z) (options : option buffer) : outcome buffer :=
  let optPart := default [] options in
  let headerCore := (20 + length optPart)%nat in
  let pad := ((4 - headerCore mod 4) mod 4)%nat in
  let totalHeader := (headerCore + pad)%nat in
  let dataOffsetWords := Z.of_nat totalHeader / 4 in
  let b := buf_alloc (totalHeader + length data) in
  b ← write_uint 2 srcPort 0 b;
  b ← write_uint 2 dstPort 2 b;
  b ← write_uint 4 (uint32 seq) 4 b;
  b ← write_uint 4 (uint32 ack) 8 b;
  let b := set_byte 12 (Z.shiftl dataOffsetWords 4) b in
  let b := set_byte 13 flags b in
  b ← write_uint 2 (Z.land windowSize 0xffff) 14 b;
  b ← write_uint 2 0 16 b;
  b ← write_uint 2 0 18 b;
  let b := buf_copy optPart 20 b in
  Ret (buf_copy data totalHeader b).

(** [rnd] is the value of [(Math.random() * 0xffff) >>> 0]. *)
Definition buildIPPacket (rnd : Z) (srcIp dstIp : jstr) (protocol : Z) (payload : buffer)
    (id : option Z) : outcome buffer :=
  let totalLen := (20 + length payload)%nat in
  let b := buf_alloc totalLen in
  let b := set_byte 0 0x45 b in
  let b := set_byte 1 0 b in
  b ← write_uint 2 (Z.of_nat totalLen) 2 b;
  b ← write_uint 2 (js_or id rnd) 4 b;
  b ← write_uint 2 0x4000 6 b;
  let b := set_byte 8 64 b in
  let b := set_byte 9 protocol b in
  b ← write_uint 2 0 10 b;
  let b := set_byte 12 (ip_byte 0 srcIp) b in
  let b := set_byte 13 (ip_byte 1 srcIp) b in
  let b := set_byte 14 (ip_byte 2 srcIp) b in
  let b := set_byte 15 (ip_byte 3 srcIp) b in
  let b := set_byte 16 (ip_byte 0 dstIp) b in
  let b := set_byte 17 (ip_byte 1 dstIp) b in
  let b := set_byte 18 (ip_byte 2 dstIp) b in
  let b := set_byte 19 (ip_byte 3 dstIp) b in
  b ← write_uint 2 (calculateIPChecksum (subarray 0 20 b)) 10 b;
  Ret (buf_copy payload 20 b).

Definition buildTCPPacket (rnd : Z) (srcIp dstIp : jstr) (srcPort dstPort seq ack flags : Z)
    (data : buffer) (options : option buffer) : outcome buffer :=
  tcpSegment ← buildTCPSegment srcPort dstPort seq ack flags data 65535 options;
  checksum ← calculateTCPChecksum srcIp dstIp tcpSegment;
  tcpSegment ← write_uint 2 checksum 16 tcpSegment;
  buildIPPacket rnd srcIp dstIp PROTOCOLS.TCP tcpSegment None.

Definition buildUDPDatagram (srcPort dstPort : Z) (data : buffer) : outcome buffer :=
  let totalLen := (8 + length data)%nat in
  let b := buf_alloc totalLen in
  b ← write_uint 2 srcPort 0 b;
  b ← write_uint 2 dstPort 2 b;
  b ← write_uint 2 (Z.of_nat totalLen) 4 b;
  b ← write_uint 2 0 6 b;
  Ret (if (0 <? length data)%nat then buf_copy data 8 b else b).

Definition buildUDPPacket (rnd : Z) (srcIp dstIp : jstr) (srcPort dstPort : Z) (data : buffer) :
    outcome buffer :=
  udpDatagram ← buildUDPDatagram srcPort dstPort data;
  checksum ← calculateUDPChecksum srcIp dstIp udpDatagram;
  udpDatagram ← write_uint 2 checksum 6 udpDatagram;
  buildIPPacket rnd srcIp dstIp PROTOCOLS.UDP udpDatagram None.

(** ** Parsing *)

Record TcpFields := MkTcp {
  tcpSeq : Z;
  tcpAck : Z;
  tcpDataOffset : Z;
  tcpFlags : Z;
  tcpFlagsSYN : bool;
  tcpFlagsACK : bool;
  tcpFlagsFIN : bool;
  tcpFlagsRST : bool;
  tcpFlagsPSH : bool;
  tcpWindow : Z
}.

Inductive Transport : Type :=
  | NoTransport
  | Tcp (f : TcpFields)
  | Udp (udpLength : Z)
  | Icmp (icmpType icmpCode : Z) (icmpData : buffer).

Record IpInfo := MkIp {
  ip_version : Z;
  headerLength : Z;
  totalLength : Z;
  ipId : Z;
  protocol : Z;
  srcIp : jstr;
  dstIp : jstr;
  srcPort : Z;
  dstPort : Z;
  ip_data : buffer;
  transport : Transport
}.

(** [null], [{ version, valid: false }], or the parsed packet. *)
Inductive IpParse : Type :=
  | IpNull
  | IpInvalid (version : Z)
  | IpOk (i : IpInfo).

Definition has_flag (flags f : Z) : bool := negb (Z.land flags f =? 0).

Definition parse_tcp (o : nat) (b : buffer) : outcome (Z * Z * buffer * Transport) :=
  srcPort ← read_u16 o b;
  dstPort ← read_u16 (o + 2) b;
  tcpSeq ← read_u32 (o + 4) b;
  tcpAck ← read_u32 (o + 8) b;
  let dataOffset := Z.land (Z.shiftr (byte_at (o + 12) b) 4) 0x0f * 4 in
  let flags := byte_at (o + 13) b in
  tcpWindow ← read_u16 (o + 14) b;
  let payloadStart := (o + Z.to_nat dataOffset)%nat in
  let data := if (payloadStart <? length b)%nat then drop payloadStart b else [] in
  Ret (srcPort, dstPort, data,
    Tcp (MkTcp tcpSeq tcpAck dataOffset flags
      (has_flag flags TCP_FLAGS.SYN) (has_flag flags TCP_FLAGS.ACK) (has_flag flags TCP_FLAGS.FIN)
      (has_flag flags TCP_FLAGS.RST) (has_flag flags TCP_FLAGS.PSH) tcpWindow)).

Definition parse_udp (o : nat) (b : buffer) : outcome (Z * Z * buffer * Transport) :=
  srcPort ← read_u16 o b;
  dstPort ← read_u16 (o + 2) b;
  udpLength ← read_u16 (o + 4) b;
  let payloadStart := (o + 8)%nat in
  let data := if (payloadStart <? length b)%nat then drop payloadStart b else [] in
  Ret (srcPort, dstPort, data, Udp udpLength).

Definition parseIPPacket (b : buffer) : outcome IpParse :=
  if (length b <? 20)%nat then Ret IpNull
  else
    let version := Z.land (Z.shiftr (byte_at 0 b) 4) 0x0f in
    if negb (version =? 4) then Ret (IpInvalid version)
    else
      let headerLength := Z.land (byte_at 0 b) 0x0f * 4 in
      totalLength ← read_u16 2 b;
      ipId ← read_u16 4 b;
      let protocol := byte_at 9 b in
      let srcIp := dotted (byte_at 12 b) (byte_at 13 b) (byte_at 14 b) (byte_at 15 b) in
      let dstIp := dotted (byte_at 16 b) (byte_at 17 b) (byte_at 18 b) (byte_at 19 b) in
      let o := Z.to_nat headerLength in
      '(srcPort, dstPort, data, tr) ←
        (if (protocol =? PROTOCOLS.TCP) && (o + 20 <=? length b)%nat then parse_tcp o b
         else if (protocol =? PROTOCOLS.UDP) && (o + 8 <=? length b)%nat then parse_udp o b
         else if (protocol =? PROTOCOLS.ICMP) && (o + 4 <=? length b)%nat then
           Ret (0, 0, drop (o + 8) b, Icmp (byte_at o b) (byte_at (o + 1) b) (drop (o + 4) b))
         else Ret (0, 0, @nil Z, NoTransport));
      Ret (IpOk (MkIp version headerLength totalLength ipId protocol srcIp dstIp
                   srcPort dstPort data tr)).

(** ** TCP options of a SYN *)

Record SynOptions := MkSyn {
  mss : option Z;
  wscale : option Z;
  sackPerm : bool;
  tsval : option Z
}.

(** The loop over the options, [o] the position, [optEnd] the end of the header.
    An absent length byte ([undefined]) makes the next position [NaN], which ends
    the loop.  [None]: out of fuel. *)
Fixpoint syn_options_loop (fuel : nat) (b : buffer) (o optEnd : nat) (r : SynOptions) :
    option (outcome SynOptions) :=
  match fuel with
  | O => None
  | S f =>
      if (o <? optEnd)%nat then
        let kind := byte_at o b in
        if kind =? 0 then Some (Ret r)
        else if kind =? 1 then syn_options_loop f b (o + 1) optEnd r
        else match b !! (o + 1)%nat with
        | None => Some (Ret r)
        | Some len =>
            if (len <? 2) || (Z.of_nat optEnd <? Z.of_nat o + len) then Some (Ret r)
            else
              let continue r := syn_options_loop f b (o + Z.to_nat len) optEnd r in
              if (kind =? 2) && (4 <=? len) then
                match read_u16 (o + 2) b with
                | Throw e => Some (Throw e)
                | Ret v => continue (MkSyn (Some v) (wscale r) (sackPerm r) (tsval r))
                end
              else if (kind =? 3) && (3 <=? len) then
                let sc := byte_at (o + 2) b in
                continue (if sc <=? 14 then MkSyn (mss r) (Some sc) (sackPerm r) (tsval r) else r)
              else if (kind =? 4) && (len =? 2) then
                continue (MkSyn (mss r) (wscale r) true (tsval r))
              else if (kind =? 8) && (10 <=? len) then
                match read_u32 (o + 2) b with
                | Throw e => Some (Throw e)
                | Ret v => continue (MkSyn (mss r) (wscale r) (sackPerm r) (Some v))
                end
              else continue r
        end
      else Some (Ret r)
  end.

(** [{}] on the early returns: every field undefined, [sackPerm] falsy. *)
Definition no_syn_options : SynOptions := MkSyn None None false None.

Definition parseTcpSynOptions (b : buffer) : option (outcome SynOptions) :=
  if (length b <? 20)%nat then Some (Ret no_syn_options)
  else
    let ihl := Z.to_nat (Z.land (byte_at 0 b) 0xf * 4) in
    if (length b <? ihl + 20)%nat || negb (byte_at 9 b =? PROTOCOLS.TCP)
    then Some (Ret no_syn_options)
    else
      let tcp0 := ihl in
      let thl := Z.to_nat (Z.land (Z.shiftr (byte_at (tcp0 + 12) b) 4) 0xf * 4) in
      if (thl <? 20)%nat || (length b <? tcp0 + thl)%nat then Some (Ret no_syn_options)
      else syn_options_loop (S thl) b (tcp0 + 20) (tcp0 + thl) no_syn_options.

(** [now] is [Date.now()]. *)
Definition buildSynAckOptions (now : Z) (negotiation : SynOptions) : outcome buffer :=
  let ourMss := Z.min 1360 (match mss negotiation with
    | Some c => if c =? 0 then 1360 else Z.min c 1360 | None => 1360 end) in
  mssBuf ← write_uint 2 ourMss 2 (set_byte 1 4 (set_byte 0 2 (buf_alloc 4)));
  ts ← (match tsval negotiation with
        | Some v =>
            let t := uint32 (now / 1000) in
            b ← write_uint 4 t 2 (set_byte 1 10 (set_byte 0 8 (buf_alloc 10)));
            write_uint 4 (uint32 v) 6 b
        | None => Ret (@nil Z)
        end);
  let ws := match wscale negotiation with
    | Some w => if w <=? 14 then [1; 1; 1; 1] ++ [3; 3; w mod 256] else []
    | None => [] end in
  let buf := mssBuf ++ (if sackPerm negotiation then [4; 2] else []) ++ ts ++ ws in
  let pad := ((4 - length buf mod 4) mod 4)%nat in
  Ret (if (pad =? 0)%nat then buf else buf ++ buf_alloc pad).

(** ** The Internet checksum *)

Lemma int32_small s : 0 <= s < 2 ^ 31 → int32 s = s.
Proof. intros. unfold int32. rewrite Z.mod_small; lia. Qed.

Lemma fold_carry_step f s : 0 <= s < 2 ^ 31 →
  fold_carry (S f) s = if s <? 65536 then s else fold_carry f (s mod 65536 + s / 65536).
Proof.
  intros Hs. cbn [fold_carry]. rewrite int32_small // Z.shiftr_div_pow2 //.
  change 0xffff with (Z.ones 16). rewrite Z.land_ones //. change (2 ^ 16) with 65536.
  destruct (Z.ltb_spec s 65536) as [Hlt|Hge].
  - rewrite Z.div_small //; lia.
  - destruct (Z.eqb_spec (s / 65536) 0) as [E|_]; [|done].
    apply Z.div_small_iff in E; lia.
Qed.

(** The carry loop ends within its fuel with the 16-bit ones' complement sum. *)
Lemma fold_carry_spec s : 0 <= s < 2 ^ 31 →
  0 <= fold_carry 4 s < 65536 ∧ fold_carry 4 s mod 65535 = s mod 65535 ∧
  (0 < s → 0 < fold_carry 4 s).
Proof.
  intros Hs. set (g := λ s, s mod 65536 + s / 65536).
  assert (∀ s, g s mod 65535 = s mod 65535) as Hmod.
  { intros x. rewrite -(Z_mod_plus_full (g x) (x / 65536) 65535). f_equal. unfold g.
    pose proof (Z.div_mod x 65536 ltac:(lia)). lia. }
  assert (∀ s, 0 <= s → 0 <= g s ∧ (0 < s → 0 < g s)) as Hpos.
  { intros x Hx. unfold g. pose proof (Z.mod_pos_bound x 65536 ltac:(lia)).
    pose proof (Z.div_pos x 65536 Hx ltac:(lia)). pose proof (Z.div_mod x 65536 ltac:(lia)). lia. }
  assert (∀ s, 0 <= s < 2 ^ 31 → g s < 98304) as Hb1.
  { intros x Hx. unfold g. pose proof (Z.mod_pos_bound x 65536 ltac:(lia)).
    assert (x / 65536 < 32768) by (apply Z.div_lt_upper_bound; lia). lia. }
  assert (∀ s, 65536 <= s < 98304 → g s < 65536) as Hb2.
  { intros x Hx. unfold g. assert (x / 65536 = 1) as E.
    { symmetry. apply Z.div_unique with (r := x - 65536); lia. }
    pose proof (Z.div_mod x 65536 ltac:(lia)). lia. }
  rewrite fold_carry_step //. destruct (Z.ltb_spec s 65536) as [|H1]; [lia|].
  destruct (Hpos s) as [Hp0 Hp1]; [lia|]. pose proof (Hb1 s Hs).
  rewrite fold_carry_step; [|unfold g in *; lia]. change (s mod 65536 + s / 65536) with (g s).
  destruct (Z.ltb_spec (g s) 65536) as [|H2]; [rewrite Hmod; lia|].
  destruct (Hpos (g s)) as [Hq0 Hq1]; [lia|]. pose proof (Hb2 (g s) ltac:(lia)).
  rewrite fold_carry_step; [|unfold g in *; lia]. change (g s mod 65536 + g s / 65536) with (g (g s)).
  destruct (Z.ltb_spec (g (g s)) 65536) as [|]; [|lia]. rewrite !Hmod. lia.
Qed.

Lemma checksum_fold b : 0 <= word_sum b < 2 ^ 31 →
  calculateIPChecksum b = 65535 - fold_carry 4 (word_sum b).
Proof.
  intros Hs. destruct (fold_carry_spec _ Hs) as (Hr & _ & _). unfold calculateIPChecksum.
  set (r := fold_carry 4 (word_sum b)) in *. clearbody r. rewrite int32_small; [|lia].
  change 0xffff with (Z.ones 16). rewrite Z.land_ones //. change (2 ^ 16) with 65536.
  change (Z.ones 16) with 65535. unfold Z.lnot. symmetry. apply Z.mod_unique with (q := -1); lia.
Qed.

Lemma word_sum_app p s : Nat.Even (length p) → word_sum (p ++ s) = word_sum p + word_sum s.
Proof.
  induction p as [p IH] using (induction_ltof1 _ (@length Z)). unfold ltof in IH.
  destruct p as [|x [|y p]]; intros He; simpl in *; [done|by destruct He; lia|].
  rewrite IH; [lia|lia|]. apply Nat.Even_succ_succ. done.
Qed.

Lemma word_sum_range b : bytes_ok b → 0 <= word_sum b <= 32768 * (blen b + 1).
Proof.
  unfold blen. induction b as [b IH] using (induction_ltof1 _ (@length Z)). unfold ltof in IH.
  destruct b as [|x [|y b]]; intros Hb; [simpl; lia| |].
  - apply Forall_cons in Hb as [Hb _]. unfold byte_ok in Hb.
    change (word_sum [x]) with (Z.shiftl x 8). rewrite Z.shiftl_mul_pow2 //.
    change (2 ^ 8) with 256. simpl length. lia.
  - apply Forall_cons in Hb as [Hx [Hy Hb]%Forall_cons]. unfold byte_ok in *.
    specialize (IH b ltac:(simpl; lia) Hb). simpl. lia.
Qed.

Lemma checksum_range b : bytes_ok b → blen b <= 65534 → 0 <= calculateIPChecksum b < 65536.
Proof.
  intros Hb Hl. pose proof (word_sum_range b Hb). unfold blen in *.
  assert (0 <= word_sum b < 2 ^ 31) as Hr by lia. rewrite checksum_fold //.
  pose proof (fold_carry_spec _ Hr). lia.
Qed.

Lemma word_sum_2 v s : 0 <= v < 65536 → word_sum (be_bytes 2 v ++ s) = v + word_sum s.
Proof.
  intros Hv. rewrite be_bytes_2 /=. rewrite (Z.mod_small (v / 256)).
  - pose proof (Z.div_mod v 256). lia.
  - split; [apply Z.div_pos; lia|apply Z.div_lt_upper_bound; lia].
Qed.

(** A receiver that sums the bytes with the stored checksum gets all ones. *)
Lemma checksum_verifies p s :
  Nat.Even (length p) → bytes_ok (p ++ s) → blen p + 2 + blen s <= 65534 →
  calculateIPChecksum (p ++ be_bytes 2 (calculateIPChecksum (p ++ be_bytes 2 0 ++ s)) ++ s) = 0.
Proof.
  intros Hp Hb Hl. apply bytes_ok_app in Hb as [Hbp Hbs].
  pose proof (word_sum_range p Hbp) as Hrp. pose proof (word_sum_range s Hbs) as Hrs. unfold blen in *.
  assert (word_sum (p ++ be_bytes 2 0 ++ s) = word_sum p + word_sum s) as E0.
  { rewrite word_sum_app // word_sum_2 //. }
  assert (0 <= word_sum (p ++ be_bytes 2 0 ++ s) < 2 ^ 31) as Hr by (rewrite E0; lia).
  rewrite (checksum_fold (p ++ be_bytes 2 0 ++ s)) // E0.
  rewrite E0 in Hr. destruct (fold_carry_spec _ Hr) as (Hf & Hm & Hpos).
  assert (word_sum p + word_sum s = 0 → fold_carry 4 (word_sum p + word_sum s) = 0) as Hzero
    by (intros ->; done).
  set (t := word_sum p + word_sum s) in *. set (r := fold_carry 4 t) in *. clearbody r.
  assert (word_sum (p ++ be_bytes 2 (65535 - r) ++ s) = t + (65535 - r)) as E1.
  { rewrite word_sum_app // word_sum_2; [lia|lia]. }
  rewrite checksum_fold E1; [|lia].
  destruct (fold_carry_spec (t + (65535 - r))) as (Hf' & Hm' & Hpos'); [lia|].
  set (r' := fold_carry 4 (t + (65535 - r))) in *. clearbody r'.
  assert ((t + (65535 - r)) mod 65535 = 0) as Hz.
  { replace (t + (65535 - r)) with ((t - r) + 1 * 65535) by lia. rewrite Z_mod_plus_full.
    rewrite Zminus_mod Hm Z.sub_diag. done. }
  rewrite Hz in Hm'. apply Z.mod_divide in Hm' as [k Hk]; [|lia]. lia.
Qed.

(** ** The bytes the builders produce *)

#[local] Ltac len_side :=
  rewrite ?length_app ?length_be_bytes ?length_buf_alloc; cbn [length]; try lia.

(** One assignment of a builder, on a buffer filled up to the position. *)
#[local] Ltac fill :=
  first
    [ rewrite set_byte_zero; [|len_side|len_side]
    | rewrite write_uint_zero; [rewrite ret_bind|len_side|len_side
      |first [lia | match goal with H : ∀ _, _ |- _ => apply H end]] ].

Lemma ip_byte_mod i s : ip_byte i s mod 256 = ip_byte i s.
Proof. unfold ip_byte. by rewrite Z.mod_mod. Qed.

Lemma ip4_ok s : bytes_ok (ip4 s).
Proof. repeat constructor; unfold ip_byte; apply Z.mod_pos_bound; lia. Qed.

Lemma ip4_dotted a b c d :
  byte_ok a → byte_ok b → byte_ok c → byte_ok d → ip4 (dotted a b c d) = [a; b; c; d].
Proof.
  unfold byte_ok, ip4, ip_byte. intros. rewrite ip_parts_dotted; [simpl|lia..].
  by rewrite !Z.mod_small.
Qed.

Definition odd_pad (seg : buffer) : buffer :=
  buf_alloc (if ((12 + length seg) mod 2 =? 0)%nat then 0 else 1)%nat.

Lemma transport_checksum_bytes proto s d seg :
  byte_ok proto → blen seg < 65536 →
  transport_checksum proto s d seg = Ret (calculateIPChecksum
    ((ip4 s ++ ip4 d ++ [0; proto] ++ be_bytes 2 (blen seg)) ++ seg ++ odd_pad seg)).
Proof.
  intros Hp Hl. unfold transport_checksum, odd_pad.
  set (k := if ((12 + length seg) mod 2 =? 0)%nat then 0%nat else 1%nat).
  replace (if ((12 + length seg) mod 2 =? 0)%nat then _ else _) with (12 + length seg + k)%nat;
    last by (unfold k; destruct (_ =? _)%nat; lia).
  clearbody k. rewrite buf_alloc_nil. unfold blen in *. repeat fill.
  rewrite buf_copy_zero; [|len_side|len_side]. f_equal. f_equal.
  match goal with |- context [buf_alloc (?a - length seg)] =>
    replace (a - length seg)%nat with k by lia end.
  rewrite !ip_byte_mod !(Z.mod_small proto) // -!(assoc_L (++)) //.
Qed.

Definition tcp_header (sp dp sq ak dow fl win cks : Z) (opt : buffer) (pad : nat) : buffer :=
  be_bytes 2 sp ++ be_bytes 2 dp ++ be_bytes 4 sq ++ be_bytes 4 ak ++ [dow; fl] ++
  be_bytes 2 win ++ be_bytes 2 cks ++ be_bytes 2 0 ++ opt ++ buf_alloc pad.

Definition opt_pad (opt : buffer) : nat := ((4 - (20 + length opt) mod 4) mod 4)%nat.

Lemma buildTCPSegment_bytes sp dp sq ak fl data win opt :
  0 <= sp < 65536 → 0 <= dp < 65536 → byte_ok fl → (length (default [] opt) <= 40)%nat →
  let o := default [] opt in
  buildTCPSegment sp dp sq ak fl data win opt =
    Ret (tcp_header sp dp (uint32 sq) (uint32 ak)
           (16 * (Z.of_nat (20 + length o + opt_pad o) / 4)) fl
           (Z.land win 0xffff) 0 o (opt_pad o) ++ data).
Proof.
  intros Hsp Hdp Hfl Ho o. unfold buildTCPSegment. fold o. fold o in Ho.
  change ((4 - (20 + length o) mod 4) mod 4)%nat with (opt_pad o).
  assert (opt_pad o < 4)%nat as Hpad by (apply Nat.mod_upper_bound; lia).
  set (k := opt_pad o) in *. clearbody k.
  assert (∀ x, 0 <= uint32 x < 256 ^ Z.of_nat 4) as Hu
    by (intros; apply Z.mod_pos_bound; lia).
  assert (0 <= Z.land win 0xffff < 65536) as Hw.
  { change 0xffff with (Z.ones 16). rewrite Z.land_ones //. apply Z.mod_pos_bound. lia. }
  assert (byte_ok (Z.shiftl (Z.of_nat (20 + length o + k) / 4) 4)) as Hd.
  { rewrite Z.shiftl_mul_pow2 //. red.
    pose proof (Z.div_mod (Z.of_nat (20 + length o + k)) 4 ltac:(lia)).
    pose proof (Z.mod_pos_bound (Z.of_nat (20 + length o + k)) 4 ltac:(lia)). lia. }
  rewrite buf_alloc_nil. repeat fill.
  rewrite buf_copy_zero; [|len_side|len_side].
  (* the padding of the options *)
  match goal with |- context [buf_alloc (?a - length o)] =>
    replace (a - length o)%nat with (k + length data)%nat by lia end.
  rewrite (buf_alloc_split k); [|lia]. rewrite (assoc_L (++)) buf_copy_zero; [|len_side|len_side].
  replace (k + length data - k - length data)%nat with 0%nat by lia. rewrite app_nil_r.
  rewrite (Z.mod_small fl) // (Z.mod_small (Z.shiftl _ _)) // Z.shiftl_mul_pow2 //.
  unfold tcp_header. rewrite -!(assoc_L (++)). rewrite (Z.mul_comm _ (2 ^ 4)). done.
Qed.

Definition udp_header (sp dp len cks : Z) : buffer :=
  be_bytes 2 sp ++ be_bytes 2 dp ++ be_bytes 2 len ++ be_bytes 2 cks.

Lemma buildUDPDatagram_bytes sp dp data :
  0 <= sp < 65536 → 0 <= dp < 65536 → blen data <= 65507 →
  buildUDPDatagram sp dp data = Ret (udp_header sp dp (8 + blen data) 0 ++ data).
Proof.
  unfold blen. intros Hsp Hdp Hl. unfold buildUDPDatagram.
  rewrite buf_alloc_nil. repeat fill.
  match goal with |- context [buf_alloc (?a - 2)] =>
    replace (a - 2)%nat with (length data) by lia end.
  replace (Z.of_nat (8 + length data)) with (8 + Z.of_nat (length data)) by lia.
  unfold udp_header. destruct data as [|x data].
  - cbn [length Nat.ltb Nat.leb buf_alloc replicate]. by rewrite !app_nil_r -!(assoc_L (++)).
  - change (0 <? length (x :: data))%nat with true. cbn match.
    rewrite buf_copy_zero; [|len_side|len_side]. rewrite Nat.sub_diag app_nil_r.
    by rewrite -!(assoc_L (++)).
Qed.

Definition ip_head_of (frag ttl total id proto : Z) : buffer :=
  [0x45; 0] ++ be_bytes 2 total ++ be_bytes 2 id ++ be_bytes 2 frag ++ [ttl; proto].
Definition ip_head : Z → Z → Z → buffer := ip_head_of 0x4000 64.
Definition ip_header (total id proto cks : Z) (s d : jstr) : buffer :=
  ip_head total id proto ++ be_bytes 2 cks ++ ip4 s ++ ip4 d.

Lemma length_ip_header total id proto cks s d : length (ip_header total id proto cks s d) = 20%nat.
Proof. unfold ip_header, ip_head, ip_head_of. by rewrite !length_app !length_be_bytes. Qed.

Definition ip_checksum (total id proto : Z) (s d : jstr) : Z :=
  calculateIPChecksum (ip_header total id proto 0 s d).

Lemma ip_head_ok total id proto : byte_ok proto → bytes_ok (ip_head total id proto).
Proof.
  intros. unfold ip_head, ip_head_of. rewrite !bytes_ok_app.
  repeat split; try apply be_bytes_ok; repeat constructor; (done || apply H).
Qed.

Lemma ip_checksum_ok total id proto s d : byte_ok proto →
  0 <= ip_checksum total id proto s d < 65536 ∧
  calculateIPChecksum (ip_header total id proto (ip_checksum total id proto s d) s d) = 0.
Proof.
  intros Hp. split.
  - apply checksum_range; [|unfold blen; rewrite length_ip_header; lia].
    apply bytes_ok_app. split; [by apply ip_head_ok|].
    apply bytes_ok_app. split; [apply be_bytes_ok|]. apply bytes_ok_app. split; apply ip4_ok.
  - unfold ip_header at 1, ip_checksum, ip_header. apply checksum_verifies.
    + exists 5%nat. unfold ip_head, ip_head_of. by rewrite !length_app !length_be_bytes.
    + apply bytes_ok_app. split; [by apply ip_head_ok|]. apply bytes_ok_app. split; apply ip4_ok.
    + unfold blen, ip_head, ip_head_of. rewrite !length_app !length_be_bytes. done.
Qed.

Lemma patch_checksum h c r pl :
  0 <= c < 65536 → length h = 10%nat → length r = 8%nat →
  (b ← write_uint 2 c 10 ((h ++ be_bytes 2 0 ++ r) ++ buf_alloc (length pl));
   Ret (buf_copy pl 20 b)) = Ret ((h ++ be_bytes 2 c ++ r) ++ pl).
Proof.
  intros Hc Hh Hr. rewrite -(assoc_L (++) h) -(assoc_L (++) (be_bytes 2 0)).
  rewrite write_uint_mid; [|lia|done|by rewrite length_be_bytes].
  cbn [mbind outcome_bind]. rewrite (assoc_L (++) (be_bytes 2 c)) (assoc_L (++) h).
  rewrite buf_copy_zero; [|by rewrite !length_app length_be_bytes Hh Hr|lia].
  by rewrite Nat.sub_diag app_nil_r.
Qed.

Lemma buildIPPacket_bytes rnd s d proto pl id :
  0 <= js_or id rnd < 65536 → byte_ok proto → blen pl <= 65515 →
  let t := 20 + blen pl in
  buildIPPacket rnd s d proto pl id =
    Ret (ip_header t (js_or id rnd) proto (ip_checksum t (js_or id rnd) proto s d) s d ++ pl).
Proof.
  intros Hid Hp Hl t. unfold blen in *. unfold buildIPPacket.
  rewrite buf_alloc_nil. repeat fill.
  match goal with |- context [buf_alloc ?k] => replace k with (length pl) by lia end.
  rewrite !ip_byte_mod !(Z.mod_small proto) //.
  replace (Z.of_nat (20 + length pl)) with t by lia.
  match goal with |- context [subarray 0 20 (?h ++ _)] =>
    assert (h = ip_header t (js_or id rnd) proto 0 s d) as -> end.
  { unfold ip_header, ip_head, ip_head_of. rewrite -!(assoc_L (++)) //. }
  rewrite (subarray_mid [] (ip_header t (js_or id rnd) proto 0 s d)) ?length_ip_header; [|done..].
  rewrite -/(ip_checksum t (js_or id rnd) proto s d).
  destruct (ip_checksum_ok t (js_or id rnd) proto s d Hp) as [Hc _].
  apply patch_checksum; [done|by rewrite /ip_head /ip_head_of !length_app !length_be_bytes|done].
Qed.

(** ** Round trips *)

Section parse_header.
Context (frag ttl t id proto cks a1 a2 a3 a4 b1 b2 b3 b4 : Z) (pl : buffer).
Let s := dotted a1 a2 a3 a4.
Let d := dotted b1 b2 b3 b4.
Let b := (ip_head_of frag ttl t id proto ++ be_bytes 2 cks ++ ip4 s ++ ip4 d) ++ pl.
Context (Ht : 0 <= t < 65536) (Hid : 0 <= id < 65536)
  (Hs : byte_ok a1 ∧ byte_ok a2 ∧ byte_ok a3 ∧ byte_ok a4)
  (Hd : byte_ok b1 ∧ byte_ok b2 ∧ byte_ok b3 ∧ byte_ok b4).

(** Everything of [parseIPPacket] but the transport part, on a built header. *)
Lemma parseIPPacket_header :
  parseIPPacket b =
    '(sp, dp, data, tr) ←
      (if (proto =? PROTOCOLS.TCP) && (20 <=? length pl)%nat then parse_tcp 20 b
       else if (proto =? PROTOCOLS.UDP) && (8 <=? length pl)%nat then parse_udp 20 b
       else if (proto =? PROTOCOLS.ICMP) && (4 <=? length pl)%nat then
         Ret (0, 0, drop 28 b, Icmp (byte_at 20 b) (byte_at 21 b) (drop 24 b))
       else Ret (0, 0, @nil Z, NoTransport));
    Ret (IpOk (MkIp 4 20 t id proto s d sp dp data tr)).
Proof using Hd Hid Hs Ht.
  assert (length b = 20 + length pl)%nat as Hl
    by (unfold b, ip_head_of; rewrite !length_app !length_be_bytes /=; lia).
  assert (b = [0x45; 0] ++ be_bytes 2 t ++ be_bytes 2 id ++ be_bytes 2 frag ++ [ttl; proto] ++
    be_bytes 2 cks ++ [a1; a2; a3; a4] ++ [b1; b2; b3; b4] ++ pl) as Hb.
  { unfold b, s, d. rewrite !ip4_dotted; try apply Hs; try apply Hd.
    unfold ip_head_of. by rewrite -!(assoc_L (++)). }
  unfold parseIPPacket. rewrite Hl. cbn [Nat.ltb Nat.leb Nat.add].
  assert (read_u16 2 b = Ret t) as -> by (rewrite Hb; apply (read_be_mid 2 t [0x45; 0]); done).
  assert (read_u16 4 b = Ret id) as ->.
  { rewrite Hb (assoc_L (++)). apply read_be_mid; [by rewrite length_app length_be_bytes|done]. }
  rewrite !be_bytes_2 in Hb. assert (byte_at 0 b = 0x45) as -> by (by rewrite Hb).
  cbn [mbind outcome_bind]. 
  repeat match goal with |- context [byte_at ?i b] =>
    let v := eval cbv in i in
    let e := constr:(byte_at i b) in
    first [ assert (e = proto) as -> by (by rewrite Hb) | assert (e = a1) as -> by (by rewrite Hb)
          | assert (e = a2) as -> by (by rewrite Hb) | assert (e = a3) as -> by (by rewrite Hb)
          | assert (e = a4) as -> by (by rewrite Hb) | assert (e = b1) as -> by (by rewrite Hb)
          | assert (e = b2) as -> by (by rewrite Hb) | assert (e = b3) as -> by (by rewrite Hb)
          | assert (e = b4) as -> by (by rewrite Hb) ] end.
  done.
Qed.
End parse_header.

(** What [parse_tcp] and [parse_udp] read after the headers the builders write. *)
Definition tcp_fields (sq ak fl win : Z) (optlen : nat) : TcpFields :=
  MkTcp sq ak (20 + Z.of_nat optlen) fl
    (has_flag fl TCP_FLAGS.SYN) (has_flag fl TCP_FLAGS.ACK) (has_flag fl TCP_FLAGS.FIN)
    (has_flag fl TCP_FLAGS.RST) (has_flag fl TCP_FLAGS.PSH) win.

Lemma drop_if_shorter n (b : buffer) :
  (if (n <? length b)%nat then drop n b else []) = drop n b.
Proof. destruct (Nat.ltb_spec n (length b)); [done|]. by rewrite drop_ge. Qed.

Lemma parse_tcp_header o b sp dp sq ak fl win cks opt pad data :
  drop o b = tcp_header sp dp sq ak (16 * (Z.of_nat (20 + length opt + pad) / 4)) fl win cks opt pad ++ data →
  0 <= sp < 65536 → 0 <= dp < 65536 → 0 <= sq < 2 ^ 32 → 0 <= ak < 2 ^ 32 → 0 <= win < 65536 →
  (length opt <= 40)%nat → pad = opt_pad opt →
  parse_tcp o b = Ret (sp, dp, data, Tcp (tcp_fields sq ak fl win (length opt + pad))).
Proof.
  intros Hd Hsp Hdp Hsq Hak Hwin Hopt Hpad.
  assert (Z.of_nat (20 + length opt + pad) / 4 * 4 = 20 + Z.of_nat (length opt + pad) ∧ (pad < 4)%nat) as [Hdiv Hp4].
  { subst pad. unfold opt_pad. set (n := length opt). clearbody n.
    pose proof (Nat.mod_upper_bound (20 + n) 4 ltac:(lia)).
    pose proof (Nat.div_mod (20 + n) 4 ltac:(lia)).
    destruct (decide ((20 + n) mod 4 = 0)%nat) as [E|E].
    - rewrite E /=. split; [|lia].
      rewrite -(Z.div_unique (Z.of_nat (20 + n + 0)) 4 (Z.of_nat ((20 + n) / 4)) 0); lia.
    - rewrite (Nat.mod_small (4 - (20 + n) mod 4)); [|lia]. split; [|lia].
      rewrite -(Z.div_unique (Z.of_nat (20 + n + (4 - (20 + n) mod 4))) 4 (Z.of_nat ((20 + n) / 4 + 1)) 0); lia. }
  set (q := Z.of_nat (20 + length opt + pad) / 4) in *. clearbody q.
  unfold tcp_header in Hd.
  rewrite -!(assoc_L (++)) in Hd. unfold parse_tcp.
  destruct (read_next_be _ _ _ _ _ Hd) as [-> Hd1]; [lia..|]. cbn [mbind outcome_bind].
  destruct (read_next_be _ _ _ _ _ Hd1) as [-> Hd2]; [lia..|]. cbn [mbind outcome_bind].
  rewrite -Nat.add_assoc /= in Hd2.
  destruct (read_next_be _ _ _ _ _ Hd2) as [-> Hd3]; [lia..|]. cbn [mbind outcome_bind].
  rewrite -Nat.add_assoc /= in Hd3.
  destruct (read_next_be _ _ _ _ _ Hd3) as [-> Hd4]; [lia..|]. cbn [mbind outcome_bind].
  rewrite -Nat.add_assoc /= in Hd4.
  destruct (byte_next _ _ _ _ Hd4) as [-> Hd5]. rewrite -Nat.add_assoc /= in Hd5.
  destruct (byte_next _ _ _ _ Hd5) as [-> Hd6]. rewrite -Nat.add_assoc /= in Hd6.
  destruct (read_next_be _ _ _ _ _ Hd6) as [-> Hd7]; [lia..|]. cbn [mbind outcome_bind].
  rewrite -Nat.add_assoc /= in Hd7.
  assert (Z.land (Z.shiftr (16 * q) 4) 0x0f = q) as ->.
  { rewrite Z.shiftr_div_pow2 // (Z.mul_comm 16) Z.div_mul //.
    change 0x0f with (Z.ones 4). rewrite Z.land_ones //. apply Z.mod_small. change (2 ^ 4) with 16. lia. }
  rewrite Hdiv drop_if_shorter. do 3 f_equal.
  replace (o + Z.to_nat (20 + Z.of_nat (length opt + pad)))%nat with (o + 16 + 2 + 2 + length opt + pad)%nat by lia.
  apply (drop_next _ pad _ (buf_alloc pad)); [|apply length_buf_alloc].
  apply (drop_next _ (length opt) _ opt); [|done].
  apply (drop_next _ 2 _ (be_bytes 2 0)); [|apply length_be_bytes].
  by apply (drop_next _ 2 _ (be_bytes 2 cks)); [|apply length_be_bytes].
Qed.

Lemma parse_udp_header o b sp dp len cks data :
  drop o b = udp_header sp dp len cks ++ data →
  0 <= sp < 65536 → 0 <= dp < 65536 → 0 <= len < 65536 →
  parse_udp o b = Ret (sp, dp, data, Udp len).
Proof.
  intros Hd Hsp Hdp Hlen. unfold udp_header in Hd. rewrite -!(assoc_L (++)) in Hd. unfold parse_udp.
  destruct (read_next_be _ _ _ _ _ Hd) as [-> Hd1]; [lia..|]. cbn [mbind outcome_bind].
  destruct (read_next_be _ _ _ _ _ Hd1) as [-> Hd2]; [lia..|]. cbn [mbind outcome_bind].
  rewrite -Nat.add_assoc /= in Hd2.
  destruct (read_next_be _ _ _ _ _ Hd2) as [-> Hd3]; [lia..|]. cbn [mbind outcome_bind].
  rewrite -Nat.add_assoc /= in Hd3. rewrite drop_if_shorter. do 3 f_equal.
  replace (o + 8)%nat with (o + 6 + 2)%nat by lia.
  by apply (drop_next _ 2 _ (be_bytes 2 cks)); [|apply length_be_bytes].
Qed.

(** The transport checksum of a segment [P ++ [0; 0] ++ S], and that a receiver
    finds 0 once it is stored. *)
Lemma transport_checksum_verifies proto s d P S :
  byte_ok proto → Nat.Even (length P) → bytes_ok (P ++ S) → blen P + 2 + blen S <= 65515 →
  ∃ c, transport_checksum proto s d (P ++ be_bytes 2 0 ++ S) = Ret c ∧ 0 <= c < 65536 ∧
    transport_checksum proto s d (P ++ be_bytes 2 c ++ S) = Ret 0.
Proof.
  unfold blen. intros Hp He Hok Hl. apply bytes_ok_app in Hok as [HokP HokS].
  set (H := ip4 s ++ ip4 d ++ [0; proto] ++ be_bytes 2 (Z.of_nat (length P + 2 + length S))).
  set (pad := buf_alloc (if ((12 + (length P + 2 + length S)) mod 2 =? 0)%nat then 0 else 1)%nat).
  assert (∀ v, transport_checksum proto s d (P ++ be_bytes 2 v ++ S) =
    Ret (calculateIPChecksum ((H ++ P) ++ be_bytes 2 v ++ (S ++ pad)))) as Hc.
  { intros v. rewrite transport_checksum_bytes; [|done|unfold blen; rewrite !length_app length_be_bytes; lia].
    unfold odd_pad, blen, H, pad. rewrite !length_app length_be_bytes Nat.add_assoc.
    by rewrite -!(assoc_L (++)). }
  assert (length H = 12%nat) as HH by (unfold H; rewrite !length_app length_be_bytes; done).
  assert (bytes_ok (H ++ P) ∧ bytes_ok (S ++ pad)) as [Ho1 Ho2].
  { split; apply bytes_ok_app; (split; [|first [done|apply bytes_ok_alloc]]); [|done].
    unfold H. apply bytes_ok_app. split; [apply ip4_ok|]. apply bytes_ok_app. split; [apply ip4_ok|].
    apply bytes_ok_app. split; [|apply be_bytes_ok].
    apply Forall_cons. split; [done|]. by apply Forall_singleton. }
  assert (length pad <= 1)%nat as Hpl.
  { unfold pad. rewrite length_buf_alloc. by case_match; lia. }
  clearbody H pad.
  exists (calculateIPChecksum ((H ++ P) ++ be_bytes 2 0 ++ (S ++ pad))). split; [apply Hc|]. split.
  - apply checksum_range.
    + apply bytes_ok_app. split; [done|]. apply bytes_ok_app. split; [apply be_bytes_ok|done].
    + unfold blen. rewrite !length_app length_be_bytes. lia.
  - rewrite Hc. f_equal. apply checksum_verifies.
    + rewrite length_app HH. destruct He as [n ->]. exists (6 + n)%nat. lia.
    + by apply bytes_ok_app.
    + unfold blen. rewrite !length_app. lia.
Qed.

(** A dotted quad. *)
Definition ipv4 (s : jstr) : Prop :=
  ∃ a b c d, s = dotted a b c d ∧ (byte_ok a ∧ byte_ok b ∧ byte_ok c ∧ byte_ok d).

Lemma parse_header_of frag ttl t id proto cks s d pl :
  0 <= t < 65536 → 0 <= id < 65536 → ipv4 s → ipv4 d →
  let b := (ip_head_of frag ttl t id proto ++ be_bytes 2 cks ++ ip4 s ++ ip4 d) ++ pl in
  parseIPPacket b =
    '(sp, dp, data, tr) ←
      (if (proto =? PROTOCOLS.TCP) && (20 <=? length pl)%nat then parse_tcp 20 b
       else if (proto =? PROTOCOLS.UDP) && (8 <=? length pl)%nat then parse_udp 20 b
       else if (proto =? PROTOCOLS.ICMP) && (4 <=? length pl)%nat then
         Ret (0, 0, drop 28 b, Icmp (byte_at 20 b) (byte_at 21 b) (drop 24 b))
       else Ret (0, 0, @nil Z, NoTransport));
    Ret (IpOk (MkIp 4 20 t id proto s d sp dp data tr)).
Proof.
  intros Ht Hid (a1 & a2 & a3 & a4 & -> & Ha) (b1 & b2 & b3 & b4 & -> & Hb).
  by apply parseIPPacket_header.
Qed.

Lemma parse_built t id proto cks s d pl :
  0 <= t < 65536 → 0 <= id < 65536 → ipv4 s → ipv4 d →
  parseIPPacket (ip_header t id proto cks s d ++ pl) =
    '(sp, dp, data, tr) ←
      (let b := ip_header t id proto cks s d ++ pl in
       if (proto =? PROTOCOLS.TCP) && (20 <=? length pl)%nat then parse_tcp 20 b
       else if (proto =? PROTOCOLS.UDP) && (8 <=? length pl)%nat then parse_udp 20 b
       else if (proto =? PROTOCOLS.ICMP) && (4 <=? length pl)%nat then
         Ret (0, 0, drop 28 b, Icmp (byte_at 20 b) (byte_at 21 b) (drop 24 b))
       else Ret (0, 0, @nil Z, NoTransport));
    Ret (IpOk (MkIp 4 20 t id proto s d sp dp data tr)).
Proof. intros. by apply (parse_header_of 0x4000 64). Qed.

(** The word of the data offset fits its byte. *)
Definition data_offset_byte (opt : buffer) : Z := 16 * (Z.of_nat (20 + length opt + opt_pad opt) / 4).

Lemma data_offset_byte_ok opt : (length opt <= 40)%nat → byte_ok (data_offset_byte opt).
Proof.
  intros Hl. unfold data_offset_byte.
  assert (opt_pad opt < 4)%nat by (apply Nat.mod_upper_bound; lia).
  assert (Z.of_nat (20 + length opt + opt_pad opt) / 4 < 16) by (apply Z.div_lt_upper_bound; lia).
  pose proof (Z.div_pos (Z.of_nat (20 + length opt + opt_pad opt)) 4). red. lia.
Qed.

(** The arguments of [buildTCPPacket] it does not throw on. *)
Definition tcp_args_ok (sp dp fl rnd : Z) (data o : buffer) : Prop :=
  0 <= sp < 65536 ∧ 0 <= dp < 65536 ∧ byte_ok fl ∧ 0 <= rnd < 65536 ∧
  bytes_ok data ∧ bytes_ok o ∧ (length o <= 40)%nat ∧
  40 + blen o + Z.of_nat (opt_pad o) + blen data <= 65535.
#[export] Instance tcp_args_ok_dec sp dp fl rnd data o : Decision (tcp_args_ok sp dp fl rnd data o).
Proof. unfold tcp_args_ok. apply _. Defined.

Lemma uint32_range x : 0 <= uint32 x < 2 ^ 32.
Proof. apply Z.mod_pos_bound. lia. Qed.

(** The bytes of a TCP packet, and its two checksums. *)
Lemma buildTCPPacket_bytes rnd s d sp dp sq ak fl data opt (o := default [] opt) :
  tcp_args_ok sp dp fl rnd data o →
  ∃ c seg, let b := ip_header (20 + blen seg) rnd PROTOCOLS.TCP
             (ip_checksum (20 + blen seg) rnd PROTOCOLS.TCP s d) s d ++ seg in
    buildTCPPacket rnd s d sp dp sq ak fl data opt = Ret b ∧
    seg = tcp_header sp dp (uint32 sq) (uint32 ak) (data_offset_byte o) fl 65535 c o (opt_pad o) ++ data ∧
    length seg = (20 + length o + opt_pad o + length data)%nat ∧
    calculateTCPChecksum s d seg = Ret 0.
Proof.
  intros (Hsp & Hdp & Hfl & Hrnd & Hdata & Hopt & Hoptl & Hlen). unfold blen in Hlen.
  unfold buildTCPPacket. rewrite buildTCPSegment_bytes // ret_bind.
  fold o. change (Z.land 65535 0xffff) with 65535. rewrite -/(data_offset_byte o).
  pose proof (data_offset_byte_ok o Hoptl) as Hdow. set (dow := data_offset_byte o) in *.
  set (P := be_bytes 2 sp ++ be_bytes 2 dp ++ be_bytes 4 (uint32 sq) ++ be_bytes 4 (uint32 ak) ++
    [dow; fl] ++ be_bytes 2 65535).
  set (S := be_bytes 2 0 ++ o ++ buf_alloc (opt_pad o) ++ data).
  assert (∀ c, tcp_header sp dp (uint32 sq) (uint32 ak) dow fl 65535 c o (opt_pad o) ++ data =
    P ++ be_bytes 2 c ++ S) as Heq.
  { intros c. unfold tcp_header, P, S. by rewrite -!(assoc_L (++)). }
  assert (length P = 16%nat) as HP by (unfold P; by rewrite !length_app !length_be_bytes).
  assert (length S = 2 + length o + opt_pad o + length data)%nat as HS
    by (unfold S; rewrite !length_app length_be_bytes length_buf_alloc; lia).
  assert (bytes_ok (P ++ S)) as HPS.
  { unfold P, S. rewrite !bytes_ok_app. repeat (split; try apply be_bytes_ok; try done).
    - by repeat constructor; apply Hdow || apply Hfl.
    - apply bytes_ok_alloc. }
  clearbody P S dow. rewrite Heq. unfold calculateTCPChecksum.
  destruct (transport_checksum_verifies PROTOCOLS.TCP s d P S) as (c & -> & Hc & Hv).
  { done. } { rewrite HP. by exists 8%nat. } { done. } { unfold blen. lia. }
  exists c, (P ++ be_bytes 2 c ++ S). rewrite Heq.
  rewrite ret_bind write_uint_mid // ret_bind buildIPPacket_bytes //; last first.
  { unfold blen. rewrite !length_app length_be_bytes. lia. }
  change (js_or None rnd) with rnd. split_and!; [done|done| |done].
  rewrite !length_app length_be_bytes. lia.
Qed.

(** A TCP packet is parsed back field for field, the sequence numbers modulo 2^32. *)
Lemma buildTCPPacket_parses rnd s d sp dp sq ak fl data opt (o := default [] opt) b :
  ipv4 s → ipv4 d → tcp_args_ok sp dp fl rnd data o →
  buildTCPPacket rnd s d sp dp sq ak fl data opt = Ret b →
  parseIPPacket b = Ret (IpOk (MkIp 4 20 (blen b) rnd PROTOCOLS.TCP s d sp dp data
    (Tcp (tcp_fields (uint32 sq) (uint32 ak) fl 65535 (length o + opt_pad o))))).
Proof.
  intros Hs Hd Hok Hb. destruct (buildTCPPacket_bytes rnd s d sp dp sq ak fl data opt Hok)
    as (c & seg & Hb' & Hseg & Hl & _). rewrite Hb' in Hb. apply Ret_inj in Hb as <-.
  destruct Hok as (Hsp & Hdp & _ & Hrnd & _ & _ & Ho & Hlen). unfold blen in Hlen.
  fold o in Ho, Hlen, Hseg, Hl, Hb'.
  rewrite parse_built //; [|unfold blen; lia]. cbv zeta. rewrite (proj2 (Nat.leb_le 20 (length seg))); [|lia].
  change (_ && true) with true. cbn match.
  rewrite (parse_tcp_header 20 _ sp dp (uint32 sq) (uint32 ak) fl 65535 c o (opt_pad o) data) //;
    try apply uint32_range; rewrite ?drop_app_exact ?length_ip_header //.
  rewrite ret_bind. do 3 f_equal. unfold blen. rewrite length_app length_ip_header. lia.
Qed.

(** C10: a TCP packet built for any ports, 32-bit sequence numbers, flags, data and
    options (40 bytes at most) is parsed back field for field, the data intact and
    the sequence numbers reduced modulo 2^32; a receiver's check of the IP header
    checksum and of the TCP checksum (with its pseudo header) both give 0. *)
Theorem tcp_packet_roundtrip rnd s d sp dp sq ak fl data opt :
  ipv4 s → ipv4 d → tcp_args_ok sp dp fl rnd data (default [] opt) →
  let o := default [] opt in
  ∃ b, buildTCPPacket rnd s d sp dp sq ak fl data opt = Ret b ∧
    parseIPPacket b = Ret (IpOk (MkIp 4 20 (blen b) rnd PROTOCOLS.TCP s d sp dp data
      (Tcp (tcp_fields (uint32 sq) (uint32 ak) fl 65535 (length o + opt_pad o))))) ∧
    calculateIPChecksum (take 20 b) = 0 ∧ calculateTCPChecksum s d (drop 20 b) = Ret 0.
Proof.
  intros Hs Hd Hok o. destruct (buildTCPPacket_bytes rnd s d sp dp sq ak fl data opt Hok)
    as (c & seg & Hb & _ & _ & Hv).
  eexists. split; [exact Hb|]. split; [by eapply buildTCPPacket_parses|].
  rewrite take_app_exact ?length_ip_header // drop_app_exact ?length_ip_header //.
  split; [by apply ip_checksum_ok|done].
Qed.

Lemma ipv4_dotted a b c d :
  bool_decide (bytes_ok [a; b; c; d]) = true → ipv4 (dotted a b c d).
Proof.
  intros H%bool_decide_eq_true. exists a, b, c, d. split; [done|].
  by rewrite /bytes_ok !Forall_cons in H; destruct H as (? & ? & ? & ? & _).
Qed.

Lemma tcp_packet_roundtrip_witness :
  let s := dotted 10 0 0 7 in let d := dotted 93 184 216 34 in
  ∃ b, buildTCPPacket 77 s d 4242 443 (-1) (2 ^ 32 + 5) 0x18 [71; 69; 84] (Some [2; 4; 5; 80]) = Ret b ∧
    parseIPPacket b = Ret (IpOk (MkIp 4 20 (blen b) 77 PROTOCOLS.TCP s d 4242 443 [71; 69; 84]
      (Tcp (tcp_fields (2 ^ 32 - 1) 5 0x18 65535 4)))) ∧
    calculateIPChecksum (take 20 b) = 0 ∧ calculateTCPChecksum s d (drop 20 b) = Ret 0.
Proof.
  apply (tcp_packet_roundtrip 77 (dotted 10 0 0 7) (dotted 93 184 216 34) 4242 443 (-1) (2 ^ 32 + 5) 0x18
    [71; 69; 84] (Some [2; 4; 5; 80])); try (by apply ipv4_dotted).
  by apply (bool_decide_unpack _).
Defined.

(** a UDP packet built for any ports and data is parsed back with the data
    intact; its IP header checksum and its UDP checksum both verify. *)
Theorem udp_packet_roundtrip rnd s d sp dp data :
  ipv4 s → ipv4 d → 0 <= sp < 65536 → 0 <= dp < 65536 → bytes_ok data → 0 <= rnd < 65536 →
  blen data <= 65505 →
  ∃ b, buildUDPPacket rnd s d sp dp data = Ret b ∧
    parseIPPacket b = Ret (IpOk (MkIp 4 20 (blen b) rnd PROTOCOLS.UDP s d sp dp data
      (Udp (8 + blen data)))) ∧
    calculateIPChecksum (take 20 b) = 0 ∧ calculateUDPChecksum s d (drop 20 b) = Ret 0.
Proof.
  intros Hs Hd Hsp Hdp Hdata Hrnd Hlen.
  unfold buildUDPPacket. rewrite buildUDPDatagram_bytes //; [|lia]. rewrite ret_bind.
  set (len := 8 + blen data). assert (0 <= len < 65536) as Hl8 by (unfold len, blen in *; lia).
  set (P := be_bytes 2 sp ++ be_bytes 2 dp ++ be_bytes 2 len).
  assert (∀ c, udp_header sp dp len c ++ data = P ++ be_bytes 2 c ++ data) as Heq.
  { intros c. unfold udp_header, P. by rewrite -!(assoc_L (++)). }
  assert (length P = 6%nat) as HP by (unfold P; by rewrite !length_app !length_be_bytes).
  assert (bytes_ok (P ++ data)) as HPS.
  { unfold P. rewrite !bytes_ok_app. repeat (split; try apply be_bytes_ok; try done). }
  clearbody P. rewrite Heq. unfold calculateUDPChecksum.
  destruct (transport_checksum_verifies PROTOCOLS.UDP s d P data) as (c & -> & Hc & Hv).
  { done. } { rewrite HP. by exists 3%nat. } { done. } { unfold blen in *. lia. }
  rewrite ret_bind write_uint_mid // ret_bind buildIPPacket_bytes //; last first.
  { unfold blen in *. rewrite !length_app length_be_bytes. lia. }
  change (js_or None rnd) with rnd.
  set (seg := P ++ be_bytes 2 c ++ data) in *.
  assert (length seg = 8 + length data)%nat as Hseg
    by (unfold seg; rewrite !length_app length_be_bytes; lia).
  eexists. split; [done|]. rewrite take_app_exact ?length_ip_header // drop_app_exact ?length_ip_header //.
  split; [|split; [by apply ip_checksum_ok|done]].
  rewrite parse_built //; [|unfold blen in *; lia]. cbv zeta. rewrite (proj2 (Nat.leb_le 8 (length seg))); [|lia].
  change (PROTOCOLS.UDP =? PROTOCOLS.TCP) with false. change (_ && true) with true. cbn match.
  rewrite (parse_udp_header 20 _ sp dp len c data) //.
  all: rewrite ?drop_app_exact ?length_ip_header //.
  rewrite ret_bind. do 3 f_equal. unfold blen. rewrite length_app length_ip_header. lia.
Qed.

Lemma udp_packet_roundtrip_witness :
  let s := dotted 10 0 0 7 in let d := dotted 8 8 8 8 in
  ∃ b, buildUDPPacket 77 s d 5353 53 [1; 2; 3] = Ret b ∧
    parseIPPacket b = Ret (IpOk (MkIp 4 20 (blen b) 77 PROTOCOLS.UDP s d 5353 53 [1; 2; 3] (Udp 11))) ∧
    calculateIPChecksum (take 20 b) = 0 ∧ calculateUDPChecksum s d (drop 20 b) = Ret 0.
Proof.
  apply (udp_packet_roundtrip 77 (dotted 10 0 0 7) (dotted 8 8 8 8) 5353 53 [1; 2; 3]);
    try (by apply ipv4_dotted); try done.
  by apply (bool_decide_eq_true (bytes_ok [1; 2; 3])).
Defined.

(** ** Arbitrary input *)

(** Every IPv4 packet is parsed, whatever follows its header. *)
Lemma parse_ipv4 (b : buffer) : (20 <= length b)%nat → Z.land (Z.shiftr (byte_at 0 b) 4) 0x0f = 4 →
  ∃ i, parseIPPacket b = Ret (IpOk i) ∧ ip_version i = 4 ∧
      protocol i = byte_at 9 b ∧ (∃ n, ip_data i = drop n b) ∧
      (transport i = NoTransport → srcPort i = 0 ∧ dstPort i = 0 ∧ ip_data i = []).
Proof.
  intros Hl Hv. unfold parseIPPacket. rewrite (proj2 (Nat.ltb_ge _ _) Hl) Hv. cbn [negb Z.eqb Pos.eqb].
  rewrite (read_uint_ok 2 2); [|lia]. rewrite ret_bind (read_uint_ok 2 4); [|lia]. rewrite ret_bind.
  set (o := Z.to_nat _). clearbody o.
  assert (∃ n : nat, @nil Z = drop n b) as Hnil by (exists (length b); by rewrite drop_ge).
  destruct (byte_at 9 b =? PROTOCOLS.TCP); [destruct (Nat.leb_spec (o + 20) (length b))|]; cbn [andb].
  { unfold parse_tcp. rewrite !read_uint_ok; [|lia..]. rewrite !ret_bind. eexists. split; [done|].
    split_and!; [done|done| |done]. cbn [ip_data]. rewrite drop_if_shorter. by eexists. }
  all: destruct (byte_at 9 b =? PROTOCOLS.UDP); [destruct (Nat.leb_spec (o + 8) (length b))|]; cbn [andb].
  all: try (unfold parse_udp; rewrite !read_uint_ok; [|lia..]; rewrite !ret_bind; eexists; split; [done|];
    split_and!; [done|done| |done]; cbn [ip_data]; rewrite drop_if_shorter; by eexists).
  all: destruct ((byte_at 9 b =? PROTOCOLS.ICMP) && (o + 4 <=? length b)%nat); rewrite ret_bind;
    (eexists; split; [done|]; split_and!; [done|done| |done]; cbn [ip_data]; eauto).
Qed.

Lemma parse_returns (b : buffer) : ∃ r, parseIPPacket b = Ret r.
Proof.
  destruct (Nat.ltb_spec (length b) 20) as [Hl|Hl].
  { exists IpNull. unfold parseIPPacket. by rewrite (proj2 (Nat.ltb_lt _ _) Hl). }
  destruct (decide (Z.land (Z.shiftr (byte_at 0 b) 4) 0x0f = 4)) as [Hv|Hv].
  - destruct (parse_ipv4 b Hl Hv) as (i & Hi & _). by eexists.
  - eexists. unfold parseIPPacket. rewrite (proj2 (Nat.ltb_ge _ _) Hl) (proj2 (Z.eqb_neq _ _) Hv). done.
Qed.

(** [parseIPPacket] never throws, whatever bytes arrive from the tunnel device
    or from a peer: shorter than an IPv4 header gives [null], another version is
    reported invalid, and everything else gives a packet whose data is a suffix
    of the input. *)
Theorem parseIPPacket_total (b : buffer) :
  ((length b < 20)%nat ∧ parseIPPacket b = Ret IpNull) ∨
  (20 <= length b)%nat ∧
    let v := Z.land (Z.shiftr (byte_at 0 b) 4) 0x0f in
    (v ≠ 4 ∧ parseIPPacket b = Ret (IpInvalid v)) ∨
    v = 4 ∧ ∃ i, parseIPPacket b = Ret (IpOk i) ∧ ip_version i = 4 ∧
      protocol i = byte_at 9 b ∧ (∃ n, ip_data i = drop n b) ∧
      (transport i = NoTransport → srcPort i = 0 ∧ dstPort i = 0 ∧ ip_data i = []).
Proof.
  destruct (Nat.ltb_spec (length b) 20) as [Hl|Hl];
    [left; split; [lia|]; unfold parseIPPacket; by rewrite (proj2 (Nat.ltb_lt _ _) Hl)|right; split; [lia|]].
  destruct (Z.eqb_spec (Z.land (Z.shiftr (byte_at 0 b) 4) 0x0f) 4) as [Hv|Hv]; [right|left].
  - split; [done|]. by apply parse_ipv4.
  - split; [done|]. unfold parseIPPacket. by rewrite (proj2 (Nat.ltb_ge _ _) Hl) (proj2 (Z.eqb_neq _ _) Hv).
Qed.

(** ** TCP options *)

(** What a parsed set of options can hold. *)
Definition syn_ok (r : SynOptions) : Prop :=
  (∀ v, mss r = Some v → 0 <= v < 65536) ∧ (∀ v, wscale r = Some v → 0 <= v <= 14) ∧
  (∀ v, tsval r = Some v → 0 <= v < 2 ^ 32).

Lemma read_uint_range n off b v :
  bytes_ok b → read_uint n off b = Ret v → 0 <= v < 256 ^ Z.of_nat n.
Proof.
  intros Hb. unfold read_uint. destruct (Nat.leb_spec (off + n) (length b)); [|done]. intros [= <-].
  pose proof (be_value_range (subarray off (off + n) b) (bytes_ok_subarray _ _ _ Hb)) as Hr.
  rewrite length_subarray in Hr; [|lia]. by replace (off + n - off)%nat with n in Hr by lia.
Qed.

Lemma byte_at_range i b : bytes_ok b → byte_ok (byte_at i b).
Proof.
  intros Hb. unfold byte_at. destruct (b !! i) as [x|] eqn:E; simpl.
  - eapply Forall_lookup_1; eauto.
  - red. lia.
Qed.

(** What a parsed packet holds is in range. *)
Definition parsed_wf (p : IpInfo) : Prop :=
  (ipv4 (srcIp p) ∧ ipv4 (dstIp p)) ∧ (0 <= srcPort p < 65536 ∧ 0 <= dstPort p < 65536) ∧
  bytes_ok (ip_data p) ∧ 0 <= ipId p < 65536 ∧
  ∀ t c d, transport p = Icmp t c d → bytes_ok d.

Lemma parseIPPacket_wf (b : buffer) :
  bytes_ok b → ∃ r, parseIPPacket b = Ret r ∧ ∀ p, r = IpOk p → parsed_wf p.
Proof.
  intros Hb. unfold parseIPPacket. destruct (Nat.ltb_spec (length b) 20) as [Hl|Hl]; [by eexists|].
  case_match; [by eexists|].
  destruct (read_u16 2 b) as [tl|] eqn:E1; [|rewrite read_uint_ok in E1; [done|lia]].
  destruct (read_u16 4 b) as [ident|] eqn:E2; [|rewrite read_uint_ok in E2; [done|lia]].
  rewrite !ret_bind. set (o := Z.to_nat _). clearbody o.
  assert (∀ n v, read_u16 n b = Ret v → 0 <= v < 65536) as Hr
    by (intros n v Hv; by apply (read_uint_range 2 n b)).
  assert (∀ i j k l, ipv4 (dotted (byte_at i b) (byte_at j b) (byte_at k b) (byte_at l b))) as Hip
    by (intros; do 4 eexists; split; [done|]; split_and!; by apply byte_at_range).
  assert (∀ n, bytes_ok (if (n <? length b)%nat then drop n b else [])) as Hd
    by (intros; case_match; [by apply bytes_ok_drop|constructor]).
  destruct ((byte_at 9 b =? PROTOCOLS.TCP) && (o + 20 <=? length b)%nat) eqn:Et.
  { apply andb_true_iff in Et as [_ Et%Nat.leb_le]. unfold parse_tcp.
    destruct (read_u16 o b) eqn:Ea; [|rewrite read_uint_ok in Ea; [done|lia]].
    destruct (read_u16 (o + 2) b) eqn:Eb; [|rewrite read_uint_ok in Eb; [done|lia]].
    rewrite !(read_uint_ok _ _ b); [|lia..]. rewrite !ret_bind. eexists. split; [done|].
    intros p [= <-]. split_and!; cbn; eauto; try done; eapply Hr; done. }
  destruct ((byte_at 9 b =? PROTOCOLS.UDP) && (o + 8 <=? length b)%nat) eqn:Eu.
  { apply andb_true_iff in Eu as [_ Eu%Nat.leb_le]. unfold parse_udp.
    destruct (read_u16 o b) eqn:Ea; [|rewrite read_uint_ok in Ea; [done|lia]].
    destruct (read_u16 (o + 2) b) eqn:Eb; [|rewrite read_uint_ok in Eb; [done|lia]].
    rewrite !(read_uint_ok _ _ b); [|lia..]. rewrite !ret_bind. eexists. split; [done|].
    intros p [= <-]. split_and!; cbn; eauto; try done; eapply Hr; done. }
  case_match; rewrite ret_bind; (eexists; split; [done|]); intros p [= <-];
    split_and!; cbn; eauto; try lia; try (eapply Hr; done); try constructor;
    try (intros ? ? ? [= _ _ <-]); try done; by apply bytes_ok_drop.
Qed.

Lemma syn_options_loop_total b optEnd : bytes_ok b → (optEnd <= length b)%nat → ∀ fuel o r,
  (optEnd - o < fuel)%nat → syn_ok r →
  ∃ r', syn_options_loop fuel b o optEnd r = Some (Ret r') ∧ syn_ok r'.
Proof.
  intros Hb Hend. induction fuel as [|f IH]; intros o r Hf Hr; [lia|]. cbn [syn_options_loop].
  destruct (Nat.ltb_spec o optEnd) as [Ho|]; [|by eauto].
  destruct (byte_at o b =? 0); [by eauto|].
  destruct (byte_at o b =? 1); [apply IH; [lia|done]|].
  destruct (b !! (o + 1)%nat) as [len|]; [|by eauto].
  destruct ((len <? 2) || (Z.of_nat optEnd <? Z.of_nat o + len)) eqn:E; [by eauto|]. bool_to_prop.
  assert (∀ r, syn_ok r → ∃ r', syn_options_loop f b (o + Z.to_nat len) optEnd r = Some (Ret r') ∧ syn_ok r')
    as Hgo by (intros; apply IH; [lia|done]).
  destruct Hr as (Hm & Hw & Ht).
  destruct ((byte_at o b =? 2) && (4 <=? len)) eqn:E2; bool_to_prop.
  { destruct (read_u16 (o + 2) b) as [v|e] eqn:Ev.
    - apply Hgo. split_and!; [|done..]. intros w [= <-]. by apply (read_uint_range 2 (o + 2) b).
    - rewrite read_uint_ok in Ev; [done|lia]. }
  destruct ((byte_at o b =? 3) && (3 <=? len)) eqn:E3.
  { apply Hgo. destruct (Z.leb_spec (byte_at (o + 2) b) 14); [|done]. split_and!; [done| |done].
    intros w [= <-]. pose proof (byte_at_range (o + 2) b Hb) as [? ?]. lia. }
  destruct ((byte_at o b =? 4) && (len =? 2)) eqn:E4; [by apply Hgo|].
  destruct ((byte_at o b =? 8) && (10 <=? len)) eqn:E8; bool_to_prop; [|by apply Hgo].
  destruct (read_u32 (o + 2) b) as [v|e] eqn:Ev.
  - apply Hgo. split_and!; [done..|]. intros w [= <-]. by apply (read_uint_range 4 (o + 2) b).
  - rewrite read_uint_ok in Ev; [done|lia].
Qed.

Lemma parse_syn_options_ok (b : buffer) :
  bytes_ok b → ∃ r, parseTcpSynOptions b = Some (Ret r) ∧ syn_ok r.
Proof.
  intros Hb. assert (syn_ok no_syn_options) as H0 by (by split_and!).
  unfold parseTcpSynOptions. case_match; [by eauto|].
  set (ihl := Z.to_nat _). clearbody ihl. case_match; [by eauto|].
  set (thl := Z.to_nat _). clearbody thl.
  destruct ((thl <? 20)%nat || (length b <? ihl + thl)%nat) eqn:E; [by eauto|].
  apply orb_false_iff in E as [E1 E2]. apply Nat.ltb_ge in E1, E2.
  apply syn_options_loop_total; [done|done|lia|done].
Qed.

(** [parseTcpSynOptions] terminates and never throws on any bytes, malformed
    option lengths included, and what it returns is in range: the MSS and the
    timestamp fit their fields and the window scale is at most 14. *)
Theorem parseTcpSynOptions_total (b : buffer) :
  bytes_ok b → ∃ r, parseTcpSynOptions b = Some (Ret r) ∧ syn_ok r.
Proof.
  intros Hb. destruct (parse_syn_options_ok b Hb) as (r & Hr & Hok). by exists r.
Qed.

(** A SYN with a zero-length option in its header. *)
Definition bad_syn : buffer :=
  [0x45; 0; 0; 44; 0; 1; 0; 0; 64; 6; 0; 0; 10; 0; 0; 1; 10; 0; 0; 2] ++
  [0; 80; 0; 90; 0; 0; 0; 1; 0; 0; 0; 0; 0x60; 2; 1; 1; 0; 0; 0; 0] ++ [3; 0; 2; 4].

Lemma parseTcpSynOptions_total_witness :
  bytes_ok bad_syn ∧ ∃ r, parseTcpSynOptions bad_syn = Some (Ret r) ∧ syn_ok r.
Proof.
  assert (bytes_ok bad_syn) as H by (by apply (bool_decide_unpack _)).
  split; [exact H|]. exact (parseTcpSynOptions_total bad_syn H).
Defined.

(** One option [kind, len, body] of the header. *)
Definition opt_apply (kind : Z) (body : buffer) (r : SynOptions) : SynOptions :=
  let len := 2 + blen body in
  if (kind =? 2) && (4 <=? len) then MkSyn (Some (be_value (take 2 body))) (wscale r) (sackPerm r) (tsval r)
  else if (kind =? 3) && (3 <=? len) then
    if byte_at 0 body <=? 14 then MkSyn (mss r) (Some (byte_at 0 body)) (sackPerm r) (tsval r) else r
  else if (kind =? 4) && (len =? 2) then MkSyn (mss r) (wscale r) true (tsval r)
  else if (kind =? 8) && (10 <=? len) then
    MkSyn (mss r) (wscale r) (sackPerm r) (Some (be_value (take 4 body)))
  else r.

Lemma syn_step kind len body rest f b o optEnd r :
  drop o b = kind :: len :: body ++ rest → kind ≠ 0 → kind ≠ 1 → len = 2 + blen body →
  (o + 2 + length body <= optEnd)%nat → (optEnd <= length b)%nat →
  syn_options_loop (S f) b o optEnd r =
    syn_options_loop f b (o + 2 + length body) optEnd (opt_apply kind body r).
Proof.
  intros Hd H0 H1 -> Ho Hend. cbn [syn_options_loop]. unfold blen.
  destruct (byte_next _ _ _ _ Hd) as [-> Hd1]. destruct (byte_next _ _ _ _ Hd1) as [_ Hd2].
  rewrite -Nat.add_assoc /= in Hd2.
  assert (b !! (o + 1)%nat = Some (2 + Z.of_nat (length body))) as ->.
  { by rewrite -(Nat.add_0_r (o + 1)) -lookup_drop Hd1. }
  destruct (Nat.ltb_spec o optEnd); [|lia].
  rewrite (proj2 (Z.eqb_neq kind 0)) // (proj2 (Z.eqb_neq kind 1)) //.
  destruct (Z.ltb_spec (2 + Z.of_nat (length body)) 2); [lia|].
  destruct (Z.ltb_spec (Z.of_nat optEnd) (Z.of_nat o + (2 + Z.of_nat (length body)))); [lia|]. cbn [orb].
  replace (o + Z.to_nat (2 + Z.of_nat (length body)))%nat with (o + 2 + length body)%nat by lia.
  unfold opt_apply, blen.
  assert (byte_at (o + 2) b = byte_at 0 (body ++ rest)) as ->.
  { unfold byte_at. by rewrite -(Nat.add_0_r (o + 2)) -lookup_drop Hd2. }
  destruct (Z.eqb_spec kind 2) as [->|]; [destruct (Z.leb_spec 4 (2 + Z.of_nat (length body)))|]; cbn [andb].
  { rewrite read_uint_ok; [|lia]. rewrite subarray_plus Hd2 take_app_le; [done|lia]. }
  { done. }
  destruct (Z.eqb_spec kind 3) as [->|]; [destruct (Z.leb_spec 3 (2 + Z.of_nat (length body)))|]; cbn [andb].
  { destruct body as [|x body]; [simpl in *; lia|]. cbn [app byte_at lookup list_lookup default].
    change (byte_at 0 (x :: body ++ rest)) with x. change (byte_at 0 (x :: body)) with x. by case_match. }
  { done. }
  destruct ((kind =? 4) && (2 + Z.of_nat (length body) =? 2)); [done|].
  destruct ((kind =? 8) && (10 <=? 2 + Z.of_nat (length body))) eqn:E; [|done]. bool_to_prop.
  rewrite read_uint_ok; [|lia]. rewrite subarray_plus Hd2 take_app_le; [done|lia].
Qed.

Lemma syn_nop rest f b o optEnd r :
  drop o b = 1 :: rest → (o < optEnd)%nat →
  syn_options_loop (S f) b o optEnd r = syn_options_loop f b (o + 1) optEnd r.
Proof.
  intros Hd Ho. cbn [syn_options_loop]. destruct (byte_next _ _ _ _ Hd) as [-> _].
  by rewrite (proj2 (Nat.ltb_lt _ _) Ho).
Qed.

Lemma syn_end f b o optEnd r :
  (optEnd <= o)%nat ∨ (∃ rest, drop o b = 0 :: rest) →
  syn_options_loop (S f) b o optEnd r = Some (Ret r).
Proof.
  intros H. cbn [syn_options_loop]. destruct (Nat.ltb_spec o optEnd); [|done].
  destruct H as [?|[rest Hd]]; [lia|]. by destruct (byte_next _ _ _ _ Hd) as [-> _].
Qed.

(** A list of options: what is applied, in order. *)
Inductive opt : Type :=
  | Nop
  | Opt (kind : Z) (body : buffer).
Definition opt_bytes (x : opt) : buffer :=
  match x with Nop => [1] | Opt k body => k :: 2 + blen body :: body end.
Definition opt_good (x : opt) : Prop :=
  match x with Nop => True | Opt k _ => k ≠ 0 ∧ k ≠ 1 end.
Definition opt_fold (x : opt) (r : SynOptions) : SynOptions :=
  match x with Nop => r | Opt k body => opt_apply k body r end.

(** The loop reads a well-formed option list back, up to the padding zeros. *)
Lemma syn_options_list opts : ∀ fuel b o optEnd r k rest,
  Forall opt_good opts → drop o b = (opts ≫= opt_bytes) ++ buf_alloc k ++ rest →
  optEnd = (o + length (opts ≫= opt_bytes) + k)%nat → (optEnd <= length b)%nat →
  (length opts < fuel)%nat →
  syn_options_loop fuel b o optEnd r = Some (Ret (foldl (λ r x, opt_fold x r) r opts)).
Proof.
  induction opts as [|x opts IH]; intros fuel b o optEnd r k rest Hg Hd Hend Hl Hf.
  - destruct fuel as [|f]; [simpl in *; lia|]. apply syn_end. destruct k as [|k]; [left; simpl in *; lia|].
    right. eexists. exact Hd.
  - apply Forall_cons in Hg as [Hx Hg]. rewrite bind_cons -(assoc_L (++)) in Hd.
    rewrite bind_cons length_app in Hend.
    destruct fuel as [|f]; [simpl in *; lia|]. simpl in Hf. cbn [foldl]. destruct x as [|kd body]; cbn [opt_bytes opt_fold] in *.
    + rewrite (syn_nop _ _ _ _ _ _ Hd); [|simpl in *; lia].
      eapply IH; [done|by apply (drop_next o 1 b [1])| |done|lia]. simpl in *; lia.
    + destruct Hx as [Hk0 Hk1].
      rewrite (syn_step _ _ body _ _ _ _ _ _ Hd) //; [|simpl in *; lia].
      cbn [length] in Hend. eapply (IH f b _ _ _ k rest); [done| |lia|done|lia].
      rewrite -Nat.add_assoc. by apply (drop_next o _ b (kd :: 2 + blen body :: body)).
Qed.

(** *** The options of the SYN-ACK *)

Definition ourMss (neg : SynOptions) : Z :=
  match mss neg with Some c => if c =? 0 then 1360 else Z.min c 1360 | None => 1360 end.

Definition synack_opts (now : Z) (neg : SynOptions) : list opt :=
  [Opt 2 (be_bytes 2 (ourMss neg))] ++ (if sackPerm neg then [Opt 4 []] else []) ++
  match tsval neg with Some v => [Opt 8 (be_bytes 4 (uint32 (now / 1000)) ++ be_bytes 4 (uint32 v))] | None => [] end ++
  match wscale neg with Some w => [Nop; Nop; Nop; Nop; Opt 3 [w]] | None => [] end.

Lemma ourMss_range neg : syn_ok neg → 0 <= ourMss neg <= 1360.
Proof.
  intros (Hm & _ & _). unfold ourMss. destruct (mss neg) as [c|]; [|lia].
  specialize (Hm c eq_refl). case_match; lia.
Qed.

Lemma ts_bytes t v : 0 <= t < 2 ^ 32 → 0 <= v < 2 ^ 32 →
  (b ← write_uint 4 t 2 (set_byte 1 10 (set_byte 0 8 (buf_alloc 10))); write_uint 4 v 6 b) =
  Ret ([8; 10] ++ be_bytes 4 t ++ be_bytes 4 v).
Proof.
  intros Ht Hv. rewrite (buf_alloc_nil 10). do 3 fill.
  rewrite write_uint_zero; [|len_side|len_side|lia].
  rewrite app_nil_r -!(assoc_L (++)). done.
Qed.

Lemma buildSynAckOptions_bytes now neg : syn_ok neg →
  let o := synack_opts now neg ≫= opt_bytes in
  buildSynAckOptions now neg = Ret (o ++ buf_alloc ((4 - length o mod 4) mod 4)).
Proof.
  intros Hneg o. pose proof (ourMss_range neg Hneg) as Hm. destruct Hneg as (_ & Hw & Ht).
  unfold buildSynAckOptions. rewrite -/(ourMss neg) Z.min_r; [|lia].
  rewrite (buf_alloc_nil 4). do 2 fill. rewrite write_uint_zero; [|done|simpl; lia|lia].
  rewrite ret_bind app_nil_r.
  match goal with |- context [?m ≫= _] => assert (m = Ret (match tsval neg with
      Some v => [8; 10] ++ be_bytes 4 (uint32 (now / 1000)) ++ be_bytes 4 (uint32 v) | None => [] end)) as -> end.
  { destruct (tsval neg); [|done]. apply ts_bytes; apply uint32_range. }
  rewrite ret_bind.
  match goal with |- (Ret (if ((4 - length ?x mod 4) mod 4 =? 0)%nat then _ else _)) = _ =>
    assert (x = o) as -> end.
  { unfold o, synack_opts. rewrite !bind_app -!(assoc_L (++)). cbn [mbind list_bind app opt_bytes].
    unfold blen. rewrite !length_be_bytes. cbn [Z.of_nat app].
    do 3 f_equal. f_equal; [by destruct (sackPerm neg)|]. f_equal.
    { destruct (tsval neg); [|done]. cbn [mbind list_bind opt_bytes]. unfold blen.
      rewrite length_app !length_be_bytes app_nil_r. done. }
    destruct (wscale neg) as [w|]; [|done]. specialize (Hw w eq_refl).
    rewrite (proj2 (Z.leb_le _ _)); [|lia]. rewrite Z.mod_small; [done|lia]. }
  destruct (Nat.eqb_spec ((4 - length o mod 4) mod 4) 0) as [E|]; [|done].
  by rewrite E app_nil_r.
Qed.

(** What the other end learns from a SYN-ACK. *)
Definition synack_view (now : Z) (neg : SynOptions) : SynOptions :=
  MkSyn (Some (ourMss neg)) (wscale neg) (sackPerm neg)
    (match tsval neg with Some _ => Some (uint32 (now / 1000)) | None => None end).

Lemma synack_fold now neg : syn_ok neg →
  foldl (λ r x, opt_fold x r) no_syn_options (synack_opts now neg) = synack_view now neg.
Proof.
  intros Hneg. pose proof (ourMss_range neg Hneg) as Hm. destruct Hneg as (_ & Hw & _).
  unfold synack_opts, synack_view. rewrite foldl_app. cbn [foldl opt_fold].
  assert (opt_apply 2 (be_bytes 2 (ourMss neg)) no_syn_options = MkSyn (Some (ourMss neg)) None false None) as ->.
  { unfold opt_apply, blen. rewrite length_be_bytes. cbn [andb]. change (2 + Z.of_nat 2) with 4. simpl.
    rewrite take_ge ?length_be_bytes // be_value_bytes //. change (256 ^ Z.of_nat 2) with 65536. lia. }
  rewrite !foldl_app.
  assert (∀ r, foldl (λ r x, opt_fold x r) r (if sackPerm neg then [Opt 4 []] else []) =
    MkSyn (mss r) (wscale r) (if sackPerm neg then true else sackPerm r) (tsval r)) as ->.
  { intros [? ? ? ?]. by destruct (sackPerm neg). }
  cbn [mss wscale sackPerm tsval].
  destruct (tsval neg) as [v|]; cbn [foldl opt_fold].
  - assert (∀ a b (c : bool), opt_apply 8 (be_bytes 4 (uint32 (now / 1000)) ++ be_bytes 4 (uint32 v)) (MkSyn a b c None) =
      MkSyn a b c (Some (uint32 (now / 1000)))) as ->.
    { intros. unfold opt_apply, blen. rewrite length_app !length_be_bytes. simpl.
      rewrite take_app_exact ?length_be_bytes // be_value_bytes //. apply uint32_range. }
    destruct (wscale neg) as [w|]; cbn [foldl opt_fold]; [|by destruct (sackPerm neg)].
    specialize (Hw w eq_refl). unfold opt_apply. simpl. rewrite (proj2 (Z.leb_le w 14)); [|lia].
    by destruct (sackPerm neg).
  - destruct (wscale neg) as [w|]; cbn [foldl opt_fold]; [|by destruct (sackPerm neg)].
    specialize (Hw w eq_refl). unfold opt_apply. simpl. rewrite (proj2 (Z.leb_le w 14)); [|lia].
    by destruct (sackPerm neg).
Qed.

Lemma synack_opts_length now neg :
  (length (synack_opts now neg ≫= opt_bytes) <= 23)%nat ∧ (length (synack_opts now neg) <= 8)%nat ∧
  Forall opt_good (synack_opts now neg).
Proof.
  unfold synack_opts. rewrite !bind_app !length_app.
  destruct (sackPerm neg), (tsval neg), (wscale neg); cbn [mbind list_bind opt_bytes app length];
    rewrite ?length_app ?length_be_bytes; cbn [length];
    (split_and!; [lia|lia|repeat constructor; done]).
Qed.

Lemma synack_opts_bytes now neg : syn_ok neg → bytes_ok (synack_opts now neg ≫= opt_bytes).
Proof.
  intros Hneg. destruct Hneg as (_ & Hw & _). unfold synack_opts. rewrite !bind_app.
  apply bytes_ok_app; split; [|apply bytes_ok_app; split; [|apply bytes_ok_app; split]].
  - cbn [mbind list_bind opt_bytes]. unfold blen. rewrite length_be_bytes app_nil_r. apply Forall_cons. split; [done|].
    apply Forall_cons. split; [done|]. apply be_bytes_ok.
  - destruct (sackPerm neg); [|constructor]. by apply (bool_decide_unpack _).
  - destruct (tsval neg); [|constructor]. cbn [mbind list_bind opt_bytes]. unfold blen.
    rewrite length_app !length_be_bytes app_nil_r. apply Forall_cons. split; [done|].
    apply Forall_cons. split; [done|]. apply bytes_ok_app. split; apply be_bytes_ok.
  - destruct (wscale neg) as [w|]; [|constructor]. specialize (Hw w eq_refl). cbn.
    repeat (apply Forall_cons; split; [unfold byte_ok, blen; simpl; lia|]). constructor.
Qed.

Lemma pad4 n : ((n + (4 - n mod 4) mod 4) mod 4 = 0)%nat ∧ ((4 - n mod 4) mod 4 < 4)%nat.
Proof.
  pose proof (Nat.mod_upper_bound n 4 ltac:(lia)). pose proof (Nat.div_mod n 4 ltac:(lia)) as Hn.
  split; [|apply Nat.mod_upper_bound; lia].
  destruct (decide (n mod 4 = 0)%nat) as [E|E].
  - rewrite E. simpl. by rewrite Nat.add_0_r.
  - rewrite (Nat.mod_small (4 - n mod 4)); [|lia]. rewrite {1}Hn.
    replace (4 * (n / 4) + n mod 4 + (4 - n mod 4))%nat with ((n / 4 + 1) * 4)%nat by lia.
    by rewrite Nat.Div0.mod_mul.
Qed.

(** The options of a packet whose TCP header is the one [buildTCPSegment] writes. *)
Lemma parseTcpSynOptions_built b sp dp sq ak fl win c opts k data :
  let o := (opts ≫= opt_bytes) ++ buf_alloc k in
  byte_at 0 b = 0x45 → byte_at 9 b = PROTOCOLS.TCP →
  drop 20 b = tcp_header sp dp sq ak (data_offset_byte o) fl win c o 0 ++ data →
  Forall opt_good opts → opt_pad o = 0%nat → (length o <= 40)%nat → (length opts <= 20)%nat →
  parseTcpSynOptions b = Some (Ret (foldl (λ r x, opt_fold x r) no_syn_options opts)).
Proof.
  intros o E0 E9 Hd Hg Hpad Hlo Hn.
  assert (length o = length (opts ≫= opt_bytes) + k)%nat as Ho
    by (unfold o; by rewrite length_app length_buf_alloc).
  assert (length b = 40 + length o + length data)%nat as Hb.
  { apply (f_equal length) in Hd. unfold tcp_header in Hd.
    rewrite length_drop !length_app !length_be_bytes length_buf_alloc in Hd. simpl in Hd. lia. }
  assert (Z.land (Z.shiftr (data_offset_byte o) 4) 0xf * 4 = 20 + Z.of_nat (length o)) as Hthl.
  { change 0xf with (Z.ones 4). unfold data_offset_byte. rewrite Hpad Nat.add_0_r.
    rewrite Z.shiftr_div_pow2 // (Z.mul_comm 16) Z.div_mul //.
    unfold opt_pad in Hpad. pose proof (pad4 (20 + length o)) as [Hm _].
    rewrite Hpad Nat.add_0_r in Hm. clear -Hm Hlo.
    pose proof (Nat.div_mod (20 + length o) 4 ltac:(lia)) as Hdm.
    rewrite -(Z.div_unique (Z.of_nat (20 + length o)) 4 (Z.of_nat ((20 + length o) / 4)) 0); [|lia|lia].
    rewrite Z.land_ones // Z.mod_small; [lia|]. change (2 ^ 4) with 16. lia. }
  unfold tcp_header in Hd. rewrite -!(assoc_L (++)) in Hd.
  apply (drop_next 20 2) in Hd; [|apply length_be_bytes]. apply (drop_next 22 2) in Hd; [|apply length_be_bytes].
  apply (drop_next 24 4) in Hd; [|apply length_be_bytes]. apply (drop_next 28 4) in Hd; [|apply length_be_bytes].
  destruct (byte_next 32 _ _ _ Hd) as [E12 _].
  assert (o = (opts ≫= opt_bytes) ++ buf_alloc k) as Heqo by done. clearbody o.
  apply (drop_next 32 2) in Hd; [|done]. apply (drop_next 34 2) in Hd; [|apply length_be_bytes].
  apply (drop_next 36 2) in Hd; [|apply length_be_bytes]. apply (drop_next 38 2) in Hd; [|apply length_be_bytes].
  unfold parseTcpSynOptions. rewrite E0 E9.
  change (Z.to_nat (Z.land 69 15 * 4)) with 20%nat. cbn [Nat.add]. rewrite E12 Hthl.
  rewrite (proj2 (Nat.ltb_ge (length b) 20)); [|lia]. rewrite (proj2 (Nat.ltb_ge (length b) 40)); [|lia].
  change (false || negb (PROTOCOLS.TCP =? PROTOCOLS.TCP)) with false. cbn match.
  replace (Z.to_nat (20 + Z.of_nat (length o))) with (20 + length o)%nat by lia.
  rewrite (proj2 (Nat.ltb_ge (20 + length o) 20)); [|lia].
  rewrite (proj2 (Nat.ltb_ge (length b) (20 + (20 + length o)))); [|lia]. cbn [orb].
  apply (syn_options_list _ _ _ _ _ _ k data); [done| |lia|lia|lia].
  exact Hd.
Qed.

(** the options sent in a SYN-ACK are at most 24 bytes, a multiple of four, and
    a client that parses the packet finds what was negotiated: an MSS of at most
    1360 and at most its own, its window scale, SACK exactly when it offered it, and
    a timestamp exactly when it sent one. *)
Theorem synack_options_roundtrip now rnd s d sp dp sq ak neg :
  syn_ok neg → 0 <= sp < 65536 → 0 <= dp < 65536 → 0 <= rnd < 65536 →
  ∃ o b, buildSynAckOptions now neg = Ret o ∧
    (length o mod 4 = 0)%nat ∧ (length o <= 24)%nat ∧
    buildTCPPacket rnd s d sp dp sq ak 0x12 [] (Some o) = Ret b ∧
    parseTcpSynOptions b = Some (Ret (synack_view now neg)) ∧ 0 <= ourMss neg <= 1360.
Proof.
  intros Hneg Hsp Hdp Hrnd. rewrite buildSynAckOptions_bytes //.
  destruct (synack_opts_length now neg) as (Hl & Hn & Hg). rewrite -synack_fold //.
  set (k := ((4 - length _ mod 4) mod 4)%nat). set (o := _ ++ _).
  assert (length o mod 4 = 0 ∧ length o <= 24)%nat as [Hm Hlo].
  { unfold o. rewrite length_app length_buf_alloc. destruct (pad4 (length (synack_opts now neg ≫= opt_bytes))) as [E1 E2].
    fold k in E1, E2. split; [done|]. apply Nat.Div0.div_exact in E1. lia. }
  assert (opt_pad o = 0)%nat as Hpad.
  { unfold opt_pad. rewrite Nat.Div0.add_mod Hm. done. }
  assert (bytes_ok o) as Hok.
  { unfold o. apply bytes_ok_app. split; [|apply bytes_ok_alloc]. by apply synack_opts_bytes. }
  destruct (buildTCPPacket_bytes rnd s d sp dp sq ak 0x12 [] (Some o)) as (c & seg & Hb & Hseg & _ & _).
  { change (default [] (Some o)) with o. unfold tcp_args_ok, blen. rewrite Hpad. clearbody o.
    split_and!; first [done | by apply Forall_nil_2 | cbn [length]; lia]. }
  eexists o, _. split_and!; [done|done|done|exact Hb| |by apply ourMss_range|by apply ourMss_range].
  eapply (parseTcpSynOptions_built _ sp dp _ _ 0x12 65535 c _ k []); [| | |done|done|apply (Nat.le_trans _ _ _ Hlo); lia|lia].
  - done.
  - unfold ip_header, ip_head. by rewrite !be_bytes_2.
  - rewrite drop_app_exact ?length_ip_header // Hseg /= Hpad. done.
Qed.

Definition client_syn : SynOptions := MkSyn (Some 1460) (Some 7) true (Some 123456).

Lemma synack_options_roundtrip_witness :
  syn_ok client_syn ∧
  ∃ o b, buildSynAckOptions 1700000000000 client_syn = Ret o ∧
    (length o mod 4 = 0)%nat ∧ (length o <= 24)%nat ∧
    buildTCPPacket 9 (dotted 1 1 1 1) (dotted 10 0 0 2) 443 5000 1000 1 0x12 [] (Some o) = Ret b ∧
    parseTcpSynOptions b = Some (Ret (synack_view 1700000000000 client_syn)) ∧
    0 <= ourMss client_syn <= 1360.
Proof.
  assert (syn_ok client_syn) as H by (split_and!; intros v [= <-]; lia).
  split; [exact H|]. by apply (synack_options_roundtrip 1700000000000 9 (dotted 1 1 1 1) (dotted 10 0 0 2)
    443 5000 1000 1 client_syn).
Defined.
