(* ===== verification/Search.v ===== *)
(** * Path search

    The two search loops of src/core/graph.js over an adjacency function: the
    breadth-first loop of [_bfs] and the latency-weighted loop (Dijkstra with
    lazy deletion, an array sorted before every extraction) shared by
    [findShortestPathWeighted] and [findPathToNearestExitWeighted].  Both are
    executable with fuel; [bfs_spec] and [dijkstra_spec] prove that the fuel
    Graph.v passes is enough, that the path found is a walk of minimal length
    (latency), and that [null] means that no goal is reachable. *)

From stdpp Require Import sorting.
From S2P Require Import Prelude JsMap Bytes JsString.
Local Open Scope Z_scope.
#[local] Unset Default Proof Using.

(** ** Stable sort by an integer key ([arr.sort((a, b) => key(a) - key(b))]) *)

Section sort.
Context {A : Type} (key : A → Z).

Fixpoint sort_insert (x : A) (l : list A) : list A :=
  match l with
  | [] => [x]
  | y :: l' => if key x <=? key y then x :: y :: l' else y :: sort_insert x l'
  end.
Definition js_sort (l : list A) : list A := foldr sort_insert [] l.

Lemma sort_insert_perm x l : sort_insert x l ≡ₚ x :: l.
Proof.
  induction l as [|y l IH]; [done|]. cbn [sort_insert]. case_match; [done|].
  rewrite IH. apply Permutation_swap.
Qed.

Lemma js_sort_perm l : js_sort l ≡ₚ l.
Proof. induction l as [|x l IH]; [done|]. cbn [js_sort foldr]. by rewrite sort_insert_perm -/(js_sort l) IH. Qed.

Inductive key_sorted : list A → Prop :=
  | ks_nil : key_sorted []
  | ks_cons x l : Forall (λ y, key x <= key y) l → key_sorted l → key_sorted (x :: l).

Lemma sort_insert_sorted x l : key_sorted l → key_sorted (sort_insert x l).
Proof.
  induction 1 as [|y l Hy Hl IH]; [by repeat constructor|]. cbn [sort_insert].
  destruct (Z.leb_spec (key x) (key y)).
  - constructor; [|by constructor]. constructor; [done|].
    eapply Forall_impl; [exact Hy|]. intros z ?. simpl in *. lia.
  - constructor; [|done]. rewrite sort_insert_perm. constructor; [simpl; lia|done].
Qed.

Lemma js_sort_sorted l : key_sorted (js_sort l).
Proof. induction l; [constructor|]. by apply sort_insert_sorted. Qed.

(** The first element after the sort is minimal, the rest is a permutation of the others. *)
Lemma js_sort_min l x l' : js_sort l = x :: l' → Forall (λ y, key x <= key y) l' ∧ l ≡ₚ x :: l'.
Proof.
  intros E. split; [|by rewrite -E js_sort_perm]. pose proof (js_sort_sorted l) as Hs.
  rewrite E in Hs. by inversion Hs.
Qed.

Lemma js_sort_nil l : js_sort l = [] → l = [].
Proof. intros E. apply Permutation_nil_r. by rewrite -E js_sort_perm. Qed.
End sort.

(** ** Walks *)

Section search.
Context (adj : jstr → list jstr) (excl : list jstr) (wt : jstr → jstr → Z) (s : jstr).

Definition edge (u v : jstr) : Prop := v ∈ adj u ∧ v ∉ excl.

(** [walk p u W]: [p] leads from [s] to [u] along edges, total weight [W]. *)
Inductive walk : list jstr → jstr → Z → Prop :=
  | walk_start : walk [s] s 0
  | walk_step p u v W : walk p u W → edge u v → walk (p ++ [v]) v (W + wt u v).

Lemma walk_last p u W : walk p u W → last p = Some u.
Proof. destruct 1; [done|]. apply last_snoc. Qed.

Lemma walk_head p u W : walk p u W → ∃ p', p = s :: p'.
Proof. induction 1 as [|p u v W _ [p' ->] _]; [by eexists|]. by eexists. Qed.

Lemma walk_length p u W : walk p u W → (1 <= length p)%nat.
Proof. destruct 1; rewrite ?length_app /=; lia. Qed.

(** ** Breadth-first search *)

Section bfs.
Context {R : Type} (isGoal : jstr → list jstr → option R).

Fixpoint bfs_expand (nbs path : list jstr) (visited : list jstr) (queue : list (list jstr)) :
    list jstr * list (list jstr) :=
  match nbs with
  | [] => (visited, queue)
  | nb :: nbs' =>
      if negb (os_has nb visited) && negb (os_has nb excl)
      then bfs_expand nbs' path (os_add nb visited) (queue ++ [path ++ [nb]])
      else bfs_expand nbs' path visited queue
  end.

(** The outer [None] is running out of fuel, the inner one the code's [null]. *)
Fixpoint bfs_loop (fuel : nat) (visited : list jstr) (queue : list (list jstr)) : option (option R) :=
  match fuel with
  | O => None
  | S f =>
      match queue with
      | [] => Some None
      | path :: queue' =>
          let current := default [] (last path) in
          match isGoal current path with
          | Some hit => Some (Some hit)
          | None => let '(v, q) := bfs_expand (adj current) path visited queue' in bfs_loop f v q
          end
      end
  end.

(** What one expansion does: the new nodes are those reachable by an edge and not
    yet visited, each queued once. *)
Lemma bfs_expand_spec path : ∀ nbs V Q V' Q',
  NoDup V → bfs_expand nbs path V Q = (V', Q') →
  ∃ new, V' = V ++ new ∧ Q' = Q ++ ((λ nb, path ++ [nb]) <$> new) ∧ NoDup (V ++ new) ∧
    (∀ x, x ∈ new → x ∈ nbs ∧ x ∉ excl) ∧ (∀ x, x ∈ nbs → x ∉ excl → x ∈ V ++ new).
Proof using Type.
  clear isGoal R wt adj s.
  induction nbs as [|nb nbs IH]; intros V Q V' Q' HV H; simpl in H.
  - simplify_eq. exists []. rewrite !app_nil_r. split_and!; [done..| |]; set_solver.
  - destruct (negb (os_has nb V) && negb (os_has nb excl)) eqn:E.
    + apply andb_true_iff in E as [E1%negb_true_iff%os_has_false E2%negb_true_iff%os_has_false].
      unfold os_add in H. rewrite (proj2 (os_has_false nb V) E1) in H.
      destruct (IH _ _ _ _ (proj2 (NoDup_app V [nb]) ltac:(split_and!; [done|set_solver|by apply NoDup_singleton])) H)
        as (new & -> & -> & Hnd & Hin & Hcl).
      exists (nb :: new). rewrite -!(assoc_L (++)) /= in Hnd Hcl |- *. split_and!; [done..| |].
      * intros x [->|Hx]%elem_of_cons; [split; [left|done]|]. destruct (Hin x Hx). split; [by right|done].
      * intros x [->|Hx]%elem_of_cons He; [set_solver|]. by apply Hcl.
    + destruct (IH _ _ _ _ HV H) as (new & -> & -> & Hnd & Hin & Hcl).
      exists new. split_and!; [done..| |].
      * intros x Hx. destruct (Hin x Hx). split; [by right|done].
      * intros x [->|Hx]%elem_of_cons He; [|by apply Hcl].
        apply andb_false_iff in E as [E|E].
        -- apply negb_false_iff, os_has_true in E. set_solver.
        -- apply negb_false_iff, os_has_true in E. done.
Qed.

(** The goals of the code look at the node only, and build their result from it
    and the path. *)
Context (g : jstr → bool) (mk : jstr → list jstr → R)
  (Hgoal : ∀ c p, isGoal c p = if g c then Some (mk c p) else None).

(** A finite universe that contains the start and every edge target. *)
Context (U : list jstr) (HUs : s ∈ U) (HUe : ∀ u v, edge u v → v ∈ U).

(** The loop's invariant: [D] are the nodes already expanded. *)
Record bfs_inv (D V : list jstr) (Q : list (list jstr)) : Prop := {
  bi_nodup : NoDup V;
  bi_split : V ≡ₚ D ++ ((λ p, default [] (last p)) <$> Q);
  bi_walk : ∀ p, p ∈ Q → ∃ u W, walk p u W;
  bi_closed : ∀ u v, u ∈ D → edge u v → v ∈ V;
  bi_min : ∀ p u W q W', p ∈ Q → walk p u W → walk q u W' → (length p <= length q)%nat;
  bi_start : s ∈ V;
  bi_levels : ∀ p Q', Q = p :: Q' →
    (∀ q, q ∈ Q' → length q <= S (length p))%nat ∧
    (∀ q u W, walk q u W → (length q <= length p)%nat → u ∈ V);
  bi_sorted : StronglySorted (λ p q, length p <= length q)%nat Q;
  bi_univ : ∀ u, u ∈ V → u ∈ U;
  bi_goal : ∀ u, u ∈ D → g u = false
}.

Lemma bfs_init : bfs_inv [] [s] [[s]].
Proof using HUs.
  clear Hgoal HUe mk isGoal R.
  split.
  - apply NoDup_singleton.
  - done.
  - intros p ->%list_elem_of_singleton. eexists _, _. constructor.
  - set_solver.
  - intros p u W q W' ->%list_elem_of_singleton _ Hq. apply (walk_length _ _ _ Hq).
  - set_solver.
  - intros p Q' [= <- <-]. split; [set_solver|]. intros q u W Hq Hl.
    inversion Hq as [|p' u' v W' Hw]; subst; [set_solver|].
    rewrite length_app in Hl. pose proof (walk_length _ _ _ Hw). simpl in Hl. lia.
  - repeat constructor.
  - intros u ->%list_elem_of_singleton. done.
  - set_solver.
Qed.

Lemma bfs_step D V p Q V' Q' u :
  bfs_inv D V (p :: Q) → last p = Some u → g u = false →
  bfs_expand (adj u) p V Q = (V', Q') → bfs_inv (D ++ [u]) V' Q'.
Proof using HUe.
  clear Hgoal HUs mk isGoal R.
  intros I Hu Hg He. destruct (bfs_expand_spec _ _ _ _ _ _ (bi_nodup _ _ _ I) He)
    as (new & -> & -> & Hnd & Hin & Hcl).
  destruct (bi_levels _ _ _ I p Q eq_refl) as [Hlev Hreach].
  pose proof (bi_sorted _ _ _ I) as [HpQ HQ]%StronglySorted_cons. rewrite ->Forall_forall in HpQ.
  destruct (bi_walk _ _ _ I p) as (u' & W & Hp); [by left|].
  pose proof (walk_last _ _ _ Hp) as Hu'. rewrite Hu in Hu'. simplify_eq.
  assert (∀ v, v ∈ new → walk (p ++ [v]) v (W + wt u' v)) as Hnew.
  { intros v Hv. constructor; [done|]. by apply Hin. }
  assert (∀ v, v ∈ new → v ∉ V) as Hfresh.
  { intros v Hv HvV. apply NoDup_app in Hnd as (_ & Hd & _). by apply (Hd v). }
  assert (∀ x, x ∈ V → x ∈ D ∨ x = u' ∨ ∃ r, r ∈ Q ∧ last r = Some x) as Hsplit.
  { intros x Hx. rewrite (bi_split _ _ _ I) /= Hu in Hx.
    apply elem_of_app in Hx as [?|[->|Hx]%elem_of_cons]; [by left|by right; left|right; right].
    apply list_elem_of_fmap in Hx as (r & -> & Hr). exists r. split; [done|].
    destruct (bi_walk _ _ _ I r) as (y & Wr & Hy); [by right|]. by rewrite (walk_last _ _ _ Hy). }
  assert (∀ x v, x ∈ D ++ [u'] → edge x v → v ∈ V ++ new) as Hclosed.
  { intros x v [Hx| ->%list_elem_of_singleton]%elem_of_app Hxv.
    - apply elem_of_app. left. by apply (bi_closed _ _ _ I x).
    - destruct Hxv. by apply Hcl. }
  assert ((∀ r, r ∈ Q → length p < length r)%nat → ∀ q x W', walk q x W' →
    (length q <= S (length p))%nat → x ∈ V ++ new) as Hfar.
  { intros Hgt q x W' Hq Hl. destruct Hq as [|q y x W' Hq Hyx]; [apply elem_of_app; left; apply (bi_start _ _ _ I)|].
    rewrite length_app /= in Hl. apply (Hclosed y); [|done].
    destruct (Hsplit y) as [Hy|[->|(r & Hr & Hy)]]; [apply (Hreach q _ W'); [done|lia]|set_solver|set_solver|].
    destruct (bi_walk _ _ _ I r) as (y' & Wr & Hwr); [by right|].
    pose proof (walk_last _ _ _ Hwr) as Hy'. rewrite Hy in Hy'. simplify_eq.
    assert (length r <= length q)%nat by (eapply (bi_min _ _ _ I); [right; exact Hr|done|done]).
    specialize (Hgt r Hr). lia. }
  split.
  - done.
  - rewrite (bi_split _ _ _ I). simpl. rewrite Hu /= fmap_app -!(assoc_L (++)).
    apply Permutation_app_head. simpl. apply Permutation_skip, Permutation_app_head.
    clear. induction new as [|x new IH]; [done|]. simpl. rewrite last_snoc. by apply Permutation_skip.
  - intros q [Hq|Hq]%elem_of_app; [apply (bi_walk _ _ _ I); by right|].
    apply list_elem_of_fmap in Hq as (v & -> & Hv). eauto.
  - done.
  - intros q x W1 q' W2 [Hq|Hq]%elem_of_app Hw1 Hw2; [eapply (bi_min _ _ _ I); eauto; by right|].
    apply list_elem_of_fmap in Hq as (v & -> & Hv). pose proof (walk_last _ _ _ Hw1) as Hx.
    rewrite last_snoc in Hx. simplify_eq. rewrite length_app /=.
    destruct (decide (length q' <= length p)%nat) as [Hl|]; [|lia].
    exfalso. apply (Hfresh x Hv). by apply (Hreach q' x W2).
  - apply elem_of_app. left. apply (bi_start _ _ _ I).
  - destruct Q as [|p0 Q]; intros p1 Q1 HQ1.
    + destruct new as [|x new]; [done|]. simpl in HQ1. injection HQ1 as <- <-. rewrite length_app /=.
      split; [|intros q y W' Hq Hl; eapply Hfar; [set_solver|done|lia]].
      intros q (v & -> & _)%list_elem_of_fmap. rewrite length_app /=. lia.
    + injection HQ1 as <- <-. assert (length p <= length p0)%nat as H0 by (apply HpQ; by left).
      apply StronglySorted_cons in HQ as [HQ0 _]. rewrite ->Forall_forall in HQ0. split.
      * intros q [Hq|(v & -> & _)%list_elem_of_fmap]%elem_of_app; [|rewrite length_app /=; lia].
        specialize (Hlev q ltac:(by right)). lia.
      * intros q y W' Hq Hl. destruct (decide (length p0 <= length p)%nat).
        -- apply elem_of_app. left. apply (Hreach q y W'); [done|lia].
        -- apply (Hfar) with (q := q) (W' := W'); [|done|].
           ++ intros r [->|Hr]%elem_of_cons; [lia|]. specialize (HQ0 r Hr). lia.
           ++ specialize (Hlev p0 ltac:(by left)). lia.
  - apply StronglySorted_app. split_and!; [|done|].
    + intros q r Hq (v & -> & _)%list_elem_of_fmap. rewrite length_app /=. specialize (Hlev q Hq). lia.
    + clear. induction new as [|x new IH]; simpl; [constructor|]. constructor; [done|].
      apply Forall_forall. intros r (v & -> & _)%list_elem_of_fmap. rewrite !length_app /=. lia.
  - intros x [Hx|Hx]%elem_of_app; [by apply (bi_univ _ _ _ I)|]. apply (HUe u'). by apply Hin.
  - intros x [Hx| ->%list_elem_of_singleton]%elem_of_app; [by apply (bi_goal _ _ _ I)|done].
Qed.

(** What a search returns: a goal reached by a walk no longer than any other, or
    [None] when no goal is reachable. *)
Definition bfs_result (res : option R) : Prop :=
  match res with
  | Some hit => ∃ u p W, hit = mk u p ∧ walk p u W ∧ g u = true ∧
      ∀ q u' W', walk q u' W' → g u' = true → (length p <= length q)%nat
  | None => ∀ q u W, walk q u W → g u = false
  end.

Lemma bfs_loop_spec : ∀ fuel D V Q,
  bfs_inv D V Q → (length U < fuel + length D)%nat →
  ∃ res, bfs_loop fuel V Q = Some res ∧ bfs_result res.
Proof.
  induction fuel as [|f IH]; intros D V Q I Hf.
  { pose proof (bi_nodup _ _ _ I) as HV. rewrite (bi_split _ _ _ I) in HV.
    apply NoDup_app in HV as (HD & _ & _).
    assert (length D <= length U)%nat; [|simpl in *; lia]. apply submseteq_length, NoDup_submseteq; [done|].
    intros x Hx. apply (bi_univ _ _ _ I). rewrite (bi_split _ _ _ I). apply elem_of_app. by left. }
  cbn [bfs_loop]. destruct Q as [|p Q].
  - exists None. split; [done|]. intros q u W Hq.
    assert (u ∈ D) as HuD; [|by apply (bi_goal _ _ _ I)].
    pose proof (bi_split _ _ _ I) as Hsp. rewrite app_nil_r in Hsp.
    induction Hq as [|q u v W Hq IHq Huv]; rewrite -Hsp; [apply (bi_start _ _ _ I)|].
    by apply (bi_closed _ _ _ I u).
  - destruct (bi_walk _ _ _ I p) as (u & W & Hp); [by left|].
    rewrite (walk_last _ _ _ Hp). cbn [default from_option id]. rewrite Hgoal. destruct (g u) eqn:Hg.
    + eexists. split; [done|]. exists u, p, W. split_and!; [done..|]. intros q u' W' Hq Hg'.
      destruct (decide (length p <= length q)%nat) as [|Hlt]; [done|exfalso].
      destruct (bi_levels _ _ _ I p Q eq_refl) as [_ Hreach].
      specialize (Hreach q u' W' Hq ltac:(lia)). rewrite (bi_split _ _ _ I) in Hreach.
      apply elem_of_app in Hreach as [HD|Hr]; [by rewrite (bi_goal _ _ _ I) in Hg'|].
      apply list_elem_of_fmap in Hr as (r & -> & Hr).
      destruct (bi_walk _ _ _ I r Hr) as (y & Wr & Hwr). rewrite (walk_last _ _ _ Hwr) /= in Hq.
      assert (length r <= length q)%nat by (eapply (bi_min _ _ _ I); [exact Hr|done|done]).
      pose proof (bi_sorted _ _ _ I) as [HpQ _]%StronglySorted_cons. rewrite ->Forall_forall in HpQ.
      apply elem_of_cons in Hr as [->|Hr]; [lia|]. specialize (HpQ r Hr). lia.
    + destruct (bfs_expand (adj u) p V Q) as [V' Q'] eqn:E. apply (IH (D ++ [u])).
      * eapply bfs_step; eauto. by apply (walk_last _ _ W).
      * rewrite length_app /=. lia.
Qed.

(** The search from a start node alone. *)
Lemma bfs_spec : ∃ res, bfs_loop (S (length U)) [s] [[s]] = Some res ∧ bfs_result res.
Proof. apply (bfs_loop_spec _ []); [apply bfs_init|simpl; lia]. Qed.
End bfs.

(** ** Dijkstra's algorithm with lazy deletion *)

Section dijkstra.
Context (g : jstr → bool).

(** The relaxation loop over the neighbours of [cur], extracted at [cost]. *)
Fixpoint relax (cur : jstr) (cost : Z) (nbs : list jstr)
    (dist : omap jstr Z) (prev : omap jstr jstr) (heap : list (Z * jstr)) :
    omap jstr Z * omap jstr jstr * list (Z * jstr) :=
  match nbs with
  | [] => (dist, prev, heap)
  | nb :: nbs' =>
      if os_has nb excl then relax cur cost nbs' dist prev heap
      else
        let newCost := cost + wt cur nb in
        if match om_get nb dist with Some d => newCost <? d | None => true end
        then relax cur cost nbs' (om_set nb newCost dist) (om_set nb cur prev) (heap ++ [(newCost, nb)])
        else relax cur cost nbs' dist prev heap
  end.

(** [while (n !== undefined) { path.unshift(n); n = prev.get(n); }] *)
Fixpoint rebuild (fuel : nat) (prev : omap jstr jstr) (n : jstr) (path : list jstr) : option (list jstr) :=
  match fuel with
  | O => None
  | S f =>
      match om_get n prev with
      | Some n' => rebuild f prev n' (n :: path)
      | None => Some (n :: path)
      end
  end.

(** Result: the path, its last node and the cost at which it was extracted. *)
Fixpoint dijkstra_loop (fuel pathFuel : nat) (dist : omap jstr Z) (prev : omap jstr jstr)
    (heap : list (Z * jstr)) : option (option (list jstr * jstr * Z)) :=
  match fuel with
  | O => None
  | S f =>
      match js_sort fst heap with
      | [] => Some None
      | (cost, cur) :: heap' =>
          if g cur then
            match rebuild pathFuel prev cur [] with
            | Some path => Some (Some (path, cur, cost))
            | None => None
            end
          else if match om_get cur dist with Some d => d <? cost | None => false end
          then dijkstra_loop f pathFuel dist prev heap'
          else let '(d', p', h') := relax cur cost (adj cur) dist prev heap' in
               dijkstra_loop f pathFuel d' p' h'
      end
  end.

Definition relaxed (cur : jstr) (cost : Z) (nbs : list jstr) (dist : omap jstr Z) (v : jstr) : bool :=
  os_has v nbs && negb (os_has v excl) &&
  match om_get v dist with Some d => cost + wt cur v <? d | None => true end.

Definition heap_ok (dist : omap jstr Z) (heap : list (Z * jstr)) : Prop :=
  ∀ c v, (c, v) ∈ heap → ∃ d, om_get v dist = Some d ∧ d <= c.

Lemma relax_spec cur cost : ∀ nbs dist prev heap dist' prev' heap',
  relax cur cost nbs dist prev heap = (dist', prev', heap') →
  (∀ v, om_get v dist' = if relaxed cur cost nbs dist v then Some (cost + wt cur v) else om_get v dist) ∧
  (∀ v, om_get v prev' = if relaxed cur cost nbs dist v then Some cur else om_get v prev) ∧
  (∀ c v, (c, v) ∈ heap' ↔ (c, v) ∈ heap ∨ (relaxed cur cost nbs dist v = true ∧ c = cost + wt cur v)) ∧
  (length heap' <= length heap + length nbs)%nat ∧
  (heap_ok dist heap → NoDup heap → NoDup heap').
Proof.
  induction nbs as [|nb nbs IH]; intros dist prev heap dist' prev' heap' H; simpl in H.
  { simplify_eq. split_and!; try done; try lia. intros c v. split; [by left|]. by intros [?|[? ?]]. }
  set (upd := negb (os_has nb excl) && match om_get nb dist with Some d => cost + wt cur nb <? d | None => true end).
  assert (∀ v, v ≠ nb → relaxed cur cost (nb :: nbs) dist v = relaxed cur cost nbs dist v) as Hne.
  { intros v Hv. unfold relaxed. f_equal. f_equal. unfold os_has. apply bool_decide_ext. set_solver. }
  assert (relaxed cur cost (nb :: nbs) dist nb = upd) as Heq.
  { unfold relaxed. rewrite (proj2 (os_has_true nb (nb :: nbs))); [done|by left]. }
  destruct upd eqn:Eu.
  - assert (relax cur cost nbs (om_set nb (cost + wt cur nb) dist) (om_set nb cur prev)
      (heap ++ [(cost + wt cur nb, nb)]) = (dist', prev', heap')) as H'.
    { unfold upd in Eu. apply andb_true_iff in Eu as [E1%negb_true_iff E2]. by rewrite E1 E2 in H. }
    destruct (IH _ _ _ _ _ _ H') as (Hd & Hp & Hh & Hl & Hn).
    assert (relaxed cur cost nbs (om_set nb (cost + wt cur nb) dist) nb = false) as Hnb.
    { unfold relaxed. rewrite om_get_set_eq Z.ltb_irrefl. apply andb_false_r. }
    assert (∀ v, v ≠ nb → relaxed cur cost nbs (om_set nb (cost + wt cur nb) dist) v =
      relaxed cur cost (nb :: nbs) dist v) as Hv.
    { intros v Hv. rewrite Hne //. unfold relaxed. by rewrite om_get_set_ne. }
    split_and!.
    + intros v. rewrite Hd. destruct (decide (v = nb)) as [->|Hvn].
      * rewrite Hnb Heq. by rewrite om_get_set_eq.
      * rewrite Hv // om_get_set_ne //.
    + intros v. rewrite Hp. destruct (decide (v = nb)) as [->|Hvn].
      * rewrite Hnb Heq. by rewrite om_get_set_eq.
      * rewrite Hv // om_get_set_ne //.
    + intros c v. rewrite Hh elem_of_app list_elem_of_singleton.
      destruct (decide (v = nb)) as [->|Hvn].
      * rewrite Hnb Heq. split; [intros [[?|[= ->]]|[? ?]]; auto; done|]. intros [?|[_ ->]]; auto.
      * rewrite Hv //. split; [intros [[?|[= -> ->]]|?]; auto; done|]. intros [?|?]; auto.
    + rewrite length_app /= in Hl. simpl. lia.
    + intros Hok Hnd. apply Hn.
      * intros c v [Hin|[= -> ->]%list_elem_of_singleton]%elem_of_app.
        -- destruct (Hok c v Hin) as (d & Hdv & Hle). destruct (decide (v = nb)) as [->|Hvn].
           ++ rewrite om_get_set_eq. eexists. split; [done|].
              unfold upd in Eu. rewrite Hdv in Eu. apply andb_true_iff in Eu as [_ E%Z.ltb_lt]. lia.
           ++ rewrite om_get_set_ne //. eauto.
        -- rewrite om_get_set_eq. eauto with lia.
      * apply NoDup_app. split_and!; [done| |apply NoDup_singleton].
        intros x Hx ->%list_elem_of_singleton. destruct (Hok _ _ Hx) as (d & Hdv & Hle).
        unfold upd in Eu. rewrite Hdv in Eu. apply andb_true_iff in Eu as [_ E%Z.ltb_lt]. lia.
  - assert (relax cur cost nbs dist prev heap = (dist', prev', heap')) as H'.
    { unfold upd in Eu. destruct (os_has nb excl); [done|]. simpl in Eu. by rewrite Eu in H. }
    destruct (IH _ _ _ _ _ _ H') as (Hd & Hp & Hh & Hl & Hn).
    assert (∀ v, relaxed cur cost nbs dist v = relaxed cur cost (nb :: nbs) dist v) as Hv.
    { intros v. destruct (decide (v = nb)) as [->|?]; [|by rewrite Hne]. rewrite Heq.
      unfold relaxed. rewrite -andb_assoc -/upd Eu. apply andb_false_r. }
    split_and!; [intros v; by rewrite Hd Hv|intros v; by rewrite Hp Hv|intros c v; by rewrite Hh Hv
      |simpl; lia|done].
Qed.

Context (Hwt : ∀ u v, 0 < wt u v).
(** The nodes that can occur, without repetition. *)
Context (N : list jstr) (HN : NoDup N) (HNs : s ∈ N) (HNe : ∀ u v, edge u v → v ∈ N).

(** [Sd] are the nodes expanded so far, [M] the cost at which the last entry was
    extracted. *)
Record dj_inv (Sd : list jstr) (M : Z) (dist : omap jstr Z) (prev : omap jstr jstr)
    (heap : list (Z * jstr)) : Prop := {
  dj_start : om_get s dist = Some 0;
  dj_sprev : om_get s prev = None;
  dj_prev : ∀ v d, om_get v dist = Some d → v ≠ s →
    ∃ u du, om_get v prev = Some u ∧ u ∈ Sd ∧ edge u v ∧ om_get u dist = Some du ∧ d = du + wt u v;
  dj_range : ∀ v d, om_get v dist = Some d → 0 <= d ∧ v ∈ N;
  dj_heap : heap_ok dist heap;
  dj_mono : ∀ c v, (c, v) ∈ heap → M <= c;
  dj_open : ∀ v d, om_get v dist = Some d → v ∉ Sd → (d, v) ∈ heap;
  dj_closed : ∀ u, u ∈ Sd → g u = false ∧ ∃ du, om_get u dist = Some du ∧ du <= M ∧ (du, u) ∉ heap ∧
    (∀ v, edge u v → ∃ dv, om_get v dist = Some dv ∧ dv <= du + wt u v);
  dj_nodup : NoDup heap
}.

Lemma dj_init : dj_inv [] 0 (om_set s 0 []) [] [(0, s)].
Proof.
  split; simpl.
  - by rewrite decide_True.
  - done.
  - intros v d Hv Hne. by rewrite decide_False in Hv.
  - intros v d. case_decide; [|done]. intros [= <-]. subst. split; [lia|done].
  - intros c v [= -> ->]%list_elem_of_singleton. exists 0. simpl. by rewrite decide_True.
  - intros c v [= -> ->]%list_elem_of_singleton. lia.
  - intros v d. case_decide; [|done]. intros [= <-] _. subst. by left.
  - intros u Hu. by apply elem_of_nil in Hu.
  - apply NoDup_singleton.
Qed.

(** The chain of predecessors is a walk of weight [dist]. *)
Lemma dj_path Sd M dist prev heap : dj_inv Sd M dist prev heap → ∀ n v d,
  om_get v dist = Some d → (Z.to_nat d < n)%nat →
  ∃ p, walk p v d ∧ NoDup p ∧ (∀ x, x ∈ p → ∃ dx, om_get x dist = Some dx ∧ dx <= d) ∧
    ∀ fuel acc, (length p <= fuel)%nat → rebuild fuel prev v acc = Some (p ++ acc).
Proof.
  intros I n. induction n as [|n IH]; intros v d Hv Hn; [lia|].
  destruct (decide (v = s)) as [->|Hne].
  - rewrite (dj_start _ _ _ _ _ I) in Hv. simplify_eq. exists [s]. split_and!; [constructor|apply NoDup_singleton| |].
    + intros x ->%list_elem_of_singleton. exists 0. split; [apply I|lia].
    + intros [|f] acc Hf; [simpl in Hf; lia|]. simpl. by rewrite (dj_sprev _ _ _ _ _ I).
  - destruct (dj_prev _ _ _ _ _ I v d Hv Hne) as (u & du & Hp & _ & Huv & Hu & ->).
    pose proof (Hwt u v). destruct (dj_range _ _ _ _ _ I u du Hu).
    destruct (IH u du Hu) as (p & Hw & Hnd & Hle & Hr); [lia|].
    exists (p ++ [v]). split_and!.
    + by constructor.
    + apply NoDup_app. split_and!; [done| |apply NoDup_singleton]. intros x Hx ->%list_elem_of_singleton.
      destruct (Hle v Hx) as (dx & Hdx & ?). rewrite Hv in Hdx. simplify_eq. lia.
    + intros x [Hx| ->%list_elem_of_singleton]%elem_of_app; [|eauto with lia].
      destruct (Hle x Hx) as (dx & ? & ?). exists dx. split; [done|lia].
    + intros fuel acc Hf. rewrite length_app /= in Hf. destruct fuel as [|f]; [lia|].
      cbn [rebuild]. rewrite Hp Hr; [|lia]. by rewrite -(assoc_L (++)).
Qed.

(** Every walk ends at an expanded node no farther than it, or passes the frontier. *)
Lemma dj_frontier Sd M dist prev heap q v W : dj_inv Sd M dist prev heap → walk q v W →
  0 <= W ∧
  ((v ∈ Sd ∧ ∃ d, om_get v dist = Some d ∧ d <= W) ∨
   ∃ y dy, y ∉ Sd ∧ om_get y dist = Some dy ∧ dy <= W).
Proof.
  intros I. induction 1 as [|q u v W Hq [HW IH] Huv].
  - split; [done|]. destruct (decide (s ∈ Sd)); [left|right; exists s, 0].
    + split; [done|]. exists 0. split; [apply I|done].
    + split; [done|]. split; [apply I|done].
  - pose proof (Hwt u v). split; [lia|]. destruct IH as [(Hu & d & Hd & HdW)|(y & dy & ? & ? & ?)].
    + destruct (dj_closed _ _ _ _ _ I u Hu) as (_ & du & Hdu & _ & _ & Hcl). rewrite Hd in Hdu. simplify_eq.
      destruct (Hcl v Huv) as (dv & Hdv & Hle).
      destruct (decide (v ∈ Sd)); [left; split; [done|]; exists dv; split; [done|lia]|].
      right. exists v, dv. split_and!; [done|done|lia].
    + right. exists y, dy. split_and!; [done|done|lia].
Qed.

Lemma dj_stale Sd M dist prev heap cost cur heap' d :
  dj_inv Sd M dist prev heap → js_sort fst heap = (cost, cur) :: heap' →
  om_get cur dist = Some d → d < cost → dj_inv Sd cost dist prev heap'.
Proof.
  intros I E Hd Hlt. apply js_sort_min in E as [Hmin Hp].
  pose proof (dj_nodup _ _ _ _ _ I) as Hnd. rewrite Hp in Hnd. apply NoDup_cons in Hnd as [_ Hnd].
  assert (∀ e, e ∈ heap' → e ∈ heap) as Hsub by (intros e He; rewrite Hp; by right).
  split; try by apply I.
  - intros c v Hin. apply (dj_heap _ _ _ _ _ I). by apply Hsub.
  - rewrite ->Forall_forall in Hmin. intros c v Hin. by apply (Hmin (c, v)).
  - intros v dv Hv Hs. pose proof (dj_open _ _ _ _ _ I v dv Hv Hs) as Hin. rewrite Hp in Hin.
    apply elem_of_cons in Hin as [[= <- <-]|]; [|done]. rewrite Hd in Hv. simplify_eq. lia.
  - intros u Hu. destruct (dj_closed _ _ _ _ _ I u Hu) as (? & du & ? & ? & Hn & ?).
    split; [done|]. exists du. split_and!; [done| |by intros ?%Hsub|done].
    assert (M <= cost); [|lia]. apply (dj_mono _ _ _ _ _ I cost cur). rewrite Hp. by left.
  - done.
Qed.

Lemma dj_expand Sd M dist prev heap cost cur heap' dist' prev' heap'' :
  dj_inv Sd M dist prev heap → js_sort fst heap = (cost, cur) :: heap' → g cur = false →
  om_get cur dist = Some cost → relax cur cost (adj cur) dist prev heap' = (dist', prev', heap'') →
  cur ∉ Sd ∧ dj_inv (cur :: Sd) cost dist' prev' heap''.
Proof.
  intros I E Hg Hc Hr. apply js_sort_min in E as [Hmin Hp].
  destruct (relax_spec _ _ _ _ _ _ _ _ _ Hr) as (Hd & Hpv & Hh & _ & Hn).
  pose proof (dj_nodup _ _ _ _ _ I) as Hnd. rewrite Hp in Hnd. apply NoDup_cons in Hnd as [Hnin Hnd].
  assert (∀ e, e ∈ heap' → e ∈ heap) as Hsub by (intros e He; rewrite Hp; by right).
  assert (M <= cost) as HM by (apply (dj_mono _ _ _ _ _ I cost cur); rewrite Hp; by left).
  rewrite ->Forall_forall in Hmin.
  assert (cur ∉ Sd) as Hcur.
  { intros Hin. destruct (dj_closed _ _ _ _ _ I cur Hin) as (_ & du & Hdu & _ & Hnot & _).
    rewrite Hc in Hdu. simplify_eq. apply Hnot. rewrite Hp. by left. }
  (* nodes at distance at most [cost] keep their distance *)
  assert (∀ v d, om_get v dist = Some d → d <= cost → relaxed cur cost (adj cur) dist v = false) as Hkeep.
  { intros v d Hv Hle. unfold relaxed. rewrite Hv. destruct (Z.ltb_spec (cost + wt cur v) d).
    - pose proof (Hwt cur v). lia.
    - apply andb_false_r. }
  assert (∀ v, relaxed cur cost (adj cur) dist v = true → edge cur v ∧
    ∀ d, om_get v dist = Some d → cost + wt cur v < d) as Hrel.
  { intros v Hv. unfold relaxed in Hv. apply andb_true_iff in Hv as [[H1%os_has_true H2%negb_true_iff%os_has_false]%andb_true_iff H3].
    split; [done|]. intros d Hdv. rewrite Hdv in H3. by apply Z.ltb_lt. }
  assert (∀ v, edge cur v → relaxed cur cost (adj cur) dist v = false →
    ∃ d, om_get v dist = Some d ∧ d <= cost + wt cur v) as Hnrel.
  { intros v [H1 H2] Hf. unfold relaxed in Hf. rewrite (proj2 (os_has_true _ _) H1) (proj2 (os_has_false _ _) H2) /= in Hf.
    destruct (om_get v dist) as [d|]; [|done]. apply Z.ltb_ge in Hf. eauto. }
  assert (∀ u du, u ∈ Sd → om_get u dist = Some du → du <= M) as HSd.
  { intros u du Hu Hdu. destruct (dj_closed _ _ _ _ _ I u Hu) as (_ & du' & Hdu' & ? & _).
    rewrite Hdu in Hdu'. by simplify_eq. }
  pose proof (Hkeep s 0 (dj_start _ _ _ _ _ I)) as Hks.
  assert (0 <= cost) as Hc0 by apply (dj_range _ _ _ _ _ I cur cost Hc).
  split; [done|]. split.
  - rewrite Hd Hks //. apply I.
  - rewrite Hpv Hks //. apply I.
  - intros v d. rewrite Hd Hpv. destruct (relaxed cur cost (adj cur) dist v) eqn:Ev; intros Hv Hne.
    + simplify_eq. exists cur, cost. split_and!; [done|by left|by apply Hrel| |done].
      rewrite Hd (Hkeep cur cost) //.
    + destruct (dj_prev _ _ _ _ _ I v d Hv Hne) as (u & du & ? & Hu & ? & Hdu & ?).
      exists u, du. split_and!; [done|by right|done| |done].
      rewrite Hd (Hkeep u du) //. pose proof (HSd u du Hu Hdu). lia.
  - intros v d. rewrite Hd. destruct (relaxed cur cost (adj cur) dist v) eqn:Ev; intros Hv.
    + simplify_eq. pose proof (Hwt cur v). split; [lia|]. apply (HNe cur). by apply Hrel.
    + by apply (dj_range _ _ _ _ _ I v).
  - intros c v [Hin|[Hv ->]]%Hh.
    + destruct (dj_heap _ _ _ _ _ I c v (Hsub _ Hin)) as (d & Hdv & Hle). rewrite Hd.
      destruct (relaxed cur cost (adj cur) dist v) eqn:Ev; [|eauto].
      destruct (Hrel v Ev) as [_ Hlt]. specialize (Hlt d Hdv). eexists. split; [done|lia].
    + rewrite Hd Hv. eexists. split; [done|lia].
  - intros c v [Hin|[Hv ->]]%Hh; [by apply (Hmin (c, v))|]. pose proof (Hwt cur v). lia.
  - intros v d. rewrite Hd. intros Hv [Hvc HvS]%not_elem_of_cons. apply Hh.
    destruct (relaxed cur cost (adj cur) dist v) eqn:Ev; [right; by simplify_eq|left].
    pose proof (dj_open _ _ _ _ _ I v d Hv HvS) as Hin. rewrite Hp in Hin.
    apply elem_of_cons in Hin as [[= _ <-]|]; done.
  - intros u [->|Hu]%elem_of_cons.
    + split; [done|]. exists cost. rewrite Hd (Hkeep cur cost) //. split_and!; [done|done| |].
      * intros [Hin|[Hv _]]%Hh; [done|]. by rewrite (Hkeep cur cost) in Hv.
      * intros v Hv. rewrite Hd. destruct (relaxed cur cost (adj cur) dist v) eqn:Ev; [eauto with lia|by apply Hnrel].
    + destruct (dj_closed _ _ _ _ _ I u Hu) as (? & du & Hdu & Hle & Hnot & Hcl). split; [done|].
      exists du. rewrite Hd (Hkeep u du) //; [|lia]. split_and!; [done|lia| |].
      * intros [Hin|[Hv _]]%Hh; [by apply Hnot, Hsub|]. rewrite (Hkeep u du) // in Hv. lia.
      * intros v Hv. destruct (Hcl v Hv) as (dv & Hdv & Hlev). rewrite Hd.
        destruct (relaxed cur cost (adj cur) dist v) eqn:Ev; [|eauto].
        destruct (Hrel v Ev) as [_ Hlt]. specialize (Hlt dv Hdv). eexists. split; [done|lia].
  - apply Hn; [|done]. intros c v Hin. apply (dj_heap _ _ _ _ _ I). by apply Hsub.
Qed.

(** Work left: the degrees of the nodes not yet expanded. *)
Fixpoint degrees (Sd l : list jstr) : nat :=
  match l with
  | [] => 0
  | u :: l' => (if decide (u ∈ Sd) then 0 else length (adj u)) + degrees Sd l'
  end%nat.

Lemma degrees_other Sd u l : u ∉ l → degrees (u :: Sd) l = degrees Sd l.
Proof.
  induction l as [|x l IH]; intros Hu; [done|]. apply not_elem_of_cons in Hu as [Hx Hu]. simpl.
  rewrite IH //. f_equal. repeat case_decide; set_solver.
Qed.

Lemma degrees_expand Sd u l :
  NoDup l → u ∈ l → u ∉ Sd → (degrees (u :: Sd) l + length (adj u) = degrees Sd l)%nat.
Proof.
  intros Hnd. induction Hnd as [|x l Hx Hnd IH]; intros Hu HuS; [by apply elem_of_nil in Hu|]. simpl.
  apply elem_of_cons in Hu as [->|Hu].
  - rewrite degrees_other // decide_True; [|by left]. rewrite decide_False //. lia.
  - rewrite -IH //. assert (x ≠ u) by (intros ->; done). repeat case_decide; set_solver by lia.
Qed.

(** What the loop returns: a goal with a walk of least weight without repeated
    node, or [None] when no goal is reachable. *)
Definition dijkstra_result (res : option (list jstr * jstr * Z)) : Prop :=
  match res with
  | Some (path, cur, cost) => walk path cur cost ∧ NoDup path ∧ g cur = true ∧
      ∀ q u W, walk q u W → g u = true → cost <= W
  | None => ∀ q u W, walk q u W → g u = false
  end.

Lemma dijkstra_loop_spec pathFuel : (length N <= pathFuel)%nat → ∀ fuel Sd M dist prev heap,
  dj_inv Sd M dist prev heap → (length heap + degrees Sd N < fuel)%nat →
  ∃ res, dijkstra_loop fuel pathFuel dist prev heap = Some res ∧ dijkstra_result res.
Proof.
  intros Hpf. induction fuel as [|f IH]; intros Sd M dist prev heap I Hf; [lia|].
  cbn [dijkstra_loop]. destruct (js_sort fst heap) as [|[cost cur] heap'] eqn:E.
  - apply js_sort_nil in E as ->. exists None. split; [done|]. intros q u W Hq.
    destruct (dj_frontier _ _ _ _ _ _ _ _ I Hq) as [_ [[Hu _]|(y & dy & Hy & Hdy & _)]].
    + by destruct (dj_closed _ _ _ _ _ I u Hu).
    + pose proof (dj_open _ _ _ _ _ I y dy Hdy Hy) as Hin. by apply elem_of_nil in Hin.
  - pose proof E as E'. apply js_sort_min in E' as [Hmin Hp]. rewrite ->Forall_forall in Hmin.
    pose proof (Permutation_length Hp) as Hlen. simpl in Hlen.
    destruct (dj_heap _ _ _ _ _ I cost cur) as (d & Hd & Hle); [rewrite Hp; by left|].
    destruct (g cur) eqn:Hg.
    + assert (cur ∉ Sd) as Hcur.
      { intros Hin. destruct (dj_closed _ _ _ _ _ I cur Hin) as [Hf' _]. by rewrite Hg in Hf'. }
      assert (∀ c v, (c, v) ∈ heap → cost <= c) as Hmin'.
      { intros c v Hin. rewrite Hp in Hin. apply elem_of_cons in Hin as [[= -> ->]|Hin]; [done|].
        by apply (Hmin (c, v)). }
      pose proof (Hmin' d cur (dj_open _ _ _ _ _ I cur d Hd Hcur)). assert (d = cost) as -> by lia.
      destruct (dj_path _ _ _ _ _ I (S (Z.to_nat cost)) cur cost Hd ltac:(lia)) as (p & Hw & Hnd & Hdom & Hr).
      rewrite Hr; last first.
      { etrans; [|exact Hpf]. apply submseteq_length, NoDup_submseteq; [done|]. intros x Hx.
        destruct (Hdom x Hx) as (dx & Hdx & _). by apply (dj_range _ _ _ _ _ I x dx). }
      rewrite app_nil_r. eexists. split; [done|]. split_and!; [done..|]. intros q u W Hq Hgu.
      destruct (dj_frontier _ _ _ _ _ _ _ _ I Hq) as [_ [[Hu _]|(y & dy & Hy & Hdy & HyW)]].
      * destruct (dj_closed _ _ _ _ _ I u Hu) as [Hf' _]. by rewrite Hgu in Hf'.
      * pose proof (Hmin' dy y (dj_open _ _ _ _ _ I y dy Hdy Hy)). lia.
    + rewrite Hd. destruct (Z.ltb_spec d cost) as [Hlt|].
      * eapply (IH Sd cost); [by eapply dj_stale|lia].
      * assert (d = cost) as -> by lia.
        destruct (relax cur cost (adj cur) dist prev heap') as [[dist' prev'] heap''] eqn:Er.
        destruct (dj_expand _ _ _ _ _ _ _ _ _ _ _ I E Hg Hd Er) as [Hcur I'].
        eapply (IH (cur :: Sd) cost); [done|].
        pose proof (relax_spec _ _ _ _ _ _ _ _ _ Er) as (_ & _ & _ & Hl & _).
        pose proof (degrees_expand Sd cur N HN) as Hdeg.
        specialize (Hdeg (proj2 (dj_range _ _ _ _ _ I cur cost Hd)) Hcur). lia.
Qed.

Lemma dijkstra_spec fuel pathFuel : (length N <= pathFuel)%nat → (S (degrees [] N) < fuel)%nat →
  ∃ res, dijkstra_loop fuel pathFuel (om_set s 0 []) [] [(0, s)] = Some res ∧ dijkstra_result res.
Proof. intros Hp Hf. eapply dijkstra_loop_spec; [done|apply dj_init|simpl; lia]. Qed.
End dijkstra.
End search.
