(* ===== verification/Graph.v ===== *)
(** * The network graph (class [NetworkGraph] of src/core/graph.js)

    Nodes, symmetric edges and edge metrics of the mesh, in JavaScript [Map]s
    and [Set]s (insertion order matters for the searches' tie-breaking), and the
    path searches the router uses.  Emitted events are not modelled: nothing in
    the repository listens to them. *)

From S2P Require Import Prelude JsMap Bytes JsString Search.
Local Open Scope Z_scope.
#[local] Unset Default Proof Using.

Record Node := MkNode {
  n_nodeId : jstr;
  n_role : option jstr;       (* [None]: undefined *)
  n_virtualIp : option jstr;
  n_publicKey : option jstr;
  n_addedAt : Z;
  n_fromTopology : bool
}.

#[export] Instance Node_eq_dec : EqDecision Node.
Proof. solve_decision. Defined.

(** The [info] argument of [addNode]: a field is [None] when the key is absent and
    [Some v] when it is present, possibly with value undefined ([Some None]). *)
Record NodeOpts := MkNodeOpts {
  io_role : option (option jstr);
  io_virtualIp : option (option jstr);
  io_publicKey : option (option jstr);
  io_fromTopology : option bool
}.

(** Edge metrics; the same record serves as the [metrics] argument, where an
    absent field leaves the stored one. *)
Record EdgeMetrics := MkMetrics {
  m_latency : option Z;
  m_isTurnRelay : option bool;
  m_updatedAt : Z
}.

Record NetworkGraph := MkGraph {
  nodes : omap jstr Node;
  edges : omap jstr (oset jstr);
  metrics : omap jstr EdgeMetrics
}.

Definition graph_new : NetworkGraph := MkGraph [] [] [].

Definition set_edges (g : NetworkGraph) e := MkGraph (nodes g) e (metrics g).
Definition set_metrics (g : NetworkGraph) m := MkGraph (nodes g) (edges g) m.

(** ** Nodes and edges *)

Definition addNode (now : Z) (nodeId : jstr) (info : NodeOpts) (g : NetworkGraph) : NetworkGraph :=
  match om_get nodeId (nodes g) with
  | None =>
      MkGraph
        (om_set nodeId
           (MkNode nodeId (default (Some (js "client")) (io_role info))
              (default None (io_virtualIp info)) (default None (io_publicKey info)) now
              (default false (io_fromTopology info))) (nodes g))
        (om_set nodeId [] (edges g)) (metrics g)
  | Some n =>
      MkGraph
        (om_set nodeId
           (MkNode (n_nodeId n) (default (n_role n) (io_role info))
              (default (n_virtualIp n) (io_virtualIp info))
              (default (n_publicKey n) (io_publicKey info)) (n_addedAt n)
              (default (n_fromTopology n) (io_fromTopology info))) (nodes g))
        (edges g) (metrics g)
  end.

Definition edgeKey (a b : jstr) : jstr :=
  if str_ltb a b then a ++ 58 :: b else b ++ 58 :: a.

(** [this.edges.get(u) || []] *)
Definition getNeighbors (g : NetworkGraph) (u : jstr) : list jstr := default [] (om_get u (edges g)).

(** The loop of [removeNode] over the neighbours. *)
Definition drop_neighbor (nodeId : jstr) (g : NetworkGraph) (neighbor : jstr) : NetworkGraph :=
  MkGraph (nodes g) (om_update neighbor (os_delete nodeId) (edges g))
    (om_delete (edgeKey nodeId neighbor) (metrics g)).

Definition removeNode (nodeId : jstr) (g : NetworkGraph) : NetworkGraph :=
  if om_has nodeId (nodes g) then
    let g := foldl (drop_neighbor nodeId) g (getNeighbors g nodeId) in
    MkGraph (om_delete nodeId (nodes g)) (om_delete nodeId (edges g)) (metrics g)
  else g.

Definition updateEdgeMetrics (now : Z) (a b : jstr) (m : EdgeMetrics) (g : NetworkGraph) : NetworkGraph :=
  let key := edgeKey a b in
  let existing := default (MkMetrics None None 0) (om_get key (metrics g)) in
  set_metrics g (om_set key
    (MkMetrics (from_option Some (m_latency existing) (m_latency m))
       (from_option Some (m_isTurnRelay existing) (m_isTurnRelay m)) now) (metrics g)).

Definition no_metrics : EdgeMetrics := MkMetrics None None 0.

(** [if (!edges.has(n)) edges.set(n, new Set())] *)
Definition ensure_edges (n : jstr) (e : omap jstr (oset jstr)) : omap jstr (oset jstr) :=
  if om_has n e then e else om_set n [] e.

Definition addEdge (now : Z) (a b : jstr) (m : EdgeMetrics) (g : NetworkGraph) : NetworkGraph :=
  let e := ensure_edges b (ensure_edges a (edges g)) in
  let e := om_update b (os_add a) (om_update a (os_add b) e) in
  updateEdgeMetrics now a b m (set_edges g e).

Definition removeEdge (a b : jstr) (g : NetworkGraph) : NetworkGraph :=
  MkGraph (nodes g) (om_update b (os_delete a) (om_update a (os_delete b) (edges g)))
    (om_delete (edgeKey a b) (metrics g)).

Definition getEdgeMetrics (g : NetworkGraph) (a b : jstr) : option EdgeMetrics :=
  om_get (edgeKey a b) (metrics g).

Definition hasNode (g : NetworkGraph) (n : jstr) : bool := om_has n (nodes g).
Definition hasEdge (g : NetworkGraph) (a b : jstr) : bool :=
  match om_get a (edges g) with Some e => os_has b e | None => false end.
Definition getNode (g : NetworkGraph) (n : jstr) : option Node := om_get n (nodes g).
Definition getAllNodes (g : NetworkGraph) : list Node := om_values (nodes g).
Definition has_role (r : jstr) (n : Node) : bool := bool_decide (n_role n = Some r).
Definition getNodesByRole (r : jstr) (g : NetworkGraph) : list Node :=
  filter (λ n, has_role r n = true) (getAllNodes g).
Definition getExitNodes := getNodesByRole (js "exit").
Definition getRelayNodes := getNodesByRole (js "relay").
Definition getClientNodes := getNodesByRole (js "client").
Definition graph_clear (_ : NetworkGraph) : NetworkGraph := graph_new.

(** [this.nodes.get(n)?.role === 'exit'] *)
Definition is_exit (g : NetworkGraph) (n : jstr) : bool :=
  match om_get n (nodes g) with Some i => has_role (js "exit") i | None => false end.

(** ** Searches *)

(** The nodes a search from [s] can meet, used for the fuel of the loops. *)
Definition search_nodes (g : NetworkGraph) (s : jstr) : list jstr :=
  remove_dups (s :: mjoin (om_values (edges g))).

Definition bfs {R} (g : NetworkGraph) (startId : jstr) (isGoal : jstr → list jstr → option R)
    (excludeNodes : list jstr) : option (option R) :=
  if om_has startId (nodes g)
  then bfs_loop (getNeighbors g) excludeNodes isGoal (S (length (search_nodes g startId))) [startId] [[startId]]
  else Some None.

Definition findShortestPath (g : NetworkGraph) (from to : jstr) (excludeNodes : list jstr) :
    option (option (list jstr)) :=
  if negb (om_has to (nodes g)) then Some None
  else if bool_decide (from = to) then Some (Some [from])
  else bfs g from (λ cur path, if bool_decide (cur = to) then Some path else None) excludeNodes.

Definition DEFAULT_LATENCY : Z := 100.

(** [(m && m.latency > 0) ? m.latency : DEFAULT_LATENCY] *)
Definition edge_weight (g : NetworkGraph) (u v : jstr) : Z :=
  match getEdgeMetrics g u v with
  | Some m => match m_latency m with Some l => if 0 <? l then l else DEFAULT_LATENCY | None => DEFAULT_LATENCY end
  | None => DEFAULT_LATENCY
  end.

Definition dijkstra (g : NetworkGraph) (from : jstr) (goal : jstr → bool) (excludeNodes : list jstr) :=
  let N := search_nodes g from in
  dijkstra_loop (getNeighbors g) excludeNodes (edge_weight g) goal
    (S (S (degrees (getNeighbors g) [] N))) (length N) (om_set from 0 []) [] [(0, from)].

Definition findShortestPathWeighted (g : NetworkGraph) (from to : jstr) (excludeNodes : list jstr) :
    option (option (list jstr)) :=
  if negb (om_has to (nodes g)) then Some None
  else if bool_decide (from = to) then Some (Some [from])
  else fmap (M := option) (fmap (M := option) (λ r, r.1.1))
         (dijkstra g from (λ cur, bool_decide (cur = to)) excludeNodes).

(** [{ path, exitNode, latency }] *)
Definition findPathToNearestExitWeighted (g : NetworkGraph) (from : jstr) (excludeNodes : list jstr) :
    option (option (list jstr * jstr * Z)) :=
  if negb (om_has from (nodes g)) then Some None
  else dijkstra g from (λ cur, is_exit g cur && negb (bool_decide (cur = from))) excludeNodes.

Definition findPathToNearestExit (g : NetworkGraph) (from : jstr) (excludeNodes : list jstr) :
    option (option (list jstr * jstr)) :=
  bfs g from (λ cur path, if is_exit g cur && negb (bool_decide (cur = from)) then Some (path, cur) else None)
    excludeNodes.

(** [{ path, exitNode, hops }] *)
Record ExitPath := MkExitPath { ep_path : list jstr; ep_exit : jstr; ep_hops : Z }.

Fixpoint all_paths_loop (g : NetworkGraph) (from : jstr) (maxPaths : nat) (excludeNodes : list jstr)
    (fuel : nat) (visited : list jstr) (queue : list (list jstr)) (paths : list ExitPath) :
    option (list ExitPath) :=
  match fuel with
  | O => None
  | S f =>
      match queue with
      | [] => Some paths
      | path :: queue' =>
          if (maxPaths <=? length paths)%nat then Some paths
          else
            let cur := default [] (last path) in
            let hit := is_exit g cur && negb (bool_decide (cur = from)) in
            let paths' := if hit then paths ++ [MkExitPath path cur (Z.of_nat (length path) - 1)] else paths in
            if hit && (maxPaths <=? length paths')%nat then Some paths'
            else let '(v, q) := bfs_expand excludeNodes (getNeighbors g cur) path visited queue' in
                 all_paths_loop g from maxPaths excludeNodes f v q paths'
      end
  end.

Definition findAllPathsToExits (g : NetworkGraph) (from : jstr) (maxPaths : nat) (excludeNodes : list jstr) :
    option (list ExitPath) :=
  if negb (om_has from (nodes g)) then Some []
  else js_sort ep_hops <$>
    all_paths_loop g from maxPaths excludeNodes (S (length (search_nodes g from))) [from] [[from]] [].

(** ** Topology snapshots *)

Record TopoInfo := MkTopo {
  t_role : option jstr;
  t_virtualIp : option jstr;
  t_connectedTo : list jstr
}.

(** The body of the loop over [Object.entries(topology)]. *)
Definition topology_entry (now : Z) (topology : omap jstr TopoInfo) (g : NetworkGraph)
    (entry : jstr * TopoInfo) : NetworkGraph :=
  let '(nodeId, info) := entry in
  let g := addNode now nodeId
    (MkNodeOpts (Some (t_role info)) (Some (t_virtualIp info)) None (Some true)) g in
  foldl (λ g c, if om_has c (nodes g) || om_has c topology then addEdge now nodeId c no_metrics g else g)
    g (t_connectedTo info).

Definition prune_entry (topology : omap jstr TopoInfo) (g : NetworkGraph) (entry : jstr * Node) : NetworkGraph :=
  if n_fromTopology entry.2 && negb (om_has entry.1 topology) then removeNode entry.1 g else g.

Definition updateFromTopology (now : Z) (topology : omap jstr TopoInfo) (g : NetworkGraph) : NetworkGraph :=
  let g := foldl (topology_entry now topology) g topology in
  foldl (prune_entry topology) g (nodes g).

(** [toJSON]: the edge list, each undirected edge once. *)
Definition json_edges (g : NetworkGraph) : list (jstr * jstr * option EdgeMetrics) :=
  (foldl (λ acc e,
    let '(seen, out) := acc in
    let '(a, b) := e in
    let key := edgeKey a b in
    if os_has key seen then (seen, out) else (os_add key seen, out ++ [(a, b, om_get key (metrics g))]))
    ([], []) (edges g ≫= λ '(a, nbs), (λ b, (a, b)) <$> nbs)).2.
Definition toJSON (g : NetworkGraph) := (nodes g, json_edges g).

(** ** Symmetry of the edges *)

Definition linked (g : NetworkGraph) (a b : jstr) : Prop := b ∈ getNeighbors g a.
Definition symmetric (g : NetworkGraph) : Prop := ∀ a b, linked g a b → linked g b a.

Lemma linked_hasEdge g a b : linked g a b ↔ hasEdge g a b = true.
Proof.
  unfold linked, hasEdge, getNeighbors. destruct (om_get a (edges g)); simpl; [by rewrite os_has_true|].
  split; [by intros ?%elem_of_nil|done].
Qed.

Lemma neighbors_ensure n u e :
  default [] (om_get u (ensure_edges n e)) = default [] (om_get u e).
Proof.
  unfold ensure_edges, om_has. case_bool_decide as H; [done|]. rewrite om_get_set.
  case_decide; [subst|done]. destruct (om_get n e); [|done]. exfalso. apply H. by eexists.
Qed.

Lemma has_ensure n e : is_Some (om_get n (ensure_edges n e)).
Proof.
  unfold ensure_edges, om_has. case_bool_decide; [done|]. rewrite om_get_set_eq. by eexists.
Qed.

Lemma ensure_keeps n u e : is_Some (om_get u e) → is_Some (om_get u (ensure_edges n e)).
Proof.
  intros H. unfold ensure_edges. case_match; [done|]. rewrite om_get_set. case_decide; [by eexists|done].
Qed.

Lemma neighbors_addEdge now a b m g u :
  ∀ x, x ∈ getNeighbors (addEdge now a b m g) u ↔
    x ∈ getNeighbors g u ∨ (u = a ∧ x = b) ∨ (u = b ∧ x = a).
Proof.
  intros x. unfold addEdge, getNeighbors. cbn [updateEdgeMetrics set_metrics set_edges edges].
  set (e := ensure_edges b (ensure_edges a (edges g))).
  assert (default [] (om_get u e) = default [] (om_get u (edges g))) as <-.
  { unfold e. by rewrite !neighbors_ensure. }
  assert (is_Some (om_get a e)) as [ea Ha] by (apply ensure_keeps, has_ensure).
  assert (is_Some (om_get b e)) as [eb Hb] by apply has_ensure.
  rewrite !om_get_update. repeat case_decide; subst; rewrite ?Ha ?Hb; cbn [fmap option_fmap option_map default from_option id];
    rewrite ?os_elem_add; naive_solver.
Qed.

Lemma neighbors_removeEdge a b g u x :
  x ∈ getNeighbors (removeEdge a b g) u ↔
    x ∈ getNeighbors g u ∧ ¬ (u = a ∧ x = b) ∧ ¬ (u = b ∧ x = a).
Proof.
  unfold removeEdge, getNeighbors. cbn [edges]. rewrite !om_get_update.
  destruct (om_get u (edges g)) as [e|] eqn:E; repeat case_decide; subst; cbn;
    rewrite ?os_elem_delete; naive_solver (set_solver).
Qed.

Lemma neighbors_addNode now n info g u :
  getNeighbors (addNode now n info g) u =
    if om_has n (nodes g) then getNeighbors g u
    else if decide (u = n) then [] else getNeighbors g u.
Proof.
  unfold addNode, om_has, getNeighbors. destruct (om_get n (nodes g)) eqn:E; simpl; [done|].
  rewrite om_get_set. by case_decide.
Qed.

Lemma drop_neighbors_get n l : ∀ g u x,
  x ∈ getNeighbors (foldl (drop_neighbor n) g l) u ↔ x ∈ getNeighbors g u ∧ ¬ (u ∈ l ∧ x = n).
Proof.
  induction l as [|y l IH]; intros g u x; cbn [foldl]; [set_solver|]. rewrite IH.
  unfold drop_neighbor, getNeighbors. cbn [edges]. rewrite om_get_update.
  destruct (om_get u (edges g)) as [e|]; case_decide; subst; cbn; rewrite ?os_elem_delete; set_solver.
Qed.

Lemma neighbors_removeNode n g u x : symmetric g → om_has n (nodes g) = true →
  x ∈ getNeighbors (removeNode n g) u ↔ x ∈ getNeighbors g u ∧ u ≠ n ∧ x ≠ n.
Proof.
  intros Hs Hn. unfold removeNode. rewrite Hn. unfold getNeighbors at 1. cbn [edges].
  rewrite om_get_delete. case_decide as Hu.
  - subst. cbn. split; [by intros ?%elem_of_nil|naive_solver].
  - change (default [] (om_get u (edges ?g'))) with (getNeighbors g' u).
    rewrite drop_neighbors_get. split; [|naive_solver]. intros [Hx Hnot]. split_and!; [done|done|].
    intros ->. apply Hnot. split; [|done]. by apply Hs.
Qed.

(** *** Topology snapshots keep the symmetry *)

Definition known (g : NetworkGraph) : Prop := ∀ a b, linked g a b → om_has a (nodes g) = true.

(** The snapshot lists every connection on both sides. *)
Definition topology_symmetric (t : omap jstr TopoInfo) : Prop :=
  ∀ a ia b ib, om_get a t = Some ia → om_get b t = Some ib →
    b ∈ t_connectedTo ia → a ∈ t_connectedTo ib.

Lemma om_has_spec {V} k (m : omap jstr V) : om_has k m = true ↔ is_Some (om_get k m).
Proof. unfold om_has. apply bool_decide_eq_true. Qed.

Lemma has_addNode now n info g u :
  om_has u (nodes (addNode now n info g)) = true ↔ u = n ∨ om_has u (nodes g) = true.
Proof.
  rewrite !om_has_spec. unfold addNode. destruct (om_get n (nodes g)) as [i|] eqn:E; cbn [nodes];
    rewrite om_get_set; case_decide as Hu; subst; (split; intros Hx; [|try destruct Hx as [Hx|Hx]]);
    eauto; done.
Qed.

Lemma nodes_addEdge now a b m g : nodes (addEdge now a b m g) = nodes g.
Proof. done. Qed.

Lemma topology_inner now n (t : omap jstr TopoInfo) l : ∀ g u x,
  let g' := foldl (λ g c, if om_has c (nodes g) || om_has c t then addEdge now n c no_metrics g else g) g l in
  nodes g' = nodes g ∧
  (x ∈ getNeighbors g' u ↔ x ∈ getNeighbors g u ∨
    (∃ c, c ∈ l ∧ (om_has c (nodes g) || om_has c t) = true ∧ ((u = n ∧ x = c) ∨ (u = c ∧ x = n)))).
Proof.
  induction l as [|c l IH]; intros g u x; cbn [foldl]; [set_solver|].
  destruct (om_has c (nodes g) || om_has c t) eqn:E.
  - destruct (IH (addEdge now n c no_metrics g) u x) as [Hn Hx]. rewrite nodes_addEdge in Hn, Hx. split; [done|].
    rewrite Hx neighbors_addEdge. set_solver.
  - destruct (IH g u x) as [Hn Hx]. split; [done|]. rewrite Hx. set_solver by congruence.
Qed.

(** Between two entries: the edges are symmetric, the entries seen are nodes, and an
    edge starts at a node or at an entry still to come. *)
Definition topo_inv (t : omap jstr TopoInfo) (seen : list jstr) (g : NetworkGraph) : Prop :=
  symmetric g ∧ (∀ a, a ∈ seen → om_has a (nodes g) = true) ∧
  (∀ a b, linked g a b → om_has a (nodes g) = true ∨
    (a ∉ seen ∧ om_has a t = true ∧ ∃ ib, om_get b t = Some ib ∧ a ∈ t_connectedTo ib)).

Lemma topology_entry_inv now t n info seen g :
  topology_symmetric t → om_get n t = Some info → n ∉ seen → topo_inv t seen g →
  topo_inv t (seen ++ [n]) (topology_entry now t g (n, info)).
Proof.
  intros Hts Hn Hns (Hsym & Hseen & Hk). unfold topology_entry.
  set (g1 := addNode _ _ _ g). set (g2 := foldl _ g1 _).
  assert (∀ u x, x ∈ getNeighbors g2 u ↔ x ∈ getNeighbors g1 u ∨
    ∃ c, c ∈ t_connectedTo info ∧ (om_has c (nodes g1) || om_has c t) = true ∧
      ((u = n ∧ x = c) ∨ (u = c ∧ x = n))) as H2 by (intros; apply topology_inner).
  assert (nodes g2 = nodes g1) as Hn2 by (apply (topology_inner now n t (t_connectedTo info) g1 n n)).
  assert (∀ u, om_has u (nodes g1) = true ↔ u = n ∨ om_has u (nodes g) = true) as Hh by (intros; apply has_addNode).
  assert (∀ u x, x ∈ getNeighbors g1 u → x ∈ getNeighbors g u ∧ (om_has n (nodes g) = true ∨ u ≠ n)) as H1.
  { intros u x. unfold g1. rewrite neighbors_addNode. destruct (om_has n (nodes g)); [by auto|].
    case_decide; [by intros ?%elem_of_nil|auto]. }
  assert (∀ u x, x ∈ getNeighbors g u → om_has n (nodes g) = true ∨ u ≠ n → x ∈ getNeighbors g1 u) as H1'.
  { intros u x Hx Hc. unfold g1. rewrite neighbors_addNode. destruct (om_has n (nodes g)); [done|].
    rewrite decide_False //. by destruct Hc. }
  clearbody g1 g2. split_and!.
  - intros u x [Hx|(c & Hc & Hv & Hor)]%H2; apply H2; [|right; exists c; naive_solver].
    destruct (H1 u x Hx) as [Hg Hcase]. destruct (decide (om_has n (nodes g) = true ∨ x ≠ n)) as [Hd|Hd].
    { left. apply H1'; [by apply Hsym|done]. }
    assert (x = n ∧ om_has n (nodes g) ≠ true) as [-> Hnn] by (destruct (decide (x = n)); naive_solver).
    right. exists u. destruct (Hk n u) as [?|(_ & _ & iu & Hu & Hin)]; [by apply Hsym|done|].
    split_and!; [by apply (Hts u iu n info)| |by left].
    apply orb_true_iff. right. apply om_has_spec. by eexists.
  - intros a Ha. rewrite Hn2. apply Hh. apply elem_of_app in Ha as [Ha| ->%list_elem_of_singleton]; auto.
  - intros u x [Hx|(c & Hc & Hv & [[-> ->]|[-> ->]])]%H2; rewrite Hn2.
    + destruct (H1 u x Hx) as [Hg _]. destruct (Hk u x Hg) as [?|(Hus & Hut & Hex)]; [left; apply Hh; auto|].
      destruct (decide (u = n)) as [->|]; [left; apply Hh; auto|]. right. split_and!; [set_solver|done|done].
    + left. apply Hh. by left.
    + apply orb_true_iff in Hv as [?|Ht]; [by left|].
      destruct (decide (c ∈ seen ++ [n])) as [[Hs| ->%list_elem_of_singleton]%elem_of_app|].
      * left. apply Hh. right. by apply Hseen.
      * left. apply Hh. by left.
      * right. split_and!; [done|done|eauto].
Qed.

Lemma topology_entries_inv now t : topology_symmetric t → om_wf t → ∀ done l g,
  t = done ++ l → topo_inv t done.*1 g → topo_inv t t.*1 (foldl (topology_entry now t) g l).
Proof.
  intros Hts Hwf dn l. revert dn. induction l as [|[n info] l IH]; intros dn g Ht Hinv; cbn [foldl].
  - rewrite app_nil_r in Ht. by subst.
  - apply (IH (dn ++ [(n, info)])); [by rewrite -(assoc_L (++))|].
    rewrite fmap_app /=. apply topology_entry_inv; [done| | |done].
    + apply om_elem_get; [done|]. rewrite Ht. set_solver.
    + intros Hn. unfold om_wf, om_keys in Hwf. rewrite Ht fmap_app /= in Hwf.
      apply NoDup_app in Hwf as (_ & Hd & _). apply (Hd n Hn). by left.
Qed.

Lemma prune_inv t l : ∀ g, symmetric g → known g →
  symmetric (foldl (prune_entry t) g l) ∧ known (foldl (prune_entry t) g l).
Proof.
  induction l as [|[n i] l IH]; intros g Hs Hk; [done|]. cbn [foldl]. apply IH.
  - unfold prune_entry. case_match; [|done]. destruct (om_has n (nodes g)) eqn:E;
      [|unfold removeNode; by rewrite E]. intros a b. unfold linked. rewrite !neighbors_removeNode //.
    intros (H1 & H2 & H3). split_and!; [by apply Hs|done|done].
  - unfold prune_entry. case_match; [|done]. destruct (om_has n (nodes g)) eqn:E;
      [|unfold removeNode; by rewrite E]. intros a b. unfold linked. rewrite !neighbors_removeNode //.
    intros (H1 & H2 & H3). specialize (Hk a b H1). unfold removeNode. rewrite E. cbn [nodes].
    rewrite om_has_spec om_get_delete decide_False //.
    assert (∀ l g, nodes (foldl (drop_neighbor n) g l) = nodes g) as Hnd
      by (clear; induction l as [|y l IH]; intros g; [done|]; cbn [foldl]; by rewrite IH).
    rewrite Hnd. by apply om_has_spec.
Qed.

(** ** Histories of a graph *)

Inductive graph_op :=
  | OpAddNode (now : Z) (n : jstr) (info : NodeOpts)
  | OpRemoveNode (n : jstr)
  | OpAddEdge (now : Z) (a b : jstr) (m : EdgeMetrics)
  | OpRemoveEdge (a b : jstr)
  | OpMetrics (now : Z) (a b : jstr) (m : EdgeMetrics)
  | OpTopology (now : Z) (t : omap jstr TopoInfo)
  | OpClear.

Definition graph_apply (g : NetworkGraph) (o : graph_op) : NetworkGraph :=
  match o with
  | OpAddNode now n info => addNode now n info g
  | OpRemoveNode n => removeNode n g
  | OpAddEdge now a b m => addEdge now a b m g
  | OpRemoveEdge a b => removeEdge a b g
  | OpMetrics now a b m => updateEdgeMetrics now a b m g
  | OpTopology now t => updateFromTopology now t g
  | OpClear => graph_clear g
  end.

(** The discipline: edges are added between nodes the graph has, and a topology
    snapshot is symmetric. *)
Definition graph_op_ok (g : NetworkGraph) (o : graph_op) : Prop :=
  match o with
  | OpAddEdge _ a b _ => om_has a (nodes g) = true ∧ om_has b (nodes g) = true
  | OpTopology _ t => om_wf t ∧ topology_symmetric t
  | _ => True
  end.

Inductive graph_reach : NetworkGraph → Prop :=
  | gr_new : graph_reach graph_new
  | gr_step g o : graph_reach g → graph_op_ok g o → graph_reach (graph_apply g o).

Lemma updateFromTopology_inv now t g :
  om_wf t → topology_symmetric t → symmetric g → known g →
  symmetric (updateFromTopology now t g) ∧ known (updateFromTopology now t g).
Proof.
  intros Hwf Ht Hs Hk. unfold updateFromTopology.
  destruct (topology_entries_inv now t Ht Hwf [] t g) as (Hs' & _ & Hk'); [done| |].
  { split_and!; [done|intros a Ha; by apply elem_of_nil in Ha|]. intros a b Hab. left. by apply (Hk a b). }
  apply prune_inv; [done|]. intros a b Hab. destruct (Hk' a b Hab) as [|(Hn & Hh & _)]; [done|].
  exfalso. apply Hn. apply om_has_spec, om_get_keys in Hh. exact Hh.
Qed.

(** whatever sequence of node, edge and topology updates a graph goes through,
    its adjacency stays symmetric ([hasEdge a b] agrees with [hasEdge b a]), every
    edge starts at a known node, and metrics are shared by both directions. *)
Theorem graph_symmetric (g : NetworkGraph) (a b : jstr) :
  graph_reach g →
  hasEdge g a b = hasEdge g b a ∧
  (hasEdge g a b = true → hasNode g a = true ∧ hasNode g b = true) ∧
  getEdgeMetrics g a b = getEdgeMetrics g b a.
Proof.
  intros Hr. assert (symmetric g ∧ known g) as [Hs Hk].
  { induction Hr as [|g o Hr [Hs Hk] Hok]; [split; intros x y H; by apply elem_of_nil in H|].
    destruct o as [now n info|n|now x y m|x y|now x y m|now t|]; cbn [graph_apply graph_op_ok] in *.
    - split; intros u v; unfold linked; rewrite !neighbors_addNode; destruct (om_has n (nodes g)) eqn:E;
        rewrite ?has_addNode.
      + apply Hs.
      + case_decide as Hu; [by intros ?%elem_of_nil|]. intros Huv. rewrite decide_False; [by apply Hs|].
        intros ->. pose proof (Hk n u (Hs _ _ Huv)). congruence.
      + intros Huv. right. by apply (Hk u v).
      + case_decide; [by intros ?%elem_of_nil|]. intros Huv. right. by apply (Hk u v).
    - destruct (prune_inv [] [(n, MkNode n None None None 0 true)] g Hs Hk) as [H1 H2].
      by change (foldl (prune_entry []) g [(n, MkNode n None None None 0 true)]) with (removeNode n g) in H1, H2.
    - destruct Hok as [Hx Hy]. split; intros u v; unfold linked; rewrite !neighbors_addEdge ?nodes_addEdge.
      + intros [H|[[-> ->]|[-> ->]]]; [left; by apply Hs|auto|auto].
      + intros [H|[[-> ->]|[-> ->]]]; [by apply (Hk u v)|done|done].
    - split; intros u v; unfold linked; rewrite !neighbors_removeEdge.
      + intros (H & ? & ?). split_and!; [by apply Hs|naive_solver|naive_solver].
      + intros (H & _). by apply (Hk u v).
    - split; [exact Hs|exact Hk].
    - destruct Hok. by apply updateFromTopology_inv.
    - split; intros u v H; by apply elem_of_nil in H. }
  assert (hasEdge g a b = hasEdge g b a) as Hab.
  { apply eq_bool_prop_intro. rewrite !Is_true_true -!linked_hasEdge. split; apply Hs. }
  split_and!; [done| |].
  - intros H. split; [apply (Hk a b)|apply (Hk b a)]; apply linked_hasEdge; congruence.
  - unfold getEdgeMetrics, edgeKey. destruct (decide (a = b)) as [->|Hne]; [done|].
    rewrite (str_ltb_total a b Hne). by destruct (str_ltb b a).
Qed.

Definition demo_topology : omap jstr TopoInfo :=
  [(js "a", MkTopo (Some (js "client")) None [js "b"; js "c"]);
   (js "b", MkTopo (Some (js "relay")) None [js "a"]);
   (js "c", MkTopo (Some (js "exit")) None [js "a"])].

Lemma graph_symmetric_witness :
  let g := graph_apply graph_new (OpTopology 5 demo_topology) in
  graph_reach g ∧
  (hasEdge g (js "b") (js "a") = hasEdge g (js "a") (js "b") ∧
   (hasEdge g (js "b") (js "a") = true → hasNode g (js "b") = true ∧ hasNode g (js "a") = true) ∧
   getEdgeMetrics g (js "b") (js "a") = getEdgeMetrics g (js "a") (js "b")).
Proof.
  intros g. assert (graph_reach g) as H.
  { apply gr_step; [apply gr_new|]. split.
    - unfold om_wf. apply (bool_decide_unpack _). by vm_compute.
    - intros a ia b ib Ha Hb. unfold demo_topology in Ha, Hb. cbn [om_get] in Ha, Hb.
      repeat (case_decide; simplify_eq); apply (bool_decide_unpack _); by vm_compute. }
  split; [exact H|]. exact (graph_symmetric g (js "b") (js "a") H).
Defined.

(** An asymmetric snapshot leaves a one-way edge: adding the second node resets the
    edge set the first one's entry created. *)
Example topology_one_way :
  let t := [(js "a", MkTopo None None [js "b"]); (js "b", MkTopo None None [])] in
  let g := updateFromTopology 5 t graph_new in
  hasEdge g (js "a") (js "b") = true ∧ hasEdge g (js "b") (js "a") = false.
Proof. by vm_compute. Qed.

(** ** Correctness of the searches *)

(** [route_walk g excl s p u W]: [p] leads from [s] to [u] along the graph's edges,
    entering no excluded node, with total latency [W]. *)
Definition route_walk (g : NetworkGraph) (excl : list jstr) (s : jstr) : list jstr → jstr → Z → Prop :=
  walk (getNeighbors g) excl (edge_weight g) s.

Section search_facts.
Context (g : NetworkGraph) (excl : list jstr) (s : jstr).

Lemma search_nodes_NoDup : NoDup (search_nodes g s).
Proof. apply NoDup_remove_dups. Qed.

Lemma search_nodes_start : s ∈ search_nodes g s.
Proof. apply elem_of_remove_dups. by left. Qed.

Lemma search_nodes_edge u v : edge (getNeighbors g) excl u v → v ∈ search_nodes g s.
Proof.
  intros [Hv _]. apply elem_of_remove_dups. right. unfold getNeighbors in Hv.
  destruct (om_get u (edges g)) as [e|] eqn:E; [|by apply elem_of_nil in Hv].
  apply list_elem_of_join. exists e. split; [done|]. apply list_elem_of_fmap.
  exists (u, e). split; [done|]. by apply om_get_Some_elem.
Qed.

Lemma edge_weight_pos u v : 0 < edge_weight g u v.
Proof.
  unfold edge_weight. destruct (getEdgeMetrics g u v) as [m|]; [|done].
  destruct (m_latency m) as [l|]; [|done]. by destruct (Z.ltb_spec 0 l).
Qed.

Lemma dijkstra_graph goal : ∃ res, dijkstra g s goal excl = Some res ∧
  dijkstra_result (getNeighbors g) excl (edge_weight g) s goal res.
Proof.
  apply (dijkstra_spec _ _ _ _ _ edge_weight_pos (search_nodes g s) search_nodes_NoDup
    search_nodes_start search_nodes_edge); [done|lia].
Qed.

Lemma bfs_graph {R} (isGoal : jstr → list jstr → option R) (gl : jstr → bool) mk :
  (∀ c p, isGoal c p = if gl c then Some (mk c p) else None) → om_has s (nodes g) = true →
  ∃ res, bfs g s isGoal excl = Some res ∧
    bfs_result (getNeighbors g) excl (edge_weight g) s gl mk res.
Proof.
  intros Hgoal Hs. unfold bfs. rewrite Hs.
  by apply (bfs_spec _ _ (edge_weight g) _ isGoal gl mk Hgoal (search_nodes g s) search_nodes_start search_nodes_edge).
Qed.
End search_facts.

Lemma walk_start_only {adj excl wt s} p W :
  (∀ u v, 0 < wt u v) → walk adj excl wt s p s W → 0 <= W.
Proof.
  intros Hwt Hw. enough (∀ u, walk adj excl wt s p u W → 0 <= W) as H by by apply (H s).
  clear Hw. intros u. induction 1 as [|q x v W' _ IH _]; [done|]. specialize (Hwt x v). lia.
Qed.

Lemma walk_second {adj excl wt s} p u W x y p' :
  walk adj excl wt s p u W → p = x :: y :: p' → edge adj excl x y.
Proof.
  intros Hw. revert x y p'. induction Hw as [|p u v W Hw IH Huv]; intros x y p' Hp; [done|].
  destruct (walk_head _ _ _ _ _ _ _ Hw) as [q ->]. destruct q as [|z q]; simplify_eq/=; [|by eapply IH].
  pose proof (walk_last _ _ _ _ _ _ _ Hw) as Hl. simpl in Hl. by simplify_eq.
Qed.

(** What the client of a search knows of the path it found, if it leads anywhere. *)
Definition good_path (g : NetworkGraph) (excl : list jstr) (from to : jstr) (p : list jstr) : Prop :=
  ∃ route, p = from :: route ∧ NoDup p ∧ last p = Some to ∧
    (∃ W, route_walk g excl from p to W) ∧
    (∀ h route', route = h :: route' → edge (getNeighbors g) excl from h).

Lemma good_path_intro g excl from to p W :
  route_walk g excl from p to W → NoDup p → good_path g excl from to p.
Proof.
  intros Hw Hnd. destruct (walk_head _ _ _ _ _ _ _ Hw) as [route ->]. exists route.
  split_and!; [done|done|exact (walk_last _ _ _ _ _ _ _ Hw)|by eexists|].
  intros h route' ->. by apply (walk_second _ _ _ _ _ _ Hw eq_refl).
Qed.

Lemma weighted_found g from to excl r :
  findShortestPathWeighted g from to excl = Some r → from ≠ to →
  match r with
  | Some p => good_path g excl from to p ∧ ∃ W, route_walk g excl from p to W ∧
      ∀ q W', route_walk g excl from q to W' → W <= W'
  | None => hasNode g to = true → ∀ q W, ¬ route_walk g excl from q to W
  end.
Proof.
  intros H Hne. unfold findShortestPathWeighted in H. unfold hasNode.
  destruct (om_has to (nodes g)); cbn [negb] in H; [|by simplify_eq].
  rewrite bool_decide_false // in H.
  destruct (dijkstra_graph g excl from (λ cur, bool_decide (cur = to))) as (res & E & Hspec).
  rewrite E in H. cbn in H. simplify_eq. destruct res as [[[p cur] cost]|]; cbn in *.
  - destruct Hspec as (Hp & Hnd & ->%bool_decide_eq_true & Hmin). split; [by apply (good_path_intro _ _ _ _ _ cost)|].
    exists cost. split; [done|]. intros q W' Hq. apply (Hmin q to); [done|]. by apply bool_decide_eq_true.
  - intros _ q W Hq. specialize (Hspec q to W Hq). by rewrite bool_decide_true in Hspec.
Qed.

Lemma weighted_total g from to excl : is_Some (findShortestPathWeighted g from to excl).
Proof.
  unfold findShortestPathWeighted. case_match; [by eexists|]. case_match; [by eexists|].
  destruct (dijkstra_graph g excl from (λ cur, bool_decide (cur = to))) as (res & -> & _). by eexists.
Qed.

Lemma nearest_found g from excl p e l :
  findPathToNearestExitWeighted g from excl = Some (Some (p, e, l)) →
  good_path g excl from e p ∧ is_exit g e = true ∧ e ≠ from ∧ route_walk g excl from p e l ∧
  ∀ q x W, route_walk g excl from q x W → is_exit g x = true → x ≠ from → l <= W.
Proof.
  unfold findPathToNearestExitWeighted. case_match; [done|].
  destruct (dijkstra_graph g excl from (λ cur, is_exit g cur && negb (bool_decide (cur = from))))
    as (res & -> & Hspec). intros [= ->]. destruct Hspec as (Hp & Hnd & He & Hmin).
  apply andb_true_iff in He as [He Hne%negb_true_iff%bool_decide_eq_false].
  split_and!; [by apply (good_path_intro _ _ _ _ _ l)|done|done|done|].
  intros q x W Hq Hx Hxne. apply (Hmin q x W Hq). by rewrite Hx bool_decide_false.
Qed.

Lemma shortest_found g from to excl r :
  hasNode g from = true → findShortestPath g from to excl = Some r →
  match r with
  | Some p => ∃ W, route_walk g excl from p to W
  | None => hasNode g to = false ∨ ∀ q W, ¬ route_walk g excl from q to W
  end.
Proof.
  unfold hasNode, findShortestPath. intros Hf. destruct (om_has to (nodes g)); cbn [negb];
    [|intros [= <-]; by left].
  case_bool_decide as Heq; [intros [= <-]; subst; exists 0; constructor|]. intros H.
  destruct (bfs_graph g excl from (λ cur path, if bool_decide (cur = to) then Some path else None)
    (λ c, bool_decide (c = to)) (λ _ p, p)) as (res & Hres & Hspec); [done|done|].
  rewrite H in Hres. simplify_eq. destruct res as [hit|]; cbn in Hspec.
  - destruct Hspec as (u & p & W & -> & Hp & ->%bool_decide_eq_true & _). by eexists.
  - right. intros q W Hq. specialize (Hspec q to W Hq). by rewrite bool_decide_true in Hspec.
Qed.

(** [findShortestPath] returns a path with the fewest hops: from the source to
    the target along edges of the graph, entering no excluded node, and no such
    path is shorter; it returns [null] exactly when the target is unknown or no
    path exists.  The search always ends. *)
Theorem findShortestPath_correct (g : NetworkGraph) (from to : jstr) (excl : list jstr) :
  hasNode g from = true →
  ∃ r, findShortestPath g from to excl = Some r ∧
  match r with
  | Some p => (∃ W, route_walk g excl from p to W) ∧ hasNode g to = true ∧
      ∀ q W, route_walk g excl from q to W → (length p <= length q)%nat
  | None => hasNode g to = false ∨ ∀ q W, ¬ route_walk g excl from q to W
  end.
Proof.
  unfold hasNode, findShortestPath. intros Hf. destruct (om_has to (nodes g)) eqn:Ht; cbn [negb];
    [|exists None; split; [done|by left]].
  case_bool_decide as Heq.
  - subst. exists (Some [to]). split; [done|]. split_and!; [exists 0; constructor|done|].
    intros q W Hq. exact (walk_length _ _ _ _ _ _ _ Hq).
  - destruct (bfs_graph g excl from (λ cur path, if bool_decide (cur = to) then Some path else None)
      (λ c, bool_decide (c = to)) (λ _ p, p)) as (res & Hres & Hspec); [done|done|].
    exists res. split; [done|]. destruct res as [hit|]; cbn in Hspec.
    + destruct Hspec as (u & p & W & -> & Hp & ->%bool_decide_eq_true & Hmin).
      split_and!; [by eexists|done|]. intros q W' Hq. apply (Hmin q to W'); [done|].
      by apply bool_decide_eq_true.
    + right. intros q W Hq. specialize (Hspec q to W Hq). by rewrite bool_decide_true in Hspec.
Qed.

Definition demo_graph : NetworkGraph := updateFromTopology 5 demo_topology graph_new.

Lemma findShortestPath_correct_witness :
  hasNode demo_graph (js "b") = true ∧
  ∃ r, findShortestPath demo_graph (js "b") (js "c") [] = Some r ∧
  match r with
  | Some p => (∃ W, route_walk demo_graph [] (js "b") p (js "c") W) ∧ hasNode demo_graph (js "c") = true ∧
      ∀ q W, route_walk demo_graph [] (js "b") q (js "c") W → (length p <= length q)%nat
  | None => hasNode demo_graph (js "c") = false ∨ ∀ q W, ¬ route_walk demo_graph [] (js "b") q (js "c") W
  end.
Proof.
  assert (hasNode demo_graph (js "b") = true) as H by (by vm_compute). split; [exact H|].
  exact (findShortestPath_correct demo_graph (js "b") (js "c") [] H).
Defined.

(** C13: [findShortestPathWeighted] returns a path of least total latency (100 ms for
    an edge without a positive measurement) that visits no node twice; [null]
    exactly when the target is unknown or unreachable.  The loop always ends. *)
Theorem findShortestPathWeighted_correct (g : NetworkGraph) (from to : jstr) (excl : list jstr) :
  ∃ r, findShortestPathWeighted g from to excl = Some r ∧
  match r with
  | Some p => NoDup p ∧ hasNode g to = true ∧ ∃ W, route_walk g excl from p to W ∧
      ∀ q W', route_walk g excl from q to W' → W <= W'
  | None => hasNode g to = false ∨ ∀ q W, ¬ route_walk g excl from q to W
  end.
Proof.
  unfold hasNode, findShortestPathWeighted. destruct (om_has to (nodes g)) eqn:Ht; cbn [negb];
    [|exists None; split; [done|by left]].
  case_bool_decide as Heq.
  - subst. exists (Some [to]). split; [done|]. split_and!; [apply NoDup_singleton|done|].
    exists 0. split; [constructor|]. intros q W Hq. exact (walk_start_only q W (edge_weight_pos g) Hq).
  - destruct (dijkstra_graph g excl from (λ cur, bool_decide (cur = to))) as (res & -> & Hspec).
    exists ((λ r, r.1.1) <$> res). split; [done|]. destruct res as [[[p cur] cost]|]; cbn in *.
    + destruct Hspec as (Hp & Hnd & ->%bool_decide_eq_true & Hmin). split_and!; [done|done|].
      exists cost. split; [done|]. intros q W' Hq. apply (Hmin q to); [done|]. by apply bool_decide_eq_true.
    + right. intros q W Hq. specialize (Hspec q to W Hq). by rewrite bool_decide_true in Hspec.
Qed.

(** [findPathToNearestExitWeighted] returns the exit node of least total
    latency, with a repetition-free path to it and that latency; it returns [null]
    exactly when the source is unknown or no other exit is reachable. *)
Theorem findPathToNearestExitWeighted_correct (g : NetworkGraph) (from : jstr) (excl : list jstr) :
  ∃ r, findPathToNearestExitWeighted g from excl = Some r ∧
  match r with
  | Some (p, exitNode, latency) =>
      route_walk g excl from p exitNode latency ∧ NoDup p ∧ is_exit g exitNode = true ∧ exitNode ≠ from ∧
      ∀ q e W, route_walk g excl from q e W → is_exit g e = true → e ≠ from → latency <= W
  | None => hasNode g from = false ∨
      ∀ q e W, route_walk g excl from q e W → is_exit g e = true → e = from
  end.
Proof.
  unfold hasNode, findPathToNearestExitWeighted. destruct (om_has from (nodes g)) eqn:Hf; cbn [negb];
    [|exists None; split; [done|by left]].
  set (goal := λ cur, is_exit g cur && negb (bool_decide (cur = from))). assert (∀ e, goal e = true ↔ is_exit g e = true ∧ e ≠ from) as Hgoal.
  { intros e. unfold goal. by rewrite andb_true_iff negb_true_iff bool_decide_eq_false. }
  destruct (dijkstra_graph g excl from goal) as (res & -> & Hspec). exists res. split; [done|].
  clearbody goal. destruct res as [[[p cur] cost]|]; cbn in Hspec.
  - destruct Hspec as (Hp & Hnd & [He Hne]%Hgoal & Hmin). split_and!; [done..|].
    intros q e W Hq ? ?. by apply (Hmin q e W Hq), Hgoal.
  - right. intros q e W Hq He. destruct (decide (e = from)) as [|Hne]; [done|].
    specialize (Hspec q e W Hq). by rewrite (proj2 (Hgoal e)) in Hspec.
Qed.

(** ** All paths to exits *)

Section all_paths.
Context (g : NetworkGraph) (from : jstr) (maxPaths : nat) (excl : list jstr).

Definition exit_goal (u : jstr) : bool := is_exit g u && negb (bool_decide (u = from)).

(** What is collected: one entry per exit node expanded, each with a path of fewest hops. *)
Definition paths_ok (D : list jstr) (paths : list ExitPath) : Prop :=
  ep_exit <$> paths = filter (λ u, exit_goal u = true) D ∧
  Forall (λ e, (∃ W, route_walk g excl from (ep_path e) (ep_exit e) W) ∧
    ep_hops e = Z.of_nat (length (ep_path e)) - 1 ∧
    ∀ q W, route_walk g excl from q (ep_exit e) W → (length (ep_path e) <= length q)%nat) paths.

#[local] Abbreviation inv D V Q :=
  (bfs_inv (getNeighbors g) excl (edge_weight g) from (λ _, false) (search_nodes g from) D V Q).

(** The loop ends with at most [maxPaths] entries, or with every reachable exit. *)
Lemma all_paths_loop_spec : (0 < maxPaths)%nat → ∀ fuel D V Q paths,
  inv D V Q → paths_ok D paths → (length paths <= maxPaths)%nat →
  (length (search_nodes g from) < fuel + length D)%nat →
  ∃ D' r, all_paths_loop g from maxPaths excl fuel V Q paths = Some r ∧ paths_ok D' r ∧ NoDup D' ∧
    (length r <= maxPaths)%nat ∧
    ((length r < maxPaths)%nat → ∀ q e W, route_walk g excl from q e W → e ∈ D').
Proof.
  intros Hmax. induction fuel as [|f IH]; intros D V Q paths I Hok Hlen Hf.
  { pose proof (bi_nodup _ _ _ _ _ _ _ _ _ I) as HV. rewrite (bi_split _ _ _ _ _ _ _ _ _ I) in HV.
    apply NoDup_app in HV as (HD & _ & _).
    assert (length D <= length (search_nodes g from))%nat; [|simpl in *; lia].
    apply submseteq_length, NoDup_submseteq; [done|].
    intros x Hx. apply (bi_univ _ _ _ _ _ _ _ _ _ I). rewrite (bi_split _ _ _ _ _ _ _ _ _ I).
    apply elem_of_app. by left. }
  pose proof (bi_nodup _ _ _ _ _ _ _ _ _ I) as HV. rewrite (bi_split _ _ _ _ _ _ _ _ _ I) in HV.
  pose proof HV as (HD & _ & _)%NoDup_app.
  cbn [all_paths_loop]. destruct Q as [|p Q].
  - exists D, paths. split_and!; [done|done|done|done|]. intros _ q e W Hq.
    pose proof (bi_split _ _ _ _ _ _ _ _ _ I) as Hsp. rewrite app_nil_r in Hsp.
    induction Hq as [|q u v W Hq IHq Huv]; rewrite -Hsp; [apply (bi_start _ _ _ _ _ _ _ _ _ I)|].
    by apply (bi_closed _ _ _ _ _ _ _ _ _ I u).
  - destruct (Nat.leb_spec maxPaths (length paths)).
    { exists D, paths. split_and!; [done..|lia]. }
    destruct (bi_walk _ _ _ _ _ _ _ _ _ I p) as (u & W & Hp); [by left|].
    pose proof (walk_last _ _ _ _ _ _ _ Hp) as Hu. rewrite Hu. cbn [default from_option id].
    rewrite -/(exit_goal u). rewrite /= Hu /= in HV.
    assert (u ∉ D) as HuD by (apply NoDup_app in HV as (_ & Hd & _); intros HuD; apply (Hd u HuD); by left).
    set (paths' := if exit_goal u then _ else _).
    assert (paths_ok (D ++ [u]) paths') as Hok'.
    { destruct Hok as [He Ha]. unfold paths_ok. rewrite filter_app. unfold paths'.
      destruct (exit_goal u) eqn:Eu.
      - rewrite fmap_app He filter_cons_True // filter_nil. split; [done|]. apply Forall_app. split; [done|].
        apply Forall_singleton. cbn. split_and!; [by eexists|done|]. intros q W' Hq.
        eapply (bi_min _ _ _ _ _ _ _ _ _ I); [by left|done|done].
      - rewrite filter_cons_False ?Eu // filter_nil app_nil_r. done. }
    assert (length paths' <= maxPaths)%nat as Hlen'.
    { unfold paths'. case_match; [rewrite length_app /=; lia|lia]. }
    destruct (exit_goal u && (maxPaths <=? length paths')%nat) eqn:Estop.
    + apply andb_true_iff in Estop as [_ Hge%Nat.leb_le].
      exists (D ++ [u]), paths'. split_and!; [done|done| |done|lia].
      apply NoDup_app. split_and!; [done| |apply NoDup_singleton].
      intros x Hx ->%list_elem_of_singleton. done.
    + destruct (bfs_expand excl (getNeighbors g u) p V Q) as [V' Q'] eqn:E.
      apply (IH (D ++ [u])); [|done|done|rewrite length_app /=; lia].
      eapply (bfs_step _ _ _ _ (λ _, false)); [exact (search_nodes_edge g excl from)|exact I|exact Hu|done|exact E].
Qed.
End all_paths.

(** [findAllPathsToExits] returns at most [maxPaths] paths, to distinct exit
    nodes, in order of hops, each a shortest path to its exit; when it returns
    fewer, every reachable exit has its path. *)
Theorem findAllPathsToExits_correct (g : NetworkGraph) (from : jstr) (maxPaths : nat) (excl : list jstr) :
  hasNode g from = true → (0 < maxPaths)%nat →
  ∃ r, findAllPathsToExits g from maxPaths excl = Some r ∧
    (length r <= maxPaths)%nat ∧ NoDup (ep_exit <$> r) ∧ key_sorted ep_hops r ∧
    (∀ e, e ∈ r → is_exit g (ep_exit e) = true ∧ ep_exit e ≠ from ∧
       (∃ W, route_walk g excl from (ep_path e) (ep_exit e) W) ∧
       ep_hops e = Z.of_nat (length (ep_path e)) - 1 ∧
       ∀ q W, route_walk g excl from q (ep_exit e) W → (length (ep_path e) <= length q)%nat) ∧
    ((length r < maxPaths)%nat → ∀ q x W, route_walk g excl from q x W →
       is_exit g x = true → x ≠ from → ∃ e, e ∈ r ∧ ep_exit e = x).
Proof.
  unfold hasNode, findAllPathsToExits. intros Hf Hmax. rewrite Hf. cbn [negb].
  destruct (all_paths_loop_spec g from maxPaths excl Hmax (S (length (search_nodes g from))) [] [from] [[from]] [])
    as (D & r & -> & [He Ha] & HD & Hlen & Hall).
  { apply bfs_init. apply search_nodes_start. } { split; [done|constructor]. } { simpl. lia. } { simpl. lia. }
  exists (js_sort ep_hops r). split; [done|]. pose proof (js_sort_perm ep_hops r) as Hp.
  rewrite (Permutation_length Hp). rewrite ->Forall_forall in Ha.
  assert (∀ u, exit_goal g from u = true ↔ is_exit g u = true ∧ u ≠ from) as Hgoal.
  { intros u. unfold exit_goal. by rewrite andb_true_iff negb_true_iff bool_decide_eq_false. }
  split_and!; [done| |apply js_sort_sorted| |].
  - rewrite Hp He. by apply NoDup_filter.
  - intros e Hin. rewrite Hp in Hin. destruct (Ha e Hin) as (? & ? & ?).
    assert (ep_exit e ∈ ep_exit <$> r) as Hx by (apply list_elem_of_fmap; eauto).
    rewrite He in Hx. apply list_elem_of_filter in Hx as [[? ?]%Hgoal _]. done.
  - intros Hlt q x W Hq Hx Hne. assert (x ∈ ep_exit <$> r) as Hin.
    { rewrite He. apply list_elem_of_filter. split; [by apply Hgoal|]. by apply (Hall Hlt q x W). }
    apply list_elem_of_fmap in Hin as (e & -> & Hin). exists e. split; [|done]. by rewrite Hp.
Qed.

Lemma findAllPathsToExits_correct_witness :
  ∃ r, findAllPathsToExits demo_graph (js "b") 5 [] = Some r ∧ (length r <= 5)%nat.
Proof.
  destruct (findAllPathsToExits_correct demo_graph (js "b") 5 []) as (r & H1 & H2 & _);
    [by vm_compute|lia|]. exists r. split; [exact H1|exact H2].
Defined.
