(* ===== verification/Router.v ===== *)
(** * Route selection (class [MeshRouter] of src/core/router.js)

    The router keeps the graph and a table of active routes per exit node, which
    it rebuilds with the latency-weighted searches of Graph.v, and validates the
    routes it hands out.  The onion methods are in Onion.v; [Date.now()] is an
    argument [now], the update timer a flag. *)

From S2P Require Import Prelude JsMap Bytes JsString MeshPacket Search Graph.
Local Open Scope Z_scope.
#[local] Unset Default Proof Using.

Record ActiveRoute := MkRoute {
  ar_route : list jstr;
  ar_exitNode : jstr;
  ar_latency : option Z;
  ar_updatedAt : Z;
  ar_unavailable : bool
}.

Record MeshRouter := MkRouter {
  localNodeId : jstr;
  graph : NetworkGraph;
  routeCache : omap jstr (list jstr * Z);
  routeCacheTTL : Z;
  exitNodePreference : omap jstr Z;
  activeRoutes : omap jstr ActiveRoute;
  updateTimer : bool
}.

Definition router_new (local : jstr) (ttl : option Z) : MeshRouter :=
  MkRouter local graph_new [] (js_or ttl 30000) [] [] false.

Definition with_graph (r : MeshRouter) g :=
  MkRouter (localNodeId r) g (routeCache r) (routeCacheTTL r) (exitNodePreference r) (activeRoutes r) (updateTimer r).
Definition with_routes (r : MeshRouter) a :=
  MkRouter (localNodeId r) (graph r) (routeCache r) (routeCacheTTL r) (exitNodePreference r) a (updateTimer r).
Definition with_cache (r : MeshRouter) c :=
  MkRouter (localNodeId r) (graph r) c (routeCacheTTL r) (exitNodePreference r) (activeRoutes r) (updateTimer r).
Definition with_timer (r : MeshRouter) t :=
  MkRouter (localNodeId r) (graph r) (routeCache r) (routeCacheTTL r) (exitNodePreference r) (activeRoutes r) t.

(** A search result: running out of fuel (which the searches never do) reads as [null]. *)
Abbreviation found r := (default None r).

(** ** Validation *)

Inductive validation :=
  | Valid
  | EmptyRoute
  | InvalidNode (position : nat)
  | CycleDetected (nodeId : jstr)
  | LoopsBack (position : nat).

Fixpoint validate_loop (local : jstr) (i : nat) (seen route : list jstr) : validation :=
  match route with
  | [] => Valid
  | nodeId :: route' =>
      if bool_decide (nodeId = []) then InvalidNode i
      else if os_has nodeId seen then CycleDetected nodeId
      else if bool_decide (nodeId = local) && negb (i =? 0)%nat then LoopsBack i
      else validate_loop local (S i) (os_add nodeId seen) route'
  end.

Definition validateRoute (r : MeshRouter) (route : list jstr) : validation :=
  match route with [] => EmptyRoute | _ => validate_loop (localNodeId r) 0 [] route end.
Definition isRouteValid (r : MeshRouter) (route : list jstr) : bool :=
  match validateRoute r route with Valid => true | _ => false end.
Definition validateAndFilterRoutes (r : MeshRouter) (routes : list ActiveRoute) : list ActiveRoute :=
  filter (λ i, isRouteValid r (ar_route i) = true) routes.

(** ** Active routes *)

Definition getTurnRelayIds (r : MeshRouter) : oset jstr :=
  foldl (λ excluded neighbor,
    match om_get neighbor (nodes (graph r)) with
    | Some node =>
        if has_role (js "relay") node then
          match getEdgeMetrics (graph r) (localNodeId r) neighbor with
          | Some m => if default false (m_isTurnRelay m) then os_add neighbor excluded else excluded
          | None => excluded
          end
        else excluded
    | None => excluded
    end) [] (getNeighbors (graph r) (localNodeId r)).

Definition exit_any : jstr := js "exit:any".
Definition exit_key (n : jstr) : jstr := js "exit:" ++ n.

(** One turn of the loop over the exit nodes. *)
Definition rebuild_exit (now : Z) (excluded : list jstr) (r : MeshRouter) (exitNode : Node) : MeshRouter :=
  let id := n_nodeId exitNode in
  let key := exit_key id in
  match found (findShortestPathWeighted (graph r) (localNodeId r) id excluded) with
  | Some ((_ :: (_ :: _)) as route) =>
      with_routes r (om_set key (MkRoute (tail route) id None now false) (activeRoutes r))
  | _ => with_routes r (om_delete key (activeRoutes r))
  end.

Definition rebuild_any (now : Z) (excluded : list jstr) (r : MeshRouter) : MeshRouter :=
  match found (findPathToNearestExitWeighted (graph r) (localNodeId r) excluded) with
  | Some ((_ :: (_ :: _)) as path, exitNode, latency) =>
      with_routes r (om_set exit_any (MkRoute (tail path) exitNode (Some latency) now false) (activeRoutes r))
  | _ => with_routes r (om_delete exit_any (activeRoutes r))
  end.

Definition rebuildActiveRoutes (now : Z) (r : MeshRouter) : MeshRouter :=
  let excluded := getTurnRelayIds r in
  foldl (rebuild_exit now excluded) (rebuild_any now excluded r) (getExitNodes (graph r)).

Definition mark_unavailable (i : ActiveRoute) : ActiveRoute :=
  MkRoute (ar_route i) (ar_exitNode i) (ar_latency i) (ar_updatedAt i) true.

Definition handlePeerDisconnectedRoutes (now : Z) (peerId : jstr) (r : MeshRouter) : MeshRouter :=
  let affected := existsb (λ e, bool_decide (peerId ∈ ar_route e.2)) (activeRoutes r) in
  let r := with_routes r ((λ e, if bool_decide (peerId ∈ ar_route e.2)
                               then (e.1, mark_unavailable e.2) else e) <$> activeRoutes r) in
  if affected then rebuildActiveRoutes now r else r.

Definition invalidateRouteCache (r : MeshRouter) : MeshRouter := with_cache r [].
Definition router_start (now : Z) (r : MeshRouter) : MeshRouter := rebuildActiveRoutes now (with_timer r true).
Definition router_stop (r : MeshRouter) : MeshRouter := with_timer r false.

Definition updateTopology (now : Z) (t : omap jstr TopoInfo) (r : MeshRouter) : MeshRouter :=
  rebuildActiveRoutes now (invalidateRouteCache (with_graph r (updateFromTopology now t (graph r)))).

Definition addLocalConnection (now : Z) (peerId : jstr) (info : NodeOpts) (r : MeshRouter) : MeshRouter :=
  let g := addEdge now (localNodeId r) peerId no_metrics (addNode now peerId info (graph r)) in
  rebuildActiveRoutes now (invalidateRouteCache (with_graph r g)).

Definition removeLocalConnection (now : Z) (peerId : jstr) (r : MeshRouter) : MeshRouter :=
  handlePeerDisconnectedRoutes now peerId
    (invalidateRouteCache (with_graph r (removeEdge (localNodeId r) peerId (graph r)))).

Definition router_updateEdgeMetrics (now : Z) (peerId : jstr) (m : EdgeMetrics) (r : MeshRouter) : MeshRouter :=
  with_graph r (updateEdgeMetrics now (localNodeId r) peerId m (graph r)).

(** ** Queries *)

(** The last part of [findRouteToExit]: the nearest exit, whatever the preference. *)
Definition find_any (now : Z) (r : MeshRouter) : option (list jstr * jstr) * MeshRouter :=
  match found (findPathToNearestExitWeighted (graph r) (localNodeId r) []) with
  | Some ((_ :: (_ :: _)) as path, exitNode, latency) =>
      let route := tail path in
      if isRouteValid r route
      then (Some (route, exitNode),
            with_routes r (om_set exit_any (MkRoute route exitNode (Some latency) now false) (activeRoutes r)))
      else (None, r)
  | _ => (None, r)
  end.

Definition findRouteToExit (now : Z) (preferredExitNode : option jstr) (r : MeshRouter) :
    option (list jstr * jstr) * MeshRouter :=
  let preferred := str_or_null preferredExitNode in
  let key := exit_key (default (js "any") preferred) in
  let fallback :=
    match preferred with
    | Some p =>
        match found (findShortestPathWeighted (graph r) (localNodeId r) p []) with
        | Some ((_ :: (_ :: _)) as result) =>
            let route := tail result in
            if isRouteValid r route
            then (Some (route, p), with_routes r (om_set key (MkRoute route p None now false) (activeRoutes r)))
            else find_any now r
        | _ => find_any now r
        end
    | None => find_any now r
    end in
  match om_get key (activeRoutes r) with
  | Some active =>
      if negb (ar_unavailable active) && isRouteValid r (ar_route active)
      then (Some (ar_route active, ar_exitNode active), r) else fallback
  | None => fallback
  end.

(** The loop of [findMultiplePaths]; [count] paths at most. *)
Fixpoint multi_loop (r : MeshRouter) (count : nat) (used : oset jstr) (out : list ExitPath) (l : list ExitPath) :
    list ExitPath :=
  match l with
  | [] => out
  | p :: l' =>
      if (length (ep_path p) <? 2)%nat then multi_loop r count used out l'
      else
        let route := tail (ep_path p) in
        if negb (isRouteValid r route) then multi_loop r count used out l'
        else
          let firstHop := default [] (ep_path p !! 1%nat) in
          if negb (os_has firstHop used) || (length out <? count)%nat then
            let out' := out ++ [MkExitPath route (ep_exit p) (ep_hops p)] in
            if (count <=? length out')%nat then out'
            else multi_loop r count (os_add firstHop used) out' l'
          else multi_loop r count used out l'
  end.
Definition findMultiplePaths (count : nat) (r : MeshRouter) : list ExitPath :=
  multi_loop r count [] [] (default [] (findAllPathsToExits (graph r) (localNodeId r) (count * 2) [])).

Definition getNextHop (dst : jstr) (r : MeshRouter) : option jstr :=
  if hasEdge (graph r) (localNodeId r) dst then Some dst
  else match found (findShortestPath (graph r) (localNodeId r) dst []) with
       | Some (_ :: h :: _) => Some h
       | _ => None
       end.

Definition setExitNodePreference (exitNodeId : jstr) (preference : Z) (r : MeshRouter) : MeshRouter :=
  MkRouter (localNodeId r) (graph r) (routeCache r) (routeCacheTTL r)
    (om_set exitNodeId preference (exitNodePreference r)) (activeRoutes r) (updateTimer r).

(** [preference - hops], [None] when there is no path. *)
Definition exit_score (r : MeshRouter) (n : Node) : option Z :=
  match found (findShortestPath (graph r) (localNodeId r) (n_nodeId n) []) with
  | Some path => Some (js_or (om_get (n_nodeId n) (exitNodePreference r)) 0 - (Z.of_nat (length path) - 1))
  | None => None
  end.

(** [bestScore] starts at -Infinity ([None]). *)
Definition selectBestExitNode (r : MeshRouter) : option jstr :=
  fst <$> foldl (λ best n,
    match exit_score r n with
    | Some score =>
        match best with
        | Some (_, bestScore) => if bestScore <? score then Some (n_nodeId n, score) else best
        | None => Some (n_nodeId n, score)
        end
    | None => best
    end) None (getExitNodes (graph r)).

(** [{ nodeId, virtualIp, hops }] *)
Definition getReachableExitNodes (r : MeshRouter) : list (jstr * option jstr * Z) :=
  js_sort snd (base.omap (λ n,
    match found (findShortestPath (graph r) (localNodeId r) (n_nodeId n) []) with
    | Some path => Some (n_nodeId n, n_virtualIp n, Z.of_nat (length path) - 1)
    | None => None
    end) (getExitNodes (graph r))).

Definition getCachedRoute (now : Z) (key : jstr) (r : MeshRouter) : option (list jstr) * MeshRouter :=
  match om_get key (routeCache r) with
  | Some (data, timestamp) =>
      if now - timestamp <? routeCacheTTL r then (Some data, r)
      else (None, with_cache r (om_delete key (routeCache r)))
  | None => (None, with_cache r (om_delete key (routeCache r)))
  end.
Definition cacheRoute (now : Z) (key : jstr) (data : list jstr) (r : MeshRouter) : MeshRouter :=
  with_cache r (om_set key (data, now) (routeCache r)).

Definition getConnectedPeers (r : MeshRouter) : list jstr := getNeighbors (graph r) (localNodeId r).
Definition getGraphStats (r : MeshRouter) : nat * nat * nat * nat * nat :=
  (om_size (nodes (graph r)), length (getExitNodes (graph r)), length (getRelayNodes (graph r)),
   length (getClientNodes (graph r)), length (getConnectedPeers r)).

(** ** What validation accepts *)

Lemma validate_loop_valid local route : ∀ i seen,
  validate_loop local i seen route = Valid ↔
    Forall (λ n, n ≠ []) route ∧ NoDup route ∧ (∀ x, x ∈ route → x ∉ seen) ∧
    local ∉ (if (i =? 0)%nat then tail route else route).
Proof.
  induction route as [|n route IH]; intros i seen; simpl.
  { split; [|done]. intros _. split_and!; [constructor|constructor|set_solver|by destruct i; apply not_elem_of_nil]. }
  case_bool_decide as Hn; [split; [done|]; intros (Hfr & _); apply Forall_cons in Hfr as [? _]; done|].
  destruct (os_has n seen) eqn:Es.
  { apply os_has_true in Es. split; [done|]. intros (_ & _ & Hfr & _). exfalso. apply (Hfr n); [by left|done]. }
  apply os_has_false in Es. rewrite NoDup_cons Forall_cons.
  case_bool_decide as Hloc; cbn [andb].
  - subst. destruct i as [|i]; cbn [Nat.eqb negb].
    + rewrite IH. cbn [Nat.eqb]. split.
      * intros (? & ? & Hfr & ?). split_and!; try done.
        intros x [->|Hin]%elem_of_cons; [done|]. intros Hs. apply (Hfr x Hin), os_elem_add. by right.
      * intros ((_ & ?) & (? & ?) & Hfr & ?). split_and!; try done. intros x Hin [->|Hs]%os_elem_add; [done|].
        apply (Hfr x); [by right|done].
    + split; [done|]. intros (_ & _ & _ & Hfr). exfalso. apply Hfr. by left.
  - rewrite IH. cbn [Nat.eqb]. split.
    + intros (? & ? & Hfr & Hl). split_and!; try done.
      * intros Hin. apply (Hfr n Hin), os_elem_add. by left.
      * intros x [->|Hin]%elem_of_cons; [done|]. intros Hs. apply (Hfr x Hin), os_elem_add. by right.
      * destruct i; [done|]. cbn [Nat.eqb]. by apply not_elem_of_cons.
    + intros ((_ & ?) & (? & ?) & Hfr & Hl). split_and!; try done.
      * intros x Hin [->|Hs]%os_elem_add; [done|]. apply (Hfr x); [by right|done].
      * destruct i; [done|]. cbn [Nat.eqb] in Hl. by apply not_elem_of_cons in Hl as [_ ?].
Qed.

(** The routes the validation accepts. *)
Definition route_ok (local : jstr) (route : list jstr) : Prop :=
  route ≠ [] ∧ Forall (λ n, n ≠ []) route ∧ NoDup route ∧ local ∉ tail route.

Lemma isRouteValid_spec r route : isRouteValid r route = true ↔ route_ok (localNodeId r) route.
Proof.
  unfold isRouteValid, route_ok, validateRoute. destruct route as [|n route].
  { split; [done|]. by intros [? _]. }
  pose proof (validate_loop_valid (localNodeId r) (n :: route) 0 []) as H.
  set (v := validate_loop (localNodeId r) 0 [] (n :: route)) in *. clearbody v.
  assert (match v with Valid => true | _ => false end = true ↔ v = Valid) as -> by by destruct v.
  rewrite H. split; [by intros (? & ? & _ & ?)|]. intros (_ & ? & ? & ?). split_and!; try done.
  intros ? _. apply not_elem_of_nil.
Qed.

(** ** The table of active routes *)

(** An entry leads from the local node to its exit without a repeated node. *)
Definition entry_ok (local : jstr) (a : ActiveRoute) : Prop :=
  ar_route a ≠ [] ∧ NoDup (local :: ar_route a) ∧ last (ar_route a) = Some (ar_exitNode a).
Definition routes_ok (r : MeshRouter) : Prop :=
  ∀ k a, om_get k (activeRoutes r) = Some a → entry_ok (localNodeId r) a.

(** A path found by the graph, as the entry the router stores. *)
Lemma path_entry g excl from to x y p l t un :
  good_path g excl from to (x :: y :: p) → entry_ok from (MkRoute (y :: p) to l t un) ∧ x = from.
Proof.
  intros (route & [= -> <-] & Hnd & Hl & _ & _). split; [|done]. split_and!; [done|done|exact Hl].
Qed.

Lemma short_path g excl from to p :
  good_path g excl from to p → to ≠ from → ∃ x y q, p = x :: y :: q.
Proof.
  intros (route & -> & _ & Hl & _) Hne. destruct route as [|y q]; [simpl in Hl; by simplify_eq|by eexists _, _, _].
Qed.

(** What a rebuild stores for one exit node. *)
Definition direct_route (now : Z) (excl : list jstr) (r : MeshRouter) (id : jstr) : option ActiveRoute :=
  match found (findShortestPathWeighted (graph r) (localNodeId r) id excl) with
  | Some ((_ :: (_ :: _)) as route) => Some (MkRoute (tail route) id None now false)
  | _ => None
  end.
Definition any_route (now : Z) (excl : list jstr) (r : MeshRouter) : option ActiveRoute :=
  match found (findPathToNearestExitWeighted (graph r) (localNodeId r) excl) with
  | Some ((_ :: (_ :: _)) as path, exitNode, latency) =>
      Some (MkRoute (tail path) exitNode (Some latency) now false)
  | _ => None
  end.

Lemma rebuild_any_get now excl r k :
  om_get k (activeRoutes (rebuild_any now excl r)) =
    if decide (k = exit_any) then any_route now excl r else om_get k (activeRoutes r).
Proof.
  unfold rebuild_any, any_route. destruct (found _) as [[[[|x [|y p]] e] l]|]; cbn [activeRoutes with_routes];
    rewrite ?om_get_delete ?om_get_set; done.
Qed.

Lemma rebuild_exit_get now excl r n k :
  om_get k (activeRoutes (rebuild_exit now excl r n)) =
    if decide (k = exit_key (n_nodeId n)) then direct_route now excl r (n_nodeId n)
    else om_get k (activeRoutes r).
Proof.
  unfold rebuild_exit, direct_route. destruct (found _) as [[|x [|y p]]|]; cbn [activeRoutes with_routes];
    rewrite ?om_get_delete ?om_get_set; done.
Qed.

Definition same_base (r r' : MeshRouter) : Prop :=
  graph r' = graph r ∧ localNodeId r' = localNodeId r.

Lemma rebuild_any_base now excl r : same_base r (rebuild_any now excl r).
Proof. unfold rebuild_any. destruct (found _) as [[[[|x [|y p]] e] l]|]; done. Qed.

Lemma rebuild_exit_base now excl r n : same_base r (rebuild_exit now excl r n).
Proof. unfold rebuild_exit. destruct (found _) as [[|x [|y p]]|]; done. Qed.

Lemma rebuild_exits_get now excl l : ∀ r k,
  let r' := foldl (rebuild_exit now excl) r l in
  same_base r r' ∧
  ((∃ n, n ∈ l ∧ k = exit_key (n_nodeId n) ∧
     om_get k (activeRoutes r') = direct_route now excl r (n_nodeId n)) ∨
   ((∀ n, n ∈ l → k ≠ exit_key (n_nodeId n)) ∧ om_get k (activeRoutes r') = om_get k (activeRoutes r))).
Proof.
  induction l as [|n l IH]; intros r k; cbn [foldl].
  { split; [done|]. right. split; [|done]. intros n Hn. by apply elem_of_nil in Hn. }
  destruct (IH (rebuild_exit now excl r n) k) as [Hb Hk].
  destruct (rebuild_exit_base now excl r n) as [Hg Hl]. destruct Hb as [Hg' Hl'].
  split; [split; congruence|]. rewrite rebuild_exit_get in Hk.
  assert (∀ id, direct_route now excl (rebuild_exit now excl r n) id = direct_route now excl r id) as Hd.
  { intros id. unfold direct_route. by rewrite Hg Hl. }
  destruct Hk as [(m & Hm & -> & Hk)|[Hno Hk]].
  - left. exists m. split; [by right|]. split; [done|]. by rewrite Hk Hd.
  - case_decide as Hn.
    + left. exists n. split; [by left|]. done.
    + right. split; [|done]. intros m [->|Hm]%elem_of_cons; [done|by apply Hno].
Qed.

(** After a rebuild: the entry of an exit node of the graph, the entry of the
    nearest exit, and every other entry as it was. *)
Lemma rebuild_get now r k :
  let r' := rebuildActiveRoutes now r in
  same_base r r' ∧
  ((∃ n, n ∈ getExitNodes (graph r) ∧ k = exit_key (n_nodeId n) ∧
     om_get k (activeRoutes r') = direct_route now (getTurnRelayIds r) r (n_nodeId n)) ∨
   ((∀ n, n ∈ getExitNodes (graph r) → k ≠ exit_key (n_nodeId n)) ∧
    om_get k (activeRoutes r') = if decide (k = exit_any) then any_route now (getTurnRelayIds r) r
                                 else om_get k (activeRoutes r))).
Proof.
  intros r'. unfold r', rebuildActiveRoutes.
  destruct (rebuild_exits_get now (getTurnRelayIds r) (getExitNodes (graph r))
    (rebuild_any now (getTurnRelayIds r) r) k) as [[Hg Hl] Hk].
  destruct (rebuild_any_base now (getTurnRelayIds r) r) as [Hg' Hl'].
  split; [split; congruence|]. rewrite rebuild_any_get in Hk.
  destruct Hk as [(n & Hn & -> & Hk)|[Hno Hk]]; [left|right; done].
  exists n. split; [done|]. split; [done|]. rewrite Hk. unfold direct_route. by rewrite Hg' Hl'.
Qed.

Lemma exit_key_inj a b : exit_key a = exit_key b → a = b.
Proof. unfold exit_key. apply (inj (app _)). Qed.

(** What the stored entries are. *)
Lemma direct_route_ok now excl r id :
  id ≠ localNodeId r →
  match direct_route now excl r id with
  | Some a => entry_ok (localNodeId r) a ∧ ar_exitNode a = id ∧ ar_unavailable a = false ∧
      good_path (graph r) excl (localNodeId r) id (localNodeId r :: ar_route a) ∧
      ∃ W, route_walk (graph r) excl (localNodeId r) (localNodeId r :: ar_route a) id W ∧
        ∀ q W', route_walk (graph r) excl (localNodeId r) q id W' → W <= W'
  | None => hasNode (graph r) id = true → ∀ q W, ¬ route_walk (graph r) excl (localNodeId r) q id W
  end.
Proof.
  intros Hne. unfold direct_route.
  destruct (weighted_total (graph r) (localNodeId r) id excl) as [res Hres]. rewrite Hres. simpl.
  pose proof (weighted_found _ _ _ _ _ Hres ltac:(done)) as Hf. destruct res as [p|]; [|done].
  destruct Hf as [Hgp HW]. destruct (short_path _ _ _ _ _ Hgp Hne) as (x & y & q & ->).
  destruct (path_entry _ _ _ _ _ _ _ None now false Hgp) as [He ->]. exact (conj He (conj eq_refl (conj eq_refl (conj Hgp HW)))).
Qed.

Lemma any_route_ok now excl r a :
  any_route now excl r = Some a →
  entry_ok (localNodeId r) a ∧ ar_unavailable a = false ∧ is_exit (graph r) (ar_exitNode a) = true ∧
  good_path (graph r) excl (localNodeId r) (ar_exitNode a) (localNodeId r :: ar_route a).
Proof.
  unfold any_route. destruct (findPathToNearestExitWeighted _ _ _) as [[[[p e] l]|]|] eqn:E; [|done|done].
  cbn [default from_option id]. destruct p as [|x [|y p]]; [done|done|]. intros [= <-].
  destruct (nearest_found _ _ _ _ _ _ E) as (Hgp & He & _ & _).
  destruct (path_entry _ _ _ _ _ _ _ (Some l) now false Hgp) as [Hok ->]. exact (conj Hok (conj eq_refl (conj He Hgp))).
Qed.

(** C14: after a rebuild the entry of every exit node of the graph is a path of least
    latency from the local node that enters no TURN-relayed relay, available and
    ending at that exit, and there is no entry exactly when no such path exists; the
    [exit:any] entry leads to an exit node. *)
Theorem rebuildActiveRoutes_correct (now : Z) (r : MeshRouter) (n : Node) :
  n ∈ getExitNodes (graph r) → n_nodeId n ≠ localNodeId r → hasNode (graph r) (n_nodeId n) = true →
  let r' := rebuildActiveRoutes now r in
  let excl := getTurnRelayIds r in
  let id := n_nodeId n in
  match om_get (exit_key id) (activeRoutes r') with
  | Some a => ar_exitNode a = id ∧ ar_unavailable a = false ∧ NoDup (localNodeId r :: ar_route a) ∧
      ∃ W, route_walk (graph r) excl (localNodeId r) (localNodeId r :: ar_route a) id W ∧
        ∀ q W', route_walk (graph r) excl (localNodeId r) q id W' → W <= W'
  | None => ∀ q W, ¬ route_walk (graph r) excl (localNodeId r) q id W
  end ∧
  ((∀ m, m ∈ getExitNodes (graph r) → n_nodeId m ≠ js "any") →
   ∀ a, om_get exit_any (activeRoutes r') = Some a → is_exit (graph r) (ar_exitNode a) = true ∧
     good_path (graph r) excl (localNodeId r) (ar_exitNode a) (localNodeId r :: ar_route a)).
Proof.
  intros Hn Hne Hhas r' excl x. split.
  - destruct (rebuild_get now r (exit_key x)) as [_ [(m & Hm & Hk%exit_key_inj & Hget)|[Hno _]]];
      [|by destruct (Hno n Hn)]. rewrite -/r' -Hk in Hget. rewrite Hget.
    pose proof (direct_route_ok now excl r x Hne) as Hd. unfold excl in *. destruct (direct_route _ _ _ _) as [a|].
    + destruct Hd as ((_ & Hnd & _) & He & Hu & _ & HW). exact (conj He (conj Hu (conj Hnd HW))).
    + by apply Hd.
  - intros Hany a Ha. destruct (rebuild_get now r exit_any) as [_ [(m & Hm & Hk & _)|[_ Hget]]].
    + exfalso. apply (Hany m Hm). by apply (exit_key_inj (js "any")) in Hk.
    + rewrite -/r' Ha in Hget. cbn [decide] in Hget. destruct (any_route_ok now excl r a) as (_ & _ & ? & ?); done.
Qed.

(** ** Histories of a router *)

Lemma direct_route_self now excl r : direct_route now excl r (localNodeId r) = None.
Proof.
  unfold direct_route, findShortestPathWeighted. destruct (om_has _ _); [|done]. cbn [negb].
  by rewrite bool_decide_true.
Qed.

Lemma rebuild_routes_ok now r : routes_ok r → routes_ok (rebuildActiveRoutes now r).
Proof.
  intros Hok k a Ha. destruct (rebuild_get now r k) as [[_ Hl] Hk]. rewrite Hl.
  rewrite Ha in Hk. destruct Hk as [(n & _ & _ & Hk)|[_ Hk]].
  - destruct (decide (n_nodeId n = localNodeId r)) as [E|Hne]; [by rewrite E direct_route_self in Hk|].
    pose proof (direct_route_ok now (getTurnRelayIds r) r _ Hne) as Hd. rewrite -Hk in Hd. apply Hd.
  - case_decide; [|by apply (Hok k)]. by destruct (any_route_ok now (getTurnRelayIds r) r a).
Qed.

(** An update that leaves the routes alone. *)
Lemma routes_ok_same r r' :
  activeRoutes r' = activeRoutes r → localNodeId r' = localNodeId r → routes_ok r → routes_ok r'.
Proof. intros Ha Hl Hok k a. rewrite Ha Hl. apply Hok. Qed.

Lemma om_get_map {V} (f : jstr → V → V) (m : omap jstr V) k :
  om_get k ((λ e, (e.1, f e.1 e.2)) <$> m) = f k <$> om_get k m.
Proof. induction m as [|[k' v] m IH]; [done|]. simpl. case_decide; [by subst|exact IH]. Qed.

Definition maybe_mark (peerId : jstr) (a : ActiveRoute) : ActiveRoute :=
  if bool_decide (peerId ∈ ar_route a) then mark_unavailable a else a.

Lemma marked_get peerId (m : omap jstr ActiveRoute) k :
  om_get k ((λ e, if bool_decide (peerId ∈ ar_route e.2) then (e.1, mark_unavailable e.2) else e) <$> m) =
    maybe_mark peerId <$> om_get k m.
Proof.
  rewrite -(om_get_map (λ _, maybe_mark peerId)). f_equal. apply list_fmap_ext.
  intros _ [x a] _. unfold maybe_mark. simpl. by case_bool_decide.
Qed.

Lemma disconnected_routes_ok now p r : routes_ok r → routes_ok (handlePeerDisconnectedRoutes now p r).
Proof.
  intros Hok. unfold handlePeerDisconnectedRoutes. set (r1 := with_routes r _).
  assert (routes_ok r1) as H1.
  { intros k a. unfold r1. cbn [activeRoutes with_routes localNodeId]. rewrite marked_get.
    destruct (om_get k (activeRoutes r)) as [b|] eqn:E; [|done]. intros [= <-].
    specialize (Hok k b E). unfold maybe_mark. by case_bool_decide. }
  case_match; [by apply rebuild_routes_ok|done].
Qed.

Inductive router_op :=
  | RStart (now : Z)
  | RTopology (now : Z) (t : omap jstr TopoInfo)
  | RConnect (now : Z) (peerId : jstr) (info : NodeOpts)
  | RDisconnect (now : Z) (peerId : jstr)
  | RMetrics (now : Z) (peerId : jstr) (m : EdgeMetrics)
  | RTimer (now : Z)
  | RFind (now : Z) (preferred : option jstr)
  | RPreference (exitNodeId : jstr) (preference : Z)
  | RStop.

Definition router_apply (r : MeshRouter) (o : router_op) : MeshRouter :=
  match o with
  | RStart now => router_start now r
  | RTopology now t => updateTopology now t r
  | RConnect now p info => addLocalConnection now p info r
  | RDisconnect now p => removeLocalConnection now p r
  | RMetrics now p m => router_updateEdgeMetrics now p m r
  | RTimer now => rebuildActiveRoutes now r
  | RFind now p => (findRouteToExit now p r).2
  | RPreference e p => setExitNodePreference e p r
  | RStop => router_stop r
  end.

Definition router_run (local : jstr) (ttl : option Z) (ops : list router_op) : MeshRouter :=
  foldl router_apply (router_new local ttl) ops.

(** The route a search answers with, and the table afterwards. *)
Lemma find_any_ok now r : routes_ok r →
  routes_ok (find_any now r).2 ∧ same_base r (find_any now r).2 ∧
  ∀ route e, (find_any now r).1 = Some (route, e) →
    isRouteValid r route = true ∧ NoDup (localNodeId r :: route) ∧ last route = Some e.
Proof.
  intros Hok. unfold find_any. destruct (findPathToNearestExitWeighted _ _ _) as [[[[p e] l]|]|] eqn:E; cbn [default from_option id];
    [|split_and!; done|split_and!; done].
  destruct p as [|x [|y p]]; [split_and!; done|split_and!; done|]. cbn [tail].
  destruct (nearest_found _ _ _ _ _ _ E) as (Hgp & _).
  destruct (path_entry _ _ _ _ _ _ _ (Some l) now false Hgp) as [(Hne & Hnd & Hl) ->]. cbn [ar_route ar_exitNode] in *.
  destruct (isRouteValid r (y :: p)) eqn:Ev; [|split_and!; done]. cbn [fst snd]. split_and!; [|done..|].
  - intros k a. cbn [activeRoutes with_routes localNodeId]. rewrite om_get_set. case_decide; [|apply Hok].
    intros [= <-]. exact (conj Hne (conj Hnd Hl)).
  - intros route' e' [= <- <-]. exact (conj Ev (conj Hnd Hl)).
Qed.

Lemma findRouteToExit_ok now pref r : routes_ok r →
  routes_ok (findRouteToExit now pref r).2 ∧ same_base r (findRouteToExit now pref r).2 ∧
  ∀ route e, (findRouteToExit now pref r).1 = Some (route, e) →
    isRouteValid r route = true ∧ NoDup (localNodeId r :: route) ∧ last route = Some e.
Proof.
  intros Hok. pose proof (find_any_ok now r Hok) as Hany. unfold findRouteToExit.
  set (key := exit_key _). set (fb := match str_or_null pref with Some _ => _ | None => _ end).
  assert (routes_ok fb.2 ∧ same_base r fb.2 ∧ ∀ route e, fb.1 = Some (route, e) →
    isRouteValid r route = true ∧ NoDup (localNodeId r :: route) ∧ last route = Some e) as Hfb.
  { unfold fb. clearbody key. clear fb. destruct (str_or_null pref) as [p|]; [|done].
    destruct (decide (p = localNodeId r)) as [->|Hne].
    { assert (∀ x y q, found (findShortestPathWeighted (graph r) (localNodeId r) (localNodeId r) []) ≠ Some (x :: y :: q)) as Hno.
      { intros x y q. unfold findShortestPathWeighted. destruct (om_has _ _); [|done]. cbn [negb]. by rewrite bool_decide_true. }
      destruct (found _) as [[|x [|y q]]|]; try done. by destruct (Hno x y q). }
    destruct (weighted_total (graph r) (localNodeId r) p []) as [res Hres]. rewrite Hres. cbn [default from_option id].
    pose proof (weighted_found _ _ _ _ _ Hres ltac:(done)) as Hf.
    destruct res as [[|x [|y q]]|]; [done|done| |done]. destruct Hf as [Hgp _]. cbn [tail].
    destruct (path_entry _ _ _ _ _ _ _ None now false Hgp) as [(H1 & Hnd & Hl) ->]. cbn [ar_route ar_exitNode] in *.
    destruct (isRouteValid r (y :: q)) eqn:Ev; [|done]. cbn [fst snd]. split_and!; [|done..|].
    - intros k a. cbn [activeRoutes with_routes localNodeId]. rewrite om_get_set. case_decide; [|apply Hok].
      intros [= <-]. exact (conj H1 (conj Hnd Hl)).
    - intros route' e' [= <- <-]. exact (conj Ev (conj Hnd Hl)). }
  clearbody fb. destruct (om_get key (activeRoutes r)) as [a|] eqn:Ea; [|done].
  destruct (negb (ar_unavailable a) && isRouteValid r (ar_route a)) eqn:Eb; [|done].
  apply andb_true_iff in Eb as [_ Ev]. cbn [fst snd]. split_and!; [done|done..|].
  intros route e [= <- <-]. destruct (Hok key a Ea) as (_ & ? & ?). done.
Qed.

Lemma router_apply_ok r o : routes_ok r →
  routes_ok (router_apply r o) ∧ localNodeId (router_apply r o) = localNodeId r.
Proof.
  intros Hok.
  assert (∀ now r', localNodeId (rebuildActiveRoutes now r') = localNodeId r') as Hl.
  { intros now r'. by destruct (rebuild_get now r' []) as [[_ ?] _]. }
  destruct o as [now|now t|now p info|now p|now p m|now|now p|e p|]; cbn [router_apply].
  - split; [|by etrans; [apply Hl|]]. apply rebuild_routes_ok. by refine (routes_ok_same r _ _ _ Hok).
  - split; [|by etrans; [apply Hl|]]. apply rebuild_routes_ok. by refine (routes_ok_same r _ _ _ Hok).
  - split; [|by etrans; [apply Hl|]]. apply rebuild_routes_ok. by refine (routes_ok_same r _ _ _ Hok).
  - split; [apply disconnected_routes_ok; by refine (routes_ok_same r _ _ _ Hok)|].
    unfold removeLocalConnection, handlePeerDisconnectedRoutes. case_match; [by rewrite Hl|done].
  - split; [by refine (routes_ok_same r _ _ _ Hok)|done].
  - split; [by apply rebuild_routes_ok|by apply Hl].
  - destruct (findRouteToExit_ok now p r Hok) as (H1 & [_ H2] & _). done.
  - split; [by refine (routes_ok_same r _ _ _ Hok)|done].
  - split; [by refine (routes_ok_same r _ _ _ Hok)|done].
Qed.

Lemma router_run_ok local ttl ops :
  routes_ok (router_run local ttl ops) ∧ localNodeId (router_run local ttl ops) = local.
Proof.
  unfold router_run. assert (routes_ok (router_new local ttl) ∧ localNodeId (router_new local ttl) = local) as H0 by done.
  revert H0. generalize (router_new local ttl). induction ops as [|o ops IH]; intros r [Hok Hl]; [done|].
  cbn [foldl]. apply IH. destruct (router_apply_ok r o Hok) as [? ->]. done.
Qed.

(** C4: in every history of connects, disconnects, topology updates, timer ticks and
    queries, a route that [findRouteToExit] returns is accepted by the validation,
    visits no node twice, does not pass through the local node and ends at the exit
    node returned with it. *)
Theorem findRouteToExit_sound local ttl ops now pref route e :
  let r := router_run local ttl ops in
  (findRouteToExit now pref r).1 = Some (route, e) →
  validateRoute r route = Valid ∧ NoDup (local :: route) ∧ last route = Some e.
Proof.
  intros r H. destruct (router_run_ok local ttl ops) as [Hok Hl].
  destruct (findRouteToExit_ok now pref r Hok) as (_ & _ & Hf). destruct (Hf route e H) as (Hv & Hnd & Hlast).
  rewrite -Hl. split_and!; [|done|done]. unfold isRouteValid in Hv. by destruct (validateRoute r route).
Qed.

(** A relay chain to an exit, and the connection it starts with. *)
Definition demo_ops : list router_op :=
  [RTopology 1 demo_topology; RConnect 2 (js "a") (MkNodeOpts None None None None)].

Lemma findRouteToExit_sound_witness :
  let r := router_run (js "b") None demo_ops in
  (findRouteToExit 9 None r).1 = Some ([js "a"; js "c"], js "c") ∧
  (validateRoute r [js "a"; js "c"] = Valid ∧ NoDup [js "b"; js "a"; js "c"] ∧
   last [js "a"; js "c"] = Some (js "c")).
Proof.
  intros r. assert ((findRouteToExit 9 None r).1 = Some ([js "a"; js "c"], js "c")) as H by (by vm_compute).
  split; [exact H|]. exact (findRouteToExit_sound (js "b") None demo_ops 9 None _ _ H).
Defined.

(** after a direct connection is lost, no available active route starts with the
    lost peer, whatever happened before: the routes through it are recomputed
    without the edge or marked unavailable. *)
Theorem removeLocalConnection_reroutes local ttl ops now p k a :
  om_get k (activeRoutes (removeLocalConnection now p (router_run local ttl ops))) = Some a →
  ar_unavailable a = false → head (ar_route a) ≠ Some p.
Proof.
  intros Ha Hu. set (r := router_run local ttl ops) in *. unfold removeLocalConnection in Ha.
  set (r1 := invalidateRouteCache _) in Ha.
  assert (p ∉ getNeighbors (graph r1) (localNodeId r1)) as Hedge.
  { unfold r1. cbn. rewrite neighbors_removeEdge. naive_solver. }
  assert (∀ b, maybe_mark p b = a → head (ar_route a) ≠ Some p) as Hmark.
  { intros b <- Hh. unfold maybe_mark in *. case_bool_decide as Hin; [done|]. apply Hin.
    destruct (ar_route b); simplify_eq/=. by left. }
  clearbody r1. unfold handlePeerDisconnectedRoutes in Ha. set (r2 := with_routes r1 _) in Ha.
  assert (om_get k (activeRoutes r2) = Some a → head (ar_route a) ≠ Some p) as Hold.
  { unfold r2. cbn [activeRoutes with_routes]. rewrite marked_get.
    destruct (om_get k (activeRoutes r1)) as [b|]; [|done]. intros [= Hb]. by apply (Hmark b). }
  case_match; [|by apply Hold].
  assert (graph r2 = graph r1 ∧ localNodeId r2 = localNodeId r1) as [Eg El] by done. clearbody r2.
  assert (∀ excl to, good_path (graph r2) excl (localNodeId r2) to (localNodeId r2 :: ar_route a) →
    head (ar_route a) ≠ Some p) as Hgp.
  { intros excl to (route & [= ->] & _ & _ & _ & Hh) E. destruct route as [|h q]; [done|]. simplify_eq/=.
    apply Hedge. rewrite -Eg -El. by destruct (Hh p q eq_refl). }
  destruct (rebuild_get now r2 k) as [_ Hk]. rewrite Ha in Hk. destruct Hk as [(n & _ & _ & Hk)|[_ Hk]].
  - destruct (decide (n_nodeId n = localNodeId r2)) as [E|Hne]; [by rewrite E direct_route_self in Hk|].
    pose proof (direct_route_ok now (getTurnRelayIds r2) r2 _ Hne) as Hd. rewrite -Hk in Hd.
    destruct Hd as (_ & _ & _ & Hg & _). by eapply Hgp.
  - case_decide; [|by apply Hold]. destruct (any_route_ok now (getTurnRelayIds r2) r2 a) as (_ & _ & _ & Hg); [done|].
    by eapply Hgp.
Qed.

Lemma removeLocalConnection_reroutes_witness :
  let r := router_run (js "b") None
    (demo_ops ++ [RTopology 3 [(js "b", MkTopo None None [js "a"; js "d"]);
       (js "d", MkTopo (Some (js "relay")) None [js "b"; js "c"]);
       (js "a", MkTopo (Some (js "relay")) None [js "b"; js "c"]);
       (js "c", MkTopo (Some (js "exit")) None [js "a"; js "d"])]]) in
  let r' := removeLocalConnection 9 (js "a") r in
  ∃ a, om_get exit_any (activeRoutes r') = Some a ∧ ar_unavailable a = false ∧
    ar_route a = [js "d"; js "c"] ∧ head (ar_route a) ≠ Some (js "a").
Proof.
  intros r r'. eexists. split; [by vm_compute|]. split; [reflexivity|]. split; [reflexivity|].
  apply (removeLocalConnection_reroutes (js "b") None (demo_ops ++ [RTopology 3
    [(js "b", MkTopo None None [js "a"; js "d"]);
     (js "d", MkTopo (Some (js "relay")) None [js "b"; js "c"]);
     (js "a", MkTopo (Some (js "relay")) None [js "b"; js "c"]);
     (js "c", MkTopo (Some (js "exit")) None [js "a"; js "d"])]]) 9 (js "a") exit_any); [by vm_compute|reflexivity].
Defined.

(** [selectBestExitNode] returns an exit node with the best score (preference
    minus hops of a shortest path), and [null] only when no exit node has a path. *)
Theorem selectBestExitNode_best (r : MeshRouter) :
  match selectBestExitNode r with
  | Some id => ∃ n s, n ∈ getExitNodes (graph r) ∧ id = n_nodeId n ∧ exit_score r n = Some s ∧
      ∀ m s', m ∈ getExitNodes (graph r) → exit_score r m = Some s' → s' <= s
  | None => ∀ m, m ∈ getExitNodes (graph r) → exit_score r m = None
  end.
Proof.
  unfold selectBestExitNode. set (f := λ (best : option (jstr * Z)) n, _).
  enough (∀ l D best, (match best with
      | Some (id, s) => ∃ n, n ∈ D ∧ id = n_nodeId n ∧ exit_score r n = Some s ∧
          ∀ m s', m ∈ D → exit_score r m = Some s' → s' <= s
      | None => ∀ m, m ∈ D → exit_score r m = None end) →
    match foldl f best l with
    | Some (id, s) => ∃ n, n ∈ D ++ l ∧ id = n_nodeId n ∧ exit_score r n = Some s ∧
        ∀ m s', m ∈ D ++ l → exit_score r m = Some s' → s' <= s
    | None => ∀ m, m ∈ D ++ l → exit_score r m = None end) as H.
  { specialize (H (getExitNodes (graph r)) [] None ltac:(intros m Hm; by apply elem_of_nil in Hm)).
    destruct (foldl f None _) as [[id s]|]; simpl in *; [|done]. destruct H as (n & ? & ? & ? & ?). by exists n, s. }
  intros l. induction l as [|n l IH]; intros D best Hb; [by rewrite app_nil_r|]. cbn [foldl].
  replace (D ++ n :: l) with ((D ++ [n]) ++ l) by by rewrite -(assoc_L (++)).
  apply IH. unfold f. destruct (exit_score r n) as [sc|] eqn:E.
  - destruct best as [[id s]|].
    + destruct Hb as (n0 & Hn0 & -> & Hs & Hmax). destruct (Z.ltb_spec s sc).
      * exists n. split_and!; [set_solver|done|done|].
        intros m s' [Hm| ->%list_elem_of_singleton]%elem_of_app Hs'; [specialize (Hmax m s' Hm Hs'); lia|simplify_eq; lia].
      * exists n0. split_and!; [set_solver|done|done|].
        intros m s' [Hm| ->%list_elem_of_singleton]%elem_of_app Hs'; [by apply (Hmax m)|simplify_eq; lia].
    + exists n. split_and!; [set_solver|done|done|].
      intros m s' [Hm| ->%list_elem_of_singleton]%elem_of_app Hs'; [by rewrite (Hb m Hm) in Hs'|simplify_eq; lia].
  - destruct best as [[id s]|].
    + destruct Hb as (n0 & Hn0 & -> & Hs & Hmax). exists n0. split_and!; [set_solver|done|done|].
      intros m s' [Hm| ->%list_elem_of_singleton]%elem_of_app Hs'; [by apply (Hmax m)|by simplify_eq].
    + intros m [Hm| ->%list_elem_of_singleton]%elem_of_app; [by apply Hb|done].
Qed.

(** ** Two behaviours to know *)

(** A route to an exit node that left the topology stays in the table and is handed
    out: the rebuild only visits the exit nodes the graph still has. *)
Example stale_exit_route :
  let r := router_run (js "b") None
    (demo_ops ++ [RTopology 3 [(js "b", MkTopo None None [js "a"]); (js "a", MkTopo None None [js "b"])]]) in
  hasNode (graph r) (js "c") = false ∧
  (findRouteToExit 9 (Some (js "c")) r).1 = Some ([js "a"; js "c"], js "c").
Proof. by vm_compute. Qed.

(** The fallback search of [findRouteToExit] does not exclude the TURN-relayed relays
    the rebuild excludes. *)
Example fallback_through_turn_relay :
  let r := router_run (js "b") None
    [RTopology 1 [(js "b", MkTopo None None [js "a"]); (js "a", MkTopo (Some (js "relay")) None [js "b"; js "c"]);
                  (js "c", MkTopo (Some (js "exit")) None [js "a"])];
     RMetrics 2 (js "a") (MkMetrics None (Some true) 0); RTimer 3] in
  om_get exit_any (activeRoutes r) = None ∧
  (findRouteToExit 9 None r).1 = Some ([js "a"; js "c"], js "c").
Proof. by vm_compute. Qed.

Lemma rebuildActiveRoutes_correct_witness :
  let r := router_run (js "b") None demo_ops in
  ∃ n a, n ∈ getExitNodes (graph r) ∧
    om_get (exit_key (n_nodeId n)) (activeRoutes (rebuildActiveRoutes 9 r)) = Some a ∧
    ar_exitNode a = n_nodeId n.
Proof.
  intros r. set (n := MkNode (js "c") (Some (js "exit")) None None 1 true).
  assert (n ∈ getExitNodes (graph r)) as Hn by (apply (bool_decide_unpack _); by vm_compute).
  assert (n_nodeId n ≠ localNodeId r) as Hne by (by vm_compute).
  assert (hasNode (graph r) (n_nodeId n) = true) as Hhas by (by vm_compute).
  destruct (rebuildActiveRoutes_correct 9 r n Hn Hne Hhas) as [H _].
  exists n. eexists. split; [exact Hn|]. split; [by vm_compute|]. reflexivity.
Defined.
