(* ===== verification/Scheduler.v ===== *)
(** * Multipath scheduling (src/core/scheduler.js)

    [MultipathScheduler] spreads packets over the exit paths; [ReorderBuffer]
    removes the duplicates on the receiving side.  Weights and averages are
    rationals (JavaScript doubles without rounding); [Math.random()] and
    [Date.now()] are arguments.  A path is [{ route, exitNode, hops }], what
    [findMultiplePaths] returns, so [_getPathKey] always takes its first
    branch. *)

From Stdlib Require Import QArith Qminmax.
From S2P Require Import Prelude JsMap Bytes JsString Search Graph.
Local Open Scope Z_scope.
#[local] Unset Default Proof Using.

Record PathStats := MkStats { st_sent : Z; st_acked : Z; st_lost : Z; st_latency : list Z }.
Definition stats_zero : PathStats := MkStats 0 0 0 [].

Inductive strategy := RoundRobin | Weighted | LowestLatency | OtherStrategy.

Record MultipathScheduler := MkSched {
  paths : list ExitPath;
  pathWeights : omap jstr Q;
  currentPathIndex : nat;
  sequenceNumber : Z;
  flowId : jstr;
  strat : strategy;
  pathStats : omap jstr PathStats
}.

Definition sched_new (flow : jstr) (st : strategy) : MultipathScheduler := MkSched [] [] 0 0 flow st [].

Definition set_index (s : MultipathScheduler) i :=
  MkSched (paths s) (pathWeights s) i (sequenceNumber s) (flowId s) (strat s) (pathStats s).
Definition set_seq (s : MultipathScheduler) q :=
  MkSched (paths s) (pathWeights s) (currentPathIndex s) q (flowId s) (strat s) (pathStats s).
Definition set_stats (s : MultipathScheduler) st :=
  MkSched (paths s) (pathWeights s) (currentPathIndex s) (sequenceNumber s) (flowId s) (strat s) st.
Definition set_weights (s : MultipathScheduler) w :=
  MkSched (paths s) w (currentPathIndex s) (sequenceNumber s) (flowId s) (strat s) (pathStats s).

Definition getPathKey (p : ExitPath) : jstr := js_join 45 (ep_path p) ++ 58 :: ep_exit p.

(** ** The set of paths *)

Definition setPaths (ps : list ExitPath) (s : MultipathScheduler) : MultipathScheduler :=
  MkSched ps (foldl (λ w p, om_set (getPathKey p) 1%Q w) [] ps) (currentPathIndex s) (sequenceNumber s)
    (flowId s) (strat s) (foldl (λ t p, om_set (getPathKey p) stats_zero t) [] ps).

Definition addPath (p : ExitPath) (s : MultipathScheduler) : MultipathScheduler :=
  let k := getPathKey p in
  if om_has k (pathWeights s) then s
  else MkSched (paths s ++ [p]) (om_set k 1%Q (pathWeights s)) (currentPathIndex s) (sequenceNumber s)
         (flowId s) (strat s) (om_set k stats_zero (pathStats s)).

(** [paths.findIndex] and [splice(index, 1)]: remove the first path with the key. *)
Fixpoint remove_first (k : jstr) (ps : list ExitPath) : option (list ExitPath) :=
  match ps with
  | [] => None
  | p :: ps' => if bool_decide (getPathKey p = k) then Some ps' else cons p <$> remove_first k ps'
  end.
Definition removePath (p : ExitPath) (s : MultipathScheduler) : MultipathScheduler :=
  let k := getPathKey p in
  match remove_first k (paths s) with
  | None => s
  | Some ps =>
      MkSched ps (om_delete k (pathWeights s))
        (if (length ps <=? currentPathIndex s)%nat then 0%nat else currentPathIndex s)
        (sequenceNumber s) (flowId s) (strat s) (om_delete k (pathStats s))
  end.

(** ** Selection: [None] is [undefined] or [null] *)

Definition selectRoundRobin (s : MultipathScheduler) : option ExitPath * MultipathScheduler :=
  (paths s !! currentPathIndex s,
   set_index s ((currentPathIndex s + 1) mod length (paths s))).

(** [u] is [Math.random()]. *)
Fixpoint weighted_loop (w : omap jstr Q) (ps : list ExitPath) (random : Q) : option ExitPath :=
  match ps with
  | [] => None
  | p :: ps' =>
      let weight := match om_get (getPathKey p) w with
                    | Some x => if Qeq_bool x 0 then 1%Q else x | None => 1%Q end in
      let random := (random - weight)%Q in
      if Qle_bool random 0 then Some p else weighted_loop w ps' random
  end.
Definition selectWeighted (u : Q) (s : MultipathScheduler) : option ExitPath :=
  let total := foldl Qplus 0%Q (om_values (pathWeights s)) in
  match weighted_loop (pathWeights s) (paths s) (u * total)%Q with
  | Some p => Some p
  | None => head (paths s)
  end.

Definition average (l : list Z) : Q := (inject_Z (foldl Z.add 0%Z l) / inject_Z (Z.of_nat (length l)))%Q.

Fixpoint latency_loop (t : omap jstr PathStats) (ps : list ExitPath) (best : option ExitPath) (lowest : option Q) :
    option ExitPath :=
  match ps with
  | [] => best
  | p :: ps' =>
      match om_get (getPathKey p) t with
      | Some st =>
          if (0 <? length (st_latency st))%nat then
            let avg := average (st_latency st) in
            if match lowest with Some l => negb (Qle_bool l avg) | None => true end
            then latency_loop t ps' (Some p) (Some avg)
            else latency_loop t ps' best lowest
          else latency_loop t ps' best lowest
      | None => latency_loop t ps' best lowest
      end
  end.
Definition selectLowestLatency (s : MultipathScheduler) : option ExitPath :=
  latency_loop (pathStats s) (paths s) (head (paths s)) None.

Definition selectPath (u : Q) (s : MultipathScheduler) : option ExitPath * MultipathScheduler :=
  match paths s with
  | [] => (None, s)
  | _ =>
      match strat s with
      | RoundRobin | OtherStrategy => selectRoundRobin s
      | Weighted => (selectWeighted u s, s)
      | LowestLatency => (selectLowestLatency s, s)
      end
  end.

(** ** Scheduling *)

Record SchedPacket := MkSP {
  sp_flowId : jstr;
  sp_seq : Z;
  sp_pathIndex : option nat;   (* multipath copies only *)
  sp_totalPaths : option nat;
  sp_path : ExitPath;
  sp_payload : buffer;
  sp_timestamp : Z
}.

Definition count_sent (p : ExitPath) (s : MultipathScheduler) : MultipathScheduler :=
  set_stats s (om_update (getPathKey p)
    (λ st, MkStats (st_sent st + 1) (st_acked st) (st_lost st) (st_latency st)) (pathStats s)).

Definition schedulePacket (u : Q) (now : Z) (payload : buffer) (s : MultipathScheduler) :
    option SchedPacket * MultipathScheduler :=
  let '(path, s) := selectPath u s in
  match path with
  | None => (None, s)
  | Some path =>
      (Some (MkSP (flowId s) (sequenceNumber s) None None path payload now),
       count_sent path (set_seq s (sequenceNumber s + 1)))
  end.

(** The [do ... while] of one copy; [fuel] is [paths.length * 2], the bound on the
    attempts; [rnd] gives the random number of each call.  [_getPathKey(undefined)]
    throws. *)
Fixpoint pick_path (fuel : nat) (rnd : nat → Q) (calls : nat) (used : oset jstr) (s : MultipathScheduler) :
    outcome (ExitPath * nat * MultipathScheduler) :=
  match fuel with
  | O => Throw TypeError
  | S f =>
      let '(path, s) := selectPath (rnd calls) s in
      match path with
      | None => Throw TypeError
      | Some p =>
          if os_has (getPathKey p) used && (0 <? f)%nat then pick_path f rnd (S calls) used s
          else Ret (p, S calls, s)
      end
  end.

Fixpoint multipath_loop (n i : nat) (total : nat) (rnd : nat → Q) (calls : nat) (now seq : Z) (payload : buffer)
    (used : oset jstr) (s : MultipathScheduler) : outcome (list SchedPacket * MultipathScheduler) :=
  match n with
  | O => Ret ([], s)
  | S n' =>
      '(p, calls', s) ← pick_path (length (paths s) * 2) rnd calls used s;
      '(rest, s) ← multipath_loop n' (S i) total rnd calls' now seq payload
                     (os_add (getPathKey p) used) (count_sent p s);
      Ret (MkSP (flowId s) seq (Some i) (Some total) p payload now :: rest, s)
  end.

Definition schedulePacketMultipath (rnd : nat → Q) (now : Z) (payload : buffer) (pathCount : nat)
    (s : MultipathScheduler) : outcome (list SchedPacket * MultipathScheduler) :=
  match paths s with
  | [] => Ret ([], s)
  | _ =>
      let total := Nat.min pathCount (length (paths s)) in
      multipath_loop total 0 total rnd 0 now (sequenceNumber s) payload [] (set_seq s (sequenceNumber s + 1))
  end.

(** ** Feedback *)

Definition adjustWeight (k : jstr) (s : MultipathScheduler) : MultipathScheduler :=
  match om_get k (pathStats s) with
  | None => s
  | Some st =>
      let deliveryRate := if 0 <? st_sent st then (inject_Z (st_acked st) / inject_Z (st_sent st))%Q else 1%Q in
      let avgLatency := if (0 <? length (st_latency st))%nat then average (st_latency st) else 100%Q in
      let weight := Qmax (1 # 10) (deliveryRate * (1000 / (avgLatency + 100)))%Q in
      set_weights s (om_set k weight (pathWeights s))
  end.

Definition recordAck (k : jstr) (latency : Z) (s : MultipathScheduler) : MultipathScheduler :=
  match om_get k (pathStats s) with
  | None => s
  | Some st =>
      let l := st_latency st ++ [latency] in
      let l := if (100 <? length l)%nat then tail l else l in
      adjustWeight k (set_stats s (om_set k (MkStats (st_sent st) (st_acked st + 1) (st_lost st) l) (pathStats s)))
  end.

Definition recordLoss (k : jstr) (s : MultipathScheduler) : MultipathScheduler :=
  match om_get k (pathStats s) with
  | None => s
  | Some st =>
      adjustWeight k
        (set_stats s (om_set k (MkStats (st_sent st) (st_acked st) (st_lost st + 1) (st_latency st)) (pathStats s)))
  end.

Definition getPathStats (s : MultipathScheduler) : list (ExitPath * option Q * option PathStats) :=
  (λ p, (p, om_get (getPathKey p) (pathWeights s), om_get (getPathKey p) (pathStats s))) <$> paths s.

Definition path_active (s : MultipathScheduler) (p : ExitPath) : bool :=
  match om_get (getPathKey p) (pathStats s) with
  | None => true
  | Some st => (st_sent st =? 0) || negb (Qle_bool (inject_Z (st_acked st) / inject_Z (st_sent st)) (1 # 2))
  end.
Definition getActivePaths (s : MultipathScheduler) : list ExitPath :=
  filter (λ p, path_active s p = true) (paths s).

Definition sched_reset (flow : jstr) (s : MultipathScheduler) : MultipathScheduler :=
  MkSched (paths s) (pathWeights s) 0 0 flow (strat s) ((λ e, (e.1, stats_zero)) <$> pathStats s).

(** ** Reordering buffer *)

Record ReorderBuffer := MkRB {
  rb_buffer : omap Z (Z * SchedPacket);   (* seq -> timestamp, packet *)
  rb_expectedSeq : Z;
  rb_timeout : Z;
  rb_seen : omap jstr Z;
  rb_timer : bool
}.
Definition rb_new (timeout : option Z) : ReorderBuffer := MkRB [] 0 (js_or timeout 5000) [] false.
Definition rb_start (b : ReorderBuffer) := MkRB (rb_buffer b) (rb_expectedSeq b) (rb_timeout b) (rb_seen b) true.
Definition rb_stop (b : ReorderBuffer) := MkRB (rb_buffer b) (rb_expectedSeq b) (rb_timeout b) (rb_seen b) false.
Definition rb_reset (b : ReorderBuffer) := MkRB [] 0 (rb_timeout b) [] (rb_timer b).

Definition dup_key (p : SchedPacket) : jstr := sp_flowId p ++ 58 :: num_str (sp_seq p).
Definition is_multipath (p : SchedPacket) : bool :=
  match sp_totalPaths p with Some t => (1 <? t)%nat | None => false end.

(** [addPacket]: the packets emitted, and the buffer afterwards. *)
Definition rb_addPacket (now : Z) (p : SchedPacket) (b : ReorderBuffer) : list SchedPacket * ReorderBuffer :=
  if is_multipath p then
    if om_has (dup_key p) (rb_seen b) then ([], b)
    else ([p], MkRB (rb_buffer b) (rb_expectedSeq b) (rb_timeout b) (om_set (dup_key p) now (rb_seen b)) (rb_timer b))
  else ([p], b).

(** [while (buffer.has(expectedSeq)) ...]; [fuel] is at least the number of entries. *)
Fixpoint flushConsecutive (fuel : nat) (buf : omap Z (Z * SchedPacket)) (e : Z) :
    list SchedPacket * omap Z (Z * SchedPacket) * Z :=
  match fuel with
  | O => ([], buf, e)
  | S f =>
      match om_get e buf with
      | None => ([], buf, e)
      | Some (_, p) =>
          let '(out, buf', e') := flushConsecutive f (om_delete e buf) (e + 1) in (p :: out, buf', e')
      end
  end.

Definition flushOld (b : ReorderBuffer) : ReorderBuffer :=
  MkRB (om_delete_if (λ q _, q <? rb_expectedSeq b) (rb_buffer b)) (rb_expectedSeq b) (rb_timeout b)
    (rb_seen b) (rb_timer b).

(** The loop of [_cleanup] over the buffered entries (those still present when reached). *)
Fixpoint cleanup_loop (now timeout : Z) (l : list (Z * (Z * SchedPacket))) (buf : omap Z (Z * SchedPacket)) (e : Z) :
    list SchedPacket * omap Z (Z * SchedPacket) * Z :=
  match l with
  | [] => ([], buf, e)
  | (q, (t, _)) :: l' =>
      if om_has q buf && (timeout <? now - t) then
        let buf := om_delete q buf in
        if q =? e then
          let '(o1, buf, e) := flushConsecutive (S (length buf)) buf (e + 1) in
          let '(o2, buf, e) := cleanup_loop now timeout l' buf e in (o1 ++ o2, buf, e)
        else cleanup_loop now timeout l' buf e
      else cleanup_loop now timeout l' buf e
  end.

Definition rb_cleanup (now : Z) (b : ReorderBuffer) : list SchedPacket * ReorderBuffer :=
  let '(out, buf, e) := cleanup_loop now (rb_timeout b) (rb_buffer b) (rb_buffer b) (rb_expectedSeq b) in
  (out, MkRB buf e (rb_timeout b) (om_delete_if (λ _ t, rb_timeout b * 2 <? now - t) (rb_seen b)) (rb_timer b)).

Definition getBufferSize (b : ReorderBuffer) : nat := om_size (rb_buffer b).
Definition getExpectedSeq (b : ReorderBuffer) : Z := rb_expectedSeq b.

(** ** Round robin *)

Definition rr_path (s : MultipathScheduler) (j : nat) : option ExitPath :=
  paths s !! ((currentPathIndex s + j) mod length (paths s))%nat.

Lemma mod_step a i n : (0 < n)%nat → (((a + i) mod n + 1) mod n = (a + S i) mod n)%nat.
Proof. intros. rewrite Nat.Div0.add_mod_idemp_l. f_equal. lia. Qed.

Lemma mod_add_inj a i j n : (i < n)%nat → (j < n)%nat → ((a + i) mod n = (a + j) mod n)%nat → i = j.
Proof.
  intros Hi Hj H. pose proof (Nat.div_mod (a + i) n ltac:(lia)). pose proof (Nat.div_mod (a + j) n ltac:(lia)).
  rewrite H in H0. assert ((a + i) / n = (a + j) / n ∨ ((a + i) / n < (a + j) / n ∨ (a + j) / n < (a + i) / n))%nat as [E|[E|E]] by lia; nia.
Qed.

(** [k] selections in a row. *)
Fixpoint select_n (k : nat) (u : Q) (s : MultipathScheduler) : list (option ExitPath) * MultipathScheduler :=
  match k with
  | O => ([], s)
  | S k' => let '(p, s1) := selectPath u s in let '(l, s2) := select_n k' u s1 in (p :: l, s2)
  end.

Definition index_ok (s : MultipathScheduler) : Prop := (currentPathIndex s < length (paths s))%nat.

Lemma select_rr u s : strat s = RoundRobin → index_ok s →
  selectPath u s = (rr_path s 0, set_index s ((currentPathIndex s + 1) mod length (paths s))).
Proof.
  intros Hs Hi. unfold selectPath, index_ok, rr_path in *. rewrite Hs Nat.add_0_r Nat.mod_small //.
  destruct (paths s) eqn:E; [simpl in Hi; lia|]. unfold selectRoundRobin. by rewrite E.
Qed.

Lemma select_n_rr k : ∀ u s, strat s = RoundRobin → index_ok s →
  (select_n k u s).1 = rr_path s <$> seq 0 k ∧
  (select_n k u s).2 = set_index s ((currentPathIndex s + k) mod length (paths s)).
Proof.
  induction k as [|k IH]; intros u s Hs Hi.
  - unfold index_ok in Hi. rewrite Nat.add_0_r Nat.mod_small //. by destruct s.
  - cbn [select_n]. rewrite select_rr //. set (s1 := set_index s _).
    assert (index_ok s1) as Hi1 by (unfold index_ok, s1 in *; cbn; apply Nat.mod_upper_bound; lia).
    destruct (IH u s1 Hs Hi1) as [H1 H2]. destruct (select_n k u s1) as [l s2]. cbn [fst snd] in *.
    unfold index_ok in Hi. split.
    + cbn [seq fmap list_fmap]. f_equal. rewrite H1. rewrite -(fmap_S_seq 0 k) -list_fmap_compose.
      apply list_fmap_ext. intros j x _. unfold rr_path, s1. cbn. rewrite Nat.Div0.add_mod_idemp_l. do 2 f_equal. lia.
    + rewrite H2. unfold s1, set_index. cbn. f_equal. rewrite Nat.Div0.add_mod_idemp_l. f_equal. lia.
Qed.

(** with the round-robin strategy, any [n] consecutive selections over [n] paths
    (starting from any valid position) use every path exactly once and come back to
    the starting position. *)
Theorem round_robin_fair (u : Q) (s : MultipathScheduler) :
  strat s = RoundRobin → index_ok s →
  let n := length (paths s) in
  (select_n n u s).1 ≡ₚ Some <$> paths s ∧ (select_n n u s).2 = s.
Proof.
  intros Hs Hi n. destruct (select_n_rr n u s Hs Hi) as [-> ->]. unfold index_ok in Hi. split.
  - set (a := currentPathIndex s) in *.
    assert (rr_path s <$> seq 0 n = Some <$> (drop a (paths s) ++ take a (paths s))) as ->.
    + apply list_eq. intros j. rewrite !list_lookup_fmap.
      destruct (decide (j < n)%nat) as [Hj|Hj]; last first.
      { rewrite !lookup_ge_None_2 //; rewrite ?length_app ?length_drop ?length_take ?length_seq; unfold n in *; lia. }
      rewrite lookup_seq_lt //. cbn. unfold rr_path. fold a. fold n.
      destruct (decide (j < n - a)%nat).
      * rewrite Nat.mod_small; [|lia]. rewrite lookup_app_l ?length_drop; [|unfold n in *; lia].
        rewrite lookup_drop. destruct (paths s !! (a + j)%nat) eqn:E; [done|].
        apply lookup_ge_None in E. unfold n in *. lia.
      * assert ((a + j) mod n = a + j - n)%nat as ->.
        { symmetry. apply (Nat.mod_unique _ _ 1); unfold n in *; lia. }
        rewrite lookup_app_r ?length_drop; [|unfold n in *; lia].
        rewrite lookup_take_lt; [|unfold n in *; lia]. replace (j - (length (paths s) - a))%nat with (a + j - n)%nat by (unfold n in *; lia).
        destruct (paths s !! (a + j - n)%nat) eqn:E; [done|]. apply lookup_ge_None in E. unfold n in *. lia.
    + apply fmap_Permutation. by rewrite Permutation_app_comm take_drop.
  - assert ((currentPathIndex s + n) mod length (paths s) = currentPathIndex s)%nat as ->; [|by destruct s].
    symmetry. apply (Nat.mod_unique _ _ 1); unfold n; lia.
Qed.

Definition demo_path (x : string) : ExitPath := MkExitPath [js x; js "e"] (js "e") 2.
Definition demo_sched : MultipathScheduler :=
  setPaths [demo_path "a"; demo_path "b"; demo_path "c"] (sched_new (js "f1") RoundRobin).

Lemma round_robin_fair_witness :
  index_ok demo_sched ∧
  ((select_n 3 (1 # 2) demo_sched).1 ≡ₚ Some <$> paths demo_sched ∧ (select_n 3 (1 # 2) demo_sched).2 = demo_sched).
Proof.
  assert (index_ok demo_sched) as H by (unfold index_ok; simpl; lia).
  split; [exact H|]. exact (round_robin_fair (1 # 2) demo_sched eq_refl H).
Defined.

(** ** Copies over several paths *)

Lemma paths_count_sent p s : paths (count_sent p s) = paths s ∧
  currentPathIndex (count_sent p s) = currentPathIndex s ∧ strat (count_sent p s) = strat s ∧
  flowId (count_sent p s) = flowId s ∧ sequenceNumber (count_sent p s) = sequenceNumber s.
Proof. done. Qed.

Lemma multipath_loop_rr n : ∀ i total rnd calls now sq payload used s s0,
  strat s0 = RoundRobin → index_ok s0 → NoDup (getPathKey <$> paths s0) →
  paths s = paths s0 → strat s = RoundRobin → (i + n <= length (paths s0))%nat →
  currentPathIndex s = ((currentPathIndex s0 + i) mod length (paths s0))%nat →
  (∀ k, k ∈ used → ∃ j p, (j < i)%nat ∧ rr_path s0 j = Some p ∧ k = getPathKey p) →
  ∃ pkts s', multipath_loop n i total rnd calls now sq payload used s = Ret (pkts, s') ∧
    Some ∘ sp_path <$> pkts = rr_path s0 <$> seq i n ∧
    Forall (λ p, sp_seq p = sq ∧ sp_payload p = payload ∧ sp_totalPaths p = Some total ∧ sp_flowId p = flowId s) pkts ∧
    flowId s' = flowId s ∧ sequenceNumber s' = sequenceNumber s.
Proof.
  induction n as [|n IH]; intros i total rnd calls now sq payload used s s0 Hs0 Hi0 Hnd Hp Hs Hn Hidx Hused.
  { eexists [], s. by split_and!. }
  cbn [multipath_loop]. unfold index_ok in Hi0. set (N := length (paths s0)) in *.
  assert (index_ok s) as Hi by (unfold index_ok; rewrite Hp Hidx; apply Nat.mod_upper_bound; lia).
  assert (rr_path s 0 = rr_path s0 i) as Hrr.
  { unfold rr_path. rewrite Hp Hidx Nat.add_0_r. f_equal. by rewrite Nat.Div0.mod_mod. }
  destruct (rr_path s0 i) as [p|] eqn:Ep; last first.
  { unfold rr_path in Ep. apply lookup_ge_None in Ep. pose proof (Nat.mod_upper_bound (currentPathIndex s0 + i) N). unfold N in *. lia. }
  assert (getPathKey p ∉ used) as Hfresh.
  { intros Hin. destruct (Hused _ Hin) as (j & q & Hj & Eq & Hk). unfold rr_path in Ep, Eq.
    assert (((currentPathIndex s0 + i) mod N = (currentPathIndex s0 + j) mod N)%nat) as E.
    { eapply NoDup_lookup; [exact Hnd| |]; rewrite list_lookup_fmap; [by rewrite Ep|by rewrite Eq /= Hk]. }
    apply mod_add_inj in E; lia. }
  assert (pick_path (length (paths s) * 2) rnd calls used s =
    Ret (p, S calls, set_index s ((currentPathIndex s + 1) mod N))) as ->.
  { rewrite Hp. fold N. destruct (N * 2)%nat eqn:EN; [lia|]. cbn [pick_path].
    rewrite select_rr // Hrr Hp. fold N. by rewrite (proj2 (os_has_false _ _) Hfresh). }
  rewrite ret_bind.
  destruct (IH (S i) total rnd (S calls) now sq payload (os_add (getPathKey p) used)
    (count_sent p (set_index s ((currentPathIndex s + 1) mod N))) s0) as (pkts & s' & -> & Hpk & Hall & Hfl & Hsq);
    [done..| |lia| | |].
  - done.
  - cbn. rewrite Hidx. by apply mod_step; lia.
  - intros k [->|Hk]%os_elem_add; [exists i, p; split; [lia|done]|].
    destruct (Hused k Hk) as (j & q & ? & ? & ?). exists j, q. split; [lia|done].
  - rewrite ret_bind. eexists _, _. split; [done|]. split_and!; [|constructor; [by rewrite /= Hfl|done]|done|done].
    cbn [fmap list_fmap seq]. rewrite -/(fmap (M := list)) Ep. f_equal. exact Hpk.
Qed.

(** with the round-robin strategy and distinct paths, [schedulePacketMultipath]
    never throws, sends [min pathCount n] copies over pairwise different paths, all
    with the same flow, sequence number and payload, and takes one sequence number. *)
Theorem multipath_distinct_copies (rnd : nat → Q) (now : Z) (payload : buffer) (count : nat)
    (s : MultipathScheduler) :
  strat s = RoundRobin → index_ok s → NoDup (getPathKey <$> paths s) →
  ∃ pkts s', schedulePacketMultipath rnd now payload count s = Ret (pkts, s') ∧
    length pkts = Nat.min count (length (paths s)) ∧ NoDup (sp_path <$> pkts) ∧
    Forall (λ p, p ∈ paths s) (sp_path <$> pkts) ∧
    Forall (λ p, sp_seq p = sequenceNumber s ∧ sp_payload p = payload ∧ sp_flowId p = flowId s ∧
                 sp_totalPaths p = Some (Nat.min count (length (paths s)))) pkts ∧
    sequenceNumber s' = sequenceNumber s + 1.
Proof.
  intros Hs Hi Hnd. unfold schedulePacketMultipath. set (s1 := set_seq s _). set (total := Nat.min _ _).
  destruct (multipath_loop_rr total 0 total rnd 0 now (sequenceNumber s) payload [] s1 s)
    as (pkts & s' & H & Hpk & Hall & _ & Hsq); try done.
  { unfold total. lia. } { unfold index_ok in Hi. rewrite Nat.add_0_r Nat.mod_small //. }
  { intros k Hk. by apply elem_of_nil in Hk. }
  exists pkts, s'. rewrite H. split; [destruct (paths s) eqn:E; [unfold index_ok in Hi; rewrite E in Hi; simpl in Hi; lia|done]|].
  assert (length pkts = total) as Hlen.
  { pose proof (f_equal length Hpk) as Hl. by rewrite !length_fmap length_seq in Hl. }
  assert (∀ j p, pkts !! j = Some p → (j < total)%nat ∧ rr_path s j = Some (sp_path p)) as Hlk.
  { intros j p Hj. pose proof (lookup_lt_Some _ _ _ Hj). split; [lia|].
    pose proof (f_equal (lookup j) Hpk) as E. rewrite !list_lookup_fmap Hj lookup_seq_lt // in E; [|lia]. cbn in E. by simplify_eq. }
  split_and!; [done| | | |done].
  - apply NoDup_alt. intros i j x Hx Hy. rewrite !list_lookup_fmap in Hx, Hy.
    destruct (pkts !! i) as [p|] eqn:Ei, (pkts !! j) as [q|] eqn:Ej; try done.
    injection Hx as Hx. injection Hy as Hy.
    destruct (Hlk i p Ei) as [Hil Hip], (Hlk j q Ej) as [Hjl Hjq]. rewrite Hy -Hx in Hjq.
    unfold rr_path in Hip, Hjq. apply NoDup_fmap_1 in Hnd. pose proof (NoDup_lookup _ _ _ _ Hnd Hip Hjq) as E.
    unfold index_ok in Hi. apply mod_add_inj in E; [done|unfold total in *; lia..].
  - apply Forall_forall. intros x (p & -> & Hp)%list_elem_of_fmap. apply list_elem_of_lookup in Hp as [j Hj].
    destruct (Hlk j p Hj) as [_ Hr]. unfold rr_path in Hr. by eapply list_elem_of_lookup_2.
  - eapply Forall_impl; [exact Hall|]. intros p (? & ? & ? & ?). done.
Qed.

Lemma multipath_distinct_copies_witness :
  NoDup (getPathKey <$> paths demo_sched) ∧
  ∃ pkts s', schedulePacketMultipath (λ _, 0%Q) 7 [1; 2] 2 demo_sched = Ret (pkts, s') ∧ length pkts = 2%nat.
Proof.
  assert (NoDup (getPathKey <$> paths demo_sched)) as Hnd by (apply (bool_decide_unpack _); by vm_compute).
  assert (index_ok demo_sched) as Hi by (unfold index_ok; simpl; lia).
  split; [exact Hnd|].
  destruct (multipath_distinct_copies (λ _, 0%Q) 7 [1; 2] 2 demo_sched eq_refl Hi Hnd) as (pkts & s' & H1 & H2 & _).
  exists pkts, s'. split; [exact H1|exact H2].
Defined.

(** ** Weights and latency windows *)

Inductive sched_op :=
  | SSet (ps : list ExitPath)
  | SAdd (p : ExitPath)
  | SRemove (p : ExitPath)
  | SSchedule (u : Q) (now : Z) (payload : buffer)
  | SAck (k : jstr) (latency : Z)
  | SLoss (k : jstr)
  | SReset (flow : jstr).

Definition sched_apply (s : MultipathScheduler) (o : sched_op) : MultipathScheduler :=
  match o with
  | SSet ps => setPaths ps s
  | SAdd p => addPath p s
  | SRemove p => removePath p s
  | SSchedule u now pl => (schedulePacket u now pl s).2
  | SAck k l => recordAck k l s
  | SLoss k => recordLoss k s
  | SReset f => sched_reset f s
  end.

Definition sched_inv (s : MultipathScheduler) : Prop :=
  (∀ k w, om_get k (pathWeights s) = Some w → (1 # 10 <= w)%Q) ∧
  (∀ k st, om_get k (pathStats s) = Some st → (length (st_latency st) <= 100)%nat).

Lemma om_get_foldl_set {V} (key : ExitPath → jstr) (v : V) ps : ∀ m k x,
  om_get k (foldl (λ w p, om_set (key p) v w) m ps) = Some x → x = v ∨ om_get k m = Some x.
Proof.
  induction ps as [|p ps IH]; intros m k x H; [by right|]. cbn [foldl] in H.
  destruct (IH _ _ _ H) as [->|Hm]; [by left|]. rewrite om_get_set in Hm. case_decide; [left; by simplify_eq|by right].
Qed.

Lemma adjust_inv k s : sched_inv s → sched_inv (adjustWeight k s).
Proof.
  intros [Hw Hl]. unfold adjustWeight. destruct (om_get k (pathStats s)) as [st|]; [|done].
  split; [|exact Hl]. intros k' w. cbn. rewrite om_get_set. case_decide; [|by apply Hw].
  intros [= <-]. apply Q.le_max_l.
Qed.

Lemma sched_apply_inv s o : sched_inv s → sched_inv (sched_apply s o).
Proof.
  intros [Hw Hl]. destruct o as [ps|p|p|u now pl|k l|k|f]; cbn [sched_apply].
  - split; intros k x H; cbn in H; apply om_get_foldl_set in H as [->|H]; try done. cbn. lia.
  - unfold addPath. case_match; [done|]. split; intros k x; cbn; rewrite om_get_set; case_decide.
    + intros [= <-]. done.
    + apply Hw.
    + intros [= <-]. cbn. lia.
    + apply Hl.
  - unfold removePath. destruct (remove_first _ _) as [ps|]; [|done].
    split; intros k x; cbn; rewrite om_get_delete; case_decide; try done; [apply Hw|apply Hl].
  - unfold schedulePacket. destruct (selectPath u s) as [q s1] eqn:E.
    assert (pathWeights s1 = pathWeights s ∧ pathStats s1 = pathStats s) as [E1 E2].
    { unfold selectPath, selectRoundRobin in E. by destruct (paths s), (strat s); simplify_eq. }
    destruct q as [q|]; cbn [snd]; split; cbn; rewrite ?E1 ?E2; try done.
    intros k x. rewrite om_get_update. case_decide; [|apply Hl].
    destruct (om_get k (pathStats s)) as [st|] eqn:Ek; [|done]. intros [= <-]. exact (Hl k st Ek).
  - unfold recordAck. destruct (om_get k (pathStats s)) as [st|] eqn:Ek; [|done]. apply adjust_inv.
    set (win := if (100 <? _)%nat then _ else _). assert (length win <= 100)%nat as Hwin.
    { unfold win. specialize (Hl k st Ek). destruct (Nat.ltb_spec 100 (length (st_latency st ++ [l]))) as [|Hge]; [|lia].
      destruct (st_latency st); [simpl; lia|]. rewrite /= length_app. simpl in *. lia. }
    clearbody win. split; [exact Hw|]. intros k' x. cbn. rewrite om_get_set. case_decide; [|apply Hl].
    by intros [= <-].
  - unfold recordLoss. destruct (om_get k (pathStats s)) as [st|] eqn:Ek; [|done]. apply adjust_inv.
    split; [exact Hw|]. intros k' x. cbn. rewrite om_get_set. case_decide; [|apply Hl].
    intros [= <-]. exact (Hl k st Ek).
  - split; [exact Hw|]. intros k x. cbn. assert (∀ m : omap jstr PathStats, om_get k ((λ e, (e.1, stats_zero)) <$> m) = Some x → x = stats_zero) as Hz.
    { induction m as [|[k' v] m IH]; [done|]. cbn. case_decide; [by intros [= <-]|exact IH]. }
    intros ->%Hz. cbn. lia.
Qed.

(** in every history of the scheduler, the weight of a path stays at least 0.1
    (no path is starved) and each latency window holds at most 100 samples. *)
Theorem scheduler_bounds flow st ops k w t :
  let s := foldl sched_apply (sched_new flow st) ops in
  (om_get k (pathWeights s) = Some w → (1 # 10 <= w)%Q) ∧
  (om_get k (pathStats s) = Some t → (length (st_latency t) <= 100)%nat).
Proof.
  intros s. assert (sched_inv s) as [Hw Hl]; [|split; [apply Hw|apply Hl]].
  unfold s. assert (sched_inv (sched_new flow st)) as H0 by (split; intros ? ? [=]). revert H0. generalize (sched_new flow st).
  induction ops as [|o ops IH]; intros s0 H0; [done|]. apply IH. by apply sched_apply_inv.
Qed.

Lemma scheduler_bounds_witness :
  let s := foldl sched_apply (sched_new (js "f") RoundRobin) [SSet [demo_path "a"]; SAck (getPathKey (demo_path "a")) 30] in
  ∃ w, om_get (getPathKey (demo_path "a")) (pathWeights s) = Some w ∧ (1 # 10 <= w)%Q.
Proof.
  intros s. eexists. split; [by vm_compute|].
  apply (scheduler_bounds (js "f") RoundRobin [SSet [demo_path "a"]; SAck (getPathKey (demo_path "a")) 30]
    (getPathKey (demo_path "a")) _ stats_zero). by vm_compute.
Defined.

(** ** Duplicate elimination *)

Inductive rb_op := RbAdd (now : Z) (p : SchedPacket) | RbCleanup (now : Z).
Definition rb_time (o : rb_op) : Z := match o with RbAdd t _ => t | RbCleanup t => t end.

(** Run the operations, collecting what is emitted with the time of emission. *)
Definition rb_step (acc : list (Z * SchedPacket) * ReorderBuffer) (o : rb_op) :=
  let '(out, b) := acc in
  let '(l, b') := match o with RbAdd now p => rb_addPacket now p b | RbCleanup now => rb_cleanup now b end in
  (out ++ (pair (rb_time o) <$> l), b').
Definition rb_run (timeout : option Z) (ops : list rb_op) := foldl rb_step ([], rb_new timeout) ops.

(** Times do not go back. *)
Fixpoint times_ok (t : Z) (ops : list rb_op) : Prop :=
  match ops with [] => True | o :: ops' => t <= rb_time o ∧ times_ok (rb_time o) ops' end.

Definition copies (p q : SchedPacket) : Prop :=
  is_multipath p = true ∧ is_multipath q = true ∧ dup_key p = dup_key q.

Record rb_inv (timeout t : Z) (added : list SchedPacket) (out : list (Z * SchedPacket)) (b : ReorderBuffer) : Prop := {
  ri_buffer : rb_buffer b = [];
  ri_timeout : rb_timeout b = timeout;
  ri_wf : om_wf (rb_seen b);
  ri_seen : ∀ ti p, (ti, p) ∈ out → is_multipath p = true →
    (∃ t', om_get (dup_key p) (rb_seen b) = Some t' ∧ ti <= t') ∨ timeout * 2 < t - ti;
  ri_spaced : ∀ i j ti tj p q, out !! i = Some (ti, p) → out !! j = Some (tj, q) → (i < j)%nat →
    copies p q → timeout * 2 < tj - ti;
  ri_origin : ∀ k t', om_get k (rb_seen b) = Some t' → ∃ ti p, (ti, p) ∈ out ∧ is_multipath p = true ∧ dup_key p = k;
  ri_complete : ∀ p, p ∈ added → ∃ ti q, (ti, q) ∈ out ∧ (q = p ∨ copies q p)
}.

Lemma rb_inv_later timeout t t' added out b : t <= t' → rb_inv timeout t added out b → rb_inv timeout t' added out b.
Proof. intros Ht [H1 H2 H3 H4 H5 H6 H7]. split; try done. intros ti p Hp Hm. destruct (H4 ti p Hp Hm); [by left|right; lia]. Qed.

Lemma rb_emit timeout now added out b b' p :
  rb_inv timeout now added out b → rb_buffer b' = [] → rb_timeout b' = timeout →
  (if is_multipath p then om_get (dup_key p) (rb_seen b) = None ∧ rb_seen b' = om_set (dup_key p) now (rb_seen b)
   else rb_seen b' = rb_seen b) →
  rb_inv timeout now (added ++ [p]) (out ++ [(now, p)]) b'.
Proof.
  intros [H1 H2 H3 H4 H5 H6 H7] Hb Ht Hs. split; [done|done| | | | |].
  - destruct (is_multipath p); [destruct Hs as [_ ->]; by apply om_set_wf|by rewrite Hs].
  - intros ti q [Hq|[= -> ->]%list_elem_of_singleton]%elem_of_app Hm.
    + destruct (H4 ti q Hq Hm) as [(t' & Ht' & Hle)|]; [left|by right].
      destruct (is_multipath p); [destruct Hs as [Hn ->]|rewrite Hs; eauto].
      rewrite om_get_set_ne; [eauto|]. intros E. by rewrite E Hn in Ht'.
    + left. rewrite Hm in Hs. destruct Hs as [_ ->]. rewrite om_get_set_eq. eauto with lia.
  - intros i j ti tj q q' Hi Hj Hij Hc. destruct (decide (j < length out)%nat).
    + rewrite !lookup_app_l in Hi, Hj; try lia. by eapply H5.
    + apply lookup_lt_Some in Hj as Hjl. rewrite length_app /= in Hjl. assert (j = length out) as -> by lia.
      rewrite lookup_app_r // Nat.sub_diag in Hj. simplify_eq/=. rewrite lookup_app_l // in Hi.
      destruct Hc as (Hm & Hm' & Hk). rewrite Hm' in Hs. destruct Hs as [Hn _].
      destruct (H4 ti q) as [(t' & Ht' & _)|]; [by eapply list_elem_of_lookup_2|done| |lia].
      by rewrite Hk Hn in Ht'.
  - intros k t' Hk. assert (om_get k (rb_seen b) = Some t' ∨ (is_multipath p = true ∧ k = dup_key p)) as [Ho|[Hm ->]].
    { destruct (is_multipath p); [destruct Hs as [_ E]|rewrite Hs in Hk; by left]. rewrite E om_get_set in Hk.
      case_decide; [by right|by left]. }
    + destruct (H6 k t' Ho) as (ti & q & Hq & ? & ?). exists ti, q. split_and!; [|done..]. apply elem_of_app. by left.
    + exists now, p. split_and!; [|done..]. apply elem_of_app. right. by left.
  - intros q [Hq| ->%list_elem_of_singleton]%elem_of_app.
    + destruct (H7 q Hq) as (ti & q' & ? & ?). exists ti, q'. split; [apply elem_of_app; by left|done].
    + exists now, p. split; [apply elem_of_app; right; by left|by left].
Qed.

Definition rb_added (o : rb_op) : list SchedPacket := match o with RbAdd _ p => [p] | RbCleanup _ => [] end.

Lemma rb_step_inv timeout t added out b o : t <= rb_time o → rb_inv timeout t added out b →
  let '(out', b') := rb_step (out, b) o in rb_inv timeout (rb_time o) (added ++ rb_added o) out' b'.
Proof.
  intros Ht I. apply (rb_inv_later _ _ _ _ _ _ Ht) in I. destruct o as [now p|now]; cbn [rb_step rb_time rb_added] in *.
  - unfold rb_addPacket. destruct (is_multipath p) eqn:Em; [destruct (om_has (dup_key p) (rb_seen b)) eqn:Eh|].
    + rewrite app_nil_r. destruct I as [H1 H2 H3 H4 H5 H6 H7]. split; try done.
      intros q [Hq| ->%list_elem_of_singleton]%elem_of_app; [by apply H7|].
      apply bool_decide_eq_true in Eh as [t' Ht']. destruct (H6 _ _ Ht') as (ti & q & Hq & Hm & Hk).
      exists ti, q. split; [done|]. by right.
    + apply (rb_emit timeout now added out b); [done|apply I|apply I|]. rewrite Em. split; [|done].
      unfold om_has in Eh. apply bool_decide_eq_false in Eh. by apply eq_None_not_Some.
    + apply (rb_emit timeout now added out b); [done|apply I|apply I|]. by rewrite Em.
  - unfold rb_cleanup. destruct I as [H1 H2 H3 H4 H5 H6 H7]. rewrite H1. cbn [cleanup_loop fmap list_fmap].
    rewrite !app_nil_r. split; cbn [rb_buffer rb_timeout rb_seen]; try done.
    + by apply om_delete_if_wf.
    + intros ti p Hp Hm. destruct (H4 ti p Hp Hm) as [(t' & Ht' & Hle)|]; [|by right].
      rewrite om_get_delete_if // Ht' H2. destruct (Z.ltb_spec (timeout * 2) (now - t')); [right; lia|left; eauto].
    + intros k t'. rewrite om_get_delete_if //. destruct (om_get k (rb_seen b)) as [t0|] eqn:E; [|done].
      intros _. by apply (H6 k t0).
Qed.

(** the receiving side emits every packet, or another copy of it, and never
    emits two copies of a multipath packet within twice the timeout; it emits
    packets as they arrive and its reorder buffer stays empty. *)
Theorem reorder_buffer_dedup (timeout : option Z) (t0 : Z) (ops : list rb_op) :
  times_ok t0 ops →
  let '(out, b) := rb_run timeout ops in
  (∀ p, p ∈ ops ≫= rb_added → ∃ t q, (t, q) ∈ out ∧ (q = p ∨ copies q p)) ∧
  (∀ i j ti tj p q, out !! i = Some (ti, p) → out !! j = Some (tj, q) → (i < j)%nat → copies p q →
     js_or timeout 5000 * 2 < tj - ti) ∧
  getBufferSize b = 0%nat.
Proof.
  intros Ht. unfold rb_run. set (T := js_or timeout 5000).
  assert (rb_inv T t0 [] [] (rb_new timeout)) as I.
  { split; try done.
    - apply NoDup_nil_2.
    - intros ti p Hp. by apply elem_of_nil in Hp.
    - intros p Hp. by apply elem_of_nil in Hp. }
  enough (∀ added out b t, rb_inv T t added out b → times_ok t ops →
    let '(out', b') := foldl rb_step (out, b) ops in ∃ t', rb_inv T t' (added ++ (ops ≫= rb_added)) out' b') as H.
  { specialize (H _ _ _ _ I Ht). destruct (foldl rb_step _ ops) as [out b]. destruct H as [t' [H1 H2 H3 H4 H5 H6 H7]].
    split_and!; [done|exact H5|by rewrite /getBufferSize H1]. }
  clear I Ht. induction ops as [|o ops IH]; intros added out b t I Ht; cbn [foldl].
  { exists t. by rewrite app_nil_r. }
  destruct Ht as [Ht Hts]. pose proof (rb_step_inv T t added out b o Ht I) as I'.
  destruct (rb_step (out, b) o) as [out1 b1]. specialize (IH _ _ _ _ I' Hts).
  by rewrite bind_cons (assoc_L (++)).
Qed.

Definition demo_copy (t : Z) (n : Z) : SchedPacket := MkSP (js "f1") n (Some 0%nat) (Some 2%nat) (demo_path "a") [n] t.

Lemma reorder_buffer_dedup_witness :
  let ops := [RbAdd 1 (demo_copy 1 0); RbAdd 2 (demo_copy 1 0); RbAdd 3 (demo_copy 3 1); RbCleanup 20000] in
  times_ok 0 ops ∧
  let '(out, b) := rb_run None ops in
  (∀ p, p ∈ ops ≫= rb_added → ∃ t q, (t, q) ∈ out ∧ (q = p ∨ copies q p)) ∧
  (∀ i j ti tj p q, out !! i = Some (ti, p) → out !! j = Some (tj, q) → (i < j)%nat → copies p q →
     js_or None 5000 * 2 < tj - ti) ∧
  getBufferSize b = 0%nat.
Proof.
  intros ops. assert (times_ok 0 ops) as H by (repeat split; done).
  split; [exact H|]. exact (reorder_buffer_dedup None 0 ops H).
Defined.

(** ** Three behaviours to know *)

(** [setPaths] keeps the position of the round robin: when the new list is shorter,
    the next packet is dropped, and the next multipath packet throws. *)
Example set_paths_keeps_index :
  let s := (select_n 2 0%Q demo_sched).2 in
  let s' := setPaths [demo_path "a"; demo_path "b"] s in
  (schedulePacket 0%Q 7 [1] s').1 = None ∧
  schedulePacketMultipath (λ _, 0%Q) 7 [1] 2 s' = Throw TypeError.
Proof. by vm_compute. Qed.

(** The other strategies do not rotate: every "multipath" copy takes the same path. *)
Example lowest_latency_same_path :
  let s := setPaths [demo_path "a"; demo_path "b"] (sched_new (js "f1") LowestLatency) in
  match schedulePacketMultipath (λ _, 0%Q) 7 [1] 2 s with
  | Ret (pkts, _) => sp_path <$> pkts = [demo_path "a"; demo_path "a"]
  | Throw _ => False
  end.
Proof. by vm_compute. Qed.

(** Packets that arrive out of order leave in the order of arrival. *)
Example reorder_buffer_does_not_reorder :
  ((rb_run None [RbAdd 1 (demo_copy 1 1); RbAdd 2 (demo_copy 1 0)]).1).*2 = [demo_copy 1 1; demo_copy 1 0].
Proof. by vm_compute. Qed.
