(* ===== verification/Crypto.v ===== *)
(** * Identities, sessions and authenticated encryption (src/crypto/)

    The ciphers and curves themselves are not in the repository (Node's AES-GCM,
    @noble/curves, @noble/hashes): they are parameters, with the documented laws the
    code relies on collected in the classes [Aead], [KeyAgreement] and [Signature].
    Base64 is written out.  Randomness is an argument: the IV of [encrypt], the
    private keys of a session. *)

From S2P Require Import Prelude JsMap Bytes JsString.
Local Open Scope Z_scope.
#[local] Unset Default Proof Using.

(** ** Base64 *)

(** The code unit of a 6-bit value, in the standard and in the URL alphabet. *)
Definition b64_digit (c62 c63 : Z) (v : Z) : Z :=
  if v <? 26 then 65 + v else if v <? 52 then 71 + v else if v <? 62 then v - 4
  else if v =? 62 then c62 else c63.
Definition b64_value (c : Z) : option Z :=
  if (65 <=? c) && (c <=? 90) then Some (c - 65)
  else if (97 <=? c) && (c <=? 122) then Some (c - 71)
  else if (48 <=? c) && (c <=? 57) then Some (c + 4)
  else if (c =? 43) || (c =? 45) then Some 62
  else if (c =? 47) || (c =? 95) then Some 63
  else None.

(** The 6-bit values of bytes, and back. *)
Fixpoint sextets (b : buffer) : list Z :=
  match b with
  | x :: y :: z :: r =>
      [x / 4; x mod 4 * 16 + y / 16; y mod 16 * 4 + z / 64; z mod 64] ++ sextets r
  | [x; y] => [x / 4; x mod 4 * 16 + y / 16; y mod 16 * 4]
  | [x] => [x / 4; x mod 4 * 16]
  | [] => []
  end.
Fixpoint unsextets (l : list Z) : buffer :=
  match l with
  | a :: b :: c :: d :: r =>
      [a * 4 + b / 16; b mod 16 * 16 + c / 4; c mod 4 * 64 + d] ++ unsextets r
  | [a; b; c] => [a * 4 + b / 16; b mod 16 * 16 + c / 4]
  | [a; b] => [a * 4 + b / 16]
  | _ => []
  end.

(** [buf.toString('base64')], [buf.toString('base64url')] (no padding) and
    [Buffer.from(s, 'base64')], which takes both alphabets, stops at the padding and
    skips other characters. *)
Definition to_base64 (b : buffer) : jstr :=
  (b64_digit 43 47 <$> sextets b) ++ replicate ((3 - length b mod 3) mod 3) 61.
Definition to_base64url (b : buffer) : jstr := b64_digit 45 95 <$> sextets b.
Fixpoint before_padding (s : jstr) : jstr :=
  match s with c :: s' => if c =? 61 then [] else c :: before_padding s' | [] => [] end.
Definition from_base64 (s : jstr) : buffer := unsextets (base.omap b64_value (before_padding s)).

(** A string or a Buffer, as many entry points accept. *)
Inductive data : Type := Str (s : jstr) | Buf (b : buffer).
Definition of_text (d : data) : buffer := match d with Str s => utf8_encode s | Buf b => b end.
Definition of_base64 (d : data) : buffer := match d with Str s => from_base64 s | Buf b => b end.

(** ** Authenticated encryption *)

(** AES-256-GCM: [seal key iv plaintext] is the ciphertext and the tag; opening
    succeeds exactly on what sealing produces. *)
Class Aead := {
  seal : buffer → buffer → buffer → buffer * buffer;
  open : buffer → buffer → buffer → buffer → option buffer;
  seal_length : ∀ k iv p, length (seal k iv p).1 = length p ∧ length (seal k iv p).2 = 16%nat;
  open_seal : ∀ k iv p ct tag, open k iv tag ct = Some p ↔ seal k iv p = (ct, tag)
}.

Definition IV_LENGTH : nat := 12.
Definition AUTH_TAG_LENGTH : nat := 16.

Section encrypt.
Context `{Aead}.

(** [iv] is [randomBytes(IV_LENGTH)]; a key that is not 32 bytes is refused by
    [createCipheriv] with a [RangeError]. *)
Definition encrypt (iv : buffer) (plaintext : data) (key : buffer) : outcome buffer :=
  guard_js (length key =? 32)%nat RangeError ;;
  let '(encrypted, authTag) := seal key iv (of_text plaintext) in
  Ret (iv ++ authTag ++ encrypted).

Definition decrypt (ciphertext : data) (key : buffer) : outcome buffer :=
  let ciphertextBuffer := of_base64 ciphertext in
  if (length ciphertextBuffer <? IV_LENGTH + AUTH_TAG_LENGTH)%nat
  then Throw (Error "Invalid ciphertext: too short")
  else
    let iv := subarray 0 IV_LENGTH ciphertextBuffer in
    let authTag := subarray IV_LENGTH (IV_LENGTH + AUTH_TAG_LENGTH) ciphertextBuffer in
    let encrypted := drop (IV_LENGTH + AUTH_TAG_LENGTH) ciphertextBuffer in
    guard_js (length key =? 32)%nat RangeError ;;
    match open key iv authTag encrypted with
    | Some p => Ret p
    | None => Throw (Error "Unsupported state or unable to authenticate data")
    end.
End encrypt.

(** ** Key agreement and sessions *)

(** X25519 and HKDF-SHA256.  [getSharedSecret] throws on a public key it rejects;
    two parties with 32-byte private keys derive the same secret. *)
Class KeyAgreement := {
  getPublicKey : buffer → buffer;
  getSharedSecret : buffer → buffer → outcome buffer;
  hkdf : buffer → jstr → nat → buffer;
  public_ok : ∀ a, length a = 32%nat →
    bytes_ok (getPublicKey a) ∧ length (getPublicKey a) = 32%nat;
  shared_comm : ∀ a b, length a = 32%nat → length b = 32%nat →
    ∃ s, getSharedSecret a (getPublicKey b) = Ret s ∧ getSharedSecret b (getPublicKey a) = Ret s;
  hkdf_length : ∀ s i n, length (hkdf s i n) = n
}.

Section sessions.
Context `{KeyAgreement}.

Record SessionKeyExchange := MkKeyExchange { kx_privateKey : buffer; kx_publicKey : buffer }.
(** [secret] is [randomBytes(32)]. *)
Definition new_key_exchange (secret : buffer) : SessionKeyExchange :=
  MkKeyExchange secret (getPublicKey secret).

Definition deriveSharedSecret (kx : SessionKeyExchange) (peerPublicKey : data) : outcome buffer :=
  getSharedSecret (kx_privateKey kx) (of_base64 peerPublicKey).
Definition session_info : jstr := js "mesh-vpn-session".
Definition deriveSessionKey (kx : SessionKeyExchange) (peerPublicKey : data) (info : option jstr) :
    outcome buffer :=
  sharedSecret ← deriveSharedSecret kx peerPublicKey;
  Ret (hkdf sharedSecret (default session_info info) 32).
Definition exportPublicKey (kx : SessionKeyExchange) : jstr := to_base64 (kx_publicKey kx).

Record session := MkSession {
  keyExchange : SessionKeyExchange; sessionKey : option buffer; established : bool
}.
Definition SessionManager : Type := omap jstr session.

Definition createSession (secret : buffer) (peerId : jstr) (m : SessionManager) :
    SessionManager * jstr :=
  let kx := new_key_exchange secret in
  (om_set peerId (MkSession kx None false) m, exportPublicKey kx).

Definition completeSession (peerId : jstr) (peerPublicKey : data) (m : SessionManager) :
    outcome (SessionManager * buffer) :=
  match om_get peerId m with
  | None => Throw (Error "No session found for peer")
  | Some s =>
      k ← deriveSessionKey (keyExchange s) peerPublicKey None;
      Ret (om_set peerId (MkSession (keyExchange s) (Some k) true) m, k)
  end.

Definition getSessionKey (peerId : jstr) (m : SessionManager) : option buffer :=
  match om_get peerId m with
  | None => None
  | Some s => if established s then sessionKey s else None
  end.

Definition hasSession (peerId : jstr) (m : SessionManager) : bool :=
  match om_get peerId m with Some s => established s | None => false end.

Definition removeSession (peerId : jstr) (m : SessionManager) : SessionManager := om_delete peerId m.
Definition clear_sessions (m : SessionManager) : SessionManager := [].
End sessions.

(** ** Identities *)

(** Ed25519.  Private keys have 32 bytes (others throw); [ed_verify] may throw on
    malformed input ([None]). *)
Class Signature := {
  ed_public : buffer → outcome buffer;
  ed_sign : buffer → buffer → outcome buffer;
  ed_verify : buffer → buffer → buffer → option bool;
  ed_public_size : ∀ k p, ed_public k = Ret p → length k = 32%nat;
  ed_public_ok : ∀ k p, ed_public k = Ret p → bytes_ok p ∧ length p = 32%nat;
  ed_correct : ∀ k m p, ed_public k = Ret p →
    ∃ s, ed_sign m k = Ret s ∧ bytes_ok s ∧ ed_verify s m p = Some true
}.

Section identity.
Context `{Signature}.

Record Identity := MkIdentity { id_privateKey : buffer; id_publicKey : buffer }.
(** The private key given (base64 text or bytes), or 32 random bytes; an empty text is
    no key ([if (privateKey)]). *)
Definition new_identity (random : buffer) (privateKey : option data) : outcome Identity :=
  let k := match privateKey with None | Some (Str []) => random | Some d => of_base64 d end in
  p ← ed_public k;
  Ret (MkIdentity k p).
Definition nodeId (i : Identity) : jstr := take 16 (to_base64url (id_publicKey i)).
Definition sign (message : data) (i : Identity) : outcome buffer := ed_sign (of_text message) (id_privateKey i).
Definition verify (message signature publicKey : data) : bool :=
  default false (ed_verify (of_base64 signature) (of_text message) (of_base64 publicKey)).
Definition exportPrivateKey (i : Identity) : jstr := to_base64 (id_privateKey i).
Definition exportIdentityKey (i : Identity) : jstr := to_base64 (id_publicKey i).
Definition fromPrivateKey (random : buffer) (privateKeyBase64 : jstr) : outcome Identity :=
  new_identity random (Some (Str privateKeyBase64)).
End identity.

(** ** Base64 round trip *)

Lemma b64_value_digit c62 c63 v :
  (c62 = 43 ∧ c63 = 47 ∨ c62 = 45 ∧ c63 = 95) → 0 <= v < 64 → b64_value (b64_digit c62 c63 v) = Some v.
Proof.
  intros Hc Hv. unfold b64_digit, b64_value.
  repeat (case_match; bool_to_prop; subst); f_equal; lia.
Qed.

(** The letters of URL-safe base64 (RFC 4648, section 5): neither a slash nor a plus. *)
Definition url_alphabet : jstr := js "ABCDEFGHIJKLMNOPQRSTUVWXYZabcdefghijklmnopqrstuvwxyz0123456789-_".
Lemma b64_digit_url v : 0 <= v < 64 → b64_digit 45 95 v ∈ url_alphabet.
Proof.
  intros Hv. assert (Forall (λ k, b64_digit 45 95 (Z.of_nat k) ∈ url_alphabet) (seq 0 64)) as H.
  { apply (bool_decide_unpack _). vm_compute. exact I. }
  rewrite ->Forall_forall in H. rewrite -(Z2Nat.id v); [|lia]. apply H, elem_of_seq. lia.
Qed.

Lemma list3_ind (P : buffer → Prop) :
  P [] → (∀ x, P [x]) → (∀ x y, P [x; y]) → (∀ x y z r, P r → P (x :: y :: z :: r)) → ∀ l, P l.
Proof.
  intros H0 H1 H2 H3 l. enough (P l ∧ (∀ x, P (x :: l)) ∧ ∀ x y, P (x :: y :: l)) by tauto.
  induction l as [|z l (IH0 & IH1 & IH2)]; auto.
Qed.

Lemma sextets_range b : bytes_ok b → Forall (λ v, 0 <= v < 64) (sextets b).
Proof.
  induction b as [|x|x y|x y z r IH] using list3_ind; intros Hb; [constructor|..];
    rewrite /bytes_ok !Forall_cons /byte_ok in Hb; cbn [sextets app];
    repeat (apply Forall_cons; split); try constructor; try apply IH; try apply Hb;
    Z.div_mod_to_equations; lia.
Qed.

Lemma unsextets_sextets b : bytes_ok b → unsextets (sextets b) = b.
Proof.
  induction b as [|x|x y|x y z r IH] using list3_ind; intros Hb; [done|..];
    rewrite /bytes_ok !Forall_cons /byte_ok in Hb; cbn [sextets unsextets app];
    repeat f_equal; try apply IH; try apply Hb; Z.div_mod_to_equations; lia.
Qed.

Lemma values_digits c62 c63 l : (c62 = 43 ∧ c63 = 47 ∨ c62 = 45 ∧ c63 = 95) →
  Forall (λ v, 0 <= v < 64) l → base.omap b64_value (b64_digit c62 c63 <$> l) = l.
Proof.
  intros Hc Hl. induction Hl as [|v l Hv Hl IH]; [done|]. cbn. by rewrite b64_value_digit // IH.
Qed.

Lemma before_padding_app s n : Forall (λ c, c ≠ 61) s → before_padding (s ++ replicate n 61) = s.
Proof.
  induction 1 as [|c s Hc Hs IH]; simpl; [by destruct n|].
  rewrite (proj2 (Z.eqb_neq c 61)) //. by rewrite IH.
Qed.

Lemma digit_not_padding c62 c63 v : c62 ≠ 61 → c63 ≠ 61 → 0 <= v < 64 → b64_digit c62 c63 v ≠ 61.
Proof. intros ? ? Hv. unfold b64_digit. repeat case_match; bool_to_prop; lia. Qed.

Lemma from_to_base64 b : bytes_ok b → from_base64 (to_base64 b) = b.
Proof.
  intros Hb. pose proof (sextets_range b Hb) as Hr. unfold from_base64, to_base64.
  rewrite before_padding_app.
  - by rewrite values_digits ?unsextets_sextets; [|done|by left|done].
  - apply Forall_fmap. eapply Forall_impl; [exact Hr|]. simpl. intros v Hv.
    by apply digit_not_padding.
Qed.

(** ** Encryption *)

Section encrypt_facts.
Context `{Aead}.

Lemma encrypt_Ret iv d k : length k = 32%nat →
  let '(ct, tag) := seal k iv (of_text d) in encrypt iv d k = Ret (iv ++ tag ++ ct).
Proof. intros Hk. unfold encrypt. rewrite Hk /=. by destruct (seal k iv (of_text d)). Qed.

Lemma decrypt_spec c k p :
  decrypt (Buf c) k = Ret p ↔
    length k = 32%nat ∧ ∃ iv, length iv = IV_LENGTH ∧ encrypt iv (Buf p) k = Ret c.
Proof.
  unfold decrypt. simpl of_base64. split.
  - case_match eqn:El; [done|]. apply Nat.ltb_ge in El. intros Hd.
    apply outcome_bind_Ret in Hd as (u & Hk%guard_js_Ret & Hd). apply Nat.eqb_eq in Hk.
    destruct (open k _ _ _) as [p'|] eqn:Eo; [|done]. apply Ret_inj in Hd as ->.
    split; [done|]. exists (subarray 0 IV_LENGTH c).
    apply open_seal in Eo. unfold IV_LENGTH, AUTH_TAG_LENGTH in *.
    split; [rewrite length_subarray; lia|]. unfold encrypt. rewrite Hk Eo. simpl. f_equal.
    rewrite /subarray drop_0. change (12 - 0)%nat with 12%nat. change (12 + 16 - 12)%nat with 16%nat.
    transitivity (take 12 c ++ drop 12 c); [f_equal|apply take_drop].
    transitivity (take 16 (drop 12 c) ++ drop 16 (drop 12 c)); [|apply take_drop].
    by rewrite drop_drop.
  - intros (Hk & iv & Hiv & He). pose proof (encrypt_Ret iv (Buf p) k Hk) as Hs.
    destruct (seal k iv (of_text (Buf p))) as [ct tag] eqn:Es. rewrite Hs in He.
    apply Ret_inj in He as <-. pose proof (seal_length k iv p) as Hl. simpl in Es. rewrite Es in Hl.
    destruct Hl as [Hct Htag]. simpl in Hct, Htag. unfold IV_LENGTH, AUTH_TAG_LENGTH in *.
    rewrite (proj2 (Nat.ltb_ge _ _)); [|rewrite !length_app; lia]. rewrite Hk /=.
    assert (subarray 0 12 (iv ++ tag ++ ct) = iv) as ->
      by (unfold subarray; rewrite drop_0; by apply take_app_exact).
    assert (subarray 12 28 (iv ++ tag ++ ct) = tag) as ->.
    { unfold subarray. rewrite (drop_app_exact iv) //. by apply take_app_exact. }
    rewrite (assoc_L (++)) (drop_app_exact (iv ++ tag)); [|rewrite length_app; lia].
    by rewrite (proj2 (open_seal k iv p ct tag) Es).
Qed.
End encrypt_facts.

(** A cipher that satisfies the laws, for examples: the tag repeats the key. *)
Definition toy_seal (k iv p : buffer) : buffer * buffer :=
  (p, take 16 (k ++ replicate 16 0)).
Definition toy_open (k iv tag ct : buffer) : option buffer :=
  if decide (tag = take 16 (k ++ replicate 16 0)) then Some ct else None.
Definition toy_aead : Aead.
Proof.
  refine {| seal := toy_seal; open := toy_open |}.
  - intros k iv p. split; [done|]. unfold toy_seal. cbn [snd].
    rewrite length_take length_app length_replicate. lia.
  - intros k iv p ct tag. unfold toy_open, toy_seal. case_decide; split; try done; intros [=]; by subst.
Defined.

(** authenticated encryption.  [decrypt] returns a plaintext exactly when the key
    has 32 bytes and the input is what [encrypt] makes of that plaintext with some
    12-byte IV: encryption round-trips, whether the ciphertext travels as bytes or as
    base64 text, and any other input, a truncated or altered one included, throws. *)
Theorem decrypt_iff `{Aead} (c k p : buffer) :
  bytes_ok c →
  (decrypt (Buf c) k = Ret p ↔
     length k = 32%nat ∧ ∃ iv, length iv = IV_LENGTH ∧ encrypt iv (Buf p) k = Ret c) ∧
  decrypt (Str (to_base64 c)) k = decrypt (Buf c) k.
Proof.
  intros Hc. split; [apply decrypt_spec|]. unfold decrypt. simpl of_base64.
  by rewrite from_to_base64.
Qed.

Lemma decrypt_iff_witness :
  let key := replicate 32 7 in
  ∃ c, @encrypt toy_aead (replicate 12 1) (Str (js "hello")) key = Ret c ∧
    @decrypt toy_aead (Str (to_base64 c)) key = Ret (js "hello").
Proof.
  intros key. eexists. split; [reflexivity|].
  match goal with |- @decrypt _ (Str (to_base64 ?c)) _ = _ => set (ct := c) end.
  assert (bytes_ok ct) as Hct by (apply (bool_decide_unpack _); by vm_compute).
  destruct (@decrypt_iff toy_aead ct key (js "hello") Hct) as [Hd ->].
  apply Hd. split; [done|]. by exists (replicate 12 1).
Defined.

(** ** Sessions *)

Section session_facts.
Context `{KeyAgreement}.

Lemma session_created secret p m :
  om_get p (createSession secret p m).1 = Some (MkSession (new_key_exchange secret) None false).
Proof. apply om_get_set_eq. Qed.

Lemma shared_by_text a b : length a = 32%nat → length b = 32%nat → ∃ key,
  length key = 32%nat ∧
  deriveSessionKey (new_key_exchange a) (Str (exportPublicKey (new_key_exchange b))) None = Ret key ∧
  deriveSessionKey (new_key_exchange b) (Str (exportPublicKey (new_key_exchange a))) None = Ret key.
Proof.
  intros Ha Hb. unfold deriveSessionKey, deriveSharedSecret, exportPublicKey. simpl.
  rewrite !from_to_base64; [|by apply public_ok..].
  destruct (shared_comm a b Ha Hb) as (s & -> & ->). eexists. split; [apply hkdf_length|done].
Qed.

Lemma complete_session p pub m s key :
  om_get p m = Some s → deriveSessionKey (keyExchange s) pub None = Ret key →
  completeSession p pub m = Ret (om_set p (MkSession (keyExchange s) (Some key) true) m, key).
Proof. intros Hs Hk. unfold completeSession. by rewrite Hs Hk. Qed.

(** A completion that throws (no session, or a key the library rejects) keeps the
    manager as it was: there is no new state. *)
Lemma complete_session_throws p pub m :
  om_get p m = None ∨ (∃ s e, om_get p m = Some s ∧ deriveSessionKey (keyExchange s) pub None = Throw e) →
  ∃ e, completeSession p pub m = Throw e.
Proof.
  unfold completeSession. intros [->|(s & e & -> & He)]; [by eexists|]. rewrite He. by exists e.
Qed.
End session_facts.

Definition toy_agreement : KeyAgreement.
Proof.
  refine {| getPublicKey := λ a, replicate 32 (be_value a mod 256);
            getSharedSecret := λ a b,
              if (length b =? 32)%nat then Ret [be_value a mod 256 + byte_at 0 b] else Throw RangeError;
            hkdf := λ s _ n, replicate n (byte_at 0 s) |}.
  - intros a _. split; [|done]. apply Forall_replicate. apply Z.mod_pos_bound. lia.
  - intros a b _ _. unfold byte_at. simpl. eexists. split; [reflexivity|]. do 2 f_equal. lia.
  - intros. apply length_replicate.
Defined.

(** session establishment.  When two nodes create a session for each other and
    each completes it with the base64 public key the other exported, both hold the
    same 32-byte key and [getSessionKey] returns it; until completion the session
    gives no key, completing a session never created throws, and the sessions of
    other peers keep their keys. *)
Theorem session_agreement `{KeyAgreement} (sa sb : buffer) (A B : jstr) (ma mb : SessionManager) :
  length sa = 32%nat → length sb = 32%nat →
  let '(ma1, pubA) := createSession sa B ma in
  let '(mb1, pubB) := createSession sb A mb in
  getSessionKey B ma1 = None ∧
  ∃ ma2 mb2 key, completeSession B (Str pubB) ma1 = Ret (ma2, key) ∧
    completeSession A (Str pubA) mb1 = Ret (mb2, key) ∧ length key = 32%nat ∧
    getSessionKey B ma2 = Some key ∧ getSessionKey A mb2 = Some key ∧
    (∀ p, p ≠ B → getSessionKey p ma2 = getSessionKey p ma) ∧
    (∀ p pub, om_get p ma = None → ∃ e, completeSession p pub ma = Throw e).
Proof.
  intros Hsa Hsb.
  destruct (createSession sa B ma) as [ma1 pubA] eqn:Ea.
  destruct (createSession sb A mb) as [mb1 pubB] eqn:Eb.
  pose proof (session_created sa B ma) as Ha. pose proof (session_created sb A mb) as Hb.
  rewrite Ea in Ha. rewrite Eb in Hb. simpl in Ha, Hb.
  injection Ea as <- <-. injection Eb as <- <-.
  destruct (shared_by_text sa sb Hsa Hsb) as (key & Hlen & Hka & Hkb).
  split; [by rewrite /getSessionKey Ha|]. eexists _, _, key.
  split; [exact (complete_session _ _ _ _ _ Ha Hka)|].
  split; [exact (complete_session _ _ _ _ _ Hb Hkb)|].
  split; [exact Hlen|]. split; [by rewrite /getSessionKey om_get_set_eq|].
  split; [by rewrite /getSessionKey om_get_set_eq|].
  split.
  - intros p Hp. by rewrite /getSessionKey !om_get_set_ne.
  - intros p pub Hp. apply complete_session_throws. by left.
Qed.

Lemma session_agreement_witness :
  let K := toy_agreement in
  let A := js "alice" in let B := js "bob" in
  let '(ma, pubA) := createSession (replicate 32 3) B [] in
  let '(mb, pubB) := createSession (replicate 32 4) A [] in
  ∃ ma2 mb2 key, completeSession B (Str pubB) ma = Ret (ma2, key) ∧
    completeSession A (Str pubA) mb = Ret (mb2, key) ∧ getSessionKey B ma2 = Some key ∧
    getSessionKey A mb2 = Some key ∧ length key = 32%nat.
Proof.
  intros K A B. destruct (@session_agreement K (replicate 32 3) (replicate 32 4) A B [] [] eq_refl eq_refl)
    as (_ & ma2 & mb2 & key & Ha & Hb & Hl & Hka & Hkb & _).
  exists ma2, mb2, key. exact (conj Ha (conj Hb (conj Hka (conj Hkb Hl)))).
Defined.

(** ** Node ids *)

Lemma node_id_digits b : bytes_ok b → length b = 32%nat →
  take 16 (to_base64url b) = b64_digit 45 95 <$> sextets (take 12 b).
Proof.
  intros Hb Hl. unfold to_base64url. rewrite -fmap_take. f_equal.
  do 12 (destruct b as [|? b]; [done|]). reflexivity.
Qed.

Lemma sextets_length12 b : length b = 12%nat → length (sextets b) = 16%nat.
Proof. intros Hl. by do 13 (destruct b as [|? b]; try done). Qed.

Lemma digits_inj c62 c63 l k : (c62 = 43 ∧ c63 = 47 ∨ c62 = 45 ∧ c63 = 95) →
  Forall (λ v, 0 <= v < 64) l → Forall (λ v, 0 <= v < 64) k →
  b64_digit c62 c63 <$> l = b64_digit c62 c63 <$> k → l = k.
Proof.
  intros Hc Hl Hk He. rewrite -(values_digits c62 c63 l) // -(values_digits c62 c63 k) //. by rewrite He.
Qed.

Section identity_facts.
Context `{Signature}.

Lemma new_identity_inv r k i : new_identity r k = Ret i → ed_public (id_privateKey i) = Ret (id_publicKey i).
Proof. unfold new_identity. by intros (p & Hp & [= <-])%outcome_bind_Ret. Qed.

Lemma node_id_of r k i : new_identity r k = Ret i →
  bytes_ok (take 12 (id_publicKey i)) ∧ length (take 12 (id_publicKey i)) = 12%nat ∧
  nodeId i = b64_digit 45 95 <$> sextets (take 12 (id_publicKey i)).
Proof.
  intros Hk%new_identity_inv%ed_public_ok. destruct Hk as [Hb Hl].
  split; [by apply bytes_ok_take|]. split; [rewrite length_take Hl; lia|by apply node_id_digits].
Qed.
End identity_facts.

(** C37: node ids.  Whatever the private key, an identity's node id is exactly 16
    characters of the URL-safe base64 alphabet, so it fits the 16-byte fields of
    packets and onion layers unchanged; and two identities share an id exactly when
    their public keys share the first 12 bytes. *)
Theorem nodeId_type `{Signature} r r' k k' (i j : Identity) :
  new_identity r k = Ret i → new_identity r' k' = Ret j →
  length (nodeId i) = 16%nat ∧ Forall (λ c, c ∈ url_alphabet) (nodeId i) ∧
  (nodeId i = nodeId j ↔ take 12 (id_publicKey i) = take 12 (id_publicKey j)).
Proof.
  intros (Hob & Hlb & ->)%node_id_of (Hob' & Hlb' & ->)%node_id_of.
  set (b := take 12 (id_publicKey i)) in *. set (b' := take 12 (id_publicKey j)) in *.
  split_and!.
  - by rewrite length_fmap sextets_length12.
  - apply Forall_fmap. eapply Forall_impl; [by apply sextets_range|]. intros v Hv.
    by apply b64_digit_url.
  - split; [|by intros ->]. intros He. apply digits_inj in He; [|by right|by apply sextets_range..].
    by rewrite -(unsextets_sextets b) // -(unsextets_sextets b') // He.
Qed.

Definition toy_signature : Signature.
Proof.
  refine {| ed_public := λ k, if (length k =? 32)%nat then Ret (replicate 32 (be_value k mod 256))
                              else Throw RangeError;
            ed_sign := λ m k, Ret [be_value k mod 256; be_value m mod 256];
            ed_verify := λ s m p, Some (bool_decide (s = [byte_at 0 p; be_value m mod 256])) |}.
  - intros k p. case_match eqn:E; [|done]. by apply Nat.eqb_eq in E.
  - intros k p. case_match; [|done]. intros [= <-]. split; [|done].
    change (bytes_ok (replicate 32 (be_value k mod 256))). apply Forall_replicate. apply Z.mod_pos_bound. lia.
  - intros k m p. case_match; [|done]. intros [= <-]. eexists. split; [reflexivity|]. split.
    + by repeat constructor; apply Z.mod_pos_bound.
    + by rewrite bool_decide_eq_true_2.
Defined.

Lemma nodeId_type_witness :
  ∃ i, @new_identity toy_signature (replicate 32 5) None = Ret i ∧
  nodeId i = js "BQUFBQUFBQUFBQUF" ∧ length (nodeId i) = 16%nat.
Proof.
  pose (i := MkIdentity (replicate 32 5) (replicate 32 5)).
  assert (@new_identity toy_signature (replicate 32 5) None = Ret i) as Hi by (by vm_compute).
  exists i. split; [exact Hi|]. split; [by vm_compute|].
  exact (proj1 (@nodeId_type toy_signature _ _ _ _ i i Hi Hi)).
Defined.

(** identities survive export.  An identity rebuilt from its exported private key
    is the same identity, with the same node id; and a message it signs verifies
    under the exported public key, the signature being sent as bytes or as base64
    text. *)
Theorem identity_roundtrip `{Signature} r r' k (i : Identity) (m : data) :
  bytes_ok (id_privateKey i) → new_identity r k = Ret i →
  fromPrivateKey r' (exportPrivateKey i) = Ret i ∧
  ∃ s, sign m i = Ret s ∧ verify m (Buf s) (Str (exportIdentityKey i)) = true ∧
    verify m (Str (to_base64 s)) (Buf (id_publicKey i)) = true.
Proof.
  intros Hok Hi%new_identity_inv. split.
  - pose proof (ed_public_size _ _ Hi) as Hlen. pose proof (from_to_base64 _ Hok) as Hb.
    unfold fromPrivateKey, new_identity, exportPrivateKey.
    destruct (to_base64 (id_privateKey i)) as [|c t] eqn:Ht.
    { rewrite -Hb in Hlen. done. }
    cbn [of_base64]. rewrite Hb Hi ret_bind. by destruct i.
  - destruct (ed_public_ok _ _ Hi) as [Hp _].
    destruct (ed_correct _ (of_text m) _ Hi) as (s & Hs & Hsb & Hv). exists s. split; [done|].
    unfold verify, exportIdentityKey. cbn [of_base64]. by rewrite !from_to_base64 // Hv.
Qed.

Lemma identity_roundtrip_witness :
  ∃ i s, @new_identity toy_signature (replicate 32 5) None = Ret i ∧
  @fromPrivateKey toy_signature [] (exportPrivateKey i) = Ret i ∧
  @sign toy_signature (Str (js "hi")) i = Ret s ∧
  @verify toy_signature (Str (js "hi")) (Buf s) (Str (exportIdentityKey i)) = true ∧
  @verify toy_signature (Str (js "ho")) (Buf s) (Str (exportIdentityKey i)) = false.
Proof.
  destruct (@identity_roundtrip toy_signature (replicate 32 5) [] None
    (MkIdentity (replicate 32 5) (replicate 32 5)) (Str (js "hi"))) as (Hi & s & Hs & Hv & _).
  - by apply Forall_replicate.
  - by vm_compute.
  - exists (MkIdentity (replicate 32 5) (replicate 32 5)), s. split; [by vm_compute|].
    split; [exact Hi|]. split; [exact Hs|]. split; [exact Hv|].
    injection Hs as <-. by vm_compute.
Defined.
