(* ===== verification/Onion.v ===== *)
(** * Onion routing (src/crypto/onion.js and the onion part of src/core/router.js)

    A packet for a route is wrapped once per hop, from the last to the first; each
    hop peels its layer and learns the next hop only.  IVs are an argument, one per
    layer in the order the layers are encrypted. *)

From S2P Require Import Prelude JsMap Bytes JsString MeshPacket Crypto.
Local Open Scope Z_scope.
#[local] Unset Default Proof Using.

Definition FLAG_IS_EXIT : Z := 0x01.
Definition FLAG_HAS_NEXT_HOP : Z := 0x02.
Definition NODE_ID_SIZE : nat := 16.

(** [if (nextHop)]: [null] and the empty string are false. *)
Definition truthy_id (n : option jstr) : bool :=
  match n with Some (_ :: _) => true | _ => false end.

Definition encodeLayer (nextHop : option jstr) (isExit : bool) (payload : buffer) : outcome buffer :=
  let flags := 0 in
  let flags := if isExit then Z.lor flags FLAG_IS_EXIT else flags in
  let flags := if truthy_id nextHop then Z.lor flags FLAG_HAS_NEXT_HOP else flags in
  let headerSize := (1 + if truthy_id nextHop then NODE_ID_SIZE else 0)%nat in
  let layer := buf_alloc (headerSize + length payload) in
  layer ← write_uint 1 flags 0 layer;
  let '(layer, offset) :=
    match nextHop with
    | Some ((_ :: _) as hop) =>
        let nodeIdBuf := utf8_encode (slice0 NODE_ID_SIZE (pad_end NODE_ID_SIZE 0 hop)) in
        (buf_copy nodeIdBuf 1 layer, (1 + NODE_ID_SIZE)%nat)
    | _ => (layer, 1%nat)
    end in
  Ret (buf_copy payload offset layer).

Record Layer := MkLayer { nextHop : option jstr; isExit : bool; payload : buffer }.

Definition decodeLayer (data : buffer) : outcome Layer :=
  flags ← read_uint 1 0 data;
  let isExit := negb (Z.land flags FLAG_IS_EXIT =? 0) in
  let hasNextHop := negb (Z.land flags FLAG_HAS_NEXT_HOP =? 0) in
  if hasNextHop then
    Ret (MkLayer (Some (strip_nul (utf8_decode (subarray 1 (1 + NODE_ID_SIZE) data)))) isExit
           (drop (1 + NODE_ID_SIZE) data))
  else Ret (MkLayer None isExit (drop 1 data)).

Section onion.
Context `{Aead}.

(** ** [OnionPacketBuilder] *)

(** The hops of a route with their keys. *)
Definition OnionPacketBuilder : Type := list (jstr * buffer).
Definition addLayer (nodeId : jstr) (sessionKey : buffer) (b : OnionPacketBuilder) :
    OnionPacketBuilder := b ++ [(nodeId, sessionKey)].

(** The loop of [build]: [prev] is the hop of the previous iteration, [i] the
    iteration, whose IV is [iv i]. *)
Fixpoint build_loop (iv : nat → buffer) (i : nat) (prev : option jstr)
    (reversedLayers : list (jstr * buffer)) (wrapped : buffer) : outcome buffer :=
  match reversedLayers with
  | [] => Ret wrapped
  | (nodeId, sessionKey) :: rest =>
      layer ← encodeLayer prev (i =? 0)%nat wrapped;
      wrapped ← encrypt (iv i) (Buf layer) sessionKey;
      build_loop iv (S i) (Some nodeId) rest wrapped
  end.
Definition build (iv : nat → buffer) (payload : data) (b : OnionPacketBuilder) : outcome buffer :=
  build_loop iv 0 None (reverse b) (of_text payload).

Definition unwrapLayer (encryptedData sessionKey : buffer) : outcome Layer :=
  decrypted ← decrypt (Buf encryptedData) sessionKey;
  decodeLayer decrypted.

Definition createOnionPacket (iv : nat → buffer) (payload : data) (routeWithKeys : list (jstr * buffer)) :
    outcome buffer :=
  let builder := foldl (λ b p, addLayer p.1 p.2 b) [] routeWithKeys in
  build iv payload builder.

Definition peelOnionLayer (encryptedData sessionKey : buffer) : outcome Layer :=
  unwrapLayer encryptedData sessionKey.

(** ** [OnionRouter] *)

(** [keys] is the lookup of a hop's key: [sessionKeys[nodeId]] or the session
    manager's [getSessionKey]. *)
Fixpoint wrap_loop (iv : nat → buffer) (keys : jstr → option buffer) (i : nat) (prev : option jstr)
    (reversedRoute : list jstr) (wrapped : buffer) : outcome buffer :=
  match reversedRoute with
  | [] => Ret wrapped
  | nodeId :: rest =>
      match keys nodeId with
      | None => Throw (Error "No session key for node")
      | Some key =>
          layer ← encodeLayer prev (i =? 0)%nat wrapped;
          wrapped ← encrypt (iv i) (Buf layer) key;
          wrap_loop iv keys (S i) (Some nodeId) rest wrapped
      end
  end.
(** An empty route returns the payload as it was given, a string included. *)
Definition wrap (iv : nat → buffer) (keys : jstr → option buffer) (payload : data) (route : list jstr) :
    outcome data :=
  match route with
  | [] => Ret payload
  | _ => w ← wrap_loop iv keys 0 None (reverse route) (of_text payload); Ret (Buf w)
  end.

Definition unwrap (encryptedPayload myKey : buffer) : outcome Layer :=
  decrypted ← decrypt (Buf encryptedPayload) myKey;
  decodeLayer decrypted.

(** ** The router's use of it *)

(** The keys of a route, in order; the first hop without a session stops it. *)
Fixpoint route_keys (m : SessionManager) (route : list jstr) : outcome (list (jstr * buffer)) :=
  match route with
  | [] => Ret []
  | nodeId :: rest =>
      match getSessionKey nodeId m with
      | None => Throw (Error "No session key for node")
      | Some key => ks ← route_keys m rest; Ret ((nodeId, key) :: ks)
      end
  end.
Definition buildOnionPacket (iv : nat → buffer) (m : SessionManager) (payload : data) (route : list jstr) :
    outcome buffer :=
  routeWithKeys ← route_keys m route;
  createOnionPacket iv payload routeWithKeys.

Definition processIncomingPacket (m : SessionManager) (localNodeId : jstr) (encryptedPacket : buffer) :
    outcome Layer :=
  match getSessionKey localNodeId m with
  | None => Throw (Error "No local session key available")
  | Some key => peelOnionLayer encryptedPacket key
  end.
End onion.

(** ** The bytes of a layer *)

(** Ids that survive a layer: not empty, and fit the 16-byte field. *)
Definition hop_ok (n : jstr) : Prop := id_ok n ∧ n ≠ [].
#[export] Instance hop_ok_dec n : Decision (hop_ok n).
Proof. unfold hop_ok. apply _. Defined.

Definition layer_flags (hop : option jstr) (exit : bool) : Z :=
  Z.b2z exit + 2 * Z.b2z (truthy_id hop).
Definition layer_bytes (hop : option jstr) (exit : bool) (pl : buffer) : buffer :=
  [layer_flags hop exit] ++ (match hop with Some n => id_bytes n | None => [] end) ++ pl.

Lemma buf_copy_exact src p m off : off = length p → length src = length m →
  buf_copy src off (p ++ m) = p ++ src.
Proof. intros. rewrite -(app_nil_r m) buf_copy_mid // app_nil_r //. Qed.

Lemma encodeLayer_bytes hop exit pl :
  (∀ n, hop = Some n → hop_ok n) → encodeLayer hop exit pl = Ret (layer_bytes hop exit pl).
Proof.
  intros Hh. unfold encodeLayer. set (fl := if truthy_id hop then _ else _).
  assert (fl = layer_flags hop exit) as Hfl by (unfold fl, layer_flags; by destruct exit, (truthy_id hop)).
  assert (0 <= fl < 256) as Hr by (rewrite Hfl; unfold layer_flags; destruct exit, (truthy_id hop); simpl; lia).
  rewrite buf_alloc_nil write_uint_zero; [|done|lia|done]. rewrite ret_bind.
  assert (be_bytes 1 fl = [fl]) as ->.
  { by rewrite be_bytes_1 Z.mod_small. }
  unfold layer_bytes. rewrite -Hfl. clearbody fl. clear Hfl. rewrite app_nil_l.
  destruct hop as [[|c n]|]; [by destruct (Hh [] eq_refl)| |].
  - destruct (Hh _ eq_refl) as [Hid _]. pose proof (length_id_bytes _ Hid) as Hl.
    change (utf8_encode (slice0 NODE_ID_SIZE (pad_end NODE_ID_SIZE 0 (c :: n)))) with (id_bytes (c :: n)).
    cbn [truthy_id]. unfold NODE_ID_SIZE in *.
    rewrite (buf_copy_zero _ 1 [fl]) ?Hl //; [|lia]. rewrite buf_copy_zero.
    + rewrite -!(assoc_L (++)). do 3 f_equal.
      match goal with |- context [buf_alloc ?k] => assert (k = 0%nat) as -> by lia end.
      by rewrite app_nil_r.
    + by rewrite length_app Hl.
    + lia.
  - rewrite (buf_copy_zero pl 1 [fl]) //; [|cbn [truthy_id]; lia].
    match goal with |- context [buf_alloc ?k] => assert (k = 0%nat) as -> by (cbn [truthy_id]; lia) end.
    by rewrite app_nil_r.
Qed.

Lemma decodeLayer_bytes hop exit pl :
  (∀ n, hop = Some n → hop_ok n) → decodeLayer (layer_bytes hop exit pl) = Ret (MkLayer hop exit pl).
Proof.
  intros Hh. unfold decodeLayer, layer_bytes.
  assert (∀ fl r, 0 <= fl < 256 → read_uint 1 0 ([fl] ++ r) = Ret fl) as Hread.
  { intros fl r Hfl. assert ([fl] = be_bytes 1 fl) as ->; [|by apply (read_be_mid 1 fl [])].
    by rewrite be_bytes_1 Z.mod_small. }
  rewrite Hread; [|unfold layer_flags; destruct exit, (truthy_id hop); simpl; lia]. rewrite ret_bind.
  destruct hop as [[|c n]|]; [by destruct (Hh [] eq_refl)| |].
  - destruct (Hh _ eq_refl) as [Hid _].
    set (b := [_] ++ _).
    assert (negb (Z.land (layer_flags (Some (c :: n)) exit) FLAG_HAS_NEXT_HOP =? 0) = true) as -> by (by destruct exit).
    assert (negb (Z.land (layer_flags (Some (c :: n)) exit) FLAG_IS_EXIT =? 0) = exit) as -> by (by destruct exit).
    destruct (read_id_bytes (c :: n) 1 b pl Hid eq_refl) as [Hr Hd].
    unfold read_id in Hr. unfold NODE_ID_SIZE, MeshPacket.NODE_ID_SIZE in *. by rewrite Hr Hd.
  - by destruct exit.
Qed.

(** ** Routes *)

(** What each hop of a route learns. *)
Fixpoint hops_of (route : list (jstr * buffer)) : list (option jstr * bool) :=
  match route with
  | [] => []
  | [_] => [(None, true)]
  | _ :: (((n, _) :: _) as rest) => (Some n, false) :: hops_of rest
  end.

Section travel.
Context `{Aead}.

(** The packet passes the hops of a route, each peeling with its key: what they
    learned, and what comes out. *)
Fixpoint travel (route : list (jstr * buffer)) (packet : buffer) :
    outcome (list (option jstr * bool) * buffer) :=
  match route with
  | [] => Ret ([], packet)
  | (_, key) :: rest =>
      l ← peelOnionLayer packet key;
      '(learned, out) ← travel rest (payload l);
      Ret ((nextHop l, isExit l) :: learned, out)
  end.

Definition route_ok (route : list (jstr * buffer)) : Prop :=
  Forall (λ p, hop_ok p.1 ∧ length p.2 = 32%nat) route.

(** The size of a wrapped packet: 29 bytes a layer, and 16 for each next hop. *)
Definition wrapped_length (n : nat) (route : list (jstr * buffer)) : nat :=
  n + 29 * length route + 16 * (length route - 1).

Lemma peel_encrypted iv hop exit pl key c :
  length iv = 12%nat → length key = 32%nat → (∀ n, hop = Some n → hop_ok n) →
  encrypt iv (Buf (layer_bytes hop exit pl)) key = Ret c →
  peelOnionLayer c key = Ret (MkLayer hop exit pl).
Proof.
  intros Hiv Hk Hh He. unfold peelOnionLayer, unwrapLayer.
  assert (decrypt (Buf c) key = Ret (layer_bytes hop exit pl)) as ->.
  { apply decrypt_spec. split; [done|]. by exists iv. }
  by rewrite ret_bind decodeLayer_bytes.
Qed.

Lemma createOnionPacket_build iv d rk :
  createOnionPacket iv d rk = build_loop iv 0 None (reverse rk) (of_text d).
Proof.
  unfold createOnionPacket, build. do 2 f_equal.
  rewrite -{2}(app_nil_l rk). generalize (@nil (jstr * buffer)).
  induction rk as [|[n k] rk IH]; intros acc; simpl; [by rewrite app_nil_r|].
  by rewrite IH /addLayer /= -(assoc_L (++)).
Qed.

Lemma encrypt_length iv b key c : length iv = 12%nat → encrypt iv (Buf b) key = Ret c →
  length c = (28 + length b)%nat.
Proof.
  intros Hiv He. unfold encrypt in He. apply outcome_bind_Ret in He as (u & _ & He). simpl in He.
  destruct (seal key iv b) as [ct tag] eqn:Es. apply Ret_inj in He as <-.
  destruct (seal_length key iv b) as [Hc Ht]. rewrite Es /= in Hc, Ht. rewrite !length_app. lia.
Qed.

Lemma encrypt_total iv b key : length key = 32%nat → ∃ c, encrypt iv (Buf b) key = Ret c.
Proof. intros Hk. unfold encrypt. rewrite Hk /=. destruct (seal _ _ _). by eexists. Qed.

(** The layers still to add, [rl] (last hop first), over the route [l] already wrapped. *)
Lemma build_loop_travel iv pl rl : (∀ i, length (iv i) = 12%nat) → ∀ l w,
  route_ok rl → route_ok l → travel l w = Ret (hops_of l, pl) →
  length w = wrapped_length (length pl) l →
  ∃ pkt, build_loop iv (length l) (fst <$> head l) rl w = Ret pkt ∧
    travel (reverse rl ++ l) pkt = Ret (hops_of (reverse rl ++ l), pl) ∧
    length pkt = wrapped_length (length pl) (reverse rl ++ l).
Proof.
  intros Hiv. induction rl as [|[n k] rl IH]; intros l w Hrl Hl Ht Hlen; cbn [build_loop].
  { by exists w. }
  apply Forall_cons in Hrl as [[Hn Hk] Hrl]. simpl in Hn, Hk.
  assert (∀ m, (fst <$> head l) = Some m → hop_ok m) as Hhead.
  { intros m Hm. destruct l as [|[m' k'] l]; [done|]. simplify_eq/=.
    by apply Forall_cons in Hl as [[? _] _]. }
  rewrite encodeLayer_bytes // ret_bind.
  destruct (encrypt_total (iv (length l)) (layer_bytes (fst <$> head l) (length l =? 0)%nat w) k Hk) as [c Hc].
  rewrite Hc ret_bind reverse_cons -(assoc_L (++)).
  apply (IH ((n, k) :: l) c); [done|by constructor| |].
  - cbn [travel]. erewrite peel_encrypted; [|by apply (Hiv (length l))|done|exact Hhead|exact Hc].
    rewrite ret_bind. cbn [payload nextHop isExit]. rewrite Ht ret_bind.
    by destruct l as [|[m k'] l].
  - rewrite (encrypt_length _ _ _ _ (Hiv (length l)) Hc). unfold layer_bytes, wrapped_length in *.
    rewrite !length_app Hlen. destruct l as [|[m k'] l]; simpl; [lia|].
    rewrite length_id_bytes; [|by apply (Hhead m)]. lia.
Qed.
End travel.

(** C5: onion routing.  For any route of hops with 32-byte keys and ids that fit,
    [createOnionPacket] succeeds, and the packet carried along the route, each hop
    peeling one layer with its key, tells every hop exactly the next hop of the
    route (the last one that it is the exit) and delivers the payload unchanged; the
    packet is longer than the payload by 29 bytes per hop and 16 per next hop. *)
Theorem onion_delivers `{Aead} iv (d : data) route :
  (∀ i, length (iv i) = 12%nat) → route_ok route →
  ∃ pkt, createOnionPacket iv d route = Ret pkt ∧
    travel route pkt = Ret (hops_of route, of_text d) ∧
    length pkt = wrapped_length (length (of_text d)) route.
Proof.
  intros Hiv Hr. rewrite createOnionPacket_build.
  destruct (build_loop_travel iv (of_text d) (reverse route) Hiv [] (of_text d))
    as (pkt & Hb & Ht & Hlen); [by apply Forall_reverse|constructor|done| |].
  { unfold wrapped_length. simpl. lia. }
  rewrite reverse_involutive app_nil_r in Ht, Hlen. by exists pkt.
Qed.

Lemma onion_delivers_witness :
  let route := [(js "relay", replicate 32 1); (js "second", replicate 32 2); (js "exit", replicate 32 3)] in
  ∃ pkt, @createOnionPacket toy_aead (λ i, replicate 12 (Z.of_nat i)) (Str (js "hi")) route = Ret pkt ∧
    @travel toy_aead route pkt = Ret ([(Some (js "second"), false); (Some (js "exit"), false); (None, true)], js "hi").
Proof.
  intros route. destruct (@onion_delivers toy_aead (λ i, replicate 12 (Z.of_nat i)) (Str (js "hi")) route)
    as (pkt & Hp & Ht & _).
  - intros i. by rewrite length_replicate.
  - apply (bool_decide_unpack _). by vm_compute.
  - exists pkt. split; [exact Hp|]. rewrite Ht. by vm_compute.
Defined.

(** ** The two builders *)

Section builders.
Context `{Aead}.

Lemma route_keys_all m route rk : route_keys m route = Ret rk →
  rk.*1 = route ∧ Forall (λ p, getSessionKey p.1 m = Some p.2) rk.
Proof.
  revert rk. induction route as [|n route IH]; intros rk; simpl; [by intros [= <-]|].
  destruct (getSessionKey n m) as [k|] eqn:Hk; [|done].
  intros (ks & Hks & [= <-])%outcome_bind_Ret. destruct (IH _ Hks) as [<- ?].
  split; [done|by constructor].
Qed.

Lemma route_keys_found m route :
  Forall (λ n, is_Some (getSessionKey n m)) route → ∃ rk, route_keys m route = Ret rk.
Proof.
  induction 1 as [|n route [k Hk] _ [rk IH]]; simpl; [by eexists|].
  rewrite Hk IH. by eexists.
Qed.

Lemma wrap_loop_keys iv keys i prev rl w c :
  wrap_loop iv keys i prev rl w = Ret c → Forall (λ n, is_Some (keys n)) rl.
Proof.
  revert i prev w. induction rl as [|n rl IH]; intros i prev w; simpl; [constructor|].
  destruct (keys n) as [k|] eqn:Hk; [|done].
  intros (l & _ & (w' & _ & Hw)%outcome_bind_Ret)%outcome_bind_Ret. constructor; [by eexists|by eapply IH].
Qed.

Lemma wrap_loop_build_loop iv keys rl : Forall (λ p, keys p.1 = Some p.2) rl → ∀ i prev w,
  wrap_loop iv keys i prev rl.*1 w = build_loop iv i prev rl w.
Proof.
  induction 1 as [|[n k] rl Hk _ IH]; intros i prev w; simpl in *; [done|].
  rewrite Hk. destruct (encodeLayer prev _ w); [|done]. rewrite !ret_bind.
  by destruct (encrypt (iv i) _ k); [rewrite !ret_bind|].
Qed.

Lemma encodeLayer_total hop exit pl : ∃ l, encodeLayer hop exit pl = Ret l.
Proof.
  unfold encodeLayer. set (fl := if truthy_id hop then _ else _).
  assert (0 <= fl < 256) as Hr by (unfold fl; by destruct exit, (truthy_id hop)).
  rewrite buf_alloc_nil write_uint_zero; [|done|lia|done]. rewrite ret_bind.
  destruct hop as [[|]|]; by eexists.
Qed.

(** A chain of layers is built exactly when every key has 32 bytes. *)
Lemma build_loop_total iv rl i prev w :
  (∃ pkt, build_loop iv i prev rl w = Ret pkt) ↔ Forall (λ p, length p.2 = 32%nat) rl.
Proof.
  revert i prev w. induction rl as [|[n k] rl IH]; intros i prev w; cbn [build_loop].
  { split; [constructor|by eexists]. }
  destruct (encodeLayer_total prev (i =? 0)%nat w) as [l ->]. rewrite ret_bind Forall_cons /=.
  destruct (decide (length k = 32%nat)) as [Hk|Hk].
  - destruct (encrypt_total (iv i) l k Hk) as [c ->]. rewrite ret_bind IH. tauto.
  - assert (encrypt (iv i) (Buf l) k = Throw RangeError) as ->; [|by split; [intros [? ?]|intros [? _]]].
    unfold encrypt. by rewrite (proj2 (Nat.eqb_neq _ _) Hk).
Qed.

(** With a key for every hop [wrap] is the builder's [build], errors included. *)
Lemma wrap_found iv m d route rk : route ≠ [] → route_keys m route = Ret rk →
  wrap iv (λ n, getSessionKey n m) d route = (w ← buildOnionPacket iv m d route; Ret (Buf w)).
Proof.
  intros Hne Hrk. unfold buildOnionPacket. rewrite Hrk ret_bind createOnionPacket_build.
  destruct (route_keys_all _ _ _ Hrk) as [<- Hall]. unfold wrap.
  destruct rk as [|p rk]; [done|]. rewrite [(p :: rk).*1]/=. unfold build.
  rewrite -(wrap_loop_build_loop iv (λ n, getSessionKey n m)); [|by apply Forall_reverse].
  by rewrite fmap_reverse.
Qed.
End builders.

(** the two onion builders agree.  For a non-empty route, [OnionRouter.wrap]
    (which looks a key up while it wraps) produces a packet exactly when the mesh
    router's [buildOnionPacket] (which collects the keys, then builds) does, and it is
    the same packet; both succeed exactly when every hop has a session key of 32
    bytes. *)
Theorem wrap_is_buildOnionPacket `{Aead} iv m d route : route ≠ [] →
  (∀ w, wrap iv (λ n, getSessionKey n m) d route = Ret w ↔
     ∃ pkt, w = Buf pkt ∧ buildOnionPacket iv m d route = Ret pkt) ∧
  ((∃ pkt, buildOnionPacket iv m d route = Ret pkt) ↔
     Forall (λ n, ∃ k, getSessionKey n m = Some k ∧ length k = 32%nat) route).
Proof.
  intros Hne. split.
  - intros w. split.
    + intros Hw. assert (Forall (λ n, is_Some (getSessionKey n m)) route) as Hall.
      { destruct route; [done|]. apply outcome_bind_Ret in Hw as (? & Hw & _).
        by apply wrap_loop_keys, Forall_reverse in Hw; rewrite reverse_involutive in Hw. }
      destruct (route_keys_found _ _ Hall) as [rk Hrk]. rewrite (wrap_found _ _ _ _ _ Hne Hrk) in Hw.
      apply outcome_bind_Ret in Hw as (pkt & Hp & [= <-]). by exists pkt.
    + intros (pkt & -> & Hp). pose proof Hp as (rk & Hrk & _)%outcome_bind_Ret.
      by rewrite (wrap_found _ _ _ _ _ Hne Hrk) Hp.
  - split.
    + intros [pkt (rk & Hrk & Hb)%outcome_bind_Ret]. rewrite createOnionPacket_build in Hb.
      assert (Forall (λ p, length p.2 = 32%nat) rk) as Hlen.
      { rewrite -(reverse_involutive rk). by apply Forall_reverse, (build_loop_total iv _ 0 None (of_text d)); exists pkt. }
      destruct (route_keys_all _ _ _ Hrk) as [<- Hk]. apply Forall_fmap.
      eapply Forall_impl; [apply Forall_and; split; [exact Hk|exact Hlen]|].
      intros [n k] [? ?]. by exists k.
    + intros Hall. destruct (route_keys_found m route) as [rk Hrk].
      { eapply Forall_impl; [exact Hall|]. by intros n (k & ? & _). }
      unfold buildOnionPacket. rewrite Hrk ret_bind createOnionPacket_build.
      apply build_loop_total, Forall_reverse. destruct (route_keys_all _ _ _ Hrk) as [<- Hk].
      rewrite Forall_fmap in Hall. eapply Forall_impl; [apply Forall_and; split; [exact Hk|exact Hall]|].
      intros [n k] [Hs (k' & Hs' & ?)]. simpl in *. by simplify_eq.
Qed.

Lemma wrap_is_buildOnionPacket_witness :
  let kx := MkKeyExchange [] [] in
  let m : SessionManager := om_set (js "a") (MkSession kx (Some (replicate 32 7)) true)
                              (om_set (js "b") (MkSession kx (Some (replicate 32 9)) true) []) in
  let iv := λ i, replicate 12 (Z.of_nat i) in
  let route := [js "a"; js "b"] in
  ∃ pkt, @buildOnionPacket toy_aead iv m (Str (js "hi")) route = Ret pkt ∧
    @wrap toy_aead iv (λ n, getSessionKey n m) (Str (js "hi")) route = Ret (Buf pkt).
Proof.
  intros kx m iv route.
  destruct (@wrap_is_buildOnionPacket toy_aead iv m (Str (js "hi")) route ltac:(done)) as [Heq [_ Hall]].
  destruct Hall as [pkt Hp].
  - repeat constructor; by eexists.
  - exists pkt. split; [exact Hp|]. apply Heq. by exists pkt.
Defined.
