(* ===== verification/IpManager.v ===== *)
(** * Virtual addresses and the address routing table (src/network/ip-manager.js)

    [VirtualIPManager] leases the addresses of the virtual network to node ids;
    [RoutingTable] maps virtual addresses to next hops.  Their events have no
    listener and are not modelled; [Date.now()] is an argument. *)

From S2P Require Import Prelude JsMap Bytes JsString Effects.
Local Open Scope Z_scope.
#[local] Unset Default Proof Using.

(** ** [VirtualIPManager] *)

Record allocation := MkAllocation { a_nodeId : jstr; allocatedAt : Z }.

(** [reservedIps] is a set of numbers; [None] is [NaN], which [reserve] can add. *)
Record VirtualIPManager := MkIpManager {
  networkBase : jstr;
  networkCidr : jstr;
  nextIp : Z;
  maxIp : Z;
  allocations : omap jstr allocation;
  nodeToIp : omap jstr jstr;
  reservedIps : oset (option Z)
}.
#[export] Instance eta_VirtualIPManager : Eta VirtualIPManager := λ m,
  MkIpManager (networkBase m) (networkCidr m) (nextIp m) (maxIp m) (allocations m) (nodeToIp m)
    (reservedIps m).

Record ip_config := MkIpConfig {
  c_networkBase : option jstr; c_networkCidr : option jstr; c_startIp : option Z; c_maxIp : option Z
}.
(** [s || d] on strings: absent and empty take the default. *)
Definition str_or (s : option jstr) (d : jstr) : jstr :=
  match s with Some ((_ :: _) as t) => t | _ => d end.
Definition new_ip_manager (c : ip_config) : VirtualIPManager :=
  MkIpManager (str_or (c_networkBase c) (js "10.200.0")) (str_or (c_networkCidr c) (js "10.200.0.0/16"))
    (js_or (c_startIp c) 2) (js_or (c_maxIp c) 65534) [] [] [Some 1; Some 255].

(** A missing element of an array in a template string. *)
Definition str_at (l : list jstr) (i : nat) : jstr := default (js "undefined") (l !! i).

Definition formatIp (m : VirtualIPManager) (lastOctets : Z) : jstr :=
  if lastOctets <=? 255 then networkBase m ++ 46 :: num_str lastOctets
  else
    let third := lastOctets / 256 in
    let fourth := lastOctets mod 256 in
    let baseParts := js_split 46 (networkBase m) in
    str_at baseParts 0 ++ 46 :: str_at baseParts 1 ++ 46 :: num_str third ++ 46 :: num_str fourth.

(** The search of [allocate]; [nextIp] moves past every candidate it looks at. *)
Fixpoint alloc_loop (fuel : nat) : SM VirtualIPManager (option jstr) :=
  match fuel with
  | O => mret None
  | S fuel =>
      m ← get;
      if nextIp m <=? maxIp m then
        let candidateIp := formatIp m (nextIp m) in
        modify (λ m, m <| nextIp ::= Z.succ |>) ;;
        if negb (om_has candidateIp (allocations m)) && negb (os_has (Some (nextIp m)) (reservedIps m))
        then mret (Some candidateIp)
        else alloc_loop fuel
      else mret None
  end.

Definition lease (now : Z) (nodeId ip : jstr) (m : VirtualIPManager) : VirtualIPManager :=
  m <| allocations ::= om_set ip (MkAllocation nodeId now) |> <| nodeToIp ::= om_set nodeId ip |>.

Definition allocate (now : Z) (nodeId : jstr) : SM VirtualIPManager jstr :=
  m ← get;
  match om_get nodeId (nodeToIp m) with
  | Some ip => mret ip
  | None =>
      ip ← alloc_loop (Z.to_nat (maxIp m - nextIp m + 1));
      match ip with
      | None => lift (Throw (Error "No available IP addresses"))
      | Some ip => modify (lease now nodeId ip) ;; mret ip
      end
  end.

Definition release (nodeId : jstr) (m : VirtualIPManager) : bool * VirtualIPManager :=
  match om_get nodeId (nodeToIp m) with
  | None | Some [] => (false, m)
  | Some ip => (true, m <| allocations ::= om_delete ip |> <| nodeToIp ::= om_delete nodeId |>)
  end.

Definition getIpForNode (nodeId : jstr) (m : VirtualIPManager) : option jstr :=
  match om_get nodeId (nodeToIp m) with Some ((_ :: _) as ip) => Some ip | _ => None end.
Definition getNodeForIp (ip : jstr) (m : VirtualIPManager) : option jstr :=
  a_nodeId <$> om_get ip (allocations m).

Definition owned_by_other (nodeId ip : jstr) (m : VirtualIPManager) : bool :=
  match om_get ip (allocations m) with
  | Some a => negb (bool_decide (a_nodeId a = nodeId))
  | None => false
  end.
Definition setAllocation (now : Z) (nodeId ip : jstr) : SM VirtualIPManager () :=
  m ← get;
  if owned_by_other nodeId ip m then lift (Throw (Error "IP already allocated to another node"))
  else
    match om_get nodeId (nodeToIp m) with
    | Some ((_ :: _) as existingIp) =>
        when (negb (bool_decide (existingIp = ip)))
          (modify (λ m, m <| allocations ::= om_delete existingIp |>))
    | _ => skip
    end ;;
    modify (lease now nodeId ip).

(** [parseInt(s, 10)]: white space, a sign, then as many digits as there are. *)
Definition is_space (c : Z) : bool :=
  bool_decide (c ∈ [9; 10; 11; 12; 13; 32; 0xA0; 0x1680; 0x2028; 0x2029; 0x202F; 0x205F; 0x3000; 0xFEFF])
  || (0x2000 <=? c) && (c <=? 0x200A).
Fixpoint skip_spaces (s : jstr) : jstr :=
  match s with c :: s' => if is_space c then skip_spaces s' else s | [] => [] end.
Fixpoint digits_prefix (s : jstr) : jstr :=
  match s with c :: s' => if decide (digit c) then c :: digits_prefix s' else [] | [] => [] end.
Definition unsigned_prefix (s : jstr) : option Z :=
  match digits_prefix s with [] => None | ds => dec_go 0 ds end.
Definition parse_int (s : jstr) : option Z :=
  match skip_spaces s with
  | 45 :: s' => Z.opp <$> unsigned_prefix s'
  | 43 :: s' => unsigned_prefix s'
  | s' => unsigned_prefix s'
  end.

Definition reserve (ip : jstr) (m : VirtualIPManager) : VirtualIPManager :=
  let lastOctet := js_split 46 ip !! 3%nat ≫= parse_int in
  m <| reservedIps ::= os_add lastOctet |>.

Definition isInNetwork (ip : jstr) (m : VirtualIPManager) : bool :=
  let parts := js_split 46 ip in
  let networkParts := js_split 46 (networkBase m) in
  (length parts =? 4)%nat && bool_decide (parts !! 0%nat = networkParts !! 0%nat)
  && bool_decide (parts !! 1%nat = networkParts !! 1%nat).

Definition getAllocations (m : VirtualIPManager) : list (jstr * jstr * Z) :=
  (λ p, (p.1, a_nodeId p.2, allocatedAt p.2)) <$> allocations m.
Definition ip_getStats (m : VirtualIPManager) : nat * jstr * jstr :=
  (om_size (allocations m), networkCidr m, formatIp m (nextIp m)).
Definition ip_clear (m : VirtualIPManager) : VirtualIPManager :=
  m <| allocations := [] |> <| nodeToIp := [] |> <| nextIp := 2 |>.

(** *** Histories *)

Inductive ip_op :=
  | OpAllocate (now : Z) (nodeId : jstr)
  | OpRelease (nodeId : jstr)
  | OpSet (now : Z) (nodeId ip : jstr)
  | OpReserve (ip : jstr)
  | OpClear.
Definition ip_step (m : VirtualIPManager) (o : ip_op) : VirtualIPManager :=
  match o with
  | OpAllocate now n => (allocate now n m).2
  | OpRelease n => (release n m).2
  | OpSet now n ip => (setAllocation now n ip m).2
  | OpReserve ip => reserve ip m
  | OpClear => ip_clear m
  end.
Definition ip_op_ok (o : ip_op) : Prop := match o with OpSet _ _ ip => ip ≠ [] | _ => True end.
#[export] Instance ip_op_ok_dec o : Decision (ip_op_ok o).
Proof. destruct o; simpl; apply _. Defined.

(** The two maps are inverse to each other, and no address is empty. *)
Record leases_ok (m : VirtualIPManager) : Prop := {
  leases_inverse : ∀ ip n, getNodeForIp ip m = Some n ↔ om_get n (nodeToIp m) = Some ip;
  leases_nonempty : ∀ n, om_get n (nodeToIp m) ≠ Some []
}.

(** An index [allocate] may use. *)
Definition free_index (m : VirtualIPManager) (i : Z) : Prop :=
  getNodeForIp (formatIp m i) m = None ∧ Some i ∉ reservedIps m.

Lemma formatIp_nonempty m i : formatIp m i ≠ [].
Proof.
  unfold formatIp. case_match; intros Hl%(f_equal length); revert Hl;
    rewrite !length_app /= ?length_app /=; lia.
Qed.

Lemma free_index_test m i :
  negb (om_has (formatIp m i) (allocations m)) && negb (os_has (Some i) (reservedIps m)) = true ↔
  free_index m i.
Proof.
  unfold free_index, getNodeForIp. rewrite andb_true_iff !negb_true_iff om_has_false os_has_false fmap_None //.
Qed.

(** The search: the first free index of the range, or none. *)
Lemma alloc_loop_spec fuel m : Z.of_nat fuel = Z.max 0 (maxIp m - nextIp m + 1) →
  (∃ i, nextIp m <= i <= maxIp m ∧ free_index m i ∧ (∀ j, nextIp m <= j < i → ¬ free_index m j) ∧
     alloc_loop fuel m = (Ret (Some (formatIp m i)), m <| nextIp := i + 1 |>)) ∨
  (∀ i, nextIp m <= i <= maxIp m → ¬ free_index m i) ∧
     alloc_loop fuel m = (Ret None, m <| nextIp := Z.max (nextIp m) (maxIp m + 1) |>).
Proof.
  revert m. induction fuel as [|fuel IH]; intros m Hf.
  { right. split; [intros; lia|]. rewrite Z.max_l; [by destruct m|lia]. }
  cbn [alloc_loop]. unfold mbind, SM_bind, get. rewrite (proj2 (Z.leb_le _ _)); [|lia].
  unfold modify. destruct (negb _ && negb _) eqn:Htest.
  { left. exists (nextIp m). apply free_index_test in Htest. split; [lia|]. split; [done|].
    split; [intros; lia|done]. }
  assert (¬ free_index m (nextIp m)) as Hn by (rewrite -free_index_test Htest; done).
  destruct (IH (m <| nextIp ::= Z.succ |>)) as [(i & Hi & Hfree & Hmin & Hrun)|[Hnone Hrun]]; simpl in *; [lia|..].
  - left. exists i. split; [lia|]. split; [exact Hfree|]. split; [|exact Hrun].
    intros j Hj. destruct (decide (j = nextIp m)) as [->|]; [done|]. apply Hmin. lia.
  - right. split.
    + intros i Hi. destruct (decide (i = nextIp m)) as [->|]; [done|]. apply Hnone. lia.
    + rewrite Hrun. unfold set_field. simpl. do 2 f_equal. lia.
Qed.

Lemma allocate_fuel m :
  Z.of_nat (Z.to_nat (maxIp m - nextIp m + 1)) = Z.max 0 (maxIp m - nextIp m + 1).
Proof. lia. Qed.

(** *** The invariant *)

Lemma lease_ok now n ip m : leases_ok m → ip ≠ [] →
  om_get n (nodeToIp m) = None → getNodeForIp ip m = None → leases_ok (lease now n ip m).
Proof.
  intros [Hinv Hne] Hip Hn Hfree. split; unfold lease, getNodeForIp in *; simpl in *.
  - intros ip' n'. rewrite !om_get_set. pose proof (Hinv ip' n') as Hi.
    case_decide; case_decide; subst; simpl; [split; congruence|..|done].
    + rewrite -Hi Hfree. split; congruence.
    + rewrite Hi Hn. split; congruence.
  - intros n'. rewrite om_get_set. case_decide; [by intros [=]|apply Hne].
Qed.

Lemma drop_lease_ok n ip m : leases_ok m → om_get n (nodeToIp m) = Some ip →
  leases_ok (m <| allocations ::= om_delete ip |> <| nodeToIp ::= om_delete n |>).
Proof.
  intros [Hinv Hne] Hn. split; unfold getNodeForIp in *; simpl in *.
  - intros ip' n'. rewrite !om_get_delete. pose proof (Hinv ip' n') as Hi. pose proof (Hinv ip n') as Hj.
    pose proof (proj2 (Hinv ip n) Hn) as Hk.
    case_decide; case_decide; subst; simpl; [done|..]; [|rewrite Hi Hn; split; congruence|done].
    split; [done|]. intros Hx. apply Hj in Hx. congruence.
  - intros n'. rewrite om_get_delete. case_decide; [done|apply Hne].
Qed.

(** Moving a node to a new address is dropping its lease and taking another. *)
Lemma lease_dropped now n ip ip' m :
  om_get n (nodeToIp m) = Some ip' → leases_ok (lease now n ip (m <| allocations ::= om_delete ip' |>
    <| nodeToIp ::= om_delete n |>)) → leases_ok (lease now n ip (m <| allocations ::= om_delete ip' |>)).
Proof.
  intros Hn [Hinv Hne]. split; unfold lease, getNodeForIp in *; simpl in *.
  - intros i k. rewrite Hinv !om_get_set om_get_delete. repeat case_decide; done.
  - intros k. specialize (Hne k). rewrite !om_get_set om_get_delete in Hne. rewrite om_get_set.
    repeat case_decide; done.
Qed.

Lemma release_ok n m : leases_ok m → leases_ok (release n m).2.
Proof.
  intros H. unfold release. destruct (om_get n (nodeToIp m)) as [[|c ip]|] eqn:Hn; [done| |done].
  by apply drop_lease_ok.
Qed.

Lemma allocate_ok now n m : leases_ok m → leases_ok (allocate now n m).2.
Proof.
  intros H. unfold allocate, mbind, SM_bind, get. destruct (om_get n (nodeToIp m)) as [ip|] eqn:Hn; [done|].
  destruct (alloc_loop_spec _ m (allocate_fuel m)) as [(i & _ & [Hi _] & _ & ->)|[_ ->]]; simpl.
  - apply (lease_ok now n (formatIp m i) (m <| nextIp := i + 1 |>)); try done; [by destruct H|].
    apply formatIp_nonempty.
  - by destruct H.
Qed.

Lemma setAllocation_ok now n ip m : ip ≠ [] → leases_ok m → leases_ok (setAllocation now n ip m).2.
Proof.
  intros Hip H. unfold setAllocation, mbind, SM_bind, get.
  destruct (owned_by_other n ip m) eqn:Hb; [done|].
  assert (∀ n', getNodeForIp ip m = Some n' → n' = n) as Hmine.
  { unfold getNodeForIp, owned_by_other in *. destruct (om_get ip (allocations m)) as [a|]; [|done].
    by bool_to_prop; intros n' [= <-]. }
  destruct (om_get n (nodeToIp m)) as [[|c ip']|] eqn:Hn.
  - by destruct (leases_nonempty m H n).
  - apply (lease_dropped now n ip (c :: ip')) in Hn as Hd.
    + destruct (decide (c :: ip' = ip)) as [<-|Hne].
      * rewrite bool_decide_true //=. destruct Hd as [Hinv Hd]. split; unfold lease, getNodeForIp in *; simpl in *; [|done].
        intros i k. rewrite -Hinv !om_get_set om_get_delete. by case_decide.
      * by rewrite bool_decide_false.
    + apply lease_ok; [by apply drop_lease_ok|done|simpl; apply om_get_delete_eq|].
      unfold getNodeForIp. simpl. rewrite om_get_delete. case_decide as Hd'; [done|].
      change (getNodeForIp ip m = None). destruct (getNodeForIp ip m) as [n'|] eqn:Ha; [|done].
      pose proof (Hmine _ eq_refl) as ->. apply (leases_inverse m H) in Ha. congruence.
  - apply lease_ok; try done. destruct (getNodeForIp ip m) as [n'|] eqn:Ha; [|done].
    pose proof (Hmine _ eq_refl) as ->. apply (leases_inverse m H) in Ha. by rewrite Hn in Ha.
Qed.

Lemma ip_step_ok m o : ip_op_ok o → leases_ok m → leases_ok (ip_step m o).
Proof.
  intros Ho H. destruct o; simpl in *.
  - by apply allocate_ok.
  - by apply release_ok.
  - by apply setAllocation_ok.
  - by destruct H.
  - by split.
Qed.

Lemma ip_run_ok c ops : Forall ip_op_ok ops → leases_ok (foldl ip_step (new_ip_manager c) ops).
Proof.
  intros Hops. cut (∀ m, leases_ok m → leases_ok (foldl ip_step m ops)).
  { intros H. apply H. split; [by intros ip n; split|done]. }
  induction Hops as [|o ops Ho _ IH]; intros m Hm; [done|]. by apply IH, ip_step_ok.
Qed.

(** C17: addresses are leased exclusively.  In every history of allocations, releases,
    explicit assignments (to non-empty addresses), reservations and clears, the two
    maps of the manager are inverse to each other: [getNodeForIp] and [getIpForNode]
    agree, so no two nodes hold the same address and no node holds two.  An
    allocation in such a state returns the node's address if it has one.  Else it
    looks from the counter [nextIp] upwards, never below it: it leases the first index
    at or above the counter whose address is not held and which is not recorded as
    reserved, and moves the counter past it; it throws exactly when there is none up to
    [maxIp], and then leases nothing.  Addresses released below the counter are not found
    again ([pool_never_refills]), and [reserve] records the last octet of an address, not
    its index ([reserve_wrong_address]). *)
Theorem leases_exclusive c ops now n : Forall ip_op_ok ops →
  let m := foldl ip_step (new_ip_manager c) ops in
  (∀ ip k, getNodeForIp ip m = Some k ↔ getIpForNode k m = Some ip) ∧
  let '(r, m') := allocate now n m in
  match r with
  | Ret ip => getIpForNode n m' = Some ip ∧
      (∀ k, k ≠ n → getIpForNode k m' = getIpForNode k m ∧ getIpForNode k m' ≠ Some ip) ∧
      (m' = m ∧ getIpForNode n m = Some ip ∨
       getIpForNode n m = None ∧ ∃ i, ip = formatIp m i ∧ nextIp m <= i <= maxIp m ∧ free_index m i ∧
         nextIp m' = i + 1 ∧ ∀ j, nextIp m <= j < i → ¬ free_index m j)
  | Throw _ => getIpForNode n m = None ∧ (∀ i, nextIp m <= i <= maxIp m → ¬ free_index m i) ∧
      allocations m' = allocations m ∧ nodeToIp m' = nodeToIp m
  end.
Proof.
  intros Hops m. pose proof (ip_run_ok c ops Hops : leases_ok m) as H. clearbody m.
  assert (∀ m, leases_ok m → ∀ k, getIpForNode k m = om_get k (nodeToIp m)) as Hget.
  { intros m0 H0 k. unfold getIpForNode. pose proof (leases_nonempty m0 H0 k).
    by destruct (om_get k (nodeToIp m0)) as [[|]|]. }
  split; [intros ip k; rewrite (Hget m H); apply (leases_inverse m H)|].
  pose proof (allocate_ok now n m H) as H'. destruct (allocate now n m) as [r m'] eqn:Ha. simpl in H'.
  unfold allocate, mbind, SM_bind, get in Ha. rewrite (Hget m H).
  destruct (om_get n (nodeToIp m)) as [ip|] eqn:Hn.
  { injection Ha as <- <-. rewrite (Hget m H) Hn. split; [done|]. split; [|by left].
    intros k Hk. split; [done|].
    rewrite (Hget m H) => Hk'. apply (leases_inverse m H) in Hk', Hn. congruence. }
  destruct (alloc_loop_spec _ m (allocate_fuel m)) as [(i & Hi & Hfree & Hmin & Hrun)|[Hnone Hrun]];
    rewrite Hrun in Ha; injection Ha as <- <-; [|done].
  rewrite (Hget _ H') /= om_get_set_eq. split; [done|]. split; [|right; split; [done|by exists i]].
  intros k Hk. rewrite (Hget _ H') (Hget _ H) /= om_get_set_ne //. split; [done|]. intros Hk'.
  destruct Hfree as [Hf _]. apply (leases_inverse m H) in Hk'. congruence.
Qed.

Definition default_ip_config : ip_config := MkIpConfig None None None None.

Lemma leases_exclusive_witness :
  let ops := [OpAllocate 0 (js "a"); OpSet 1 (js "b") (js "10.200.0.9"); OpAllocate 2 (js "c"); OpRelease (js "a")] in
  let m := foldl ip_step (new_ip_manager default_ip_config) ops in
  getIpForNode (js "c") m = Some (js "10.200.0.3") ∧
  ∀ k, getIpForNode k m = Some (js "10.200.0.3") → k = js "c".
Proof.
  intros ops m. split; [by vm_compute|]. intros k Hk.
  destruct (leases_exclusive default_ip_config ops 3 (js "d")) as [H _].
  - apply (bool_decide_unpack _). by vm_compute.
  - apply H in Hk. vm_compute in Hk. by simplify_eq.
Defined.

(** Released addresses never return to the pool: [nextIp] only grows. *)
Example pool_never_refills :
  let ops := [OpAllocate 0 (js "a"); OpAllocate 1 (js "b"); OpRelease (js "a"); OpRelease (js "b")] in
  let m := foldl ip_step (new_ip_manager (MkIpConfig None None None (Some 3))) ops in
  om_size (allocations m) = 0%nat ∧ (allocate 2 (js "c") m).1 = Throw (Error "No available IP addresses").
Proof. split; reflexivity. Qed.

(** [reserve] stores the last octet, [allocate] looks the whole index up: the reserved
    address is handed out, and another one is withheld. *)
Example reserve_wrong_address :
  let m := reserve (js "10.200.1.5") (new_ip_manager (MkIpConfig None None (Some 261) None)) in
  (allocate 0 (js "a") m).1 = Ret (js "10.200.1.5") ∧
  let m := reserve (js "10.200.1.5") (new_ip_manager (MkIpConfig None None (Some 5) None)) in
  (allocate 0 (js "a") m).1 = Ret (js "10.200.0.6").
Proof. split; reflexivity. Qed.

(** [clear] restarts at 2, whatever [startIp] was. *)
Example clear_forgets_start :
  nextIp (ip_clear (new_ip_manager (MkIpConfig None None (Some 100) None))) = 2.
Proof. reflexivity. Qed.

(** ** [RoutingTable] *)

Record ip_route := MkIpRoute {
  r_nodeId : jstr; r_nextHop : jstr; r_hops : Z; r_direct : bool; r_updatedAt : Z
}.
Record RoutingTable := MkRoutingTable {
  localNodeId : jstr; ip_routes : omap jstr ip_route; directPeers : oset jstr
}.
#[export] Instance eta_RoutingTable : Eta RoutingTable := λ t,
  MkRoutingTable (localNodeId t) (ip_routes t) (directPeers t).
Definition new_routing_table (local : jstr) : RoutingTable := MkRoutingTable local [] [].

Definition addDirectPeer (now : Z) (nodeId virtualIp : jstr) (t : RoutingTable) : RoutingTable :=
  t <| directPeers ::= os_add nodeId |>
    <| ip_routes ::= om_set virtualIp (MkIpRoute nodeId nodeId 1 true now) |>.
Definition removeDirectPeer (nodeId : jstr) (t : RoutingTable) : RoutingTable :=
  t <| directPeers ::= os_delete nodeId |>
    <| ip_routes ::= om_delete_if (λ _ r, bool_decide (r_nextHop r = nodeId)) |>.
Definition addRoute (now : Z) (virtualIp nodeId nextHop : jstr) (hops : Z) (t : RoutingTable) : RoutingTable :=
  if match om_get virtualIp (ip_routes t) with None => true | Some existing => hops <? r_hops existing end
  then t <| ip_routes ::= om_set virtualIp (MkIpRoute nodeId nextHop hops false now) |>
  else t.
Definition getRoute (virtualIp : jstr) (t : RoutingTable) : option ip_route := om_get virtualIp (ip_routes t).
Definition getNextHop (virtualIp : jstr) (t : RoutingTable) : option jstr :=
  r_nextHop <$> om_get virtualIp (ip_routes t).
Definition hasRoute (virtualIp : jstr) (t : RoutingTable) : bool := om_has virtualIp (ip_routes t).
Definition getAllRoutes (t : RoutingTable) : list (jstr * ip_route) := ip_routes t.
Definition getDirectPeers (t : RoutingTable) : list jstr := directPeers t.
Definition rt_clear (t : RoutingTable) : RoutingTable := t <| ip_routes := [] |> <| directPeers := [] |>.

Inductive rt_op :=
  | RtDirect (now : Z) (nodeId virtualIp : jstr)
  | RtRemove (nodeId : jstr)
  | RtRoute (now : Z) (virtualIp nodeId nextHop : jstr) (hops : Z)
  | RtClear.
Definition rt_step (t : RoutingTable) (o : rt_op) : RoutingTable :=
  match o with
  | RtDirect now n ip => addDirectPeer now n ip t
  | RtRemove n => removeDirectPeer n t
  | RtRoute now ip n hop hops => addRoute now ip n hop hops t
  | RtClear => rt_clear t
  end.

(** What the events since tell of an address: the next hop, with its distance. *)
Definition announces (ip hop : jstr) (hops : Z) (o : rt_op) : Prop :=
  match o with
  | RtDirect _ n ip' => ip = ip' ∧ hop = n ∧ hops = 1
  | RtRoute _ ip' _ hop' hops' => ip = ip' ∧ hop = hop' ∧ hops = hops'
  | _ => False
  end.
(** The event withdraws every route over the hop. *)
Definition withdraws (hop : jstr) (o : rt_op) : Prop :=
  match o with RtRemove n => n = hop | RtClear => True | _ => False end.
#[export] Instance withdraws_dec hop o : Decision (withdraws hop o).
Proof. destruct o; simpl; apply _. Defined.
(** Distances announced by other nodes are at least 1. *)
Definition rt_op_ok (o : rt_op) : Prop := match o with RtRoute _ _ _ _ hops => 1 <= hops | _ => True end.
#[export] Instance rt_op_ok_dec o : Decision (rt_op_ok o).
Proof. destruct o; simpl; apply _. Defined.

(** The invariant of the table after the history [h] (latest first). *)
Record table_ok (h : list rt_op) (t : RoutingTable) : Prop := {
  table_wf : om_wf (ip_routes t);
  table_hops : ∀ ip r, om_get ip (ip_routes t) = Some r → 1 <= r_hops r;
  table_direct : ∀ ip r, om_get ip (ip_routes t) = Some r → r_direct r = true →
    r_nextHop r = r_nodeId r ∧ r_hops r = 1 ∧ r_nodeId r ∈ directPeers t;
  (** every route was announced, and not withdrawn since *)
  table_announced : ∀ ip r, om_get ip (ip_routes t) = Some r → ∃ h1 o h2, h = h1 ++ o :: h2 ∧
    announces ip (r_nextHop r) (r_hops r) o ∧ Forall (λ o, ¬ withdraws (r_nextHop r) o) h1;
  (** what was announced since the last withdrawal of any kind is not shorter *)
  table_shortest : ∀ ip hop hops h1 o h2, h = h1 ++ o :: h2 → announces ip hop hops o →
    Forall (λ o, ∀ n, ¬ withdraws n o) h1 → ∃ r, om_get ip (ip_routes t) = Some r ∧ r_hops r <= hops
}.

(** Recording a route that is no longer than the one there. *)
Lemma table_set_ok h t o ip r ps : table_ok h t →
  (∀ n, ¬ withdraws n o) → announces ip (r_nextHop r) (r_hops r) o →
  (∀ ip' hop hops, announces ip' hop hops o → ip' = ip ∧ r_hops r <= hops) → 1 <= r_hops r →
  (∀ r', om_get ip (ip_routes t) = Some r' → r_hops r <= r_hops r') →
  (r_direct r = true → r_nextHop r = r_nodeId r ∧ r_hops r = 1 ∧ r_nodeId r ∈ ps) →
  (∀ n, n ∈ directPeers t → n ∈ ps) →
  table_ok (o :: h) (t <| directPeers := ps |> <| ip_routes ::= om_set ip r |>).
Proof.
  intros [Hwf Hh Hd Ha Hs] Hw Ho Hon H1 Hle Hdir Hps. split; simpl.
  - by apply om_set_wf.
  - intros ip' r'. rewrite om_get_set. case_decide; [by intros [= <-]|by apply Hh].
  - intros ip' r'. rewrite om_get_set. case_decide; [by intros [= <-]|].
    intros Hr' Hr. destruct (Hd _ _ Hr' Hr) as (? & ? & ?). auto.
  - intros ip' r'. rewrite om_get_set. case_decide as Heq; [subst; intros [= <-]; by exists [], o, h|].
    intros Hr'. destruct (Ha _ _ Hr') as (h1 & o' & h2 & -> & Ho' & Hw').
    exists (o :: h1), o', h2. split; [done|]. split; [done|]. by constructor.
  - intros ip' hop hops [|o1 h1] o' h2 Heq Ho' Hw'; simplify_eq/=; rewrite om_get_set.
    + destruct (Hon _ _ _ Ho') as [-> ?]. rewrite decide_True //. by exists r.
    + apply Forall_cons in Hw' as [_ Hw'].
      destruct (Hs _ _ _ h1 o' h2 eq_refl Ho' Hw') as (r' & Hr' & ?).
      case_decide; [subst; exists r; split; [done|]; specialize (Hle _ Hr'); lia|by exists r'].
Qed.

(** An event that changes nothing, its route being longer than the one there. *)
Lemma table_keep_ok h t o : table_ok h t → (∀ n, ¬ withdraws n o) →
  (∀ ip hop hops, announces ip hop hops o → ∃ r, om_get ip (ip_routes t) = Some r ∧ r_hops r <= hops) →
  table_ok (o :: h) t.
Proof.
  intros [Hwf Hh Hd Ha Hs] Hw Ho. split; try done.
  - intros ip r Hr. destruct (Ha _ _ Hr) as (h1 & o' & h2 & -> & Ho' & Hw').
    exists (o :: h1), o', h2. split; [done|]. split; [done|]. by constructor.
  - intros ip hop hops [|o1 h1] o' h2 Heq Ho' Hw'; simplify_eq/=; [by eapply Ho|].
    apply Forall_cons in Hw' as [_ Hw']. by eapply Hs.
Qed.

(** Withdrawing routes: what stays does not go over a withdrawn hop. *)
Lemma table_drop_ok h t o (P : jstr → ip_route → bool) ps : table_ok h t → (∃ n, withdraws n o) →
  (∀ ip hop hops, ¬ announces ip hop hops o) →
  (∀ ip r, P ip r = false → ¬ withdraws (r_nextHop r) o) →
  (∀ ip r, om_get ip (ip_routes t) = Some r → P ip r = false → r_direct r = true →
     r_nodeId r ∈ directPeers t → r_nodeId r ∈ ps) →
  table_ok (o :: h) (t <| directPeers := ps |> <| ip_routes ::= om_delete_if P |>).
Proof.
  intros [Hwf Hh Hd Ha Hs] [n Hn] Ho HP Hps. split; simpl.
  - by apply om_delete_if_wf.
  - intros ip r. rewrite om_get_delete_if; [|done]. repeat case_match; naive_solver.
  - intros ip r. rewrite om_get_delete_if; [|done].
    destruct (om_get ip (ip_routes t)) as [r'|] eqn:Hr'; [|done]. destruct (P ip r') eqn:HPr; [done|].
    intros [= <-] Hr. destruct (Hd _ _ Hr' Hr) as (? & ? & ?). eauto.
  - intros ip r. rewrite om_get_delete_if; [|done].
    destruct (om_get ip (ip_routes t)) as [r'|] eqn:Hr'; [|done]. destruct (P ip r') eqn:HPr; [done|].
    intros [= <-]. destruct (Ha _ _ Hr') as (h1 & o' & h2 & -> & Ho' & Hw').
    exists (o :: h1), o', h2. split; [done|]. split; [done|]. constructor; eauto.
  - intros ip hop hops [|o1 h1] o' h2 Heq Ho' Hw'; simplify_eq/=; [by destruct (Ho ip hop hops)|].
    apply Forall_cons in Hw' as [Hw' _]. by destruct (Hw' n).
Qed.

Lemma rt_step_ok h t o : rt_op_ok o → table_ok h t → table_ok (o :: h) (rt_step t o).
Proof.
  intros Hok H. destruct o as [now n ip|n|now ip n hop hops|]; simpl in *.
  - apply (table_set_ok h t (RtDirect now n ip) ip (MkIpRoute n n 1 true now) (os_add n (directPeers t)));
      simpl; try done; try lia.
    + by intros ip' hop hops (-> & -> & ->).
    + intros r' Hr'. by apply (table_hops h t H) in Hr'.
    + intros _. split; [done|]. split; [done|]. apply os_elem_add. by left.
    + intros k Hk. apply os_elem_add. by right.
  - apply table_drop_ok; simpl; try done; [by exists n|by intros ? ? ? []|..].
    + intros ip r Hr. bool_to_prop. congruence.
    + intros ip r Hr HP Hd Hin. bool_to_prop. apply os_elem_delete. split; [|done].
      intros <-. apply HP. by apply (table_direct h t H ip).
  - unfold addRoute. match goal with |- context [if ?b then _ else _] => destruct b eqn:Hc end.
    + apply (table_set_ok h t (RtRoute now ip n hop hops) ip (MkIpRoute n hop hops false now) (directPeers t));
        simpl; try done; try lia.
      * by intros ip' hop' hops' (-> & -> & ->).
      * intros r' Hr'. rewrite Hr' in Hc. bool_to_prop. lia.
    + apply table_keep_ok; [done|by intros ? []|]. intros ip' hop' hops' (-> & -> & ->).
      destruct (om_get ip (ip_routes t)) as [r|]; [|done]. exists r. bool_to_prop. done.
  - apply (table_drop_ok h t RtClear (λ _ _, true) []) in H; try done; [|by exists []|by intros ? ? ? []].
    assert (om_delete_if (λ _ _, true) (ip_routes t) = []) as Hnil.
    { unfold om_delete_if. apply filter_none, Forall_forall. by intros [] _. }
    unfold rt_clear, set_field in *. simpl in *. by rewrite Hnil in H.
Qed.

Lemma rt_run_ok local ops : Forall rt_op_ok ops →
  table_ok (reverse ops) (foldl rt_step (new_routing_table local) ops).
Proof.
  induction ops as [|o ops IH] using rev_ind; intros Hops.
  - split; simpl; try done; [constructor|]. by intros ip hop hops [].
  - apply Forall_app in Hops as [Hops [Ho _]%Forall_cons].
    rewrite foldl_snoc reverse_snoc. by apply rt_step_ok; [|apply IH].
Qed.

(** the address table routes over live, shortest announcements.  After any history
    of direct peers, announced routes, removals and clears, the route of an address
    was announced by an event after which its next hop was not withdrawn, so nothing
    is routed over a removed peer; a direct route leads to a current direct peer; and
    the distance is at most that of any announcement since the last withdrawal, each
    such address having a route. *)
Theorem routing_table_correct local ops : Forall rt_op_ok ops →
  let t := foldl rt_step (new_routing_table local) ops in
  (∀ ip r, getRoute ip t = Some r → ∃ before o after, ops = before ++ o :: after ∧
     announces ip (r_nextHop r) (r_hops r) o ∧ Forall (λ o, ¬ withdraws (r_nextHop r) o) after) ∧
  (∀ ip r, getRoute ip t = Some r → r_direct r = true → r_nextHop r ∈ getDirectPeers t) ∧
  (∀ ip hop hops before o after, ops = before ++ o :: after → announces ip hop hops o →
     Forall (λ o, ∀ n, ¬ withdraws n o) after → ∃ r, getRoute ip t = Some r ∧ r_hops r <= hops).
Proof.
  intros Hops t. pose proof (rt_run_ok local ops Hops : table_ok _ t) as [_ _ Hd Ha Hs]. split_and!.
  - intros ip r Hr. destruct (Ha _ _ Hr) as (h1 & o & h2 & Heq & Ho & Hw).
    exists (reverse h2), o, (reverse h1). split; [|split; [done|by apply Forall_reverse]].
    rewrite -(reverse_involutive ops) Heq reverse_app reverse_cons -(assoc_L (++)). done.
  - intros ip r Hr Hdir. destruct (Hd _ _ Hr Hdir) as (-> & _ & ?). done.
  - intros ip hop hops before o after Heq Ho Hw. apply (Hs ip hop hops (reverse after) o (reverse before)).
    + by rewrite Heq reverse_app reverse_cons -(assoc_L (++)).
    + done.
    + by apply Forall_reverse.
Qed.

Lemma routing_table_correct_witness :
  let ops := [RtDirect 0 (js "a") (js "10.200.0.2"); RtRoute 1 (js "10.200.0.9") (js "x") (js "a") 3;
              RtDirect 2 (js "b") (js "10.200.0.3"); RtRoute 3 (js "10.200.0.9") (js "x") (js "b") 2] in
  let t := foldl rt_step (new_routing_table (js "me")) ops in
  getNextHop (js "10.200.0.9") t = Some (js "b") ∧
  (∀ ip r, getRoute ip t = Some r → r_direct r = true → r_nextHop r ∈ [js "a"; js "b"]) ∧
  getNextHop (js "10.200.0.9") (removeDirectPeer (js "b") t) = None.
Proof.
  intros ops t. split; [by vm_compute|]. split; [|by vm_compute].
  destruct (routing_table_correct (js "me") ops) as (_ & Hd & _).
  - apply (bool_decide_unpack _). by vm_compute.
  - exact Hd.
Defined.

(** The table keeps one route per address: removing the peer of the shorter route
    leaves the address without the longer one announced before. *)
Example alternative_route_forgotten :
  let t := foldl rt_step (new_routing_table (js "me"))
    [RtDirect 0 (js "a") (js "10.200.0.2"); RtDirect 0 (js "b") (js "10.200.0.3");
     RtRoute 1 (js "10.200.0.9") (js "x") (js "b") 2; RtRoute 2 (js "10.200.0.9") (js "x") (js "a") 3;
     RtRemove (js "b")] in
  hasRoute (js "10.200.0.9") t = false.
Proof. reflexivity. Qed.
