(* ===== verification/NatTable.v ===== *)
(** * The NAT mapping table (src/exit/nat.js)

    Which node a flow belongs to, kept while it is used.  [Date.now()] is an
    argument; the table's events have no listener and are not modelled. *)

From S2P Require Import Prelude JsMap Bytes JsString.
Local Open Scope Z_scope.
#[local] Unset Default Proof Using.

Record nat_entry := MkNatEntry {
  ne_key : jstr; srcNodeId : jstr; ne_srcIp : jstr; ne_srcPort : Z; ne_dstIp : jstr; ne_dstPort : Z;
  ne_protocol : jstr; createdAt : Z; lastUsed : Z
}.
#[export] Instance eta_nat_entry : Eta nat_entry := λ e,
  MkNatEntry (ne_key e) (srcNodeId e) (ne_srcIp e) (ne_srcPort e) (ne_dstIp e) (ne_dstPort e)
    (ne_protocol e) (createdAt e) (lastUsed e).

(** [cleanupInterval] is whether the timer runs. *)
Record NATTable := MkNATTable { entries : omap jstr nat_entry; timeout : Z; cleanupInterval : bool }.
#[export] Instance eta_NATTable : Eta NATTable := λ t,
  MkNATTable (entries t) (timeout t) (cleanupInterval t).
Definition new_nat_table (configTimeout : option Z) : NATTable :=
  MkNATTable [] (js_or configTimeout 300000) false.

Definition nat_start (t : NATTable) : NATTable := t <| cleanupInterval := true |>.
Definition nat_table_stop (t : NATTable) : NATTable :=
  let t := if cleanupInterval t then t <| cleanupInterval := false |> else t in
  t <| entries := [] |>.

(** [`${srcIp}:${srcPort}:${dstIp}:${dstPort}:${protocol}`] *)
Definition flow_key (srcIp : jstr) (srcPort : Z) (dstIp : jstr) (dstPort : Z) (protocol : jstr) : jstr :=
  srcIp ++ 58 :: num_str srcPort ++ 58 :: dstIp ++ 58 :: num_str dstPort ++ 58 :: protocol.

Definition createMapping (now : Z) (nodeId srcIp : jstr) (srcPort : Z) (dstIp : jstr) (dstPort : Z)
    (protocol : jstr) (t : NATTable) : nat_entry * NATTable :=
  let key := flow_key srcIp srcPort dstIp dstPort protocol in
  match om_get key (entries t) with
  | Some entry =>
      let entry := entry <| lastUsed := now |> in
      (entry, t <| entries ::= om_set key entry |>)
  | None =>
      let entry := MkNatEntry key nodeId srcIp srcPort dstIp dstPort protocol now now in
      (entry, t <| entries ::= om_set key entry |>)
  end.

Definition findMapping (now : Z) (key : jstr) (t : NATTable) : option nat_entry * NATTable :=
  match om_get key (entries t) with
  | Some entry =>
      let entry := entry <| lastUsed := now |> in
      (Some entry, t <| entries ::= om_set key entry |>)
  | None => (None, t)
  end.

Definition findByResponse (now : Z) (dstIp : jstr) (dstPort : Z) (srcIp : jstr) (srcPort : Z)
    (protocol : jstr) (t : NATTable) : option nat_entry * NATTable :=
  findMapping now (flow_key dstIp dstPort srcIp srcPort protocol) t.

Definition removeMapping (key : jstr) (t : NATTable) : NATTable :=
  match om_get key (entries t) with
  | Some _ => t <| entries ::= om_delete key |>
  | None => t
  end.

Definition nat_cleanup (now : Z) (t : NATTable) : NATTable :=
  let expired := om_keys (filter (λ p, timeout t < now - lastUsed p.2) (entries t)) in
  foldl (λ t key, removeMapping key t) t expired.

Definition nat_table_stats (t : NATTable) : nat := om_size (entries t).

(** ** Facts *)

(** The colons of a key are those of the template. *)
Lemma flow_key_inj s p d q pr s' p' d' q' pr' :
  58 ∉ s → 58 ∉ s' → 58 ∉ d → 58 ∉ d' →
  flow_key s p d q pr = flow_key s' p' d' q' pr' → s = s' ∧ p = p' ∧ d = d' ∧ q = q' ∧ pr = pr'.
Proof.
  intros Hs Hs' Hd Hd'. unfold flow_key.
  assert (∀ n, 58 ∉ num_str n) as Hn by (intros n; apply num_str_no_char; unfold digit; lia).
  intros [-> H]%sep_inj; [|done|done]. apply sep_inj in H as [->%num_str_inj H]; [|done|done].
  apply sep_inj in H as [-> H]; [|done|done]. by apply sep_inj in H as [->%num_str_inj ->].
Qed.

Lemma nat_entries_remove key t : entries (removeMapping key t) = om_delete key (entries t).
Proof.
  unfold removeMapping. destruct (om_get key (entries t)) eqn:Hk; [done|]. symmetry.
  apply filter_all, Forall_forall. intros [k e] Hin Hkk. simpl in Hkk. subst.
  assert (is_Some (om_get key (entries t))) as [? ?]; [|congruence].
  apply om_get_keys. apply list_elem_of_fmap. by exists (key, e).
Qed.

(** Removing a list of keys. *)
Lemma nat_remove_all keys t :
  let t' := foldl (λ t key, removeMapping key t) t keys in
  timeout t' = timeout t ∧
  ∀ k, om_get k (entries t') = if decide (k ∈ keys) then None else om_get k (entries t).
Proof.
  revert t. induction keys as [|key keys IH]; intros t; simpl; [done|].
  destruct (IH (removeMapping key t)) as [Ht He]. split.
  - rewrite Ht. unfold removeMapping. by case_match.
  - intros k. rewrite He nat_entries_remove om_get_delete.
    repeat case_decide; try done; set_solver.
Qed.

Definition nat_table_wf (t : NATTable) : Prop := om_wf (entries t).

(** The cleanup drops exactly the mappings unused for longer than the timeout. *)
Lemma nat_cleanup_get now t k : nat_table_wf t →
  om_get k (entries (nat_cleanup now t)) =
    match om_get k (entries t) with
    | Some e => if decide (timeout t < now - lastUsed e) then None else Some e
    | None => None
    end.
Proof.
  intros Hwf. unfold nat_cleanup. rewrite (proj2 (nat_remove_all _ t) k).
  set (P := λ p : jstr * nat_entry, timeout t < now - lastUsed p.2).
  assert (k ∈ om_keys (filter P (entries t)) ↔ ∃ e, om_get k (entries t) = Some e ∧ P (k, e)) as Hin.
  { unfold om_keys. rewrite list_elem_of_fmap. split.
    - intros ([k' e] & -> & [HP Hin]%list_elem_of_filter). exists e. split; [|done]. by apply om_elem_get.
    - intros (e & Hg & HP). exists (k, e). split; [done|]. apply list_elem_of_filter.
      split; [done|]. by apply om_get_Some_elem. }
  case_decide as Hd.
  - apply Hin in Hd as (e & -> & HP). by rewrite decide_True.
  - destruct (om_get k (entries t)) as [e|] eqn:Hg; [|done].
    rewrite decide_False //. intros HP. apply Hd, Hin. by exists e.
Qed.

Lemma nat_cleanup_wf now t : nat_table_wf t → nat_table_wf (nat_cleanup now t) ∧
  timeout (nat_cleanup now t) = timeout t.
Proof.
  intros Hwf. unfold nat_cleanup. split; [|apply nat_remove_all].
  match goal with |- context [foldl _ _ ?l] => generalize l end.
  intros keys. revert t Hwf. induction keys as [|key keys IH]; intros t Hwf; simpl; [done|].
  apply IH. unfold nat_table_wf. rewrite nat_entries_remove. by apply om_delete_wf.
Qed.

(** ** Histories *)

Inductive nat_op :=
  | NatCreate (node srcIp : jstr) (srcPort : Z) (dstIp : jstr) (dstPort : Z) (proto : jstr)
  | NatFind (key : jstr)
  | NatResponse (dstIp : jstr) (dstPort : Z) (srcIp : jstr) (srcPort : Z) (proto : jstr)
  | NatRemove (key : jstr)
  | NatCleanup
  | NatStart
  | NatStop.
Definition nat_apply (t : NATTable) (o : Z * nat_op) : NATTable :=
  let now := o.1 in
  match o.2 with
  | NatCreate n s p d q pr => (createMapping now n s p d q pr t).2
  | NatFind k => (findMapping now k t).2
  | NatResponse d q s p pr => (findByResponse now d q s p pr t).2
  | NatRemove k => removeMapping k t
  | NatCleanup => nat_cleanup now t
  | NatStart => nat_start t
  | NatStop => nat_table_stop t
  end.
(** The event removes the mapping by name. *)
Definition nat_removes (key : jstr) (o : nat_op) : Prop :=
  match o with NatRemove k => k = key | NatStop => True | _ => False end.
#[export] Instance nat_removes_dec key o : Decision (nat_removes key o).
Proof. destruct o; simpl; apply _. Defined.

Lemma nat_apply_wf t o : nat_table_wf t → nat_table_wf (nat_apply t o).
Proof.
  intros Hwf. destruct o as [now []]; unfold nat_table_wf, nat_apply in *; cbn [fst snd].
  - unfold createMapping. cbv zeta. by destruct (om_get _ _); apply om_set_wf.
  - unfold findMapping. by destruct (om_get _ _); [apply om_set_wf|].
  - unfold findByResponse, findMapping. by destruct (om_get _ _); [apply om_set_wf|].
  - rewrite nat_entries_remove. by apply om_delete_wf.
  - by apply nat_cleanup_wf.
  - done.
  - unfold nat_table_stop. destruct (cleanupInterval t); apply NoDup_nil_2.
Qed.

(** The flow of a mapping: everything but its time of use. *)
Definition same_flow (e e' : nat_entry) : Prop := e <| lastUsed := 0 |> = e' <| lastUsed := 0 |>.

(** Cases on the lookup the goal branches on. *)
Local Ltac destruct_lookup e H :=
  match goal with |- context [match ?x with Some _ => _ | None => _ end] => destruct x as [e|] eqn:H end.

(** One event keeps a mapping last used at [T] or later, and its flow. *)
Lemma nat_apply_keeps T t now o key e : nat_table_wf t → om_get key (entries t) = Some e →
  T <= lastUsed e → T <= now <= T + timeout t → ¬ nat_removes key o →
  timeout (nat_apply t (now, o)) = timeout t ∧
  ∃ e', om_get key (entries (nat_apply t (now, o))) = Some e' ∧ same_flow e e' ∧ T <= lastUsed e'.
Proof.
  intros Hwf He Hle Hnow Hr.
  assert (∀ k e0, om_get k (entries t) = Some e0 → ∃ e',
    om_get key (om_set k (e0 <| lastUsed := now |>) (entries t)) = Some e' ∧ same_flow e e' ∧
    T <= lastUsed e') as Htouch.
  { intros k e0 Hk. rewrite om_get_set. case_decide; subst.
    - rewrite He in Hk. injection Hk as <-. eexists. split; [done|]. split; [done|]. simpl. lia.
    - by exists e. }
  assert (∃ e', om_get key (entries t) = Some e' ∧ same_flow e e' ∧ T <= lastUsed e')
    as Hsame by (by exists e).
  destruct o as [n s p d q pr|k|d q s p pr|k| | |]; unfold nat_apply; cbn [fst snd].
  - unfold createMapping. cbv zeta. destruct_lookup e0 Hk; simpl; (split; [done|]).
    + by apply Htouch.
    + rewrite om_get_set_ne; [done|]. intros ->. congruence.
  - unfold findMapping. destruct_lookup e0 Hk; simpl; (split; [done|]); auto.
  - unfold findByResponse, findMapping.
    destruct_lookup e0 Hk; simpl; (split; [done|]); auto.
  - split; [unfold removeMapping; by case_match|]. by rewrite nat_entries_remove om_get_delete_ne.
  - split; [by apply nat_cleanup_wf|]. rewrite nat_cleanup_get // He decide_False; [by exists e|]. lia.
  - done.
  - by destruct (Hr I).
Qed.

Lemma nat_run_keeps T key ops : ∀ t e, nat_table_wf t → om_get key (entries t) = Some e →
  T <= lastUsed e → Forall (λ o, T <= o.1 <= T + timeout t ∧ ¬ nat_removes key o.2) ops →
  ∃ e', om_get key (entries (foldl nat_apply t ops)) = Some e' ∧ same_flow e e'.
Proof.
  induction ops as [|[now o] ops IH]; intros t e Hwf He HT Hops; simpl; [by exists e|].
  apply Forall_cons in Hops as [[Hnow Hr] Hops]. simpl in Hnow, Hr.
  destruct (nat_apply_keeps T t now o key e Hwf He HT Hnow Hr) as (Hto & e' & He' & Hs & HT').
  destruct (IH (nat_apply t (now, o)) e') as (e'' & ? & Hs'); [by apply nat_apply_wf|done..| |].
  - by rewrite Hto.
  - exists e''. split; [done|]. unfold same_flow in *. congruence.
Qed.

Lemma nat_run_wf t ops : nat_table_wf t → nat_table_wf (foldl nat_apply t ops).
Proof. revert t. induction ops as [|o ops IH]; intros t Hwf; [done|]. by apply IH, nat_apply_wf. Qed.

Definition no_colon (s : jstr) : Prop := 58 ∉ s.
#[export] Instance no_colon_dec s : Decision (no_colon s).
Proof. unfold no_colon. apply _. Defined.

(** a NAT mapping is found by the responses of its flow, and only by them.  In
    every history, once a node has created a mapping at time [T] (a new one being
    recorded for that node), whatever else happens within the timeout except
    removing it by name, the response packet of the flow finds a mapping of the same
    node and flow; a response of any other flow computes another key (addresses
    having no colon); and a cleanup leaves exactly the mappings used within the
    timeout. *)
Theorem nat_mapping_lives cfg before T node srcIp srcPort dstIp dstPort proto after now :
  let t0 := foldl nat_apply (new_nat_table cfg) before in
  let key := flow_key srcIp srcPort dstIp dstPort proto in
  let e := (createMapping T node srcIp srcPort dstIp dstPort proto t0).1 in
  let t1 := (createMapping T node srcIp srcPort dstIp dstPort proto t0).2 in
  Forall (λ o, T <= o.1 <= T + timeout t1 ∧ ¬ nat_removes key o.2) after →
  let t2 := foldl nat_apply t1 after in
  (om_get key (entries t0) = None → srcNodeId e = node ∧ ne_srcIp e = srcIp ∧ ne_srcPort e = srcPort) ∧
  (∃ e' t3, findByResponse now srcIp srcPort dstIp dstPort proto t2 = (Some e', t3) ∧ same_flow e e') ∧
  (∀ s p d q pr, no_colon srcIp → no_colon dstIp → no_colon s → no_colon d →
     flow_key s p d q pr = key → (s, p, d, q, pr) = (srcIp, srcPort, dstIp, dstPort, proto)) ∧
  (∀ k e', om_get k (entries (nat_cleanup now t2)) = Some e' ↔
     om_get k (entries t2) = Some e' ∧ now - lastUsed e' <= timeout t2).
Proof.
  intros t0 key e t1 Hafter t2.
  assert (createMapping T node srcIp srcPort dstIp dstPort proto t0 = (e, t1)) as Hc
    by (unfold e, t1; by destruct (createMapping _ _ _ _ _ _ _ _)).
  clearbody e t1.
  assert (nat_table_wf t0) as Hwf0 by (apply nat_run_wf, NoDup_nil_2).
  assert (nat_table_wf t1) as Hwf1.
  { pose proof (nat_apply_wf t0 (T, NatCreate node srcIp srcPort dstIp dstPort proto) Hwf0) as H.
    unfold nat_apply in H. simpl in H. by rewrite Hc in H. }
  assert (om_get key (entries t1) = Some e ∧ T <= lastUsed e ∧
    (om_get key (entries t0) = None → srcNodeId e = node ∧ ne_srcIp e = srcIp ∧ ne_srcPort e = srcPort))
    as (He & HT & Hnew).
  { unfold createMapping in Hc. fold key in Hc. destruct (om_get key (entries t0)) as [e0|];
      injection Hc as <- <-; simpl; rewrite om_get_set_eq; done. }
  destruct (nat_run_keeps T key after t1 e Hwf1 He HT Hafter) as (e' & He' & Hs).
  split; [exact Hnew|]. split; [|split].
  - unfold findByResponse, findMapping. fold key. fold t2 in He'. rewrite He'. eexists _, _.
    split; [done|]. exact Hs.
  - intros s p d q pr H1 H2 H3 H4 Hk. by apply flow_key_inj in Hk as (-> & -> & -> & -> & ->).
  - intros k e2. rewrite nat_cleanup_get; [|by apply nat_run_wf].
    destruct (om_get k (entries t2)) as [e3|]; [|naive_solver].
    case_decide; split; try done; [by intros [[= ->] ?]; lia|by intros [= ->]; split; [|lia]|by intros [? ?]].
Qed.

Lemma nat_mapping_lives_witness :
  let t0 := foldl nat_apply (new_nat_table None)
    [(0, NatCreate (js "n1") (js "10.200.0.3") 5000 (js "1.1.1.1") 53 (js "udp"))] in
  let t1 := (createMapping 10 (js "n2") (js "10.200.0.4") 5000 (js "1.1.1.1") 53 (js "udp") t0).2 in
  let t2 := foldl nat_apply t1 [(290000, NatCleanup); (300009, NatCleanup)] in
  ∃ e t3, findByResponse 300010 (js "10.200.0.4") 5000 (js "1.1.1.1") 53 (js "udp") t2 = (Some e, t3) ∧
    srcNodeId e = js "n2" ∧
    (findByResponse 300010 (js "10.200.0.3") 5000 (js "1.1.1.1") 53 (js "udp") t2).1 = None.
Proof.
  destruct (nat_mapping_lives None
    [(0, NatCreate (js "n1") (js "10.200.0.3") 5000 (js "1.1.1.1") 53 (js "udp"))] 10 (js "n2")
    (js "10.200.0.4") 5000 (js "1.1.1.1") 53 (js "udp") [(290000, NatCleanup); (300009, NatCleanup)] 300010)
    as (Hn & (e & t3 & Hf & Hs) & _).
  - apply (bool_decide_unpack _). by vm_compute.
  - exists e, t3. split; [exact Hf|]. split; [|by vm_compute].
    apply (f_equal srcNodeId) in Hs. transitivity (srcNodeId (e <| lastUsed := 0 |>)); [done|].
    rewrite -Hs. by vm_compute.
Defined.
