(* ===== verification/Signalling.v ===== *)
(** * The signalling server (server/signalling-server.js)

    The registry of the mesh: nodes register over WebSockets, learn of each other,
    and exchange signals through it.  A socket is a number; [socks] holds what the
    server knows of it (whether it is open, its address, and the node id its
    connection registered, the [nodeId] of the closure in [_handleConnection]).
    [sent] is the log of everything written to sockets.  Messages are data: their
    JSON text is not modelled, a text that does not parse is [CInvalid].  The
    signals nodes exchange ([Sig]) are opaque to the server; [geoip.lookup] is a
    parameter. *)

From S2P Require Import Prelude JsMap Bytes JsString.
Local Open Scope Z_scope.
#[local] Unset Default Proof Using.

Abbreviation sock := nat.

Section signalling.
Context {Sig Geo : Type} (lookup : jstr → option Geo).

(** ** Messages *)

Inductive cmsg : Type :=
  | CRegister (nodeId publicKey name role : option jstr) (natEnabled relay : bool) (token : option jstr)
  | CSignal (to : option jstr) (signal : Sig)
  | CGetPeers
  | CGetExitNodes
  | CTopologyUpdate (connectedTo : option (list jstr))
  | CPing
  | CUnknown
  | CInvalid.

(** A peer as the server describes it; [exit-nodes] leaves the role out. *)
Record peer_info := MkPeer {
  p_nodeId : jstr; p_name : option jstr; p_publicKey : jstr; p_role : option jstr;
  p_virtualIp : jstr; p_externalIp : option jstr; p_geo : option Geo
}.
Record topo_info := MkTopo {
  t_name : option jstr; t_role : jstr; t_virtualIp : jstr; t_externalIp : option jstr;
  t_geo : option Geo; t_connectedTo : list jstr
}.
Inductive smsg : Type :=
  | SRegistered (nodeId virtualIp networkCidr : jstr)
  | SPeers (peers : list peer_info)
  | SExitNodes (exitNodes : list peer_info)
  | SPeerJoin (peer : peer_info)
  | SPeerLeave (nodeId : jstr)
  | SSignal (from : jstr) (signal : Sig)
  | SSignalError (to : option jstr)
  | STopology (topology : list (jstr * topo_info))
  | SPong (timestamp : Z)
  | SError (error : string).

(** ** State *)

Record nodeInfo := MkNode {
  ws : sock; i_nodeId : jstr; i_name : option jstr; i_publicKey : jstr; i_role : jstr;
  i_virtualIp : jstr; i_externalIp : option jstr; i_geo : option Geo;
  connectedPeers : oset jstr; registeredAt : Z
}.
#[export] Instance eta_nodeInfo : Eta nodeInfo := λ i,
  MkNode (ws i) (i_nodeId i) (i_name i) (i_publicKey i) (i_role i) (i_virtualIp i) (i_externalIp i)
    (i_geo i) (connectedPeers i) (registeredAt i).

Record socket := MkSocket { so_open : bool; remoteAddress : jstr; so_nodeId : option jstr }.
#[export] Instance eta_socket : Eta socket := λ k, MkSocket (so_open k) (remoteAddress k) (so_nodeId k).

Record SignallingServer := MkServer {
  nodes : omap jstr nodeInfo; virtualIpCounter : Z; pinnedIps : omap jstr jstr;
  registrationToken : option jstr; socks : omap sock socket; sent : list (sock * smsg)
}.
#[export] Instance eta_SignallingServer : Eta SignallingServer := λ s,
  MkServer (nodes s) (virtualIpCounter s) (pinnedIps s) (registrationToken s) (socks s) (sent s).

Definition virtualNetwork : jstr := js "10.200.0".
Definition networkCidr : jstr := js "10.200.0.0/16".
Definition counter_ip (n : Z) : jstr := virtualNetwork ++ 46 :: num_str n.
Definition new_server (pinned : omap jstr jstr) (token : option jstr) : SignallingServer :=
  MkServer [] 2 pinned token [] [].

(** [s || null] on strings. *)
Definition truthy (s : option jstr) : option jstr := match s with Some (_ :: _) => s | _ => None end.

Definition is_open (k : sock) (s : SignallingServer) : bool :=
  match om_get k (socks s) with Some c => so_open c | None => false end.
Definition closure_nodeId (k : sock) (s : SignallingServer) : option jstr :=
  om_get k (socks s) ≫= so_nodeId.
Definition setNodeId (k : sock) (id : jstr) (s : SignallingServer) : SignallingServer :=
  s <| socks ::= om_update k (λ c, c <| so_nodeId := Some id |>) |>.
(** [ws.close()] and [ws.terminate()]: the socket is no longer open; its [close] event
    comes later. *)
Definition close_socket (k : sock) (s : SignallingServer) : SignallingServer :=
  s <| socks ::= om_update k (λ c, c <| so_open := false |>) |>.

Definition wsSend (k : sock) (m : smsg) (s : SignallingServer) : SignallingServer :=
  if is_open k s then s <| sent ::= λ l, l ++ [(k, m)] |> else s.
Definition sendRegistered (k : sock) (nodeId virtualIp : jstr) (s : SignallingServer) : SignallingServer :=
  wsSend k (SRegistered nodeId virtualIp networkCidr) s.

(** A message to the sockets of the registered nodes that satisfy a test. *)
Definition broadcast (P : jstr → bool) (m : smsg) (s : SignallingServer) : SignallingServer :=
  foldl (λ s p, if P p.1 then wsSend (ws p.2) m s else s) s (nodes s).

Definition peer_of (nodeId : jstr) (i : nodeInfo) : peer_info :=
  MkPeer nodeId (truthy (i_name i)) (i_publicKey i) (Some (i_role i)) (i_virtualIp i)
    (truthy (i_externalIp i)) (i_geo i).
Definition broadcastPeerJoin (nodeId : jstr) (i : nodeInfo) (s : SignallingServer) : SignallingServer :=
  broadcast (λ id, negb (bool_decide (id = nodeId))) (SPeerJoin (peer_of nodeId i)) s.
Definition broadcastPeerLeave (nodeId : jstr) (s : SignallingServer) : SignallingServer :=
  broadcast (λ id, negb (bool_decide (id = nodeId))) (SPeerLeave nodeId) s.
Definition topo_of (i : nodeInfo) : topo_info :=
  MkTopo (truthy (i_name i)) (i_role i) (i_virtualIp i) (truthy (i_externalIp i)) (i_geo i) (connectedPeers i).
Definition broadcastTopology (s : SignallingServer) : SignallingServer :=
  let topology := (λ p, (p.1, topo_of p.2)) <$> nodes s in
  broadcast (λ _, true) (STopology topology) s.

(** ** Handlers *)

Definition resolvedRole (role : option jstr) (natEnabled relay : bool) : jstr :=
  if natEnabled then js "exit" else if relay then js "relay" else default (js "client") (truthy role).

Definition next_ip (s : SignallingServer) : jstr * SignallingServer :=
  (counter_ip (virtualIpCounter s), s <| virtualIpCounter ::= Z.succ |>).
(** The address of a new node: its pinned one unless another node holds it, else the
    next of the counter. *)
Definition assign_ip (nodeId : jstr) (s : SignallingServer) : jstr * SignallingServer :=
  match truthy (om_get nodeId (pinnedIps s)) with
  | Some pinned =>
      if existsb (λ n, bool_decide (i_virtualIp n = pinned) && negb (bool_decide (i_nodeId n = nodeId)))
           (om_values (nodes s))
      then next_ip s
      else (pinned, s)
  | None => next_ip s
  end.

Definition reregister (k : sock) (nodeId publicKey role : jstr) (name : option jstr) (existing : nodeInfo)
    (s : SignallingServer) : SignallingServer :=
  let s := if negb (ws existing =? k)%nat && is_open (ws existing) s then close_socket (ws existing) s else s in
  let info := existing <| ws := k |> <| i_publicKey := publicKey |> <| i_role := role |>
    <| i_name := match truthy name with Some n => Some n | None => i_name existing end |> in
  let s := s <| nodes ::= om_set nodeId info |> in
  let s := setNodeId k nodeId s in
  let s := sendRegistered k nodeId (i_virtualIp info) s in
  broadcastPeerJoin nodeId info s.

Definition register_new (now : Z) (k : sock) (nodeId publicKey role : jstr) (name : option jstr)
    (s : SignallingServer) : SignallingServer :=
  let '(virtualIp, s) := assign_ip nodeId s in
  let externalIp := truthy (remoteAddress <$> om_get k (socks s)) in
  let geo := externalIp ≫= lookup in
  let info := MkNode k nodeId (truthy name) publicKey role virtualIp externalIp geo [] now in
  let s := s <| nodes ::= om_set nodeId info |> in
  let s := setNodeId k nodeId s in
  let s := sendRegistered k nodeId virtualIp s in
  broadcastPeerJoin nodeId info s.

Definition handleRegister (now : Z) (k : sock) (nodeId publicKey name role : option jstr)
    (natEnabled relay : bool) (token : option jstr) (s : SignallingServer) : SignallingServer :=
  let role := resolvedRole role natEnabled relay in
  match truthy nodeId, truthy publicKey with
  | Some nodeId, Some publicKey =>
      if match truthy (registrationToken s) with
         | Some t => negb (bool_decide (token = Some t)) | None => false end
      then close_socket k (wsSend k (SError "Unauthorized") s)
      else
        match om_get nodeId (nodes s) with
        | Some existing => reregister k nodeId publicKey role name existing s
        | None => register_new now k nodeId publicKey role name s
        end
  | _, _ => wsSend k (SError "Missing nodeId or publicKey") s
  end.

Definition get_node (id : option jstr) (s : SignallingServer) : option nodeInfo := id ≫= λ i, om_get i (nodes s).

Definition handleSignal (from to : option jstr) (signal : Sig) (s : SignallingServer) : SignallingServer :=
  match truthy from with
  | None => s
  | Some fromNodeId =>
      match get_node to s with
      | None =>
          match om_get fromNodeId (nodes s) with
          | Some fromNode => wsSend (ws fromNode) (SSignalError to) s
          | None => s
          end
      | Some target => wsSend (ws target) (SSignal fromNodeId signal) s
      end
  end.

Definition handleGetPeers (k : sock) (exclude : option jstr) (s : SignallingServer) : SignallingServer :=
  let peers := (λ p, peer_of p.1 p.2) <$> filter (λ p, Some p.1 ≠ exclude) (nodes s) in
  wsSend k (SPeers peers) s.

Definition without_role (p : peer_info) : peer_info :=
  MkPeer (p_nodeId p) (p_name p) (p_publicKey p) None (p_virtualIp p) (p_externalIp p) (p_geo p).
Definition handleGetExitNodes (k : sock) (s : SignallingServer) : SignallingServer :=
  let exitNodes := (λ p, without_role (peer_of p.1 p.2)) <$> filter (λ p, i_role p.2 = js "exit") (nodes s) in
  wsSend k (SExitNodes exitNodes) s.

Definition handleTopologyUpdate (from : option jstr) (connectedTo : option (list jstr)) (s : SignallingServer) :
    SignallingServer :=
  match from with
  | None => s
  | Some id =>
      match om_get id (nodes s) with
      | None => s
      | Some info =>
          let info := info <| connectedPeers := os_of_list (default [] connectedTo) |> in
          broadcastTopology (s <| nodes ::= om_set id info |>)
      end
  end.

Definition handleMessage (now : Z) (k : sock) (m : cmsg) (s : SignallingServer) : SignallingServer :=
  match m with
  | CRegister nodeId publicKey name role nat relay token =>
      handleRegister now k nodeId publicKey name role nat relay token s
  | CSignal to signal => handleSignal (closure_nodeId k s) to signal s
  | CGetPeers => handleGetPeers k (closure_nodeId k s) s
  | CGetExitNodes => handleGetExitNodes k s
  | CTopologyUpdate connectedTo => handleTopologyUpdate (closure_nodeId k s) connectedTo s
  | CPing => wsSend k (SPong now) s
  | CUnknown => wsSend k (SError "Unknown message type") s
  | CInvalid => wsSend k (SError "Invalid message format") s
  end.

(** The first node of the socket, if any, is removed. *)
Definition handleWsClose (k : sock) (s : SignallingServer) : SignallingServer :=
  match list_find (λ p, ws p.2 = k) (nodes s) with
  | Some (_, (nodeId, _)) => broadcastPeerLeave nodeId (s <| nodes ::= om_delete nodeId |>)
  | None => s
  end.

Definition getNodeCount (s : SignallingServer) : nat := om_size (nodes s).
Definition getExitNodeCount (s : SignallingServer) : nat :=
  length (filter (λ i, i_role i = js "exit") (om_values (nodes s))).
Definition stop (s : SignallingServer) : SignallingServer :=
  foldl (λ s i, close_socket (ws i) s) s (om_values (nodes s)).

(** ** Events *)

(** [k] connects; a message arrives on [k]; [k]'s [close] event. *)
Inductive sv_event : Type :=
  | Connect (k : sock) (address : jstr)
  | Message (now : Z) (k : sock) (m : cmsg)
  | Close (k : sock).
(** [rawAddr.replace(/^::ffff:/, '')] *)
Definition strip_mapped (a : jstr) : jstr :=
  if starts_with (js "::ffff:") a then drop 7 a else a.
Definition handleConnection (k : sock) (address : jstr) (s : SignallingServer) : SignallingServer :=
  s <| socks ::= om_set k (MkSocket true (strip_mapped address) None) |>.
Definition sv_step (s : SignallingServer) (e : sv_event) : SignallingServer :=
  match e with
  | Connect k a => handleConnection k a s
  | Message now k m => handleMessage now k m s
  | Close k => handleWsClose k (close_socket k s)
  end.
End signalling.
