(* ===== verification/SignallingClient.v ===== *)
(** * The signalling client (src/control/signalling.js)

    [connect] retries with a doubling delay until the socket opens; a connection that
    is lost is opened again after a pause; [disconnect] ends all of it.  The state of
    the asynchronous [connect] loop is [phase]; timers are flags.  [log] records what
    the client does: the sockets it opens, the messages it sends, the events it
    emits.  [connect] is called once by the application ([PeerDiscovery.start]), and
    then only by the reconnect timer. *)

From S2P Require Import Prelude JsMap Bytes JsString Signalling.
Local Open Scope Z_scope.
#[local] Unset Default Proof Using.

Section client.
Context {Sig Geo : Type}.
Abbreviation cmsg := (@cmsg Sig).
Abbreviation smsg := (@smsg Sig Geo).
Abbreviation peer_info := (@peer_info Geo).

Inductive cl_event :=
  | EvRegistered (virtualIp : jstr) (networkCidr : jstr)
  | EvPeersUpdated (peers : list peer_info)
  | EvExitNodesUpdated (nodes : list peer_info)
  | EvPeerJoin (peer : peer_info)
  | EvPeerLeave (nodeId : jstr)
  | EvSignal (from : jstr) (signal : Sig)
  | EvSignalError (to : option jstr)
  | EvTopology (topology : list (jstr * @topo_info Geo))
  | EvPong (timestamp : Z)
  | EvServerError (error : string)
  | EvDisconnected
  | EvReconnected
  | EvError.
Inductive cl_action := Open | Send (m : cmsg) | Emit (e : cl_event).

Inductive readyState := CONNECTING | OPEN | CLOSED.
#[export] Instance readyState_dec : EqDecision readyState.
Proof. solve_decision. Defined.

(** The [connect] loop: not running, awaiting [_connectOnce] (the delay a failure would
    wait), or sleeping.  [re] is whether the reconnect timer started it. *)
Inductive phase := Idle | Attempt (delay : Z) (re : bool) | Sleeping (delay : Z) (re : bool).

Record config := MkConfig {
  identity_nodeId : jstr; identity_publicKey : jstr; c_name : option jstr;
  natEnabled : bool; relayEnabled : bool; c_token : option jstr
}.
Record SignallingClient := MkClient {
  cfg : config; role : jstr; c_ws : option readyState; connected : bool; registered : bool;
  virtualIp : option jstr; reconnectTimer : bool; pingInterval : bool;
  peers : omap jstr peer_info; exitNodes : omap jstr peer_info;
  stopConnecting : bool; pendingConnectReject : bool; loop : phase; log : list cl_action
}.
#[export] Instance eta_SignallingClient : Eta SignallingClient := λ c,
  MkClient (cfg c) (role c) (c_ws c) (connected c) (registered c) (virtualIp c) (reconnectTimer c)
    (pingInterval c) (peers c) (exitNodes c) (stopConnecting c) (pendingConnectReject c) (loop c) (log c).
Definition new_client (c : config) : SignallingClient :=
  MkClient c (js "client") None false false None false false [] [] false false Idle [].

Definition act (a : cl_action) (c : SignallingClient) : SignallingClient := c <| log ::= λ l, l ++ [a] |>.
Definition emit (e : cl_event) : SignallingClient → SignallingClient := act (Emit e).
Definition send (m : cmsg) (c : SignallingClient) : SignallingClient :=
  if bool_decide (c_ws c = Some OPEN) then act (Send m) c else c.

(** [msg.name], [msg.nat], [msg.relay] and [msg.token] are only set when they hold. *)
Definition register (c : SignallingClient) : SignallingClient :=
  send (CRegister (Some (identity_nodeId (cfg c))) (Some (identity_publicKey (cfg c)))
          (truthy (c_name (cfg c))) (Some (role c)) (natEnabled (cfg c)) (relayEnabled (cfg c))
          (truthy (c_token (cfg c)))) c.
Definition requestPeers : SignallingClient → SignallingClient := send CGetPeers.
Definition requestExitNodes : SignallingClient → SignallingClient := send CGetExitNodes.
Definition sendSignal (to : jstr) (signal : Sig) : SignallingClient → SignallingClient :=
  send (CSignal (Some to) signal).
Definition updateTopology (connectedPeers : list jstr) : SignallingClient → SignallingClient :=
  send (CTopologyUpdate (Some connectedPeers)).

(** ** What the client knows of the others *)

Definition is_exit_peer (p : peer_info) : bool := bool_decide (p_role p = Some (js "exit")).
Definition add_peer (p : peer_info) (c : SignallingClient) : SignallingClient :=
  let c := c <| peers ::= om_set (p_nodeId p) p |> in
  if is_exit_peer p then c <| exitNodes ::= om_set (p_nodeId p) p |> else c.
Definition handlePeersList (l : list peer_info) (c : SignallingClient) : SignallingClient :=
  let c := foldl (λ c p, add_peer p c) c l in
  emit (EvPeersUpdated (om_values (peers c))) c.
Definition handleExitNodesList (l : list peer_info) (c : SignallingClient) : SignallingClient :=
  let c := foldl (λ c p, c <| exitNodes ::= om_set (p_nodeId p) p |>) c l in
  emit (EvExitNodesUpdated (om_values (exitNodes c))) c.
Definition handlePeerJoin (p : peer_info) (c : SignallingClient) : SignallingClient :=
  emit (EvPeerJoin p) (add_peer p c).
Definition handlePeerLeave (nodeId : jstr) (c : SignallingClient) : SignallingClient :=
  let c := c <| peers ::= om_delete nodeId |> <| exitNodes ::= om_delete nodeId |> in
  emit (EvPeerLeave nodeId) c.

Definition handleServerMessage (m : smsg) (c : SignallingClient) : SignallingClient :=
  match m with
  | SRegistered _ ip cidr =>
      let c := c <| registered := true |> <| virtualIp := Some ip |> in
      requestExitNodes (requestPeers (emit (EvRegistered ip cidr) c))
  | SPeers l => handlePeersList l c
  | SExitNodes l => handleExitNodesList l c
  | SPeerJoin p => handlePeerJoin p c
  | SPeerLeave id => handlePeerLeave id c
  | SSignal from signal => emit (EvSignal from signal) c
  | SSignalError to => emit (EvSignalError to) c
  | STopology t => emit (EvTopology t) c
  | SPong t => emit (EvPong t) c
  | SError e => emit (EvServerError e) c
  end.

Definition getPeer (nodeId : jstr) (c : SignallingClient) : option peer_info := om_get nodeId (peers c).
Definition getAllPeers (c : SignallingClient) : list peer_info := om_values (peers c).
Definition getExitNodes (c : SignallingClient) : list peer_info := om_values (exitNodes c).

(** ** Connecting *)

Definition max_delay : Z := 60000.

(** [_connectOnce] up to its first event. *)
Definition connectOnce (delay : Z) (re : bool) (c : SignallingClient) : SignallingClient :=
  act Open (c <| c_ws := Some CONNECTING |> <| pendingConnectReject := true |> <| loop := Attempt delay re |>).
(** [connect(role)] up to its first [await]. *)
Definition connect (r : jstr) (re : bool) (c : SignallingClient) : SignallingClient :=
  connectOnce 1000 re (c <| role := r |> <| stopConnecting := false |>).

(** [open]: the attempt settles, and the loop returns; the reconnect timer's run then
    reports it. *)
Definition onOpen (re : bool) (c : SignallingClient) : SignallingClient :=
  let c := c <| pendingConnectReject := false |> <| connected := true |> <| c_ws := Some OPEN |>
             <| pingInterval := true |> in
  let c := register (c <| loop := Idle |>) in
  if re then emit EvReconnected c else c.

(** [error] or [close] before [open]: [finishFail], and the loop's [catch]. *)
Definition onConnectFailed (delay : Z) (re : bool) (c : SignallingClient) : SignallingClient :=
  c <| pendingConnectReject := false |> <| c_ws := None |> <| registered := false |> <| pingInterval := false |>
    <| loop := Sleeping delay re |>.

(** The sleep ends: give up, or double the delay and try again. *)
Definition onSleepEnd (delay : Z) (re : bool) (c : SignallingClient) : SignallingClient :=
  if stopConnecting c then c <| loop := Idle |>
  else connectOnce (Z.min (delay * 2) max_delay) re c.

Definition scheduleReconnect (c : SignallingClient) : SignallingClient :=
  if stopConnecting c || reconnectTimer c then c else c <| reconnectTimer := true |>.
Definition handleDisconnect (wasOpen : bool) (c : SignallingClient) : SignallingClient :=
  let c := c <| connected := false |> <| registered := false |> <| pingInterval := false |> in
  let c := if wasOpen then emit EvDisconnected c else c in
  if wasOpen && negb (stopConnecting c) then scheduleReconnect c else c.
(** [close] of a connection that was open. *)
Definition onClose (c : SignallingClient) : SignallingClient :=
  handleDisconnect (connected c) (c <| c_ws := Some CLOSED |>).

Definition onReconnectTimer (c : SignallingClient) : SignallingClient :=
  let c := c <| reconnectTimer := false |> in
  if stopConnecting c then c else connect (role c) true c.

Definition disconnect (c : SignallingClient) : SignallingClient :=
  let c := c <| stopConnecting := true |> in
  let c := if pendingConnectReject c then c <| pendingConnectReject := false |> <| loop := Idle |> else c in
  let c := c <| reconnectTimer := false |> <| pingInterval := false |> in
  let hadSession := connected c in
  let c := c <| c_ws := None |> <| connected := false |> <| registered := false |> in
  if hadSession then emit EvDisconnected c else c.

(** What can happen to a client, and when. *)
Inductive cl_step : SignallingClient → SignallingClient → Prop :=
  | StepOpen c delay re : loop c = Attempt delay re → cl_step c (onOpen re c)
  | StepFail c delay re : loop c = Attempt delay re → cl_step c (onConnectFailed delay re c)
  | StepSleepEnd c delay re : loop c = Sleeping delay re → cl_step c (onSleepEnd delay re c)
  | StepMessage c m : c_ws c = Some OPEN → cl_step c (handleServerMessage m c)
  | StepClose c : c_ws c = Some OPEN → cl_step c (onClose c)
  | StepError c : c_ws c = Some OPEN → cl_step c (emit EvError c)
  | StepReconnect c : reconnectTimer c = true → cl_step c (onReconnectTimer c)
  | StepPing c : pingInterval c = true → cl_step c (send CPing c)
  | StepSignal c to signal : cl_step c (sendSignal to signal c)
  | StepTopology c l : cl_step c (updateTopology l c).
Inductive cl_stop_step : SignallingClient → SignallingClient → Prop :=
  | StopStep c c' : cl_step c c' → cl_stop_step c c'
  | StopDisconnect c : cl_stop_step c (disconnect c).
End client.

(** ** The life of a client *)

Section lifecycle.
Context {Sig Geo : Type}.
Implicit Types c : @SignallingClient Sig Geo.

Definition attempting c : Prop := ∃ d re, loop c = Attempt d re.

Record client_ok c : Prop := {
  ok_connected : connected c = true ↔ c_ws c = Some OPEN;
  ok_ping : pingInterval c = connected c;
  ok_attempt : attempting c ↔ c_ws c = Some CONNECTING;
  ok_pending : pendingConnectReject c = true ↔ attempting c;
  ok_delay : ∀ d re, loop c = Attempt d re ∨ loop c = Sleeping d re → 1000 <= d <= max_delay;
  ok_busy : loop c ≠ Idle → connected c = false ∧ reconnectTimer c = false;
  ok_timer : reconnectTimer c = true → connected c = false;
  ok_alive : stopConnecting c = false → connected c = true ∨ reconnectTimer c = true ∨ loop c ≠ Idle;
  ok_stopped : stopConnecting c = true → connected c = false ∧ reconnectTimer c = false ∧ ¬ attempting c
}.

(** The parts of the state that only the connection machinery changes. *)
Definition link c : option readyState * bool * bool * bool * bool * bool * phase :=
  (c_ws c, connected c, pingInterval c, reconnectTimer c, stopConnecting c, pendingConnectReject c, loop c).

Lemma client_ok_link c c' : link c' = link c → client_ok c → client_ok c'.
Proof.
  unfold link. intros Hl [H1 H2 H3 H4 H5 H6 H7 H8 H9].
  injection Hl as Hw Hc Hp Ht Hs Hr Ho. unfold attempting in *.
  split; unfold attempting; rewrite ?Hw ?Hc ?Hp ?Ht ?Hs ?Hr ?Ho; done.
Qed.

Lemma link_send m c : link (send m c) = link c.
Proof. unfold send. by case_bool_decide. Qed.
Lemma link_add_peers l c : link (foldl (λ c p, add_peer p c) c l) = link c.
Proof.
  revert c. induction l as [|p l IH]; intros c; simpl; [done|]. rewrite IH. unfold add_peer.
  by destruct (is_exit_peer p).
Qed.
Lemma link_add_exits l c :
  link (foldl (λ c p, c <| exitNodes ::= om_set (p_nodeId p) p |>) c l) = link c.
Proof. revert c. induction l as [|p l IH]; intros c; simpl; [done|]. by rewrite IH. Qed.

Lemma link_message m c : link (handleServerMessage m c) = link c.
Proof.
  destruct m; simpl; try done.
  - unfold requestExitNodes, requestPeers. by rewrite !link_send.
  - unfold handlePeersList. etransitivity; [|apply link_add_peers]. done.
  - unfold handleExitNodesList. etransitivity; [|apply link_add_exits]. done.
  - unfold handlePeerJoin, add_peer. by destruct (is_exit_peer peer).
Qed.

Lemma connectOnce_ok delay re c : 1000 <= delay <= max_delay → connected c = false →
  pingInterval c = false → reconnectTimer c = false → stopConnecting c = false →
  client_ok (connectOnce delay re c).
Proof.
  intros Hd Hc Hp Ht Hs. split; unfold attempting; simpl; rewrite ?Hc ?Hp ?Ht ?Hs; try done.
  - by split; [intros _|intros _; eexists _, _].
  - by split; [intros _; eexists _, _|].
  - by intros d re' [[= <- <-]|[=]].
  - intros _. by right; right.
Qed.

Lemma onOpen_link delay re c : loop c = Attempt delay re →
  link (onOpen re c) = (Some OPEN, true, true, reconnectTimer c, stopConnecting c, false, Idle).
Proof.
  intros _. unfold onOpen, register, send. rewrite bool_decide_true //. by destruct re.
Qed.

(** While the loop runs nothing else does; while the socket is open the loop does not. *)
Lemma busy_parts c : client_ok c → loop c ≠ Idle →
  connected c = false ∧ reconnectTimer c = false ∧ pingInterval c = false.
Proof. intros H Hl. destruct (ok_busy c H Hl) as [Hc Ht]. by rewrite (ok_ping c H). Qed.
Lemma open_parts c : client_ok c → c_ws c = Some OPEN →
  connected c = true ∧ reconnectTimer c = false ∧ stopConnecting c = false ∧ loop c = Idle.
Proof.
  intros H Hw. assert (connected c = true) as Hc by (by apply (ok_connected c H)).
  split; [done|]. split_and!.
  - destruct (reconnectTimer c) eqn:Ht; [|done]. by rewrite (ok_timer c H Ht) in Hc.
  - destruct (stopConnecting c) eqn:Hs; [|done]. destruct (ok_stopped c H Hs). congruence.
  - destruct (loop c) eqn:Hl; [done|..]; destruct (ok_busy c H) as [? _]; congruence.
Qed.
Lemma attempt_not_stopped c d re : client_ok c → loop c = Attempt d re → stopConnecting c = false.
Proof.
  intros H Hl. destruct (stopConnecting c) eqn:Hs; [|done].
  destruct (ok_stopped c H Hs) as (_ & _ & Hna). destruct Hna. by exists d, re.
Qed.

Lemma onOpen_ok c d re : client_ok c → loop c = Attempt d re → client_ok (onOpen re c).
Proof.
  intros H Hl. pose proof (onOpen_link d re c Hl) as Hk. unfold link in Hk. injection Hk as E1 E2 E3 E4 E5 E6 E7.
  destruct (ok_busy c H) as [_ Ht]; [by rewrite Hl|]. pose proof (attempt_not_stopped c d re H Hl) as Hs.
  split; unfold attempting; rewrite ?E1 ?E2 ?E3 ?E4 ?E5 ?E6 ?E7 ?Ht ?Hs; try done.
  - split; [by intros (? & ? & ?)|done].
  - split; [done|by intros (? & ? & ?)].
  - by intros ? ? [?|?].
  - intros _. by left.
Qed.

Lemma onConnectFailed_ok c d re : client_ok c → loop c = Attempt d re → client_ok (onConnectFailed d re c).
Proof.
  intros H Hl. destruct (busy_parts c H) as (Hc & Ht & _); [by rewrite Hl|].
  assert (1000 <= d <= max_delay) as Hd by (apply (ok_delay c H d re); by left).
  split; unfold attempting; simpl; rewrite ?Hc ?Ht; try done.
  - by split; [intros (? & ? & ?)|].
  - by split; [|intros (? & ? & ?)].
  - by intros d' re' [[=]|[= <- <-]].
  - intros _. by right; right.
  - intros _. split; [done|]. split; [done|]. by intros (? & ? & ?).
Qed.

(** Without an attempt the socket is not connecting. *)
Lemma idle_ok c c' : client_ok c → ¬ attempting c → c_ws c' = c_ws c → connected c' = connected c →
  pingInterval c' = pingInterval c → reconnectTimer c' = reconnectTimer c → stopConnecting c' = stopConnecting c →
  pendingConnectReject c' = pendingConnectReject c → loop c' = Idle →
  (stopConnecting c = false → connected c = true ∨ reconnectTimer c = true) → client_ok c'.
Proof.
  intros [H1 H2 H3 H4 H5 H6 H7 H8 H9] Hna E1 E2 E3 E4 E5 E6 E7 Ha.
  split; unfold attempting; rewrite ?E1 ?E2 ?E3 ?E4 ?E5 ?E6 ?E7; try done.
  - by split; [intros (? & ? & ?)|intros ?%H3].
  - by split; [intros ?%H4|intros (? & ? & ?)].
  - by intros ? ? [?|?].
  - intros Hs. destruct (Ha Hs); auto.
  - intros Hs. destruct (H9 Hs) as (? & ? & ?). split; [done|]. split; [done|]. by intros (? & ? & ?).
Qed.

Lemma onSleepEnd_ok c d re : client_ok c → loop c = Sleeping d re → client_ok (onSleepEnd d re c).
Proof.
  intros H Hl. destruct (busy_parts c H) as (Hc & Ht & Hp); [by rewrite Hl|].
  assert (1000 <= d <= max_delay) as Hd by (apply (ok_delay c H d re); by right).
  unfold onSleepEnd. destruct (stopConnecting c) eqn:Hs.
  - apply (idle_ok c); try done; [|by rewrite Hs]. intros (? & ? & Ha). by rewrite Hl in Ha.
  - apply connectOnce_ok; try done. unfold max_delay in *. lia.
Qed.

Lemma onClose_ok c : client_ok c → c_ws c = Some OPEN → client_ok (onClose c).
Proof.
  intros H Hw. destruct (open_parts c H Hw) as (Hc & Ht & Hs & Hl).
  destruct H as [H1 H2 H3 H4 H5 H6 H7 H8 H9]. unfold attempting in *.
  unfold onClose, handleDisconnect, scheduleReconnect. rewrite Hc. simpl. rewrite Hs Ht /=.
  split; unfold attempting; simpl; rewrite ?Hl ?Hs; try done.
  - by split; [intros (? & ? & ?)|].
  - split; [|by intros (? & ? & ?)]. intros Hp%H4. destruct Hp as (? & ? & Hp). by rewrite Hl in Hp.
  - by intros ? ? [?|?].
  - intros _. by right; left.
Qed.

Lemma onReconnectTimer_ok c : client_ok c → reconnectTimer c = true → client_ok (onReconnectTimer c).
Proof.
  intros H Ht. assert (stopConnecting c = false) as Hs.
  { destruct (stopConnecting c) eqn:Hs; [|done]. destruct (ok_stopped c H Hs) as (_ & ? & _). congruence. }
  pose proof (ok_timer c H Ht) as Hc. unfold onReconnectTimer. simpl. rewrite Hs. unfold connect.
  apply connectOnce_ok; simpl; try done. by rewrite (ok_ping c H).
Qed.

Lemma cl_step_ok c c' : client_ok c → cl_step c c' → client_ok c'.
Proof.
  intros H Hstep. destruct Hstep as [c d re Hl|c d re Hl|c d re Hl|c m Hw|c Hw|c Hw|c Ht|c Hp|c to sg|c l].
  - by apply (onOpen_ok c d).
  - by apply onConnectFailed_ok.
  - by apply onSleepEnd_ok.
  - apply (client_ok_link c); [apply link_message|done].
  - by apply onClose_ok.
  - by apply (client_ok_link c).
  - by apply onReconnectTimer_ok.
  - apply (client_ok_link c); [apply link_send|done].
  - apply (client_ok_link c); [apply link_send|done].
  - apply (client_ok_link c); [apply link_send|done].
Qed.

Lemma disconnect_ok c : client_ok c → client_ok (disconnect c).
Proof.
  intros H. unfold disconnect.
  assert (∀ c1, stopConnecting c1 = true → pendingConnectReject c1 = false → ¬ attempting c1 →
    (∀ d re, loop c1 = Sleeping d re → 1000 <= d <= max_delay) →
    reconnectTimer c1 = false → pingInterval c1 = false → c_ws c1 = None → connected c1 = false → client_ok c1) as Hend.
  { intros c1 Hs Hr Hna Hd Ht Hp Hw Hc. split; rewrite ?Hs ?Hr ?Ht ?Hp ?Hw ?Hc; try done.
    intros d re [Hl|Hl]; [|by eapply Hd]. destruct Hna. by exists d, re. }
  cbv zeta. match goal with |- context [if connected ?c0 then _ else _] => destruct (connected c0) end;
    apply Hend; simpl; try done;
    destruct (pendingConnectReject c) eqn:Hp; simpl; try done; unfold attempting; simpl;
    try (by intros (? & ? & ?)); try (by rewrite -(ok_pending c H) Hp);
    try (intros d re Hl; apply (ok_delay c H d re); by right).
  all: intros Ha; apply (ok_pending c H) in Ha; congruence.
Qed.

Lemma cl_step_not_stopped c c' : cl_step c c' → client_ok c → stopConnecting c = false →
  stopConnecting c' = false.
Proof.
  intros [c0 d re Hl|c0 d re Hl|c0 d re Hl|c0 m Hw|c0 Hw|c0 Hw|c0 Ht|c0 Hp|c0 to sg|c0 l] Hok Hs.
  - pose proof (onOpen_link d re c0 Hl) as Hk. unfold link in Hk. by injection Hk as _ _ _ _ -> _ _.
  - done.
  - unfold onSleepEnd. by rewrite Hs.
  - pose proof (link_message m c0) as Hk. unfold link in Hk. by injection Hk as _ _ _ _ -> _ _.
  - unfold onClose, handleDisconnect, scheduleReconnect. destruct (connected c0); simpl; rewrite ?Hs; simpl; [|done].
    by destruct (reconnectTimer c0).
  - done.
  - unfold onReconnectTimer. simpl. by rewrite Hs.
  - unfold send. by case_bool_decide.
  - unfold sendSignal, send. by case_bool_decide.
  - unfold updateTopology, send. by case_bool_decide.
Qed.

Lemma cl_steps_ok c c' : rtc cl_step c c' → client_ok c → stopConnecting c = false →
  client_ok c' ∧ stopConnecting c' = false.
Proof.
  induction 1 as [c|c c1 c' H1 _ IH]; intros Hok Hs; [done|].
  apply IH; [by eapply cl_step_ok|by eapply cl_step_not_stopped].
Qed.

(** A client that was told to disconnect. *)
Definition stopped c : Prop :=
  stopConnecting c = true ∧ c_ws c = None ∧ connected c = false ∧ reconnectTimer c = false ∧
  pingInterval c = false ∧ ¬ attempting c ∧ pendingConnectReject c = false.

Lemma disconnect_stopped c : client_ok c → stopped (disconnect c).
Proof.
  intros H. unfold stopped. assert (¬ attempting (disconnect c) ∧ pendingConnectReject (disconnect c) = false).
  - pose proof (disconnect_ok c H) as H'. pose proof (ok_attempt _ H') as Ha. pose proof (ok_pending _ H') as Hp.
    assert (c_ws (disconnect c) = None) as Hw by (unfold disconnect; by repeat case_match).
    rewrite Hw in Ha. assert (¬ attempting (disconnect c)) as Hna by (by intros ?%Ha). split; [done|].
    destruct (pendingConnectReject (disconnect c)); [|done]. by destruct Hna; apply Hp.
  - unfold disconnect in *. cbv zeta in *. by repeat case_match.
Qed.

Lemma stopped_send m c : c_ws c = None → send m c = c.
Proof. intros Hw. unfold send. by rewrite Hw. Qed.

Lemma disconnect_sleep c d re : loop (disconnect c) = Sleeping d re → loop c = Sleeping d re.
Proof. unfold disconnect. cbv zeta. simpl. destruct (pendingConnectReject c); simpl; by destruct (connected c). Qed.

(** Nothing happens any more but the end of the sleep that runs. *)
Lemma stopped_step c c' : stopped c → cl_stop_step c c' →
  stopped c' ∧ log c' = log c ∧ ∀ d re, loop c' = Sleeping d re → loop c = Sleeping d re.
Proof.
  intros Hst Hstep. destruct Hstep as [c c' Hstep|c].
  - destruct Hstep as [c d re Hl|c d re Hl|c d re Hl|c m Hw'|c Hw'|c Hw'|c Ht'|c Hp'|c to sg|c l];
      pose proof Hst as (Hs & Hw & Hc & Ht & Hp & Ha & Hr); try congruence; try (destruct Ha; by eexists _, _).
    + unfold onSleepEnd. rewrite Hs. split; [|done]. split_and!; try done. by intros (? & ? & ?).
    + unfold sendSignal. by rewrite stopped_send.
    + unfold updateTopology. by rewrite stopped_send.
  - destruct Hst as (Hs & Hw & Hc & Ht & Hp & Ha & Hr).
    split; [|split; [|apply disconnect_sleep]]; unfold disconnect; cbv zeta; simpl; rewrite Hr; simpl; by rewrite Hc.
Qed.

Lemma stopped_steps c c' : rtc cl_stop_step c c' → stopped c →
  stopped c' ∧ log c' = log c ∧ ∀ d re, loop c' = Sleeping d re → loop c = Sleeping d re.
Proof.
  induction 1 as [c|c c1 c' H1 _ IH]; intros Hs; [done|].
  destruct (stopped_step _ _ Hs H1) as (Hs1 & Hl1 & Hp1). destruct (IH Hs1) as (? & -> & Hp). split_and!; [done..|]. auto.
Qed.

(** An attempt fails and the sleep after it ends. *)
Definition fail_once c : SignallingClient :=
  match loop c with Attempt d re => onSleepEnd d re (onConnectFailed d re c) | _ => c end.

Lemma failures_delay n c : loop c = Attempt 1000 false → stopConnecting c = false →
  loop (Nat.iter n fail_once c) = Attempt (Z.min (1000 * 2 ^ Z.of_nat n) max_delay) false ∧
  stopConnecting (Nat.iter n fail_once c) = false.
Proof.
  intros Hl Hs. induction n as [|n [IH IHs]].
  - simpl. by rewrite Hl.
  - rewrite Nat.iter_succ. unfold fail_once at 1 3. rewrite IH. unfold onSleepEnd. simpl. rewrite IHs. simpl.
    split; [|done]. f_equal. rewrite Nat2Z.inj_succ Z.pow_succ_r; [|lia]. unfold max_delay. lia.
Qed.

Lemma client_started cfg r : client_ok (connect r false (new_client cfg)).
Proof. by apply connectOnce_ok. Qed.
End lifecycle.

(** C16: the client never gives up, and stops when told.  From [connect] on and as long
    as [disconnect] is not called, in every history of openings, failures, closings,
    messages and timers, the client is connected, or has armed its reconnect timer,
    or its connect loop is running with a delay of at most a minute; after [n]
    failures in a row that delay is exactly [min(1000 * 2^n, 60000)] ms.  Once [disconnect]
    is called at any point, whatever follows, no reconnect timer and no ping interval is
    armed, no socket is opened, no message is sent and no event is emitted.  [disconnect]
    does not clear the timer of the sleep the connect loop may be in: it is the only one
    that may still run, and when it ends the loop ends and nothing else happens. *)
Theorem client_lifecycle {Sig Geo} cfg r (c c' : @SignallingClient Sig Geo) n :
  rtc cl_step (connect r false (new_client cfg)) c → rtc cl_stop_step (disconnect c) c' →
  (connected c = true ∨ reconnectTimer c = true ∨
     ∃ d re, 1000 <= d <= 60000 ∧ (loop c = Attempt d re ∨ loop c = Sleeping d re)) ∧
  loop (Nat.iter n fail_once (connect r false (@new_client Sig Geo cfg))) =
    Attempt (Z.min (1000 * 2 ^ Z.of_nat n) 60000) false ∧
  (connected c' = false ∧ reconnectTimer c' = false ∧ pingInterval c' = false ∧ c_ws c' = None ∧
     log c' = log (disconnect c) ∧
     (loop c' = Idle ∨ ∃ d re, loop c' = Sleeping d re ∧ loop c = Sleeping d re ∧ onSleepEnd d re c' = c' <| loop := Idle |>)).
Proof.
  intros Hr Hr'. destruct (cl_steps_ok _ _ Hr (client_started cfg r) eq_refl) as [Hok Hs].
  split; [|split].
  - destruct (ok_alive c Hok Hs) as [?|[?|Hl]]; [by left|by right; left|]. right; right.
    destruct (loop c) as [|d re|d re] eqn:El; [done|..]; exists d, re;
      (split; [apply (ok_delay c Hok d re); rewrite El|]; auto).
  - by apply failures_delay.
  - destruct (stopped_steps _ _ Hr' (disconnect_stopped c Hok)) as ((Hst & Hw & Hc & Ht & Hp & Ha & _) & Hl & Hsl).
    split_and!; [done..|]. destruct (loop c') as [|d re|d re] eqn:El; [by left|by destruct Ha; exists d, re|].
    right. exists d, re. split; [done|]. split; [by apply disconnect_sleep, Hsl|]. by rewrite /onSleepEnd Hst.
Qed.

Lemma client_lifecycle_witness :
  let cfg := MkConfig (js "a") (js "key") None false false None in
  let c0 : @SignallingClient () () := connect (js "client") false (new_client cfg) in
  let c := onClose (onOpen false c0) in
  reconnectTimer c = true ∧ loop (Nat.iter 7 fail_once c0) = Attempt 60000 false ∧
  log (disconnect c) = [Open; Send (CRegister (Some (js "a")) (Some (js "key")) None (Some (js "client")) false false None);
                        Emit EvDisconnected].
Proof.
  intros cfg c0 c. destruct (client_lifecycle cfg (js "client") c (disconnect c) 7) as (H1 & H2 & H3).
  - eapply rtc_l; [by eapply (StepOpen c0 1000 false)|]. apply rtc_once. by apply StepClose.
  - done.
  - split; [by vm_compute|]. split; [exact H2|]. by vm_compute.
Defined.
