(* ===== verification/SignallingViews.v ===== *)
(** * The registry and its views (server and clients together)

    What the clients know of each other against the server's registry: the messages
    the server wrote to a client's socket, handled in order, give the client exactly
    the registry.  Also the addresses the server hands out, and where the two
    programs together do not do what they mean to. *)

From S2P Require Import Prelude JsMap Bytes JsString Signalling SignallingClient.
Local Open Scope Z_scope.
#[local] Unset Default Proof Using.

Section server.
Context {Sig Geo : Type} (lookup : jstr → option Geo).
Abbreviation server := (@SignallingServer Sig Geo).
Implicit Types s : server.

(** ** What a socket receives *)

Definition inbox (k : sock) s : list (@smsg Sig Geo) := (filter (λ p, p.1 = k) (sent s)).*2.

Lemma inbox_same k s s' : sent s' = sent s → inbox k s' = inbox k s.
Proof. unfold inbox. by intros ->. Qed.

Lemma inbox_wsSend k k' m s :
  inbox k (wsSend k' m s) = inbox k s ++ (if bool_decide (k' = k) && is_open k' s then [m] else []).
Proof.
  unfold wsSend. destruct (is_open k' s); [|by rewrite andb_false_r app_nil_r].
  unfold inbox. simpl. rewrite filter_app fmap_app. f_equal.
  destruct (decide (k' = k)) as [->|Hk].
  - by rewrite bool_decide_true // filter_cons_True.
  - by rewrite bool_decide_false // filter_cons_False.
Qed.

Lemma nodes_wsSend k m s : nodes (wsSend k m s) = nodes s.
Proof. unfold wsSend. by destruct (is_open k s). Qed.
Lemma socks_wsSend k m s : socks (wsSend k m s) = socks s.
Proof. unfold wsSend. by destruct (is_open k s). Qed.
Lemma is_open_wsSend k k' m s : is_open k (wsSend k' m s) = is_open k s.
Proof. unfold is_open. by rewrite socks_wsSend. Qed.

(** A broadcast only writes. *)
Lemma broadcast_parts (P : jstr → bool) m s (l : omap jstr (@nodeInfo Geo)) :
  let s' := foldl (λ s p, if P p.1 then wsSend (ws p.2) m s else s) s l in
  nodes s' = nodes s ∧ socks s' = socks s ∧ virtualIpCounter s' = virtualIpCounter s ∧
  pinnedIps s' = pinnedIps s ∧ registrationToken s' = registrationToken s.
Proof.
  revert s. induction l as [|[id i] l IH]; intros s; simpl; [done|].
  destruct (P id); [|by apply IH]. destruct (IH (wsSend (ws i) m s)) as (-> & -> & -> & -> & ->).
  unfold wsSend. by destruct (is_open _ s).
Qed.

Lemma inbox_broadcast_list (P : jstr → bool) m k (l : omap jstr (@nodeInfo Geo)) : ∀ s, is_open k s = true →
  inbox k (foldl (λ s p, if P p.1 then wsSend (ws p.2) m s else s) s l) =
  inbox k s ++ replicate (length (filter (λ p, P p.1 = true ∧ ws p.2 = k) l)) m.
Proof.
  induction l as [|[id i] l IH]; intros s Ho; [by rewrite app_nil_r|]. cbn [foldl fst snd].
  destruct (P id) eqn:HP.
  - rewrite IH; [|by rewrite is_open_wsSend]. rewrite inbox_wsSend. destruct (decide (ws i = k)) as [Hk|Hk].
    + rewrite bool_decide_true // filter_cons_True //. by rewrite Hk Ho -(assoc_L (++)).
    + rewrite bool_decide_false // filter_cons_False; [by rewrite app_nil_r|]. by intros [_ ?].
  - rewrite IH // filter_cons_False //. simpl. rewrite HP. by intros [? _].
Qed.

(** The only entry of a socket. *)
Lemma filter_socket me i k (l : omap jstr (@nodeInfo Geo)) : om_wf l → om_get me l = Some i → ws i = k →
  (∀ id j, om_get id l = Some j → ws j = k → id = me) → filter (λ p, ws p.2 = k) l = [(me, i)].
Proof.
  induction l as [|[id j] l IH]; [done|]. intros Hwf Hme Hi Hon.
  assert (om_wf l) as Hwf' by (by apply NoDup_cons in Hwf as [_ ?]).
  assert (id ∉ om_keys l) as Hid by (by apply NoDup_cons in Hwf as [? _]).
  assert (∀ id' j', om_get id' l = Some j' → om_get id' ((id, j) :: l) = Some j') as Htail.
  { intros id' j' Hg. simpl. rewrite decide_False //. intros ->. apply Hid, om_get_keys. by rewrite Hg. }
  destruct (decide (me = id)) as [->|Hne].
  - simpl in Hme. rewrite decide_True // in Hme. injection Hme as ->. rewrite filter_cons_True //. f_equal.
    apply filter_none, Forall_forall. intros [id' j'] Hin Hk. apply om_elem_get in Hin; [|done].
    assert (id' = id) as -> by (by apply (Hon id' j'); [apply Htail|]).
    apply Hid, om_get_keys. by rewrite Hin.
  - simpl in Hme. rewrite decide_False // in Hme. rewrite filter_cons_False.
    + apply IH; try done. intros id' j' Hg. by apply Hon, Htail.
    + simpl. intros Hk. apply Hne. symmetry. apply (Hon id j); [|done]. simpl. by rewrite decide_True.
Qed.

Lemma inbox_broadcast P m k me i s : om_wf (nodes s) → om_get me (nodes s) = Some i → ws i = k →
  (∀ id j, om_get id (nodes s) = Some j → ws j = k → id = me) → is_open k s = true →
  inbox k (broadcast P m s) = inbox k s ++ (if P me then [m] else []).
Proof.
  intros Hwf Hme Hi Hon Ho. unfold broadcast. rewrite inbox_broadcast_list //. f_equal.
  rewrite -(list_filter_filter (λ p, P p.1 = true) (λ p, ws p.2 = k)) (filter_socket me i) //.
  destruct (P me) eqn:HP; [rewrite filter_cons_True //|rewrite filter_cons_False //= HP //].
Qed.

(** ** The view of a client *)

Definition view_step (v : omap jstr (@peer_info Geo)) (m : @smsg Sig Geo) : omap jstr peer_info :=
  match m with
  | SPeers l => foldl (λ v p, om_set (p_nodeId p) p v) v l
  | SPeerJoin p => om_set (p_nodeId p) p v
  | SPeerLeave id => om_delete id v
  | _ => v
  end.

Lemma peers_send m (c : @SignallingClient Sig Geo) : peers (send m c) = peers c.
Proof. unfold send. by case_bool_decide. Qed.

Lemma peers_message m (c : @SignallingClient Sig Geo) : peers (handleServerMessage m c) = view_step (peers c) m.
Proof.
  destruct m; simpl; try done.
  - unfold requestExitNodes, requestPeers. by rewrite !peers_send.
  - unfold handlePeersList. simpl. revert c. induction peers as [|p l IH]; intros c; simpl; [done|].
    rewrite IH. unfold add_peer. by destruct (is_exit_peer p).
  - unfold handleExitNodesList. simpl. revert c. induction exitNodes as [|p l IH]; intros c; simpl; [done|].
    by rewrite IH.
  - unfold handlePeerJoin, add_peer. by destruct (is_exit_peer peer).
Qed.

Lemma peers_messages l (c : @SignallingClient Sig Geo) :
  peers (foldl (λ c m, handleServerMessage m c) c l) = foldl view_step (peers c) l.
Proof. revert c. induction l as [|m l IH]; intros c; simpl; [done|]. by rewrite IH peers_message. Qed.

Definition is_peers (m : @smsg Sig Geo) : bool := match m with SPeers _ => true | _ => false end.

(** The view [v] a client of the node [me] on the socket [k] will have, once it has
    handled what was sent: [full] once a list of peers is among it. *)
Record view_ok (me : jstr) (k : sock) s (v : omap jstr (@peer_info Geo)) (full : bool) : Prop := {
  vo_wf : om_wf (nodes s);
  vo_me : ∃ i, om_get me (nodes s) = Some i ∧ ws i = k;
  vo_open : is_open k s = true;
  vo_closure : closure_nodeId k s = Some me;
  vo_socket : ∀ id i, om_get id (nodes s) = Some i → ws i = k → id = me;
  vo_sound : ∀ id p, om_get id v = Some p → id ≠ me ∧ ∃ i, om_get id (nodes s) = Some i ∧ p = peer_of id i;
  vo_full : full = true → ∀ id i, id ≠ me → om_get id (nodes s) = Some i → is_Some (om_get id v)
}.

(** The other nodes leave the client alone: nobody else registers its id, its socket
    does not close, and it does not register again. *)
Definition undisturbed (me : jstr) (k : sock) (e : @sv_event Sig) : Prop :=
  match e with
  | Connect k' _ | Close k' => k' ≠ k
  | Message _ k' (CRegister nodeId _ _ _ _ _ _) => k' ≠ k ∧ nodeId ≠ Some me
  | Message _ _ _ => True
  end.

Section keep.
Context (me : jstr) (k : sock).
Implicit Types v : omap jstr (@peer_info Geo).

Lemma vo_same s s' v full : nodes s' = nodes s → is_open k s' = is_open k s →
  closure_nodeId k s' = closure_nodeId k s → view_ok me k s v full → view_ok me k s' v full.
Proof. intros Hn Ho Hc []. by split; rewrite ?Hn ?Ho ?Hc. Qed.

Lemma vo_wsSend k' m s v full : view_ok me k s v full → view_ok me k (wsSend k' m s) v full.
Proof.
  apply vo_same; [apply nodes_wsSend|apply is_open_wsSend|]. unfold closure_nodeId. by rewrite socks_wsSend.
Qed.

Lemma vo_broadcast P m s v full : view_ok me k s v full → view_ok me k (broadcast P m s) v full.
Proof.
  destruct (broadcast_parts P m s (nodes s)) as (Hn & Hs & _). unfold broadcast.
  apply vo_same; [done|unfold is_open; by rewrite Hs|unfold closure_nodeId; by rewrite Hs].
Qed.

Lemma vo_inbox_broadcast P m s v full : view_ok me k s v full →
  inbox k (broadcast P m s) = inbox k s ++ (if P me then [m] else []).
Proof. intros [Hwf (i & Hi & Hk) Ho _ Hon _ _]. by eapply inbox_broadcast. Qed.

Lemma vo_sock k' f s v full : k' ≠ k → view_ok me k s v full →
  view_ok me k (s <| socks ::= om_update k' f |>) v full.
Proof.
  intros Hk. apply vo_same; [done|unfold is_open|unfold closure_nodeId]; simpl;
    rewrite om_get_update; by rewrite decide_False.
Qed.

Lemma vo_set_node id i s v full : id ≠ me → ws i ≠ k → view_ok me k s v full →
  view_ok me k (s <| nodes ::= om_set id i |>) (om_set id (peer_of id i) v) full.
Proof.
  intros Hid Hws [Hwf (j & Hj & Hk) Ho Hc Hon Hs Hf]. split; simpl; try done.
  - by apply om_set_wf.
  - exists j. by rewrite om_get_set_ne.
  - intros id' i'. rewrite om_get_set. case_decide; [by intros [= <-]|by apply Hon].
  - intros id' p. rewrite !om_get_set. case_decide; [subst; intros [= <-]; split; [done|by exists i]|by apply Hs].
  - intros Hfull id' i' Hne. rewrite !om_get_set. case_decide; [by eexists|by apply Hf].
Qed.

Lemma vo_delete_node id s v full : id ≠ me → view_ok me k s v full →
  view_ok me k (s <| nodes ::= om_delete id |>) (om_delete id v) full.
Proof.
  intros Hid [Hwf (j & Hj & Hk) Ho Hc Hon Hs Hf]. split; simpl; try done.
  - by apply om_delete_wf.
  - exists j. by rewrite om_get_delete_ne.
  - intros id' i'. rewrite om_get_delete. case_decide; [done|by apply Hon].
  - intros id' p. rewrite !om_get_delete. case_decide; [done|by apply Hs].
  - intros Hfull id' i' Hne. rewrite !om_get_delete. case_decide; [done|by apply Hf].
Qed.

Lemma vo_topology id i l s v full : om_get id (nodes s) = Some i → view_ok me k s v full →
  view_ok me k (s <| nodes ::= om_set id (i <| connectedPeers := l |>) |>) v full.
Proof.
  intros Hi [Hwf (j & Hj & Hk) Ho Hc Hon Hs Hf]. split; simpl; try done.
  - by apply om_set_wf.
  - rewrite om_get_set. case_decide; [subst|by exists j].
    rewrite Hi in Hj. injection Hj as <-. by eexists.
  - intros id' i'. rewrite om_get_set. case_decide; [subst; intros [= <-] Hk'; by apply (Hon id i)|by apply Hon].
  - intros id' p Hp. destruct (Hs id' p Hp) as (Hne & i' & Hi' & ->). split; [done|].
    rewrite om_get_set. case_decide; [subst|by exists i']. rewrite Hi in Hi'. injection Hi' as <-. by eexists.
  - intros Hfull id' i' Hne. rewrite om_get_set. case_decide; [subst; intros _; by eapply Hf|by apply Hf].
Qed.

(** The list of peers, put into a view. *)
Lemma view_peers_list (l : omap jstr (@nodeInfo Geo)) v id : om_wf l →
  om_get id (foldl (λ v p, om_set (p_nodeId p) p v) v ((λ p, peer_of p.1 p.2) <$> l)) =
    match om_get id l with Some i => Some (peer_of id i) | None => om_get id v end.
Proof.
  revert v. induction l as [|[id' i] l IH]; intros v Hwf; [done|].
  apply NoDup_cons in Hwf as [Hid Hwf]. cbn [fmap list_fmap foldl fst snd om_get]. rewrite IH //.
  case_decide as Hd; [subst|destruct (om_get id l); [done|]; by rewrite om_get_set_ne].
  destruct (om_get id' l) eqn:Hg; [|by rewrite om_get_set_eq].
  destruct Hid. apply om_get_keys. by rewrite Hg.
Qed.

Lemma vo_peers s v full : view_ok me k s v full →
  view_ok me k s (foldl (λ v p, om_set (p_nodeId p) p v) v
    ((λ p, peer_of p.1 p.2) <$> filter (λ p, Some p.1 ≠ closure_nodeId k s) (nodes s))) true.
Proof.
  intros [Hwf Hme Ho Hc Hon Hs Hf]. rewrite Hc. split; try done.
  - intros id p. rewrite view_peers_list; [|by apply om_filter_wf]. rewrite om_get_filter //.
    intros Hp. destruct (om_get id (nodes s)) as [i|] eqn:Hi; [case_decide as Hd|].
    + injection Hp as <-. split; [simpl in Hd; congruence|by exists i].
    + destruct (Hs _ _ Hp) as (? & i' & Hi' & ->). split; [done|]. exists i'. by rewrite -Hi.
    + destruct (Hs _ _ Hp) as (? & i' & Hi' & ->). congruence.
  - intros _ id i Hne Hi. rewrite view_peers_list; [|by apply om_filter_wf]. rewrite om_get_filter // Hi.
    rewrite decide_True; [by eexists|]. simpl. congruence.
Qed.

(** What an event adds to the socket's messages, and the view with it. *)
Definition keeps s s' : Prop := ∀ v full, view_ok me k s v full → ∃ ms,
  inbox k s' = inbox k s ++ ms ∧ view_ok me k s' (foldl view_step v ms) (full || existsb is_peers ms).

Lemma keeps_refl s : keeps s s.
Proof. intros v full H. exists []. by rewrite app_nil_r orb_false_r. Qed.

Lemma keeps_trans s1 s2 s3 : keeps s1 s2 → keeps s2 s3 → keeps s1 s3.
Proof.
  intros H1 H2 v full H. destruct (H1 v full H) as (m1 & E1 & H1'). destruct (H2 _ _ H1') as (m2 & E2 & H2').
  exists (m1 ++ m2). rewrite E2 E1 (assoc_L (++)) foldl_app existsb_app orb_assoc. done.
Qed.

(** Nothing for the socket, and nothing that matters to the view. *)
Lemma keeps_quiet s s' : sent s' = sent s → (∀ v full, view_ok me k s v full → view_ok me k s' v full) →
  keeps s s'.
Proof.
  intros Hs Hv v full H. exists []. rewrite (inbox_same k s s' Hs) app_nil_r orb_false_r. split; [done|by apply Hv].
Qed.

(** A message that says nothing of the peers. *)
Lemma keeps_wsSend k' m s : (∀ v, view_step v m = v) → is_peers m = false → keeps s (wsSend k' m s).
Proof.
  intros Hm Hp v full H. rewrite inbox_wsSend. eexists. split; [done|].
  case_match; simpl; rewrite ?Hm ?Hp ?orb_false_r; by apply vo_wsSend.
Qed.
Lemma keeps_other k' m s : k' ≠ k → keeps s (wsSend k' m s).
Proof.
  intros Hk v full H. exists []. rewrite inbox_wsSend bool_decide_false // orb_false_r.
  split; [done|by apply vo_wsSend].
Qed.
Lemma keeps_broadcast P m s : (∀ v, view_step v m = v) → is_peers m = false → keeps s (broadcast P m s).
Proof.
  intros Hm Hp v full H. eexists. split; [by eapply vo_inbox_broadcast|].
  case_match; simpl; rewrite ?Hm ?Hp ?orb_false_r; by apply vo_broadcast.
Qed.

(** A node recorded and announced. *)
Lemma keeps_join id i k' ip s : id ≠ me → ws i ≠ k → k' ≠ k →
  keeps s (broadcastPeerJoin id i (sendRegistered k' id ip (setNodeId k' id (s <| nodes ::= om_set id i |>)))).
Proof.
  intros Hid Hws Hk v full H. exists [SPeerJoin (peer_of id i)]. rewrite orb_false_r.
  assert (view_ok me k (sendRegistered k' id ip (setNodeId k' id (s <| nodes ::= om_set id i |>)))
    (om_set id (peer_of id i) v) full) as H'.
  { apply vo_wsSend. unfold setNodeId. apply vo_sock; [done|]. by apply vo_set_node. }
  split; [|by apply vo_broadcast]. unfold broadcastPeerJoin.
  erewrite vo_inbox_broadcast; [|exact H']. rewrite (bool_decide_false (me = id)); [|by intros ->].
  cbn [negb]. f_equal.
  unfold sendRegistered. rewrite inbox_wsSend bool_decide_false // app_nil_r. done.
Qed.

Lemma keeps_close_socket k' s : k' ≠ k → keeps s (close_socket k' s).
Proof. intros Hk. apply keeps_quiet; [done|]. intros v full. by apply vo_sock. Qed.

Lemma keeps_register now k' nodeId pk name role nat relay token s : k' ≠ k → nodeId ≠ Some me →
  keeps s (handleRegister lookup now k' nodeId pk name role nat relay token s).
Proof.
  intros Hk Hid. unfold handleRegister.
  destruct (truthy nodeId) as [id|] eqn:Hn; [|by apply keeps_other].
  destruct (truthy pk) as [pub|]; [|by apply keeps_other].
  assert (id ≠ me) as Hne by (destruct nodeId as [[|]|]; simplify_eq/=; congruence).
  match goal with |- keeps _ (if ?b then _ else _) => destruct b end.
  { eapply keeps_trans; [by apply (keeps_other k')|by apply keeps_close_socket]. }
  destruct (om_get id (nodes s)) as [old|] eqn:Hold.
  - unfold reregister. intros v full H.
    assert (ws old ≠ k) as Hold' by (intros ?; apply Hne; by eapply (vo_socket me k s)).
    revert v full H. change (keeps s ?s') with (keeps s s'). eapply keeps_trans; [|by apply keeps_join].
    match goal with |- keeps _ (if ?b then _ else _) => destruct b end;
      [by apply keeps_close_socket|apply keeps_refl].
  - unfold register_new. destruct (assign_ip id s) as [ip s1] eqn:Ha.
    eapply (keeps_trans _ s1); [|by apply keeps_join]. apply keeps_quiet.
    + unfold assign_ip, next_ip in Ha. repeat case_match; by simplify_eq/=.
    + intros v full. apply vo_same; unfold assign_ip, next_ip in Ha; repeat case_match; by simplify_eq/=.
Qed.

Lemma keeps_step s e : undisturbed me k e → keeps s (sv_step lookup s e).
Proof.
  intros He. destruct e as [k' a|now k' m|k']; simpl in He.
  - apply keeps_quiet; [done|]. intros v full. unfold sv_step, handleConnection.
    apply vo_same; [done|unfold is_open|unfold closure_nodeId]; simpl; by rewrite om_get_set_ne.
  - destruct m as [nodeId pk name role nat relay token|to sg| | |l| | |]; cbn [sv_step handleMessage].
    + destruct He. by apply keeps_register.
    + unfold handleSignal. repeat case_match; try apply keeps_refl; by apply keeps_wsSend.
    + unfold handleGetPeers. destruct (decide (k' = k)) as [->|Hk]; [|by apply keeps_other].
      intros v full H. rewrite inbox_wsSend (vo_open me k s v full H) bool_decide_true //. eexists.
      split; [done|]. simpl. rewrite orb_true_r. by apply vo_wsSend, (vo_peers s v full).
    + by apply keeps_wsSend.
    + unfold handleTopologyUpdate. destruct (closure_nodeId k' s) as [id|]; [|apply keeps_refl].
      destruct (om_get id (nodes s)) as [i|] eqn:Hi; [|apply keeps_refl].
      eapply keeps_trans; [|by apply keeps_broadcast]. apply keeps_quiet; [done|].
      intros v full. by apply vo_topology.
    + by apply keeps_wsSend.
    + by apply keeps_wsSend.
    + by apply keeps_wsSend.
  - cbn [sv_step]. eapply keeps_trans; [by apply keeps_close_socket|]. set (s1 := close_socket k' s). unfold handleWsClose.
    destruct (list_find _ _) as [[n [id i]]|] eqn:Hf; [|apply keeps_refl].
    apply list_find_Some in Hf as (Hin & Hws & _). simpl in Hws.
    intros v full H. assert (om_get id (nodes s1) = Some i) as Hi.
    { apply om_elem_get; [by destruct H|]. by eapply list_elem_of_lookup_2. }
    assert (id ≠ me) as Hne.
    { intros ->. destruct (vo_me me k s1 v full H) as (j & Hj & Hk). congruence. }
    exists [SPeerLeave id]. rewrite orb_false_r.
    assert (view_ok me k (s1 <| nodes ::= om_delete id |>) (om_delete id v) full) as H' by (by apply vo_delete_node).
    split; [|by apply vo_broadcast]. unfold broadcastPeerLeave. erewrite vo_inbox_broadcast; [|exact H'].
    rewrite (bool_decide_false (me = id)); [done|]. by intros ->.
Qed.

Lemma keeps_run s es : Forall (undisturbed me k) es → keeps s (foldl (sv_step lookup) s es).
Proof.
  intros Hes. revert s. induction Hes as [|e es He _ IH]; intros s; simpl; [apply keeps_refl|].
  eapply keeps_trans; [by apply keeps_step|apply IH].
Qed.

(** A registration on a new socket starts a view. *)
Definition unused s : Prop := ∀ id i, om_get id (nodes s) = Some i → ws i ≠ k.

Lemma vo_start i ip s : om_wf (nodes s) → unused s → ws i = k → is_open k s = true →
  let s' := broadcastPeerJoin me i (sendRegistered k me ip (setNodeId k me (s <| nodes ::= om_set me i |>))) in
  view_ok me k s' [] false ∧ inbox k s' = inbox k s ++ [SRegistered me ip networkCidr].
Proof.
  intros Hwf Hun Hi Ho s'.
  assert (is_open k (setNodeId k me (s <| nodes ::= om_set me i |>)) = true) as Ho'.
  { unfold is_open, setNodeId in *. simpl. rewrite om_get_update decide_True //. by destruct (om_get k (socks s)). }
  assert (view_ok me k (sendRegistered k me ip (setNodeId k me (s <| nodes ::= om_set me i |>))) [] false) as H.
  { apply vo_wsSend. split; simpl; try done.
    - by apply om_set_wf.
    - exists i. by rewrite om_get_set_eq.
    - unfold closure_nodeId. simpl. rewrite om_get_update decide_True //.
      unfold is_open in Ho. by destruct (om_get k (socks s)).
    - intros id j. rewrite om_get_set. case_decide; [done|]. intros Hj Hk. by destruct (Hun id j). }
  split; [by apply vo_broadcast|]. unfold s', broadcastPeerJoin. erewrite vo_inbox_broadcast; [|exact H].
  rewrite bool_decide_true // app_nil_r. unfold sendRegistered. rewrite inbox_wsSend Ho' bool_decide_true //.
Qed.

Definition token_ok (token : option jstr) s : Prop :=
  truthy (registrationToken s) = None ∨ token = truthy (registrationToken s).

Lemma register_start now pk name role nat relay token s : om_wf (nodes s) → unused s → is_open k s = true →
  me ≠ [] → pk ≠ [] → token_ok token s →
  let s' := handleRegister lookup now k (Some me) (Some pk) name role nat relay token s in
  view_ok me k s' [] false ∧ ∃ ip, inbox k s' = inbox k s ++ [SRegistered me ip networkCidr].
Proof.
  intros Hwf Hun Ho Hme Hpk Htok s'. unfold s', handleRegister.
  assert (truthy (Some me) = Some me) as -> by (by destruct me).
  assert (truthy (Some pk) = Some pk) as -> by (by destruct pk).
  match goal with |- context [if ?b then close_socket _ _ else _] => assert (b = false) as -> end.
  { destruct Htok as [Ht|Ht]; rewrite Ht; [done|]. destruct (truthy _); [|done]. by rewrite bool_decide_true. }
  destruct (om_get me (nodes s)) as [old|] eqn:Hold.
  - unfold reregister. match goal with |- context [setNodeId k me (?s1 <| nodes ::= _ |>)] => set (s2 := s1) end.
    assert (nodes s2 = nodes s ∧ is_open k s2 = true ∧ inbox k s2 = inbox k s) as (Hn & Ho' & Hin).
    { unfold s2. destruct (negb _ && _); [|done]. split; [done|]. split; [|done].
      unfold is_open, close_socket in *. simpl. rewrite om_get_update decide_False //.
      intros ->. by destruct (Hun me old). }
    rewrite -Hin. match goal with |- context [om_set me ?i] => destruct (vo_start i (i_virtualIp i) s2) as [? ->] end;
      try done; [by rewrite Hn|intros id j; rewrite Hn; apply Hun|]. split; [done|by eexists].
  - unfold register_new. destruct (assign_ip me s) as [ip s2] eqn:Ha.
    assert (nodes s2 = nodes s ∧ is_open k s2 = true ∧ inbox k s2 = inbox k s) as (Hn & Ho' & Hin).
    { unfold assign_ip, next_ip in Ha. repeat case_match; by simplify_eq/=. }
    rewrite -Hin. match goal with |- context [om_set me ?i] => destruct (vo_start i ip s2) as [? ->] end;
      try done; [by rewrite Hn|intros id j; rewrite Hn; apply Hun|]. split; [done|by eexists].
Qed.
End keep.

(** ** The registry in every history *)

(** What an event does to the registry and the address counter. *)
Definition registry_step s s' : Prop :=
  nodes s' = nodes s ∧ virtualIpCounter s' = virtualIpCounter s ∨
  (∃ id i i', om_get id (nodes s) = Some i ∧ nodes s' = om_set id i' (nodes s) ∧
     i_virtualIp i' = i_virtualIp i ∧ i_nodeId i' = i_nodeId i ∧ virtualIpCounter s' = virtualIpCounter s) ∨
  (∃ id i s1, om_get id (nodes s) = None ∧ assign_ip id s = (i_virtualIp i, s1) ∧
     nodes s' = om_set id i (nodes s) ∧ i_nodeId i = id ∧ virtualIpCounter s' = virtualIpCounter s1) ∨
  (∃ id, nodes s' = om_delete id (nodes s) ∧ virtualIpCounter s' = virtualIpCounter s).

Lemma broadcast_registry P m s : nodes (broadcast P m s) = nodes s ∧
  virtualIpCounter (broadcast P m s) = virtualIpCounter s ∧ pinnedIps (broadcast P m s) = pinnedIps s.
Proof. destruct (broadcast_parts P m s (nodes s)) as (? & ? & ? & ? & ?). done. Qed.
Lemma wsSend_registry k m s : nodes (wsSend k m s) = nodes s ∧
  virtualIpCounter (wsSend k m s) = virtualIpCounter s ∧ pinnedIps (wsSend k m s) = pinnedIps s.
Proof. unfold wsSend. by destruct (is_open k s). Qed.

Lemma assign_ip_parts id s ip s1 : assign_ip id s = (ip, s1) → nodes s1 = nodes s ∧ pinnedIps s1 = pinnedIps s.
Proof. unfold assign_ip, next_ip. intros H. repeat case_match; by simplify_eq/=. Qed.

Lemma registry_same s s' : nodes s' = nodes s ∧ virtualIpCounter s' = virtualIpCounter s ∧
  pinnedIps s' = pinnedIps s → registry_step s s' ∧ pinnedIps s' = pinnedIps s.
Proof. intros (? & ? & ?). split; [by left|done]. Qed.

Lemma register_registry now k nodeId pk name role nat relay token s :
  let s' := handleRegister lookup now k nodeId pk name role nat relay token s in
  registry_step s s' ∧ pinnedIps s' = pinnedIps s.
Proof.
  intros s'. unfold s', handleRegister.
  destruct (truthy nodeId) as [id|]; [|apply registry_same, wsSend_registry].
  destruct (truthy pk) as [pub|]; [|apply registry_same, wsSend_registry].
  match goal with |- context [if ?b then close_socket _ _ else _] => destruct b end;
    [apply registry_same, (wsSend_registry k (SError "Unauthorized") s)|].
  destruct (om_get id (nodes s)) as [old|] eqn:Hold.
  - unfold reregister, broadcastPeerJoin, sendRegistered.
    match goal with |- context [setNodeId k id (?s1 <| nodes ::= ?f |>)] =>
      set (s2 := setNodeId k id (s1 <| nodes ::= f |>)) end.
    match goal with |- context [broadcast ?P ?m ?s3] => destruct (broadcast_registry P m s3) as (Hn & Hc & Hp) end.
    match type of Hn with context [wsSend ?k1 ?m ?s3] => destruct (wsSend_registry k1 m s3) as (Hn' & Hc' & Hp') end.
    split; [|by rewrite Hp Hp' /s2; destruct (negb _ && _)]. right; left. eexists id, old, _. split; [done|].
    rewrite Hn Hn' Hc Hc' /s2. by destruct (negb _ && _).
  - unfold register_new. destruct (assign_ip id s) as [ip s1] eqn:Ha.
    destruct (assign_ip_parts _ _ _ _ Ha) as [Hns Hps]. unfold broadcastPeerJoin, sendRegistered.
    match goal with |- context [broadcast ?P ?m ?s3] => destruct (broadcast_registry P m s3) as (Hn & Hc & Hp) end.
    match type of Hn with context [wsSend ?k1 ?m ?s3] => destruct (wsSend_registry k1 m s3) as (Hn' & Hc' & Hp') end.
    split; [|by rewrite Hp Hp']. right; right; left. eexists id, _, s1. split; [done|].
    rewrite Hn Hn' Hc Hc' /= Hns. split; [|split; [reflexivity|done]]. exact Ha.
Qed.

Lemma sv_step_registry s e :
  registry_step s (sv_step lookup s e) ∧ pinnedIps (sv_step lookup s e) = pinnedIps s.
Proof.
  destruct e as [k a|now k m|k]; cbn [sv_step].
  - by apply registry_same.
  - destruct m; cbn [handleMessage]; try apply registry_same, wsSend_registry.
    + apply register_registry.
    + apply registry_same. unfold handleSignal. repeat case_match; try done; apply wsSend_registry.
    + unfold handleTopologyUpdate. destruct (closure_nodeId k s) as [id|]; [|by apply registry_same].
      destruct (om_get id (nodes s)) as [i|] eqn:Hi; [|by apply registry_same].
      unfold broadcastTopology.
      match goal with |- context [broadcast ?P ?m ?s3] => destruct (broadcast_registry P m s3) as (Hn & Hc & Hp) end.
      split; [|by rewrite Hp]. right; left. eexists id, i, _. split; [done|]. by rewrite Hn Hc.
  - unfold handleWsClose. destruct (list_find _ _) as [[n [id i]]|]; [|by apply registry_same].
    unfold broadcastPeerLeave.
    match goal with |- context [broadcast ?P ?m ?s3] => destruct (broadcast_registry P m s3) as (Hn & Hc & Hp) end.
    split; [|by rewrite Hp]. right; right; right. exists id. by rewrite Hn Hc.
Qed.

Lemma sv_step_wf s e : om_wf (nodes s) → om_wf (nodes (sv_step lookup s e)).
Proof.
  intros H. destruct (sv_step_registry s e) as
    [[[-> _]|[(id & i & i' & _ & -> & _)|[(id & i & s1 & _ & _ & -> & _)|(id & -> & _)]]] _];
    auto using om_set_wf, om_delete_wf.
Qed.

Lemma sv_run_wf s es : om_wf (nodes s) → om_wf (nodes (foldl (sv_step lookup) s es)).
Proof. revert s. induction es as [|e es IH]; intros s H; simpl; [done|]. by apply IH, sv_step_wf. Qed.

(** *** Addresses *)

(** The pinned addresses are none of the counter's. *)
Definition pins_apart s : Prop := ∀ id p n, om_get id (pinnedIps s) = Some p → 2 <= n → p ≠ counter_ip n.

Record ips_ok s : Prop := {
  ip_counter : 2 <= virtualIpCounter s;
  ip_key : ∀ id i, om_get id (nodes s) = Some i → i_nodeId i = id;
  ip_range : ∀ id i, om_get id (nodes s) = Some i →
    om_get id (pinnedIps s) = Some (i_virtualIp i) ∨
    ∃ n, 2 <= n < virtualIpCounter s ∧ i_virtualIp i = counter_ip n;
  ip_unique : ∀ id id' i i', om_get id (nodes s) = Some i → om_get id' (nodes s) = Some i' →
    i_virtualIp i = i_virtualIp i' → id = id'
}.

Lemma counter_ip_inj n n' : counter_ip n = counter_ip n' → n = n'.
Proof. unfold counter_ip. intros H%app_inv_head. injection H as H. by apply num_str_inj. Qed.

Lemma truthy_Some o x : truthy o = Some x → o = Some x.
Proof. by destruct o as [[|]|]. Qed.

(** What a new address must be. *)
Definition fresh_ip id s ip s1 : Prop :=
  virtualIpCounter s <= virtualIpCounter s1 ∧
  (om_get id (pinnedIps s) = Some ip ∨ ∃ n, 2 <= n < virtualIpCounter s1 ∧ ip = counter_ip n) ∧
  ∀ id' i', om_get id' (nodes s) = Some i' → i_virtualIp i' ≠ ip.

Lemma next_ip_fresh id s ip s1 : pins_apart s → ips_ok s → next_ip s = (ip, s1) → fresh_ip id s ip s1.
Proof.
  intros Hpin [Hc Hk Hr _] [= <- <-]. unfold fresh_ip. simpl. split; [lia|]. split.
  - right. exists (virtualIpCounter s). split; [lia|done].
  - intros id' i' Hi' Heq. destruct (Hr id' i' Hi') as [Hp|(n & Hn & Hip)].
    + by apply (Hpin id' _ (virtualIpCounter s) Hp).
    + rewrite Hip in Heq. apply counter_ip_inj in Heq. lia.
Qed.

Lemma assign_ip_fresh id s ip s1 : pins_apart s → ips_ok s → om_get id (nodes s) = None →
  assign_ip id s = (ip, s1) → fresh_ip id s ip s1.
Proof.
  intros Hpin H Hid Ha. unfold assign_ip in Ha.
  destruct (truthy (om_get id (pinnedIps s))) as [p|] eqn:Hp; [|by apply next_ip_fresh].
  destruct (existsb _ _) eqn:He; [by apply next_ip_fresh|]. injection Ha as <- <-. split; [lia|].
  split; [left; by apply truthy_Some|]. intros id' i' Hi' Heq.
  assert (existsb (λ n, bool_decide (i_virtualIp n = p) && negb (bool_decide (i_nodeId n = id))) (om_values (nodes s)) = true);
    [|congruence].
  apply existsb_exists. exists i'. split.
  - apply list_elem_of_In, list_elem_of_fmap. exists (id', i'). split; [done|by apply om_get_Some_elem].
  - rewrite bool_decide_true // bool_decide_false //. rewrite (ip_key s H id' i' Hi'). intros ->. congruence.
Qed.

Lemma sv_step_ips s e : pins_apart s → ips_ok s → ips_ok (sv_step lookup s e).
Proof.
  intros Hpin H. destruct (sv_step_registry s e) as [Hstep Hpins]. set (s' := sv_step lookup s e) in *. clearbody s'.
  destruct Hstep as [[Hn Hc]|[(id & i & i' & Hi & Hn & Hip & Hk & Hc)|[(id & i & s1 & Hi & Ha & Hn & Hk & Hc)|(id & Hn & Hc)]]].
  - destruct H as [H1 H2 H3 H4]. by split; rewrite ?Hn ?Hc ?Hpins.
  - destruct H as [H1 H2 H3 H4]. split; rewrite ?Hn ?Hc ?Hpins; try done.
    + intros id' j. rewrite om_get_set. case_decide; [subst; intros [= <-]; rewrite Hk; by apply H2|by apply H2].
    + intros id' j. rewrite om_get_set. case_decide; [subst; intros [= <-]; rewrite Hip; by apply H3|by apply H3].
    + intros id1 id2 j1 j2. rewrite !om_get_set. repeat case_decide; subst; intros Hj1 Hj2 He; simplify_eq; try done.
      * apply (H4 _ _ i j2); congruence.
      * apply (H4 _ _ j1 i); congruence.
      * by apply (H4 _ _ j1 j2).
  - destruct (assign_ip_fresh _ _ _ _ Hpin H Hi Ha) as (Hle & Hr & Hf). destruct H as [H1 H2 H3 H4].
    split; rewrite ?Hn ?Hc ?Hpins.
    + lia.
    + intros id' j. rewrite om_get_set. case_decide; [subst; by intros [= <-]|by apply H2].
    + intros id' j. rewrite om_get_set. case_decide; [subst; by intros [= <-]|].
      intros Hj. destruct (H3 _ _ Hj) as [?|(n & ? & ?)]; [by left|right; exists n; split; [lia|done]].
    + intros id1 id2 j1 j2. rewrite !om_get_set. repeat case_decide; subst; intros Hj1 Hj2 He; simplify_eq; try done.
      * by destruct (Hf id2 j2).
      * by destruct (Hf id1 j1).
      * by apply (H4 _ _ j1 j2).
  - destruct H as [H1 H2 H3 H4]. split; rewrite ?Hn ?Hc ?Hpins; try done.
    + intros id' j. rewrite om_get_delete. case_decide; [done|by apply H2].
    + intros id' j. rewrite om_get_delete. case_decide; [done|by apply H3].
    + intros id1 id2 j1 j2. rewrite !om_get_delete. repeat case_decide; try done. by apply H4.
Qed.
End server.

(** C6: a client's peers are the registry.  After any history, let a node register on a
    new socket (with a valid token), and then let anything happen that leaves it
    connected: whatever the interleaving of registrations, re-registrations,
    departures, signals and queries of all the nodes, the messages the server wrote
    to its socket, handled in order by a new client, leave it with peers that are
    registered, other than itself, and described as the registry describes them
    now; and once a list of peers is among the messages, with all of them. *)
Theorem signalling_views_agree {Sig Geo} (lookup : jstr → option Geo) pinned tok before k a now me pk name
    role nat relay token es (c : @SignallingClient Sig Geo) :
  let s0 := foldl (sv_step lookup) (new_server pinned tok) before in
  unused k s0 → me ≠ [] → pk ≠ [] → token_ok token s0 →
  let s1 := foldl (sv_step lookup) s0
    [Connect k a; Message now k (CRegister (Some me) (Some pk) name role nat relay token)] in
  Forall (undisturbed me k) es →
  let s := foldl (sv_step lookup) s1 es in
  let received := drop (length (inbox k s0)) (inbox k s) in
  peers c = [] →
  let c' := foldl (λ c m, handleServerMessage m c) c received in
  (∀ id p, getPeer id c' = Some p → id ≠ me ∧ ∃ i, om_get id (nodes s) = Some i ∧ p = peer_of id i) ∧
  (existsb is_peers received = true →
   ∀ id, id ≠ me → getPeer id c' = peer_of id <$> om_get id (nodes s)).
Proof.
  intros s0 Hun Hme Hpk Htok s1 Hes s received Hc c'.
  assert (om_wf (nodes s0)) as Hwf by apply sv_run_wf, NoDup_nil_2.
  destruct (register_start lookup me k now pk name role nat relay token (handleConnection k a s0))
    as [Hv (ip & Hin)]; try done.
  { unfold is_open, handleConnection. simpl. by rewrite om_get_set_eq. }
  destruct (keeps_run lookup me k s1 es Hes [] false Hv) as (ms & Hms & Hv').
  assert (received = SRegistered me ip networkCidr :: ms) as Hr.
  { unfold received, s. rewrite Hms. unfold s1. simpl. rewrite Hin.
    rewrite -(assoc_L (++)) drop_app_length. done. }
  assert (peers c' = foldl view_step [] ms) as Hp.
  { unfold c'. by rewrite peers_messages Hc Hr. }
  unfold getPeer. rewrite Hp. destruct Hv' as [_ _ _ _ _ Hs Hf]. split; [exact Hs|].
  intros Hfull id Hid. rewrite Hr in Hfull. simpl in Hfull.
  destruct (om_get id (nodes s)) as [i|] eqn:Hi; simpl.
  - destruct (Hf Hfull id i Hid Hi) as [p Hp']. rewrite Hp'. destruct (Hs _ _ Hp') as (_ & i' & Hi' & ->).
    unfold s in Hi. congruence.
  - destruct (om_get id (foldl view_step [] ms)) as [p|] eqn:Hp'; [|done].
    destruct (Hs _ _ Hp') as (_ & i' & Hi' & _). unfold s in Hi. congruence.
Qed.

Definition no_geo (a : jstr) : option () := None.
Abbreviation demo_server := (@SignallingServer () ()).
Definition reg (id : jstr) (relay : bool) : @cmsg () :=
  CRegister (Some id) (Some (js "key")) None None false relay None.
Definition run : demo_server → list sv_event → demo_server := foldl (sv_step no_geo).

#[export] Instance undisturbed_dec {Sig} me k e : Decision (@undisturbed Sig me k e).
Proof. destruct e as [| ? ? []|]; simpl; apply _. Defined.

Lemma signalling_views_agree_witness :
  let before := [Connect 1%nat (js "1.2.3.4"); Message 0 1%nat (reg (js "a") false)] in
  let me := js "m" in
  let es := [Message 2 3%nat CGetPeers; Connect 2%nat (js "5.6.7.8"); Message 3 2%nat (reg (js "b") true); Close 1%nat] in
  let s0 := foldl (sv_step no_geo) (new_server [] None) before in
  let s1 := foldl (sv_step no_geo) s0 [Connect 3%nat []; Message 1 3%nat (reg me false)] in
  let s := foldl (sv_step no_geo) s1 es in
  let c := foldl (λ c m, handleServerMessage m c)
             (new_client (MkConfig me (js "key") None false false None)) (drop (length (inbox 3%nat s0)) (inbox 3%nat s)) in
  (∀ id, id ≠ me → getPeer id c = peer_of id <$> om_get id (nodes s)) ∧
  om_keys (peers c) = [js "b"].
Proof.
  intros before me es s0 s1 s c. split; [|by vm_compute].
  destruct (signalling_views_agree no_geo [] None before 3%nat [] 1 me (js "key") None None false false None es
    (new_client (MkConfig me (js "key") None false false None))) as [_ H].
  - intros id i. vm_compute. repeat case_match; try done. by intros [= <-].
  - done.
  - done.
  - by left.
  - apply (bool_decide_unpack _). by vm_compute.
  - done.
  - exact (H ltac:(by vm_compute)).
Defined.

(** virtual addresses.  When no pinned address is one the counter can give, then in
    every history different registered nodes have different virtual addresses, each
    either pinned for its node or taken from the counter, and a node keeps its address
    as long as it stays registered, whatever it or the others send. *)
Theorem virtual_ips_unique {Sig Geo} (lookup : jstr → option Geo) pinned tok (es : list (@sv_event Sig)) :
  (∀ id p n, om_get id pinned = Some p → 2 <= n → p ≠ counter_ip n) →
  let s := foldl (sv_step lookup) (new_server pinned tok) es in
  (∀ id id' i i', om_get id (nodes s) = Some i → om_get id' (nodes s) = Some i' →
     i_virtualIp i = i_virtualIp i' → id = id') ∧
  (∀ id i, om_get id (nodes s) = Some i → om_get id pinned = Some (i_virtualIp i) ∨
     ∃ n, 2 <= n < virtualIpCounter s ∧ i_virtualIp i = counter_ip n) ∧
  (∀ e id i i', om_get id (nodes s) = Some i → om_get id (nodes (sv_step lookup s e)) = Some i' →
     i_virtualIp i' = i_virtualIp i).
Proof.
  intros Hpin s. assert (ips_ok s ∧ pinnedIps s = pinned) as [H Hp].
  { unfold s. clear s. induction es as [|e es [IH IHp]] using rev_ind; [by split|]. rewrite foldl_snoc.
    destruct (sv_step_registry lookup (foldl (sv_step lookup) (new_server pinned tok) es) e) as [_ Hp].
    split; [|by rewrite Hp]. apply sv_step_ips; [|done]. unfold pins_apart. by rewrite IHp. }
  clearbody s. split; [exact (ip_unique s H)|]. split; [rewrite -Hp; exact (ip_range s H)|].
  intros e id i i' Hi Hi'. destruct (sv_step_registry lookup s e) as [Hstep _].
  destruct Hstep as [[Hn _]|[(id2 & j & j' & Hj & Hn & Hip & _)|[(id2 & j & s1 & Hj & _ & Hn & _)|(id2 & Hn & _)]]];
    rewrite Hn in Hi'.
  - congruence.
  - rewrite om_get_set in Hi'. case_decide; [|congruence]. simplify_eq. congruence.
  - rewrite om_get_set in Hi'. case_decide; [|congruence]. simplify_eq.
  - rewrite om_get_delete in Hi'. case_decide; [done|congruence].
Qed.

Lemma virtual_ips_unique_witness :
  let es := [Connect 1%nat []; Message 0 1%nat (reg (js "a") false); Connect 2%nat []; Message 1 2%nat (reg (js "b") false)] in
  let s := foldl (sv_step no_geo) (new_server [(js "a", js "10.200.1.1")] None) es in
  (λ p, (p.1, i_virtualIp p.2)) <$> nodes s = [(js "a", js "10.200.1.1"); (js "b", js "10.200.0.2")] ∧
  ∀ i i', om_get (js "a") (nodes s) = Some i → om_get (js "b") (nodes s) = Some i' → i_virtualIp i ≠ i_virtualIp i'.
Proof.
  intros es s. split; [by vm_compute|]. intros i i' Hi Hi' Heq. assert (js "a" ≠ js "b") as Hab by done.
  destruct (virtual_ips_unique no_geo [(js "a", js "10.200.1.1")] None es) as [H _].
  - intros id p n. simpl. case_decide; [|done]. intros [= <-] Hn Heq'. apply (f_equal (take 9)) in Heq'. done.
  - exact (Hab (H (js "a") (js "b") i i' Hi Hi' Heq)).
Defined.

(** ** Where the two programs do not do what they mean to *)

(** The counter reaches an address that is pinned and in use: two nodes share it. *)
Example pinned_address_given_twice :
  let s := run (new_server [(js "a", js "10.200.0.3")] None)
    [Connect 1%nat []; Message 0 1%nat (reg (js "a") false); Connect 2%nat []; Message 1 2%nat (reg (js "b") false);
     Connect 3%nat []; Message 2 3%nat (reg (js "c") false)] in
  i_virtualIp <$> om_values (nodes s) = [js "10.200.0.3"; js "10.200.0.2"; js "10.200.0.3"].
Proof. reflexivity. Qed.

(** The counter has no bound: the 255th registration gets no IPv4 address. *)
Example counter_leaves_the_octet : counter_ip 256 = js "10.200.0.256".
Proof. reflexivity. Qed.

(** A socket that registers two ids leaves one of them in the registry when it closes. *)
Example second_id_never_leaves :
  let s := run (new_server [] None)
    [Connect 1%nat []; Message 0 1%nat (reg (js "a") false); Message 1 1%nat (reg (js "b") false); Close 1%nat] in
  om_keys (nodes s) = [js "b"] ∧ is_open 1%nat s = false.
Proof. split; reflexivity. Qed.

(** The client keeps its peers over a lost connection, and adds the new list to them: a
    node that left in between stays. *)
Example departed_peer_stays :
  let c0 : @SignallingClient () () := new_client (MkConfig (js "m") (js "key") None false false None) in
  let peer := MkPeer (js "a") None (js "key") (Some (js "client")) (js "10.200.0.2") None None in
  let c1 := onOpen false (connect (js "client") false c0) in
  let c2 := onClose (handleServerMessage (SPeers [peer]) c1) in
  let c3 := onOpen true (onReconnectTimer c2) in
  let c4 := handleServerMessage (SPeers []) (handleServerMessage (SRegistered (js "m") (js "10.200.0.3") networkCidr) c3) in
  getAllPeers c4 = [peer].
Proof. reflexivity. Qed.

(** A peer that registers again with another role stays among the exit nodes. *)
Example former_exit_stays_exit :
  let c0 : @SignallingClient () () := new_client (MkConfig (js "m") (js "key") None false false None) in
  let peer r := MkPeer (js "a") None (js "key") (Some r) (js "10.200.0.2") None None in
  let c := handleServerMessage (SPeerJoin (peer (js "client"))) (handleServerMessage (SPeerJoin (peer (js "exit"))) c0) in
  getExitNodes c = [peer (js "exit")] ∧ getPeer (js "a") c = Some (peer (js "client")).
Proof. split; reflexivity. Qed.
