(* ===== verification/SendRetry.v ===== *)
(** * The per-peer retry queue of a node (src/core/node.js)

    [_transportSendWithRetry] hands a packet to the transport; when the transport
    refuses it, the packet waits in the peer's queue, which [_drainSendRetryQueue]
    empties when the transport reports room again.  With
    [strictTransportOrdering] a packet never overtakes the queue: the queue of a
    peer is then a [Fifo] channel.  An entry is the packet with its [flush]
    callback, of any type; the transport's answers are arguments. *)

From S2P Require Import Prelude JsMap Bytes JsString Fifo.
Local Open Scope Z_scope.
#[local] Unset Default Proof Using.

Section send_retry.
Context {E : Type}.

(** [_sendRetryQueues] *)
Definition queues : Type := omap jstr (list E).
Implicit Types q : queues.

Definition queue_of (peerId : jstr) q : list E := default [] (om_get peerId q).

(** The loop of [_drainSendRetryQueue]: [answers] are the transport's to the packets
    it is offered, [None] when the peer is no longer connected.  What stays, and what
    the transport took. *)
Fixpoint drain_loop (answers : list (option bool)) (l : list E) : list E * list E :=
  match l, answers with
  | e :: l', Some true :: answers' => let '(rest, sent) := drain_loop answers' l' in (rest, e :: sent)
  | _, _ => (l, [])
  end.

Definition drainSendRetryQueue (peerId : jstr) (answers : list (option bool)) q : queues * list E :=
  match om_get peerId q with
  | None | Some [] => (q, [])
  | Some l =>
      let '(rest, sent) := drain_loop answers l in
      (match rest with [] => om_delete peerId q | _ => om_set peerId rest q end, sent)
  end.

Definition clearSendRetryQueue (peerId : jstr) q : queues := om_delete peerId q.

(** [_transportSendWithRetry]: the result, the queues, and what the transport took.
    [accepts] is its answer, should it be asked. *)
Definition transportSendWithRetry (strict : bool) (max : Z) (connected accepts : bool) (peerId : jstr) (e : E) q :
    bool * queues * list E :=
  if negb connected then (false, q, [])
  else if strict then
    match om_get peerId q with
    | Some ((_ :: _) as l) =>
        if max <=? Z.of_nat (length l) then (false, q, [])
        else (true, om_set peerId (l ++ [e]) q, [])
    | _ => if accepts then (true, q, [e]) else (true, om_set peerId [e] q, [])
    end
  else if accepts then (true, q, [e])
  else
    let l := queue_of peerId q in
    let q := om_set peerId l q in
    if max <=? Z.of_nat (length l) then (false, q, [])
    else (true, om_set peerId (l ++ [e]) q, []).

(** ** One peer's channel *)

Inductive retry_op :=
  | RtSend (connected accepts : bool) (e : E)
  | RtDrain (answers : list (option bool)).

(** An operation for a peer: the queues, the packets accepted for sending, those the
    transport took. *)
Definition retry_step (max : Z) (peerId : jstr) (o : retry_op) q : queues * list E * list E :=
  match o with
  | RtSend connected accepts e =>
      let '(ok, q, sent) := transportSendWithRetry true max connected accepts peerId e q in
      (q, if ok then [e] else [], sent)
  | RtDrain answers => let '(q, sent) := drainSendRetryQueue peerId answers q in (q, [], sent)
  end.

Lemma drain_loop_split answers l : (drain_loop answers l).2 ++ (drain_loop answers l).1 = l.
Proof.
  revert answers. induction l as [|e l IH]; intros [|[[]|] answers]; simpl; try done.
  specialize (IH answers). destruct (drain_loop answers l) as [rest sent]. simpl in *. by rewrite IH.
Qed.

Lemma queue_of_set peerId l q : queue_of peerId (om_set peerId l q) = l.
Proof. unfold queue_of. by rewrite om_get_set_eq. Qed.
Lemma queue_of_delete peerId q : queue_of peerId (om_delete peerId q) = [].
Proof. unfold queue_of. by rewrite om_get_delete_eq. Qed.

(** Queues of other peers are not touched. *)
Lemma retry_step_other max peerId p o q : p ≠ peerId →
  queue_of p (retry_step max peerId o q).1.1 = queue_of p q.
Proof.
  intros Hp. unfold retry_step, transportSendWithRetry, drainSendRetryQueue, queue_of.
  destruct o as [[] accepts e|answers]; simpl.
  - destruct (om_get peerId q) as [[|a l]|]; [destruct accepts|destruct (_ <=? _)|destruct accepts]; simpl;
      by rewrite ?om_get_set_ne.
  - done.
  - destruct (om_get peerId q) as [[|a l]|]; try done. destruct (drain_loop answers (a :: l)) as [[|] ?]; simpl;
      by rewrite ?om_get_set_ne ?om_get_delete_ne.
Qed.

Definition queue_bounded (max : Z) (peerId : jstr) q : Prop :=
  Z.of_nat (length (queue_of peerId q)) <= Z.max 1 max.

Lemma retry_step_law max peerId o q q' acc sent :
  queue_bounded max peerId q → retry_step max peerId o q = (q', acc, sent) →
  queue_bounded max peerId q' ∧ queue_of peerId q ++ acc = sent ++ queue_of peerId q'.
Proof.
  unfold queue_bounded, retry_step. intros Hb H. destruct o as [connected accepts e|answers].
  - unfold transportSendWithRetry in H. destruct connected; simpl in H; [|by simplify_eq; rewrite app_nil_r].
    unfold queue_of in *. destruct (om_get peerId q) as [[|a l]|] eqn:Hq.
    1, 3: destruct accepts; simplify_eq; rewrite ?om_get_set_eq ?Hq ?app_nil_r; simpl; (split; [lia|done]).
    destruct (max <=? Z.of_nat (length (a :: l))) eqn:Hm; simplify_eq.
    + rewrite Hq app_nil_r. by split.
    + bool_to_prop. rewrite om_get_set_eq. cbn [default from_option] in *.
      rewrite length_app /=. simpl in *. split; [lia|done].
  - unfold drainSendRetryQueue in H. unfold queue_of in *. destruct (om_get peerId q) as [[|a l]|] eqn:Hq;
      simplify_eq; rewrite ?Hq; try done.
    pose proof (drain_loop_split answers (a :: l)) as Hs. destruct (drain_loop answers (a :: l)) as [rest s'].
    simpl in Hs. cbn [default from_option] in *. destruct rest as [|b rest]; simplify_eq.
    + rewrite om_get_delete_eq app_nil_r -Hs /= app_nil_r. split; [lia|done].
    + rewrite om_get_set_eq app_nil_r /= -Hs. split; [|done].
      rewrite -Hs !length_app /= in Hb. simpl. lia.
Qed.

(** The contract of [Fifo.v], for the queue of one peer. *)
#[export] Instance retry_fifo (max : Z) (peerId : jstr) : Fifo queues retry_op E := {
  fifo_step o q := retry_step max peerId o q;
  fifo_pending := queue_of peerId;
  fifo_inv := queue_bounded max peerId;
  fifo_ok _ := True;
  fifo_law q o q' acc sent Hi _ H := retry_step_law max peerId o q q' acc sent Hi H
}.
End send_retry.

(** the retry queue keeps the order.  With strict ordering, for any sequence of
    sends and drains for a peer and any answers of the transport, the packets the
    transport took followed by those still queued are exactly the packets that were
    accepted, in order: none is lost, repeated or overtaken; the queue holds at most
    the configured number of packets, and the queues of other peers are unchanged. *)
Theorem send_retry_fifo {E} (max : Z) (peerId : jstr) (ops : list (@retry_op E)) q' acc sent :
  let run := fifo_run (H := retry_fifo max peerId) ops [] in
  run = (q', acc, sent) →
  acc = sent ++ queue_of peerId q' ∧ Z.of_nat (length (queue_of peerId q')) <= Z.max 1 max ∧
  ∀ p, p ≠ peerId → queue_of p q' = [].
Proof.
  intros run Hrun. assert (queue_bounded max peerId (@nil (jstr * list E))) as Hb
    by (unfold queue_bounded; simpl; lia).
  destruct (fifo_run_spec (H := retry_fifo max peerId) ops [] q' acc sent Hb) as [Hb' Heq].
  { by apply Forall_true. }
  { exact Hrun. }
  split; [exact Heq|]. split; [exact Hb'|]. intros p Hp.
  assert (∀ q1 q2 a s, fifo_run (H := retry_fifo max peerId) ops q1 = (q2, a, s) →
    queue_of p q2 = queue_of p q1) as Hother.
  { clear -Hp. induction ops as [|o ops IH]; intros q1 q2 a s H; [by simplify_eq/=|]. cbn [fifo_run] in H.
    destruct (fifo_step o q1) as [[q a1] s1] eqn:E1. destruct (fifo_run ops q) as [[q2' a2] s2] eqn:E2.
    simplify_eq. rewrite (IH _ _ _ _ E2). pose proof (retry_step_other max peerId p o q1 Hp) as Ho.
    cbn in E1. rewrite E1 in Ho. exact Ho. }
  by rewrite (Hother _ _ _ _ Hrun).
Qed.

Lemma send_retry_fifo_witness :
  let ops := [RtSend true true 1; RtSend true false 2; RtSend true true 3; RtDrain [Some true; Some false]] in
  let '(q', acc, sent) := fifo_run (H := retry_fifo 4000 (js "p")) ops [] in
  acc = [1; 2; 3] ∧ sent = [1; 2] ∧ queue_of (js "p") q' = [3] ∧ acc = sent ++ queue_of (js "p") q'.
Proof.
  intros ops. destruct (fifo_run (H := retry_fifo 4000 (js "p")) ops []) as [[q' acc] sent] eqn:Hrun.
  destruct (send_retry_fifo 4000 (js "p") ops q' acc sent Hrun) as [Heq _].
  revert Hrun Heq. vm_compute. intros [= <- <- <-] Heq. done.
Defined.
