(* ===== verification/Chains.v ===== *)
(** * Chains of promises (core/node.js: [_rxPeerChains], [_exitTxChains])

    The node runs tasks of one peer one after the other by chaining promises in a map:
    [next = (map.get(k) || Promise.resolve()).then(task); map.set(k, next)].  A chain
    is the tasks that wait and whether one is running; a task may finish at once or
    later, when its callback is called.  Deleting a key from the map leaves the chain
    itself alone: the tasks already chained still run, while the next one for the key
    starts a chain of its own.  So chains have identities and the map points to
    them. *)

From S2P Require Import Prelude JsMap Bytes JsString Fifo.
Local Open Scope Z_scope.
#[local] Unset Default Proof Using.

Section chains.
Context {T : Type}.

Record chain := MkChain { waiting : list T; busy : bool }.
Record chains := MkChains { chain_list : list chain; chain_of : omap jstr nat }.
Definition chains_new : chains := MkChains [] [].

(** Chain a task for the key. *)
Definition ch_enqueue (key : jstr) (t : T) (c : chains) : chains :=
  match om_get key (chain_of c) with
  | Some i => MkChains (alter (λ ch, MkChain (waiting ch ++ [t]) (busy ch)) i (chain_list c)) (chain_of c)
  | None => MkChains (chain_list c ++ [MkChain [t] false]) (om_set key (length (chain_list c)) (chain_of c))
  end.

(** The chain's next task, when none of its tasks is running; it runs until
    [ch_settle]. *)
Definition ch_next (i : nat) (c : chains) : option T * chains :=
  match chain_list c !! i with
  | Some (MkChain (t :: ts) false) => (Some t, MkChains (<[i := MkChain ts true]> (chain_list c)) (chain_of c))
  | _ => (None, c)
  end.
(** The running task finished, with success or with an error that is logged. *)
Definition ch_settle (i : nat) (c : chains) : chains :=
  MkChains (alter (λ ch, MkChain (waiting ch) false) i (chain_list c)) (chain_of c).

(** [map.delete(key)] and [map.clear()] *)
Definition ch_delete (key : jstr) (c : chains) : chains := MkChains (chain_list c) (om_delete key (chain_of c)).
Definition ch_clear (c : chains) : chains := MkChains (chain_list c) [].

(** ** One chain *)

Inductive chain_op := ChTask (t : T) | ChNext | ChSettle.

(** The operations of a key whose chain is [i]: the tasks accepted and started. *)
Definition chain_step (key : jstr) (i : nat) (o : chain_op) (c : chains) : chains * list T * list T :=
  match o with
  | ChTask t => (ch_enqueue key t c, [t], [])
  | ChNext => let '(t, c) := ch_next i c in (c, [], match t with Some t => [t] | None => [] end)
  | ChSettle => (ch_settle i c, [], [])
  end.

Definition waiting_of (i : nat) (c : chains) : list T := default [] (waiting <$> chain_list c !! i).
Definition chain_at (key : jstr) (i : nat) (c : chains) : Prop :=
  om_get key (chain_of c) = Some i ∧ is_Some (chain_list c !! i).

Lemma chain_law key i o c c' acc del : chain_at key i c → True → chain_step key i o c = (c', acc, del) →
  chain_at key i c' ∧ waiting_of i c ++ acc = del ++ waiting_of i c'.
Proof.
  unfold chain_at, waiting_of. intros [Hk [ch Hi]] _ H. pose proof (lookup_lt_Some _ _ _ Hi) as Hlt.
  destruct o as [t| |]; simpl in H.
  - unfold ch_enqueue in H. rewrite Hk in H. simplify_eq/=. rewrite list_lookup_alter_eq Hi /=.
    split; [split; [done|by eexists]|done].
  - unfold ch_next in H. rewrite Hi in H. destruct ch as [[|t ts] [|]]; simplify_eq/=;
      rewrite ?list_lookup_insert_eq ?Hi ?app_nil_r //=; (split; [split; [done|by eexists]|done]).
  - simplify_eq/=. rewrite list_lookup_alter_eq Hi /= app_nil_r. split; [split; [done|by eexists]|done].
Qed.

(** The contract of [Fifo.v], for the chain a key points to. *)
#[export] Instance chain_fifo (key : jstr) (i : nat) : Fifo chains chain_op T := {
  fifo_step := chain_step key i;
  fifo_pending := waiting_of i;
  fifo_inv := chain_at key i;
  fifo_ok _ := True;
  fifo_law c o c' acc del := chain_law key i o c c' acc del
}.
End chains.
Arguments chain : clear implicits.
Arguments chains : clear implicits.
