(* ===== verification/Pipeline.v ===== *)
(** * The worker pipeline (src/workers/pipeline.js, tx-worker.js, rx-worker.js)

    Packets are encrypted and decrypted in worker threads.  [WorkerPipeline] keeps
    two pools, for sending and for receiving; each maps job ids to the callbacks
    that wait for an answer.  A job that cannot be queued is run by the main thread.

    A worker is its two message queues.  Node.js delivers the messages of one worker
    in order and runs nothing else meanwhile, so a history is a list of [pool_op]s:
    calls, a worker finishing its next job, the main thread receiving its next
    answer, a crash.  Callbacks are values of any type; an operation returns the
    calls it makes.  The clock, the random IVs and the thread's flow-id prefix are
    arguments.  Callbacks read no more of an error than its message, which is what
    the workers send, so an error is passed on as it is.  That [postMessage] detaches
    the buffers of a job is not modelled: no caller reads them again. *)

From S2P Require Import Prelude JsMap Bytes JsString MeshPacket Crypto Onion Fifo.
Local Open Scope Z_scope.
#[local] Unset Default Proof Using.

(** ** The jobs *)

(** The module state of packet.js in one thread, and what a job draws. *)
Record Gen := MkGen { g_prefix : jstr; g_counter : Z }.
Record Env := MkEnv { e_now : Z; e_iv : nat → buffer }.

Record PacketMeta := MkMeta {
  pm_type : Z;
  pm_srcNode : jstr;
  pm_dstNode : jstr;
  pm_route : list jstr
}.
Record TxJob := MkTxJob {
  tj_payload : buffer;
  tj_routeWithKeys : list (jstr * buffer);
  tj_packetMeta : PacketMeta;
  tj_directMode : bool
}.
Record TxResult := MkTxResult {
  tr_serialized : buffer;
  tr_nextHop : option jstr;   (* [packetMeta.route[0]] *)
  tr_payloadLen : Z
}.

Record RxJob := MkRxJob {
  rj_data : buffer;
  rj_sessionKey : buffer;
  rj_peerId : jstr;
  rj_packetType : Z
}.
Record RxMeta := MkRxMeta {
  rm_flowId : jstr;
  rm_seq : Z;
  rm_hop : Z;
  rm_ttl : Z;
  rm_srcNode : option jstr;
  rm_dstNode : option jstr;
  rm_route : list jstr
}.
Inductive RxResult :=
  | RxData (peerId : jstr) (pl : buffer) (exit : bool) (next : option jstr) (meta : RxMeta)
  | RxDirect (peerId : jstr) (pl : buffer) (meta : RxMeta)
  | RxPassthrough (d : buffer) (peerId : jstr).

Definition packet_meta (p : Packet) : RxMeta :=
  MkRxMeta (flowId p) (seq p) (hop p) (ttl p) (srcNode p) (dstNode p) (route p).

Section jobs.
Context `{Aead} (json_ids : jstr → outcome (list jstr)).

Definition tx_encrypt (iv : nat → buffer) (j : TxJob) : outcome buffer :=
  match tj_directMode j, tj_routeWithKeys j with
  | true, [(_, sessionKey)] => encrypt (iv 0%nat) (Buf (tj_payload j)) sessionKey
  | _, rk => createOnionPacket iv (Buf (tj_payload j)) rk
  end.

Definition tx_options (m : PacketMeta) (encrypted : buffer) : PacketOptions :=
  MkOptions None (Some (pm_type m)) None None None None (Some (pm_srcNode m)) (Some (pm_dstNode m))
    (Some (pm_route m)) None None (Some encrypted).

(** The body of the sending worker, and of [_fallbackTx]. *)
Definition tx_process (env : Env) (g : Gen) (j : TxJob) : outcome TxResult * Gen :=
  match tx_encrypt (e_iv env) j with
  | Throw e => (Throw e, g)
  | Ret encrypted =>
      let '(pkt, c) := new_packet (e_now env) (g_prefix g) (g_counter g) (tx_options (tj_packetMeta j) encrypted) in
      (serialized ← serialize pkt;
       Ret (MkTxResult serialized (head (pm_route (tj_packetMeta j))) (blen (tj_payload j))),
       MkGen (g_prefix g) c)
  end.

(** The body of the receiving worker, and of [_fallbackRx]. *)
Definition rx_process (env : Env) (g : Gen) (j : RxJob) : outcome RxResult * Gen :=
  let packet := deserialize json_ids (e_now env) (g_prefix g) (g_counter g) (rj_data j) in
  let g' := match packet with Ret (_, c) => MkGen (g_prefix g) c | Throw _ => g end in
  if rj_packetType j =? PacketType.DATA then
    ('(packet, _) ← packet;
     layer ← peelOnionLayer (MeshPacket.payload packet) (rj_sessionKey j);
     Ret (RxData (rj_peerId j) (payload layer) (isExit layer) (nextHop layer) (packet_meta packet)), g')
  else if rj_packetType j =? PacketType.DATA_DIRECT then
    ('(packet, _) ← packet;
     pl ← decrypt (Buf (MeshPacket.payload packet)) (rj_sessionKey j);
     Ret (RxDirect (rj_peerId j) pl (packet_meta packet)), g')
  else (Ret (RxPassthrough (rj_data j) (rj_peerId j)), g).
End jobs.

(** ** A pool of workers *)

Definition MAX_PENDING : Z := 2000.

(** How a callback is called: as it is; inside the [try] whose [catch] calls it again
    with the error it threw; its errors ignored. *)
Inductive call_mode := Bare | Retried | Swallowed.
#[export] Instance call_mode_dec : EqDecision call_mode.
Proof. solve_decision. Defined.

Section pool.
(** [crashed]: the message for the jobs of a crashed worker. *)
Context {J R CB : Type} (process : Env → Gen → J → outcome R * Gen) (crashed : string).

Record Worker := MkWorker {
  w_inbox : list (Z * J);
  w_outbox : list (Z * outcome R);
  w_gen : Gen
}.
Record Pool := MkPool {
  pending : omap Z CB;
  dropped : Z;
  workers : list Worker;
  rr : nat
}.
Definition call : Type := call_mode * CB * outcome R.

Definition new_worker (prefix : jstr) : Worker := MkWorker [] [] (MkGen prefix 0).
Definition new_pool (prefixes : list jstr) : Pool := MkPool [] 0 (new_worker <$> prefixes) 0.

(** [_flushPending] *)
Definition flushPending (reason : string) (p : omap Z CB) : list call :=
  (λ cb, (Swallowed, cb, Throw (Error reason))) <$> om_values p.

Definition post (i : nat) (job : Z * J) (ws : list Worker) : list Worker :=
  alter (λ w, MkWorker (w_inbox w ++ [job]) (w_outbox w) (w_gen w)) i ws.

(** [submitTx] and [submitRx].  [posted]: [postMessage] did not throw.  The pool,
    the next job id, and whether the main thread runs the job. *)
Definition submit (alive posted : bool) (jobId : Z) (j : J) (cb : CB) (p : Pool) : Pool * Z * bool :=
  if negb alive || (length (workers p) =? 0)%nat then (p, jobId, true)
  else if MAX_PENDING <=? Z.of_nat (om_size (pending p)) then
    (MkPool (pending p) (dropped p + 1) (workers p) (rr p), jobId, true)
  else
    let pend := om_set jobId cb (pending p) in
    let i := (rr p mod length (workers p))%nat in
    if posted then (MkPool pend (dropped p) (post i (jobId, j) (workers p)) (S (rr p)), jobId + 1, false)
    else (MkPool (om_delete jobId pend) (dropped p) (workers p) (S (rr p)), jobId + 1, true).

(** [_fallbackTx] and [_fallbackRx] *)
Definition fallback (env : Env) (g : Gen) (j : J) (cb : CB) : list call * Gen :=
  let '(r, g) := process env g j in ([(Retried, cb, r)], g).

(** A worker runs its next job. *)
Definition work (env : Env) (w : Worker) : Worker :=
  match w_inbox w with
  | [] => w
  | (id, j) :: rest =>
      let '(r, g) := process env (w_gen w) j in MkWorker rest (w_outbox w ++ [(id, r)]) g
  end.

(** [_onTxResult] and [_onRxResult] *)
Definition onResult (id : Z) (r : outcome R) (p : Pool) : Pool * list call :=
  match om_get id (pending p) with
  | None => (p, [])
  | Some cb => (MkPool (om_delete id (pending p)) (dropped p) (workers p) (rr p), [(Bare, cb, r)])
  end.

(** The main thread receives the next answer of worker [i]. *)
Definition deliver (i : nat) (p : Pool) : Pool * list call :=
  match workers p !! i with
  | Some (MkWorker inbox ((id, r) :: outbox) g) =>
      onResult id r (MkPool (pending p) (dropped p) (<[i := MkWorker inbox outbox g]> (workers p)) (rr p))
  | _ => (p, [])
  end.

(** The [exit] event of worker [i] with a non-zero code, while alive. *)
Definition crash (i : nat) (prefix : jstr) (p : Pool) : Pool * list call :=
  if (i <? length (workers p))%nat then
    (MkPool [] (dropped p) (<[i := new_worker prefix]> (workers p)) (rr p), flushPending crashed (pending p))
  else (p, []).

(** The pool's part of [terminate]. *)
Definition terminate (p : Pool) : Pool * list call :=
  (MkPool [] (dropped p) [] (rr p), flushPending "Pipeline terminated" (pending p)).

(** ** Histories of a pool *)

Record Main := MkMain { mn_pool : Pool; mn_alive : bool; mn_jobId : Z; mn_gen : Gen }.

Inductive pool_op :=
  | Submit (env : Env) (posted : bool) (j : J) (cb : CB)
  | SkipIds (n : nat)                       (* job ids the other pool takes *)
  | Work (i : nat) (env : Env)
  | Deliver (i : nat)
  | Crash (i : nat) (prefix : jstr)
  | Terminate.

Definition pool_step (o : pool_op) (m : Main) : Main * list call :=
  match o with
  | Submit env posted j cb =>
      let '(p, id, here) := submit (mn_alive m) posted (mn_jobId m) j cb (mn_pool m) in
      let '(calls, g) := if here then fallback env (mn_gen m) j cb else ([], mn_gen m) in
      (MkMain p (mn_alive m) id g, calls)
  | SkipIds n => (MkMain (mn_pool m) (mn_alive m) (mn_jobId m + Z.of_nat n) (mn_gen m), [])
  | Work i env =>
      let p := mn_pool m in
      (MkMain (MkPool (pending p) (dropped p) (alter (work env) i (workers p)) (rr p)) (mn_alive m) (mn_jobId m) (mn_gen m), [])
  | Deliver i => let '(p, calls) := deliver i (mn_pool m) in (MkMain p (mn_alive m) (mn_jobId m) (mn_gen m), calls)
  | Crash i prefix =>
      if mn_alive m then
        let '(p, calls) := crash i prefix (mn_pool m) in (MkMain p true (mn_jobId m) (mn_gen m), calls)
      else (m, [])
  | Terminate => let '(p, calls) := terminate (mn_pool m) in (MkMain p false (mn_jobId m) (mn_gen m), calls)
  end.

(** A run, from the left: the state and all the calls made. *)
Definition pool_acc (acc : Main * list call) (o : pool_op) : Main * list call :=
  let '(m, calls) := pool_step o acc.1 in (m, acc.2 ++ calls).
Definition pool_run (ops : list pool_op) (m : Main) : Main * list call := foldl pool_acc (m, []) ops.

Definition main_new (prefixes : list jstr) (prefix : jstr) : Main :=
  MkMain (new_pool prefixes) true 0 (MkGen prefix 0).

(** The jobs submitted, with their callbacks. *)
Definition submitted (o : pool_op) : list (J * CB) :=
  match o with Submit _ _ j cb => [(j, cb)] | _ => [] end.
End pool.
Arguments Worker : clear implicits.
Arguments Pool : clear implicits.
Arguments Main : clear implicits.
Arguments call : clear implicits.
Arguments pool_op : clear implicits.

(** ** Every callback is called once *)

Section pool_facts.
Context {J R CB : Type} (process : Env → Gen → J → outcome R * Gen) (crashed : string).
Implicit Types (m : Main J R CB) (subs : list (J * CB)) (calls : list (call R CB)).

(** What the callback of a job may be told by its worker. *)
Definition answer subs (cb : CB) (r : outcome R) : Prop :=
  ∃ env g j, (j, cb) ∈ subs ∧ r = (process env g j).1.
Definition call_ok subs (c : call R CB) : Prop :=
  answer subs c.1.2 c.2 ∨ (c.1.1 = Swallowed ∧ ∃ reason, c.2 = Throw (Error reason)).

(** The queues of a worker hold the jobs of the callbacks that wait for them. *)
Definition worker_ok subs (pend : omap Z CB) (n : Z) (w : Worker J R) : Prop :=
  (∀ id j, (id, j) ∈ w_inbox w → id < n ∧ ∀ cb, om_get id pend = Some cb → (j, cb) ∈ subs) ∧
  (∀ id r, (id, r) ∈ w_outbox w → id < n ∧ ∀ cb, om_get id pend = Some cb → answer subs cb r).

Definition callbacks calls : list CB := (λ c, c.1.2) <$> calls.

Record pool_inv subs calls m : Prop := {
  pi_wf : om_wf (pending (mn_pool m));
  pi_ids : ∀ id, id ∈ om_keys (pending (mn_pool m)) → id < mn_jobId m;
  pi_calls : callbacks calls ++ om_values (pending (mn_pool m)) ≡ₚ subs.*2;
  pi_ok : Forall (call_ok subs) calls;
  pi_dead : mn_alive m = false → pending (mn_pool m) = [];
  pi_workers : Forall (worker_ok subs (pending (mn_pool m)) (mn_jobId m)) (workers (mn_pool m))
}.

Lemma answer_mono subs subs' cb r : subs ⊆ subs' → answer subs cb r → answer subs' cb r.
Proof. intros Hs (env & g & j & Hj & ->). exists env, g, j. by split; [apply Hs|]. Qed.

Lemma call_ok_mono subs subs' c : subs ⊆ subs' → call_ok subs c → call_ok subs' c.
Proof. intros Hs [H|H]; [left; by eapply answer_mono|by right]. Qed.

Lemma worker_ok_mono subs subs' pend pend' n n' w :
  subs ⊆ subs' → n <= n' →
  (∀ id cb, id < n → om_get id pend' = Some cb → om_get id pend = Some cb) →
  worker_ok subs pend n w → worker_ok subs' pend' n' w.
Proof.
  intros Hs Hn Hp [Hi Ho]. split.
  - intros id j Hj. destruct (Hi id j Hj) as [Hl Hg]. split; [lia|]. intros cb Hcb. apply Hs, Hg. by apply Hp.
  - intros id r Hr. destruct (Ho id r Hr) as [Hl Hg]. split; [lia|]. intros cb Hcb.
    eapply answer_mono; [exact Hs|]. apply Hg. by apply Hp.
Qed.

Lemma workers_mono subs subs' pend pend' n n' ws :
  subs ⊆ subs' → n <= n' →
  (∀ id cb, id < n → om_get id pend' = Some cb → om_get id pend = Some cb) →
  Forall (worker_ok subs pend n) ws → Forall (worker_ok subs' pend' n') ws.
Proof. intros Hs Hn Hp Hw. eapply Forall_impl; [exact Hw|]. intros w. by apply worker_ok_mono. Qed.

Lemma ids_get_none m subs calls : pool_inv subs calls m →
  om_get (mn_jobId m) (pending (mn_pool m)) = None.
Proof.
  intros I. destruct (om_get _ _) eqn:E; [|done]. exfalso.
  enough (mn_jobId m < mn_jobId m) by lia. eapply pi_ids; [exact I|]. apply om_get_keys. by rewrite E.
Qed.

Lemma fallback_inv subs calls p a id g env j cb :
  pool_inv subs calls (MkMain p a id g) →
  let '(cs, g') := fallback process env g j cb in
  pool_inv (subs ++ [(j, cb)]) (calls ++ cs) (MkMain p a id g').
Proof.
  intros [Hwf Hids Hc Hok Hd Hw]. unfold fallback. destruct (process env g j) as [r g'] eqn:E. simpl in *.
  split; simpl; try done.
  - unfold callbacks in *. rewrite !fmap_app -(assoc_L (++)) (Permutation_app_comm _ (om_values _)) (assoc_L (++)) /=.
    by rewrite Hc.
  - apply Forall_app. split; [eapply Forall_impl; [exact Hok|]; intros c; apply call_ok_mono; set_solver|].
    constructor; [|constructor]. left. exists env, g, j. rewrite E. split; [set_solver|done].
  - eapply workers_mono; [| | |exact Hw]; [set_solver|lia|done].
Qed.

Lemma submit_inv subs calls m env posted j cb : pool_inv subs calls m →
  let '(m', cs) := pool_step process crashed (Submit env posted j cb) m in
  pool_inv (subs ++ [(j, cb)]) (calls ++ cs) m'.
Proof.
  intros I. pose proof (ids_get_none _ _ _ I) as Hn. destruct m as [p a id g]. cbn [pool_step submit mn_pool mn_alive mn_jobId mn_gen].
  unfold submit. destruct (negb a || _) eqn:Ea.
  { pose proof (fallback_inv _ _ _ _ _ _ env j cb I) as H. by destruct (fallback process env g j cb). }
  assert (∀ d ws k, workers p = ws → pool_inv subs calls (MkMain (MkPool (pending p) d ws k) a id g)) as Id
    by (intros d ws k <-; by destruct I; split).
  destruct (MAX_PENDING <=? _).
  { pose proof (fallback_inv _ _ _ _ _ _ env j cb (Id (dropped p + 1) (workers p) (rr p) eq_refl)) as H.
    by destruct (fallback process env g j cb). }
  assert (∀ i' cb', i' < id → om_get i' (om_set id cb (pending p)) = Some cb' → om_get i' (pending p) = Some cb') as Hg.
  { intros i' cb' Hi. by rewrite om_get_set_ne; [|lia]. }
  destruct posted.
  - destruct I as [Hwf Hids Hc Hok Hd Hw]. simpl in *. rewrite app_nil_r. split; simpl.
    + by apply om_set_wf.
    + intros i' [->|Hi]%om_elem_keys_set; [lia|]. specialize (Hids i' Hi). lia.
    + rewrite om_set_fresh // /om_values !fmap_app (assoc_L (++)). by rewrite Hc.
    + eapply Forall_impl; [exact Hok|]. intros c. apply call_ok_mono. set_solver.
    + intros ->. done.
    + apply (workers_mono _ (subs ++ [(j, cb)]) _ (om_set id cb (pending p)) _ (id + 1)) in Hw;
        [|set_solver|lia|done].
      apply Forall_alter; [done|]. intros w _ [Hi Ho]. split; [|exact Ho]. simpl.
      intros i' j' [Hj|Hj]%elem_of_app; [by apply Hi|]. apply list_elem_of_singleton in Hj. simplify_eq.
      split; [lia|]. rewrite om_get_set_eq. intros cb' [= ->]. set_solver.
  - assert (om_delete id (om_set id cb (pending p)) = pending p) as ->.
    { rewrite om_set_fresh // /om_delete filter_app filter_cons_False /=; [|by intros []].
      rewrite app_nil_r. by apply om_delete_none. }
    assert (pool_inv subs calls (MkMain (MkPool (pending p) (dropped p) (workers p) (S (rr p))) a (id + 1) g)) as I'.
    { destruct I as [Hwf Hids Hc Hok Hd Hw]; split; simpl in *; try done.
      - intros i' Hi. specialize (Hids i' Hi). lia.
      - eapply workers_mono; [| | |exact Hw]; [done|lia|done]. }
    pose proof (fallback_inv _ _ _ _ _ _ env j cb I') as H. by destruct (fallback process env g j cb).
Qed.

Lemma work_ok subs pend n env w : worker_ok subs pend n w → worker_ok subs pend n (work process env w).
Proof.
  intros [Hi Ho]. unfold work. destruct (w_inbox w) as [|[id j] rest] eqn:E; [by split; rewrite ?E|].
  destruct (process env (w_gen w) j) as [r g] eqn:Ep. split; simpl.
  - intros id' j' Hj. apply Hi. by right.
  - intros id' r' [Hr|Hr]%elem_of_app; [by apply Ho|]. apply list_elem_of_singleton in Hr. simplify_eq.
    destruct (Hi id j) as [Hl Hg]; [by left|]. split; [done|]. intros cb Hcb.
    exists env, (w_gen w), j. rewrite Ep. by split; [apply Hg|].
Qed.

Lemma flush_inv subs calls p a id g reason a' ws d k g' : pool_inv subs calls (MkMain p a id g) →
  Forall (worker_ok subs [] id) ws →
  pool_inv subs (calls ++ flushPending reason (pending p)) (MkMain (MkPool [] d ws k) a' id g').
Proof.
  intros [Hwf Hids Hc Hok Hd Hw] Hws. simpl in *. split; simpl; try done.
  - constructor.
  - intros i Hi. by apply elem_of_nil in Hi.
  - rewrite app_nil_r /flushPending. unfold callbacks in *. rewrite fmap_app -Hc. f_equiv.
    rewrite -list_fmap_compose. by rewrite list_fmap_id.
  - apply Forall_app. split; [done|]. unfold flushPending. apply Forall_fmap, Forall_true.
    intros cb. right. split; [done|]. by exists reason.
Qed.

Lemma deliver_inv subs calls p a id g i : pool_inv subs calls (MkMain p a id g) →
  let '(p', cs) := deliver i p in pool_inv subs (calls ++ cs) (MkMain p' a id g).
Proof.
  intros I. unfold deliver. destruct (workers p !! i) as [[inbox [|[k r] outbox] gw]|] eqn:Ew;
    [by rewrite app_nil_r| |by rewrite app_nil_r].
  destruct I as [Hwf Hids Hc Hok Hd Hw]. simpl in *.
  destruct (Forall_lookup_1 _ _ _ _ Hw Ew) as [Hi Ho]. simpl in *.
  assert (Forall (worker_ok subs (pending p) id) (<[i:=MkWorker inbox outbox gw]> (workers p))) as Hw'.
  { apply Forall_insert; [done|]. split; [done|]. intros k' r' Hr. apply Ho. by right. }
  unfold onResult. simpl. destruct (om_get k (pending p)) as [cb|] eqn:Eg; simpl.
  - split; simpl.
    + by apply om_delete_wf.
    + intros k' [_ Hk]%om_elem_keys_delete. by apply Hids.
    + rewrite -Hc. unfold callbacks. rewrite fmap_app -(assoc_L (++)). f_equiv. simpl.
      unfold om_values. by rewrite {2}(om_delete_perm _ _ _ Hwf Eg).
    + apply Forall_app. split; [done|]. constructor; [|constructor]. left. simpl.
      destruct (Ho k r) as [_ Hr]; [by left|]. by apply Hr.
    + intros Ha. by rewrite (Hd Ha) in Eg.
    + eapply workers_mono; [| | |exact Hw']; [done|lia|]. intros k' cb' _. rewrite om_get_delete. by case_decide.
  - rewrite app_nil_r. by split.
Qed.

Lemma pool_step_inv subs calls m o : pool_inv subs calls m →
  let '(m', cs) := pool_step process crashed o m in pool_inv (subs ++ submitted o) (calls ++ cs) m'.
Proof.
  intros I. destruct o as [env posted j cb|n|i env|i|i prefix|]; [by apply submit_inv| | | | |];
    cbn [submitted]; rewrite app_nil_r; destruct m as [p a id g]; cbn [pool_step mn_pool mn_alive mn_jobId mn_gen].
  - rewrite app_nil_r. destruct I as [Hwf Hids Hc Hok Hd Hw]. split; simpl in *; try done.
    + intros i Hi. specialize (Hids i Hi). lia.
    + eapply workers_mono; [| | |exact Hw]; [done|lia|done].
  - rewrite app_nil_r. destruct I as [Hwf Hids Hc Hok Hd Hw]. split; simpl in *; try done.
    apply Forall_alter; [done|]. intros w _. apply work_ok.
  - pose proof (deliver_inv _ _ _ _ _ _ i I) as H. by destruct (deliver i p).
  - destruct a; [|by rewrite app_nil_r]. unfold crash. destruct (_ <? _)%nat; [|by rewrite app_nil_r]. apply (flush_inv _ _ _ true _ g); [done|].
    destruct I as [_ _ _ _ _ Hw]. simpl in Hw. apply Forall_insert.
    + eapply workers_mono; [| | |exact Hw]; [done|lia|done].
    + split; intros ? ? Hin; by apply elem_of_nil in Hin.
  - unfold terminate. apply (flush_inv _ _ _ a _ g); [done|constructor].
Qed.
End pool_facts.

(** no callback is lost.  In any history of calls, of the workers' progress,
    crashes and termination, for any number of workers: the callbacks called and
    those still waiting are exactly those submitted, each as often; a callback is
    called with what the processing of a job submitted with it gives, or with the
    error of a crash or of the termination; and none waits once the pipeline is
    terminated. *)
Theorem callbacks_called_once {J R CB} (process : Env → Gen → J → outcome R * Gen) (crashed : string)
    (prefixes : list jstr) (prefix : jstr) (ops : list (pool_op J CB)) :
  let '(m, calls) := pool_run process crashed ops (main_new prefixes prefix) in
  let jobs := ops ≫= submitted in
  callbacks calls ++ om_values (pending (mn_pool m)) ≡ₚ jobs.*2 ∧
  Forall (call_ok process jobs) calls ∧
  (mn_alive m = false → callbacks calls ≡ₚ jobs.*2).
Proof.
  enough (∀ subs calls m, pool_inv process subs calls m →
    let '(m', calls') := foldl (pool_acc process crashed) (m, calls) ops in
    pool_inv process (subs ++ (ops ≫= submitted)) calls' m') as H.
  { specialize (H [] [] (main_new prefixes prefix)). unfold pool_run.
    destruct (foldl _ _ ops) as [m calls]. destruct H as [Hwf Hids Hc Hok Hd Hw].
    - split; simpl; try done; [constructor|intros id Hid; by apply elem_of_nil in Hid|].
      apply Forall_fmap, Forall_true. intros p. split; intros ? ? Hin; by apply elem_of_nil in Hin.
    - simpl in *. split_and!; [done|done|]. intros Ha. rewrite (Hd Ha) /= app_nil_r in Hc. done. }
  induction ops as [|o ops IH]; intros subs calls m I; simpl; [by rewrite app_nil_r|].
  pose proof (pool_step_inv _ crashed _ _ _ o I) as I'. unfold pool_acc at 2. simpl.
  destruct (pool_step process crashed o m) as [m' cs]. specialize (IH _ _ _ I').
  by rewrite -(assoc_L (++)) in IH.
Qed.

(** ** One worker: a queue *)

Section one_worker.
Context {J R CB : Type} (process : Env → Gen → J → outcome R * Gen) (crashed : string).
Implicit Types (m : Main J R CB).

(** The callback a submission queues, none when the main thread runs the job. *)
Definition queued (o : pool_op J CB) m : list CB :=
  match o with
  | Submit _ posted j cb => if (submit (mn_alive m) posted (mn_jobId m) j cb (mn_pool m)).2 then [] else [cb]
  | _ => []
  end.
(** The callbacks called other than by the main thread running their job itself. *)
Definition answered (calls : list (call R CB)) : list CB :=
  callbacks (filter (λ c, c.1.1 ≠ Retried) calls).

Definition worker_ids (w : Worker J R) : list Z := (w_outbox w).*1 ++ (w_inbox w).*1.

(** With one worker, what waits is in its queues, in order; none after termination. *)
Definition one_inv m : Prop :=
  om_wf (pending (mn_pool m)) ∧
  (∀ id, id ∈ om_keys (pending (mn_pool m)) → id < mn_jobId m) ∧
  om_keys (pending (mn_pool m)) = workers (mn_pool m) ≫= worker_ids ∧
  (length (workers (mn_pool m)) <= 1)%nat.

Definition one_step (o : pool_op J CB) m : Main J R CB * list CB * list CB :=
  let '(m', calls) := pool_step process crashed o m in (m', queued o m, answered calls).

Lemma answered_fallback env g j cb : answered (fallback process env g j cb).1 = [].
Proof. unfold fallback. by destruct (process env g j). Qed.

Lemma answered_flush reason (p : omap Z CB) : answered (flushPending reason p) = om_values p.
Proof.
  unfold answered, flushPending, callbacks. induction (om_values p) as [|cb l IH]; [done|].
  rewrite fmap_cons filter_cons_True; [|done]. by rewrite fmap_cons IH.
Qed.

Lemma one_submit m env posted j cb m' calls : one_inv m →
  pool_step process crashed (Submit env posted j cb) m = (m', calls) →
  one_inv m' ∧ om_values (pending (mn_pool m)) ++ queued (Submit env posted j cb) m =
    answered calls ++ om_values (pending (mn_pool m')).
Proof.
  intros (Hwf & Hids & Hk & Hl) H. destruct m as [p a id g]. cbn [pool_step queued mn_pool mn_alive mn_jobId mn_gen] in *.
  assert (om_get id (pending p) = None) as Hn.
  { destruct (om_get id (pending p)) eqn:E; [|done]. exfalso.
    enough (id < id) by lia. apply Hids, om_get_keys. by rewrite E. }
  pose proof (answered_fallback env g j cb) as Hf. destruct (fallback process env g j cb) as [cs g']. simpl in Hf.
  unfold submit in *. destruct (negb a || _) eqn:Ea; simpl in *.
  { simplify_eq/=. rewrite Hf app_nil_r. by split. }
  destruct (MAX_PENDING <=? _); simpl in *.
  { simplify_eq/=. rewrite Hf app_nil_r. by split. }
  apply orb_false_iff in Ea as [_ Ea]. apply Nat.eqb_neq in Ea.
  destruct (workers p) as [|w [|w' ws]] eqn:Ews; [done| |simpl in Hl; lia].
  change (length [w]) with 1%nat in H. rewrite Nat.mod_1_r in H. destruct posted; simplify_eq/=.
  - rewrite om_set_fresh // /om_values fmap_app. split; [|done]. split_and!; simpl.
    + rewrite -om_set_fresh //. by apply om_set_wf.
    + rewrite -om_set_fresh //. intros i' [->|Hi]%om_elem_keys_set; [lia|]. specialize (Hids i' Hi). lia.
    + unfold om_keys, post, worker_ids in *. rewrite fmap_app Hk /= !app_nil_r fmap_app /=.
      by rewrite (assoc_L (++)).
    + done.
  - assert (om_delete id (om_set id cb (pending p)) = pending p) as ->.
    { rewrite om_set_fresh // /om_delete filter_app filter_cons_False /=; [|by intros []].
      rewrite app_nil_r. by apply om_delete_none. }
    rewrite Hf app_nil_r. split; [|done]. split_and!; simpl; [done| |done|lia].
    intros i' Hi. specialize (Hids i' Hi). lia.
Qed.

(** What the main thread receives belongs to the first that waits. *)
Lemma deliver_head (p : Pool J R CB) k r inbox outbox g : om_wf (pending p) →
  om_keys (pending p) = [MkWorker inbox ((k, r) :: outbox) g] ≫= worker_ids →
  workers p = [MkWorker inbox ((k, r) :: outbox) g] →
  ∃ cb rest, pending p = (k, cb) :: rest ∧
    deliver 0 p = (MkPool rest (dropped p) [MkWorker inbox outbox g] (rr p), [(Bare, cb, r)]).
Proof.
  intros Hwf Hk Hw. unfold worker_ids in Hk. simpl in Hk. rewrite app_nil_r in Hk.
  destruct (pending p) as [|[k' cb] rest] eqn:Ep; [done|]. simpl in Hk. injection Hk as -> Hk.
  apply NoDup_cons in Hwf as [Hnk Hwf]. exists cb, rest. split; [done|].
  unfold deliver, onResult. rewrite Hw /= Ep /= decide_True //. do 2 f_equal.
  rewrite om_delete_cons decide_True // om_delete_none //. destruct (om_get k rest) eqn:Eg; [|done].
  destruct Hnk. apply om_get_keys. by rewrite Eg.
Qed.

Lemma one_deliver i p a id g p' calls : one_inv (MkMain p a id g) → deliver i p = (p', calls) →
  one_inv (MkMain p' a id g) ∧ om_values (pending p) = answered calls ++ om_values (pending p').
Proof.
  intros I E. assert (p' = p → calls = [] → one_inv (MkMain p' a id g) ∧
    om_values (pending p) = answered calls ++ om_values (pending p')) as Hsame by by intros -> ->.
  destruct I as (Hwf & Hids & Hk & Hl). simpl in *. pose proof E as E'.
  unfold deliver in E. destruct (workers p) as [|w [|w' ws]] eqn:Ews; simpl in Hl; [| |lia].
  { rewrite lookup_nil in E. apply Hsame; congruence. }
  destruct i as [|i]; simpl in E; [|apply Hsame; congruence].
  destruct w as [inbox [|[k r] outbox] gw]; [apply Hsame; congruence|].
  destruct (deliver_head p k r inbox outbox gw Hwf Hk Ews) as (cb & rest & Hp & Hd).
  rewrite Hd in E'. injection E' as <- <-. rewrite Hp in Hwf, Hids, Hk |- *.
  apply NoDup_cons in Hwf as [Hnk Hwf]. split; [|done]. split_and!; simpl; [done| | |lia].
  - intros k' Hk'. apply Hids. by right.
  - unfold worker_ids in *. simpl in *. by injection Hk.
Qed.

Lemma one_law m o m' acc del : one_inv m → True → one_step o m = (m', acc, del) →
  one_inv m' ∧ om_values (pending (mn_pool m)) ++ acc = del ++ om_values (pending (mn_pool m')).
Proof.
  unfold one_step. intros I _ H. destruct (pool_step process crashed o m) as [m1 calls] eqn:E. simplify_eq.
  destruct o as [env posted j cb|n|i env|i|i prefix|]; [by apply (one_submit _ _ _ _ _ _ _ I E)| | | | |];
    destruct I as (Hwf & Hids & Hk & Hl); destruct m as [p a id g];
    cbn [pool_step queued mn_pool mn_alive mn_jobId mn_gen] in *; rewrite ?app_nil_r.
  - simplify_eq/=. split; [|done]. split_and!; simpl; try done. intros i Hi. specialize (Hids i Hi). lia.
  - simplify_eq/=. split; [|done]. split_and!; simpl; [done|done| |by rewrite length_alter].
    rewrite Hk. destruct (workers p) as [|w [|w' ws]]; simpl in *; [done| |lia].
    destruct i as [|i]; simpl; [|done]. rewrite !app_nil_r. unfold worker_ids, work.
    destruct (w_inbox w) as [|[k j] rest] eqn:Ew; [by rewrite Ew|]. destruct (process env (w_gen w) j).
    cbn. by rewrite fmap_app -(assoc_L (++)).
  - destruct (deliver i p) as [p' cs] eqn:Ed. simplify_eq/=. by apply (one_deliver i).
  - destruct a; simplify_eq/=; [|by split_and!]. unfold crash in E.
    destruct (i <? length (workers p))%nat eqn:Ei; simplify_eq/=; [|by split_and!].
    rewrite answered_flush app_nil_r. split; [|done]. apply Nat.ltb_lt in Ei.
    destruct (workers p) as [|w [|w' ws]]; simpl in Hl, Ei; [lia| |lia]. assert (i = 0)%nat as -> by lia.
    split_and!; simpl; [constructor|intros ? Hin; by apply elem_of_nil in Hin|done|done].
  - simplify_eq/=. rewrite answered_flush app_nil_r. split; [|done].
    split_and!; simpl; [constructor|intros ? Hin; by apply elem_of_nil in Hin|done|lia].
Qed.

(** The contract of [Fifo.v]. *)
#[export] Instance one_worker_fifo : Fifo (Main J R CB) (pool_op J CB) CB := {
  fifo_step := one_step;
  fifo_pending m := om_values (pending (mn_pool m));
  fifo_inv := one_inv;
  fifo_ok _ := True;
  fifo_law m o m' acc del := one_law m o m' acc del
}.

(** *** Progress *)

Definition inbox_of m : list (Z * J) := workers (mn_pool m) ≫= w_inbox.

Lemma work_step env m : one_inv m →
  let '(m', acc, del) := one_step (Work 0 env) m in
  acc = [] ∧ del = [] ∧ inbox_of m' = tail (inbox_of m) ∧
  pending (mn_pool m') = pending (mn_pool m).
Proof.
  intros (_ & _ & _ & Hl). unfold one_step, inbox_of. simpl. split_and!; try done.
  destruct (workers (mn_pool m)) as [|w [|w' ws]]; simpl in *; [done| |lia]. rewrite !app_nil_r. unfold work.
  destruct (w_inbox w) as [|[k j] rest] eqn:E; [done|]. by destruct (process env (w_gen w) j).
Qed.

Lemma deliver_step m : one_inv m → inbox_of m = [] →
  let '(m', acc, del) := one_step (Deliver 0) m in
  acc = [] ∧ inbox_of m' = [] ∧ om_size (pending (mn_pool m')) = pred (om_size (pending (mn_pool m))).
Proof.
  unfold one_step, inbox_of. intros (Hwf & _ & Hk & Hl) Hi. destruct m as [p a id g]. simpl in *.
  destruct (workers p) as [|w [|w' ws]] eqn:Ews; simpl in Hl; [| |lia].
  - unfold deliver. rewrite Ews /= Ews. unfold om_keys in Hk. by destruct (pending p).
  - simpl in *. rewrite app_nil_r in Hi. destruct w as [inbox outbox gw]. simpl in Hi. subst inbox.
    destruct outbox as [|[k r] outbox].
    + unfold deliver. rewrite Ews /= Ews. unfold om_keys in Hk. by destruct (pending p).
    + destruct (deliver_head p k r [] outbox gw Hwf Hk Ews) as (cb & rest & Hp & Hd).
      by rewrite Hd Hp.
Qed.

(** Once the worker has done its jobs and its answers are received, nothing waits. *)
Definition drain_ops (n : nat) (env : Env) : list (pool_op J CB) :=
  replicate n (Work 0 env) ++ replicate n (Deliver 0).

Lemma works_done n env m : one_inv m → (length (inbox_of m) <= n)%nat →
  ∃ m', fifo_run (replicate n (Work 0 env)) m = (m', [], []) ∧ one_inv m' ∧ inbox_of m' = [] ∧
    pending (mn_pool m') = pending (mn_pool m).
Proof.
  revert m. induction n as [|n IH]; intros m I Hn.
  { exists m. split_and!; try done. by destruct (inbox_of m); simpl in *; [|lia]. }
  pose proof (work_step env m I) as Hs. cbn [replicate fifo_run fifo_step one_worker_fifo].
  destruct (one_step (Work 0 env) m) as [[m1 acc] del] eqn:E. destruct Hs as (-> & -> & Hi & Hp).
  destruct (one_law _ _ _ _ _ I Logic.I E) as [I1 _].
  destruct (IH m1 I1) as (m' & -> & I' & Hi' & Hp').
  { rewrite Hi. destruct (inbox_of m); simpl in *; lia. }
  exists m'. by rewrite Hp' Hp.
Qed.

Lemma delivers_done n m : one_inv m → inbox_of m = [] → (om_size (pending (mn_pool m)) <= n)%nat →
  ∃ m' del, fifo_run (replicate n (Deliver 0)) m = (m', [], del) ∧ pending (mn_pool m') = [].
Proof.
  revert m. induction n as [|n IH]; intros m I Hi Hn.
  { exists m, []. split; [done|]. unfold om_size in Hn. by destruct (pending (mn_pool m)); simpl in *; [|lia]. }
  pose proof (deliver_step m I Hi) as Hs. cbn [replicate fifo_run fifo_step one_worker_fifo].
  destruct (one_step (Deliver 0) m) as [[m1 acc] del] eqn:E. destruct Hs as (-> & Hi1 & Hsz).
  destruct (one_law _ _ _ _ _ I Logic.I E) as [I1 _].
  destruct (IH m1 I1 Hi1) as (m' & del' & -> & Hp'); [lia|]. by eexists _, _.
Qed.

Lemma inbox_size m : one_inv m → (length (inbox_of m) <= om_size (pending (mn_pool m)))%nat.
Proof.
  intros (_ & _ & Hk & Hl). unfold om_size, om_keys, inbox_of in *. rewrite -(length_fmap fst (pending _)) Hk.
  destruct (workers _) as [|w [|w' ws]]; simpl in *; [lia| |lia].
  unfold worker_ids. rewrite !length_app !length_fmap /=. lia.
Qed.

Lemma drained env m : one_inv m →
  ∃ m' del, fifo_run (drain_ops (om_size (pending (mn_pool m))) env) m = (m', [], del) ∧ pending (mn_pool m') = [].
Proof.
  intros I. unfold drain_ops. rewrite fifo_run_app.
  destruct (works_done _ env m I (inbox_size m I)) as (m1 & -> & I1 & Hi & Hp).
  destruct (delivers_done (om_size (pending (mn_pool m))) m1 I1 Hi) as (m' & del & -> & Hp'); [by rewrite Hp|].
  by eexists _, _.
Qed.

Lemma main_new_inv prefix prefix' : one_inv (main_new [prefix] prefix').
Proof. split_and!; simpl; [constructor|intros id Hid; by apply elem_of_nil in Hid|done|done]. Qed.
End one_worker.

(** with one worker, the default, the pool is a queue.  In any history, crashes
    and termination included, the callbacks of the jobs that were queued are called
    in the order of submission, each once, and those that wait are the last ones;
    and when the worker has run its jobs and its answers are received, none waits. *)
Theorem one_worker_queue {J R CB} (process : Env → Gen → J → outcome R * Gen) (crashed : string)
    (prefix prefix' : jstr) (ops : list (pool_op J CB)) m queued called :
  let run := fifo_run (H := one_worker_fifo process crashed) in
  run ops (main_new [prefix] prefix') = (m, queued, called) →
  queued = called ++ om_values (pending (mn_pool m)) ∧
  ∀ env, ∃ m', run (drain_ops (om_size (pending (mn_pool m))) env) m = (m', [], om_values (pending (mn_pool m))) ∧
    pending (mn_pool m') = [].
Proof.
  intros run Hrun. pose proof (main_new_inv (J:=J) (R:=R) (CB:=CB) prefix prefix') as I.
  destruct (fifo_run_spec (H := one_worker_fifo process crashed) ops _ _ _ _ I ltac:(by apply Forall_true) Hrun)
    as [Im Heq].
  split; [exact Heq|]. intros env. destruct (drained process crashed env m Im) as (m' & del & Hd & Hp).
  destruct (fifo_run_spec (H := one_worker_fifo process crashed) _ _ _ _ _ Im ltac:(by apply Forall_true) Hd)
    as [_ Hdel]. cbn [fifo_pending one_worker_fifo] in Hdel. rewrite Hp !app_nil_r in Hdel.
  exists m'. by rewrite /run Hd Hdel.
Qed.

Definition demo_env : Env := MkEnv 0 (λ _, replicate 12 0).
Definition demo_process (e : Env) (g : Gen) (j : Z) : outcome Z * Gen := (Ret (j * 10), g).

Lemma one_worker_queue_witness :
  let ops := [Submit demo_env true 1 11; Submit demo_env true 2 12; Work 0 demo_env; Crash 0 (js "p");
              Submit demo_env true 3 13; Submit demo_env true 4 14; Work 0 demo_env; Deliver 0] in
  let '(m, queued, called) := fifo_run (H := one_worker_fifo demo_process "crashed") ops (main_new [js "w"] (js "m")) in
  queued = [11; 12; 13; 14] ∧ called = [11; 12; 13] ∧ om_values (pending (mn_pool m)) = [14] ∧
  queued = called ++ om_values (pending (mn_pool m)).
Proof.
  intros ops.
  destruct (fifo_run (H := one_worker_fifo demo_process "crashed") ops _) as [[m queued] called] eqn:Hrun.
  destruct (one_worker_queue demo_process "crashed" (js "w") (js "m") ops m queued called Hrun) as [Heq _].
  revert Hrun Heq. vm_compute. intros [= <- <- <-] Heq. done.
Defined.

(** What the queue does not promise: when [MAX_PENDING] jobs wait, the next one is
    run at once by the main thread, ahead of them all. *)
Example overflow_overtakes :
  let ops := (λ i, Submit demo_env true i i) ∘ Z.of_nat <$> List.seq 0 2001 in
  callbacks (pool_run demo_process "crashed" ops (main_new [js "w"] (js "m"))).2 = [2000].
Proof. by vm_compute. Qed.

(** ** The two ends of a link *)

Section links.
Context `{Aead} (json_ids : jstr → outcome (list jstr)).

Definition meta_ok (m : PacketMeta) : Prop :=
  0 < pm_type m < 256 ∧ hop_ok (pm_srcNode m) ∧ hop_ok (pm_dstNode m) ∧
  Forall id_ok (pm_route m) ∧ (length (pm_route m) < 256)%nat.
#[export] Instance meta_ok_dec m : Decision (meta_ok m).
Proof. unfold meta_ok. apply _. Defined.

(** A job the node submits: keys of 32 bytes, ids that fit, and a payload that still
    fits the length field with its layers. *)
Definition job_ok (j : TxJob) : Prop :=
  meta_ok (tj_packetMeta j) ∧ route_ok (tj_routeWithKeys j) ∧ tj_routeWithKeys j ≠ [] ∧
  Z.of_nat (wrapped_length (length (tj_payload j)) (tj_routeWithKeys j)) < 2 ^ 32.
#[export] Instance job_ok_dec j : Decision (job_ok j).
Proof. unfold job_ok, route_ok. apply _. Defined.

(** The packet [tx_process] makes. *)
Definition tx_packet (now : Z) (g : Gen) (m : PacketMeta) (encrypted : buffer) : Packet :=
  MkPacket 1 (pm_type m) (generateFlowId (g_prefix g) (g_counter g)).1 0 0 DEFAULT_TTL
    (Some (pm_srcNode m)) (Some (pm_dstNode m)) (pm_route m) [] now encrypted.
(** What its receiver reports. *)
Definition tx_meta (g : Gen) (m : PacketMeta) : RxMeta :=
  MkRxMeta (generateFlowId (g_prefix g) (g_counter g)).1 0 0 DEFAULT_TTL
    (Some (pm_srcNode m)) (Some (pm_dstNode m)) (pm_route m).

Lemma tx_packet_fits now g m c : gen_ok (g_prefix g) (g_counter g) → meta_ok m → blen c < 2 ^ 32 →
  fields_fit (tx_packet now g m c) ∧ ids_fit (tx_packet now g m c) ∧ normal (tx_packet now g m c).
Proof.
  intros Hg (Ht & [Hs Hs0] & [Hd Hd0] & Hr & Hl) Hc. destruct (generateFlowId_ok _ _ Hg) as [Hf Hf0].
  unfold fields_fit, ids_fit, normal, tx_packet, DEFAULT_TTL. cbn. split_and!; try done; try lia; congruence.
Qed.

Lemma tx_new_packet now g m c : meta_ok m →
  new_packet now (g_prefix g) (g_counter g) (tx_options m c) = (tx_packet now g m c, g_counter g + 1).
Proof.
  intros (Ht & [Hs Hs0] & [Hd Hd0] & _). unfold new_packet, tx_options, tx_packet.
  cbn [o_version o_type o_flowId o_seq o_hop o_ttl o_srcNode o_dstNode o_route o_visitedNodes o_timestamp
    o_payload default].
  rewrite (str_or_null_id (Some (pm_srcNode m))); [|congruence].
  rewrite (str_or_null_id (Some (pm_dstNode m))); [|congruence]. by rewrite js_or_id; [|lia].
Qed.

(** The bytes of a job, once encrypted, and their parse. *)
Lemma tx_process_bytes env g j c : gen_ok (g_prefix g) (g_counter g) → meta_ok (tj_packetMeta j) →
  tx_encrypt (e_iv env) j = Ret c → blen c < 2 ^ 32 →
  tx_process env g j =
    (Ret (MkTxResult (layout (tx_packet (e_now env) g (tj_packetMeta j) c)) (head (pm_route (tj_packetMeta j)))
       (blen (tj_payload j))), MkGen (g_prefix g) (g_counter g + 1)).
Proof.
  intros Hg Hm Hc Hl. unfold tx_process. rewrite Hc tx_new_packet //.
  destruct (tx_packet_fits (e_now env) g _ c Hg Hm Hl) as (Hf & Hi & _).
  by rewrite serialize_layout // ret_bind.
Qed.

Lemma tx_deserialize now now' g g' m c : gen_ok (g_prefix g) (g_counter g) → meta_ok m → blen c < 2 ^ 32 →
  ∃ p, deserialize json_ids now' (g_prefix g') (g_counter g') (layout (tx_packet now g m c)) =
    Ret (p, g_counter g') ∧ MeshPacket.payload p = c ∧ packet_meta p = tx_meta g m.
Proof.
  intros Hg Hm Hc. destruct (tx_packet_fits now g m c Hg Hm Hc) as (Hf & Hi & Hn).
  rewrite deserialize_layout //. by eexists.
Qed.

Lemma direct_link env env' g g' j n k peer : gen_ok (g_prefix g) (g_counter g) → job_ok j →
  length (e_iv env 0%nat) = 12%nat → tj_directMode j = true → tj_routeWithKeys j = [(n, k)] →
  ∃ c, let s := layout (tx_packet (e_now env) g (tj_packetMeta j) c) in blen c < 2 ^ 32 ∧
    tx_process env g j =
      (Ret (MkTxResult s (head (pm_route (tj_packetMeta j))) (blen (tj_payload j))), MkGen (g_prefix g) (g_counter g + 1)) ∧
    rx_process json_ids env' g' (MkRxJob s k peer PacketType.DATA_DIRECT) =
      (Ret (RxDirect peer (tj_payload j) (tx_meta g (tj_packetMeta j))), g').
Proof.
  intros Hg (Hm & Hr & _ & Hl) Hiv Hd Hrk. rewrite Hrk in Hr, Hl. apply Forall_cons in Hr as [[_ Hk] _].
  destruct (encrypt_total (e_iv env 0%nat) (tj_payload j) k Hk) as [c Hc].
  assert (tx_encrypt (e_iv env) j = Ret c) as He by (unfold tx_encrypt; by rewrite Hd Hrk).
  assert (blen c < 2 ^ 32) as Hcl.
  { unfold blen. rewrite (encrypt_length _ _ _ _ Hiv Hc). unfold wrapped_length in Hl. simpl in Hl. lia. }
  exists c. split; [done|]. split; [by apply tx_process_bytes|].
  destruct (tx_deserialize (e_now env) (e_now env') g g' (tj_packetMeta j) c) as (p & Hp & Hpl & Hpm); [done..|].
  unfold rx_process. cbn [rj_data rj_sessionKey rj_packetType rj_peerId].
  rewrite Hp !ret_bind. cbn match. cbn beta iota. rewrite Hpl Hpm.
  assert (decrypt (Buf c) k = Ret (tj_payload j)) as ->.
  { apply decrypt_spec. split; [done|]. by exists (e_iv env 0%nat). }
  by destruct g'.
Qed.

Lemma onion_link env env' g g' j n k rest peer : gen_ok (g_prefix g) (g_counter g) → job_ok j →
  (∀ i, length (e_iv env i) = 12%nat) → tj_routeWithKeys j = (n, k) :: rest →
  tj_directMode j = false ∨ rest ≠ [] →
  ∃ c inner, let s := layout (tx_packet (e_now env) g (tj_packetMeta j) c) in blen c < 2 ^ 32 ∧
    tx_process env g j =
      (Ret (MkTxResult s (head (pm_route (tj_packetMeta j))) (blen (tj_payload j))), MkGen (g_prefix g) (g_counter g + 1)) ∧
    rx_process json_ids env' g' (MkRxJob s k peer PacketType.DATA) =
      (Ret (RxData peer inner (bool_decide (rest = [])) (fst <$> head rest) (tx_meta g (tj_packetMeta j))), g') ∧
    travel rest inner = Ret (hops_of rest, tj_payload j).
Proof.
  intros Hg (Hm & Hr & _ & Hl) Hiv Hrk Hd. rewrite Hrk in Hr, Hl.
  destruct (build_loop_travel (e_iv env) (tj_payload j) (reverse ((n, k) :: rest)) Hiv [] (tj_payload j))
    as (c & Hb & Ht & Hlen); [by apply Forall_reverse|constructor|done|unfold wrapped_length; simpl; lia|].
  rewrite reverse_involutive app_nil_r in Ht, Hlen.
  assert (tx_encrypt (e_iv env) j = Ret c) as He.
  { unfold tx_encrypt. rewrite Hrk.
    assert (createOnionPacket (e_iv env) (Buf (tj_payload j)) ((n, k) :: rest) = Ret c) as Hc
      by by rewrite createOnionPacket_build.
    destruct (tj_directMode j); [|done]. destruct rest; [|done]. by destruct Hd. }
  assert (blen c < 2 ^ 32) as Hcl by (unfold blen; rewrite Hlen; lia).
  destruct (tx_deserialize (e_now env) (e_now env') g g' (tj_packetMeta j) c) as (p & Hp & Hpl & Hpm); [done..|].
  cbn [travel] in Ht. apply outcome_bind_Ret in Ht as (l & Hpeel & Ht).
  apply outcome_bind_Ret in Ht as ([learned out] & Hrest & Ht). apply Ret_inj in Ht. injection Ht as Ht ->.
  exists c, (payload l). split; [done|]. split; [by apply tx_process_bytes|].
  assert (nextHop l = fst <$> head rest ∧ isExit l = bool_decide (rest = []) ∧ learned = hops_of rest) as (Hn & He' & ->).
  { destruct rest as [|[m k'] rest]; simpl in Ht; injection Ht as E1 E2 E3; by rewrite E1 E2 E3. }
  split; [|done]. unfold rx_process. cbn [rj_data rj_sessionKey rj_packetType rj_peerId].
  rewrite Hp !ret_bind. cbn match. cbn beta iota. rewrite Hpl Hpm Hpeel ret_bind Hn He'. by destruct g'.
Qed.
End links.

(** what one end of a link sends is what the other reads.  For a job whose keys
    and ids fit, the sending side (worker or main thread) produces a packet; given
    those bytes and the first key, the receiving side returns, in direct mode, the
    payload, and otherwise the next hop of the route, whether this hop is the exit,
    and an inner packet that travels the rest of the route to the same payload; with
    the endpoints, the route, TTL 32 and the flow id drawn, which the sender's
    counter will not repeat. *)
Theorem link_delivers `{Aead} json_ids env env' g g' (j : TxJob) n k rest peer :
  gen_ok (g_prefix g) (g_counter g) → job_ok j → (∀ i, length (e_iv env i) = 12%nat) →
  tj_routeWithKeys j = (n, k) :: rest →
  ∃ s, tx_process env g j =
      (Ret (MkTxResult s (head (pm_route (tj_packetMeta j))) (blen (tj_payload j))),
       MkGen (g_prefix g) (g_counter g + 1)) ∧
    let meta := tx_meta g (tj_packetMeta j) in
    if tj_directMode j && bool_decide (rest = []) then
      rx_process json_ids env' g' (MkRxJob s k peer PacketType.DATA_DIRECT) = (Ret (RxDirect peer (tj_payload j) meta), g')
    else ∃ inner,
      rx_process json_ids env' g' (MkRxJob s k peer PacketType.DATA) =
        (Ret (RxData peer inner (bool_decide (rest = [])) (fst <$> head rest) meta), g') ∧
      travel rest inner = Ret (hops_of rest, tj_payload j).
Proof.
  intros Hg Hj Hiv Hrk. destruct (tj_directMode j && bool_decide (rest = [])) eqn:E.
  - bool_to_prop. subst rest. destruct (direct_link json_ids env env' g g' j n k peer) as (c & _ & Ht & Hr); [done..|].
    by eexists.
  - destruct (onion_link json_ids env env' g g' j n k rest peer) as (c & inner & _ & Ht & Hr & Htr); try done.
    + apply andb_false_iff in E as [E|E]; [by left|right; by apply bool_decide_eq_false in E].
    + eexists. split; [exact Ht|]. by exists inner.
Qed.

Definition demo_job : TxJob :=
  MkTxJob [1; 2; 3] [(js "relay", replicate 32 1); (js "exit", replicate 32 2)]
    (MkMeta PacketType.DATA (js "client") (js "exit") [js "relay"; js "exit"]) false.
Lemma link_delivers_witness :
  let g := MkGen (js "18c0ffee") 5 in
  ∃ s inner, (@tx_process toy_aead demo_env g demo_job).1 = Ret (MkTxResult s (Some (js "relay")) 3) ∧
    @rx_process toy_aead (λ _, Throw SyntaxError) demo_env (MkGen (js "0") 0) (MkRxJob s (replicate 32 1) (js "c") PacketType.DATA) =
      (Ret (RxData (js "c") inner false (Some (js "exit"))
              (MkRxMeta (js "18c0ffee00000005") 0 0 32 (Some (js "client")) (Some (js "exit")) [js "relay"; js "exit"])),
       MkGen (js "0") 0).
Proof.
  intros g. destruct (@link_delivers toy_aead (λ _, Throw SyntaxError) demo_env demo_env g (MkGen (js "0") 0) demo_job
    (js "relay") (replicate 32 1) [(js "exit", replicate 32 2)] (js "c")) as (s & Ht & Hr).
  - apply (bool_decide_unpack _). by vm_compute.
  - apply (bool_decide_unpack _). by vm_compute.
  - intros i. exact eq_refl.
  - exact eq_refl.
  - cbn in Hr. destruct Hr as (inner & Hr & _). exists s, inner. split; [by rewrite Ht|exact Hr].
Defined.
