(* ===== verification/Node.v ===== *)
(** * The data plane of a node (src/core/node.js)

    What [MeshNode] does with packets: outbound packets from the TUN go through the
    mesh to an exit, messages from peers are decrypted, delivered or forwarded, an
    exit sends responses back.  Handlers are computations on [MeshNode] that may
    throw.  What leaves the node is recorded in [n_out], in order: packets the
    transport took, jobs submitted to the worker pipeline with their callback (a
    constructor of [TxCallback] or [RxCallback]; Pipeline.v shows each is called
    once), packets for the TUN or for the userspace NAT.  What the transports answer
    comes with each operation ([World]).  Metrics, logging and the set-up of the
    operating system are left out. *)

From S2P Require Import Prelude JsMap Bytes JsString Effects MeshPacket IpPacket Search Graph Router Scheduler.
From S2P Require Import Crypto Onion IpManager SendRetry Chains Pipeline.
Local Open Scope Z_scope.
#[local] Unset Default Proof Using.

(** ** State *)

(** The clock, and what the transports answer: [transportManager.isConnected] and
    [send], the WebSocket data server ([null], or [isConnected]) and its [send]. *)
Record World := MkWorld {
  w_now : Z;
  tm_connected : jstr → bool;
  tm_accepts : bool;
  ws_connected : option (jstr → bool);
  ws_accepts : bool
}.

(** The [flush] closures of the retry queue. *)
Inductive Flush := FlushNone | FlushTx (payloadLen : Z) | FlushForward.

(** The callbacks of [submitTx] and [submitRx].  [done]: the chain to settle, none
    when nobody waits. *)
Inductive TxCallback :=
  | ClientTx
  | ExitTx (targetNodeId : jstr) (useWsOnlyPath : bool) (done : option nat).
Inductive RxCallback := RxDone (done : option nat).

Inductive Out :=
  | OSend (peerId : jstr) (b : buffer)
  | OWsSend (peerId : jstr) (b : buffer)
  | OSubmitTx (j : TxJob) (cb : TxCallback)
  | OSubmitRx (j : RxJob) (cb : RxCallback)
  | OTun (packet : buffer)                                 (* tunManager.injectPacket *)
  | ONat (packet : buffer) (srcNode : option jstr)         (* userSpaceNAT.handlePacket *)
  | OReceived (packet : buffer)                            (* emit 'packet-received' *)
  | OPong (peerId : jstr) (latency : option Z).            (* emit 'pong' *)

Record LoopStats := MkLoop {
  ttlDropped : Z; duplicateDropped : Z; loopDropped : Z; splitHorizonDropped : Z;
  totalProcessed : Z; totalForwarded : Z
}.
#[export] Instance eta_LoopStats : Eta LoopStats := λ s,
  MkLoop (ttlDropped s) (duplicateDropped s) (loopDropped s) (splitHorizonDropped s)
    (totalProcessed s) (totalForwarded s).
Definition loop_zero : LoopStats := MkLoop 0 0 0 0 0 0.

Record TrafficStats := MkTraffic { bytesSent : Z; bytesReceived : Z; packetsSent : Z; packetsReceived : Z }.
#[export] Instance eta_TrafficStats : Eta TrafficStats := λ s,
  MkTraffic (bytesSent s) (bytesReceived s) (packetsSent s) (packetsReceived s).

Record NatMapping := MkNatMapping { nm_srcNodeId : option jstr; nm_createdAt : Z }.
Record TcpConnection := MkTcpConn { tc_seqNum : Z; tc_ackNum : Z; tc_lastUsed : Z }.

(** A response waiting in [_exitTxChains]. *)
Record ExitTask := MkExitTask { et_target : jstr; et_packet : buffer; et_route : list jstr; et_ws : bool }.

Record MeshNode := MkNode {
  n_nodeId : jstr;
  n_isExit : bool;
  n_isClient : bool;
  n_directMode : bool;
  n_strict : bool;                        (* strictTransportOrdering *)
  n_userspace : bool;                     (* userSpaceNAT is not null *)
  n_running : bool;
  n_virtualIp : option jstr;
  n_tun : option bool;                    (* tunManager, and whether it runs *)
  n_alive : bool;                         (* pipeline.enabled && pipeline._alive *)
  n_gen : Gen;                            (* packet.js in the main thread *)
  n_sessions : SessionManager;            (* discovery's sessions *)
  n_router : MeshRouter;
  n_scheduler : MultipathScheduler;
  n_reorder : ReorderBuffer;
  n_processed : omap jstr Z;
  n_cacheTTL : Z;
  n_loop : LoopStats;
  n_traffic : TrafficStats;
  n_retry : @queues (buffer * Flush);
  n_retryMax : Z;
  n_rxChains : chains buffer;
  n_exitChains : chains ExitTask;
  n_natMappings : omap jstr NatMapping;
  n_natTimeout : Z;
  n_tcp : omap jstr TcpConnection;
  n_tcpTimeout : Z;
  n_out : list Out
}.
#[export] Instance eta_MeshNode : Eta MeshNode := λ n,
  MkNode (n_nodeId n) (n_isExit n) (n_isClient n) (n_directMode n) (n_strict n) (n_userspace n) (n_running n)
    (n_virtualIp n) (n_tun n) (n_alive n) (n_gen n) (n_sessions n) (n_router n) (n_scheduler n) (n_reorder n)
    (n_processed n) (n_cacheTTL n) (n_loop n) (n_traffic n) (n_retry n) (n_retryMax n) (n_rxChains n)
    (n_exitChains n) (n_natMappings n) (n_natTimeout n) (n_tcp n) (n_tcpTimeout n) (n_out n).

(** The flags of the configuration that decide what the node does. *)
Record NodeConfig := MkConfig {
  cfg_nat : bool;                 (* nat.enabled *)
  cfg_relay : bool;
  cfg_enableTun : option bool;
  cfg_role : option jstr
}.
Definition has_role (c : NodeConfig) (r : jstr) : bool := bool_decide (cfg_role c = Some r).
Definition cfg_isExit (c : NodeConfig) : bool := cfg_nat c || has_role c (js "exit").
Definition cfg_isRelay (c : NodeConfig) : bool := cfg_relay c || has_role c (js "relay") || has_role c (js "client-relay").
Definition cfg_isClient (c : NodeConfig) : bool :=
  match cfg_enableTun c with
  | Some true => true
  | _ => has_role c (js "client") || has_role c (js "client-relay")
  end && negb (cfg_isExit c).
(** The role the node announces. *)
Definition announced_role (c : NodeConfig) : jstr :=
  if cfg_isExit c then js "exit"
  else if cfg_isRelay c && negb (cfg_isClient c) then js "relay"
  else match cfg_role c with Some ((_ :: _) as r) => r | _ => js "client" end.

(** A new node; [prefix] is its thread's flow-id prefix, [flow] its scheduler's flow
    id, and the defaults are those of the constructor. *)
Definition new_node (c : NodeConfig) (id prefix flow : jstr) (directMode userspace : bool) : MeshNode :=
  MkNode id (cfg_isExit c) (cfg_isClient c) directMode true (cfg_isExit c && userspace) false None None true
    (MkGen prefix 0) [] (router_new id None) (sched_new flow RoundRobin) (rb_new None) [] 60000 loop_zero
    (MkTraffic 0 0 0 0) [] 4000 chains_new chains_new [] 300000 [] 300000 [].

Definition N := SM MeshNode.

Definition emit (o : Out) : N () := modify (λ n, n <| n_out ::= λ l, l ++ [o] |>).
Definition count (f : LoopStats → LoopStats) : N () := modify (λ n, n <| n_loop ::= f |>).
Definition ttl_dropped := count (λ s, s <| ttlDropped ::= Z.succ |>).
Definition duplicate_dropped := count (λ s, s <| duplicateDropped ::= Z.succ |>).
Definition loop_dropped := count (λ s, s <| loopDropped ::= Z.succ |>).
Definition split_horizon_dropped := count (λ s, s <| splitHorizonDropped ::= Z.succ |>).
Definition processed := count (λ s, s <| totalProcessed ::= Z.succ |>).

(** [this.discovery.getSessionKey] *)
Definition session_key (peerId : jstr) : N (option buffer) := gets (λ n, getSessionKey peerId (n_sessions n)).

(** [new Packet(options)] in the main thread. *)
Definition new_pkt (W : World) (o : PacketOptions) : N Packet := λ n,
  let '(p, c) := new_packet (w_now W) (g_prefix (n_gen n)) (g_counter (n_gen n)) o in
  (Ret p, n <| n_gen := MkGen (g_prefix (n_gen n)) c |>).

(** ** Sending *)

Definition run_flush (f : Flush) : N () :=
  match f with
  | FlushNone => skip
  | FlushTx len => modify (λ n, n <| n_traffic ::= λ t, t <| bytesSent ::= Z.add len |> <| packetsSent ::= Z.succ |> |>)
  | FlushForward => count (λ s, s <| totalForwarded ::= Z.succ |>)
  end.
(** The transport took an entry of the retry queue. *)
Definition sent_entry (peerId : jstr) (e : buffer * Flush) : N () := emit (OSend peerId e.1) ;; run_flush e.2.

Definition _transportSendWithRetry (W : World) (peerId : jstr) (serialized : buffer) (flush : Flush) : N bool :=
  n ← get;
  let '(ok, q, sent) := transportSendWithRetry (n_strict n) (n_retryMax n) (tm_connected W peerId) (tm_accepts W)
                          peerId (serialized, flush) (n_retry n) in
  modify (λ n, n <| n_retry := q |>) ;;
  for_each (sent_entry peerId) sent ;;
  mret ok.

(** [answers]: what the transport says to each packet it is offered. *)
Definition _drainSendRetryQueue (peerId : jstr) (answers : list (option bool)) : N () :=
  n ← get;
  let '(q, sent) := drainSendRetryQueue peerId answers (n_retry n) in
  modify (λ n, n <| n_retry := q |>) ;;
  for_each (sent_entry peerId) sent.

Definition ws_has (W : World) (peerId : jstr) : bool :=
  match ws_connected W with Some f => f peerId | None => false end.

Definition _rawSend (W : World) (peerId : jstr) (data : buffer) : N bool :=
  if ws_has W peerId then when (ws_accepts W) (emit (OWsSend peerId data)) ;; mret (ws_accepts W)
  else if tm_connected W peerId then _transportSendWithRetry W peerId data FlushNone
  else mret false.

(** The keys of a route; [None] when one is missing. *)
Fixpoint route_with_keys (route : list jstr) : N (option (list (jstr * buffer))) :=
  match route with
  | [] => mret (Some [])
  | nodeId :: rest =>
      k ← session_key nodeId;
      match k with
      | None => mret None
      | Some sessionKey => rk ← route_with_keys rest; mret (cons (nodeId, sessionKey) <$> rk)
      end
  end.

Definition _sendThroughMesh (pl : buffer) (route : list jstr) (exitNode : jstr) : N () :=
  rk ← route_with_keys route;
  match rk with
  | None => skip
  | Some routeWithKeys =>
      n ← get;
      let packetMeta := MkMeta (if n_directMode n then PacketType.DATA_DIRECT else PacketType.DATA)
                          (n_nodeId n) exitNode route in
      emit (OSubmitTx (MkTxJob pl routeWithKeys packetMeta (n_directMode n)) ClientTx)
  end.

Definition _handleOutboundPacket (W : World) (ipPacket : buffer) : N () :=
  n ← get;
  if negb (n_running n) then skip
  else
    parsed ← lift (parseIPPacket ipPacket);
    match parsed with
    | IpOk p =>
        if negb (starts_with (js "10.200.") (srcIp p)) then skip
        else if bool_decide (Some (srcIp p) = n_virtualIp n) && bool_decide (Some (dstIp p) = n_virtualIp n) then skip
        else
          let '(routeInfo, router) := findRouteToExit (w_now W) None (n_router n) in
          modify (λ n, n <| n_router := router |>) ;;
          match routeInfo with
          | None => skip
          | Some (route, exitNode) => _sendThroughMesh ipPacket route exitNode
          end
    | _ => skip
    end.

(** ** The exit's side *)

(** [${srcIp}:${srcPort}:${dstIp}:${dstPort}:${protocol}] *)
Definition mappingKey (srcIp : jstr) (srcPort : Z) (dstIp : jstr) (dstPort protocol : Z) : jstr :=
  srcIp ++ 58 :: num_str srcPort ++ 58 :: dstIp ++ 58 :: num_str dstPort ++ 58 :: num_str protocol.

(** The code catches what the parse throws: nothing ([parseIPPacket_total]). *)
Definition _processExitPacket (W : World) (srcNode : option jstr) (pl : buffer) : N () :=
  n ← get;
  if n_userspace n then emit (ONat pl srcNode)
  else
    match n_tun n with
    | None => skip
    | Some _ =>
        parsed ← lift (parseIPPacket pl);
        match parsed with
        | IpOk p =>
            let key := mappingKey (srcIp p) (srcPort p) (dstIp p) (dstPort p) (protocol p) in
            modify (λ n, n <| n_natMappings ::= om_set key (MkNatMapping srcNode (w_now W)) |>) ;;
            emit (OTun pl)
        | _ => skip
        end
    end.

Definition _buildExitTxArgs (targetNodeId : jstr) (ipPacket : buffer) (route : list jstr) : N (option TxJob) :=
  n ← get;
  let useDirectMode := (length route =? 1)%nat in
  rk ← route_with_keys (if useDirectMode then [targetNodeId] else route);
  match rk with
  | None => mret None
  | Some routeWithKeys =>
      let packetMeta := MkMeta (if useDirectMode then PacketType.DATA_DIRECT else PacketType.DATA)
                          (n_nodeId n) targetNodeId route in
      mret (Some (MkTxJob ipPacket routeWithKeys packetMeta useDirectMode))
  end.

Definition settle_exit (done : option nat) : N () :=
  match done with Some i => modify (λ n, n <| n_exitChains ::= ch_settle i |>) | None => skip end.
Definition settle_rx (done : option nat) : N () :=
  match done with Some i => modify (λ n, n <| n_rxChains ::= ch_settle i |>) | None => skip end.

(** [runExitTx(done)] *)
Definition run_exit_tx (t : ExitTask) (done : option nat) : N () :=
  args ← _buildExitTxArgs (et_target t) (et_packet t) (et_route t);
  match args with
  | None => settle_exit done
  | Some j => emit (OSubmitTx j (ExitTx (et_target t) (et_ws t) done))
  end.
(** The chain [i] of responses takes its next turn. *)
Definition exit_turn (i : nat) : N () :=
  n ← get;
  let '(t, c) := ch_next i (n_exitChains n) in
  modify (λ n, n <| n_exitChains := c |>) ;;
  match t with Some t => run_exit_tx t (Some i) | None => skip end.

Definition _sendExitResponse (W : World) (targetNodeId : jstr) (ipPacket : buffer) : N () :=
  n ← get;
  let wsConnected := ws_has W targetNodeId in
  let respond (route : list jstr) (useWsOnlyPath : bool) : N () :=
    let t := MkExitTask targetNodeId ipPacket route useWsOnlyPath in
    if n_alive n then modify (λ n, n <| n_exitChains ::= ch_enqueue targetNodeId t |>)
    else run_exit_tx t None in
  match found (findShortestPath (graph (n_router n)) (n_nodeId n) targetNodeId []) with
  | Some (_ :: ((_ :: _) as route)) => respond route false
  | _ => when wsConnected (respond [targetNodeId] true)
  end.

Definition _handleExitTunPacket (W : World) (packet : buffer) : N () :=
  parsed ← lift (parseIPPacket packet);
  match parsed with
  | IpOk p =>
      if starts_with (js "10.200.") (dstIp p) then
        n ← get;
        match om_get (mappingKey (dstIp p) (dstPort p) (srcIp p) (srcPort p) (protocol p)) (n_natMappings n) with
        | None => skip
        | Some mapping => _sendExitResponse W (default [] (nm_srcNodeId mapping)) packet
        end
      else skip
  | _ => skip
  end.

(** ** The callbacks of [submitTx] *)

Definition onTx (W : World) (cb : TxCallback) (r : outcome TxResult) : N () :=
  match cb, r with
  | ClientTx, Throw _ => skip
  | ClientTx, Ret r =>
      _ ← _transportSendWithRetry W (default [] (tr_nextHop r)) (tr_serialized r) (FlushTx (tr_payloadLen r)); skip
  | ExitTx _ _ done, Throw _ => settle_exit done
  | ExitTx target true done, Ret r =>
      when (ws_accepts W && ws_has W target)
        (emit (OWsSend target (tr_serialized r)) ;; run_flush (FlushTx (tr_payloadLen r))) ;;
      settle_exit done
  | ExitTx _ false done, Ret r =>
      _ ← _transportSendWithRetry W (default [] (tr_nextHop r)) (tr_serialized r) (FlushTx (tr_payloadLen r));
      settle_exit done
  end.

(** ** Receiving *)

Definition _isPacketDuplicate (W : World) (flowId : jstr) (seq : Z) : N bool :=
  n ← get;
  let key := flowId ++ 58 :: num_str seq in
  if om_has key (n_processed n) then mret true
  else modify (λ n, n <| n_processed ::= om_set key (w_now W) |>) ;; mret false.

Definition _processReorderedPacket (pl : buffer) : N () :=
  modify (λ n, n <| n_traffic ::= λ t, t <| bytesReceived ::= Z.add (blen pl) |> <| packetsReceived ::= Z.succ |> |>) ;;
  n ← get;
  when (default false (n_tun n)) (emit (OTun pl)) ;;
  emit (OReceived pl).

(** [reorderBuffer.addPacket] and its [packet] event; the buffer does not read the
    path and the time of a packet. *)
Definition reorder_add (W : World) (flowId : jstr) (seq : Z) (pl : buffer) (pathIndex totalPaths : option nat) : N () :=
  n ← get;
  let '(l, b) := rb_addPacket (w_now W) (MkSP flowId seq pathIndex totalPaths (MkExitPath [] [] 0) pl 0) (n_reorder n) in
  modify (λ n, n <| n_reorder := b |>) ;;
  for_each (λ p, _processReorderedPacket (sp_payload p)) l.

Definition _forwardPacket (W : World) (originalPacket : Packet) (nextHop : jstr) (newPayload : buffer)
    (fromPeerId : jstr) : N () :=
  if bool_decide (nextHop = fromPeerId) then split_horizon_dropped
  else if bool_decide (Some nextHop = srcNode originalPacket) then loop_dropped
  else
    forwardPacket ← new_pkt W (options_of originalPacket);
    let forwardPacket := incrementHop (set_payload forwardPacket newPayload) in
    serialized ← lift (serialize forwardPacket);
    _ ← _transportSendWithRetry W nextHop serialized FlushForward;
    skip.

Definition rx_options (m : RxMeta) : PacketOptions :=
  MkOptions None None (Some (rm_flowId m)) (Some (rm_seq m)) (Some (rm_hop m)) (Some (rm_ttl m))
    (rm_srcNode m) (rm_dstNode m) (Some (rm_route m)) None None None.

(** The checks every onion packet passes; the packet to go on with. *)
Definition admit_packet (W : World) (pkt : Packet) : N (option Packet) :=
  if isTTLExpired pkt then ttl_dropped ;; mret None
  else
    dup ← _isPacketDuplicate W (MeshPacket.flowId pkt) (seq pkt);
    if (dup : bool) then duplicate_dropped ;; mret None
    else
      n ← get;
      if hasVisited (n_nodeId n) pkt then loop_dropped ;; mret None
      else
        let '(alive, pkt) := decrementTTL (addVisitedNode (n_nodeId n) pkt) in
        if alive then mret (Some pkt) else ttl_dropped ;; mret None.

(** Where the peeled layer of an onion packet goes. *)
Definition route_layer (W : World) (pkt : Packet) (flowId : jstr) (seq : Z) (dst : option jstr) (exit : bool)
    (next : option jstr) (pl : buffer) (peerId : jstr) : N () :=
  n ← get;
  if exit then
    if n_isExit n then _processExitPacket W (srcNode pkt) pl
    else if n_isClient n && bool_decide (dst = Some (n_nodeId n)) then
      reorder_add W flowId seq pl (Some 0%nat) (Some 1%nat)
    else skip
  else
    match next with
    | Some ((_ :: _) as hop) => _forwardPacket W pkt hop pl peerId
    | _ => skip
    end.

Definition _handleRxWorkerResult (W : World) (result : RxResult) : N () :=
  match result with
  | RxData peerId pl exit next m =>
      processed ;;
      pkt ← new_pkt W (rx_options m);
      ok ← admit_packet W pkt;
      match ok with
      | None => skip
      | Some pkt => route_layer W pkt (rm_flowId m) (rm_seq m) (rm_dstNode m) exit next pl peerId
      end
  | RxDirect peerId pl m =>
      processed ;;
      n ← get;
      if n_isExit n then
        pkt ← new_pkt W (rx_options m);
        _processExitPacket W (srcNode pkt) pl
      else when (n_isClient n) (reorder_add W (rm_flowId m) (rm_seq m) pl None None)
  | RxPassthrough _ _ => skip
  end.

(** The callback of [submitRx]; [finally] settles the chain, an error of the handler
    goes on. *)
Definition onRx (W : World) (cb : RxCallback) (r : outcome RxResult) : N () :=
  let '(RxDone done) := cb in
  try_catch
    (match r with Throw _ => skip | Ret r => _handleRxWorkerResult W r end)
    (λ e, settle_rx done ;; lift (A:=()) (Throw e)) ;;
  settle_rx done.

Section receive.
(** [JSON.parse] on the id lists of a legacy packet. *)
Context (json_ids : jstr → outcome (list jstr)).
Context `{Aead}.

Definition deserialize_pkt (W : World) (data : buffer) : N Packet := λ n,
  match deserialize json_ids (w_now W) (g_prefix (n_gen n)) (g_counter (n_gen n)) data with
  | Ret (p, c) => (Ret p, n <| n_gen := MkGen (g_prefix (n_gen n)) c |>)
  | Throw e => (Throw e, n)
  end.

Definition _handleDirectDataPacket (W : World) (peerId : jstr) (packet : Packet) : N () :=
  processed ;;
  n ← get;
  if negb (bool_decide (dstNode packet = Some (n_nodeId n))) then
    serialized ← lift (serialize packet);
    _ ← _transportSendWithRetry W (default [] (dstNode packet)) serialized FlushNone;
    skip
  else
    try_catch
      (sessionKey ← session_key (default [] (srcNode packet));
       match sessionKey with
       | None => skip
       | Some key =>
           pl ← lift (decrypt (Buf (MeshPacket.payload packet)) key);
           if n_isExit n then _processExitPacket W (srcNode packet) pl
           else when (n_isClient n) (reorder_add W (MeshPacket.flowId packet) (seq packet) pl None None)
       end)
      (λ _, skip).

Definition _handlePing (W : World) (peerId : jstr) (packet : Packet) : N () :=
  n ← get;
  pongPacket ← new_pkt W (MkOptions None (Some PacketType.PONG) None None None None (Some (n_nodeId n)) (Some peerId)
                            None None None (Some (utf8_encode (num_str (timestamp packet)))));
  b ← lift (serialize pongPacket);
  _ ← _rawSend W peerId b;
  skip.

(** A latency that is not a number counts as no latency, as 0 does. *)
Definition _handlePong (W : World) (peerId : jstr) (packet : Packet) : N () :=
  let latency := Z.sub (w_now W) <$> parse_int (utf8_decode (MeshPacket.payload packet)) in
  modify (λ n, n <| n_router ::= router_updateEdgeMetrics (w_now W) peerId (MkMetrics (Some (default 0 latency)) None 0) |>) ;;
  emit (OPong peerId latency).

Definition _handleAck (W : World) (peerId : jstr) (packet : Packet) : N () :=
  modify (λ n, n <| n_scheduler ::= recordAck peerId (w_now W - timestamp packet) |>).

Definition submit_rx (data key peerId : buffer) (packetType : Z) (done : option nat) : N bool :=
  emit (OSubmitRx (MkRxJob data key peerId packetType) (RxDone done)) ;; mret false.

(** Whether the returned promise is settled; otherwise its callback settles [done]. *)
Definition _processIncomingMessage (W : World) (peerId : jstr) (data : buffer) (done : option nat) : N bool :=
  if blen data <? 2 then mret true
  else
    let peeked := byte_at 1 data in
    n ← get;
    if peeked =? PacketType.DATA then
      key ← session_key peerId;
      match key with
      | None => mret true
      | Some sessionKey => submit_rx data sessionKey peerId PacketType.DATA done
      end
    else if peeked =? PacketType.DATA_DIRECT then
      if (58 <=? blen data) && negb (bool_decide (read_id 42 data = n_nodeId n)) then
        packet ← try_catch (p ← deserialize_pkt W data; mret (Some p)) (λ _, mret None);
        match packet with
        | None => mret true
        | Some packet => _handleDirectDataPacket W peerId packet ;; mret true
        end
      else
        let srcNode := if 42 <=? blen data then Some (read_id 26 data) else None in
        key ← match srcNode with Some ((_ :: _) as src) => session_key src | _ => mret None end;
        match key with
        | None => mret true
        | Some key => submit_rx data key peerId PacketType.DATA_DIRECT done
        end
    else
      try_catch
        (packet ← deserialize_pkt W data;
         if type packet =? PacketType.PING then _handlePing W peerId packet
         else if type packet =? PacketType.PONG then _handlePong W peerId packet
         else if type packet =? PacketType.ACK then _handleAck W peerId packet
         else skip)
        (λ _, skip) ;;
      mret true.

Definition _handleIncomingMessage (W : World) (peerId : jstr) (data : buffer) : N () :=
  n ← get;
  if n_strict n then modify (λ n, n <| n_rxChains ::= ch_enqueue peerId data |>)
  else
    _ ← _processIncomingMessage W peerId data None; skip.

(** The chain [i] of a peer's messages takes its next turn; an error is logged. *)
Definition rx_turn (W : World) (peerId : jstr) (i : nat) : N () :=
  n ← get;
  let '(data, c) := ch_next i (n_rxChains n) in
  modify (λ n, n <| n_rxChains := c |>) ;;
  match data with
  | None => skip
  | Some data =>
      settled ← try_catch (_processIncomingMessage W peerId data (Some i)) (λ _, mret true);
      when settled (settle_rx (Some i))
  end.

(** [_handleDataPacket], which no code calls: the checks and the peeling of
    [_processIncomingMessage] and [_handleRxWorkerResult] in one place. *)
Definition _handleDataPacket (W : World) (peerId : jstr) (packet : Packet) : N () :=
  processed ;;
  ok ← admit_packet W packet;
  match ok with
  | None => skip
  | Some packet =>
      key ← session_key peerId;
      match key with
      | None => skip
      | Some sessionKey =>
          try_catch
            (layer ← lift (peelOnionLayer (MeshPacket.payload packet) sessionKey);
             route_layer W packet (MeshPacket.flowId packet) (seq packet) (dstNode packet) (isExit layer) (nextHop layer)
               (payload layer) peerId)
            (λ _, skip)
      end
  end.

Definition sendPing (W : World) (peerId : jstr) : N bool :=
  n ← get;
  pingPacket ← new_pkt W (MkOptions None (Some PacketType.PING) None None None None (Some (n_nodeId n)) (Some peerId)
                            None None None None);
  b ← lift (serialize pingPacket);
  _transportSendWithRetry W peerId b FlushNone.
End receive.

(** ** Housekeeping *)

(** The interval of [_startCacheCleanup]. *)
Definition _cleanupTcpConnections (W : World) : N () :=
  modify (λ n, n <| n_tcp ::= om_delete_if (λ _ c, n_tcpTimeout n <? w_now W - tc_lastUsed c) |>) ;;
  modify (λ n, n <| n_natMappings ::= om_delete_if (λ _ m, n_natTimeout n <? w_now W - nm_createdAt m) |>).
Definition cache_cleanup (W : World) : N () :=
  modify (λ n, n <| n_processed ::= om_delete_if (λ _ t, n_cacheTTL n <? w_now W - t) |>) ;;
  _cleanupTcpConnections W.

Definition _getTcpConnectionKey (srcNodeId srcIp : jstr) (srcPort : Z) (dstIp : jstr) (dstPort : Z) : jstr :=
  srcNodeId ++ 58 :: srcIp ++ 58 :: num_str srcPort ++ 58 :: dstIp ++ 58 :: num_str dstPort.
(** [seed] is [randomInt(0, 0xFFFFFFFF)]. *)
Definition _getOrCreateTcpConnection (W : World) (seed : Z) (key : jstr) : N TcpConnection :=
  n ← get;
  let conn := default (MkTcpConn seed 0 (w_now W)) (om_get key (n_tcp n)) in
  let conn := MkTcpConn (tc_seqNum conn) (tc_ackNum conn) (w_now W) in
  modify (λ n, n <| n_tcp ::= om_set key conn |>) ;;
  mret conn.
Definition _getTcpSeqNum (W : World) (seed : Z) (key : jstr) : N Z :=
  conn ← _getOrCreateTcpConnection W seed key; mret (tc_seqNum conn).
Definition _getTcpAckNum (W : World) (seed : Z) (key : jstr) : N Z :=
  conn ← _getOrCreateTcpConnection W seed key; mret (tc_ackNum conn).
Definition _updateTcpSeqNum (W : World) (seed : Z) (key : jstr) (dataLength : Z) : N () :=
  conn ← _getOrCreateTcpConnection W seed key;
  modify (λ n, n <| n_tcp ::= om_set key (MkTcpConn (uint32 (tc_seqNum conn + dataLength)) (tc_ackNum conn) (tc_lastUsed conn)) |>).
Definition _updateTcpAckNum (W : World) (seed : Z) (key : jstr) (seqNum dataLength : Z) : N () :=
  conn ← _getOrCreateTcpConnection W seed key;
  modify (λ n, n <| n_tcp ::= om_set key (MkTcpConn (tc_seqNum conn) (uint32 (seqNum + dataLength)) (tc_lastUsed conn)) |>).

Definition _updateMultipathRoutes : N () :=
  n ← get;
  let paths := findMultiplePaths 3 (n_router n) in
  when (0 <? length paths)%nat (modify (λ n, n <| n_scheduler ::= setPaths paths |>)).

(** ** Events of the other components *)

(** [discovery.on('peer-connected')]: [info] is the peer's record if discovery has
    it, [turn] whether the connection goes through a TURN relay, asked of WebRTC only. *)
Definition on_peer_connected (W : World) (peerId : jstr) (info : option NodeOpts) (turn : option bool) : N () :=
  (match info with Some i => modify (λ n, n <| n_router ::= addLocalConnection (w_now W) peerId i |>) | None => skip end) ;;
  (match turn with
   | Some t => modify (λ n, n <| n_router ::= router_updateEdgeMetrics (w_now W) peerId (MkMetrics None (Some t) 0) |>)
   | None => skip
   end) ;;
  _updateMultipathRoutes.
Definition on_peer_disconnected (W : World) (peerId : jstr) : N () :=
  modify (λ n, n <| n_router ::= removeLocalConnection (w_now W) peerId |>) ;;
  modify (λ n, n <| n_retry ::= clearSendRetryQueue peerId |>) ;;
  modify (λ n, n <| n_rxChains ::= ch_delete peerId |>) ;;
  modify (λ n, n <| n_exitChains ::= ch_delete peerId |>) ;;
  _updateMultipathRoutes.
Definition on_topology (W : World) (topology : omap jstr TopoInfo) : N () :=
  modify (λ n, n <| n_router ::= updateTopology (w_now W) topology |>) ;;
  _updateMultipathRoutes.
(** The WebSocket data server's peers. *)
Definition on_ws_connected (W : World) (peerId : jstr) (info : NodeOpts) : N () :=
  modify (λ n, n <| n_router ::= addLocalConnection (w_now W) peerId info |>).
Definition on_ws_disconnected (W : World) (peerId : jstr) : N () :=
  modify (λ n, n <| n_router ::= removeLocalConnection (w_now W) peerId |>).

Definition resetLoopStats : N () := modify (λ n, n <| n_loop := loop_zero |>).

(** What [stop] does to this state. *)
Definition stop : N () :=
  modify (λ n, n <| n_running := false |> <| n_router ::= router_stop |> <| n_reorder ::= rb_stop |> <| n_retry := [] |>
                 <| n_rxChains ::= ch_clear |> <| n_exitChains ::= ch_clear |> <| n_alive := false |>
                 <| n_processed := [] |> <| n_tcp := [] |>).
