(* ===== verification/NodeFlow.v ===== *)
(** * Packets through the nodes (theorems about Node.v)

    A packet of a client's TUN reaches the exit, the response comes back, a relay
    forwards with care, and no packet is forwarded for ever.  Each theorem states
    what every stage does in any state of its node that is ready for it, so other
    packets may be handled between the stages. *)

From S2P Require Import Prelude JsMap Bytes JsString Effects Fifo MeshPacket IpPacket Search Graph Router Scheduler.
From S2P Require Import Crypto Onion SendRetry Chains Pipeline Node.
Local Open Scope Z_scope.
#[local] Unset Default Proof Using.

(** [m] returns [a] and the node emits [os]. *)
Definition emits {A} (m : N A) (n : MeshNode) (a : A) (os : list Out) : Prop :=
  ∃ n', m n = (Ret a, n') ∧ n_out n' = n_out n ++ os.

Lemma emits_intro {A} (m : N A) n a os :
  wp m (λ a' n', a' = a ∧ n_out n' = n_out n ++ os) n → emits m n a os.
Proof. intros H. apply wp_run in H as (a' & Hm & -> & Ho). by eexists. Qed.

Lemma wp_out o (Q : () → MeshNode → Prop) n :
  Q tt (n <| n_out ::= λ l, l ++ [o] |>) → wp (emit o) Q n.
Proof. done. Qed.

(** ** Sending *)

(** A peer the transport takes packets for, with nothing waiting. *)
Definition open_to (W : World) (n : MeshNode) (peerId : jstr) : Prop :=
  tm_connected W peerId = true ∧ tm_accepts W = true ∧ queue_of peerId (n_retry n) = [].

Lemma run_flush_out f n : wp (run_flush f) (λ _ n', n_out n' = n_out n) n.
Proof. by destruct f. Qed.

Lemma send_open W peerId b f n : open_to W n peerId →
  wp (_transportSendWithRetry W peerId b f) (λ ok n', ok = true ∧ n_out n' = n_out n ++ [OSend peerId b]) n.
Proof.
  intros (Hc & Ha & Hq). unfold _transportSendWithRetry. apply wp_bind, wp_get.
  assert (transportSendWithRetry (n_strict n) (n_retryMax n) (tm_connected W peerId) (tm_accepts W) peerId (b, f)
    (n_retry n) = (true, n_retry n, [(b, f)])) as ->.
  { unfold transportSendWithRetry, queue_of in *. rewrite Hc Ha /=. destruct (n_strict n); [|done].
    by destruct (om_get peerId (n_retry n)) as [[|]|]. }
  apply wp_bind, wp_modify. apply wp_bind. cbn [for_each]. apply wp_bind. unfold sent_entry. apply wp_bind, wp_out.
  eapply wp_mono; [apply run_flush_out|]. intros [] n1 H1. apply wp_ret, wp_ret. by rewrite H1.
Qed.

(** In general: the packet is sent now, or not; and what else stays. *)
Lemma send_spec W p b f n :
  wp (_transportSendWithRetry W p b f) (λ _ n', (n_out n' = n_out n ∨ n_out n' = n_out n ++ [OSend p b]) ∧
    n_exitChains n' = n_exitChains n ∧ n_processed n' = n_processed n) n.
Proof.
  unfold _transportSendWithRetry. apply wp_bind, wp_get.
  destruct (transportSendWithRetry _ _ _ _ _ _ _) as [[ok q] sent] eqn:E.
  assert (sent = [] ∨ sent = [(b, f)]) as Hs.
  { unfold transportSendWithRetry in E. repeat case_in E; simplify_eq; auto. }
  apply wp_bind, wp_modify, wp_bind. destruct Hs as [-> | ->]; cbn [for_each].
  - apply wp_ret, wp_ret. split_and!; auto.
  - apply wp_bind. unfold sent_entry. apply wp_bind, wp_out.
    assert (∀ n0, wp (run_flush f) (λ _ n', n_out n' = n_out n0 ∧ n_exitChains n' = n_exitChains n0 ∧
      n_processed n' = n_processed n0) n0) as Hf by (intros; by destruct f).
    eapply wp_mono; [apply Hf|]. intros [] n1 Hn1. apply wp_ret, wp_ret. destruct Hn1 as (-> & -> & ->). split_and!; auto.
Qed.

Lemma one_route_key nodeId k n : getSessionKey nodeId (n_sessions n) = Some k →
  wp (route_with_keys [nodeId]) (λ rk n', rk = Some [(nodeId, k)] ∧ n' = n) n.
Proof.
  intros Hk. cbn [route_with_keys]. apply wp_bind. unfold session_key. apply wp_gets. rewrite Hk.
  apply wp_bind, wp_ret, wp_ret. done.
Qed.

(** ** The client's outbound packet *)

(** A packet the client tunnels: of the mesh's address range, not to itself. *)
Definition tunnelled (c : MeshNode) (p : IpInfo) : Prop :=
  starts_with (js "10.200.") (srcIp p) = true ∧ ¬ (n_virtualIp c = Some (srcIp p) ∧ n_virtualIp c = Some (dstIp p)).

Definition mesh_meta (n : MeshNode) (exitNode : jstr) (route : list jstr) : PacketMeta :=
  MkMeta (if n_directMode n then PacketType.DATA_DIRECT else PacketType.DATA) (n_nodeId n) exitNode route.

Lemma outbound_submits W c pkt p exit k : n_running c = true → parseIPPacket pkt = Ret (IpOk p) → tunnelled c p →
  fst (findRouteToExit (w_now W) None (n_router c)) = Some ([exit], exit) →
  getSessionKey exit (n_sessions c) = Some k →
  emits (_handleOutboundPacket W pkt) c tt
    [OSubmitTx (MkTxJob pkt [(exit, k)] (mesh_meta c exit [exit]) (n_directMode c)) ClientTx].
Proof.
  intros Hr Hp [Hs Hself] Hroute Hk. apply emits_intro. unfold _handleOutboundPacket.
  apply wp_bind, wp_get. rewrite Hr. cbn [negb]. apply wp_bind. eapply wp_lift; [exact Hp|]. cbn match.
  rewrite Hs. cbn [negb].
  assert (bool_decide (Some (srcIp p) = n_virtualIp c) && bool_decide (Some (dstIp p) = n_virtualIp c) = false) as ->.
  { apply andb_false_iff. destruct (decide (n_virtualIp c = Some (srcIp p))) as [E|E].
    - right. apply bool_decide_eq_false. intros E'. apply Hself. split; congruence.
    - left. apply bool_decide_eq_false. congruence. }
  destruct (findRouteToExit _ _ _) as [ri r]. simpl in Hroute. subst ri.
  apply wp_bind, wp_modify. unfold _sendThroughMesh. apply wp_bind.
  eapply wp_mono; [apply one_route_key; exact Hk|]. intros rk n' [-> ->].
  apply wp_bind, wp_get, wp_out. done.
Qed.

Lemma client_tx_sends W c exit r : open_to W c exit → tr_nextHop r = Some exit →
  emits (onTx W ClientTx (Ret r)) c tt [OSend exit (tr_serialized r)].
Proof.
  intros Ho Hh. apply emits_intro. cbn [onTx]. apply wp_bind. rewrite Hh.
  eapply wp_mono; [by apply send_open|]. intros ok n' [_ Hn']. by apply wp_ret.
Qed.

(** ** Receiving *)

Section receive.
Context `{Aead} (json_ids : jstr → outcome (list jstr)).

Lemma submit_rx_emits data key peerId t done n :
  wp (submit_rx data key peerId t done) (λ settled n', settled = false ∧
    n_out n' = n_out n ++ [OSubmitRx (MkRxJob data key peerId t) (RxDone done)]) n.
Proof. unfold submit_rx. apply wp_bind, wp_out, wp_ret. done. Qed.

(** A packet of [tx_process] for this node is handed to the pipeline with the key of
    the peer it came from (onion) or of its source (direct). *)
Lemma incoming_submits W n peerId done p k :
  fields_fit p → ids_fit p → dstNode p = Some (n_nodeId n) →
  (type p = PacketType.DATA ∧ getSessionKey peerId (n_sessions n) = Some k ∨
   type p = PacketType.DATA_DIRECT ∧ srcNode p ≠ Some [] ∧
     ∃ src, srcNode p = Some src ∧ getSessionKey src (n_sessions n) = Some k) →
  emits (_processIncomingMessage json_ids W peerId (layout p) done) n false
    [OSubmitRx (MkRxJob (layout p) k peerId (type p)) (RxDone done)].
Proof.
  intros Hf Hi Hd Ht. destruct (layout_peek p Hf Hi) as (Hlen & Hpeek & Hsrc & Hdst).
  apply emits_intro. unfold _processIncomingMessage.
  rewrite (proj2 (Z.ltb_ge (blen (layout p)) 2)); [|unfold blen; lia]. rewrite Hpeek.
  apply wp_bind, wp_get. destruct Ht as [[-> Hk]|(-> & Hne & src & Hs & Hk)]; cbn match.
  - apply wp_bind. unfold session_key. apply wp_gets. rewrite Hk. apply submit_rx_emits.
  - rewrite Hdst Hd. cbn [default from_option]. rewrite bool_decide_true // andb_false_r.
    rewrite (proj2 (Z.leb_le 42 (blen (layout p)))); [|unfold blen; lia]. rewrite Hsrc Hs. cbn [default from_option].
    destruct src as [|x src]; [congruence|]. apply wp_bind. unfold session_key. apply wp_gets. rewrite Hk.
    apply submit_rx_emits.
Qed.

(** A [finally] around a handler that returns. *)
Lemma onRx_returns W done r n n' os :
  _handleRxWorkerResult W r n = (Ret tt, n') → n_out n' = n_out n ++ os →
  ∃ n'', onRx W (RxDone done) (Ret r) n = (Ret tt, n'') ∧ n_out n'' = n_out n ++ os ∧
    n_natMappings n'' = n_natMappings n'.
Proof.
  intros Hr Ho. unfold onRx, try_catch, mbind, SM_bind. rewrite Hr. destruct done; by eexists.
Qed.
End receive.

(** ** The exit *)

(** What an exit does with a client's packet. *)
Definition exit_output (e : MeshNode) (client : jstr) (pkt : buffer) : list Out :=
  if n_userspace e then [ONat pkt (Some client)]
  else match n_tun e with Some _ => [OTun pkt] | None => [] end.

(** With the system's NAT, the exit remembers whose packet it was. *)
Definition remembers (W : World) (e e' : MeshNode) (client : jstr) (p : IpInfo) : Prop :=
  n_userspace e = false → is_Some (n_tun e) →
  om_get (mappingKey (srcIp p) (srcPort p) (dstIp p) (dstPort p) (protocol p)) (n_natMappings e') =
    Some (MkNatMapping (Some client) (w_now W)).

Lemma processExit_delivers W client pkt p e : parseIPPacket pkt = Ret (IpOk p) →
  wp (_processExitPacket W (Some client) pkt)
    (λ _ e', n_out e' = n_out e ++ exit_output e client pkt ∧ remembers W e e' client p) e.
Proof.
  intros Hp. unfold _processExitPacket, exit_output, remembers. apply wp_bind, wp_get.
  destruct (n_userspace e) eqn:Hu; [by apply wp_out|].
  destruct (n_tun e) eqn:Ht; [|apply wp_ret; rewrite app_nil_r; by split; [|intros _ []]].
  apply wp_bind. eapply wp_lift; [exact Hp|]. cbn match.
  apply wp_bind, wp_modify, wp_out. split; [done|]. intros _ _. apply om_get_set_eq.
Qed.

(** The packets of the sending side have their full TTL, so a node that has not seen
    the flow id admits them. *)
Lemma admit_fresh W pkt n : ttl pkt = DEFAULT_TTL → visitedNodes pkt = [] →
  om_get (MeshPacket.flowId pkt ++ 58 :: num_str (seq pkt)) (n_processed n) = None →
  wp (admit_packet W pkt) (λ r n', ∃ pkt', r = Some pkt' ∧ srcNode pkt' = srcNode pkt ∧
    n' = n <| n_processed ::= om_set (MeshPacket.flowId pkt ++ 58 :: num_str (seq pkt)) (w_now W) |>) n.
Proof.
  intros Ht Hv Hn. unfold admit_packet, isTTLExpired. rewrite Ht. cbn match.
  apply wp_bind. unfold _isPacketDuplicate. apply wp_bind, wp_get. rewrite (proj2 (om_has_false _ _) Hn).
  apply wp_bind, wp_modify, wp_ret. cbn match. apply wp_bind, wp_get.
  unfold hasVisited, addVisitedNode, hasVisited. rewrite Hv. rewrite bool_decide_false; [|apply not_elem_of_nil].
  unfold decrementTTL. cbn [ttl set_visited]. rewrite Ht. cbn match.
  apply wp_ret. by eexists.
Qed.

(** The packet the handler rebuilds from the fields a worker reports. *)
Lemma rx_new_pkt W m n : rm_flowId m ≠ [] → rm_srcNode m ≠ Some [] → rm_dstNode m ≠ Some [] →
  wp (new_pkt W (rx_options m)) (λ pkt n', n' = n ∧
    pkt = MkPacket 1 PacketType.DATA (rm_flowId m) (rm_seq m) (rm_hop m) (rm_ttl m) (rm_srcNode m) (rm_dstNode m)
            (rm_route m) [] (w_now W) []) n.
Proof.
  intros Hf Hs Hd. unfold wp, new_pkt, new_packet, rx_options.
  cbn [o_version o_type o_flowId o_seq o_hop o_ttl o_srcNode o_dstNode o_route o_visitedNodes o_timestamp
    o_payload default].
  assert (Some (rm_flowId m) ≠ Some []) as Hf' by (by intros [= E]).
  rewrite (str_or_null_id _ Hf').
  rewrite (str_or_null_id (rm_srcNode m)) // (str_or_null_id (rm_dstNode m)) // !js_or_0. cbn.
  split; [by destruct n as [? ? ? ? ? ? ? ? ? ? [] ]|done].
Qed.

(** ** From the client to the exit *)

Definition flow_key (g : Gen) : jstr := (generateFlowId (g_prefix g) (g_counter g)).1 ++ 58 :: num_str 0.

Lemma tx_meta_normal g m : gen_ok (g_prefix g) (g_counter g) → meta_ok m →
  rm_flowId (tx_meta g m) ≠ [] ∧ rm_srcNode (tx_meta g m) ≠ Some [] ∧ rm_dstNode (tx_meta g m) ≠ Some [].
Proof.
  intros Hg (_ & [_ Hs] & [_ Hd] & _). destruct (generateFlowId_ok _ _ Hg) as [_ Hf]. unfold tx_meta; cbn [rm_flowId rm_srcNode rm_dstNode].
  split_and!; [exact Hf|by intros [= E]..].
Qed.

Lemma exit_handles_onion W e client peerId pkt p g m : gen_ok (g_prefix g) (g_counter g) → meta_ok m →
  pm_srcNode m = client → parseIPPacket pkt = Ret (IpOk p) → n_isExit e = true →
  om_get (flow_key g) (n_processed e) = None →
  wp (_handleRxWorkerResult W (RxData peerId pkt true None (tx_meta g m)))
    (λ _ e', n_out e' = n_out e ++ exit_output e client pkt ∧ remembers W e e' client p) e.
Proof.
  intros Hg Hm Hc Hp Hex Hfresh. destruct (tx_meta_normal g m Hg Hm) as (Hf & Hs & Hd).
  cbn [_handleRxWorkerResult]. apply wp_bind. apply wp_modify. apply wp_bind.
  eapply wp_mono; [by apply rx_new_pkt|]. intros q n' [-> ->].
  apply wp_bind. eapply wp_mono; [by apply admit_fresh|]. intros r n' (q & -> & Hsrc & ->). cbn match.
  unfold route_layer. apply wp_bind, wp_get. cbn [n_isExit set_field]. rewrite Hex. cbn in Hsrc. rewrite Hsrc Hc.
  eapply wp_mono; [by apply (processExit_delivers _ _ _ p)|]. intros [] n' [Ho Hr]. by split.
Qed.

Lemma exit_handles_direct W e client peerId pkt p g m : gen_ok (g_prefix g) (g_counter g) → meta_ok m →
  pm_srcNode m = client → parseIPPacket pkt = Ret (IpOk p) → n_isExit e = true →
  wp (_handleRxWorkerResult W (RxDirect peerId pkt (tx_meta g m)))
    (λ _ e', n_out e' = n_out e ++ exit_output e client pkt ∧ remembers W e e' client p) e.
Proof.
  intros Hg Hm Hc Hp Hex. destruct (tx_meta_normal g m Hg Hm) as (Hf & Hs & Hd).
  cbn [_handleRxWorkerResult]. apply wp_bind. apply wp_modify. apply wp_bind, wp_get.
  cbn [n_isExit set_field]. rewrite Hex. apply wp_bind.
  eapply wp_mono; [by apply rx_new_pkt|]. intros q n' [-> ->]. cbn [srcNode rm_srcNode tx_meta]. rewrite Hc.
  eapply wp_mono; [by apply (processExit_delivers _ _ _ p)|]. intros [] n' [Ho Hr]. by split.
Qed.

(** *** A link of one hop *)

Definition hop_meta (direct : bool) (src dst : jstr) : PacketMeta :=
  MkMeta (if direct then PacketType.DATA_DIRECT else PacketType.DATA) src dst [dst].
Definition hop_job (direct : bool) (src dst : jstr) (k pkt : buffer) : TxJob :=
  MkTxJob pkt [(dst, k)] (hop_meta direct src dst) direct.
Definition hop_result (direct : bool) (src dst : jstr) (pkt : buffer) (g : Gen) : RxResult :=
  if direct then RxDirect src pkt (tx_meta g (hop_meta direct src dst))
  else RxData src pkt true None (tx_meta g (hop_meta direct src dst)).

Lemma hop_meta_ok direct src dst : hop_ok src → hop_ok dst → meta_ok (hop_meta direct src dst).
Proof.
  intros Hs Hd. split_and!; try done; simpl; [by destruct direct|by destruct direct|by constructor; [apply Hd|]|lia].
Qed.

Lemma one_hop_link `{Aead} json_ids env env' g g' direct src dst k pkt :
  hop_ok src → hop_ok dst → length k = 32%nat → (∀ i, length (e_iv env i) = 12%nat) →
  gen_ok (g_prefix g) (g_counter g) → blen pkt < 2 ^ 32 - 64 →
  ∃ c, blen c < 2 ^ 32 ∧
    let s := layout (tx_packet (e_now env) g (hop_meta direct src dst) c) in
    tx_process env g (hop_job direct src dst k pkt) =
      (Ret (MkTxResult s (Some dst) (blen pkt)), MkGen (g_prefix g) (g_counter g + 1)) ∧
    rx_process json_ids env' g' (MkRxJob s k src (pm_type (hop_meta direct src dst))) =
      (Ret (hop_result direct src dst pkt g), g').
Proof.
  intros Hs Hd Hk Hiv Hg Hl. pose proof (hop_meta_ok direct src dst Hs Hd) as Hm.
  assert (job_ok (hop_job direct src dst k pkt)) as Hj.
  { split_and!; try done; [by constructor|]. unfold wrapped_length, blen in *. simpl. lia. }
  destruct direct.
  - destruct (direct_link json_ids env env' g g' (hop_job true src dst k pkt) dst k src) as (c & Hcl & Ht & Hr);
      [done..|]. by exists c.
  - destruct (onion_link json_ids env env' g g' (hop_job false src dst k pkt) dst k [] src)
      as (c & inner & Hcl & Ht & Hr & Htr); [done..|by left|]. simpl in Htr. injection Htr as ->. by exists c.
Qed.

Lemma exit_handles W done e client exit pkt p g direct : gen_ok (g_prefix g) (g_counter g) → hop_ok client → hop_ok exit →
  parseIPPacket pkt = Ret (IpOk p) → n_isExit e = true →
  direct = true ∨ om_get (flow_key g) (n_processed e) = None →
  ∃ e', onRx W (RxDone done) (Ret (hop_result direct client exit pkt g)) e = (Ret tt, e') ∧
    n_out e' = n_out e ++ exit_output e client pkt ∧ remembers W e e' client p.
Proof.
  intros Hg Hc Hx Hp Hex Hfresh. pose proof (hop_meta_ok direct client exit Hc Hx) as Hm.
  assert (wp (_handleRxWorkerResult W (hop_result direct client exit pkt g)) (λ _ e',
    n_out e' = n_out e ++ exit_output e client pkt ∧ remembers W e e' client p) e) as Hwp.
  { destruct direct; [by apply exit_handles_direct|]. destruct Hfresh; [done|]. by apply exit_handles_onion. }
  apply wp_run in Hwp as ([] & He & Ho & Hrem).
  destruct (onRx_returns W done _ e _ _ He Ho) as (e'' & He'' & Ho'' & Hmap). exists e''. split_and!; [done..|].
  unfold remembers in *. by rewrite Hmap.
Qed.

(** C2: a client's packet reaches the exit.  For a packet of the client's TUN and a
    route of one hop, in onion and in direct mode, when both ends hold the same key:
    the client submits a job; its result, handed back, is sent to the exit over an
    open transport; the exit submits the bytes it receives; and their result, handed
    back, goes to the userspace NAT or the TUN unchanged, with the client as its
    sender, which the exit remembers for the responses.  Each stage holds in any
    state of its node, and the exit answers whether or not other packets come in
    between; an onion packet's flow id must be new to it. *)
Theorem client_reaches_exit `{Aead} json_ids (client exit : jstr) k env env' g g' pkt p (direct : bool) :
  hop_ok client → hop_ok exit → length k = 32%nat → (∀ i, length (e_iv env i) = 12%nat) →
  gen_ok (g_prefix g) (g_counter g) → blen pkt < 2 ^ 32 - 64 → parseIPPacket pkt = Ret (IpOk p) →
  ∃ j r j' rr,
    (∀ W c, n_nodeId c = client → n_directMode c = direct → n_running c = true → tunnelled c p →
      fst (findRouteToExit (w_now W) None (n_router c)) = Some ([exit], exit) →
      getSessionKey exit (n_sessions c) = Some k →
      emits (_handleOutboundPacket W pkt) c tt [OSubmitTx j ClientTx]) ∧
    (tx_process env g j).1 = Ret r ∧
    (∀ W c, open_to W c exit → emits (onTx W ClientTx (Ret r)) c tt [OSend exit (tr_serialized r)]) ∧
    (∀ W e done, n_nodeId e = exit → getSessionKey client (n_sessions e) = Some k →
      emits (_processIncomingMessage json_ids W client (tr_serialized r) done) e false [OSubmitRx j' (RxDone done)]) ∧
    (rx_process json_ids env' g' j').1 = Ret rr ∧
    (∀ W e done, n_isExit e = true → direct = true ∨ om_get (flow_key g) (n_processed e) = None →
      ∃ e', onRx W (RxDone done) (Ret rr) e = (Ret tt, e') ∧ n_out e' = n_out e ++ exit_output e client pkt ∧
        remembers W e e' client p).
Proof.
  intros Hc Hx Hk Hiv Hg Hl Hp. pose proof (hop_meta_ok direct client exit Hc Hx) as Hm.
  destruct (one_hop_link json_ids env env' g g' direct client exit k pkt) as (c & Hcl & Ht & Hr); [done..|].
  destruct (tx_packet_fits (e_now env) g _ c Hg Hm Hcl) as (Hf & Hi & _).
  set (b := layout (tx_packet (e_now env) g (hop_meta direct client exit) c)) in *.
  exists (hop_job direct client exit k pkt), (MkTxResult b (Some exit) (blen pkt)),
    (MkRxJob b k client (pm_type (hop_meta direct client exit))), (hop_result direct client exit pkt g).
  rewrite Ht Hr. split_and!; [|done| | |done|].
  - intros W cl Hid Hdm Hrun Htun Hroute Hkey.
    replace (hop_job direct client exit k pkt)
      with (MkTxJob pkt [(exit, k)] (mesh_meta cl exit [exit]) (n_directMode cl))
      by (unfold hop_job, hop_meta, mesh_meta; by rewrite Hid Hdm).
    by apply (outbound_submits W cl pkt p).
  - intros W cl Ho. by apply client_tx_sends.
  - intros W e done Hid Hkey. apply incoming_submits; [done|done|by rewrite Hid|]. destruct direct; [right|by left].
    split; [done|]. split; [|by exists client]. destruct Hc as [_ Hne]. by intros [= E].
  - intros W e done. by apply exit_handles.
Qed.

(** ** The exit's response *)

(** The way back: over the mesh when the exit has an edge to the client, else over
    the client's connection to the WebSocket data server. *)
Definition way_back (W : World) (e : MeshNode) (client : jstr) (ws : bool) : Prop :=
  let path := found (findShortestPath (graph (n_router e)) (n_nodeId e) client []) in
  if ws then path = None ∧ ws_has W client = true else path = Some [n_nodeId e; client].

Definition response_task (client pkt : buffer) (ws : bool) : ExitTask := MkExitTask client pkt [client] ws.

Lemma response_chained W e client pkt ws : n_alive e = true → way_back W e client ws →
  _sendExitResponse W client pkt e =
    (Ret tt, e <| n_exitChains ::= ch_enqueue client (response_task client pkt ws) |>).
Proof.
  intros Ha Hw. unfold _sendExitResponse, mbind, SM_bind, get. unfold way_back in Hw.
  destruct ws; [destruct Hw as [-> ->]|rewrite Hw]; cbn [when]; by rewrite Ha.
Qed.

Lemma tun_response W e client pkt p createdAt : parseIPPacket pkt = Ret (IpOk p) →
  starts_with (js "10.200.") (dstIp p) = true →
  om_get (mappingKey (dstIp p) (dstPort p) (srcIp p) (srcPort p) (protocol p)) (n_natMappings e) =
    Some (MkNatMapping (Some client) createdAt) →
  _handleExitTunPacket W pkt e = _sendExitResponse W client pkt e.
Proof.
  intros Hp Hs Hm. unfold _handleExitTunPacket, mbind, SM_bind, lift, get. rewrite Hp Hs Hm. done.
Qed.

(** A response's turn: the job is submitted. *)
Lemma response_submits e i client pkt ws ts k :
  chain_list (n_exitChains e) !! i = Some (MkChain (response_task client pkt ws :: ts) false) →
  getSessionKey client (n_sessions e) = Some k →
  emits (exit_turn i) e tt [OSubmitTx (hop_job true (n_nodeId e) client k pkt) (ExitTx client ws (Some i))].
Proof.
  intros Hch Hk. apply emits_intro. unfold exit_turn. apply wp_bind, wp_get. unfold ch_next. rewrite Hch.
  apply wp_bind, wp_modify. cbn match. unfold run_exit_tx, _buildExitTxArgs, response_task. cbn [et_target et_packet et_route et_ws].
  apply wp_bind, wp_bind, wp_get. cbn [length Nat.eqb]. apply wp_bind.
  eapply wp_mono; [apply one_route_key; exact Hk|]. intros rk n' [-> ->]. apply wp_ret, wp_out. done.
Qed.

(** The result is sent, and the chain goes on. *)
Definition response_out (ws : bool) (client : jstr) (r : TxResult) : Out :=
  if ws then OWsSend client (tr_serialized r) else OSend client (tr_serialized r).
Definition can_answer (W : World) (e : MeshNode) (client : jstr) (ws : bool) : Prop :=
  if ws then ws_has W client = true ∧ ws_accepts W = true else open_to W e client.

Lemma response_sends W e client ws i r : can_answer W e client ws → tr_nextHop r = Some client →
  ∃ e', onTx W (ExitTx client ws (Some i)) (Ret r) e = (Ret tt, e') ∧
    n_out e' = n_out e ++ [response_out ws client r] ∧ n_exitChains e' = ch_settle i (n_exitChains e).
Proof.
  intros Hc Hh.
  assert (wp (onTx W (ExitTx client ws (Some i)) (Ret r)) (λ _ e', n_out e' = n_out e ++ [response_out ws client r] ∧
    n_exitChains e' = ch_settle i (n_exitChains e)) e) as Hwp.
  { destruct ws; cbn [onTx].
    - destruct Hc as [-> ->]. cbn [andb when]. apply wp_bind, wp_bind, wp_out.
      apply wp_modify, wp_modify. done.
    - apply wp_bind. rewrite Hh. eapply wp_mono; [apply wp_and; [by apply send_open|apply send_spec]|].
      intros ok n' [[_ Ho] (_ & Hch & _)]. apply wp_modify. cbn. by rewrite Ho Hch. }
  apply wp_run in Hwp as ([] & E & Hwp). eexists. split; [exact E|exact Hwp].
Qed.

(** What a client does with a packet for it. *)
Definition client_output (c : MeshNode) (pkt : buffer) : list Out :=
  (if default false (n_tun c) then [OTun pkt] else []) ++ [OReceived pkt].

Lemma client_handles W done c src pkt g : gen_ok (g_prefix g) (g_counter g) → hop_ok src → hop_ok (n_nodeId c) →
  n_isExit c = false → n_isClient c = true →
  emits (onRx W (RxDone done) (Ret (hop_result true src (n_nodeId c) pkt g))) c tt (client_output c pkt).
Proof.
  intros Hg Hs Hd Hx Hc.
  assert (wp (_handleRxWorkerResult W (hop_result true src (n_nodeId c) pkt g))
    (λ _ c', n_out c' = n_out c ++ client_output c pkt) c) as Hwp.
  { cbn [_handleRxWorkerResult hop_result]. apply wp_bind, wp_modify, wp_bind, wp_get. cbn [n_isExit n_isClient set_field].
    rewrite Hx Hc. cbn [when]. unfold reorder_add. apply wp_bind, wp_get. unfold rb_addPacket, is_multipath.
    cbn [sp_totalPaths]. apply wp_bind, wp_modify. cbn [for_each]. apply wp_bind. unfold _processReorderedPacket.
    apply wp_bind, wp_modify, wp_bind, wp_get. cbn [n_tun set_field]. unfold client_output.
    apply wp_bind, wp_when; intros Ht; cbn in Ht; rewrite Ht.
    - apply wp_out, wp_out, wp_ret. cbn. by rewrite -(assoc_L (++)).
    - apply wp_out, wp_ret. done. }
  apply wp_run in Hwp as ([] & He & Ho). destruct (onRx_returns W done _ c _ _ He Ho) as (c'' & Hc'' & Ho'' & _).
  by exists c''.
Qed.

(** C11: the response comes back.  When a packet for a client's mesh address comes
    from the exit's TUN and the exit remembers whose flow it answers, or the
    userspace NAT hands one over, the exit chains a response for that client; at its
    turn it is submitted with the client's key and, its result handed back, sent over
    the mesh or the WebSocket server, and the chain can go on; the client submits the
    bytes and, their result handed back, puts the packet unchanged into its TUN. *)
Theorem exit_answers_client `{Aead} json_ids (client exit : jstr) k env env' g g' pkt p (ws : bool) :
  hop_ok client → hop_ok exit → length k = 32%nat → (∀ i, length (e_iv env i) = 12%nat) →
  gen_ok (g_prefix g) (g_counter g) → blen pkt < 2 ^ 32 - 64 → parseIPPacket pkt = Ret (IpOk p) →
  starts_with (js "10.200.") (dstIp p) = true →
  (∀ W e createdAt, n_alive e = true → way_back W e client ws →
    let e' := e <| n_exitChains ::= ch_enqueue client (response_task client pkt ws) |> in
    _sendExitResponse W client pkt e = (Ret tt, e') ∧
    (om_get (mappingKey (dstIp p) (dstPort p) (srcIp p) (srcPort p) (protocol p)) (n_natMappings e) =
       Some (MkNatMapping (Some client) createdAt) →
     _handleExitTunPacket W pkt e = (Ret tt, e'))) ∧
  ∃ j r j' rr,
    (∀ e i ts, n_nodeId e = exit → getSessionKey client (n_sessions e) = Some k →
      chain_list (n_exitChains e) !! i = Some (MkChain (response_task client pkt ws :: ts) false) →
      emits (exit_turn i) e tt [OSubmitTx j (ExitTx client ws (Some i))]) ∧
    (tx_process env g j).1 = Ret r ∧
    (∀ W e i, can_answer W e client ws →
      ∃ e', onTx W (ExitTx client ws (Some i)) (Ret r) e = (Ret tt, e') ∧
        n_out e' = n_out e ++ [response_out ws client r] ∧ n_exitChains e' = ch_settle i (n_exitChains e)) ∧
    (∀ W c done, n_nodeId c = client → getSessionKey exit (n_sessions c) = Some k →
      emits (_processIncomingMessage json_ids W exit (tr_serialized r) done) c false [OSubmitRx j' (RxDone done)]) ∧
    (rx_process json_ids env' g' j').1 = Ret rr ∧
    (∀ W c done, n_nodeId c = client → n_isExit c = false → n_isClient c = true →
      emits (onRx W (RxDone done) (Ret rr)) c tt (client_output c pkt)).
Proof.
  intros Hc Hx Hk Hiv Hg Hl Hp Hdst. split.
  { intros W e t Ha Hw. split; [by apply response_chained|]. intros Hm.
    rewrite (tun_response W e client pkt p t) //. by apply response_chained. }
  destruct (one_hop_link json_ids env env' g g' true exit client k pkt) as (c & Hcl & Ht & Hr); [done..|].
  destruct (tx_packet_fits (e_now env) g _ c Hg (hop_meta_ok true exit client Hx Hc) Hcl) as (Hf & Hi & _).
  set (b := layout (tx_packet (e_now env) g (hop_meta true exit client) c)) in *.
  exists (hop_job true exit client k pkt), (MkTxResult b (Some client) (blen pkt)),
    (MkRxJob b k exit (pm_type (hop_meta true exit client))), (hop_result true exit client pkt g).
  rewrite Ht Hr. split_and!; [|done| | |done|].
  - intros e i ts Hid Hkey Hch. rewrite -Hid. by eapply response_submits.
  - intros W e i Ha. by apply response_sends.
  - intros W cl done Hid Hkey. apply incoming_submits; [done|done|by rewrite Hid|]. right.
    split; [done|]. split; [|by exists exit]. destruct Hx as [_ Hne]. by intros [= E].
  - intros W cl done Hid Hxe Hcc. rewrite -Hid. apply client_handles; [done|done|by rewrite Hid|done|done].
Qed.

(** ** Relays *)

(** A packet a worker reports, whose fields fit the wire after the hop. *)
Definition meta_fits (m : RxMeta) : Prop :=
  id_ok (rm_flowId m) ∧ rm_flowId m ≠ [] ∧ id_ok (default [] (rm_srcNode m)) ∧ rm_srcNode m ≠ Some [] ∧
  id_ok (default [] (rm_dstNode m)) ∧ rm_dstNode m ≠ Some [] ∧ Forall id_ok (rm_route m) ∧
  (length (rm_route m) < 256)%nat ∧ 0 <= rm_seq m < 2 ^ 32 ∧ 0 <= rm_hop m < 65535 ∧ 0 <= rm_ttl m < 256.
#[export] Instance meta_fits_dec m : Decision (meta_fits m).
Proof. unfold meta_fits. apply _. Defined.

Definition meta_key (m : RxMeta) : jstr := rm_flowId m ++ 58 :: num_str (rm_seq m).
(** The packet a relay makes of it. *)
Definition forwarded (now : Z) (nodeId : jstr) (m : RxMeta) (pl : buffer) : Packet :=
  MkPacket 1 PacketType.DATA (rm_flowId m) (rm_seq m) (rm_hop m + 1) (rm_ttl m - 1) (rm_srcNode m) (rm_dstNode m)
    (rm_route m) [nodeId] now pl.

(** Nothing leaves the node. *)
Definition silent (n n' : MeshNode) : Prop := n_out n' = n_out n ∧ n_retry n' = n_retry n.

Lemma admit_spec W m n : rm_ttl m < 256 →
  wp (admit_packet W (MkPacket 1 PacketType.DATA (rm_flowId m) (rm_seq m) (rm_hop m) (rm_ttl m) (rm_srcNode m)
        (rm_dstNode m) (rm_route m) [] (w_now W) []))
    (λ r n', silent n n' ∧ n_nodeId n' = n_nodeId n ∧
      if decide (1 < rm_ttl m ∧ om_get (meta_key m) (n_processed n) = None) then
        r = Some (MkPacket 1 PacketType.DATA (rm_flowId m) (rm_seq m) (rm_hop m) (rm_ttl m - 1) (rm_srcNode m)
               (rm_dstNode m) (rm_route m) [n_nodeId n] (w_now W) []) ∧ n_gen n' = n_gen n ∧
        n_processed n' = om_set (meta_key m) (w_now W) (n_processed n)
      else r = None) n.
Proof.
  intros Ht. unfold admit_packet, isTTLExpired. cbn [ttl MeshPacket.flowId seq].
  destruct (rm_ttl m <=? 0) eqn:Hz; bool_to_prop.
  { apply wp_bind, wp_modify, wp_ret. split_and!; [done..|]. by rewrite decide_False; [|lia]. }
  apply wp_bind. unfold _isPacketDuplicate. fold (meta_key m). apply wp_bind, wp_get.
  destruct (om_has (meta_key m) (n_processed n)) eqn:Hk.
  { apply wp_ret. cbn match. apply wp_bind, wp_modify, wp_ret. split_and!; [done..|].
    apply om_has_get in Hk. rewrite decide_False; [done|]. intros [_ E]. rewrite E in Hk. by destruct Hk. }
  apply om_has_false in Hk. apply wp_bind, wp_modify, wp_ret. cbn match. apply wp_bind, wp_get.
  unfold hasVisited, addVisitedNode, hasVisited. cbn [visitedNodes n_nodeId set_field].
  rewrite bool_decide_false; [|apply not_elem_of_nil]. unfold decrementTTL. cbn [ttl set_visited].
  destruct (0 <? rm_ttl m - 1) eqn:Ht1; bool_to_prop.
  - apply wp_ret. split_and!; [done..|]. rewrite decide_True; [done|]. split; [lia|done].
  - apply wp_bind, wp_modify, wp_ret. split_and!; [done..|]. by rewrite decide_False; [|lia].
Qed.

Lemma forward_bytes now id m pl : meta_fits m → 1 < rm_ttl m → blen pl < 2 ^ 32 →
  serialize (forwarded now id m pl) = Ret (layout (forwarded now id m pl)).
Proof.
  intros (Hf & _ & Hs & _ & Hd & _ & Hr & Hl & Hq & Hh & Ht) Ht1 Hp. apply serialize_layout.
  - unfold fields_fit, forwarded. cbn. split_and!; try done; lia.
  - by unfold ids_fit, forwarded.
Qed.

(** A copy of the packet, the way [clone] makes it. *)
Lemma clone_pkt W p n : version p = 1 → type p ≠ 0 → MeshPacket.flowId p ≠ [] → srcNode p ≠ Some [] →
  dstNode p ≠ Some [] → timestamp p = w_now W →
  wp (new_pkt W (options_of p)) (λ q n', q = p ∧ n' = n) n.
Proof.
  intros Hv Ht Hf Hs Hd Hnow. unfold wp, new_pkt, new_packet, options_of.
  cbn [o_version o_type o_flowId o_seq o_hop o_ttl o_srcNode o_dstNode o_route o_visitedNodes o_timestamp
    o_payload default].
  assert (Some (MeshPacket.flowId p) ≠ Some []) as Hf' by by intros [= E].
  rewrite (str_or_null_id _ Hf') (str_or_null_id (srcNode p)) // (str_or_null_id (dstNode p)) // !js_or_0 Hnow js_or_now.
  rewrite (js_or_id (type p)) // (js_or_id (version p)); [|lia]. cbn.
  split; [by destruct p; simpl in *; subst|]. by destruct n as [? ? ? ? ? ? ? ? ? ? [] ].
Qed.

Lemma forward_spec W n m pl next peerId :
  meta_fits m → 1 < rm_ttl m → blen pl < 2 ^ 32 →
  let sent := n_out n ++ [OSend next (layout (forwarded (w_now W) (n_nodeId n) m pl))] in
  wp (_forwardPacket W (MkPacket 1 PacketType.DATA (rm_flowId m) (rm_seq m) (rm_hop m) (rm_ttl m - 1) (rm_srcNode m)
        (rm_dstNode m) (rm_route m) [n_nodeId n] (w_now W) []) next pl peerId)
    (λ _ n', n_processed n' = n_processed n ∧
      if decide (next ≠ peerId ∧ Some next ≠ rm_srcNode m) then
        (n_out n' = n_out n ∨ n_out n' = sent) ∧ (open_to W n next → n_out n' = sent)
      else silent n n') n.
Proof.
  intros Hm Ht Hp sent. unfold _forwardPacket. cbn [srcNode].
  destruct (decide (next ≠ peerId ∧ Some next ≠ rm_srcNode m)) as [[Hne Hns]|Hno].
  2: { destruct (bool_decide_reflect (next = peerId)); [by apply wp_modify|].
    rewrite bool_decide_true; [by apply wp_modify|]. destruct (decide (Some next = rm_srcNode m)); [done|].
    by destruct Hno. }
  rewrite !bool_decide_false //. apply wp_bind. pose proof Hm as (Hf & Hf0 & _ & Hs & _ & Hd & _).
  eapply wp_mono; [by apply clone_pkt|]. intros q n' [-> ->]. apply wp_bind.
  eapply wp_lift; [by apply (forward_bytes (w_now W) (n_nodeId n) m pl)|]. apply wp_bind.
  destruct (decide (tm_connected W next = true ∧ tm_accepts W = true ∧ queue_of next (n_retry n) = [])) as [Ho|Ho].
  - eapply wp_mono; [apply wp_and; [by apply send_open|apply send_spec]|].
    intros ok n' [[_ Ho'] (_ & _ & Hpr)]. apply wp_ret. split; [done|]. split; [by right|done].
  - eapply wp_mono; [apply send_spec|]. intros ok n' (Ho' & _ & Hpr). apply wp_ret. by split_and!.
Qed.

(** When a relay forwards. *)
Definition forwardable (n : MeshNode) (peerId next : jstr) (m : RxMeta) : Prop :=
  (1 < rm_ttl m ∧ om_get (meta_key m) (n_processed n) = None) ∧ next ≠ peerId ∧ Some next ≠ rm_srcNode m.
#[export] Instance fresh_dec n m : Decision (om_get (meta_key m) (n_processed n) = None).
Proof. destruct (om_get (meta_key m) (n_processed n)); [by right|by left]. Defined.
#[export] Instance forwardable_dec n peerId next m : Decision (forwardable n peerId next m).
Proof. unfold forwardable. apply _. Defined.

Lemma relay_spec W n peerId pl next m : meta_fits m → next ≠ [] → blen pl < 2 ^ 32 →
  let sent := n_out n ++ [OSend next (layout (forwarded (w_now W) (n_nodeId n) m pl))] in
  wp (_handleRxWorkerResult W (RxData peerId pl false (Some next) m))
    (λ _ n', if decide (forwardable n peerId next m) then
        om_get (meta_key m) (n_processed n') = Some (w_now W) ∧ (n_out n' = n_out n ∨ n_out n' = sent) ∧
        (open_to W n next → n_out n' = sent)
      else silent n n') n.
Proof.
  intros Hm Hne Hp sent. pose proof Hm as (_ & Hf0 & _ & Hs & _ & Hd & _ & _ & _ & _ & Ht).
  cbn [_handleRxWorkerResult]. apply wp_bind, wp_modify, wp_bind. eapply wp_mono; [by apply rx_new_pkt|].
  intros q n1 [-> ->]. apply wp_bind. eapply wp_mono; [apply admit_spec; lia|].
  intros r n1 ([Ho Hq] & Hid & Hr). cbn [n_out n_retry n_nodeId n_processed n_gen set_field] in *.
  destruct (decide (1 < rm_ttl m ∧ om_get (meta_key m) (n_processed n) = None)) as [Hadm|Hadm].
  2: { subst r. apply wp_ret. rewrite decide_False; [by split|]. by intros [? _]. }
  destruct Hr as (-> & Hg & Hpr). unfold route_layer. apply wp_bind, wp_get. destruct next as [|x next]; [done|].
  rewrite -Hid. eapply wp_mono; [by apply (forward_spec W n1 m pl (x :: next) peerId); [|apply Hadm|]|]. intros [] n2 [Hpr2 Hf].
  unfold sent. rewrite Hid Ho in Hf. destruct (decide (x :: next ≠ peerId ∧ Some (x :: next) ≠ rm_srcNode m)) as [Hd'|Hd'].
  - rewrite decide_True; [|by split]. destruct Hf as [Hf1 Hf2]. split_and!; [|done|].
    + by rewrite Hpr2 Hpr om_get_set_eq.
    + intros (? & ? & ?). apply Hf2. by rewrite /open_to Hq.
  - rewrite decide_False; [|by intros (_ & ?)]. destruct Hf as [Hf1 Hf2]. unfold silent. by rewrite Hf1 Hf2.
Qed.

Lemma onRx_wp W done r n (Q : MeshNode → Prop) : wp (_handleRxWorkerResult W r) (λ _, Q) n →
  (∀ n1 n2, n_out n2 = n_out n1 → n_retry n2 = n_retry n1 → n_processed n2 = n_processed n1 → Q n1 → Q n2) →
  ∃ n', onRx W (RxDone done) (Ret r) n = (Ret tt, n') ∧ Q n'.
Proof.
  intros H HQ. apply wp_run in H as ([] & Hm & H). unfold onRx, try_catch, mbind, SM_bind. rewrite Hm.
  destruct done; (eexists; split; [done|]); [|exact H].
  by apply (HQ (_handleRxWorkerResult W r n).2).
Qed.

(** C38: a relay forwards with care.  A packet is forwarded exactly when its TTL is
    above 1, its flow id and number are new to the node, and the next hop is neither
    the peer it came from nor its source; then, over an open transport, the next hop
    gets the peeled payload under the same ids with the TTL one lower and the hop
    count one higher, and the node refuses further copies.  Otherwise nothing leaves
    the node. *)
Theorem relay_forwards W n peerId pl next m done : meta_fits m → next ≠ [] → blen pl < 2 ^ 32 →
  ∃ n', onRx W (RxDone done) (Ret (RxData peerId pl false (Some next) m)) n = (Ret tt, n') ∧
    if decide (forwardable n peerId next m) then
      om_get (meta_key m) (n_processed n') = Some (w_now W) ∧
      (open_to W n next → n_out n' = n_out n ++ [OSend next (layout (forwarded (w_now W) (n_nodeId n) m pl))])
    else silent n n'.
Proof.
  intros Hm Hne Hp. apply onRx_wp.
  - eapply wp_mono; [by apply relay_spec|]. intros [] n'. destruct (decide _); [|done]. intros (Hk & _ & Ho). by split.
  - intros n1 n2 Ho Hq Hk. destruct (decide _); [|]; unfold silent; by rewrite ?Ho ?Hq ?Hk.
Qed.

(** ** Across many relays *)

Definition is_send (o : Out) : bool := match o with OSend _ _ => true | _ => false end.
(** Whatever the node emitted, it sent nothing to a peer. *)
Definition no_send (n n' : MeshNode) : Prop := ∃ os, n_out n' = n_out n ++ os ∧ Forall (λ o, is_send o = false) os.

Lemma no_send_same n n' : n_out n' = n_out n → no_send n n'.
Proof. intros E. exists []. by rewrite E app_nil_r. Qed.
Lemma no_send_one n n' o : n_out n' = n_out n ++ [o] → is_send o = false → no_send n n'.
Proof. intros E Ho. exists [o]. split; [done|]. by constructor. Qed.
Lemma no_send_trans n1 n2 n3 : no_send n1 n2 → no_send n2 n3 → no_send n1 n3.
Proof.
  intros (o1 & E1 & H1) (o2 & E2 & H2). exists (o1 ++ o2). rewrite E2 E1 -(assoc_L (++)).
  split; [done|]. by apply Forall_app.
Qed.

Lemma processExit_no_send W src pl n : wp (_processExitPacket W src pl) (λ _ n', no_send n n') n.
Proof.
  unfold _processExitPacket. apply wp_bind, wp_get. destruct (n_userspace n); [by apply wp_out; eapply no_send_one|].
  destruct (n_tun n); [|by apply wp_ret, no_send_same]. destruct (parse_returns pl) as [r Hr].
  apply wp_bind. eapply wp_lift; [exact Hr|]. destruct r as [| |p]; [by apply wp_ret, no_send_same..|]. apply wp_bind, wp_modify, wp_out.
  by eapply no_send_one.
Qed.

Lemma reorder_no_send W f q pl i t n : wp (reorder_add W f q pl i t) (λ _ n', no_send n n') n.
Proof.
  unfold reorder_add. apply wp_bind, wp_get. destruct (rb_addPacket _ _ _) as [l b]. apply wp_bind, wp_modify.
  apply (wp_for_each _ (λ n', no_send n n')); [|by apply no_send_same]. intros p n1 _ H1.
  unfold _processReorderedPacket. apply wp_bind, wp_modify, wp_bind, wp_get, wp_bind, wp_when; intros Ht.
  - apply wp_out, wp_out. eapply no_send_trans; [exact H1|]. exists [OTun (sp_payload p); OReceived (sp_payload p)].
    cbn. split; [by rewrite -(assoc_L (++))|by repeat constructor].
  - apply wp_out. eapply no_send_trans; [exact H1|]. by eapply no_send_one.
Qed.

Lemma layer_no_send W pkt f q dst exit next pl peerId n : exit = true ∨ truthy_id next = false →
  wp (route_layer W pkt f q dst exit next pl peerId) (λ _ n', no_send n n') n.
Proof.
  intros He. unfold route_layer. apply wp_bind, wp_get. destruct exit.
  - destruct (n_isExit n); [apply processExit_no_send|]. destruct (_ && _); [apply reorder_no_send|].
    by apply wp_ret, no_send_same.
  - destruct He as [|He]; [done|]. destruct next as [[|]|]; [|done|]; by apply wp_ret, no_send_same.
Qed.

Lemma data_no_send W peerId pl exit next m n : meta_fits m → exit = true ∨ truthy_id next = false →
  wp (_handleRxWorkerResult W (RxData peerId pl exit next m)) (λ _ n', no_send n n') n.
Proof.
  intros (_ & Hf0 & _ & Hs & _ & Hd & _ & _ & _ & _ & Ht) He. cbn [_handleRxWorkerResult].
  apply wp_bind, wp_modify, wp_bind. eapply wp_mono; [by apply rx_new_pkt|]. intros q n1 [-> ->].
  apply wp_bind. eapply wp_mono; [apply admit_spec; lia|]. intros r n1 ([Ho _] & _ & _). cbn in Ho.
  destruct r as [pkt|]; [|by apply wp_ret, no_send_same]. eapply wp_mono; [by apply layer_no_send|].
  intros [] n2. apply no_send_trans. by apply no_send_same.
Qed.

(** A node on the way: its state, its world, the peer the packet comes from, and what
    the processing of the packet draws. *)
Record Relay := MkRelay {
  rl_node : MeshNode; rl_world : World; rl_peer : jstr; rl_key : buffer; rl_env : Env; rl_gen : Gen
}.

Section relays.
Context `{Aead} (json_ids : jstr → outcome (list jstr)).

(** What the relay sends on when it gets these bytes. *)
Definition relay_hop (x : Relay) (b : buffer) : option buffer :=
  match (rx_process json_ids (rl_env x) (rl_gen x) (MkRxJob b (rl_key x) (rl_peer x) PacketType.DATA)).1 with
  | Throw _ => None
  | Ret r =>
      let n' := (onRx (rl_world x) (RxDone None) (Ret r) (rl_node x)).2 in
      match drop (length (n_out (rl_node x))) (n_out n') with [OSend _ b'] => Some b' | _ => None end
  end.
Fixpoint relay_all (xs : list Relay) (b : buffer) : option buffer :=
  match xs with [] => Some b | x :: xs' => b' ← relay_hop x b; relay_all xs' b' end.

Definition on_the_wire (p : Packet) : Prop :=
  fields_fit p ∧ ids_fit p ∧ normal p ∧ hop p < 65535 ∧ hop p + ttl p <= 65535.

#[export] Instance on_the_wire_dec p : Decision (on_the_wire p) := ltac:(unfold on_the_wire; apply _).

Lemma peel_shorter c k l : peelOnionLayer c k = Ret l → (length (payload l) <= length c)%nat.
Proof.
  unfold peelOnionLayer, unwrapLayer. intros Hp. apply outcome_bind_Ret in Hp as (d & Hd & Hl).
  apply decrypt_spec in Hd as [_ (iv & Hiv & He)]. rewrite (encrypt_length _ _ _ _ Hiv He).
  unfold decodeLayer in Hl. apply outcome_bind_Ret in Hl as (fl & _ & Hl).
  destruct (negb _); apply Ret_inj in Hl as <-; cbn [payload]; rewrite length_drop; lia.
Qed.

Lemma wire_meta p now : on_the_wire p → meta_fits (packet_meta (received_packet now p)).
Proof.
  intros ((Ht & Hh & Htt & Hr & Hs & Hp) & (If & Is & Id & Ir) & (Nt & Nf & Ns & Nd) & Hh' & Hsum).
  unfold meta_fits, packet_meta, received_packet. cbn. split_and!; try done; lia.
Qed.

Lemma relay_hop_spec x p b : on_the_wire p → relay_hop x (layout p) = Some b →
  ∃ p', b = layout p' ∧ on_the_wire p' ∧ 1 < ttl p ∧ ttl p' = ttl p - 1 ∧ MeshPacket.flowId p' = MeshPacket.flowId p.
Proof.
  intros Hw Hb. pose proof (wire_meta p (e_now (rl_env x)) Hw) as Hm. set (m := packet_meta _) in Hm.
  destruct Hw as (Hf & Hi & Hn & Hh & Hsum). unfold relay_hop, rx_process in Hb.
  cbn [rj_data rj_sessionKey rj_packetType rj_peerId] in Hb. rewrite deserialize_layout // in Hb.
  rewrite Z.eqb_refl in Hb. cbn [fst] in Hb. rewrite ret_bind in Hb. change (MeshPacket.payload (received_packet _ p)) with (MeshPacket.payload p) in Hb.
  destruct (peelOnionLayer (MeshPacket.payload p) (rl_key x)) as [l|] eqn:Hl; [|done]. rewrite ret_bind in Hb.
  cbn beta iota zeta in Hb. fold m in Hb. apply peel_shorter in Hl. assert (blen (payload l) < 2 ^ 32) as Hlen.
  { destruct Hf as (_ & _ & _ & _ & _ & ?). unfold blen in *. lia. }
  destruct (decide (isExit l = true ∨ truthy_id (nextHop l) = false)) as [He|He].
  { destruct (onRx_wp (rl_world x) None _ (rl_node x) _
      (data_no_send (rl_world x) (rl_peer x) (payload l) (isExit l) (nextHop l) m (rl_node x) Hm He))
      as (n' & Hx & os & Ho & Hos); [intros n1 n2 E _ _ [os [Eo Fo]]; exists os; by rewrite E|].
    rewrite Hx in Hb. cbn [snd] in Hb. rewrite Ho drop_app_length in Hb.
    destruct os as [|[] [|]]; simplify_eq. by apply Forall_cons in Hos as [? _]. }
  destruct (isExit l); [by destruct He; left|]. destruct (nextHop l) as [[|c n]|]; [by destruct He; right| |by destruct He; right].
  destruct (onRx_wp (rl_world x) None _ (rl_node x) _
    (relay_spec (rl_world x) (rl_node x) (rl_peer x) (payload l) (c :: n) m Hm ltac:(done) Hlen)) as (n' & Hx & Hs).
  { intros n1 n2 E1 E2 E3. unfold silent. destruct (decide _); by rewrite E1 ?E2 ?E3. }
  rewrite Hx in Hb. cbn [snd] in Hb. destruct (decide (forwardable _ _ _ _)) as [[[Httl _] _]|_].
  2: { destruct Hs as [Ho _]. by rewrite Ho drop_all in Hb. }
  destruct Hs as (_ & [Ho|Ho] & _); rewrite Ho ?drop_all ?drop_app_length in Hb; [done|]. simplify_eq.
  exists (forwarded (w_now (rl_world x)) (n_nodeId (rl_node x)) m (payload l)). split; [done|]. split; [|done].
  unfold on_the_wire, forwarded, fields_fit, ids_fit, normal. cbn in *.
  destruct Hm as (? & ? & ? & ? & ? & ? & ? & ? & ? & ? & ?). cbn in *. split_and!; try done; lia.
Qed.
End relays.

Lemma relay_all_spec `{Aead} json_ids xs p b : on_the_wire p → relay_all json_ids xs (layout p) = Some b →
  ∃ p', b = layout p' ∧ ttl p' = ttl p - Z.of_nat (length xs) ∧ (xs ≠ [] → 1 <= ttl p') ∧
    MeshPacket.flowId p' = MeshPacket.flowId p.
Proof.
  revert p. induction xs as [|x xs IH]; intros p Hp Hb; cbn [relay_all] in Hb.
  { simplify_eq. exists p. simpl. split_and!; [done|lia|done|done]. }
  destruct (relay_hop json_ids x (layout p)) as [b1|] eqn:E; [|done]. cbn in Hb.
  destruct (relay_hop_spec json_ids x p b1 Hp E) as (p1 & -> & Hp1 & Ht & Ht1 & Hf1).
  destruct (IH p1 Hp1 Hb) as (p' & -> & Ht' & Hpos & Hf'). exists p'. cbn [length].
  split_and!; [done|lia| |congruence]. intros _. destruct xs; [simpl in *; lia|by apply Hpos].
Qed.

(** C18: no packet travels for ever.  Whatever the nodes on the way are, their keys,
    routes, clocks and histories, a packet with TTL t that is forwarded by one node
    after another, every one over an open transport or not, crosses fewer than t
    nodes, and arrives with its flow id and the TTL lower by one for each. *)
Theorem packets_die_out `{Aead} json_ids (xs : list Relay) (p : Packet) b :
  on_the_wire p → relay_all json_ids xs (layout p) = Some b →
  (xs = [] ∨ Z.of_nat (length xs) < ttl p) ∧
  ∃ p', b = layout p' ∧ MeshPacket.flowId p' = MeshPacket.flowId p ∧ ttl p' = ttl p - Z.of_nat (length xs).
Proof.
  intros Hp Hb. destruct (relay_all_spec json_ids xs p b Hp Hb) as (p' & -> & Ht & Hpos & Hf).
  split; [|by exists p']. destruct xs; [by left|right]. specialize (Hpos ltac:(done)). lia.
Qed.

(** ** A client, a relay and an exit *)

Definition demo_world : World := MkWorld 100 (λ _, true) true None true.
Definition demo_session (k : Z) : session := MkSession (MkKeyExchange [] []) (Some (replicate 32 k)) true.
Definition demo_topo : omap jstr TopoInfo :=
  [(js "client", MkTopo (Some (js "client")) None [js "exit"]); (js "exit", MkTopo (Some (js "exit")) None [js "client"])].
Definition demo_node (c : NodeConfig) (id : jstr) (direct : bool) (sessions : SessionManager) : MeshNode :=
  let n := (on_topology demo_world demo_topo (new_node c id (js "aaaa") (js "f") direct false)).2 in
  n <| n_running := true |> <| n_tun := Some true |> <| n_virtualIp := Some (js "10.200.0.2") |> <| n_sessions := sessions |>.
Definition client_config : NodeConfig := MkConfig false false None (Some (js "client")).
Definition exit_config : NodeConfig := MkConfig true false None None.
Definition relay_config : NodeConfig := MkConfig false true None None.
Definition demo_client : MeshNode := demo_node client_config (js "client") false [(js "exit", demo_session 7)].
Definition demo_exit : MeshNode := demo_node exit_config (js "exit") false [(js "client", demo_session 7)].
Definition demo_gen : Gen := MkGen (js "18c0ffee") 5.
Definition no_json : jstr → outcome (list jstr) := λ _, Throw SyntaxError.

(** A UDP packet from the client, and its answer. *)
Definition demo_udp (src dst : jstr) (sport dport : Z) : buffer :=
  match buildUDPPacket 5 src dst sport dport [1; 2; 3] with Ret b => b | Throw _ => [] end.
Definition demo_info (src dst : jstr) (sport dport : Z) : IpInfo :=
  match parseIPPacket (demo_udp src dst sport dport) with
  | Ret (IpOk p) => p | _ => MkIp 0 0 0 0 0 [] [] 0 0 [] NoTransport
  end.
Definition demo_request : buffer := demo_udp (js "10.200.0.2") (js "8.8.8.8") 1000 53.
Definition demo_answer : buffer := demo_udp (js "8.8.8.8") (js "10.200.0.2") 53 1000.

Lemma client_reaches_exit_witness :
  let k := replicate 32 7 in
  ∃ j r j' rr e',
    emits (_handleOutboundPacket demo_world demo_request) demo_client tt [OSubmitTx j ClientTx] ∧
    (@tx_process toy_aead demo_env demo_gen j).1 = Ret r ∧
    emits (onTx demo_world ClientTx (Ret r)) demo_client tt [OSend (js "exit") (tr_serialized r)] ∧
    emits (_processIncomingMessage no_json (H:=toy_aead) demo_world (js "client") (tr_serialized r) None) demo_exit false
      [OSubmitRx j' (RxDone None)] ∧
    (@rx_process toy_aead no_json demo_env demo_gen j').1 = Ret rr ∧
    onRx demo_world (RxDone None) (Ret rr) demo_exit = (Ret tt, e') ∧ n_out e' = [OTun demo_request].
Proof.
  intros k.
  destruct (@client_reaches_exit toy_aead no_json (js "client") (js "exit") k demo_env demo_env demo_gen demo_gen
    demo_request (demo_info (js "10.200.0.2") (js "8.8.8.8") 1000 53) false) as (j & r & j' & rr & H1 & H2 & H3 & H4 & H5 & H6).
  - apply (bool_decide_unpack _). by vm_compute.
  - apply (bool_decide_unpack _). by vm_compute.
  - exact eq_refl.
  - intros i. exact eq_refl.
  - apply (bool_decide_unpack _). by vm_compute.
  - by vm_compute.
  - by vm_compute.
  - destruct (H6 demo_world demo_exit None) as (e' & He & Ho & _); [by vm_compute|right; by vm_compute|].
    exists j, r, j', rr, e'. split; [apply (H1 demo_world demo_client); [vm_compute; reflexivity..| | |]|].
    + split; [by vm_compute|]. vm_compute. by intros [_ ?].
    + vm_compute; reflexivity.
    + vm_compute; reflexivity.
    + split; [exact H2|]. split; [apply H3; split_and!; vm_compute; reflexivity|].
      split; [apply H4; vm_compute; reflexivity|]. split; [exact H5|]. split; [exact He|].
      rewrite Ho. vm_compute; reflexivity.
Defined.

Lemma exit_answers_client_witness :
  let k := replicate 32 7 in
  let e := demo_exit <| n_natMappings := [(mappingKey (js "10.200.0.2") 1000 (js "8.8.8.8") 53 17, MkNatMapping (Some (js "client")) 50)] |> in
  let e' := e <| n_exitChains ::= ch_enqueue (js "client") (response_task (js "client") demo_answer false) |> in
  ∃ j r j' rr,
    _handleExitTunPacket demo_world demo_answer e = (Ret tt, e') ∧
    emits (exit_turn 0) e' tt [OSubmitTx j (ExitTx (js "client") false (Some 0%nat))] ∧
    (@tx_process toy_aead demo_env demo_gen j).1 = Ret r ∧
    emits (_processIncomingMessage no_json (H:=toy_aead) demo_world (js "exit") (tr_serialized r) None) demo_client false
      [OSubmitRx j' (RxDone None)] ∧
    (@rx_process toy_aead no_json demo_env demo_gen j').1 = Ret rr ∧
    emits (onRx demo_world (RxDone None) (Ret rr)) demo_client tt [OTun demo_answer; OReceived demo_answer].
Proof.
  intros k e e'.
  destruct (@exit_answers_client toy_aead no_json (js "client") (js "exit") k demo_env demo_env demo_gen demo_gen
    demo_answer (demo_info (js "8.8.8.8") (js "10.200.0.2") 53 1000) false) as [H0 (j & r & j' & rr & H1 & H2 & H3 & H4 & H5 & H6)].
  - apply (bool_decide_unpack _). by vm_compute.
  - apply (bool_decide_unpack _). by vm_compute.
  - exact eq_refl.
  - intros i. exact eq_refl.
  - apply (bool_decide_unpack _). by vm_compute.
  - by vm_compute.
  - by vm_compute.
  - by vm_compute.
  - destruct (H0 demo_world e 50) as [_ Htun]; [vm_compute; reflexivity..|].
    exists j, r, j', rr. split; [apply Htun; vm_compute; reflexivity|].
    split; [apply (H1 e' 0%nat []); vm_compute; reflexivity|]. split; [exact H2|].
    split; [apply H4; vm_compute; reflexivity|]. split; [exact H5|].
    apply (H6 demo_world demo_client None); vm_compute; reflexivity.
Defined.

Definition demo_relay : MeshNode := demo_node relay_config (js "relay") false [(js "client", demo_session 7)].
Definition demo_meta : RxMeta :=
  MkRxMeta (js "18c0ffee00000005") 0 3 29 (Some (js "client")) (Some (js "exit")) [js "relay"; js "exit"].

Lemma relay_forwards_witness :
  ∃ n', onRx demo_world (RxDone None) (Ret (RxData (js "client") [1; 2] false (Some (js "exit")) demo_meta)) demo_relay = (Ret tt, n') ∧
    n_out n' = [OSend (js "exit") (layout (forwarded 100 (js "relay") demo_meta [1; 2]))].
Proof.
  destruct (relay_forwards demo_world demo_relay (js "client") [1; 2] (js "exit") demo_meta None) as (n' & Hn & Hf).
  - apply (bool_decide_unpack _). by vm_compute.
  - by vm_compute.
  - by vm_compute.
  - exists n'. split; [exact Hn|]. destruct (decide (forwardable _ _ _ _)) as [_|Hno].
    + destruct Hf as [_ Hf]. rewrite Hf; [vm_compute; reflexivity|]. split_and!; vm_compute; reflexivity.
    + exfalso. apply Hno. apply (bool_decide_unpack _). vm_compute; reflexivity.
Defined.

(** A packet for relay and exit, at the relay. *)
Definition demo_onion : outcome TxResult :=
  (@tx_process toy_aead demo_env demo_gen
     (MkTxJob [1; 2; 3] [(js "relay", replicate 32 7); (js "exit", replicate 32 8)]
        (MkMeta PacketType.DATA (js "client") (js "exit") [js "relay"; js "exit"]) false)).1.
Definition demo_onion_packet : Packet :=
  match demo_onion with
  | Ret r => match deserialize no_json 0 [] 0 (tr_serialized r) with Ret (p, _) => p | Throw _ => sample_packet end
  | Throw _ => sample_packet
  end.
Definition demo_hop : Relay := MkRelay demo_relay demo_world (js "client") (replicate 32 7) demo_env demo_gen.

Lemma packets_die_out_witness :
  ∃ b, @relay_all toy_aead no_json [demo_hop] (layout demo_onion_packet) = Some b ∧
    ttl demo_onion_packet = 32 ∧ ∃ p', b = layout p' ∧ ttl p' = 31.
Proof.
  destruct (@relay_all toy_aead no_json [demo_hop] (layout demo_onion_packet)) as [b|] eqn:E; [|by vm_compute in E].
  exists b. destruct (@packets_die_out toy_aead no_json [demo_hop] demo_onion_packet b) as (_ & p' & Hb & _ & Ht).
  - apply (bool_decide_unpack _). vm_compute; reflexivity.
  - exact E.
  - split; [reflexivity|]. split; [vm_compute; reflexivity|]. exists p'. split; [exact Hb|]. rewrite Ht. vm_compute; reflexivity.
Defined.
