(* ===== verification/NodeEdge.v ===== *)
(** * Where the data plane of a node falls short

    Concrete runs of the nodes of NodeFlow.v that show what routes over more than one
    hop, equal flow ids, measured latencies, a full hop counter and a peer that comes
    back do to packets. *)

From S2P Require Import Prelude JsMap Bytes JsString Effects MeshPacket IpPacket Search Graph Router Scheduler.
From S2P Require Import Crypto Onion SendRetry Chains Pipeline Node NodeFlow.
Local Open Scope Z_scope.
#[local] Unset Default Proof Using.

(** ** Two hops

    The client encrypts the layer of each node of the route with its own session with
    that node; a node decrypts with its session with the peer the packet came from.
    Only the first hop has that key. *)

Definition run_relay (b : buffer) : option buffer := @relay_hop toy_aead no_json demo_hop b.
(** The exit: its sessions with the relay and with the client. *)
Definition far_exit (direct : bool) : MeshNode :=
  demo_node exit_config (js "exit") direct [(js "relay", demo_session 9); (js "client", demo_session 8)].
(** The worker cannot read what this node submits for a message. *)
Definition unreadable (n : MeshNode) (from : jstr) (b : buffer) : bool :=
  match n_out (_processIncomingMessage no_json (H:=toy_aead) demo_world from b None n).2 with
  | [OSubmitRx j _] =>
      match (@rx_process toy_aead no_json demo_env demo_gen j).1 with Throw _ => true | Ret _ => false end
  | _ => false
  end.

(** The relay peels its layer and forwards; the exit cannot read what it gets. *)
Example onion_stops_at_second_hop :
  match demo_onion with
  | Ret r =>
      tr_nextHop r = Some (js "relay") ∧
      match run_relay (tr_serialized r) with
      | Some b => unreadable (far_exit false) (js "relay") b = true
      | None => False
      end
  | Throw _ => False
  end.
Proof. vm_compute. split; reflexivity. Qed.

(** In direct mode a route of two hops is wrapped as an onion but marked as direct: the
    relay passes it on unread, and the exit decrypts the relay's layer with the
    client's key. *)
Definition direct_onion : outcome TxResult :=
  (@tx_process toy_aead demo_env demo_gen
     (MkTxJob [1; 2; 3] [(js "relay", replicate 32 7); (js "exit", replicate 32 8)]
        (MkMeta PacketType.DATA_DIRECT (js "client") (js "exit") [js "relay"; js "exit"]) true)).1.
Example direct_mode_stops_at_exit :
  match direct_onion with
  | Ret r =>
      match n_out (_processIncomingMessage no_json (H:=toy_aead) demo_world (js "client") (tr_serialized r) None demo_relay).2 with
      | [OSend peer b] => peer = js "exit" ∧ unreadable (far_exit true) (js "relay") b = true
      | _ => False
      end
  | Throw _ => False
  end.
Proof. vm_compute. split; reflexivity. Qed.

(** ** Equal flow ids

    A flow id is the time the thread loaded packet.js and a counter: threads that
    loaded it in the same millisecond, on one machine or on two, use the same ids. *)
Definition flow_of (g : Gen) (src : jstr) : RxMeta :=
  MkRxMeta (generateFlowId (g_prefix g) (g_counter g)).1 0 0 32 (Some src) (Some (js "exit")) [js "exit"].
Example same_flow_id_dropped :
  let result src := Ret (RxData src demo_request true None (flow_of demo_gen src)) in
  let e1 := (onRx demo_world (RxDone None) (result (js "client")) demo_exit).2 in
  let e2 := (onRx demo_world (RxDone None) (result (js "other")) e1).2 in
  n_out e1 = [OTun demo_request] ∧ n_out e2 = n_out e1 ∧ duplicateDropped (n_loop e2) = 1.
Proof. vm_compute. split_and!; reflexivity. Qed.

(** ** Latencies

    The time of a packet is not on the wire, so a PONG answers with the clock of the
    node that answers; and an ACK is recorded under the id of the peer, while the
    scheduler keys its statistics by path. *)
Definition at_time (t : Z) : World := MkWorld t (λ _, true) true None true.
Example pong_measures_the_skew :
  let ping := (sendPing (at_time 100) (js "exit") demo_client).2 in
  match n_out ping with
  | [OSend _ b] =>
      let answer := (_processIncomingMessage no_json (H:=toy_aead) (at_time 5000) (js "client") b None demo_exit).2 in
      match n_out answer with
      | [OSend _ b'] =>
          last (n_out (_processIncomingMessage no_json (H:=toy_aead) (at_time 110) (js "exit") b' None ping).2) =
            Some (OPong (js "exit") (Some (-4890)))
      | _ => False
      end
  | _ => False
  end.
Proof. vm_compute. reflexivity. Qed.

Definition ack_packet : buffer :=
  match serialize ((new_packet 7 (js "18c0ffee") 5
      (MkOptions None (Some PacketType.ACK) None None None None (Some (js "exit")) (Some (js "client")) None None None None)).1) with
  | Ret b => b | Throw _ => []
  end.
Example ack_changes_nothing :
  let n := (_processIncomingMessage no_json (H:=toy_aead) (at_time 9000) (js "exit") ack_packet None demo_client).2 in
  om_keys (pathStats (n_scheduler n)) = [js "exit:exit"] ∧ n_scheduler n = n_scheduler demo_client.
Proof. vm_compute. split; reflexivity. Qed.

(** ** The hop counter

    A peer may send any hop count: at 65535 the relay's own [serialize] throws, in the
    callback of the worker pool, where nothing catches it. *)
Example full_hop_counter_throws :
  (onRx demo_world (RxDone None)
     (Ret (RxData (js "client") [1; 2] false (Some (js "exit")) (MkRxMeta (js "18c0ffee00000005") 0 65535 29 (Some (js "client")) (Some (js "exit")) [js "relay"; js "exit"]))) demo_relay).1 =
  Throw RangeError.
Proof. vm_compute. reflexivity. Qed.

(** ** A peer that comes back

    Deleting the peer's entry does not stop its chain: messages of the new connection
    start a second one beside it, and two messages of the peer are processed at
    once. *)
Example chains_overlap_after_reconnect :
  let c := ch_enqueue (js "p") [1] chains_new in
  let '(t1, c) := ch_next 0 c in
  let c := ch_enqueue (js "p") [2] (ch_delete (js "p") c) in
  let '(t2, c) := ch_next 1 c in
  (t1, t2) = (Some [1], Some [2]) ∧ (busy <$> chain_list c) = [true; true].
Proof. vm_compute. split; reflexivity. Qed.
