(* ===== verification/Sockets.v ===== *)
(** * WebSocket transports (src/transport/websocket.js, ws-data-server.js)

    [WebSocketTransport] opens sockets to other nodes or accepts theirs,
    [WebSocketDataServer] accepts them; both keep, for each peer, its socket and a send
    buffer that writes to that socket, and treat both alike.  The sockets themselves
    live in [socks], in the order of their creation: a map may point to one socket
    while an older one of the same peer still delivers events. *)

From S2P Require Import Prelude JsMap Bytes JsString Effects Framing SendBuffer.
Local Open Scope Z_scope.
#[local] Unset Default Proof Using.

(** A socket with the buffer made for it; [k_open]: its [readyState] is OPEN.  After
    [ws.close()] it is CLOSING and, from the close event on, CLOSED: the code only ever asks
    whether it is OPEN, and both are not. *)
Record Sock := MkSock { k_peer : jstr; k_open : bool; k_buf : TransportSendBuffer }.
#[export] Instance eta_Sock : Eta Sock := λ k, MkSock (k_peer k) (k_open k) (k_buf k).

Inductive SockOut :=
  | OFrame (ws : nat) (frame : buffer)               (* ws.send(frame) *)
  | OCloseSock (ws : nat) (code : option Z)          (* ws.close(code) *)
  | OConnected (peerId : jstr)                       (* emit 'peer-connected' *)
  | ODisconnected (peerId : jstr)                    (* emit 'peer-disconnected' *)
  | OMessage (peerId : jstr) (packet : buffer)       (* emit 'message' *)
  | OError (peerId : jstr)                           (* emit 'error' *)
  | OServerClosed.

Record Sockets := MkSockets {
  socks : list Sock;
  connections : omap jstr nat;
  sendBuffers : omap jstr nat;       (* the socket a buffer was made for *)
  listening : bool;                  (* server is not null *)
  k_out : list SockOut
}.
#[export] Instance eta_Sockets : Eta Sockets := λ s,
  MkSockets (socks s) (connections s) (sendBuffers s) (listening s) (k_out s).
Definition no_sockets : Sockets := MkSockets [] [] [] false [].

Definition K := SM Sockets.
Definition out (o : SockOut) : K () := modify (λ s, s <| k_out ::= λ l, l ++ [o] |>).
Definition upd_sock (i : nat) (f : Sock → Sock) : K () := modify (λ s, s <| socks ::= alter f i |>).

(** The frames a buffer sends; on a socket that is not open they are lost. *)
Definition send_frames (i : nat) (frames : list buffer) : K () :=
  s ← get;
  match socks s !! i with
  | Some k => when (k_open k) (for_each (λ f, out (OFrame i f)) frames)
  | None => skip
  end.

Definition always : nat → bool := λ _, true.

(** ** Operations *)

(** [_setupConnection], and [_handleConnection] after its checks. *)
Definition _setupConnection (peerId : jstr) : K nat :=
  s ← get;
  let i := length (socks s) in
  modify (λ s, s <| socks ::= λ l, l ++ [MkSock peerId true (sb_new None None)] |>
                 <| connections ::= om_set peerId i |> <| sendBuffers ::= om_set peerId i |>) ;;
  out (OConnected peerId) ;;
  mret i.

(** A socket a server accepts: without a peer id it is closed. *)
Definition _handleConnection (peerHeader : option jstr) : K () :=
  match peerHeader with
  | Some ((_ :: _) as peerId) => _ ← _setupConnection peerId; skip
  | _ =>
      s ← get;
      modify (λ s, s <| socks ::= λ l, l ++ [MkSock [] true (sb_new None None)] |>) ;;
      out (OCloseSock (length (socks s)) (Some 4001))
  end.

Definition ws_send (peerId : jstr) (data : buffer) : K bool :=
  s ← get;
  match om_get peerId (sendBuffers s) with
  | None => mret false
  | Some i =>
      match socks s !! i with
      | None => mret false
      | Some k =>
          r ← lift (sb_push always always data (k_buf k));
          let '(_, b, frames) := r in
          upd_sock i (λ k, k <| k_buf := b |>) ;;
          send_frames i frames ;;
          mret true
      end
  end.

(** The flush timer of a socket's buffer. *)
Definition ws_timer (i : nat) : K () :=
  s ← get;
  match socks s !! i with
  | Some k =>
      if timer (k_buf k) then
        r ← lift (sb_timer always (k_buf k));
        let '(b, frames) := r in
        upd_sock i (λ k, k <| k_buf := b |>) ;;
        send_frames i frames
      else skip
  | None => skip
  end.

Definition on_message (i : nat) (raw : buffer) : K () :=
  s ← get;
  match socks s !! i with
  | None => skip
  | Some k =>
      packets ← lift (unframe raw);
      match packets with
      | None => skip
      | Some ps => for_each (λ p, out (OMessage (k_peer k) p)) ps
      end
  end.

(** Stop and forget the buffer of a peer. *)
Definition drop_buffer (peerId : jstr) : K () :=
  s ← get;
  match om_get peerId (sendBuffers s) with
  | Some i => upd_sock i (λ k, k <| k_buf ::= sb_stop |>) ;; modify (λ s, s <| sendBuffers ::= om_delete peerId |>)
  | None => skip
  end.

Definition on_close (i : nat) : K () :=
  s ← get;
  match socks s !! i with
  | None => skip
  | Some k =>
      upd_sock i (λ k, k <| k_open := false |>) ;;
      drop_buffer (k_peer k) ;;
      modify (λ s, s <| connections ::= om_delete (k_peer k) |>) ;;
      out (ODisconnected (k_peer k))
  end.
Definition on_error (i : nat) : K () :=
  s ← get;
  match socks s !! i with Some k => out (OError (k_peer k)) | None => skip end.

(** [ws.close()]: the socket is no longer open; its 'close' event follows later. *)
Definition close_sock (i : nat) : K () := upd_sock i (λ k, k <| k_open := false |>) ;; out (OCloseSock i None).

Definition ws_close (peerId : jstr) : K () :=
  drop_buffer peerId ;;
  s ← get;
  match om_get peerId (connections s) with
  | Some i => close_sock i ;; modify (λ s, s <| connections ::= om_delete peerId |>)
  | None => skip
  end.
Definition ws_closeAll : K () :=
  s ← get;
  for_each ws_close (om_keys (connections s)) ;;
  when (listening s) (out OServerClosed).
(** [WebSocketDataServer.stop] *)
Definition ws_stop : K () :=
  s ← get;
  when (listening s)
    (for_each (λ i, upd_sock i (λ k, k <| k_buf ::= sb_stop |>)) (om_values (sendBuffers s)) ;;
     modify (λ s, s <| sendBuffers := [] |>) ;;
     for_each close_sock (om_values (connections s)) ;;
     modify (λ s, s <| connections := [] |>) ;;
     out OServerClosed ;;
     modify (λ s, s <| listening := false |>)).

Definition ws_open (s : Sockets) (i : nat) : bool := match socks s !! i with Some k => k_open k | None => false end.
Definition ws_isConnected (peerId : jstr) (s : Sockets) : bool :=
  match om_get peerId (connections s) with Some i => ws_open s i | None => false end.
Definition ws_getConnectedPeers (s : Sockets) : list jstr :=
  (filter (λ e : jstr * nat, ws_open s e.2 = true) (connections s)).*1.
