(* ===== verification/SocketFlow.v ===== *)
(** * What a WebSocket transport delivers

    In every history of a transport with many peers, sockets that come and go, sends
    and timers: what the other end of a socket reads are the packets sent over it, in
    order. *)

From S2P Require Import Prelude JsMap Bytes JsString Effects Framing SendBuffer Sockets.
Local Open Scope Z_scope.
#[local] Unset Default Proof Using.

(** ** Histories *)

Inductive ws_op :=
  | WConnect (peerId : jstr)               (* connect(): the socket opens *)
  | WAccept (peerHeader : option jstr)     (* a server's 'connection' *)
  | WSend (peerId : jstr) (data : buffer)
  | WTimer (i : nat)
  | WMessage (i : nat) (raw : buffer)
  | WClosed (i : nat)                      (* a socket's 'close' event *)
  | WError (i : nat)
  | WClose (peerId : jstr)
  | WCloseAll.

(** The packets accepted so far, with the socket that was current. *)
Definition accepted := list (nat * buffer).

Definition ws_apply (o : ws_op) (sa : Sockets * accepted) : outcome () * (Sockets * accepted) :=
  let '(s, a) := sa in
  let run (m : K ()) := let '(r, s') := m s in (r, (s', a)) in
  match o with
  | WConnect p => run (_ ← _setupConnection p; skip)
  | WAccept h => run (_handleConnection h)
  | WSend p data =>
      let '(r, s') := ws_send p data s in
      (match r with Ret _ => Ret tt | Throw e => Throw e end,
       (s', match r, om_get p (sendBuffers s) with Ret true, Some i => a ++ [(i, data)] | _, _ => a end))
  | WTimer i => run (ws_timer i)
  | WMessage i raw => run (on_message i raw)
  | WClosed i => run (on_close i)
  | WError i => run (on_error i)
  | WClose p => run (ws_close p)
  | WCloseAll => run ws_closeAll
  end.
Definition ws_run (ops : list ws_op) (sa : Sockets * accepted) : Sockets * accepted :=
  foldl (λ sa o, (ws_apply o sa).2) sa ops.

(** The packets accepted for a socket, and the frames written to it. *)
Definition accepted_on (i : nat) (a : accepted) : list buffer := base.omap (λ e, if decide (e.1 = i) then Some e.2 else None) a.
Definition frames_on (i : nat) (os : list SockOut) : list buffer :=
  base.omap (λ o, match o with OFrame j f => if decide (j = i) then Some f else None | _ => None end) os.

#[local] Arguments accepted_on : simpl never.
#[local] Arguments frames_on : simpl never.

Lemma accepted_app i a b : accepted_on i (a ++ b) = accepted_on i a ++ accepted_on i b.
Proof. apply omap_app. Qed.
Lemma sock_frames_app i a b : frames_on i (a ++ b) = frames_on i a ++ frames_on i b.
Proof. apply omap_app. Qed.

(** ** The buffer of a socket: always ready, and never full *)

(** Packets as the mesh sends them: not empty, not starting with the marker, and long. *)
Definition mesh_packet (p : buffer) : Prop := plain p ∧ 28 <= blen p.

Record buf_ok (b : TransportSendBuffer) : Prop := MkBufOk {
  bo_inv : sb_inv b;
  bo_packets : Forall mesh_packet (packets b);
  bo_small : frame_size (packets b) < MAX_FRAME_SIZE;
  bo_max : maxFrameSize b = MAX_FRAME_SIZE;
  bo_queue : maxQueuePackets b = DEFAULT_MAX_QUEUE
}.

Lemma buf_new : buf_ok (sb_new None None).
Proof. by constructor. Qed.
Lemma buf_stop b : buf_ok b → buf_ok (sb_stop b).
Proof. intros [(Hm & Hc & Ht) _ _ Hmax Hq]. constructor; try done. Qed.

Lemma mesh_count ps : Forall mesh_packet ps → 30 * Z.of_nat (length ps) <= sumZ (entry_size 2) ps.
Proof.
  induction 1 as [|p ps [_ Hp] _ IH]; [done|]. rewrite sumZ_cons length_cons. change (entry_size 2 p) with (2 + blen p). lia.
Qed.

(** A flush when the transport is ready empties the buffer. *)
Lemma flush_all b : maxFrameSize b <= 65535 → currentSize b = frame_size (packets b) → ∃ b' fs, sb_flush always b = Ret (b', fs) ∧ sb_inv b' ∧ packets b' = [] ∧
  carries (maxFrameSize b) fs (packets b) ∧ maxFrameSize b' = maxFrameSize b ∧ maxQueuePackets b' = maxQueuePackets b.
Proof.
  intros Hm Hc. destruct (sb_flush_spec always b Hm Hc) as (b' & fs & sent & E & Hi & Hp & Hcar & Hmf & Hmq).
  assert (packets b' = []) as He; [|exists b', fs; rewrite He app_nil_r in Hp; by rewrite Hp].
  revert E. unfold sb_flush. destruct (packets b) as [|p ps]; [by intros [= <- _]|]. cbn [always negb].
  destruct (currentSize b <=? maxFrameSize b).
  - intros E. apply outcome_bind_Ret in E as (f & _ & E). by injection E as <- _.
  - destruct (drain_spec (length (p :: ps)) 1 always (maxFrameSize b) (p :: ps)) as (fs' & rest & sent' & -> & _ & _ & Hr);
      [done|done|]. cbn. intros E. injection E as <- _. by destruct Hr as [->|[c Hc']].
Qed.

Lemma buf_empty b : sb_inv b → packets b = [] → maxFrameSize b = MAX_FRAME_SIZE → maxQueuePackets b = DEFAULT_MAX_QUEUE → buf_ok b.
Proof. intros Hi Hp Hm Hq. constructor; rewrite ?Hp; try done; constructor. Qed.

Lemma timer_flushes b : buf_ok b → ∃ b' fs, sb_timer always b = Ret (b', fs) ∧ buf_ok b' ∧ packets b' = [] ∧
  carries MAX_FRAME_SIZE fs (packets b).
Proof.
  intros [(Hm & Hc & _) Hp Hs Hmax Hq]. unfold sb_timer. rewrite -Hmax.
  destruct (flush_all (sb_set b (packets b) (currentSize b) false)) as (b' & fs & -> & Hi & He & Hcar & Hmf & Hmq); [done..|].
  cbn in *. exists b', fs. split; [done|]. split; [|done]. by apply buf_empty; rewrite ?Hmf ?Hmq.
Qed.

Lemma push_accepts data b : buf_ok b → mesh_packet data → ∃ b' fs sent, sb_push always always data b = Ret (true, b', fs) ∧
  buf_ok b' ∧ packets b ++ [data] = sent ++ packets b' ∧ carries MAX_FRAME_SIZE fs sent.
Proof.
  intros Hb Hd. pose proof Hb as [Hi Hp Hs Hmax Hq]. pose proof (mesh_count _ Hp) as Hcount.
  destruct (sb_push_spec always always data b Hi) as (x & b' & fs & sent & E & Hi' & Happ & Hcar & Hmf & Hx).
  assert (x = true) as ->.
  { rewrite Hx Hq. apply Z.ltb_lt. unfold frame_size, HEADER_SIZE, MAX_FRAME_SIZE, DEFAULT_MAX_QUEUE in *. lia. }
  exists b', fs, sent. rewrite -Hmax. split; [done|]. split; [|done].
  assert (Forall mesh_packet (packets b')) as Hp'.
  { assert (Forall mesh_packet (sent ++ packets b')) as Hf by (rewrite -Happ; apply Forall_app_2; [done|by apply Forall_singleton]).
    by apply Forall_app in Hf as [_ ?]. }
  assert (frame_size (packets b') < MAX_FRAME_SIZE ∧ maxQueuePackets b' = DEFAULT_MAX_QUEUE) as [Hs' Hq']; [|by constructor; rewrite ?Hmf].
  revert E. unfold sb_push. destruct (_ <=? _) eqn:Hfull; [by intros [=]|]. intros E. apply outcome_bind_Ret in E as ((b1 & fs1) & E1 & E).
  assert (sb_inv b1 ∧ maxFrameSize b1 = MAX_FRAME_SIZE ∧ maxQueuePackets b1 = DEFAULT_MAX_QUEUE) as ((Hm1' & Hc1 & _) & Hm1 & Hq1).
  { destruct (_ && _); [|by injection E1 as <- _].
    destruct Hi as (Hm & Hc & _). destruct (flush_all b Hm Hc) as (b2 & fs2 & E2 & Hi2 & _ & _ & Hm2 & Hq2). rewrite E2 in E1.
    injection E1 as <- _. split_and!; congruence. }
  cbn in E. rewrite Hm1 in E. set (b2 := sb_set b1 (packets b1 ++ [data]) (currentSize b1 + (2 + blen data)) (timer b1)) in *.
  assert (currentSize b2 = frame_size (packets b2)) as Hc2.
  { cbn. rewrite Hc1. unfold frame_size. rewrite sumZ_app sumZ_cons sumZ_nil. change (entry_size 2 data) with (2 + blen data). lia. }
  destruct (Z.leb_spec MAX_FRAME_SIZE (currentSize b1 + (2 + blen data))) as [Hle|Hlt].
  - destruct (flush_all b2 Hm1' Hc2) as (b3 & fs3 & E3 & _ & He3 & _ & _ & Hq3). rewrite E3 in E. injection E as <- _.
    by rewrite He3 Hq3.
  - injection E as <- _. change (frame_size (packets b2) < MAX_FRAME_SIZE ∧ maxQueuePackets b2 = DEFAULT_MAX_QUEUE).
    rewrite -Hc2. done.
Qed.

(** ** The invariant *)

Record sock_ok (s : Sockets) (a : accepted) (i : nat) (k : Sock) : Prop := MkSockOk {
  so_buf : buf_ok (k_buf k);
  so_sent : ∃ sent, carries MAX_FRAME_SIZE (frames_on i (k_out s)) sent ∧
    (sent ++ packets (k_buf k)) `prefix_of` accepted_on i a ∧
    (om_get (k_peer k) (sendBuffers s) = Some i → accepted_on i a = sent ++ packets (k_buf k))
}.
Record ws_inv (a : accepted) (s : Sockets) : Prop := MkWsInv {
  wi_maps : sendBuffers s = connections s;
  wi_current p i : om_get p (sendBuffers s) = Some i → ∃ k, socks s !! i = Some k ∧ k_peer k = p ∧ k_open k = true;
  wi_sock i k : socks s !! i = Some k → sock_ok s a i k;
  wi_fresh i : (length (socks s) <= i)%nat → frames_on i (k_out s) = [] ∧ accepted_on i a = []
}.

(** Outputs that are no frames, and changes of a socket that keep what matters. *)
Definition quiet (o : SockOut) : Prop := match o with OFrame _ _ => False | _ => True end.
Lemma sock_frames_quiet i o l : quiet o → frames_on i (l ++ [o]) = frames_on i l.
Proof. intros Ho. rewrite sock_frames_app. destruct o; try done; by rewrite /frames_on /= app_nil_r. Qed.

Lemma inv_out a o : quiet o → keeps (ws_inv a) (out o).
Proof.
  intros Ho s [Hm Hc Hs Hf]. constructor; cbn; [done..| |].
  - intros i k Hi. destruct (Hs i k Hi) as [Hb (sent & Hsent)]. constructor; [done|]. exists sent. cbn. by rewrite sock_frames_quiet.
  - intros i Hi. rewrite sock_frames_quiet //. by apply Hf.
Qed.

(** Stopping the buffer of a peer and forgetting it, with its socket's entry. *)
Definition forget (p : jstr) (s : Sockets) : Sockets :=
  let s := match om_get p (sendBuffers s) with
           | Some i => s <| socks ::= alter (λ k, k <| k_buf ::= sb_stop |>) i |>
           | None => s
           end in
  s <| sendBuffers ::= om_delete p |> <| connections ::= om_delete p |>.

Lemma inv_forget a p s : ws_inv a s → ws_inv a (forget p s).
Proof.
  intros [Hm Hc Hs Hf]. unfold forget. destruct (om_get p (sendBuffers s)) as [j|] eqn:Ep.
  - destruct (Hc p j Ep) as (kj & Hj & Hpj & Hoj). constructor; cbn.
    + by rewrite Hm.
    + intros q i. rewrite om_get_delete. case_decide as Hq; [done|]. intros Hi. destruct (Hc q i Hi) as (k & Hk & Hkp & Hko).
      destruct (decide (i = j)) as [->|Hij]; [congruence|]. exists k. by rewrite list_lookup_alter_ne.
    + intros i k. destruct (decide (i = j)) as [->|Hij].
      * rewrite list_lookup_alter_eq Hj /=. intros [= <-]. destruct (Hs j kj Hj) as [Hb (sent & Hcar & Hpre & Heq)].
        constructor; [by apply buf_stop|]. exists sent. split; [done|]. cbn. rewrite app_nil_r.
        split; [etrans; [|exact Hpre]; apply prefix_app_r; done|]. rewrite om_get_delete. rewrite Hpj. by case_decide.
      * rewrite list_lookup_alter_ne //. intros Hi. destruct (Hs i k Hi) as [Hb (sent & Hcar & Hpre & Heq)].
        constructor; [done|]. exists sent. split; [done|]. split; [done|]. cbn. rewrite om_get_delete. by case_decide.
    + rewrite length_alter. done.
  - assert (om_get p (connections s) = None) as Ep' by (by rewrite -Hm).
    destruct s as [ks cs bs ls os]. cbn in *. subst bs.
    change (ws_inv a (MkSockets ks (om_delete p cs) (om_delete p cs) ls os)). rewrite om_delete_none //.
Qed.
Lemma inv_unopen a i s : ws_inv a s → (∀ p, om_get p (sendBuffers s) ≠ Some i) →
  ws_inv a (s <| socks ::= alter (λ k, k <| k_open := false |>) i |>).
Proof.
  intros [Hm Hc Hs Hf] Hi. constructor; cbn; [done|..].
  - intros p j Hj. destruct (Hc p j Hj) as (k & Hk & Hrest). exists k. rewrite list_lookup_alter_ne //. intros ->. by apply (Hi p).
  - intros j k. destruct (decide (j = i)) as [->|Hij].
    + rewrite list_lookup_alter_eq. intros (k0 & Hk & ->)%fmap_Some. destruct (Hs i k0 Hk) as [Hb Hsent]. by constructor.
    + rewrite list_lookup_alter_ne //. intros Hk. by destruct (Hs j k Hk).
  - rewrite length_alter. done.
Qed.

(** ** Every operation keeps the invariant *)

(** A new socket, registered as the current one of its peer or not. *)
Lemma inv_new a p (reg : bool) s (m := λ l, if reg then om_set p (length (socks s)) l else l) : ws_inv a s →
  ws_inv a (s <| socks ::= λ l, l ++ [MkSock p true (sb_new None None)] |> <| connections ::= m |> <| sendBuffers ::= m |>).
Proof.
  intros [Hm Hc Hs Hf]. destruct (Hf (length (socks s)) (le_n _)) as [Hnf Hna].
  assert (∀ q i, om_get q (m (sendBuffers s)) = Some i → reg = true ∧ q = p ∧ i = length (socks s) ∨ om_get q (sendBuffers s) = Some i) as Hmem.
  { intros q i. subst m. cbv beta. destruct reg; [|by right]. rewrite om_get_set. case_decide as Hq; [|by right]. intros [= <-]. by left. }
  constructor; cbn.
  - by rewrite Hm.
  - intros q i [(_ & -> & ->)|Hi]%Hmem.
    + exists (MkSock p true (sb_new None None)). by rewrite lookup_app_r // Nat.sub_diag.
    + destruct (Hc q i Hi) as (k & Hk & Hrest). exists k. by rewrite lookup_app_l //; apply lookup_lt_Some in Hk.
  - intros i k [Hi|[Hlen Hi]]%lookup_app_Some.
    + destruct (Hs i k Hi) as [Hb (sent & Hcar & Hpre & Heq)]. constructor; [done|]. exists sent. split; [done|]. split; [done|].
      intros [(_ & _ & ->)|Hcur]%Hmem; [apply lookup_lt_Some in Hi; lia|by apply Heq].
    + apply list_lookup_singleton_Some in Hi as [Hi <-]. assert (i = length (socks s)) as -> by lia.
      constructor; [apply buf_new|]. exists []. cbn. rewrite Hnf Hna. by split; [constructor|].
  - intros i. rewrite length_app /=. intros Hi. apply Hf. lia.
Qed.
Lemma inv_setup a p : keeps (ws_inv a) (_setupConnection p).
Proof.
  unfold _setupConnection. apply keeps_get_bind. intros s Hs. rewrite modify_bind.
  refine (keeps_bind _ _ _ (inv_out a (OConnected p) I) _ _ _); [intros []; apply keeps_ret|]. by apply (inv_new a p true).
Qed.
Lemma inv_accept a h : keeps (ws_inv a) (_handleConnection h).
Proof.
  destruct h as [[|c h]|]; cbn [_handleConnection]. 2: { keeps_step; [apply inv_setup|intros s Hs; apply Hs]. }
  all: apply keeps_get_bind; intros s Hs; rewrite modify_bind; apply inv_out; [done|].
  all: destruct s; by apply (inv_new a [] false _ Hs).
Qed.

Definition unopen (i : nat) (s : Sockets) : Sockets := s <| socks ::= alter (λ k, k <| k_open := false |>) i |>.
Lemma forget_buffers p s : sendBuffers (forget p s) = om_delete p (sendBuffers s).
Proof. unfold forget. by destruct (om_get p (sendBuffers s)). Qed.
Lemma inv_closed a i k s : ws_inv a s → socks s !! i = Some k → ws_inv a (unopen i (forget (k_peer k) s)).
Proof.
  intros Hs Hi. apply inv_unopen; [by apply inv_forget|]. intros q. rewrite forget_buffers om_get_delete. case_decide; [done|].
  intros Hq. destruct (wi_current _ _ Hs q i Hq) as (k' & Hk' & Hp & _). congruence.
Qed.

Lemma open_stop_comm i j (ks : list Sock) :
  alter (λ k, k <| k_buf ::= sb_stop |>) i (alter (λ k, k <| k_open := false |>) j ks) =
  alter (λ k, k <| k_open := false |>) j (alter (λ k, k <| k_buf ::= sb_stop |>) i ks).
Proof.
  destruct (decide (i = j)) as [->|Hij]; [rewrite !list_alter_alter_eq; by apply list_alter_ext|by apply list_alter_alter_ne].
Qed.
Lemma drop_buffer_eq p s : drop_buffer p s = (Ret tt, match om_get p (sendBuffers s) with
  | Some i => s <| socks ::= alter (λ k, k <| k_buf ::= sb_stop |>) i |> <| sendBuffers ::= om_delete p |> | None => s end).
Proof. unfold drop_buffer. rewrite get_bind. by destruct (om_get p (sendBuffers s)). Qed.
Lemma on_close_eq i k s : socks s !! i = Some k →
  on_close i s = out (ODisconnected (k_peer k)) (unopen i (forget (k_peer k) s)).
Proof.
  intros Hi. unfold on_close. rewrite get_bind Hi modify_bind. unfold mbind at 1, SM_bind. rewrite drop_buffer_eq modify_bind.
  destruct s as [ks cs bs ls os]. unfold forget, unopen. cbn -[om_get om_delete].
  destruct (om_get (k_peer k) bs) as [j|] eqn:Ej; f_equal.
  - exact (f_equal (λ l, MkSockets l (om_delete (k_peer k) cs) (om_delete (k_peer k) bs) ls os) (open_stop_comm j i ks)).
  - exact (f_equal (λ b, MkSockets (alter (λ k, k <| k_open := false |>) i ks) (om_delete (k_peer k) cs) b ls os) (eq_sym (om_delete_none _ bs Ej))).
Qed.
Lemma ws_close_eq p s : sendBuffers s = connections s →
  ws_close p s = match om_get p (sendBuffers s) with
                 | Some i => (Ret tt, (out (OCloseSock i None) (unopen i (forget p s))).2)
                 | None => (Ret tt, s)
                 end.
Proof.
  destruct s as [ks cs bs ls os]. intros Hm. cbn in Hm. subst bs. unfold ws_close, forget, unopen.
  unfold mbind at 1, SM_bind. rewrite drop_buffer_eq get_bind. cbn -[om_get om_delete].
  destruct (om_get p cs) as [i|] eqn:Ei; cbn -[om_get om_delete]; by rewrite Ei.
Qed.

Lemma inv_on_close a i : keeps (ws_inv a) (on_close i).
Proof.
  intros s Hs. destruct (socks s !! i) as [k|] eqn:Hi; [|by rewrite /on_close get_bind Hi].
  rewrite (on_close_eq i k) //. by apply inv_out, inv_closed.
Qed.
Lemma inv_close a p : keeps (ws_inv a) (ws_close p).
Proof.
  intros s Hs. rewrite ws_close_eq; [|by apply Hs]. destruct (om_get p (sendBuffers s)) as [i|] eqn:Ei; [|done].
  destruct (wi_current _ _ Hs p i Ei) as (k & Hk & <- & _). by apply inv_out, inv_closed.
Qed.
Lemma inv_closeAll a : keeps (ws_inv a) ws_closeAll.
Proof.
  unfold ws_closeAll. keeps_step; [apply keeps_get|]. keeps_step; [apply keeps_for_each; apply inv_close|].
  apply keeps_when. intros _. by apply inv_out.
Qed.
Lemma inv_on_message a i raw : keeps (ws_inv a) (on_message i raw).
Proof. unfold on_message. keeps_steps. by apply inv_out. Qed.
Lemma inv_on_error a i : keeps (ws_inv a) (on_error i).
Proof. unfold on_error. keeps_steps. by apply inv_out. Qed.

Lemma sock_frames_sent i j fs os : frames_on j (os ++ map (OFrame i) fs) = frames_on j os ++ (if decide (i = j) then fs else []).
Proof.
  rewrite sock_frames_app. f_equal. induction fs as [|f fs IH]; [by case_decide|]. cbn [map]. unfold frames_on in *. cbn.
  case_decide; by rewrite IH.
Qed.
Lemma accepted_new i j new a : accepted_on j (a ++ map (pair i) new) = accepted_on j a ++ (if decide (i = j) then new else []).
Proof.
  rewrite accepted_app. f_equal. induction new as [|p new IH]; [by case_decide|]. cbn [map]. unfold accepted_on in *. cbn.
  case_decide; by rewrite IH.
Qed.
Lemma sock_for_each_out {A} (f : A → SockOut) l s : for_each (λ x, out (f x)) l s = (Ret tt, s <| k_out ::= λ os, os ++ map f l |>).
Proof.
  destruct s as [ks cs bs ls os]. change (for_each (λ x, out (f x)) l (MkSockets ks cs bs ls os) = (Ret tt, MkSockets ks cs bs ls (os ++ map f l))).
  revert os. induction l as [|x l IH]; intros os; [by rewrite app_nil_r|].
  cbn [for_each map]. unfold out at 1. rewrite modify_bind. etrans; [apply (IH (os ++ [f x]))|]. by rewrite -app_assoc.
Qed.
Lemma send_frames_eq i k fs s : socks s !! i = Some k →
  send_frames i fs s = (Ret tt, s <| k_out ::= λ os, os ++ map (OFrame i) (if k_open k then fs else []) |>).
Proof.
  intros Hi. unfold send_frames. rewrite get_bind Hi. destruct (k_open k); [apply sock_for_each_out|]. exact (sock_for_each_out (OFrame i) [] s).
Qed.
Lemma lookup_upd i k f s : socks s !! i = Some k → socks (s <| socks ::= alter f i |>) !! i = Some (f k).
Proof. intros Hi. change (alter f i (socks s) !! i = Some (f k)). by rewrite list_lookup_alter_eq Hi. Qed.

(** The buffer of socket [i] takes the packets [new] and sends the frames [fs]. *)
Lemma inv_flushed a s i k b fs sent new :
  ws_inv a s → socks s !! i = Some k → buf_ok b → packets (k_buf k) ++ new = sent ++ packets b → carries MAX_FRAME_SIZE fs sent →
  (k_open k = true ∧ (new = [] ∨ om_get (k_peer k) (sendBuffers s) = Some i) ∨ packets b = [] ∧ new = [] ∧ k_open k = false) →
  ws_inv (a ++ map (pair i) new)
    (s <| socks ::= alter (λ k, k <| k_buf := b |>) i |> <| k_out ::= λ os, os ++ map (OFrame i) (if k_open k then fs else []) |>).
Proof.
  intros [Hm Hc Hs Hf] Hi Hb Hp Hcar Hcase. constructor; cbn; [done|..].
  - intros p j Hj. destruct (Hc p j Hj) as (k' & Hk' & Hrest). destruct (decide (j = i)) as [->|Hij].
    + exists (k' <| k_buf := b |>). by rewrite list_lookup_alter_eq Hk'.
    + exists k'. by rewrite list_lookup_alter_ne.
  - intros j kj. destruct (decide (i = j)) as [<-|Hij].
    + rewrite list_lookup_alter_eq Hi /=. intros [= <-]. destruct (Hs i k Hi) as [_ (sent0 & Hcar0 & Hpre & Heq)].
      constructor; [done|]. cbn. rewrite sock_frames_sent accepted_new !(decide_True (P := i = i)) //. destruct Hcase as [[-> Hcase]|(He & -> & Ho)].
      * exists (sent0 ++ sent). split; [by apply carries_app|]. rewrite -app_assoc -Hp app_assoc. split.
        -- destruct Hcase as [->|Hcur]; [by rewrite !app_nil_r|]. by rewrite -Heq.
        -- intros Hcur. by rewrite -Heq.
      * exists sent0. rewrite Ho He !app_nil_r. split; [done|]. split; [etrans; [|exact Hpre]; by apply prefix_app_r|].
        intros Hcur. destruct (Hc _ _ Hcur) as (k' & ? & _ & ?). congruence.
    + rewrite list_lookup_alter_ne //. intros Hj. destruct (Hs j kj Hj) as [Hbj (sent0 & Hsent)].
      constructor; [done|]. exists sent0. cbn. by rewrite sock_frames_sent accepted_new !(decide_False (P := i = j)) // !app_nil_r.
  - rewrite length_alter. intros j Hj. rewrite sock_frames_sent accepted_new. apply lookup_lt_Some in Hi.
    assert (i ≠ j) by lia. rewrite !(decide_False (P := i = j)) // !app_nil_r. by apply Hf.
Qed.

Lemma ws_timer_ok a i s : ws_inv a s → ∃ s', ws_timer i s = (Ret tt, s') ∧ ws_inv a s' ∧ sendBuffers s' = sendBuffers s ∧
  ∀ k, socks s !! i = Some k → ∃ k', socks s' !! i = Some k' ∧ k_peer k' = k_peer k ∧ packets (k_buf k') = [].
Proof.
  intros Hs. unfold ws_timer. rewrite get_bind. destruct (socks s !! i) as [k|] eqn:Hi; [|by exists s].
  destruct (timer (k_buf k)) eqn:Ht.
  - destruct (timer_flushes (k_buf k)) as (b & fs & Hf & Hb & He & Hcar); [by eapply so_buf, wi_sock|].
    rewrite Hf. unfold mbind at 1, SM_bind. cbn [lift]. unfold upd_sock. rewrite modify_bind.
    rewrite (send_frames_eq i (k <| k_buf := b |>)) ; [|by apply lookup_upd]. eexists. split; [done|]. split_and!; [|done|].
    + rewrite -(app_nil_r a). apply (inv_flushed a s i k b fs (packets (k_buf k)) []); [done..| |done|].
      * by rewrite He.
      * destruct (k_open k); [by left; auto|by right].
    + intros k0 [= <-]. exists (k <| k_buf := b |>). split; [by apply lookup_upd|done].
  - exists s. split_and!; [done..|]. intros k0 [= <-]. exists k. split_and!; [done..|].
    destruct (so_buf _ _ _ _ (wi_sock _ _ Hs i k Hi)) as [(_ & _ & Harm) _ _ _ _].
    destruct (packets (k_buf k)); [done|]. by rewrite Harm in Ht.
Qed.
Lemma ws_send_ok a p data s : ws_inv a s → mesh_packet data → ∃ s',
  ws_send p data s = (Ret (bool_decide (is_Some (om_get p (sendBuffers s)))), s') ∧
  ws_inv (match om_get p (sendBuffers s) with Some i => a ++ [(i, data)] | None => a end) s'.
Proof.
  intros Hs Hd. unfold ws_send. rewrite get_bind. destruct (om_get p (sendBuffers s)) as [i|] eqn:Ep; [|by exists s].
  destruct (wi_current _ _ Hs p i Ep) as (k & Hi & Hkp & Ho). rewrite Hi.
  destruct (push_accepts data (k_buf k)) as (b & fs & sent & Hpush & Hb & Happ & Hcar); [by eapply so_buf, wi_sock|done|].
  rewrite Hpush. unfold mbind at 1, SM_bind. cbn [lift]. unfold upd_sock. rewrite modify_bind. unfold mbind, SM_bind.
  rewrite (send_frames_eq i (k <| k_buf := b |>)) ; [|by apply lookup_upd]. eexists. split; [done|].
  apply (inv_flushed a s i k b fs sent [data]); try done. left. rewrite Hkp. auto.
Qed.

(** ** Whole histories *)

Definition send_ok (o : ws_op) : Prop := match o with WSend _ data => mesh_packet data | _ => True end.
#[export] Instance send_ok_dec o : Decision (send_ok o).
Proof. destruct o; try (by left). cbn. unfold mesh_packet, plain. apply _. Defined.

Definition ws_ok (sa : Sockets * accepted) : Prop := ws_inv sa.2 sa.1 ∧ Forall (λ e, mesh_packet e.2) sa.2.

Lemma ws_ok_start : ws_ok (no_sockets, []).
Proof. by repeat constructor. Qed.
Lemma ws_ok_apply o sa : send_ok o → ws_ok sa → ws_ok (ws_apply o sa).2.
Proof.
  destruct sa as [s a]. intros Ho [Hs Ha]. cbn in Hs, Ha.
  assert (∀ m : K (), keeps (ws_inv a) m → ws_ok (let '(r, s') := m s in (r, (s', a))).2) as Hrun.
  { intros m Hm. specialize (Hm s Hs). by destruct (m s). }
  destruct o as [p|h|p data|i|i raw|i|i|p|]; cbn [ws_apply].
  - apply Hrun. keeps_step; [apply inv_setup|apply keeps_ret].
  - apply Hrun, inv_accept.
  - destruct (ws_send_ok a p data s Hs Ho) as (s' & -> & Hs'). case_bool_decide as Hp; cbn.
    + destruct Hp as [i Hi]. rewrite Hi in Hs' |- *. split; [done|]. apply Forall_app_2; [done|]. by apply Forall_singleton.
    + apply eq_None_not_Some in Hp. by rewrite Hp in Hs' |- *.
  - apply Hrun. intros s1 Hs1. by destruct (ws_timer_ok a i s1 Hs1) as (s' & -> & Hs' & _).
  - apply Hrun, inv_on_message.
  - apply Hrun, inv_on_close.
  - apply Hrun, inv_on_error.
  - apply Hrun, inv_close.
  - apply Hrun, inv_closeAll.
Qed.
Lemma ws_ok_run ops sa : Forall send_ok ops → ws_ok sa → ws_ok (ws_run ops sa).
Proof. intros Hops. revert sa. induction Hops as [|o ops Ho _ IH]; intros sa Hsa; [done|]. by apply IH, ws_ok_apply. Qed.

(** The other end hands over the packets of the frames it reads. *)
Lemma sock_message_eq j k f ps r : socks r !! j = Some k → unframe f = Ret (Some ps) →
  on_message j f r = (Ret tt, r <| k_out ::= λ os, os ++ map (OMessage (k_peer k)) ps |>).
Proof.
  intros Hj Hf. unfold on_message. rewrite get_bind Hj Hf. unfold mbind, SM_bind. cbn [lift]. apply sock_for_each_out.
Qed.
Lemma sock_receives j k fs r : socks r !! j = Some k → Forall (λ f, ∃ ps, unframe f = Ret (Some ps)) fs →
  for_each (on_message j) fs r = (Ret tt, r <| k_out ::= λ os, os ++ map (OMessage (k_peer k)) (received fs) |>).
Proof.
  intros Hj Hfs. revert r Hj. induction Hfs as [|f fs (ps & Hf) _ IH]; intros r Hj.
  - destruct r as [ks cs bs ls os]. change ((Ret tt : outcome (), MkSockets ks cs bs ls os) = (Ret tt, MkSockets ks cs bs ls (os ++ []))).
    by rewrite app_nil_r.
  - cbn [for_each]. unfold mbind at 1, SM_bind. rewrite (sock_message_eq j k f ps) // IH //. destruct r as [ks cs bs ls os]. unfold received. csimpl. rewrite Hf map_app.
    exact (f_equal (λ l, (Ret tt : outcome (), MkSockets ks cs bs ls l)) (eq_sym (app_assoc _ _ _))).
Qed.

Lemma forall_plain a i : Forall (λ e, mesh_packet e.2) a → Forall plain (accepted_on i a).
Proof.
  intros Ha. apply Forall_forall. intros p Hp. unfold accepted_on in Hp. apply list_elem_of_omap in Hp as ([j q] & Hin & Hq). case_decide; [|done].
  injection Hq as <-. rewrite Forall_forall in Ha. by destruct (Ha _ Hin).
Qed.
Lemma sock_received a s i k : ws_inv a s → Forall (λ e, mesh_packet e.2) a → socks s !! i = Some k →
  Forall (λ f, ∃ ps, unframe f = Ret (Some ps)) (frames_on i (k_out s)) ∧
  (received (frames_on i (k_out s)) ++ packets (k_buf k)) `prefix_of` accepted_on i a ∧
  (om_get (k_peer k) (sendBuffers s) = Some i → accepted_on i a = received (frames_on i (k_out s)) ++ packets (k_buf k)).
Proof.
  intros Hs Ha Hi. destruct (wi_sock _ _ Hs i k Hi) as [_ (sent & Hcar & Hpre & Heq)].
  assert (Forall plain sent) as Hp.
  { pose proof (forall_plain a i Ha) as Hall. destruct Hpre as [l Hl]. rewrite Hl in Hall. by do 2 apply Forall_app in Hall as [Hall _]. }
  rewrite (carries_received MAX_FRAME_SIZE _ sent) //. split; [by apply (carries_decoded MAX_FRAME_SIZE _ sent)|done].
Qed.

(** C39: The WebSocket transports, the mesh's reliable carrier: whatever peers connect,
    reconnect, close and send, every packet for a connected peer is accepted, and no
    operation of its sender throws; what the other end of a socket hands over is a
    prefix of what was accepted for it, in order, and on the current socket of a peer
    all of it but the packets in its buffer, which the flush timer then sends. *)
Theorem ws_delivers ops s a (rcv : Sockets) j kj :
  Forall send_ok ops → ws_run ops (no_sockets, []) = (s, a) → socks rcv !! j = Some kj →
  (∀ p data, mesh_packet data → (ws_send p data s).1 = Ret (bool_decide (is_Some (om_get p (connections s))))) ∧
  (∀ i, (received (frames_on i (k_out s))) `prefix_of` accepted_on i a ∧
        for_each (on_message j) (frames_on i (k_out s)) rcv =
          (Ret tt, rcv <| k_out ::= λ os, os ++ map (OMessage (k_peer kj)) (received (frames_on i (k_out s))) |>)) ∧
  (∀ p i, om_get p (connections s) = Some i → ∃ k, socks s !! i = Some k ∧ k_peer k = p ∧ k_open k = true ∧
    accepted_on i a = received (frames_on i (k_out s)) ++ packets (k_buf k) ∧
    (packets (k_buf k) ≠ [] → timer (k_buf k) = true) ∧
    received (frames_on i (k_out (ws_timer i s).2)) = accepted_on i a).
Proof.
  intros Hops Hrun Hj. destruct (ws_ok_run ops _ Hops ws_ok_start) as [Hs Ha]. rewrite Hrun in Hs, Ha. cbn in Hs, Ha. rewrite -(wi_maps _ _ Hs).
  split; [|split].
  - intros p data Hd. by destruct (ws_send_ok a p data s Hs Hd) as (s' & -> & _).
  - intros i. destruct (socks s !! i) as [k|] eqn:Hi.
    + destruct (sock_received a s i k Hs Ha Hi) as (Hdec & Hpre & _). split; [etrans; [|exact Hpre]; by apply prefix_app_r|].
      by apply sock_receives.
    + apply lookup_ge_None in Hi. destruct (wi_fresh _ _ Hs i Hi) as [-> ->]. split; [done|]. by apply (sock_receives j kj []).
  - intros p i Hp. destruct (wi_current _ _ Hs p i Hp) as (k & Hi & <- & Ho). exists k. split_and!; [done..| | |].
    + by apply (sock_received a s i k).
    + by destruct (so_buf _ _ _ _ (wi_sock _ _ Hs i k Hi)) as [(_ & _ & ?) _ _ _ _].
    + destruct (ws_timer_ok a i s Hs) as (s' & -> & Hs' & Hm & Hk). destruct (Hk k Hi) as (k' & Hi' & Hp' & He).
      destruct (sock_received a s' i k' Hs' Ha Hi') as (_ & _ & Heq). cbn. rewrite Heq ?He ?app_nil_r //. by rewrite Hp' Hm.
Qed.

(** Two peers; one reconnects over an open socket whose buffer still holds a packet. *)
Definition alice : jstr := js "alice".
Definition bob : jstr := js "bob".
Definition packet (n : Z) : buffer := replicate 30 n.
Definition two_peers : list ws_op :=
  [WConnect alice; WSend alice (packet 1); WSend alice (packet 2); WAccept (Some bob); WAccept None; WSend bob (packet 3);
   WTimer 0; WConnect alice; WSend alice (packet 4); WClosed 1; WSend bob (packet 5); WSend alice (packet 6)].
Definition one_socket : Sockets := no_sockets <| socks := [MkSock bob true (sb_new None None)] |>.

Lemma ws_delivers_witness :
  Forall send_ok two_peers ∧
  (∀ p i, om_get p (connections (ws_run two_peers (no_sockets, [])).1) = Some i →
     ∃ k, socks (ws_run two_peers (no_sockets, [])).1 !! i = Some k ∧ k_peer k = p ∧ k_open k = true ∧
     accepted_on i (ws_run two_peers (no_sockets, [])).2 =
       received (frames_on i (k_out (ws_run two_peers (no_sockets, [])).1)) ++ packets (k_buf k) ∧
     (packets (k_buf k) ≠ [] → timer (k_buf k) = true) ∧
     received (frames_on i (k_out (ws_timer i (ws_run two_peers (no_sockets, [])).1).2)) = accepted_on i (ws_run two_peers (no_sockets, [])).2).
Proof.
  split; [apply (bool_decide_unpack _); vm_compute; reflexivity|].
  apply (ws_delivers two_peers _ _ one_socket 0 (MkSock bob true (sb_new None None))).
  - apply (bool_decide_unpack _). vm_compute. reflexivity.
  - apply surjective_pairing.
  - reflexivity.
Defined.

(** The 'close' of an old socket, when its peer has reconnected meanwhile, takes the new
    connection with it: its buffer is stopped, its entry deleted and the peer reported
    as gone, although its socket is open. *)
Example stale_close_drops_new_connection :
  let '(s, a) := ws_run [WConnect alice; WConnect alice; WSend alice (packet 1); WClosed 0; WTimer 1] (no_sockets, []) in
  ws_open s 1 = true ∧ connections s = [] ∧ accepted_on 1 a = [packet 1] ∧
  k_out s = [OConnected alice; OConnected alice; ODisconnected alice] ∧ (ws_send alice (packet 2) s).1 = Ret false.
Proof. vm_compute. done. Qed.

(** What [push] answers is ignored: a packet a full buffer refuses counts as sent. *)
Example refused_packet_counts_as_sent :
  let '(s, a) := ws_run (WConnect alice :: repeat (WSend alice []) 2048) (no_sockets, []) in
  (ws_send alice [] s).1 = Ret true ∧ (ws_send alice [] s).2 = s.
Proof. vm_compute. done. Qed.
