(* ===== verification/Quic.v ===== *)
(** * The QUIC transport (src/transport/quic.js)

    [QuicTransport] sends datagrams over one UDP socket: sixteen bytes of a peer id and
    the payload sealed with the peer's session key.  The peers' addresses are set by
    the caller or learnt from datagrams that can be opened.  Random bytes (the IV) and
    the random port of the port hopping are arguments. *)

From S2P Require Import Prelude JsMap Bytes JsString Effects Crypto.
Local Open Scope Z_scope.
#[local] Unset Default Proof Using.

Record QuicTransport := MkQuic {
  q_port : Z;
  q_socket : bool;                           (* socket is not null *)
  q_connections : omap jstr bool;
  q_peerAddresses : omap jstr (jstr * Z);
  q_sessionKeys : omap jstr buffer;
  q_hopping : bool                           (* portHoppingTimer runs *)
}.
#[export] Instance eta_QuicTransport : Eta QuicTransport := λ q,
  MkQuic (q_port q) (q_socket q) (q_connections q) (q_peerAddresses q) (q_sessionKeys q) (q_hopping q).

Inductive QuicOut :=
  | QDatagram (packet : buffer) (port : Z) (address : jstr)      (* socket.send *)
  | QConnected (peerId : jstr)
  | QDisconnected (peerId : jstr)
  | QMessage (peerId : jstr) (data : buffer)
  | QPortChanged (oldPort newPort : Z)
  | QSocketClosed.

Definition new_quic (port : option Z) : QuicTransport := MkQuic (default 0 port) false [] [] [] false.
(** [start], once the socket listens on [port]. *)
Definition q_start (port : Z) (portHopping : bool) (q : QuicTransport) : QuicTransport :=
  q <| q_socket := true |> <| q_port := port |> <| q_hopping := portHopping |>.

Definition setSessionKey (peerId : jstr) (key : buffer) (q : QuicTransport) : QuicTransport :=
  q <| q_sessionKeys ::= om_set peerId key |>.
Definition setPeerAddress (peerId address : jstr) (port : Z) (q : QuicTransport) : QuicTransport * list QuicOut :=
  (q <| q_peerAddresses ::= om_set peerId (address, port) |> <| q_connections ::= om_set peerId true |>, [QConnected peerId]).

(** The header of a datagram, and the id read from it. *)
Definition id_header (peerId : jstr) : buffer := utf8_encode (slice0 16 (pad_end 16 0 peerId)).
Definition header_id (header : buffer) : jstr := js_trim (strip_nul (utf8_decode header)).

Section quic.
Context `{Aead}.
(** [createDecipheriv], [setAuthTag], [update] and [final] for any length of IV and tag. *)
Context (decipher : buffer → buffer → buffer → buffer → outcome buffer).

Definition _encrypt (iv data key : buffer) : outcome buffer :=
  guard_js (length key =? 32)%nat RangeError ;;
  let '(encrypted, authTag) := seal key iv data in
  Ret (iv ++ authTag ++ encrypted).
Definition _decrypt (data key : buffer) : outcome buffer :=
  decipher key (subarray 0 12 data) (subarray 12 28 data) (drop 28 data).

(** [send]: whatever throws inside the [try] makes it answer [false]. *)
Definition q_send (iv : buffer) (peerId : jstr) (d : data) (q : QuicTransport) : bool * list QuicOut :=
  match om_get peerId (q_peerAddresses q), om_get peerId (q_sessionKeys q) with
  | Some (address, port), Some sessionKey =>
      match _encrypt iv (of_text d) sessionKey with
      | Throw _ => (false, [])
      | Ret encrypted =>
          let packet := buf_copy encrypted 16 (buf_copy (id_header peerId) 0 (buf_alloc (length encrypted + 16))) in
          if q_socket q then (true, [QDatagram packet port address]) else (false, [])
      end
  | _, _ => (false, [])
  end.

Definition q_handleMessage (msg : buffer) (address : jstr) (port : Z) (q : QuicTransport) : QuicTransport * list QuicOut :=
  if blen msg <? 17 then (q, [])
  else
    let peerId := header_id (subarray 0 16 msg) in
    match om_get peerId (q_sessionKeys q) with
    | None => (q, [])
    | Some sessionKey =>
        match _decrypt (drop 16 msg) sessionKey with
        | Throw _ => (q, [])
        | Ret decrypted =>
            let q := q <| q_peerAddresses ::= om_set peerId (address, port) |> in
            if om_has peerId (q_connections q) then (q, [QMessage peerId decrypted])
            else (q <| q_connections ::= om_set peerId true |>, [QConnected peerId; QMessage peerId decrypted])
        end
    end.

Definition q_isConnected (peerId : jstr) (q : QuicTransport) : bool :=
  om_has peerId (q_connections q) && om_has peerId (q_peerAddresses q).
Definition q_close (peerId : jstr) (q : QuicTransport) : QuicTransport * list QuicOut :=
  (q <| q_connections ::= om_delete peerId |> <| q_peerAddresses ::= om_delete peerId |> <| q_sessionKeys ::= om_delete peerId |>,
   [QDisconnected peerId]).
Definition q_closeAll (q : QuicTransport) : QuicTransport * list QuicOut :=
  let '(q, os) := foldl (λ '(q, os) p, let '(q, os') := q_close p q in (q, os ++ os'))
                    (q <| q_hopping := false |>, []) (om_keys (q_connections q)) in
  (q, os ++ (if q_socket q then [QSocketClosed] else [])).

(** A tick of the port hopping, the new socket bound ([_rebind]); [r]: the random number
    below 55000. *)
Definition q_hop (r : Z) (bound : bool) (q : QuicTransport) : QuicTransport * list QuicOut :=
  let newPort := 10000 + r in
  if bound then
    (q <| q_socket := true |> <| q_port := newPort |>,
     (if q_socket q then [QSocketClosed] else []) ++ [QPortChanged (q_port q) newPort])
  else (q, []).

(** ** What a datagram carries *)

(** Ids as the mesh has them: at most 16 ASCII characters, none a NUL or white space. *)
Definition header_ok (s : jstr) : Prop :=
  (length s <= 16)%nat ∧ ascii_str s ∧ Forall (λ c, c ≠ 0 ∧ js_space c = false) s.

Lemma id_header_ok s : header_ok s → length (id_header s) = 16%nat ∧ header_id (id_header s) = s.
Proof.
  intros (Hl & Ha & Hs). assert (ascii_str (pad_end 16 0 s)) as Hp by (apply Forall_app_2; [done|by apply Forall_replicate]).
  unfold id_header, header_id, slice0. rewrite (take_ge (pad_end 16 0 s)) ?length_pad_end //.
  rewrite ascii_encode // ascii_decode // length_pad_end //. split; [done|].
  assert (Forall (λ c, c ≠ 0) s ∧ Forall (λ c, js_space c = false) s) as [H0 Hsp] by (by apply Forall_and).
  rewrite strip_nul_pad //. by apply trim_id.
Qed.

Lemma datagram_parts (h e : buffer) : length h = 16%nat →
  buf_copy e 16 (buf_copy h 0 (buf_alloc (length e + 16))) = h ++ e.
Proof.
  intros Hh. rewrite Nat.add_comm (buf_alloc_split 16); [|lia]. replace (16 + length e - 16)%nat with (length e) by lia.
  pose proof (buf_copy_mid h [] (buf_alloc 16) (buf_alloc (length e)) 0) as E. cbn [app length] in E.
  rewrite E ?length_buf_alloc //. pose proof (buf_copy_mid e h (buf_alloc (length e)) [] 16) as E2. rewrite !app_nil_r in E2.
  by rewrite E2 ?length_buf_alloc.
Qed.

(** With the documented behaviour of the cipher on full tags, what was sealed opens. *)
Hypothesis decipher_full : ∀ k iv tag ct, length k = 32%nat → length iv = 12%nat → length tag = 16%nat →
  decipher k iv tag ct = match open k iv tag ct with Some p => Ret p | None => Throw (Error "unable to authenticate data") end.

Lemma decrypt_encrypt iv d key e : length iv = 12%nat → length key = 32%nat → _encrypt iv d key = Ret e → _decrypt e key = Ret d.
Proof.
  intros Hiv Hk He. unfold _encrypt in He. rewrite Hk /= in He. destruct (seal key iv d) as [ct tag] eqn:Es.
  injection He as <-. pose proof (proj2 (seal_length key iv d)) as Ht. rewrite Es /= in Ht. unfold _decrypt.
  rewrite (subarray_mid [] iv) /= ?Hiv // (subarray_mid iv tag) ?Hiv ?Ht //.
  rewrite (app_assoc iv tag) (drop_app_exact (iv ++ tag)); [|rewrite length_app; lia]. rewrite decipher_full //.
  by rewrite (proj2 (open_seal key iv d ct tag) Es).
Qed.

(** A datagram names its addressee.  A peer that shares the session key under that same
    id reads the packet, takes it for one of that id's and learns the sender's address;
    a peer with no key under that id (its own) drops it. *)
Lemma quic_datagram iv id d key addr port (q r : QuicTransport) from fport :
  header_ok id → length iv = 12%nat → length key = 32%nat → q_socket q = true →
  om_get id (q_peerAddresses q) = Some (addr, port) → om_get id (q_sessionKeys q) = Some key →
  ∃ packet, q_send iv id (Buf d) q = (true, [QDatagram packet port addr]) ∧ length packet = (44 + length d)%nat ∧
    (om_get id (q_sessionKeys r) = Some key →
       let '(r', os) := q_handleMessage packet from fport r in
       last os = Some (QMessage id d) ∧ q_isConnected id r' = true ∧ om_get id (q_peerAddresses r') = Some (from, fport)) ∧
    (om_get id (q_sessionKeys r) = None → q_handleMessage packet from fport r = (r, [])).
Proof.
  intros Hid Hiv Hk Hso Ha Hkey. destruct (id_header_ok id Hid) as [Hlen Hdec]. unfold q_send. rewrite Ha Hkey.
  destruct (_encrypt iv d key) as [e|] eqn:He; [|by rewrite /_encrypt Hk /= in He; destruct (seal key iv d)].
  cbn [of_text]. rewrite He Hso datagram_parts //. exists (id_header id ++ e). split; [done|].
  assert (length e = 28 + length d)%nat as Hle.
  { rewrite /_encrypt Hk /= in He. pose proof (seal_length key iv d) as [Hc Ht]. destruct (seal key iv d) as [ct tag].
    injection He as <-. cbn in Hc, Ht. rewrite !length_app. lia. }
  rewrite length_app Hlen Hle. split; [lia|]. unfold q_handleMessage.
  assert ((blen (id_header id ++ e) <? 17) = false) as -> by (apply Z.ltb_ge; unfold blen; rewrite length_app; lia).
  rewrite (subarray_mid [] (id_header id)) /= ?Hlen // Hdec (drop_app_exact (id_header id)) //.
  split; intros Hr; rewrite Hr; [|done]. rewrite (decrypt_encrypt iv d key e) //. unfold q_isConnected.
  destruct (om_has id (q_connections _)) eqn:Hc; cbn -[om_set om_has om_get] in *.
  - rewrite Hc /= om_get_set_eq. split_and!; [done| |done]. apply om_has_get. by rewrite om_get_set_eq.
  - split_and!; [done| |by rewrite om_get_set_eq]. apply andb_true_intro. by rewrite !om_has_get !om_get_set_eq.
Qed.
End quic.

(** Two nodes that hold the session key under each other's ids, as discovery sets them:
    the receiver looks for a key under its own id, and drops the datagram. *)
Example receiver_looks_up_itself :
  let key := replicate 32 7 in
  let decipher k iv tag ct := match @open toy_aead k iv tag ct with Some p => Ret p | None => Throw (Error "unable to authenticate data") end in
  let a := (setPeerAddress (js "bob") (js "10.0.0.2") 4000 (setSessionKey (js "bob") key (q_start 4001 false (new_quic None)))).1 in
  let b := setSessionKey (js "alice") key (q_start 4000 false (new_quic None)) in
  match @q_send toy_aead (replicate 12 1) (js "bob") (Str (js "hello")) a with
  | (true, [QDatagram packet 4000 _]) => q_handleMessage decipher packet (js "10.0.0.1") 4001 b = (b, [])
  | _ => False
  end.
Proof. by vm_compute. Qed.
