(* ===== verification/WebRtc.v ===== *)
(** * The WebRTC transport (src/transport/webrtc.js)

    [WebRTCTransport] makes peer connections and data channels with node-datachannel
    and reacts to their callbacks.  The connections ([w_pcs]), channels ([w_dcs]) and
    send buffers ([w_buffers]) are numbered in the order of their creation, and a
    callback of one may come at any time, after it was replaced or destroyed too: each
    closes over the peer and the epoch it was made for.  What the library answers comes
    with the operation: whether a call throws, the local description, the gathering
    state, [isReady] of each push and flush. *)

From S2P Require Import Prelude JsMap Bytes JsString Effects Framing SendBuffer.
Local Open Scope Z_scope.
#[local] Unset Default Proof Using.

Definition ICE_GATHERING_TIMEOUT_OFFER_MS : Z := 45000.
Definition ICE_GATHERING_TIMEOUT_ANSWER_MS : Z := 90000.
Definition ICE_GATHERING_GRACE_ROUNDS : nat := 24.
Definition ICE_GATHERING_GRACE_MS : Z := 150.
Definition ICE_SDP_MIN_CANDIDATE_BYTES : Z := 480.

(** [convertIceServers]: the servers as node-datachannel takes them. *)
Record IceServer := MkIceServer { is_urls : list jstr; is_username : jstr; is_credential : jstr }.
Inductive IceMode := IceAuto | IceRelay | IceDirect.
#[export] Instance IceMode_dec : EqDecision IceMode.
Proof. solve_decision. Defined.

Definition is_stun (url : jstr) : bool := starts_with (js "stun:") url.
Definition is_turn (url : jstr) : bool := starts_with (js "turn:") url || starts_with (js "turns:") url.
(** [url.replace(/^turns?:/, '')] of a TURN url. *)
Definition turn_addr (url : jstr) : jstr := drop (if starts_with (js "turns:") url then 6%nat else 5%nat) url.
Definition ice_url (mode : IceMode) (s : IceServer) (url : jstr) : option jstr :=
  match url with
  | [] => None
  | _ =>
      if bool_decide (mode = IceRelay) && is_stun url then None
      else if bool_decide (mode = IceDirect) && is_turn url then None
      else if is_turn url && (bool_decide (is_username s ≠ []) || bool_decide (is_credential s ≠ [])) then
        Some ((if starts_with (js "turns:") url then js "turns" else js "turn") ++ js ":" ++ is_username s ++ js ":" ++
              is_credential s ++ js "@" ++ turn_addr url)
      else Some url
  end.
Definition convertIceServers (servers : list IceServer) (mode : IceMode) : list jstr :=
  servers ≫= λ s, base.omap (ice_url mode s) (is_urls s).

(** Relay mode keeps no STUN server, direct mode no TURN server. *)
Lemma convertIceServers_mode servers url :
  (url ∈ convertIceServers servers IceRelay → is_stun url = false) ∧ (url ∈ convertIceServers servers IceDirect → is_turn url = false).
Proof.
  assert (∀ mode, url ∈ convertIceServers servers mode → ∃ s u, ice_url mode s u = Some url) as Hin.
  { intros mode (s & Hs & _)%list_elem_of_bind. apply list_elem_of_omap in Hs as (u & _ & Hu). by exists s, u. }
  split; intros (s & u & Hu)%Hin; unfold ice_url in Hu; destruct u as [|c u]; try done; cbn [bool_decide] in Hu.
  - destruct (is_stun (c :: u)) eqn:Hs; [done|]. cbn [andb] in Hu. rewrite andb_false_r in Hu. destruct (is_turn (c :: u) && _); [|by injection Hu as <-].
    injection Hu as <-. by destruct (starts_with (js "turns:") (c :: u)).
  - destruct (is_turn (c :: u)) eqn:Ht; [by rewrite andb_true_r in Hu|]. cbn in Hu. by injection Hu as <-.
Qed.

(** ** State *)

Inductive SdpKind := KOffer | KAnswer.
#[export] Instance SdpKind_dec : EqDecision SdpKind.
Proof. solve_decision. Defined.

(** A promise of an offer or answer, to be settled with the local description; the
    promises are numbered. *)
Record Entry := MkEntry {
  en_epoch : Z; en_promise : nat; en_timeout : nat; en_pc : nat; en_kind : SdpKind; en_timeoutMs : Z
}.
(** An armed timer of [_finishSdpAfterGatheringTimeout]. *)
Record SdpTimer := MkSdpTimer { st_id : nat; st_peer : jstr; st_epoch : Z; st_pc : nat; st_round : nat; st_delay : Z }.

(** [pc.localDescription()]: null or a description with a type and a text (an empty
    text is as good as none). *)
Record LocalDescription := MkDescription { ld_type : option jstr; ld_sdp : jstr }.

Inductive RtcOut :=
  | OCreatePc (pc : nat) | ODestroyPc (pc : nat)
  | OSetRemote (pc : nat) (sdp : jstr) (kind : SdpKind)
  | OAddCandidate (pc : nat) (candidate mid : jstr)
  | OCreateDc (dc : nat) | OCloseDc (dc : nat)
  | OFrame (dc : nat) (frame : buffer)                     (* dc.sendMessageBinary *)
  | OResolve (promise : nat) (type : SdpKind) (sdp : jstr)
  | OReject (promise : nat)
  | OIceCandidate (peerId : jstr) (candidate mid : jstr)   (* the events emitted *)
  | OConnectionState (peerId state : jstr)
  | OConnected (peerId : jstr)
  | ODisconnected (peerId : jstr)
  | OMessage (peerId : jstr) (packet : buffer)
  | OError (peerId : jstr)
  | OBufferLow (peerId : jstr).                            (* on the next tick *)

Record WebRTC := MkRtc {
  w_queueMax : Z;                               (* sendBufferMaxQueue *)
  w_overflowMax : Z;                            (* sendOverflowMax *)
  w_overflow : omap jstr (list buffer);         (* _sendOverflow *)
  w_blocked : Z;                                (* _overflowBlocked *)
  w_connections : omap jstr nat;
  w_dataChannels : omap jstr nat;
  w_sendBuffers : omap jstr nat;
  w_sdp : omap jstr Entry;                      (* _sdpAfterGathering *)
  w_remoteDesc : oset jstr;                     (* _remoteDescForTrickle *)
  w_pendingIce : omap jstr (list (jstr * jstr)); (* _pendingRemoteIce *)
  w_discTimers : oset jstr;                     (* _peerDisconnectEmitTimer *)
  w_epoch : omap jstr Z;                        (* _connectionEpoch *)
  w_hsGen : omap jstr Z;                        (* _handshakeGen *)
  w_dcOpen : omap jstr Z;                       (* _dcOpenEpoch *)
  w_turn : omap jstr bool;                      (* _turnConnections *)
  w_pcs : list (jstr * Z * SdpKind);
  w_dcs : list (jstr * Z);
  w_buffers : list (nat * TransportSendBuffer); (* the channel a buffer sends to *)
  w_timers : list SdpTimer;
  w_nextTimer : nat;
  w_promises : nat;
  w_out : list RtcOut
}.
#[export] Instance eta_WebRTC : Eta WebRTC := λ w,
  MkRtc (w_queueMax w) (w_overflowMax w) (w_overflow w) (w_blocked w) (w_connections w) (w_dataChannels w) (w_sendBuffers w)
    (w_sdp w) (w_remoteDesc w) (w_pendingIce w) (w_discTimers w) (w_epoch w) (w_hsGen w) (w_dcOpen w) (w_turn w)
    (w_pcs w) (w_dcs w) (w_buffers w) (w_timers w) (w_nextTimer w) (w_promises w) (w_out w).

(** [sendBufferMaxQueue ?? 2000] and [sendOverflowMax ?? 8000]. *)
Definition new_webrtc (queueMax overflowMax : option Z) : WebRTC :=
  MkRtc (default 2000 queueMax) (default 8000 overflowMax) [] 0 [] [] [] [] [] [] [] [] [] [] [] [] [] [] [] 0 0 [].

Definition R := SM WebRTC.
Definition out (o : RtcOut) : R () := modify (λ w, w <| w_out ::= λ l, l ++ [o] |>).
Lemma for_each_out {A} (f : A → RtcOut) l w : for_each (λ x, out (f x)) l w = (Ret tt, w <| w_out ::= λ os, os ++ map f l |>).
Proof.
  destruct w as [? ? ? ? ? ? ? ? ? ? ? ? ? ? ? ? ? ? ? ? ? os]. unfold set_field. cbn -[for_each]. revert os.
  induction l as [|x l IH]; intros os; cbn [for_each map]; [by rewrite app_nil_r|].
  unfold out at 1. rewrite modify_bind. etrans; [apply (IH (os ++ [f x]))|]. by rewrite -app_assoc.
Qed.
(** Whether [epoch] is the current one of the peer. *)
Definition current (peerId : jstr) (epoch : Z) (w : WebRTC) : bool := bool_decide (om_get peerId (w_epoch w) = Some epoch).

(** ** Timers and promises *)

(** [setTimeout(() => this._finishSdpAfterGatheringTimeout(...), delay)]: its id. *)
Definition set_sdp_timer (peerId : jstr) (epoch : Z) (pc round : nat) (delay : Z) : R nat :=
  w ← get;
  let id := w_nextTimer w in
  modify (λ w, w <| w_timers ::= λ l, l ++ [MkSdpTimer id peerId epoch pc round delay] |> <| w_nextTimer ::= S |>) ;;
  mret id.
Definition clearTimeout (id : nat) : R () :=
  modify (λ w, w <| w_timers ::= List.filter (λ t, negb (st_id t =? id)%nat) |>).
Definition new_promise : R nat :=
  w ← get; modify (λ w, w <| w_promises ::= S |>) ;; mret (w_promises w).

Definition _cancelPeerDisconnectEmit (peerId : jstr) : R () := modify (λ w, w <| w_discTimers ::= os_delete peerId |>).
(** At most one timer per peer. *)
Definition _emitPeerDisconnectSoon (peerId : jstr) : R () := modify (λ w, w <| w_discTimers ::= os_add peerId |>).
Definition disconnect_timer (peerId : jstr) : R () :=
  w ← get;
  when (os_has peerId (w_discTimers w))
    (modify (λ w, w <| w_discTimers ::= os_delete peerId |>) ;; out (ODisconnected peerId)).

(** ** Closing *)

Definition upd_buffer (i : nat) (f : TransportSendBuffer → TransportSendBuffer) : R () :=
  modify (λ w, w <| w_buffers ::= alter (prod_map id f) i |>).
(** [if (sb) { sb.stop(); this.sendBuffers.delete(peerId); }] *)
Definition drop_send_buffer (peerId : jstr) : R () :=
  w ← get;
  match om_get peerId (w_sendBuffers w) with
  | Some i => upd_buffer i sb_stop ;; modify (λ w, w <| w_sendBuffers ::= om_delete peerId |>)
  | None => skip
  end.

Definition _tearDownPeerWebRtcState (peerId : jstr) (cancelDisconnectEmit : bool) : R () :=
  modify (λ w, w <| w_remoteDesc ::= os_delete peerId |> <| w_pendingIce ::= om_delete peerId |>
                 <| w_overflow ::= om_delete peerId |>) ;;
  drop_send_buffer peerId ;;
  w ← get;
  match om_get peerId (w_dataChannels w) with
  | Some dc => out (OCloseDc dc) ;; modify (λ w, w <| w_dataChannels ::= om_delete peerId |>)
  | None => skip
  end ;;
  match om_get peerId (w_connections w) with
  | Some pc => out (ODestroyPc pc) ;; modify (λ w, w <| w_connections ::= om_delete peerId |>)
  | None => skip
  end ;;
  match om_get peerId (w_sdp w) with
  | Some entry =>
      clearTimeout (en_timeout entry) ;;
      modify (λ w, w <| w_sdp ::= om_delete peerId |>) ;;
      out (OReject (en_promise entry))
  | None => skip
  end ;;
  modify (λ w, w <| w_dcOpen ::= om_delete peerId |> <| w_turn ::= om_delete peerId |>) ;;
  when cancelDisconnectEmit (_cancelPeerDisconnectEmit peerId).

Definition close (peerId : jstr) : R () := _tearDownPeerWebRtcState peerId true.
Definition closeAll : R () := w ← get; for_each close (om_keys (w_connections w)).

(** ** Offers and answers *)

(** [ok]: the constructor of [PeerConnection] does not throw. *)
Definition _createPeerConnection (peerId : jstr) (kind : SdpKind) (ok : bool) : R (nat * Z) :=
  w ← get;
  let epoch := default 0 (om_get peerId (w_epoch w)) + 1 in
  modify (λ w, w <| w_epoch ::= om_set peerId epoch |>) ;;
  let hsGen := default 0 (om_get peerId (w_hsGen w)) + 1 in
  modify (λ w, w <| w_hsGen ::= om_set peerId hsGen |>) ;;
  when (om_has peerId (w_connections w)) (close peerId) ;;
  when (negb ok) (lift (Throw (Error "PeerConnection"))) ;;
  w ← get;
  let pc := length (w_pcs w) in
  modify (λ w, w <| w_pcs ::= λ l, l ++ [(peerId, epoch, kind)] |>) ;;
  out (OCreatePc pc) ;;
  modify (λ w, w <| w_connections ::= om_set peerId pc |>) ;;
  mret (pc, epoch).

(** A new promise, its entry and its timer. *)
Definition await_gathering (peerId : jstr) (pc : nat) (epoch : Z) (kind : SdpKind) (timeoutMs : Z) : R nat :=
  promise ← new_promise;
  timeoutId ← set_sdp_timer peerId epoch pc 0 timeoutMs;
  modify (λ w, w <| w_sdp ::= om_set peerId (MkEntry epoch promise timeoutId pc kind timeoutMs) |>) ;;
  mret promise.

Definition _setupDataChannel (peerId : jstr) (epoch : Z) : R () :=
  w ← get;
  let dc := length (w_dcs w) in
  modify (λ w, w <| w_dcs ::= λ l, l ++ [(peerId, epoch)] |>) ;;
  out (OCreateDc dc) ;;
  modify (λ w, w <| w_dataChannels ::= om_set peerId dc |>).

(** [ok]: [PeerConnection] and [createDataChannel] do not throw.  A throw after the
    promise was made rejects it; one before it rejects the caller's own. *)
Definition createOffer (peerId : jstr) (pc_ok dc_ok : bool) : R nat :=
  '(pc, epoch) ← _createPeerConnection peerId KOffer pc_ok;
  promise ← await_gathering peerId pc epoch KOffer ICE_GATHERING_TIMEOUT_OFFER_MS;
  (if dc_ok then _setupDataChannel peerId epoch else out (OReject promise)) ;;
  mret promise.

(** Candidates that came before the remote description, once it is set; the library's
    errors are logged. *)
Definition _flushPendingRemoteIce (peerId : jstr) : R () :=
  w ← get;
  match om_get peerId (w_connections w) with
  | None => skip
  | Some pc =>
      match om_get peerId (w_pendingIce w) with
      | None | Some [] => skip
      | Some q =>
          modify (λ w, w <| w_pendingIce ::= om_delete peerId |>) ;;
          for_each (λ c : jstr * jstr, out (OAddCandidate pc c.1 c.2)) q
      end
  end.
Definition _afterRemoteDescriptionForTrickle (peerId : jstr) : R () :=
  modify (λ w, w <| w_remoteDesc ::= os_add peerId |>) ;;
  _flushPendingRemoteIce peerId.

(** [desc_ok]: [setRemoteDescription] does not throw. *)
Definition handleOffer (peerId sdp : jstr) (pc_ok desc_ok : bool) : R nat :=
  '(pc, epoch) ← _createPeerConnection peerId KAnswer pc_ok;
  promise ← await_gathering peerId pc epoch KAnswer ICE_GATHERING_TIMEOUT_ANSWER_MS;
  (if desc_ok then out (OSetRemote pc sdp KOffer) ;; _afterRemoteDescriptionForTrickle peerId
   else out (OReject promise)) ;;
  mret promise.

Definition handleAnswer (peerId sdp : jstr) (desc_ok : bool) : R () :=
  w ← get;
  match om_get peerId (w_connections w) with
  | None => lift (Throw (Error "No connection found for peer"))
  | Some pc =>
      when (negb desc_ok) (lift (Throw (Error "setRemoteDescription"))) ;;
      out (OSetRemote pc sdp KAnswer) ;;
      _afterRemoteDescriptionForTrickle peerId
  end.

Definition _localDescriptionToSignal (ld : LocalDescription) : SdpKind * jstr :=
  (match ld_type ld with
   | Some t => if js_includes (js "answer") (ascii_lower t) then KAnswer else KOffer
   | None => KOffer
   end, ld_sdp ld).
Definition _sdpLooksCompleteEnough (sdp : jstr) : bool :=
  js_includes (js "a=candidate:") sdp && (ICE_SDP_MIN_CANDIDATE_BYTES <=? blen (utf8_encode sdp)).
(** [gatheringState]: what the library answers, unless it throws. *)
Definition _gatheringStateIsComplete (gatheringState : option jstr) : bool :=
  match gatheringState with Some s => bool_decide (ascii_lower s = js "complete") | None => false end.

(** Settle the promise of an entry with the local description; null is a [TypeError]
    that nothing catches. *)
Definition resolve (entry : Entry) (ld : option LocalDescription) : R () :=
  match ld with
  | Some d => let '(type, sdp) := _localDescriptionToSignal d in out (OResolve (en_promise entry) type sdp)
  | None => lift (Throw TypeError)
  end.
Definition sdp_of (ld : option LocalDescription) : jstr := match ld with Some d => ld_sdp d | None => [] end.

Definition _finishSdpAfterGatheringTimeout (peerId : jstr) (epoch : Z) (pc graceRound : nat)
    (ld : option LocalDescription) (gatheringState : option jstr) : R () :=
  w ← get;
  match om_get peerId (w_sdp w) with
  | None => skip
  | Some entry =>
      if negb (en_epoch entry =? epoch) then skip
      else if _gatheringStateIsComplete gatheringState || _sdpLooksCompleteEnough (sdp_of ld) then
        clearTimeout (en_timeout entry) ;;
        modify (λ w, w <| w_sdp ::= om_delete peerId |>) ;;
        resolve entry ld
      else if (graceRound <? ICE_GATHERING_GRACE_ROUNDS)%nat then
        _ ← set_sdp_timer peerId epoch pc (S graceRound) ICE_GATHERING_GRACE_MS; skip
      else
        modify (λ w, w <| w_sdp ::= om_delete peerId |>) ;;
        clearTimeout (en_timeout entry) ;;
        match sdp_of ld with [] => out (OReject (en_promise entry)) | _ => resolve entry ld end
  end.
(** A timer of [_finishSdpAfterGatheringTimeout] goes off. *)
Definition sdp_timer (id : nat) (ld : option LocalDescription) (gatheringState : option jstr) : R () :=
  w ← get;
  match List.find (λ t, st_id t =? id)%nat (w_timers w) with
  | None => skip
  | Some t =>
      clearTimeout id ;;
      _finishSdpAfterGatheringTimeout (st_peer t) (st_epoch t) (st_pc t) (st_round t) ld gatheringState
  end.

Definition _resolveSdpAfterGathering (peerId : jstr) (epoch : Z) (ld : option LocalDescription) : R () :=
  w ← get;
  match om_get peerId (w_sdp w) with
  | None => skip
  | Some entry =>
      if negb (en_epoch entry =? epoch) then skip
      else
        clearTimeout (en_timeout entry) ;;
        modify (λ w, w <| w_sdp ::= om_delete peerId |>) ;;
        match sdp_of ld with [] => out (OReject (en_promise entry)) | _ => resolve entry ld end
  end.

(** ** Candidates *)

(** A remote candidate: a text, or an object with [candidate], [mid] and [sdpMid]
    (empty when missing). *)
Inductive IceCandidate := IceText (s : jstr) | IceObject (candidate mid sdpMid : jstr).
Definition candidateStr (c : IceCandidate) : jstr := match c with IceText s => s | IceObject s _ _ => s end.
Definition candidate_mid (c : IceCandidate) : jstr :=
  match c with
  | IceText _ => js "0"
  | IceObject _ (_ :: _ as mid) _ => mid
  | IceObject _ [] (_ :: _ as mid) => mid
  | IceObject _ [] [] => js "0"
  end.
(** How [pc.addRemoteCandidate] ends; [AddStale]: it throws, and its message says that
    the connection has no ICE transport. *)
Inductive AddResult := AddOk | AddStale | AddFails.

Definition _pushPendingIce (peerId : jstr) (c : jstr * jstr) : R () :=
  modify (λ w, w <| w_pendingIce ::= om_set peerId (default [] (om_get peerId (w_pendingIce w)) ++ [c]) |>).
Definition addIceCandidate (peerId : jstr) (candidate : IceCandidate) (r : AddResult) : R () :=
  let c := (candidateStr candidate, candidate_mid candidate) in
  w ← get;
  if negb (os_has peerId (w_remoteDesc w)) then _pushPendingIce peerId c
  else
    match om_get peerId (w_connections w) with
    | None => _pushPendingIce peerId c
    | Some pc =>
        match r with
        | AddOk => out (OAddCandidate pc c.1 c.2)
        | AddStale =>
            modify (λ w, w <| w_remoteDesc ::= os_delete peerId |>) ;;
            out (ODestroyPc pc) ;;
            modify (λ w, w <| w_connections ::= om_delete peerId |>) ;;
            _pushPendingIce peerId c
        | AddFails => skip
        end
    end.

(** ** Sending *)

(** [isReady] during the [k]th push of an operation, for its two flushes. *)
Definition Ready := nat → nat → bool.
Definition sb_push_nth (rd : Ready) (k : nat) (data : buffer) (b : TransportSendBuffer) :=
  sb_push (rd (2 * k)%nat) (rd (2 * k + 1)%nat) data b.

(** The loop of [_drainSendOverflow]: the packets left, the buffer and the frames sent. *)
Fixpoint drain_loop (rd : Ready) (k : nat) (q : list buffer) (b : TransportSendBuffer) :
    outcome (list buffer * TransportSendBuffer * list buffer) :=
  match q with
  | [] => Ret ([], b, [])
  | p :: q' =>
      '(ok, b1, fs1) ← sb_push_nth rd k p b;
      if ok : bool then '(rest, b2, fs2) ← drain_loop rd (S k) q' b1; Ret (rest, b2, fs1 ++ fs2)
      else Ret (q, b1, fs1)
  end.

(** Buffer [i] becomes [b] and hands [frames] to its channel.  [OFrame] records the call of
    [sendMessageBinary]; the code swallows what it throws and goes on as if the frame was
    sent, so a call that throws changes nothing here. *)
Definition put_buffer (i dc : nat) (b : TransportSendBuffer) (frames : list buffer) : R () :=
  upd_buffer i (λ _, b) ;; for_each (λ f, out (OFrame dc f)) frames.

Definition _drainSendOverflow (peerId : jstr) (rd : Ready) (k : nat) : R () :=
  w ← get;
  match om_get peerId (w_sendBuffers w), om_get peerId (w_overflow w) with
  | Some i, Some ((_ :: _) as q) =>
      match w_buffers w !! i with
      | None => skip
      | Some (dc, b) =>
          r ← lift (drain_loop rd k q b);
          let '(rest, b, frames) := r in
          put_buffer i dc b frames ;;
          modify (λ w, w <| w_overflow ::= match rest with [] => om_delete peerId | _ => om_set peerId rest end |>)
      end
  | _, _ => skip
  end.

Definition send (peerId : jstr) (data : buffer) (rd : Ready) : R bool :=
  w ← get;
  match om_get peerId (w_sendBuffers w) with
  | None => mret false
  | Some i =>
      match w_buffers w !! i with
      | None => mret false
      | Some (dc, b) =>
          r ← lift (sb_push_nth rd 0 data b);
          let '(ok, b, frames) := r in
          put_buffer i dc b frames ;;
          if ok : bool then _drainSendOverflow peerId rd 1 ;; mret true
          else if w_overflowMax w <=? 0 then mret false
          else
            let q := default [] (om_get peerId (w_overflow w)) in
            if w_overflowMax w <=? Z.of_nat (length q) then
              modify (λ w, w <| w_overflow ::= om_set peerId q |> <| w_blocked ::= Z.succ |>) ;; mret false
            else modify (λ w, w <| w_overflow ::= om_set peerId (q ++ [data]) |>) ;; mret true
      end
  end.

(** The flush timer of buffer [i]. *)
Definition flush_timer (i : nat) (r : nat → bool) : R () :=
  w ← get;
  match w_buffers w !! i with
  | Some (dc, b) =>
      when (timer b) (bf ← lift (sb_timer r b); put_buffer i dc bf.1 bf.2)
  | None => skip
  end.

(** ** Callbacks of a peer connection *)

(** Run [m] with the peer and epoch of connection [pc], if that epoch is current. *)
Definition on_pc (pc : nat) (m : jstr → Z → R ()) : R () :=
  w ← get;
  match w_pcs w !! pc with
  | Some (peerId, epoch, _) => when (current peerId epoch w) (m peerId epoch)
  | None => skip
  end.
Definition on_local_candidate (pc : nat) (candidate mid : jstr) : R () :=
  on_pc pc (λ peerId _, out (OIceCandidate peerId candidate mid)).
(** [relay]: the selected candidate pair goes over TURN, if the library knows one. *)
Definition on_state_change (pc : nat) (state : jstr) (relay : option bool) : R () :=
  on_pc pc (λ peerId _,
    match relay with
    | Some r => when (bool_decide (state = js "connected")) (modify (λ w, w <| w_turn ::= om_set peerId r |>))
    | None => skip
    end ;;
    out (OConnectionState peerId state) ;;
    when (bool_decide (state = js "failed" ∨ state = js "closed"))
      (modify (λ w, w <| w_dcOpen ::= om_delete peerId |>) ;;
       _tearDownPeerWebRtcState peerId false ;;
       _emitPeerDisconnectSoon peerId)).
Definition on_gathering_state (pc : nat) (state : jstr) (ld : option LocalDescription) : R () :=
  on_pc pc (λ peerId epoch,
    when (bool_decide (ascii_lower state = js "complete")) (_resolveSdpAfterGathering peerId epoch ld)).
(** Registered by [handleOffer] only, and without a look at the epoch. *)
Definition on_data_channel (pc : nat) : R () :=
  w ← get;
  match w_pcs w !! pc with
  | Some (peerId, epoch, KAnswer) => _setupDataChannel peerId epoch
  | _ => skip
  end.

(** ** Callbacks of a data channel *)

Definition on_dc (dc : nat) (m : jstr → Z → R ()) : R () :=
  w ← get;
  match w_dcs w !! dc with
  | Some (peerId, epoch) => when (current peerId epoch w) (m peerId epoch)
  | None => skip
  end.
Definition on_open (dc : nat) : R () :=
  on_dc dc (λ peerId epoch,
    modify (λ w, w <| w_dcOpen ::= om_set peerId epoch |>) ;;
    w ← get;
    modify (λ w, w <| w_buffers ::= λ l, l ++ [(dc, sb_new None (Some (w_queueMax w)))] |>
                   <| w_sendBuffers ::= om_set peerId (length (w_buffers w)) |>) ;;
    out (OConnected peerId)).
Definition on_closed (dc : nat) : R () :=
  on_dc dc (λ peerId epoch,
    w ← get;
    when (bool_decide (om_get peerId (w_dcOpen w) = Some epoch))
      (modify (λ w, w <| w_dcOpen ::= om_delete peerId |>) ;;
       drop_send_buffer peerId ;;
       _emitPeerDisconnectSoon peerId)).
Definition on_dc_error (dc : nat) : R () := on_dc dc (λ peerId _, out (OError peerId)).
Definition on_message (dc : nat) (raw : buffer) : R () :=
  on_dc dc (λ peerId _,
    packets ← lift (unframe raw);
    match packets with
    | None => skip
    | Some ps => for_each (λ p, out (OMessage peerId p)) ps
    end).
(** [if (sb) sb.resume();] *)
Definition resume_buffer (peerId : jstr) (r : nat → bool) : R () :=
  w ← get;
  match om_get peerId (w_sendBuffers w) with
  | Some i =>
      match w_buffers w !! i with
      | Some (dc, b) => bf ← lift (sb_resume r b); put_buffer i dc bf.1 bf.2
      | None => skip
      end
  | None => skip
  end.
Definition on_buffered_amount_low (dc : nat) (r : nat → bool) (rd : Ready) : R () :=
  on_dc dc (λ peerId _,
    resume_buffer peerId r ;;
    _drainSendOverflow peerId rd 0 ;;
    out (OBufferLow peerId)).

(** ** What the manager asks *)

(** [open dc]: the channel's [isOpen] answers true. *)
Definition isConnected (open : nat → bool) (peerId : jstr) (w : WebRTC) : bool :=
  match om_get peerId (w_dataChannels w) with Some dc => open dc | None => false end.
Definition getConnectedPeers (open : nat → bool) (w : WebRTC) : list jstr :=
  (filter (λ e : jstr * nat, open e.2 = true) (w_dataChannels w)).*1.
Definition isTurnConnection (peerId : jstr) (w : WebRTC) : bool := default false (om_get peerId (w_turn w)).
Definition getHandshakeGen (peerId : jstr) (w : WebRTC) : Z := default 0 (om_get peerId (w_hsGen w)).
Definition overflowQueued (peerId : jstr) (w : WebRTC) : nat := length (default [] (om_get peerId (w_overflow w))).

(** ** Histories *)

Inductive rtc_op :=
  | CreateOffer (peerId : jstr) (pc_ok dc_ok : bool)
  | HandleOffer (peerId sdp : jstr) (pc_ok desc_ok : bool)
  | HandleAnswer (peerId sdp : jstr) (desc_ok : bool)
  | AddIce (peerId : jstr) (candidate : IceCandidate) (r : AddResult)
  | Send (peerId : jstr) (data : buffer) (rd : Ready)
  | Close (peerId : jstr) | CloseAll
  | PcCandidate (pc : nat) (candidate mid : jstr)
  | PcState (pc : nat) (state : jstr) (relay : option bool)
  | PcGathering (pc : nat) (state : jstr) (ld : option LocalDescription)
  | PcDataChannel (pc : nat)
  | DcOpen (dc : nat) | DcClosed (dc : nat) | DcError (dc : nat)
  | DcMessage (dc : nat) (raw : buffer)
  | DcLow (dc : nat) (r : nat → bool) (rd : Ready)
  | SdpTimeout (id : nat) (ld : option LocalDescription) (gatheringState : option jstr)
  | DisconnectTimer (peerId : jstr)
  | FlushTimer (i : nat) (r : nat → bool).

Definition ignore {A} (m : R A) : R () := _ ← m; skip.
Definition rtc_apply (o : rtc_op) : R () :=
  match o with
  | CreateOffer p a b => ignore (createOffer p a b)
  | HandleOffer p sdp a b => ignore (handleOffer p sdp a b)
  | HandleAnswer p sdp b => handleAnswer p sdp b
  | AddIce p c r => addIceCandidate p c r
  | Send p d rd => ignore (send p d rd)
  | Close p => close p
  | CloseAll => closeAll
  | PcCandidate pc c mid => on_local_candidate pc c mid
  | PcState pc s r => on_state_change pc s r
  | PcGathering pc s ld => on_gathering_state pc s ld
  | PcDataChannel pc => on_data_channel pc
  | DcOpen dc => on_open dc
  | DcClosed dc => on_closed dc
  | DcError dc => on_dc_error dc
  | DcMessage dc raw => on_message dc raw
  | DcLow dc r rd => on_buffered_amount_low dc r rd
  | SdpTimeout id ld g => sdp_timer id ld g
  | DisconnectTimer p => disconnect_timer p
  | FlushTimer i r => flush_timer i r
  end.
Definition rtc_step (w : WebRTC) (o : rtc_op) : WebRTC := (rtc_apply o w).2.
Definition rtc_run (ops : list rtc_op) (w : WebRTC) : WebRTC := foldl rtc_step w ops.
