(* ===== verification/WebRtcFlow.v ===== *)
(** * What a WebRTC transport delivers

    The data plane of [WebRtc]: packets accepted by [send] wait in the overflow queue of
    their peer and in the send buffer of its channel, and leave in frames.  Whatever
    connections and channels come and go, none is lost or duplicated while the channel
    of the peer lasts; without the overflow queue they also keep their order. *)

From S2P Require Import Prelude JsMap Bytes JsString Effects Framing SendBuffer WebRtc.
Local Open Scope Z_scope.
#[local] Unset Default Proof Using.

(** ** What was accepted for the channel a peer has now *)

Definition Since := omap jstr (list buffer).
Definition since (p : jstr) (g : Since) : list buffer := default [] (om_get p g).
Definition queued (p : jstr) (w : WebRTC) : list buffer := default [] (om_get p (w_overflow w)).

(** A step, with the packets accepted: [send] adds one; a channel that opens starts
    with what waits in the overflow queue. *)
Definition track (wg : WebRTC * Since) (o : rtc_op) : WebRTC * Since :=
  let '(w, g) := wg in
  match o with
  | Send p d rd => let '(r, w') := send p d rd w in (w', match r with Ret true => om_set p (since p g ++ [d]) g | _ => g end)
  | DcOpen dc =>
      (rtc_step w o,
       match w_dcs w !! dc with
       | Some (p, e) => if current p e w then om_set p (queued p w) g else g
       | None => g
       end)
  | _ => (rtc_step w o, g)
  end.
Definition tracks (ops : list rtc_op) (w : WebRTC) : WebRTC * Since := foldl track (w, []) ops.

(** The frames handed to channel [dc]. *)
Definition frames_on (dc : nat) (os : list RtcOut) : list buffer :=
  base.omap (λ o, match o with OFrame d f => if decide (d = dc) then Some f else None | _ => None end) os.
#[local] Arguments frames_on : simpl never.

Lemma frames_app dc a b : frames_on dc (a ++ b) = frames_on dc a ++ frames_on dc b.
Proof. apply omap_app. Qed.
Lemma frames_sent i dc fs os : frames_on dc (os ++ map (OFrame i) fs) = frames_on dc os ++ (if decide (i = dc) then fs else []).
Proof.
  rewrite frames_app. f_equal. induction fs as [|f fs IH]; [by case_decide|]. cbn [map]. unfold frames_on in *. cbn.
  case_decide; by rewrite IH.
Qed.
Definition quiet (o : RtcOut) : Prop := match o with OFrame _ _ => False | _ => True end.
Lemma frames_quiet dc o l : quiet o → frames_on dc (l ++ [o]) = frames_on dc l.
Proof. intros Ho. rewrite frames_app. destruct o; try done; by rewrite /frames_on /= app_nil_r. Qed.

(** ** The invariant *)

(** The channel of peer [p] is served by buffer [i]. *)
Record cur_ok (g : Since) (w : WebRTC) (p : jstr) (i : nat) (dc : nat) (b : TransportSendBuffer) (sent : list buffer) : Prop := MkCurOk {
  co_buffer : w_buffers w !! i = Some (dc, b);
  co_peer : ∃ e, w_dcs w !! dc = Some (p, e);
  co_carries : carries MAX_FRAME_SIZE (frames_on dc (w_out w)) sent;
  co_perm : since p g ≡ₚ sent ++ packets b ++ queued p w;
  co_fifo : w_overflowMax w <= 0 → queued p w = [] ∧ since p g = sent ++ packets b
}.
(** The channels that have opened. *)
Section flow.
Context (opened : list nat).

(** All peers but [skip] are in order; a channel opened once. *)
Record flow_ok (skip : option jstr) (g : Since) (w : WebRTC) : Prop := MkFlowOk {
  fo_buf i dc b : w_buffers w !! i = Some (dc, b) → sb_inv b ∧ maxFrameSize b = MAX_FRAME_SIZE ∧ is_Some (w_dcs w !! dc);
  fo_nodup : NoDup (w_buffers w).*1 ∧ (w_buffers w).*1 ⊆ opened;
  fo_owner p i : om_get p (w_sendBuffers w) = Some i → ∃ dc b e, w_buffers w !! i = Some (dc, b) ∧ w_dcs w !! dc = Some (p, e);
  fo_fresh dc : dc ∉ (w_buffers w).*1 → frames_on dc (w_out w) = [];
  fo_cur p i : skip ≠ Some p → om_get p (w_sendBuffers w) = Some i → ∃ dc b sent, cur_ok g w p i dc b sent;
  fo_over p : (w_overflowMax w <= 0 → queued p w = []) ∧ Forall plain (queued p w)
}.

Lemma flow_weaken p g w : flow_ok None g w → flow_ok (Some p) g w.
Proof. intros [Hb Hn Hw Hf Hc Ho]. constructor; try done. intros q i _. by apply Hc. Qed.

(** Steps that leave the data plane alone. *)
Lemma flow_ext skip g w w' : flow_ok skip g w →
  w_buffers w' = w_buffers w → w_sendBuffers w' = w_sendBuffers w → (∀ p, queued p w' = queued p w) →
  w_overflowMax w' = w_overflowMax w → w_dcs w `prefix_of` w_dcs w' → (∀ dc, frames_on dc (w_out w') = frames_on dc (w_out w)) →
  flow_ok skip g w'.
Proof.
  intros [Hb Hn Hw Hf Hc Ho] Eb Es Eo Em Hd Hfr.
  assert (∀ i x, w_dcs w !! i = Some x → w_dcs w' !! i = Some x) as Hdc by (intros i x Hx; by eapply prefix_lookup_Some).
  constructor; rewrite ?Eb ?Es ?Em; try done.
  - intros i dc b Hi. destruct (Hb i dc b Hi) as (? & ? & x & Hx). split_and!; [done..|]. exists x. by apply Hdc.
  - intros p i Hi. destruct (Hw p i Hi) as (dc & b & e & Hbi & He). exists dc, b, e. split; [done|by apply Hdc].
  - intros dc Hin. rewrite Hfr. by apply Hf.
  - intros p i Hp Hi. destruct (Hc p i Hp Hi) as (dc & b & sent & [Hbi [e He] Hca Hpe Hfi]). exists dc, b, sent.
    constructor; rewrite ?Eb ?Hfr ?Em ?Eo; try done. exists e. by apply Hdc.
  - intros p. rewrite Eo. apply Ho.
Qed.
Lemma flow_out skip g o : quiet o → keeps (flow_ok skip g) (out o).
Proof. intros Ho w Hw. eapply flow_ext; [exact Hw|done..|]. intros dc. by apply frames_quiet. Qed.
Lemma flow_modify skip g (f : WebRTC → WebRTC) :
  (∀ w, w_buffers (f w) = w_buffers w ∧ w_sendBuffers (f w) = w_sendBuffers w ∧ w_overflow (f w) = w_overflow w ∧
        w_overflowMax (f w) = w_overflowMax w ∧ w_dcs w `prefix_of` w_dcs (f w) ∧ w_out (f w) = w_out w) →
  keeps (flow_ok skip g) (modify f).
Proof. intros Hf w Hw. destruct (Hf w) as (?&?&Hq&?&?&Ho). eapply flow_ext; [exact Hw|done|done| |done|done|]; intros q; cbn; [by rewrite /queued Hq|by rewrite Ho]. Qed.

(** A peer that was set aside is in order again. *)
Lemma flow_restore p g g' w : flow_ok (Some p) g w → (∀ q, q ≠ p → since q g' = since q g) →
  (∀ i, om_get p (w_sendBuffers w) = Some i → ∃ dc b sent, cur_ok g' w p i dc b sent) → flow_ok None g' w.
Proof.
  intros [Hb Hn Hw Hf Hc Ho] Hg Hp. constructor; try done. intros q i _ Hi. destruct (decide (q = p)) as [->|Hq]; [by apply Hp|].
  destruct (Hc q i ltac:(congruence) Hi) as (dc & b & sent & [Hbi He Hca Hpe Hfi]). exists dc, b, sent. by constructor; rewrite ?Hg.
Qed.

(** ** Closing a peer *)

Lemma fst_alter {A B} (f : B → B) i (l : list (A * B)) : (alter (prod_map id f) i l).*1 = l.*1.
Proof. revert i. induction l as [|[a b] l IH]; intros [|i]; cbn; [done..|]. by rewrite -(IH i). Qed.
Lemma owner_inj skip g w p q i : flow_ok skip g w → om_get p (w_sendBuffers w) = Some i → om_get q (w_sendBuffers w) = Some i → p = q.
Proof.
  intros [_ _ Hw _ _ _] Hp Hq. destruct (Hw p i Hp) as (dc & b & e & Hb & Hd). destruct (Hw q i Hq) as (dc' & b' & e' & Hb' & Hd').
  congruence.
Qed.

Lemma flow_drop p g w : flow_ok (Some p) g w → flow_ok None g (drop_send_buffer p w).2.
Proof.
  intros Hw. unfold drop_send_buffer. rewrite get_bind. destruct (om_get p (w_sendBuffers w)) as [i|] eqn:Ep.
  2: { eapply flow_restore; [exact Hw|done|]. cbn. by rewrite Ep. }
  unfold upd_buffer. rewrite modify_bind. pose proof Hw as [Hb Hn Ho Hf Hc Hov].
  assert (∀ q j, q ≠ p → om_get q (w_sendBuffers w) = Some j → j ≠ i) as Hne by (intros q j Hq Hj ->; by apply Hq, (owner_inj _ _ _ _ _ i Hw)).
  constructor; cbn.
  - intros j dc b. destruct (decide (j = i)) as [->|Hj]; [|rewrite list_lookup_alter_ne //; apply Hb].
    rewrite list_lookup_alter_eq. intros ([dc' b'] & Hbi & [= -> ->])%fmap_Some. destruct (Hb _ _ _ Hbi) as ((Hm & _ & _) & ? & ?). by split_and!.
  - by rewrite fst_alter.
  - intros q j. rewrite om_get_delete. case_decide as Hq; [done|]. intros Hj. rewrite list_lookup_alter_ne; [by apply Ho|by apply not_eq_sym, (Hne q)].
  - intros dc. rewrite fst_alter. apply Hf.
  - intros q j _. rewrite om_get_delete. case_decide as Hq; [done|]. intros Hj. destruct (Hc q j ltac:(congruence) Hj) as (dc & b & sent & [Hbi He Hca Hpe Hfi]).
    exists dc, b, sent. constructor; try done. cbn. rewrite list_lookup_alter_ne //. by apply not_eq_sym, (Hne q).
  - apply Hov.
Qed.

(** Forgetting the overflow queue of a peer that is set aside. *)
Lemma queued_set p q l w : queued q (w <| w_overflow ::= om_set p l |>) = if decide (q = p) then l else queued q w.
Proof. unfold queued. cbn. rewrite om_get_set. by case_decide. Qed.
Lemma queued_delete p q w : queued q (w <| w_overflow ::= om_delete p |>) = if decide (q = p) then [] else queued q w.
Proof. unfold queued. cbn. rewrite om_get_delete. by case_decide. Qed.
Lemma flow_overflow p g w w' : flow_ok (Some p) g w → (∀ q, q ≠ p → queued q w' = queued q w) →
  (w_overflowMax w <= 0 → queued p w' = []) → Forall plain (queued p w') →
  w_buffers w' = w_buffers w → w_sendBuffers w' = w_sendBuffers w → w_overflowMax w' = w_overflowMax w →
  w_dcs w' = w_dcs w → w_out w' = w_out w → flow_ok (Some p) g w'.
Proof.
  intros [Hb Hn Hw Hf Hc Ho] Hq Hp Hpl Eb Es Em Ed Eo. constructor; rewrite ?Eb ?Es ?Ed ?Em ?Eo; try done.
  - intros q i Hqp Hi. destruct (Hc q i Hqp Hi) as (dc & b & sent & [Hbi He Hca Hpe Hfi]). exists dc, b, sent.
    assert (q ≠ p) by congruence. by constructor; rewrite ?Eb ?Ed ?Eo ?Em ?Hq.
  - intros q. destruct (decide (q = p)) as [->|Hqp]; [done|]. by rewrite Hq.
Qed.

Ltac flow_step := match goal with
  | |- keeps (flow_ok _ _) (out _) => by apply flow_out
  | |- keeps (flow_ok _ _) (modify _) => apply flow_modify; by intros ?
  | |- _ => keeps_step
  end.
Ltac flow_steps := repeat (flow_step; cbv beta).

Lemma flow_clear skip g id : keeps (flow_ok skip g) (clearTimeout id).
Proof. unfold clearTimeout. flow_steps. Qed.
Lemma flow_tearDown p c g : keeps (flow_ok None g) (_tearDownPeerWebRtcState p c).
Proof.
  intros w Hw. unfold _tearDownPeerWebRtcState. rewrite modify_bind. apply (keeps_bind_at (flow_ok None g)).
  - apply flow_drop. eapply flow_overflow; [by apply flow_weaken, Hw|..]; try done; unfold queued; cbn.
    + intros q Hq. by rewrite om_get_delete_ne.
    + intros _. by rewrite om_get_delete_eq.
    + rewrite om_get_delete_eq. constructor.
  - intros []. unfold clearTimeout, _cancelPeerDisconnectEmit. flow_steps.
Qed.
Lemma flow_close p g : keeps (flow_ok None g) (close p).
Proof. apply flow_tearDown. Qed.
Lemma flow_closed dc g : keeps (flow_ok None g) (on_closed dc).
Proof.
  unfold on_closed, on_dc, _emitPeerDisconnectSoon. flow_steps. intros w Hw. by apply flow_drop, flow_weaken.
Qed.

(** ** Signalling leaves the data plane alone *)

Lemma flow_createPc p k ok g : keeps (flow_ok None g) (_createPeerConnection p k ok).
Proof. unfold _createPeerConnection. flow_steps. apply flow_close. Qed.
Lemma flow_await p pc e k t g : keeps (flow_ok None g) (await_gathering p pc e k t).
Proof. unfold await_gathering, new_promise, set_sdp_timer. flow_steps. Qed.
Lemma flow_setupDc p e g : keeps (flow_ok None g) (_setupDataChannel p e).
Proof.
  unfold _setupDataChannel. keeps_step; [flow_steps|]. keeps_step; [|flow_steps].
  apply flow_modify. intros w. split_and!; try done. cbn. by apply prefix_app_r.
Qed.
Lemma flow_flushIce p g : keeps (flow_ok None g) (_flushPendingRemoteIce p).
Proof. unfold _flushPendingRemoteIce. flow_steps. Qed.
Lemma flow_after p g : keeps (flow_ok None g) (_afterRemoteDescriptionForTrickle p).
Proof. unfold _afterRemoteDescriptionForTrickle. flow_steps. apply flow_flushIce. Qed.
Lemma flow_resolve en ld g : keeps (flow_ok None g) (resolve en ld).
Proof. unfold resolve. flow_steps. Qed.
Lemma flow_sdp_timer id ld gs g : keeps (flow_ok None g) (sdp_timer id ld gs).
Proof.
  unfold sdp_timer, _finishSdpAfterGatheringTimeout, set_sdp_timer. flow_steps.
  all: first [apply flow_clear|apply flow_resolve].
Qed.
Lemma flow_gathering pc s ld g : keeps (flow_ok None g) (on_gathering_state pc s ld).
Proof. unfold on_gathering_state, on_pc, _resolveSdpAfterGathering. flow_steps. all: first [apply flow_clear|apply flow_resolve]. Qed.
Lemma flow_signalling o g : match o with Send _ _ _ | DcOpen _ | DcLow _ _ _ | FlushTimer _ _ => False | _ => True end →
  keeps (flow_ok None g) (rtc_apply o).
Proof.
  intros Ho. destruct o; try done; cbn [rtc_apply]; unfold ignore.
  - unfold createOffer. flow_steps; first [apply flow_createPc|apply flow_await|apply flow_setupDc].
  - unfold handleOffer. flow_steps; first [apply flow_createPc|apply flow_await|apply flow_after].
  - unfold handleAnswer. flow_steps. apply flow_after.
  - unfold addIceCandidate, _pushPendingIce. flow_steps.
  - apply flow_close.
  - unfold closeAll. flow_steps. apply flow_close.
  - unfold on_local_candidate, on_pc. flow_steps.
  - unfold on_state_change, on_pc, _emitPeerDisconnectSoon. flow_steps. apply flow_tearDown.
  - apply flow_gathering.
  - unfold on_data_channel. flow_steps; apply flow_setupDc.
  - apply flow_closed.
  - unfold on_dc_error, on_dc. flow_steps.
  - unfold on_message, on_dc. flow_steps.
  - apply flow_sdp_timer.
  - unfold disconnect_timer. flow_steps.
Qed.

(** ** The data plane *)

Definition put (i dc : nat) (b : TransportSendBuffer) (fs : list buffer) (w : WebRTC) : WebRTC :=
  w <| w_buffers ::= alter (prod_map id (λ _, b)) i |> <| w_out ::= λ l, l ++ map (OFrame dc) fs |>.
Lemma put_buffer_eq i dc b fs w : put_buffer i dc b fs w = (Ret tt, put i dc b fs w).
Proof. unfold put_buffer, upd_buffer. rewrite modify_bind. by rewrite for_each_out. Qed.

Lemma put_lookup i dc b b' fs w : w_buffers w !! i = Some (dc, b) → w_buffers (put i dc b' fs w) !! i = Some (dc, b').
Proof. intros Hi. change (alter (prod_map id (λ _, b')) i (w_buffers w) !! i = Some (dc, b')). by rewrite list_lookup_alter_eq Hi. Qed.
Lemma put_lookup_ne i j dc b' fs w : j ≠ i → w_buffers (put i dc b' fs w) !! j = w_buffers w !! j.
Proof. intros Hj. change (alter (prod_map id (λ _, b')) i (w_buffers w) !! j = w_buffers w !! j). by apply list_lookup_alter_ne, not_eq_sym. Qed.
Lemma put_frames i dc b' fs w d : frames_on d (w_out (put i dc b' fs w)) = frames_on d (w_out w) ++ (if decide (dc = d) then fs else []).
Proof. apply frames_sent. Qed.

Lemma dc_inj skip g w i j dc b b' : flow_ok skip g w → w_buffers w !! i = Some (dc, b) → w_buffers w !! j = Some (dc, b') → i = j.
Proof.
  intros Hw Hi Hj. eapply (NoDup_lookup (w_buffers w).*1 _ _ dc); [apply (fo_nodup _ _ _ Hw)|by rewrite list_lookup_fmap Hi|by rewrite list_lookup_fmap Hj].
Qed.

Lemma flow_put skip g w i dc b b' fs : flow_ok None g w → w_buffers w !! i = Some (dc, b) → sb_inv b' → maxFrameSize b' = MAX_FRAME_SIZE →
  (∀ q, skip ≠ Some q → om_get q (w_sendBuffers w) = Some i → ∃ sent, cur_ok g (put i dc b' fs w) q i dc b' sent) →
  flow_ok skip g (put i dc b' fs w).
Proof.
  intros Hw Hi Hib Hmax Hq. pose proof Hw as [Hb Hn Ho Hf Hc Hov]. constructor.
  - intros j d c. destruct (decide (j = i)) as [->|Hj]; [|rewrite put_lookup_ne //; apply Hb].
    rewrite (put_lookup i dc b) //. intros [= <- <-]. destruct (Hb i dc b Hi) as (_ & _ & ?). by split_and!.
  - change (w_buffers (put i dc b' fs w)) with (alter (prod_map id (λ _, b')) i (w_buffers w)). by rewrite fst_alter.
  - intros q j Hj. destruct (Ho q j Hj) as (d & c & e & Hbj & Hd). destruct (decide (j = i)) as [->|Hij].
    + exists dc, b', e. split; [by apply (put_lookup i dc b)|]. change (w_dcs (put i dc b' fs w)) with (w_dcs w). congruence.
    + exists d, c, e. by rewrite put_lookup_ne.
  - intros d Hd. rewrite put_frames. change (d ∉ (alter (prod_map id (λ _, b')) i (w_buffers w)).*1) in Hd. rewrite fst_alter in Hd.
    rewrite Hf //. destruct (decide (dc = d)) as [<-|]; [|done]. destruct Hd. apply list_elem_of_fmap. exists (dc, b). split; [done|].
    by eapply list_elem_of_lookup_2.
  - intros q j Hs Hj. change (w_sendBuffers (put i dc b' fs w)) with (w_sendBuffers w) in Hj. destruct (decide (j = i)) as [->|Hij].
    { destruct (Hq q Hs Hj) as [sent Hcur]. by exists dc, b', sent. }
    destruct (Hc q j ltac:(done) Hj) as (d & c & sent & [Hbi He Hca Hpe Hfi]). exists d, c, sent.
    assert (dc ≠ d) as Hd by (intros <-; by apply Hij, (dc_inj _ _ _ j i dc c b Hw)).
    constructor; try done; [by rewrite put_lookup_ne|]. by rewrite put_frames decide_False // app_nil_r.
  - apply Hov.
Qed.

(** What a flush or a push does to the account of the peer. *)
Lemma cur_put g w q i dc b b' fs sent sent' acc : cur_ok g w q i dc b sent → packets b ++ acc = sent' ++ packets b' →
  carries MAX_FRAME_SIZE fs sent' →
  carries MAX_FRAME_SIZE (frames_on dc (w_out (put i dc b' fs w))) (sent ++ sent') ∧
  since q g ++ acc ≡ₚ (sent ++ sent') ++ packets b' ++ queued q w ∧
  (w_overflowMax w <= 0 → since q g ++ acc = (sent ++ sent') ++ packets b').
Proof.
  intros [Hbi He Hca Hpe Hfi] Hp Hc'. rewrite put_frames decide_True //. split; [by apply carries_app|]. split.
  - rewrite Hpe -!app_assoc (app_assoc sent' (packets b')) -Hp. solve_Permutation.
  - intros Hm. destruct (Hfi Hm) as [_ ->]. rewrite -!app_assoc. by rewrite -Hp.
Qed.
Lemma flow_flush g w i dc b b' fs sent : flow_ok None g w → w_buffers w !! i = Some (dc, b) → sb_inv b' → maxFrameSize b' = MAX_FRAME_SIZE →
  packets b = sent ++ packets b' → carries MAX_FRAME_SIZE fs sent → flow_ok None g (put i dc b' fs w).
Proof.
  intros Hw Hi Hib Hmax Hp Hca. eapply flow_put; [done..|]. intros q _ Hq.
  destruct (fo_cur _ _ _ Hw q i ltac:(done) Hq) as (d & c & sent0 & Hcur). pose proof (co_buffer _ _ _ _ _ _ _ Hcur) as E.
  rewrite Hi in E. injection E as <- <-. exists (sent0 ++ sent).
  destruct (cur_put g w q i dc b b' fs sent0 sent [] Hcur) as (H1 & H2 & H3); [by rewrite app_nil_r|done|].
  rewrite app_nil_r in H2, H3. constructor; [by apply (put_lookup i dc b)|apply Hcur|done|done|].
  intros Hm. split; [by apply (co_fifo _ _ _ _ _ _ _ Hcur)|by apply H3].
Qed.

Lemma flow_flush_timer i r g : keeps (flow_ok None g) (flush_timer i r).
Proof.
  intros w Hw. unfold flush_timer. rewrite get_bind. destruct (w_buffers w !! i) as [[dc b]|] eqn:Hi; [|done].
  destruct (timer b); [|done]. destruct (fo_buf _ _ _ Hw i dc b Hi) as ((Hm & Hc & _) & Hmax & _).
  destruct (sb_flush_spec r (sb_set b (packets b) (currentSize b) false)) as (b' & fs & sent & E & Hi' & Hp & Hcar & Hmf & _); [done..|].
  cbn [when]. unfold sb_timer. rewrite E. unfold mbind, SM_bind. cbn [lift]. rewrite put_buffer_eq. cbn [snd fst].
  cbn in Hp, Hcar, Hmf. rewrite Hmax in Hcar. eapply flow_flush; try done. by rewrite Hmf.
Qed.

Lemma drain_loop_spec rd q : ∀ k b, sb_inv b → maxFrameSize b = MAX_FRAME_SIZE → ∃ rest b' fs moved sent,
  drain_loop rd k q b = Ret (rest, b', fs) ∧ sb_inv b' ∧ maxFrameSize b' = MAX_FRAME_SIZE ∧ q = moved ++ rest ∧
  packets b ++ moved = sent ++ packets b' ∧ carries MAX_FRAME_SIZE fs sent.
Proof.
  induction q as [|p q IH]; intros k b Hi Hm.
  { exists [], b, [], [], []. split_and!; try done; [apply app_nil_r|constructor]. }
  cbn [drain_loop]. destruct (sb_push_spec (rd (2 * k)%nat) (rd (2 * k + 1)%nat) p b Hi) as (x & b1 & fs1 & sent1 & E & Hi1 & Hp1 & Hca1 & Hm1 & _).
  unfold sb_push_nth. rewrite E Hm in Hm1, Hca1 |- *. cbn [mbind outcome_bind]. destruct x.
  - destruct (IH (S k) b1 Hi1 Hm1) as (rest & b2 & fs2 & moved & sent2 & -> & Hi2 & Hm2 & -> & Hp2 & Hca2).
    exists rest, b2, (fs1 ++ fs2), (p :: moved), (sent1 ++ sent2). split_and!; try done; [|by apply carries_app].
    by rewrite (app_assoc _ [p] moved) Hp1 -!app_assoc Hp2.
  - exists (p :: q), b1, fs1, [], sent1. split_and!; try done.
Qed.

(** [drain]: packets move from the overflow queue to the buffer. *)
Lemma flow_drain p rd k g w : flow_ok None g w → ∃ w', _drainSendOverflow p rd k w = (Ret tt, w') ∧ flow_ok None g w'.
Proof.
  intros Hw. unfold _drainSendOverflow. rewrite get_bind. destruct (om_get p (w_sendBuffers w)) as [i|] eqn:Hp; [|by exists w].
  destruct (om_get p (w_overflow w)) as [[|x q]|] eqn:Eq; [by exists w| |by exists w].
  destruct (w_buffers w !! i) as [[dc b]|] eqn:Hi; [|by exists w]. destruct (fo_buf _ _ _ Hw i dc b Hi) as (Hib & Hmax & _).
  destruct (drain_loop_spec rd (x :: q) k b Hib Hmax) as (rest & b' & fs & moved & sent' & E & Hib' & Hmax' & Hq & Hpk & Hca).
  rewrite E. unfold mbind at 1, SM_bind. cbn [lift]. unfold mbind, SM_bind. rewrite put_buffer_eq. eexists. split; [done|].
  assert (queued p w = moved ++ rest) as Hqu by (by rewrite /queued Eq).
  assert (0 < w_overflowMax w) as Hpos.
  { destruct (Z.lt_ge_cases 0 (w_overflowMax w)) as [|Hle]; [done|]. pose proof (proj1 (fo_over _ _ _ Hw p) Hle) as H0. by rewrite /queued Eq in H0. }
  assert (flow_ok (Some p) g (put i dc b' fs w)) as H1.
  { eapply flow_put; try done. intros q0 Hs Hq0. by rewrite (owner_inj _ _ _ _ _ _ Hw Hp Hq0) in Hs. }
  destruct (fo_cur _ _ _ Hw p i ltac:(done) Hp) as (d & c & sent & Hcur). pose proof (co_buffer _ _ _ _ _ _ _ Hcur) as E'.
  rewrite Hi in E'. injection E' as <- <-. destruct (cur_put g w p i dc b b' fs sent sent' moved Hcur Hpk Hca) as (C1 & C2 & _).
  set (w' := _ <| w_overflow ::= _ |>).
  assert (queued p w' = rest) as Hrest.
  { subst w'. destruct rest; [rewrite queued_delete|rewrite queued_set]; by rewrite decide_True. }
  eapply (flow_restore p g g w'); [|done|].
  - eapply flow_overflow; [exact H1|..]; try done.
    + intros q0 Hq0. subst w'. destruct rest; [rewrite queued_delete|rewrite queued_set]; by rewrite decide_False.
    + intros Hle. change (w_overflowMax (put i dc b' fs w)) with (w_overflowMax w) in Hle. lia.
    + rewrite Hrest. pose proof (proj2 (fo_over _ _ _ Hw p)) as Hpl. rewrite Hqu in Hpl. by apply Forall_app in Hpl as [_ ?].
  - intros j Hj. change (om_get p (w_sendBuffers w) = Some j) in Hj. rewrite Hp in Hj. injection Hj as <-.
    exists dc, b', (sent ++ sent'). constructor; [by apply (put_lookup i dc b)|apply Hcur|done| |].
    + rewrite Hrest. rewrite Hqu in C2. apply (Permutation_app_inv_r moved). rewrite C2. solve_Permutation.
    + intros Hle. change (w_overflowMax w') with (w_overflowMax w) in Hle. lia.
Qed.

Lemma since_set p q l g : since q (om_set p l g) = if decide (q = p) then l else since q g.
Proof. unfold since. rewrite om_get_set. by case_decide. Qed.

(** A packet that joins the overflow queue, or is taken by the buffer. *)
Lemma flow_queue p d g w i : plain d → flow_ok None g w → om_get p (w_sendBuffers w) = Some i → 0 < w_overflowMax w →
  flow_ok None (om_set p (since p g ++ [d]) g) (w <| w_overflow ::= om_set p (queued p w ++ [d]) |>).
Proof.
  intros Hd Hw Hp Hpos. eapply (flow_restore p g).
  - eapply flow_overflow; [by apply flow_weaken|..]; try done; [|lia|].
    + intros q Hq. by rewrite queued_set decide_False.
    + rewrite queued_set decide_True //. apply Forall_app_2; [by apply (fo_over _ _ _ Hw)|by apply Forall_singleton].
  - intros q Hq. by rewrite since_set decide_False.
  - intros j Hj. change (om_get p (w_sendBuffers w) = Some j) in Hj.
    destruct (fo_cur _ _ _ Hw p j ltac:(done) Hj) as (dc & b & sent & [Hbi He Hca Hpe Hfi]). exists dc, b, sent.
    constructor; try done; [|cbn; lia]. rewrite since_set queued_set !(decide_True (P := p = p)) // Hpe. solve_Permutation.
Qed.
Lemma flow_accept p d g w i dc b b' fs sent : flow_ok None g w → om_get p (w_sendBuffers w) = Some i → w_buffers w !! i = Some (dc, b) →
  sb_inv b' → maxFrameSize b' = MAX_FRAME_SIZE → packets b ++ [d] = sent ++ packets b' → carries MAX_FRAME_SIZE fs sent →
  flow_ok None (om_set p (since p g ++ [d]) g) (put i dc b' fs w).
Proof.
  intros Hw Hp Hi Hib Hmax Hpk Hca. destruct (fo_cur _ _ _ Hw p i ltac:(done) Hp) as (dc' & c & sent0 & Hcur).
  pose proof (co_buffer _ _ _ _ _ _ _ Hcur) as E'. rewrite Hi in E'. injection E' as <- <-.
  destruct (cur_put g w p i dc b b' fs sent0 sent [d] Hcur Hpk Hca) as (C1 & C2 & C3). eapply (flow_restore p g).
  - eapply flow_put; try done. intros q0 Hs Hq0. by rewrite (owner_inj _ _ _ _ _ _ Hw Hp Hq0) in Hs.
  - intros q Hq. by rewrite since_set decide_False.
  - intros j Hj. change (om_get p (w_sendBuffers w) = Some j) in Hj. rewrite Hp in Hj. injection Hj as <-.
    exists dc, b', (sent0 ++ sent). constructor; [by apply (put_lookup i dc b)|apply Hcur|done|..].
    + by rewrite since_set decide_True.
    + rewrite since_set decide_True //. intros Hle. split; [by apply (co_fifo _ _ _ _ _ _ _ Hcur)|by apply C3].
Qed.

(** [send]: what it accepts is in the account afterwards; it never throws. *)
Lemma flow_send p d rd g w : plain d → flow_ok None g w → ∃ x w', send p d rd w = (Ret x, w') ∧
  flow_ok None (if x : bool then om_set p (since p g ++ [d]) g else g) w'.
Proof.
  intros Hd Hw. unfold send. rewrite get_bind. destruct (om_get p (w_sendBuffers w)) as [i|] eqn:Hp; [|by exists false, w].
  destruct (w_buffers w !! i) as [[dc b]|] eqn:Hi; [|by exists false, w]. destruct (fo_buf _ _ _ Hw i dc b Hi) as (Hib & Hmax & _).
  unfold sb_push_nth. destruct (sb_push_spec (rd (2 * 0)%nat) (rd (2 * 0 + 1)%nat) d b Hib) as (x & b' & fs & sent & E & Hib' & Hpk & Hca & Hm & _).
  rewrite E Hmax in Hm, Hca |- *. unfold mbind at 1, SM_bind. cbn [lift]. unfold mbind at 1, SM_bind. rewrite put_buffer_eq.
  destruct x.
  - destruct (flow_drain p rd 1 _ _ (flow_accept p d g w i dc b b' fs sent Hw Hp Hi Hib' Hm Hpk Hca)) as (w2 & E2 & H2).
    unfold mbind, SM_bind. rewrite E2. by exists true, w2.
  - rewrite app_nil_r in Hpk. pose proof (flow_flush g w i dc b b' fs sent Hw Hi Hib' Hm Hpk Hca) as H1. set (w1 := put i dc b' fs w) in *.
    change (w_overflowMax w) with (w_overflowMax w1). destruct (Z.leb_spec (w_overflowMax w1) 0) as [|Hz]; [by exists false, w1|].
    change (default [] (om_get p (w_overflow w))) with (queued p w1).
    destruct (w_overflowMax w1 <=? _); eexists _, _; (split; [done|]).
    + eapply flow_ext; [exact H1|done|done| |done|done|done]. intros q. unfold queued at 1. cbn. rewrite om_get_set.
      by case_decide as Hq; [subst|].
    + by apply (flow_queue p d g w1 i Hd).
Qed.

Lemma flow_resume p r g : keeps (flow_ok None g) (resume_buffer p r).
Proof.
  intros w Hw. unfold resume_buffer. rewrite get_bind. destruct (om_get p (w_sendBuffers w)) as [i|]; [|done].
  destruct (w_buffers w !! i) as [[dc b]|] eqn:Hi; [|done]. destruct (fo_buf _ _ _ Hw i dc b Hi) as (Hib & Hmax & _).
  assert (∃ b' fs sent, sb_resume r b = Ret (b', fs) ∧ sb_inv b' ∧ packets b = sent ++ packets b' ∧
    carries (maxFrameSize b) fs sent ∧ maxFrameSize b' = maxFrameSize b) as (b' & fs & sent & E & Hib' & Hp & Hca & Hm).
  { unfold sb_resume. destruct (packets b) as [|x ps] eqn:Ep.
    - exists b, [], []. split_and!; try done. constructor.
    - destruct Hib as (Hmf & Hc & _). destruct (sb_flush_spec r b Hmf Hc) as (b' & fs & sent & ? & ? & Hp & ? & ? & _).
      exists b', fs, sent. by rewrite -Ep. }
  rewrite E Hmax in Hm, Hca |- *. unfold mbind, SM_bind. cbn [lift fst snd]. rewrite put_buffer_eq. by eapply flow_flush.
Qed.
Lemma flow_low dc r rd g : keeps (flow_ok None g) (on_buffered_amount_low dc r rd).
Proof.
  unfold on_buffered_amount_low, on_dc. flow_step; [flow_steps|]. destruct (w_dcs a !! dc) as [[p e]|]; [|flow_steps].
  flow_step. flow_step; [apply flow_resume|]. flow_step; [|flow_steps].
  intros w Hw. by destruct (flow_drain p rd 0 g w Hw) as (w' & -> & ?).
Qed.

End flow.

(** A channel opens, for the first time. *)
Lemma flow_open opened dc g w : flow_ok opened None g w → dc ∉ opened →
  flow_ok (dc :: opened) None (track (w, g) (DcOpen dc)).2 (rtc_step w (DcOpen dc)).
Proof.
  intros Hw Hdc. unfold track, rtc_step. cbn [rtc_apply snd]. unfold on_open, on_dc. rewrite get_bind.
  assert (flow_ok (dc :: opened) None g w) as Hmore by (destruct Hw as [? [? ?] ? ? ? ?]; constructor; try done; split; set_solver).
  destruct (w_dcs w !! dc) as [[p e]|] eqn:Hd; [|done]. destruct (current p e w); [|done]. cbn [when].
  rewrite modify_bind get_bind modify_bind. apply flow_out; [done|]. pose proof Hw as [Hb [Hn Hop] Ho Hf Hc Hov].
  assert (dc ∉ (w_buffers w).*1) as Hnew by set_solver.
  set (b0 := sb_new None _). constructor; cbn.
  - intros i d b [Hi|[Hlen Hi]]%lookup_app_Some; [by apply (Hb i)|]. apply list_lookup_singleton_Some in Hi as [_ [= <- <-]].
    split_and!; [by apply sb_new_inv|done|by exists (p, e)].
  - rewrite fmap_app. split; [apply NoDup_app; split_and!; [done| |apply NoDup_singleton]|cbn; set_solver].
    by intros d Hin ->%list_elem_of_singleton.
  - intros q i. rewrite om_get_set. case_decide as Hq; [intros [= <-]|]; subst.
    + exists dc, b0, e. by rewrite lookup_app_r // Nat.sub_diag.
    + intros Hi. destruct (Ho q i Hi) as (d & b & e' & Hbi & He). exists d, b, e'. by rewrite lookup_app_l //; apply lookup_lt_Some in Hbi.
  - intros d Hd'. apply Hf. intros Hin. apply Hd'. rewrite fmap_app. apply elem_of_app. by left.
  - intros q i _. rewrite om_get_set. case_decide as Hq; [intros [= <-]|]; subst.
    + exists dc, b0, []. constructor; cbn; [by rewrite lookup_app_r // Nat.sub_diag|by exists e| | |].
      * rewrite Hf //. constructor.
      * by rewrite since_set decide_True.
      * intros Hle. rewrite since_set decide_True //. split; [by apply Hov|by rewrite (proj1 (Hov p) Hle)].
    + intros Hi. destruct (Hc q i ltac:(done) Hi) as (d & b & sent & [Hbi He Hca Hpe Hfi]). exists d, b, sent.
      constructor; cbn; try done; rewrite ?since_set ?(decide_False (P := q = p)) //.
      by rewrite lookup_app_l //; apply lookup_lt_Some in Hbi.
  - apply Hov.
Qed.

(** ** Whole histories *)

Definition opens (ops : list rtc_op) : list nat := base.omap (λ o, match o with DcOpen dc => Some dc | _ => None end) ops.
(** Packets as the mesh sends them; the library opens a channel once. *)
Definition sends_plain (o : rtc_op) : Prop := match o with Send _ d _ => plain d | _ => True end.
#[export] Instance sends_plain_dec o : Decision (sends_plain o).
Proof. destruct o; try (by left). cbn. unfold plain. apply _. Defined.

Lemma track_ok opened o w g : sends_plain o → flow_ok opened None g w → (∀ dc, o = DcOpen dc → dc ∉ opened) →
  flow_ok (opens [o] ++ opened) None (track (w, g) o).2 (track (w, g) o).1.
Proof.
  intros Hpl Hw Ho. destruct o; cbn [opens base.omap list_omap app];
    try match goal with |- context [track _ ?o] => exact (flow_signalling opened o g I w Hw) end.
  - cbn [track]. match goal with |- context [send ?p ?d ?rd w] => destruct (flow_send opened p d rd g w Hpl Hw) as (x & w' & -> & Hw') end.
    by destruct x.
  - by apply flow_open, Ho.
  - by apply flow_low.
  - by apply flow_flush_timer.
Qed.
Definition since_plain (g : Since) : Prop := ∀ p, Forall plain (since p g).
Lemma track_plain opened o w g : sends_plain o → flow_ok opened None g w → since_plain g → since_plain (track (w, g) o).2.
Proof.
  intros Hpl Hw Hg p. destruct o; try apply Hg; cbn [track snd].
  - destruct (send _ _ _ w) as [[[]|] w']; try apply Hg. cbn [snd]. rewrite since_set. case_decide; [|apply Hg].
    apply Forall_app_2; [apply Hg|by apply Forall_singleton].
  - destruct (w_dcs w !! dc) as [[q e]|]; [|apply Hg]. destruct (current q e w); [|apply Hg]. rewrite since_set.
    case_decide; [by apply (fo_over _ _ _ _ Hw)|apply Hg].
Qed.
Lemma tracks_ok ops w : flow_ok [] None [] w → NoDup (opens ops) → Forall sends_plain ops →
  ∃ opened, opened ⊆ opens ops ∧ flow_ok opened None (tracks ops w).2 (tracks ops w).1 ∧ since_plain (tracks ops w).2.
Proof.
  intros Hw. induction ops as [|o ops IH] using rev_ind; intros Hnd Hpl.
  { exists []. split_and!; [done..|]. intros p. constructor. }
  unfold opens in Hnd. rewrite omap_app in Hnd. apply NoDup_app in Hnd as (Hnd & Hdis & _).
  apply Forall_app in Hpl as [Hpl Hpo]. apply Forall_cons in Hpo as [Hpo _].
  destruct (IH Hnd Hpl) as (opened & Hsub & Hok & Hg). unfold tracks. rewrite foldl_app. fold (tracks ops w).
  destruct (tracks ops w) as [w' g']. exists (opens [o] ++ opened). split_and!.
  - unfold opens in *. rewrite omap_app. set_solver.
  - apply (track_ok opened o w' g'); [done..|]. intros dc -> Hin. eapply (Hdis dc); [by apply Hsub|]. left.
  - by apply (track_plain opened o w' g').
Qed.
Lemma flow_new q o : flow_ok [] None [] (new_webrtc q o).
Proof. constructor; try done. by split; [constructor|]. Qed.

(** ** The other end *)

Lemma on_message_eq dc p e f ps w : w_dcs w !! dc = Some (p, e) → current p e w = true → unframe f = Ret (Some ps) →
  on_message dc f w = (Ret tt, w <| w_out ::= λ os, os ++ map (OMessage p) ps |>).
Proof.
  intros Hd Hc Hf. unfold on_message, on_dc. rewrite get_bind Hd Hc. cbn [when]. rewrite Hf. unfold mbind, SM_bind. cbn [lift].
  apply for_each_out.
Qed.
Lemma receives dc p e fs w : w_dcs w !! dc = Some (p, e) → current p e w = true → Forall (λ f, ∃ ps, unframe f = Ret (Some ps)) fs →
  for_each (on_message dc) fs w = (Ret tt, w <| w_out ::= λ os, os ++ map (OMessage p) (received fs) |>).
Proof.
  intros Hd Hc Hfs. revert w Hd Hc. induction Hfs as [|f fs (ps & Hf) _ IH]; intros w Hd Hc.
  - by rewrite -(for_each_out (OMessage p) (received [])).
  - cbn [for_each]. unfold mbind at 1, SM_bind. rewrite (on_message_eq dc p e f ps) // IH //.
    unfold received. csimpl. rewrite Hf map_app. destruct w. unfold set_field. cbn. by rewrite -app_assoc.
Qed.

(** C19: The WebRTC transport loses and duplicates nothing.  Whatever connections and
    channels are made, replaced, lost and closed, and whenever the library takes
    frames, for the channel a peer has now the packets accepted since it opened are, up
    to their order, those the other end reads from its frames, those in the send buffer
    and those in the overflow queue; without the overflow queue they also keep their
    order.  Packets that wait in the buffer have its timer armed, and the other end
    hands over exactly the packets of the frames. *)
Theorem webrtc_conserves queueMax overflowMax ops (rcv : WebRTC) dc' q e :
  Forall sends_plain ops → NoDup (opens ops) → w_dcs rcv !! dc' = Some (q, e) → current q e rcv = true →
  let '(w, g) := tracks ops (new_webrtc queueMax overflowMax) in
  ∀ p i, om_get p (w_sendBuffers w) = Some i → ∃ dc b, w_buffers w !! i = Some (dc, b) ∧ (packets b ≠ [] → timer b = true) ∧
    let fs := frames_on dc (w_out w) in
    since p g ≡ₚ received fs ++ packets b ++ queued p w ∧
    (w_overflowMax w <= 0 → queued p w = [] ∧ since p g = received fs ++ packets b) ∧
    for_each (on_message dc') fs rcv = (Ret tt, rcv <| w_out ::= λ os, os ++ map (OMessage q) (received fs) |>).
Proof.
  intros Hpl Hnd Hd Hc. destruct (tracks_ok ops _ (flow_new queueMax overflowMax) Hnd Hpl) as (opened & _ & Hok & Hg).
  destruct (tracks ops _) as [w g]. cbn in Hok, Hg. intros p i Hp.
  destruct (fo_cur _ _ _ _ Hok p i ltac:(done) Hp) as (dc & b & sent & [Hbi He Hca Hpe Hfi]). exists dc, b. split; [done|].
  destruct (fo_buf _ _ _ _ Hok i dc b Hbi) as ((_ & _ & Htimer) & _ & _). split; [done|].
  assert (Forall plain sent) as Hs.
  { pose proof (Hg p) as Hall. rewrite Hpe in Hall. by apply Forall_app in Hall as [? _]. }
  cbv zeta. rewrite (carries_received MAX_FRAME_SIZE _ sent) //. split_and!; [done..|].
  rewrite -(carries_received MAX_FRAME_SIZE (frames_on dc (w_out w)) sent) //. apply (receives dc' q e); [done..|]. by apply (carries_decoded MAX_FRAME_SIZE _ sent).
Qed.

Definition bob : jstr := js "bob".
Definition packet (n : Z) : buffer := [n; n; n].
Definition busy : Ready := λ _ _, false.
Definition idle : Ready := λ _ _, true.
(** A channel that opens, fills, drains, is replaced and opens again. *)
Definition channel_run : list rtc_op :=
  [CreateOffer bob true true; DcOpen 0; Send bob (packet 1) busy; Send bob (packet 2) busy; Send bob (packet 3) busy;
   DcLow 0 (λ _, true) idle; Send bob (packet 4) idle; FlushTimer 0 (λ _, true);
   HandleOffer bob (js "v=0") true true; PcDataChannel 1; DcOpen 1; DcLow 0 (λ _, true) idle; Send bob (packet 5) idle].
Definition receiver : WebRTC := rtc_run [HandleOffer bob [] true true; PcDataChannel 0] (new_webrtc None None).

Lemma webrtc_conserves_witness :
  Forall sends_plain channel_run ∧
  let '(w, g) := tracks channel_run (new_webrtc (Some 2) None) in
  ∀ p i, om_get p (w_sendBuffers w) = Some i → ∃ dc b, w_buffers w !! i = Some (dc, b) ∧ (packets b ≠ [] → timer b = true) ∧
    let fs := frames_on dc (w_out w) in
    since p g ≡ₚ received fs ++ packets b ++ queued p w ∧
    (w_overflowMax w <= 0 → queued p w = [] ∧ since p g = received fs ++ packets b) ∧
    for_each (on_message 0) fs receiver = (Ret tt, receiver <| w_out ::= λ os, os ++ map (OMessage bob) (received fs) |>).
Proof.
  assert (Forall sends_plain channel_run) as H by (apply (bool_decide_unpack _); vm_compute; reflexivity).
  split; [exact H|]. apply (webrtc_conserves (Some 2) None channel_run receiver 0 bob 1); [exact H|..].
  - apply (bool_decide_unpack _). vm_compute. reflexivity.
  - vm_compute. reflexivity.
  - vm_compute. reflexivity.
Defined.

(** A packet sent while others wait in the overflow queue overtakes them as soon as the
    buffer has room again: the flush timer empties the buffer without draining the
    queue, and [send] asks the buffer first. *)
Example overflow_overtaken :
  let '(w, g) := tracks [CreateOffer bob true true; DcOpen 0; Send bob (packet 1) busy; Send bob (packet 2) busy; Send bob (packet 3) busy;
                         FlushTimer 0 (λ _, true); Send bob (packet 4) idle; FlushTimer 0 (λ _, true)] (new_webrtc (Some 2) None) in
  since bob g = [packet 1; packet 2; packet 3; packet 4] ∧
  received (frames_on 0 (w_out w)) = [packet 1; packet 2; packet 4; packet 3].
Proof. vm_compute. done. Qed.
