(* ===== verification/WebRtcSignals.v ===== *)
(** * Offers, answers and candidates of a WebRTC transport

    What the signalling side of [WebRtc] promises: the promise of every offer or answer
    is settled once and not left waiting, and remote candidates reach a connection in
    the order they came, after its remote description. *)

From S2P Require Import Prelude JsMap Bytes JsString Effects Framing SendBuffer WebRtc.
Local Open Scope Z_scope.
#[local] Unset Default Proof Using.

(** ** What closing a peer does to the signalling state *)

(** The promises settled, in order. *)
Definition settles (os : list RtcOut) : list nat :=
  base.omap (λ o, match o with OResolve k _ _ | OReject k => Some k | _ => None end) os.
#[local] Arguments settles : simpl never.
Lemma settles_app a b : settles (a ++ b) = settles a ++ settles b.
Proof. apply omap_app. Qed.

Definition torn_out (p : jstr) (w : WebRTC) : list RtcOut :=
  match om_get p (w_dataChannels w) with Some dc => [OCloseDc dc] | None => [] end ++
  match om_get p (w_connections w) with Some pc => [ODestroyPc pc] | None => [] end ++
  match om_get p (w_sdp w) with Some en => [OReject (en_promise en)] | None => [] end.
Definition torn_timers (p : jstr) (w : WebRTC) : list SdpTimer :=
  match om_get p (w_sdp w) with
  | Some en => List.filter (λ t, negb (st_id t =? en_timeout en)%nat) (w_timers w)
  | None => w_timers w
  end.
(** [w'] is [w] with the signalling state of [p] gone. *)
Record torn (p : jstr) (w w' : WebRTC) : Prop := MkTorn {
  to_conn : w_connections w' = om_delete p (w_connections w);
  to_sdp : w_sdp w' = om_delete p (w_sdp w);
  to_desc : w_remoteDesc w' = os_delete p (w_remoteDesc w);
  to_ice : w_pendingIce w' = om_delete p (w_pendingIce w);
  to_pcs : w_pcs w' = w_pcs w;
  to_epoch : w_epoch w' = w_epoch w;
  to_promises : w_promises w' = w_promises w;
  to_next : w_nextTimer w' = w_nextTimer w;
  to_timers : w_timers w' = torn_timers p w;
  to_out : w_out w' = w_out w ++ torn_out p w
}.
Lemma tearDown_torn p c w : ∃ w', _tearDownPeerWebRtcState p c w = (Ret tt, w') ∧ torn p w w'.
Proof.
  unfold _tearDownPeerWebRtcState. rewrite modify_bind. set (w0 := _ <| w_overflow ::= _ |>).
  assert (∃ w1, drop_send_buffer p w0 = (Ret tt, w1) ∧ w_connections w1 = w_connections w ∧ w_sdp w1 = w_sdp w ∧
    w_dataChannels w1 = w_dataChannels w ∧ w_remoteDesc w1 = os_delete p (w_remoteDesc w) ∧ w_pendingIce w1 = om_delete p (w_pendingIce w) ∧
    w_pcs w1 = w_pcs w ∧ w_epoch w1 = w_epoch w ∧ w_promises w1 = w_promises w ∧ w_nextTimer w1 = w_nextTimer w ∧
    w_timers w1 = w_timers w ∧ w_out w1 = w_out w) as (w1 & E & H1).
  { unfold drop_send_buffer. rewrite get_bind. destruct (om_get p (w_sendBuffers w0)); eexists; by split. }
  unfold mbind at 1, SM_bind. rewrite E get_bind. destruct H1 as (Ec & Es & Ed & Er & Ei & Ep & Ee & Ek & En & Et & Eo).
  rewrite Ec Es Ed.
  destruct (om_get p (w_dataChannels w)) eqn:Gd, (om_get p (w_connections w)) eqn:Gc, (om_get p (w_sdp w)) eqn:Gs, c;
    (eexists; split; [reflexivity|]; constructor; cbn -[om_delete os_delete];
     rewrite /torn_out /torn_timers ?Gd ?Gc ?Gs ?Ec ?Es ?Er ?Ei ?Ep ?Ee ?Ek ?En ?Et ?Eo ?app_nil_r -?app_assoc;
     try rewrite -> (om_delete_none p _ Gc); try rewrite -> (om_delete_none p _ Gs); done).
Qed.

(** ** Promises: settled once, and never forgotten *)

Definition timer_of (p : jstr) (en : Entry) (w : WebRTC) : Prop :=
  ∃ t, t ∈ w_timers w ∧ st_peer t = p ∧ st_epoch t = en_epoch en.
Definition waits (k : nat) (w : WebRTC) : Prop := ∃ p en, om_get p (w_sdp w) = Some en ∧ en_promise en = k.

(** The promise of an entry whose peer has no connection: a new offer or answer overwrites
    the entry. *)
Definition left_behind (p : jstr) (w : WebRTC) : list nat :=
  if om_has p (w_connections w) then [] else match om_get p (w_sdp w) with Some en => [en_promise en] | None => [] end.

(** The library says that it has gathered, but has no local description. *)
Definition ld_known (ld : option LocalDescription) (gs : option jstr) : Prop := _gatheringStateIsComplete gs = true → ld ≠ None.
(** Then the entry goes before its promise is settled, which is a [TypeError]. *)
Definition undescribed (id : nat) (ld : option LocalDescription) (gs : option jstr) (w : WebRTC) : list nat :=
  match ld, List.find (λ t, st_id t =? id)%nat (w_timers w) with
  | None, Some t =>
      match om_get (st_peer t) (w_sdp w) with
      | Some en => if (en_epoch en =? st_epoch t) && _gatheringStateIsComplete gs then [en_promise en] else []
      | None => []
      end
  | _, _ => []
  end.
(** The promises an operation forgets, and those a history does. *)
Definition forgets (o : rtc_op) (w : WebRTC) : list nat :=
  match o with
  | CreateOffer p true _ | HandleOffer p _ true _ => left_behind p w
  | SdpTimeout id ld gs => undescribed id ld gs w
  | _ => []
  end.
Fixpoint forgotten (ops : list rtc_op) (w : WebRTC) : list nat :=
  match ops with [] => [] | o :: ops => forgets o w ++ forgotten ops (rtc_step w o) end.

(** [forgot]: promises that nothing will settle.  [linked]: the peer of every entry has its
    connection; [strict]: what waits was not settled before, and nothing is settled twice. *)
Section promises.
Variables (linked strict : Prop) (forgot : list nat).

Record sdp_ok (w : WebRTC) : Prop := MkSdpOk {
  so_ids t : t ∈ w_timers w → (st_id t < w_nextTimer w)%nat ∧ (st_round t <= ICE_GATHERING_GRACE_ROUNDS)%nat;
  so_nodup : NoDup (st_id <$> w_timers w);
  so_entry p en : om_get p (w_sdp w) = Some en →
    (en_promise en < w_promises w)%nat ∧ (en_timeout en < w_nextTimer w)%nat ∧ (strict → en_promise en ∉ settles (w_out w)) ∧ timer_of p en w;
  so_own p en t : om_get p (w_sdp w) = Some en → t ∈ w_timers w → st_id t = en_timeout en → st_peer t = p;
  so_inj p q en en' : om_get p (w_sdp w) = Some en → om_get q (w_sdp w) = Some en' → en_promise en = en_promise en' → p = q;
  so_conn : linked → ∀ p, is_Some (om_get p (w_sdp w)) → is_Some (om_get p (w_connections w));
  so_all k : (k < w_promises w)%nat → k ∈ settles (w_out w) ∨ waits k w ∨ k ∈ forgot;
  so_settled : strict → NoDup (settles (w_out w));
  so_bound k : k ∈ settles (w_out w) → (k < w_promises w)%nat
}.

Lemma elem_timers (P : SdpTimer → bool) t ts : t ∈ List.filter P ts ↔ t ∈ ts ∧ P t = true.
Proof. by rewrite !list_elem_of_In filter_In. Qed.
Lemma filter_twice (P : SdpTimer → bool) ts : List.filter P (List.filter P ts) = List.filter P ts.
Proof. induction ts as [|t ts IH]; [done|]. cbn. destruct (P t) eqn:Ht; cbn; by rewrite ?Ht IH. Qed.
Lemma filter_swap (P Q : SdpTimer → bool) ts : List.filter P (List.filter Q ts) = List.filter Q (List.filter P ts).
Proof. induction ts as [|t ts IH]; [done|]. cbn. destruct (P t) eqn:Hp, (Q t) eqn:Hq; cbn; by rewrite ?Hp ?Hq IH. Qed.
Lemma ids_filter (P : SdpTimer → bool) ts : NoDup (st_id <$> ts) → NoDup (st_id <$> List.filter P ts).
Proof.
  induction ts as [|t ts IH]; [done|]. cbn. intros [Hnin Hn]%NoDup_cons. destruct (P t); [|by apply IH]. cbn. apply NoDup_cons.
  split; [|by apply IH]. intros (u & Hid & [Hu _]%elem_timers)%list_elem_of_fmap. apply Hnin, list_elem_of_fmap. by exists u.
Qed.

Lemma sdp_new q o : sdp_ok (new_webrtc q o).
Proof.
  constructor; try done; cbn; try (by intros ? ?%elem_of_nil); try constructor; try lia.
  by intros p [].
Qed.

(** Steps that leave the entries and their timers alone. *)
Lemma sdp_ext w w' : sdp_ok w → w_sdp w' = w_sdp w → w_timers w' = w_timers w → w_nextTimer w' = w_nextTimer w →
  w_promises w' = w_promises w → settles (w_out w') = settles (w_out w) →
  (linked → ∀ p, is_Some (om_get p (w_sdp w)) → is_Some (om_get p (w_connections w)) → is_Some (om_get p (w_connections w'))) → sdp_ok w'.
Proof.
  intros [Hi Hn He Ho Hj Hc Ha Hs Hb] Es Et En Ep Eo Ec.
  constructor; rewrite /timer_of /waits ?Es ?Et ?En ?Ep ?Eo; try done. intros Hl p Hp. apply Ec; [done..|by apply Hc].
Qed.
Definition silent (o : RtcOut) : Prop := match o with OResolve _ _ _ | OReject _ => False | _ => True end.
Lemma settles_silent o l : silent o → settles (l ++ [o]) = settles l.
Proof. intros Ho. rewrite settles_app. by destruct o; rewrite /settles /= ?app_nil_r. Qed.
Lemma sdp_out o : silent o → keeps sdp_ok (out o).
Proof. intros Ho w Hw. eapply sdp_ext; [exact Hw|done..| |done]. by apply settles_silent. Qed.
Lemma sdp_modify (f : WebRTC → WebRTC) :
  (∀ w, w_sdp (f w) = w_sdp w ∧ w_timers (f w) = w_timers w ∧ w_nextTimer (f w) = w_nextTimer w ∧ w_promises (f w) = w_promises w ∧
        w_out (f w) = w_out w ∧ w_connections (f w) = w_connections w) → keeps sdp_ok (modify f).
Proof. intros Hf w Hw. destruct (Hf w) as (?&?&?&?&Ho&Hc). eapply sdp_ext; [exact Hw|done..| |]; cbn; by rewrite ?Ho ?Hc. Qed.

(** An entry goes with its timer, and its promise is settled or among those forgotten. *)
Lemma sdp_dropped p en l w w' : sdp_ok w → om_get p (w_sdp w) = Some en → w_sdp w' = om_delete p (w_sdp w) →
  w_timers w' = List.filter (λ t, negb (st_id t =? en_timeout en)%nat) (w_timers w) → w_nextTimer w' = w_nextTimer w →
  w_promises w' = w_promises w → settles (w_out w') = settles (w_out w) ++ l → l = [en_promise en] ∨ l = [] ∧ en_promise en ∈ forgot →
  (∀ q, q ≠ p → om_get q (w_connections w') = om_get q (w_connections w)) → sdp_ok w'.
Proof.
  intros [Hi Hn He Ho Hj Hc Ha Hs Hb] Hp Es Et En Ek Eo El Ec. destruct (He p en Hp) as (Hk & _ & Hnew & _).
  assert (∀ t, t ∈ w_timers w' ↔ t ∈ w_timers w ∧ st_id t ≠ en_timeout en) as Hin.
  { intros t. by rewrite Et elem_timers negb_true_iff Nat.eqb_neq. }
  assert (∀ k, k ∈ l → k = en_promise en) as Hl by (intros k; destruct El as [->|[-> _]]; set_solver).
  constructor; rewrite ?Es ?En ?Ek ?Eo.
  - intros t [Ht _]%Hin. by apply Hi.
  - rewrite Et. by apply ids_filter.
  - intros q en'. rewrite om_get_delete. case_decide as Hq; [done|]. intros Hq'. destruct (He q en' Hq') as (H1 & H2 & H3 & t & Ht & Htp & Hte).
    split_and!; [done..| |].
    + intros Hst. rewrite elem_of_app. intros [?|Heq%Hl]; [by apply H3|]. by apply Hq, (Hj q p en' en).
    + exists t. rewrite Hin. split_and!; try done. intros Hid. apply Hq. rewrite -Htp. by apply (Ho p en).
  - intros q en' t. rewrite om_get_delete. case_decide; [done|]. intros Hq [Ht _]%Hin. by apply Ho.
  - intros q1 q2 e1 e2. rewrite !om_get_delete. do 2 (case_decide; [done|]). apply Hj.
  - intros Hli q. rewrite om_get_delete. case_decide as Hq; [by intros []|]. intros Hq'. rewrite Ec //. by apply Hc.
  - intros k Hk'. rewrite elem_of_app. destruct (Ha k Hk') as [?|[(q & en' & Hq & <-)|?]]; [tauto| |tauto].
    destruct (decide (q = p)) as [->|Hqp].
    + assert (en' = en) as -> by congruence. destruct El as [->|[-> ?]]; [left; right; left|tauto].
    + right. left. exists q, en'. rewrite Es om_get_delete_ne //.
  - intros Hst. apply NoDup_app. split_and!; [by apply Hs| |destruct El as [->|[-> _]]; [apply NoDup_singleton|apply NoDup_nil_2]].
    intros k Hk' ->%Hl. by apply Hnew.
  - intros k [Hk1|Hk1%Hl]%elem_of_app; [by apply Hb|by subst].
Qed.
Lemma sdp_settled p en w w' : sdp_ok w → om_get p (w_sdp w) = Some en → w_sdp w' = om_delete p (w_sdp w) →
  w_timers w' = List.filter (λ t, negb (st_id t =? en_timeout en)%nat) (w_timers w) → w_nextTimer w' = w_nextTimer w →
  w_promises w' = w_promises w → settles (w_out w') = settles (w_out w) ++ [en_promise en] →
  (∀ q, q ≠ p → om_get q (w_connections w') = om_get q (w_connections w)) → sdp_ok w'.
Proof. intros Hw Hp Es Et En Ek Eo Ec. apply (sdp_dropped p en [en_promise en] w); auto. Qed.

Lemma sdp_torn p w w' : sdp_ok w → torn p w w' → sdp_ok w'.
Proof.
  intros Hw [Ec Es Ed Ei Ep Ee Ek En Et Eo].
  assert (settles (torn_out p w) = match om_get p (w_sdp w) with Some en => [en_promise en] | None => [] end) as Hto.
  { unfold torn_out. rewrite !settles_app. by destruct (om_get p (w_dataChannels w)), (om_get p (w_connections w)), (om_get p (w_sdp w)). }
  assert (∀ q, q ≠ p → om_get q (w_connections w') = om_get q (w_connections w)) as Hcon by (intros q Hq; by rewrite Ec om_get_delete_ne).
  unfold torn_timers in Et. destruct (om_get p (w_sdp w)) as [en|] eqn:Gs.
  - eapply (sdp_settled p en w w'); try done. by rewrite Eo settles_app Hto.
  - eapply (sdp_ext w w'); try done; [by rewrite Es om_delete_none|by rewrite Eo settles_app Hto app_nil_r|].
    intros _ q Hq Hc. rewrite Hcon //. intros ->. rewrite Gs in Hq. by destruct Hq.
Qed.
Lemma sdp_tearDown p c : keeps sdp_ok (_tearDownPeerWebRtcState p c).
Proof. intros w Hw. destruct (tearDown_torn p c w) as (w' & -> & Ht). by eapply sdp_torn. Qed.

Ltac sdp_step := match goal with
  | |- keeps sdp_ok (out _) => by apply sdp_out
  | |- keeps sdp_ok (modify _) => apply sdp_modify; by intros ?
  | |- keeps sdp_ok (_tearDownPeerWebRtcState _ _) => apply sdp_tearDown
  | |- keeps sdp_ok (close _) => apply sdp_tearDown
  | |- _ => keeps_step
  end.
Ltac sdp_steps := repeat (sdp_step; cbv beta).

(** A new connection leaves no entry of the peer but one without a connection. *)
Lemma sdp_create p k ok w : sdp_ok w → let '(r, w') := _createPeerConnection p k ok w in
  sdp_ok w' ∧ ∀ x, r = Ret x → ok = true ∧ (∀ en, om_get p (w_sdp w') = Some en → en_promise en ∈ left_behind p w) ∧ is_Some (om_get p (w_connections w')).
Proof.
  intros Hw. unfold _createPeerConnection. rewrite get_bind !modify_bind. set (w1 := _ <| w_hsGen ::= _ |>).
  assert (sdp_ok w1) as H1 by (by eapply (sdp_ext w)).
  assert (∃ w2, when (om_has p (w_connections w)) (close p) w1 = (Ret tt, w2) ∧ sdp_ok w2 ∧
    ∀ en, om_get p (w_sdp w2) = Some en → en_promise en ∈ left_behind p w) as (w2 & E & H2 & Hn).
  { unfold left_behind. destruct (om_has p (w_connections w)) eqn:Hc; cbn [when].
    - destruct (tearDown_torn p true w1) as (w2 & E & Ht). exists w2. split; [done|]. split; [by eapply sdp_torn|].
      by rewrite (to_sdp _ _ _ Ht) om_get_delete_eq.
    - exists w1. split_and!; [done..|]. change (w_sdp w1) with (w_sdp w). intros en ->. by left. }
  change (w_connections w1) with (w_connections w). unfold mbind at 1, SM_bind. rewrite E. destruct ok; cbn [negb when].
  - unfold mbind at 1, SM_bind. cbn [skip mret SM_ret]. rewrite get_bind modify_bind. unfold out. rewrite !modify_bind. cbn -[om_set om_get].
    split; [|intros x _; split_and!; [done..|by rewrite om_get_set_eq]].
    eapply sdp_ext; [exact H2|done..| |]; cbn -[om_set om_get]; [by apply (settles_silent (OCreatePc _))|].
    intros _ q Hq Hcq. rewrite om_get_set. by case_decide.
  - unfold mbind at 1, SM_bind. cbn. split; [done|]. by intros x.
Qed.

Lemma sdp_await p pc e k t w : sdp_ok w → (∀ en, om_get p (w_sdp w) = Some en → en_promise en ∈ forgot) → is_Some (om_get p (w_connections w)) →
  ∃ w', await_gathering p pc e k t w = (Ret (w_promises w), w') ∧ (w_promises w < w_promises w')%nat ∧ sdp_ok w'.
Proof.
  intros Hw Hno Hc. unfold await_gathering, new_promise, set_sdp_timer. eexists. split_and!; [reflexivity|cbn; lia|].
  pose proof Hw as [Hi Hn He Ho Hj Hco Ha Hs Hb]. set (en := MkEntry _ _ _ _ _ _).
  assert (∀ k, k ∈ settles (w_out w) → k ≠ w_promises w) as Hfresh by (intros k0 Hk ->; apply Hb in Hk; lia).
  constructor; cbn -[om_set om_get settles].
  - intros t0 [Ht|Ht]%elem_of_app; [apply Hi in Ht; lia|]. apply list_elem_of_singleton in Ht as ->. cbn. unfold ICE_GATHERING_GRACE_ROUNDS. lia.
  - rewrite fmap_app. apply NoDup_app. split_and!; [done| |apply NoDup_singleton]. intros x (t0 & -> & Ht)%list_elem_of_fmap Hx.
    apply list_elem_of_singleton in Hx. apply Hi in Ht. cbn in Hx. lia.
  - intros q en'. rewrite om_get_set. case_decide as Hq; [intros [= <-]|intros Hq'].
    + subst q. cbn. split_and!; [lia..| |].
      * intros _ Hk. by apply (Hfresh _ Hk).
      * eexists. split; [apply elem_of_app; right; left|]. done.
    + destruct (He q en' Hq') as (H1 & H2 & H3 & t0 & Ht & ?). split_and!; [lia..|done|]. exists t0. split; [by apply elem_of_app; left|done].
  - intros q en' t0. rewrite om_get_set. case_decide as Hq; [intros [= <-]|intros Hq']; intros [Ht|Ht]%elem_of_app Hid.
    + apply Hi in Ht. cbn in Hid. lia.
    + apply list_elem_of_singleton in Ht as ->. by subst.
    + by apply (Ho q en').
    + apply list_elem_of_singleton in Ht as ->. cbn in Hid. destruct (He q en' Hq') as (_ & ? & _). lia.
  - intros q1 q2 e1 e2. rewrite !om_get_set. case_decide as H1; case_decide as H2; intros E1 E2; simplify_eq; try done; cbn.
    + intros Hk. destruct (He q2 e2 E2) as (? & _). lia.
    + intros Hk. destruct (He q1 e1 E1) as (? & _). lia.
    + by apply (Hj q1 q2).
  - intros Hli q. rewrite om_get_set. case_decide as Hq; [by subst|]. by apply Hco.
  - intros k0 Hk. destruct (decide (k0 = w_promises w)) as [->|]; [right; left; exists p, en; cbn -[om_set om_get]; by rewrite om_get_set_eq|].
    destruct (Ha k0) as [?|[(q & en' & Hq & <-)|?]]; [lia|by left| |by right; right]. right. destruct (decide (q = p)) as [->|Hqp]; [right; by apply Hno|].
    left. exists q, en'. cbn -[om_set om_get]. by rewrite om_get_set_ne.
  - done.
  - intros k0 Hk. apply Hb in Hk. lia.
Qed.

(** The entry of [p] goes, with [os] handed out: what [resolve] or [reject] hands out. *)
Definition settled_state (p : jstr) (en : Entry) (os : list RtcOut) (w : WebRTC) : WebRTC :=
  w <| w_timers ::= List.filter (λ t, negb (st_id t =? en_timeout en)%nat) |> <| w_sdp ::= om_delete p |> <| w_out ::= λ l, l ++ os |>.
Lemma sdp_settle p en os w : sdp_ok w → om_get p (w_sdp w) = Some en →
  settles os = [en_promise en] ∨ os = [] ∧ en_promise en ∈ forgot → sdp_ok (settled_state p en os w).
Proof.
  intros Hw Hp Ho. eapply (sdp_dropped p en (settles os) w); try done; [cbn -[settles]; by rewrite settles_app|].
  destruct Ho as [?|[-> ?]]; [by left|by right].
Qed.

(** How a timer of [_finishSdpAfterGatheringTimeout] ends: for another entry's epoch
    nothing happens; else the promise is settled, or a grace timer follows, or the library
    has gathered but has no local description. *)
Lemma finish_cases p e pc r ld gs w : (r <= ICE_GATHERING_GRACE_ROUNDS)%nat →
  let w' := (_finishSdpAfterGatheringTimeout p e pc r ld gs w).2 in
  w' = w ∧ (∀ en, om_get p (w_sdp w) = Some en → en_epoch en ≠ e) ∨
  (∃ en, om_get p (w_sdp w) = Some en ∧ en_epoch en = e ∧
    ((∃ os, (settles os = [en_promise en] ∨ os = [] ∧ ld = None ∧ _gatheringStateIsComplete gs = true) ∧ w' = settled_state p en os w) ∨
     (r < ICE_GATHERING_GRACE_ROUNDS)%nat ∧ w' = (set_sdp_timer p e pc (S r) ICE_GATHERING_GRACE_MS w).2)).
Proof.
  intros Hr. unfold _finishSdpAfterGatheringTimeout. rewrite get_bind. destruct (om_get p (w_sdp w)) as [en|] eqn:Hp; [|by left].
  destruct (Z.eqb_spec (en_epoch en) e) as [He|He]; cbn [negb]; [|left; split; [done|]; congruence].
  right. exists en. split_and!; [done..|]. unfold clearTimeout, resolve, _localDescriptionToSignal, settled_state.
  destruct (_ || _) eqn:Hc.
  - left. rewrite !modify_bind. destruct ld as [d|]; [eexists [_]; split; [|reflexivity]; by left|]. apply orb_prop in Hc as [Hc|Hc]; [|done].
    exists []. split; [by right|]. destruct w. cbv [set_field]. cbn. by rewrite app_nil_r.
  - destruct (r <? ICE_GATHERING_GRACE_ROUNDS)%nat eqn:Hg; [right; split; [by apply Nat.ltb_lt|done]|]. left. rewrite !modify_bind.
    destruct ld as [d|]; cbn [sdp_of]; [destruct (ld_sdp d)|]; (eexists [_]; split; [|reflexivity]; by left).
Qed.

(** A timer [t] is taken away, and [extra] ones come. *)
Lemma sdp_retime w w' t extra : sdp_ok w → t ∈ w_timers w → w_sdp w' = w_sdp w → w_promises w' = w_promises w → w_out w' = w_out w →
  w_connections w' = w_connections w → (w_nextTimer w <= w_nextTimer w')%nat →
  w_timers w' = List.filter (λ u, negb (st_id u =? st_id t)%nat) (w_timers w) ++ extra → NoDup (st_id <$> extra) →
  (∀ u, u ∈ extra → (w_nextTimer w <= st_id u < w_nextTimer w')%nat ∧ (st_round u <= ICE_GATHERING_GRACE_ROUNDS)%nat) →
  (∀ en, om_get (st_peer t) (w_sdp w) = Some en → en_epoch en = st_epoch t →
     ∃ u, u ∈ extra ∧ st_peer u = st_peer t ∧ st_epoch u = st_epoch t) → sdp_ok w'.
Proof.
  intros [Hi Hn He Ho Hj Hc Ha Hs Hb] Ht Es Ek Eo Ec Hle Et Hnx Hx Hen.
  assert (∀ u, u ∈ w_timers w' ↔ u ∈ w_timers w ∧ st_id u ≠ st_id t ∨ u ∈ extra) as Hin.
  { intros u. by rewrite Et elem_of_app elem_timers negb_true_iff Nat.eqb_neq. }
  constructor; rewrite ?Es ?Ek ?Eo ?Ec; try done.
  - intros u [[Hu _]|Hu]%Hin; [apply Hi in Hu; lia|apply Hx in Hu; lia].
  - rewrite Et fmap_app. apply NoDup_app. split_and!; [by apply ids_filter| |done].
    intros x (u & -> & [Hu _]%elem_timers)%list_elem_of_fmap (v & Hid & Hv)%list_elem_of_fmap. apply Hi in Hu. apply Hx in Hv. lia.
  - intros p en Hp. destruct (He p en Hp) as (H1 & H2 & H3 & u & Hu & Hup & Hue). split_and!; [done|lia|done|].
    destruct (decide (st_id u = st_id t)) as [Hid|Hid]; [|exists u; rewrite Hin; auto].
    assert (u = t) as ->.
    { apply list_elem_of_lookup in Hu as [i Hu]. apply list_elem_of_lookup in Ht as [j Ht'].
      assert (i = j) as ->; [|congruence]. by eapply (NoDup_lookup (st_id <$> w_timers w)); [done|rewrite list_lookup_fmap ?Hu ?Ht'..]; rewrite /= ?Hid. }
    subst p. destruct (Hen en Hp (eq_sym Hue)) as (v & Hv & Hvp & Hve). exists v. rewrite Hin. split_and!; [auto|done|congruence].
  - intros p en u Hp [[Hu _]|Hu]%Hin Hid; [by apply (Ho p en)|]. destruct (He p en Hp) as (_ & ? & _). apply Hx in Hu. lia.
  - intros k Hk. destruct (Ha k Hk) as [?|[(q & en & Hq & Hqk)|?]]; [by left| |by right; right]. right. left. exists q, en. by rewrite Es.
Qed.

Lemma sdp_fire id ld gs w : sdp_ok w → undescribed id ld gs w ⊆ forgot → sdp_ok (sdp_timer id ld gs w).2.
Proof.
  intros Hw Hld. unfold sdp_timer. rewrite get_bind. destruct (List.find _ (w_timers w)) as [t|] eqn:Hf; [|done].
  unfold undescribed in Hld. rewrite Hf in Hld.
  apply find_some in Hf as [Ht%list_elem_of_In Hid%Nat.eqb_eq]. subst id. unfold clearTimeout. rewrite modify_bind.
  set (w1 := w <| w_timers ::= _ |>). destruct (so_ids _ Hw t Ht) as [Hidt Hr].
  destruct (finish_cases (st_peer t) (st_epoch t) (st_pc t) (st_round t) ld gs w1 Hr) as [[-> Hno]|(en & Hp & He & [(o & Ho & ->)|[Hlt ->]])].
  - eapply (sdp_retime w w1 t []); try done; [by rewrite app_nil_r|constructor|by intros u ?%elem_of_nil|].
    intros en Hen Hee. by destruct (Hno en Hen).
  - assert (sdp_ok (settled_state (st_peer t) en o w)) as H1.
    { apply sdp_settle; [done..|].
      destruct Ho as [?|(? & -> & Hg)]; [by left|right; split; [done|]]. apply Hld. change (w_sdp w1) with (w_sdp w) in Hp. rewrite Hp He Z.eqb_refl Hg. by left. }
    destruct (decide (st_id t = en_timeout en)) as [Hsame|Hne].
    + eapply sdp_ext; [exact H1|done| |done..]. cbn. by rewrite Hsame filter_twice.
    + eapply (sdp_retime (settled_state (st_peer t) en o w) _ t []); try done; [| |constructor|by intros u ?%elem_of_nil|].
      * cbn. apply elem_timers. split; [done|]. by apply negb_true_iff, Nat.eqb_neq.
      * cbn. by rewrite app_nil_r filter_swap.
      * intros en' Hen'. cbn -[om_get om_delete] in Hen'. by rewrite om_get_delete_eq in Hen'.
  - eapply (sdp_retime w _ t [MkSdpTimer (w_nextTimer w) (st_peer t) (st_epoch t) (st_pc t) (S (st_round t)) ICE_GATHERING_GRACE_MS]); try done.
    + change (w_nextTimer w <= S (w_nextTimer w))%nat. lia.
    + cbn. apply NoDup_singleton.
    + intros u Hu. apply list_elem_of_singleton in Hu as ->. change ((w_nextTimer w <= w_nextTimer w < S (w_nextTimer w))%nat ∧ (S (st_round t) <= ICE_GATHERING_GRACE_ROUNDS)%nat). unfold ICE_GATHERING_GRACE_ROUNDS in *. lia.
    + intros en' Hen' Hee. eexists. by split; [left|].
Qed.

Lemma sdp_resolve p e ld : keeps sdp_ok (_resolveSdpAfterGathering p e ld).
Proof.
  intros w Hw. unfold _resolveSdpAfterGathering. rewrite get_bind. destruct (om_get p (w_sdp w)) as [en|] eqn:Hp; [|done].
  destruct (negb _); [done|]. unfold clearTimeout, resolve, _localDescriptionToSignal. rewrite !modify_bind.
  destruct ld as [d|]; cbn [sdp_of]; [destruct (ld_sdp d)|]; (apply (sdp_settle p en [_] w); [done..|by left]).
Qed.
Lemma sdp_after p : keeps sdp_ok (_afterRemoteDescriptionForTrickle p).
Proof. unfold _afterRemoteDescriptionForTrickle, _flushPendingRemoteIce. sdp_steps. Qed.
Lemma sdp_setupDc p e : keeps sdp_ok (_setupDataChannel p e).
Proof. unfold _setupDataChannel. sdp_steps. Qed.
Lemma sdp_data p rd k i dc b fs r data :
  keeps sdp_ok (_drainSendOverflow p rd k) ∧ keeps sdp_ok (put_buffer i dc b fs) ∧ keeps sdp_ok (send p data rd) ∧
  keeps sdp_ok (flush_timer i r) ∧ keeps sdp_ok (resume_buffer p r) ∧ keeps sdp_ok (drop_send_buffer p).
Proof.
  unfold send, flush_timer, resume_buffer, _drainSendOverflow, put_buffer, drop_send_buffer, upd_buffer. split_and!; sdp_steps.
Qed.

(** The library's calls that come after the promise do not throw. *)
Definition calls_ok (o : rtc_op) : Prop :=
  match o with
  | CreateOffer _ _ dc_ok => dc_ok = true
  | HandleOffer _ _ _ desc_ok => desc_ok = true
  | _ => True
  end.
(** No remote candidate is refused for a lost ICE transport. *)
Definition not_stale (o : rtc_op) : Prop := match o with AddIce _ _ r => r ≠ AddStale | _ => True end.
Definition described (o : rtc_op) : Prop := match o with SdpTimeout _ ld gs => ld_known ld gs | _ => True end.
#[export] Instance AddResult_dec : EqDecision AddResult.
Proof. solve_decision. Defined.
#[export] Instance ld_known_dec ld gs : Decision (ld_known ld gs).
Proof. unfold ld_known. destruct (_gatheringStateIsComplete gs), ld; try (by left); right; intros H; by apply H. Defined.
#[export] Instance calls_ok_dec o : Decision (calls_ok o).
Proof. destruct o; cbn; apply _. Defined.

(** A promise that was made may be rejected, when no order is kept. *)
Lemma sdp_reject k w : ¬ strict → (k < w_promises w)%nat → sdp_ok w → sdp_ok (out (OReject k) w).2.
Proof.
  intros Hst Hk [Hi Hn He Ho Hj Hc Ha Hs Hb].
  assert (∀ j, j ∈ settles (w_out w ++ [OReject k]) ↔ j ∈ settles (w_out w) ∨ j = k) as Hin.
  { intros j. rewrite settles_app elem_of_app. apply or_iff_compat_l. apply list_elem_of_singleton. }
  constructor; cbn -[settles om_get]; try done.
  - intros p en Hp. destruct (He p en Hp) as (H1 & H2 & _ & H4). by split_and!.
  - intros j Hj'. destruct (Ha j Hj') as [?|[?|?]]; [left; apply Hin; by left|by right; left|by right; right].
  - intros j [?| ->]%Hin; [by apply Hb|done].
Qed.

Lemma sdp_offer p k t ok (rest : nat → Z → nat → R ()) w :
  (∀ pc e pr w, sdp_ok w → (pr < w_promises w)%nat → sdp_ok (rest pc e pr w).2) → (ok = true → left_behind p w ⊆ forgot) → sdp_ok w →
  sdp_ok (('(pc, e) ← _createPeerConnection p k ok; promise ← await_gathering p pc e k t; rest pc e promise ;; mret promise) w).2.
Proof.
  intros Hrest Hlb Hw. pose proof (sdp_create p k ok w Hw) as Hc. unfold mbind at 1, SM_bind.
  destruct (_createPeerConnection _ _ _ w) as [[[pc e]|err] w1]; [|by destruct Hc]. destruct Hc as [H1 Hn].
  destruct (Hn _ eq_refl) as (Hok & Hn1 & Hn2). destruct (sdp_await p pc e k t w1 H1) as (w2 & E & Hk & H2); [intros en Hen; by apply Hlb, Hn1|done|].
  unfold mbind at 1, SM_bind. rewrite E. apply (keeps_bind_at sdp_ok); [by apply Hrest|intros; apply keeps_ret].
Qed.
(** The operations that make no promise and no timer. *)
Lemma sdp_others o : match o with CreateOffer _ _ _ | HandleOffer _ _ _ _ | AddIce _ _ _ | SdpTimeout _ _ _ => True | _ => keeps sdp_ok (rtc_apply o) end.
Proof.
  destruct o; cbn [rtc_apply]; unfold ignore; try done.
  all: try (match goal with |- keeps _ (send ?p ?d ?rd ≫= _) => keeps_step; [apply (sdp_data p rd 0 0 0 (sb_new None None) [] (λ _, true) d)|sdp_steps] end).
  - unfold handleAnswer. sdp_steps. apply sdp_after.
  - sdp_step.
  - unfold closeAll. sdp_steps.
  - unfold on_local_candidate, on_pc. sdp_steps.
  - unfold on_state_change, on_pc, _emitPeerDisconnectSoon. sdp_steps.
  - unfold on_gathering_state, on_pc. sdp_steps. apply sdp_resolve.
  - unfold on_data_channel. sdp_steps; apply sdp_setupDc.
  - unfold on_open, on_dc. sdp_steps.
  - unfold on_closed, on_dc, _emitPeerDisconnectSoon. sdp_steps. match goal with |- keeps _ (drop_send_buffer ?p) => apply (sdp_data p (λ _ _, true) 0 0 0 (sb_new None None) [] (λ _, true) []) end.
  - unfold on_dc_error, on_dc. sdp_steps.
  - unfold on_message, on_dc. sdp_steps.
  - unfold on_buffered_amount_low, on_dc. keeps_step; [apply keeps_get|]. destruct (w_dcs a !! dc) as [[p e]|]; [|apply keeps_ret].
    keeps_step. keeps_step; [apply (sdp_data p rd 0 0 0 (sb_new None None) [] r [])|].
    keeps_step; [apply (sdp_data p rd 0 0 0 (sb_new None None) [] r [])|by apply sdp_out].
  - unfold disconnect_timer. sdp_steps.
  - apply (sdp_data [] (λ _ _, true) 0 i 0 (sb_new None None) [] r []).
Qed.
Lemma sdp_addIce p c r : (linked → r ≠ AddStale) → keeps sdp_ok (addIceCandidate p c r).
Proof.
  intros Hl. unfold addIceCandidate, _pushPendingIce. keeps_step; [apply keeps_get|]. destruct (negb _); [by sdp_steps|].
  destruct (om_get p _) as [pc|]; [|by sdp_steps]. destruct r; [by sdp_steps| |by sdp_steps].
  sdp_step; [by sdp_steps|]. sdp_step; [by sdp_steps|]. keeps_step; [|by sdp_steps].
  intros w Hw. eapply sdp_ext; [exact Hw|done..|]. intros Hli. by destruct (Hl Hli).
Qed.
Lemma sdp_step_ok o w : (linked → not_stale o) → (strict → calls_ok o) → forgets o w ⊆ forgot → sdp_ok w → sdp_ok (rtc_step w o).
Proof.
  intros Hl Hs Hf Hw. pose proof (sdp_others o) as Ho. unfold rtc_step.
  destruct o as [p pok cok|p sdp pok cok| | | | | | | | | | | | | | | | |]; try (by apply Ho); cbn [rtc_apply calls_ok not_stale] in *.
  - unfold ignore. apply (keeps_bind_at sdp_ok); [|intros; apply keeps_ret].
    apply (sdp_offer p _ _ pok (λ pc e pr, if cok then _setupDataChannel p e else out (OReject pr))); [|by intros ->|done].
    intros _ e pr v Hv Hpr. destruct cok; [by apply sdp_setupDc|apply sdp_reject; auto; intros Hst; by apply Hs in Hst].
  - unfold ignore. apply (keeps_bind_at sdp_ok); [|intros; apply keeps_ret].
    apply (sdp_offer p _ _ pok (λ pc e pr, if cok then out (OSetRemote pc sdp KOffer) ;; _afterRemoteDescriptionForTrickle p else out (OReject pr))); [|by intros ->|done].
    intros pc e pr v Hv Hpr. destruct cok; [|apply sdp_reject; auto; intros Hst; by apply Hs in Hst].
    apply (keeps_bind_at sdp_ok); [by apply sdp_out|intros; apply sdp_after].
  - by apply sdp_addIce.
  - by apply sdp_fire.
Qed.
Lemma sdp_run ops : ∀ w, (linked → Forall not_stale ops) → (strict → Forall calls_ok ops) → forgotten ops w ⊆ forgot → sdp_ok w → sdp_ok (rtc_run ops w).
Proof.
  induction ops as [|o ops IH]; intros w Hl Hs Hf Hw; [done|]. cbn [forgotten] in Hf. apply IH.
  - intros H. by destruct (proj1 (Forall_cons _ _ _) (Hl H)).
  - intros H. by destruct (proj1 (Forall_cons _ _ _) (Hs H)).
  - set_solver.
  - apply sdp_step_ok; [..|set_solver|done].
    + intros H. by destruct (proj1 (Forall_cons _ _ _) (Hl H)).
    + intros H. by destruct (proj1 (Forall_cons _ _ _) (Hs H)).
Qed.

(** ** The timers settle what waits *)

Lemma described_forgets id ld gs w : ld_known ld gs → undescribed id ld gs w = [].
Proof.
  unfold undescribed. intros Hld. destruct ld; [done|]. destruct (List.find _ _); [|done]. destruct (om_get _ _); [|done].
  destruct (_gatheringStateIsComplete gs) eqn:Hg; [by destruct (Hld Hg)|]. by rewrite andb_false_r.
Qed.
Definition Answers := list (option LocalDescription * option jstr).
(** A timer goes off, then the grace timer that follows it, and so on, each time with
    what the library answers. *)
Fixpoint fire (answers : Answers) (id : nat) (w : WebRTC) : WebRTC :=
  match answers with
  | [] => w
  | (ld, gs) :: rest => fire rest (w_nextTimer w) (rtc_step w (SdpTimeout id ld gs))
  end.

Lemma settles_kept k id ld gs : keeps (λ w, k ∈ settles (w_out w)) (sdp_timer id ld gs).
Proof.
  assert (∀ o, keeps (λ w, k ∈ settles (w_out w)) (out o)) as Ho.
  { intros o w Hw. cbn -[settles]. rewrite settles_app. apply elem_of_app. by left. }
  unfold sdp_timer, _finishSdpAfterGatheringTimeout, clearTimeout, set_sdp_timer, resolve. keeps_steps; auto.
Qed.
Lemma fire_settled k answers : ∀ id w, k ∈ settles (w_out w) → k ∈ settles (w_out (fire answers id w)).
Proof.
  induction answers as [|[ld gs] answers IH]; intros id w Hk; [done|]. cbn. apply IH. by apply (settles_kept k id ld gs).
Qed.
Lemma fire_round w p en t ld gs : sdp_ok w → ld_known ld gs → om_get p (w_sdp w) = Some en →
  t ∈ w_timers w → st_peer t = p → st_epoch t = en_epoch en →
  let w' := rtc_step w (SdpTimeout (st_id t) ld gs) in
  en_promise en ∈ settles (w_out w') ∨
  (st_round t < ICE_GATHERING_GRACE_ROUNDS)%nat ∧ om_get p (w_sdp w') = Some en ∧
  ∃ t', t' ∈ w_timers w' ∧ st_id t' = w_nextTimer w ∧ st_peer t' = p ∧ st_epoch t' = en_epoch en ∧ st_round t' = S (st_round t).
Proof.
  intros Hw Hld Hp Ht Htp Hte. unfold rtc_step. cbn [rtc_apply]. unfold sdp_timer. rewrite get_bind.
  destruct (List.find _ (w_timers w)) as [u|] eqn:Hf.
  2: { exfalso. apply list_elem_of_In in Ht. pose proof (find_none _ _ Hf t Ht) as Hn. by rewrite Nat.eqb_refl in Hn. }
  apply find_some in Hf as [Hu%list_elem_of_In Hid%Nat.eqb_eq].
  assert (u = t) as ->.
  { apply list_elem_of_lookup in Hu as [i Hu]. apply list_elem_of_lookup in Ht as [j Ht].
    assert (i = j) as ->; [|congruence]. by eapply (NoDup_lookup (st_id <$> w_timers w)); [apply Hw|rewrite list_lookup_fmap ?Hu ?Ht..]; rewrite /= ?Hid. }
  unfold clearTimeout. rewrite modify_bind. set (w1 := w <| w_timers ::= _ |>).
  destruct (finish_cases (st_peer t) (st_epoch t) (st_pc t) (st_round t) ld gs w1 (proj2 (so_ids _ Hw t Ht)))
    as [[_ Hno]|(en' & Hp' & He & [(o & [Ho|(_ & Hnone & Hg)] & ->)|[Hlt ->]])].
  - exfalso. rewrite Htp in Hno. by apply (Hno en Hp).
  - left. rewrite Htp in Hp'. assert (en' = en) as -> by (change (om_get p (w_sdp w) = Some en') in Hp'; congruence).
    change (en_promise en ∈ settles (w_out w ++ o)). rewrite settles_app Ho. apply elem_of_app. right. left.
  - by destruct (Hld Hg).
  - right. split_and!; [done..|]. eexists. split; [apply elem_of_app; right; left|]. by rewrite -Hte.
Qed.
Lemma fire_settles answers : ∀ w p en t, sdp_ok w → Forall (λ a, ld_known a.1 a.2) answers → om_get p (w_sdp w) = Some en →
  t ∈ w_timers w → st_peer t = p → st_epoch t = en_epoch en → (ICE_GATHERING_GRACE_ROUNDS - st_round t < length answers)%nat →
  en_promise en ∈ settles (w_out (fire answers (st_id t) w)).
Proof.
  induction answers as [|[ld gs] answers IH]; intros w p en t Hw Hall Hp Ht Htp Hte Hlen; [cbn in Hlen; lia|].
  apply Forall_cons in Hall as [Hld Hall]. cbn [fire length] in *.
  destruct (fire_round w p en t ld gs Hw Hld Hp Ht Htp Hte) as [Hk|(Hr & Hp' & t' & Ht' & Hid & Htp' & Hte' & Hr')].
  - by apply fire_settled.
  - rewrite -Hid. apply (IH _ p en t'); try done; [|lia]. apply (sdp_step_ok (SdpTimeout (st_id t) ld gs)); [by cbn..| |done].
    cbn [forgets]. rewrite described_forgets //. set_solver.
Qed.

End promises.

(** A history without the two troubles forgets nothing. *)
Lemma linked_left p s forgot w : sdp_ok True s forgot w → left_behind p w = [].
Proof.
  intros Hw. unfold left_behind. destruct (om_has p _) eqn:Hc; [done|]. destruct (om_get p (w_sdp w)) as [en|] eqn:Hp; [|done].
  apply om_has_false in Hc. destruct (so_conn _ _ _ _ Hw I p) as [pc Hpc]; [by rewrite Hp|congruence].
Qed.
Lemma nothing_forgotten forgot ops : ∀ w, sdp_ok True False forgot w → Forall not_stale ops → Forall described ops → forgotten ops w = [].
Proof.
  induction ops as [|o ops IH]; intros w Hw Hs Hd; [done|].
  apply Forall_cons in Hs as [Ho Hs]. apply Forall_cons in Hd as [Hod Hd]. cbn [forgotten].
  assert (forgets o w = []) as Hf.
  { destruct o as [p [|] ?|p ? [|] ?| | | | | | | | | | | | | | | | |]; cbn [forgets]; try done;
      [by eapply linked_left..|by apply described_forgets]. }
  rewrite Hf. apply IH; [|done..]. apply sdp_step_ok; [done..| |done]. rewrite Hf. set_solver.
Qed.

(** C20: Every offer and answer comes, or is forgotten in one of two ways.  In every
    history of connections, callbacks, candidates and timers, failures of the library
    included, the promise of an offer or answer was settled, or waits in an entry, or is
    among those [forgotten]: a new offer or answer overwrote the entry of a peer whose
    connection was dropped over a stale candidate, or a timer found gathering complete and
    no local description.  A waiting promise has a timer armed, which with at most 24
    grace rounds settles it, whatever the library answers, as long as a connection that
    has gathered has a description.  Without those two troubles nothing is forgotten; and
    as long as [createDataChannel] and [setRemoteDescription] do not throw, a promise is
    settled once and does not wait after that. *)
Theorem webrtc_settles queueMax overflowMax ops :
  let w0 := new_webrtc queueMax overflowMax in let w := rtc_run ops w0 in
  (∀ k, (k < w_promises w)%nat → k ∈ settles (w_out w) ∨ waits k w ∨ k ∈ forgotten ops w0) ∧
  (∀ p en, om_get p (w_sdp w) = Some en → ∃ t, t ∈ w_timers w ∧ st_peer t = p ∧ st_epoch t = en_epoch en ∧
     ∀ answers, Forall (λ a, ld_known a.1 a.2) answers → (ICE_GATHERING_GRACE_ROUNDS < length answers)%nat →
       en_promise en ∈ settles (w_out (fire answers (st_id t) w))) ∧
  (Forall not_stale ops → Forall described ops → forgotten ops w0 = []) ∧
  (Forall calls_ok ops → NoDup (settles (w_out w)) ∧ ∀ k, k ∈ settles (w_out w) → (k < w_promises w)%nat ∧ ¬ waits k w).
Proof.
  intros w0 w. assert (∀ l s : Prop, (l → Forall not_stale ops) → (s → Forall calls_ok ops) → sdp_ok l s (forgotten ops w0) w) as Hw.
  { intros l s Hl Hs. apply sdp_run; [done..|apply sdp_new]. }
  assert (sdp_ok False False (forgotten ops w0) w) as H0 by (by apply Hw). split_and!.
  - apply H0.
  - intros p en Hp. destruct (so_entry _ _ _ _ H0 p en Hp) as (_ & _ & _ & t & Ht & Htp & Hte). exists t. split_and!; [done..|].
    intros answers Hall Hlen. eapply (fire_settles _ _ _ answers w p en t); try done. lia.
  - eapply (nothing_forgotten []). apply sdp_new.
  - intros Hops. assert (sdp_ok False True (forgotten ops w0) w) as H1 by (by apply Hw). split; [by apply H1|].
    intros k Hk. split; [by apply H1|]. intros (p & en & Hp & <-). by destruct (so_entry _ _ _ _ H1 p en Hp) as (_ & _ & Hn & _); apply Hn.
Qed.

Definition carol : jstr := js "carol".
(** Two peers: one's offer is gathered, the other's answer waits for its timer. *)
Definition two_offers : list rtc_op :=
  [CreateOffer carol true true; HandleOffer (js "dave") (js "v=0") true true; CreateOffer carol true true;
   PcGathering 2 (js "complete") (Some (MkDescription (Some (js "Offer")) (js "v=0"))); PcState 0 (js "failed") None;
   SdpTimeout 1 None None].
Lemma webrtc_settles_witness :
  let w := rtc_run two_offers (new_webrtc None None) in
  settles (w_out w) = [0; 2]%nat ∧ om_get (js "dave") (w_sdp w) = Some (MkEntry 1 1 1 1 KAnswer 90000) ∧
  (NoDup (settles (w_out w)) ∧ ∀ k, k ∈ settles (w_out w) → (k < w_promises w)%nat ∧ ¬ waits k w) ∧
  ∃ t, t ∈ w_timers w ∧ st_peer t = js "dave" ∧ st_epoch t = 1 ∧
     1%nat ∈ settles (w_out (fire (repeat (None, None) 25) (st_id t) w)).
Proof.
  split; [vm_compute; reflexivity|]. split; [vm_compute; reflexivity|].
  destruct (webrtc_settles None None two_offers) as (_ & Hwait & _ & Hok).
  split; [apply Hok; apply (bool_decide_unpack _); vm_compute; reflexivity|].
  destruct (Hwait (js "dave") (MkEntry 1 1 1 1 KAnswer 90000)) as (t & Ht & Hp & He & Hs); [vm_compute; reflexivity|].
  exists t. split; [exact Ht|]. split; [exact Hp|]. split; [exact He|]. apply (Hs (repeat (None, None) 25)).
  - apply (bool_decide_unpack _). vm_compute. reflexivity.
  - apply (bool_decide_unpack _). vm_compute. reflexivity.
Defined.

(** The two ways to forget a promise.  A candidate the library refuses for a lost ICE
    transport drops the connection but not the promise: the next offer overwrites the
    entry, whose timer then finds another epoch, and the caller of the first waits for ever. *)
Definition overwritten : list rtc_op :=
  [HandleOffer carol (js "v=0") true true; AddIce carol (IceText (js "candidate:1")) AddStale;
   CreateOffer carol true true; SdpTimeout 0 None (Some (js "complete"));
   SdpTimeout 1 (Some (MkDescription None (js "v=0"))) (Some (js "complete"))].
Example promise_forgotten :
  let w := rtc_run overwritten (new_webrtc None None) in
  settles (w_out w) = [1%nat] ∧ w_promises w = 2%nat ∧ w_sdp w = [] ∧ w_timers w = [] ∧
  forgotten overwritten (new_webrtc None None) = [0%nat].
Proof. vm_compute. done. Qed.
(** A timer that finds gathering complete and no local description deletes the entry and
    then throws. *)
Definition no_description : list rtc_op := [CreateOffer carol true true; SdpTimeout 0 None (Some (js "complete"))].
Example promise_undescribed :
  let w := rtc_run no_description (new_webrtc None None) in
  settles (w_out w) = [] ∧ w_promises w = 1%nat ∧ w_sdp w = [] ∧ w_timers w = [] ∧
  forgotten no_description (new_webrtc None None) = [0%nat].
Proof. vm_compute. done. Qed.

(** A failed connection reports its peer as gone on the next tick; an offer made before
    that tick finds no connection to replace, so it does not cancel the report. *)
Example disconnect_after_new_offer :
  let w := rtc_run [CreateOffer carol true true; PcState 0 (js "failed") None; CreateOffer carol true true; DisconnectTimer carol]
             (new_webrtc None None) in
  om_get carol (w_connections w) = Some 1%nat ∧ last (w_out w) = Some (ODisconnected carol).
Proof. vm_compute. done. Qed.

(** The callback for a remote channel does not look at the epoch: a late one of a
    replaced connection takes the place of the current channel. *)
Example late_channel_replaces_current :
  let w := rtc_run [HandleOffer carol (js "v=0") true true; HandleOffer carol (js "v=1") true true; PcDataChannel 1; DcOpen 0; PcDataChannel 0]
             (new_webrtc None None) in
  om_get carol (w_dataChannels w) = Some 1%nat ∧ w_dcs w !! 1%nat = Some (carol, 1) ∧ om_get carol (w_epoch w) = Some 2.
Proof. vm_compute. done. Qed.
