(* ===== verification/WebRtcIce.v ===== *)
(** * Remote candidates of a WebRTC transport

    Candidates may come before the remote description they belong to, and wait for it in
    a queue: they reach the connection in the order they came, and only after its
    description. *)

From S2P Require Import Prelude JsMap Bytes JsString Effects Framing SendBuffer WebRtc WebRtcSignals.
Local Open Scope Z_scope.
#[local] Unset Default Proof Using.

Abbreviation candidate := (jstr * jstr)%type.

(** The candidates that arrived for [p], those added to its connections, those waiting. *)
Definition arrived (p : jstr) (ops : list rtc_op) : list candidate :=
  base.omap (λ o, match o with AddIce q c _ => if decide (q = p) then Some (candidateStr c, candidate_mid c) else None | _ => None end) ops.
Definition peer_of (pc : nat) (w : WebRTC) : option jstr :=
  match w_pcs w !! pc with Some (p, _, _) => Some p | None => None end.
Definition added_in (p : jstr) (w : WebRTC) (os : list RtcOut) : list candidate :=
  base.omap (λ o, match o with OAddCandidate pc c m => if decide (peer_of pc w = Some p) then Some (c, m) else None | _ => None end) os.
Definition added (p : jstr) (w : WebRTC) : list candidate := added_in p w (w_out w).
Definition pending (p : jstr) (w : WebRTC) : list candidate := default [] (om_get p (w_pendingIce w)).
#[local] Arguments arrived : simpl never.
#[local] Arguments added_in : simpl never.

Definition described (pc : nat) (os : list RtcOut) : Prop := ∃ sdp k, OSetRemote pc sdp k ∈ os.
Definition untouched (p : jstr) (w : WebRTC) : Prop := ∀ pc, ODestroyPc pc ∈ w_out w → peer_of pc w ≠ Some p.

(** [strict]: a peer whose connections only an offer may replace. *)
Record ice_ok (strict : option jstr) (arr : jstr → list candidate) (w : WebRTC) : Prop := MkIceOk {
  ic_sub p : added p w ++ pending p w `sublist_of` arr p;
  ic_all p : strict = Some p → untouched p w → added p w ++ pending p w = arr p;
  ic_desc p : p ∈ w_remoteDesc w → pending p w = [] ∧ ∃ pc, om_get p (w_connections w) = Some pc ∧ described pc (w_out w);
  ic_conn p pc : om_get p (w_connections w) = Some pc → peer_of pc w = Some p;
  ic_before l1 l2 pc c m : w_out w = l1 ++ OAddCandidate pc c m :: l2 → described pc l1;
  ic_known o : o ∈ w_out w → match o with OAddCandidate pc _ _ | ODestroyPc pc => is_Some (w_pcs w !! pc) | _ => True end
}.

Lemma added_app p w a b : added_in p w (a ++ b) = added_in p w a ++ added_in p w b.
Proof. apply omap_app. Qed.
(** Outputs that are no candidates and destroy no connection. *)
Definition mute (o : RtcOut) : Prop := match o with OAddCandidate _ _ _ | ODestroyPc _ => False | _ => True end.
Lemma added_mute p w os : Forall mute os → added_in p w os = [].
Proof. induction 1 as [|o os Ho _ IH]; [done|]. unfold added_in in *. cbn. by destruct o. Qed.

(** Steps that keep the queues, the descriptions and the connections, and add outputs
    that are not candidates. *)
Lemma ice_ext strict arr w w' os : ice_ok strict arr w → w_out w' = w_out w ++ os → Forall mute os →
  w_pcs w `prefix_of` w_pcs w' → w_pendingIce w' = w_pendingIce w → w_remoteDesc w' = w_remoteDesc w →
  w_connections w' = w_connections w → ice_ok strict arr w'.
Proof.
  intros [Hs Ha Hd Hc Hb Hk] Eo Hos Hp Ei Er Ec.
  assert (∀ pc, is_Some (w_pcs w !! pc) → w_pcs w' !! pc = w_pcs w !! pc) as Hpc.
  { intros pc [x Hx]. rewrite Hx. by eapply prefix_lookup_Some. }
  assert (∀ p, added p w' = added p w) as Had.
  { intros p. unfold added. rewrite Eo added_app (added_mute _ _ os) // app_nil_r. unfold added_in. apply list_omap_ext.
    apply Forall_Forall2_diag, Forall_forall. intros o Ho. destruct o; try done. unfold peer_of. rewrite Hpc //. by apply (Hk _ Ho). }
  assert (∀ o, o ∈ w_out w' → o ∈ w_out w ∨ mute o) as Hout.
  { intros o. rewrite Eo elem_of_app. intros [?|Ho]; [by left|]. right. rewrite Forall_forall in Hos. by apply Hos. }
  constructor; rewrite /pending ?Ei ?Er ?Ec; try done.
  - intros p. rewrite Had. apply Hs.
  - intros p Hst Hun. rewrite Had. apply Ha; [done|]. intros pc Hin. unfold peer_of. rewrite -Hpc; [|by apply (Hk _ Hin)].
    apply Hun. rewrite Eo. apply elem_of_app. by left.
  - intros p Hin. destruct (Hd p Hin) as (? & pc & ? & sdp & k & Hin'). split; [done|]. exists pc. split; [done|]. exists sdp, k.
    rewrite Eo. apply elem_of_app. by left.
  - intros p pc Hpp. pose proof (Hc p pc Hpp) as Hpe. unfold peer_of in *. rewrite Hpc //. by destruct (w_pcs w !! pc).
  - intros l1 l2 pc c m El. rewrite Eo in El. apply app_eq_inv in El as [(k & El & El')|(k & El & El')].
    + destruct k as [|o k]; cbn in El'.
      * rewrite app_nil_r in El. subst l1. destruct os as [|o os]; [done|]. injection El' as <- ->. apply Forall_cons in Hos as [[] _].
      * injection El' as <- ->. by eapply Hb.
    + subst. exfalso. apply Forall_app in Hos as [_ Hos]. by apply Forall_cons in Hos as [[] _].
  - intros o [Ho|Ho]%Hout; [|by destruct o]. pose proof (Hk o Ho) as Hko. destruct o; try done; by rewrite Hpc.
Qed.
Lemma ice_out strict arr o : mute o → keeps (ice_ok strict arr) (out o).
Proof. intros Ho w Hw. eapply (ice_ext _ _ w _ [o]); try done. by apply Forall_singleton. Qed.
Lemma ice_modify strict arr (f : WebRTC → WebRTC) :
  (∀ w, w_out (f w) = w_out w ∧ w_pcs w `prefix_of` w_pcs (f w) ∧ w_pendingIce (f w) = w_pendingIce w ∧
        w_remoteDesc (f w) = w_remoteDesc w ∧ w_connections (f w) = w_connections w) → keeps (ice_ok strict arr) (modify f).
Proof. intros Hf w Hw. destruct (Hf w) as (Ho&?&?&?&?). eapply (ice_ext _ _ w _ []); try done. cbn. by rewrite Ho app_nil_r. Qed.

(** Closing a peer drops what waits for it. *)
Lemma ice_torn strict arr p w w' : ice_ok strict arr w → torn p w w' → (strict = Some p → is_Some (om_get p (w_connections w))) →
  ice_ok strict arr w'.
Proof.
  intros [Hs Ha Hd Hc Hb Hk] [Ec Es Ed Ei Ep Ee Ek En Et Eo] Hstrict.
  assert (∀ pc, peer_of pc w' = peer_of pc w) as Hpeer by (intros pc; by rewrite /peer_of Ep).
  assert (Forall (λ o, match o with OAddCandidate _ _ _ => False | ODestroyPc pc => om_get p (w_connections w) = Some pc | _ => True end) (torn_out p w)) as Hto.
  { unfold torn_out. rewrite !Forall_app. destruct (om_get p (w_dataChannels w)), (om_get p (w_connections w)), (om_get p (w_sdp w));
      split_and!; by repeat constructor. }
  assert (∀ q, added q w' = added q w) as Had.
  { intros q. unfold added. rewrite Eo added_app. assert (added_in q w' (torn_out p w) = []) as ->.
    { unfold torn_out. by destruct (om_get p (w_dataChannels w)), (om_get p (w_connections w)), (om_get p (w_sdp w)). }
    rewrite app_nil_r. unfold added_in. apply list_omap_ext. apply Forall_Forall2_diag, Forall_forall. intros o _. by destruct o; rewrite ?Hpeer. }
  assert (∀ q, pending q w' = if decide (q = p) then [] else pending q w) as Hpe.
  { intros q. unfold pending. rewrite Ei om_get_delete. by case_decide. }
  constructor.
  - intros q. rewrite Had Hpe. case_decide; [|apply Hs]. rewrite app_nil_r. etrans; [|apply Hs]. by apply sublist_inserts_r.
  - intros q Hst Hun. rewrite Had Hpe. case_decide as Hq; [|].
    + exfalso. subst q. destruct (Hstrict Hst) as [pc Hpc]. apply (Hun pc); [|by rewrite Hpeer; apply Hc].
      rewrite Eo. apply elem_of_app. right. unfold torn_out. rewrite Hpc !elem_of_app. right. left. left.
    + apply Ha; [done|]. intros pc Hin. rewrite -Hpeer. apply Hun. rewrite Eo. apply elem_of_app. by left.
  - intros q. rewrite Ed os_elem_delete. intros [Hq Hin]. destruct (Hd q Hin) as (Hpq & pc & Hpc & sdp & k & Hin').
    rewrite Hpe decide_False //. split; [done|]. exists pc. rewrite Ec om_get_delete_ne //. split; [done|]. exists sdp, k.
    rewrite Eo. apply elem_of_app. by left.
  - intros q pc. rewrite Ec Hpeer om_get_delete. case_decide; [done|]. apply Hc.
  - intros l1 l2 pc c m El. rewrite Eo in El. apply app_eq_inv in El as [(k & El & El')|(k & El & El')].
    + destruct k as [|o k]; cbn in El'.
      * rewrite app_nil_r in El. subst l1. rewrite -El' in Hto. by apply Forall_cons in Hto as [[] _].
      * injection El' as <- ->. by eapply Hb.
    + rewrite El' in Hto. exfalso. apply Forall_app in Hto as [_ Hto]. by apply Forall_cons in Hto as [[] _].
  - intros o. rewrite Eo elem_of_app Ep. intros [Ho|Ho]; [by apply (Hk o)|]. rewrite Forall_forall in Hto. specialize (Hto o Ho).
    destruct o as [| pc | | | | | | | | | | | | | | ]; try done. specialize (Hc p pc Hto). unfold peer_of in Hc. by destruct (w_pcs w !! pc).
Qed.

(** Candidates handed to the connection [pc] of [p], its description set. *)
Lemma ice_add strict arr arr' p pc w w' (cs : list candidate) : ice_ok strict arr w → om_get p (w_connections w) = Some pc →
  described pc (w_out w) → w_out w' = w_out w ++ map (λ c, OAddCandidate pc c.1 c.2) cs →
  w_pcs w' = w_pcs w → w_remoteDesc w' = w_remoteDesc w → w_connections w' = w_connections w →
  (∀ q, pending q w' = if decide (q = p) then [] else pending q w) →
  (∀ q, arr' q = if decide (q = p) then arr p ++ drop (length (pending p w)) cs else arr q) → pending p w `prefix_of` cs →
  ice_ok strict arr' w'.
Proof.
  intros [Hs Ha Hd Hc Hb Hk] Hp [sdp [k Hdesc]] Eo Ep Er Ec Hpe Harr [rest ->].
  assert (∀ pc, peer_of pc w' = peer_of pc w) as Hpeer by (intros x; by rewrite /peer_of Ep).
  assert (∀ q os, added_in q w' os = added_in q w os) as Hin.
  { intros q os. unfold added_in. apply list_omap_ext. apply Forall_Forall2_diag, Forall_forall. intros o _. by destruct o; rewrite ?Hpeer. }
  assert (∀ l, added_in p w (map (λ c, OAddCandidate pc c.1 c.2) l) = l ∧ ∀ q, q ≠ p → added_in q w (map (λ c, OAddCandidate pc c.1 c.2) l) = []) as Hl.
  { induction l as [|[c m] l [IH1 IH2]]; [done|]. unfold added_in in *. cbn. rewrite (Hc p pc Hp). split.
    - rewrite decide_True //. by rewrite IH1.
    - intros q Hq. rewrite decide_False; [by apply IH2|congruence]. }
  assert (∀ q, added q w' = if decide (q = p) then added p w ++ pending p w ++ rest else added q w) as Had.
  { intros q. unfold added. rewrite Eo added_app !Hin. case_decide as Hq; [subst; by rewrite (proj1 (Hl _))|].
    by rewrite (proj2 (Hl _)) // app_nil_r. }
  constructor.
  - intros q. rewrite Had Hpe Harr. case_decide; [|apply Hs]. rewrite drop_app_length app_nil_r app_assoc. by apply sublist_app.
  - intros q Hst Hun. rewrite Had Hpe Harr. assert (untouched q w) as Hun'.
    { intros x Hx. rewrite -Hpeer. apply Hun. rewrite Eo. apply elem_of_app. by left. }
    case_decide as Hq; [subst|by apply Ha]. by rewrite drop_app_length app_nil_r app_assoc Ha.
  - intros q. rewrite Er Ec Hpe. intros Hq. destruct (Hd q Hq) as (H1 & x & H2 & s & kk & H3). split; [by case_decide|].
    exists x. split; [done|]. exists s, kk. rewrite Eo. apply elem_of_app. by left.
  - intros q x. rewrite Ec Hpeer. apply Hc.
  - intros l1 l2 x c m El. rewrite Eo in El. apply app_eq_inv in El as [(kk & El & El')|(kk & El & El')].
    + destruct kk as [|o kk]; cbn in El'; [rewrite app_nil_r in El; subst l1|injection El' as <- ->; by eapply Hb].
      destruct (pending p w ++ rest) as [|[c0 m0] l]; [done|]. injection El' as <- _ _ _. by exists sdp, k.
    + assert (x = pc) as ->.
      { assert (OAddCandidate x c m ∈ map (λ c : candidate, OAddCandidate pc c.1 c.2) (pending p w ++ rest)) as Hx by (rewrite El'; apply elem_of_app; right; left).
        apply list_elem_of_fmap in Hx as (? & [= -> _ _] & _). done. }
      exists sdp, k. rewrite El. apply elem_of_app. by left.
  - intros o. rewrite Eo elem_of_app Ep. intros [Ho|Ho]; [by apply (Hk o)|]. apply list_elem_of_fmap in Ho as (c & -> & _).
    specialize (Hc p pc Hp). unfold peer_of in Hc. by destruct (w_pcs w !! pc).
Qed.

(** ** The operations *)

Lemma ice_mark strict arr p pc w : ice_ok strict arr w → pending p w = [] → om_get p (w_connections w) = Some pc → described pc (w_out w) →
  ice_ok strict arr (w <| w_remoteDesc ::= os_add p |>).
Proof.
  intros [Hs Ha Hd Hc Hb Hk] Hp Hpc Hde. constructor; try done. intros q. cbn. rewrite os_elem_add. intros [->|Hq]; [|by apply Hd].
  split; [done|]. by exists pc.
Qed.
Lemma ice_connect strict arr p pc w : ice_ok strict arr w → p ∉ w_remoteDesc w → peer_of pc w = Some p →
  ice_ok strict arr (w <| w_connections ::= om_set p pc |>).
Proof.
  intros [Hs Ha Hd Hc Hb Hk] Hp Hpe. constructor; try done.
  - intros q Hq. destruct (Hd q Hq) as (? & x & ? & ?). split; [done|]. exists x. cbn. rewrite om_get_set_ne //. by intros ->.
  - intros q x. cbn. rewrite om_get_set. case_decide as Hq; [|apply Hc]. intros [= <-]. by subst.
Qed.
Lemma ice_described strict arr p pc sdp k w : ice_ok strict arr w → om_get p (w_connections w) = Some pc →
  ice_ok strict arr ((out (OSetRemote pc sdp k) ;; _afterRemoteDescriptionForTrickle p) w).2.
Proof.
  intros Hw Hp. unfold out at 1. rewrite modify_bind. set (w1 := w <| w_out ::= _ |>).
  assert (ice_ok strict arr w1) as H1 by by apply (ice_out strict arr (OSetRemote pc sdp k)).
  assert (described pc (w_out w1)) as Hde by (exists sdp, k; apply elem_of_app; right; left).
  unfold _afterRemoteDescriptionForTrickle. rewrite modify_bind. unfold _flushPendingRemoteIce. rewrite get_bind.
  change (w_connections (w1 <| w_remoteDesc ::= os_add p |>)) with (w_connections w). rewrite Hp.
  change (om_get p (w_pendingIce (w1 <| w_remoteDesc ::= os_add p |>))) with (om_get p (w_pendingIce w1)).
  destruct (om_get p (w_pendingIce w1)) as [[|c q]|] eqn:Eq.
  1, 3: apply (ice_mark strict arr p pc); try done; by rewrite /pending Eq.
  rewrite modify_bind for_each_out. cbn [snd].
  set (w2 := w1 <| w_pendingIce ::= om_delete p |> <| w_out ::= λ os, os ++ map (λ c, OAddCandidate pc c.1 c.2) (c :: q) |>).
  assert (pending p w1 = c :: q) as Hpe by by rewrite /pending Eq.
  assert (ice_ok strict arr w2) as H2.
  { eapply (ice_add strict arr arr p pc w1 w2 (c :: q)); try done.
    - intros x. unfold pending at 1. cbn -[om_get om_delete]. rewrite om_get_delete. by case_decide.
    - intros x. rewrite Hpe drop_all app_nil_r. by case_decide; subst.
    - by rewrite Hpe. }
  apply (ice_mark strict arr p pc w2); try done.
  - unfold pending. cbn -[om_get om_delete]. by rewrite om_get_delete_eq.
  - destruct Hde as (s & kk & Hin). exists s, kk. apply elem_of_app. by left.
Qed.

Ltac ice_step := match goal with
  | |- keeps (ice_ok _ _) (out _) => by apply ice_out
  | |- keeps (ice_ok _ _) (modify _) => apply ice_modify; by intros ?
  | |- _ => keeps_step
  end.
Ltac ice_steps := repeat (ice_step; cbv beta).

Lemma ice_tearDown strict arr p c : strict ≠ Some p → keeps (ice_ok strict arr) (_tearDownPeerWebRtcState p c).
Proof. intros Hs w Hw. destruct (tearDown_torn p c w) as (w' & -> & Ht). by eapply ice_torn. Qed.
Lemma ice_create strict arr p k ok w : ice_ok strict arr w → let '(r, w') := _createPeerConnection p k ok w in
  ice_ok strict arr w' ∧ ∀ pc e, r = Ret (pc, e) → om_get p (w_connections w') = Some pc.
Proof.
  intros Hw. unfold _createPeerConnection. rewrite get_bind !modify_bind. set (w1 := _ <| w_hsGen ::= _ |>).
  assert (ice_ok strict arr w1) as H1 by (eapply (ice_ext strict arr w w1 []); try done; by rewrite app_nil_r).
  assert (∃ w2, when (om_has p (w_connections w)) (close p) w1 = (Ret tt, w2) ∧ ice_ok strict arr w2 ∧ p ∉ w_remoteDesc w2) as (w2 & E & H2 & Hn).
  { destruct (om_has p (w_connections w)) eqn:Hc; cbn [when].
    - destruct (tearDown_torn p true w1) as (w2 & E & Ht). exists w2. split; [done|]. split.
      + eapply ice_torn; [done..|]. intros _. by apply om_has_get.
      + rewrite (to_desc _ _ _ Ht) os_elem_delete. by intros [].
    - exists w1. split_and!; [done..|]. intros Hp. destruct (ic_desc _ _ _ Hw p Hp) as (_ & pc & Hpc & _).
      apply om_has_false in Hc. congruence. }
  change (w_connections w1) with (w_connections w). unfold mbind at 1, SM_bind. rewrite E. destruct ok; cbn [negb when].
  - unfold mbind at 1, SM_bind. cbn [skip mret SM_ret]. rewrite get_bind modify_bind. unfold out. rewrite !modify_bind. cbn -[om_set om_get].
    split; [|intros pc e [= <- _]; by rewrite om_get_set_eq].
    apply (ice_connect _ _ p); [|done|].
    + eapply (ice_ext strict arr w2 _ [OCreatePc _]); try done; [by apply Forall_singleton|]. by apply prefix_app_r.
    + unfold peer_of. cbn. by rewrite lookup_app_r // Nat.sub_diag.
  - unfold mbind at 1, SM_bind. cbn. split; [done|]. by intros x.
Qed.

(** A candidate arrives. *)
Definition arrives (p : jstr) (c : candidate) (arr : jstr → list candidate) : jstr → list candidate :=
  λ q, if decide (q = p) then arr p ++ [c] else arr q.
Lemma ice_push strict arr p c w : ice_ok strict arr w → p ∉ w_remoteDesc w → ice_ok strict (arrives p c arr) (_pushPendingIce p c w).2.
Proof.
  intros [Hs Ha Hd Hc Hb Hk] Hp. cbn. set (w' := w <| w_pendingIce ::= _ |>).
  assert (∀ q, pending q w' = if decide (q = p) then pending p w ++ [c] else pending q w) as Hpe.
  { intros q. subst w'. unfold pending at 1. cbn -[om_get om_set]. rewrite om_get_set. by case_decide. }
  constructor; try done.
  - intros q. change (added q w') with (added q w). rewrite Hpe /arrives. case_decide; [subst|apply Hs]. rewrite app_assoc. by apply sublist_app.
  - intros q Hst Hun. change (added q w') with (added q w). rewrite Hpe /arrives. case_decide; [subst|by apply Ha]. by rewrite app_assoc Ha.
  - intros q Hq. rewrite Hpe decide_False; [by apply Hd|]. by intros ->.
Qed.
Lemma ice_stale strict arr p pc w : ice_ok strict arr w → om_get p (w_connections w) = Some pc →
  ice_ok strict arr (w <| w_remoteDesc ::= os_delete p |> <| w_out ::= λ l, l ++ [ODestroyPc pc] |> <| w_connections ::= om_delete p |>).
Proof.
  intros [Hs Ha Hd Hc Hb Hk] Hp. set (w' := _ <| w_connections ::= _ |>).
  assert (∀ q, added q w' = added q w) as Had by (intros q; unfold added; cbn; by rewrite added_app app_nil_r).
  constructor; cbn -[om_get om_delete].
  - intros q. rewrite Had. apply Hs.
  - intros q Hst Hun. rewrite Had. apply Ha; [done|]. intros x Hx. apply Hun. apply elem_of_app. by left.
  - intros q. rewrite os_elem_delete. intros [Hq Hin]. destruct (Hd q Hin) as (? & x & ? & s & k & ?). split; [done|]. exists x.
    rewrite om_get_delete_ne //. split; [done|]. exists s, k. apply elem_of_app. by left.
  - intros q x. rewrite om_get_delete. case_decide; [done|]. apply Hc.
  - intros l1 l2 x c m El. apply app_eq_inv in El as [(k & El & El')|(k & El & El')].
    + destruct k as [|o k]; cbn in El'; [done|]. injection El' as <- ->. by eapply Hb.
    + by destruct k as [|? [|? ?]].
  - intros o [Ho|Ho]%elem_of_app; [by apply (Hk o)|]. apply list_elem_of_singleton in Ho as ->. specialize (Hc p pc Hp).
    unfold peer_of in Hc. cbn. by destruct (w_pcs w !! pc).
Qed.

(** Operations that leave the connections of [p] to its offers: no closing, no failure,
    no candidate refused. *)
Definition spares (p : jstr) (o : rtc_op) : Prop :=
  match o with
  | Close q => q ≠ p
  | CloseAll => False
  | PcState _ state _ => ¬ (state = js "failed" ∨ state = js "closed")
  | AddIce q _ r => q = p → r = AddOk
  | _ => True
  end.
#[export] Instance spares_dec p o : Decision (spares p o).
Proof. destruct o; cbn; apply _. Defined.
Definition spares_strict (strict : option jstr) (o : rtc_op) : Prop := ∀ p, strict = Some p → spares p o.

Lemma ice_data strict arr p rd k i dc b fs r data :
  keeps (ice_ok strict arr) (_drainSendOverflow p rd k) ∧ keeps (ice_ok strict arr) (put_buffer i dc b fs) ∧ keeps (ice_ok strict arr) (send p data rd) ∧
  keeps (ice_ok strict arr) (flush_timer i r) ∧ keeps (ice_ok strict arr) (resume_buffer p r) ∧ keeps (ice_ok strict arr) (drop_send_buffer p).
Proof.
  unfold send, flush_timer, resume_buffer, _drainSendOverflow, put_buffer, drop_send_buffer, upd_buffer. split_and!; ice_steps.
Qed.
Lemma ice_timers strict arr id ld gs p e :
  keeps (ice_ok strict arr) (sdp_timer id ld gs) ∧ keeps (ice_ok strict arr) (_resolveSdpAfterGathering p e ld).
Proof.
  unfold sdp_timer, _finishSdpAfterGatheringTimeout, _resolveSdpAfterGathering, set_sdp_timer, clearTimeout, resolve. split_and!; ice_steps.
Qed.
Lemma ice_setupDc strict arr p e : keeps (ice_ok strict arr) (_setupDataChannel p e).
Proof. unfold _setupDataChannel. ice_steps. Qed.
Lemma ice_offer strict arr p k t ok (rest : nat → Z → nat → R ()) :
  (∀ pc e n w, ice_ok strict arr w → om_get p (w_connections w) = Some pc → ice_ok strict arr (rest pc e n w).2) →
  keeps (ice_ok strict arr) ('(pc, e) ← _createPeerConnection p k ok; promise ← await_gathering p pc e k t; rest pc e promise ;; mret promise).
Proof.
  intros Hrest w Hw. pose proof (ice_create strict arr p k ok w Hw) as Hc. unfold mbind at 1, SM_bind.
  destruct (_createPeerConnection _ _ _ w) as [[[pc e]|err] w1]; [|by destruct Hc]. destruct Hc as [H1 Hn]. specialize (Hn _ _ eq_refl).
  unfold mbind at 1, SM_bind. unfold await_gathering, new_promise, set_sdp_timer. cbn [mbind SM_bind get modify mret SM_ret].
  apply (keeps_bind_at (ice_ok strict arr)); [|intros; apply keeps_ret]. apply Hrest; [|done].
  eapply (ice_ext strict arr w1 _ []); try done. by rewrite app_nil_r.
Qed.
Lemma ice_addIce strict arr p c r : (strict = Some p → r = AddOk) → ∀ w, ice_ok strict arr w →
  ice_ok strict (arrives p (candidateStr c, candidate_mid c) arr) (addIceCandidate p c r w).2.
Proof.
  intros Hr w Hw. unfold addIceCandidate. rewrite get_bind. destruct (os_has p (w_remoteDesc w)) eqn:Hd; cbn [negb].
  2: { apply ice_push; [done|]. by apply os_has_false. }
  apply os_has_true in Hd. destruct (ic_desc _ _ _ Hw p Hd) as (Hpe & pc & Hpc & Hde). rewrite Hpc. destruct r.
  - eapply (ice_add strict arr _ p pc w _ [(candidateStr c, candidate_mid c)]); try done.
    + intros q. by case_decide; subst.
    + intros q. unfold arrives. by rewrite Hpe.
    + rewrite Hpe. apply prefix_nil.
  - rewrite modify_bind. unfold out. rewrite !modify_bind. apply ice_push; [|cbn -[os_delete]; rewrite os_elem_delete; by intros []].
    by apply ice_stale.
  - destruct Hw as [Hs Ha H3 H4 H5 H6]. constructor; try done; cbn.
    + intros q. unfold arrives. case_decide; [subst|apply Hs]. by apply sublist_inserts_r.
    + intros q Hst Hun. unfold arrives. case_decide as Hq; [rewrite Hq in Hst; by specialize (Hr Hst)|by apply Ha].
Qed.

Lemma ice_arr_ext strict arr arr' w : (∀ p, arr' p = arr p) → ice_ok strict arr w → ice_ok strict arr' w.
Proof. intros E [Hs Ha H3 H4 H5 H6]. constructor; try done; intros p; rewrite E; auto. Qed.
Lemma ice_step_ok strict arr o w : spares_strict strict o → ice_ok strict arr w →
  ice_ok strict (λ p, arr p ++ arrived p [o]) (rtc_step w o).
Proof.
  intros Ho Hw. unfold rtc_step.
  assert (∀ m : R (), keeps (ice_ok strict arr) m → (∀ p, arrived p [o] = []) → ice_ok strict (λ p, arr p ++ arrived p [o]) (m w).2) as Hk.
  { intros m Hm He. eapply ice_arr_ext; [|by apply Hm]. intros p. by rewrite He app_nil_r. }
  destruct o; cbn [rtc_apply]; unfold ignore; try (apply Hk; [|done]).
  - keeps_step; [|ice_steps].
    apply (ice_offer strict arr peerId KOffer _ pc_ok (λ _ e n, if dc_ok then _setupDataChannel peerId e else out (OReject n))).
    intros pc e n w1 H1 Hp. destruct dc_ok; [by apply ice_setupDc|by apply ice_out].
  - keeps_step; [|ice_steps].
    apply (ice_offer strict arr peerId KAnswer _ pc_ok
      (λ pc e n, if desc_ok then out (OSetRemote pc sdp KOffer) ;; _afterRemoteDescriptionForTrickle peerId else out (OReject n))).
    intros pc e n w1 H1 Hp. destruct desc_ok; [by apply ice_described|by apply ice_out].
  - intros w1 H1. unfold handleAnswer. rewrite get_bind. destruct (om_get peerId (w_connections w1)) as [pc|] eqn:Hp; [|done].
    destruct desc_ok; [by apply (ice_described strict arr peerId pc sdp KAnswer w1)|done].
  - eapply ice_arr_ext; [|apply (ice_addIce strict arr); [|exact Hw]].
    + intros p. unfold arrives, arrived. cbn. case_decide as H1; case_decide as H2; subst; try done. by rewrite app_nil_r.
    + intros Hst. by apply (Ho _ Hst).
  - match goal with |- keeps _ (send ?p ?d ?rd ≫= _) => keeps_step; [apply (ice_data strict arr p rd 0 0 0 (sb_new None None) [] (λ _, true) d)|ice_steps] end.
  - apply ice_tearDown. intros Hst. by apply (Ho _ Hst).
  - unfold closeAll. ice_steps. apply ice_tearDown. intros Hst. by apply (Ho _ Hst).
  - unfold on_local_candidate, on_pc. ice_steps.
  - unfold on_state_change, on_pc, _emitPeerDisconnectSoon. ice_steps. apply ice_tearDown. intros Hst.
    apply (Ho _ Hst). by eapply bool_decide_eq_true_1.
  - unfold on_gathering_state, on_pc. ice_steps. by apply (ice_timers strict arr 0 ld None).
  - unfold on_data_channel. ice_steps; apply ice_setupDc.
  - unfold on_open, on_dc. ice_steps.
  - unfold on_closed, on_dc, _emitPeerDisconnectSoon, drop_send_buffer, upd_buffer. ice_steps.
  - unfold on_dc_error, on_dc. ice_steps.
  - unfold on_message, on_dc. ice_steps.
  - unfold on_buffered_amount_low, on_dc. keeps_step; [apply keeps_get|]. destruct (w_dcs a !! dc) as [[p e]|]; [|apply keeps_ret].
    keeps_step. keeps_step; [apply (ice_data strict arr p rd 0 0 0 (sb_new None None) [] r [])|].
    keeps_step; [apply (ice_data strict arr p rd 0 0 0 (sb_new None None) [] r [])|by apply ice_out].
  - by apply (ice_timers strict arr _ _ _ [] 0).
  - unfold disconnect_timer. ice_steps.
  - apply (ice_data strict arr [] (λ _ _, true) 0 i 0 (sb_new None None) [] r []).
Qed.

Lemma arrived_app p a b : arrived p (a ++ b) = arrived p a ++ arrived p b.
Proof. apply omap_app. Qed.
Lemma ice_new strict q o : ice_ok strict (λ p, arrived p []) (new_webrtc q o).
Proof. constructor; try done; cbn; try (by intros ? ?%elem_of_nil); try (by intros [|]). Qed.
Lemma ice_run strict ops q o : Forall (spares_strict strict) ops → ice_ok strict (λ p, arrived p ops) (rtc_run ops (new_webrtc q o)).
Proof.
  induction ops as [|op ops IH] using rev_ind; intros Hops; [apply ice_new|]. apply Forall_app in Hops as [Hops [Hop _]%Forall_cons].
  unfold rtc_run. rewrite foldl_app. eapply ice_arr_ext; [|apply ice_step_ok; [done|by apply IH]]. intros p. cbn. apply arrived_app.
Qed.

(** Candidates keep their order.  In every history what the connections of a peer
    were given of its remote candidates, followed by those that wait, are candidates
    that arrived for it, in the order of their arrival, each at most once; none is
    given to a connection before its remote description; and all of them are given or
    wait, as long as the connections of the peer are neither closed nor replaced. *)
Theorem webrtc_candidates_in_order queueMax overflowMax ops p :
  let w := rtc_run ops (new_webrtc queueMax overflowMax) in
  added p w ++ pending p w `sublist_of` arrived p ops ∧
  (∀ before after pc c m, w_out w = before ++ OAddCandidate pc c m :: after → ∃ sdp k, OSetRemote pc sdp k ∈ before) ∧
  (Forall (spares p) ops → untouched p w → added p w ++ pending p w = arrived p ops) ∧
  (p ∈ w_remoteDesc w → pending p w = []).
Proof.
  intros w. assert (ice_ok None (λ p, arrived p ops) w) as [Hs _ Hd _ Hb _] by by apply ice_run, Forall_true.
  split_and!; [apply Hs|by apply Hb| |by intros Hp; apply Hd].
  intros Hops. assert (ice_ok (Some p) (λ p, arrived p ops) w) as [_ Ha _ _ _ _].
  { apply ice_run. eapply Forall_impl; [exact Hops|]. intros o Ho q [= ->]. done. }
  by apply Ha.
Qed.

Definition erin : jstr := js "erin".
Definition early : list rtc_op :=
  [AddIce erin (IceText (js "candidate:1")) AddOk; AddIce erin (IceObject (js "candidate:2") (js "1") []) AddOk;
   HandleOffer erin (js "v=0") true true; AddIce erin (IceText (js "candidate:3")) AddOk].
Lemma webrtc_candidates_in_order_witness :
  Forall (spares erin) early ∧ untouched erin (rtc_run early (new_webrtc None None)) ∧
  added erin (rtc_run early (new_webrtc None None)) ++ pending erin (rtc_run early (new_webrtc None None)) = arrived erin early.
Proof.
  destruct (webrtc_candidates_in_order None None early erin) as (_ & _ & Hall & _).
  assert (Forall (spares erin) early) as H1 by (apply (bool_decide_unpack _); vm_compute; reflexivity).
  assert (untouched erin (rtc_run early (new_webrtc None None))) as H2.
  { intros pc Hin. vm_compute in Hin. repeat (apply elem_of_cons in Hin as [Hin|Hin]; [discriminate Hin|]). destruct (proj1 (elem_of_nil _) Hin). }
  split; [exact H1|]. split; [exact H2|]. exact (Hall H1 H2).
Defined.
