(* ===== verification/Transports.v ===== *)
(** * The transport manager (src/transport/manager.js)

    [TransportManager] hides three transports behind one: it keeps, for each peer, the
    set of transports that reported it connected, sends over the first of them in
    order of preference that accepts a packet, and reports a peer as disconnected when
    its last transport is gone.  What a transport answers to [send] and what closing it
    reports at once come with the operation. *)

From S2P Require Import Prelude JsMap Bytes JsString.
Local Open Scope Z_scope.
#[local] Unset Default Proof Using.

Inductive TransportType := webrtc | quic | websocket.
#[export] Instance TransportType_dec : EqDecision TransportType.
Proof. solve_decision. Defined.
Definition TRANSPORT_PRIORITY : list TransportType := [webrtc; quic; websocket].

Record TransportManager := MkManager {
  tm_transports : list TransportType;                    (* the keys of [transports] *)
  tm_peers : omap jstr (oset TransportType);             (* peerTransports *)
  tm_order : list TransportType                          (* preferredOrder *)
}.
#[export] Instance eta_TransportManager : Eta TransportManager := λ m,
  MkManager (tm_transports m) (tm_peers m) (tm_order m).
(** A flag per transport: its configuration is not [false]. *)
Definition new_manager (useWebrtc useQuic useWebsocket : bool) (order : option (list TransportType)) : TransportManager :=
  MkManager ((if useWebrtc then [webrtc] else []) ++ (if useQuic then [quic] else []) ++ (if useWebsocket then [websocket] else []))
    [] (default TRANSPORT_PRIORITY order).

(** What the manager emits. *)
Inductive ManagerEvent := PeerConnected (peerId : jstr) (t : TransportType) | PeerDisconnected (peerId : jstr).

(** ** Events of the transports *)

Definition on_transport_connected (t : TransportType) (peerId : jstr) (m : TransportManager) : TransportManager * list ManagerEvent :=
  let transports := default [] (om_get peerId (tm_peers m)) in
  (m <| tm_peers ::= om_set peerId (os_add t transports) |>, [PeerConnected peerId t]).

Definition on_transport_disconnected (t : TransportType) (peerId : jstr) (m : TransportManager) :
    TransportManager * list ManagerEvent :=
  match om_get peerId (tm_peers m) with
  | Some transports =>
      match os_delete t transports with
      | [] => (m <| tm_peers ::= om_delete peerId |>, [PeerDisconnected peerId])
      | rest => (m <| tm_peers ::= om_set peerId rest |>, [])
      end
  | None => (m, [PeerDisconnected peerId])
  end.

(** ** Sending *)

(** [[preferred, ...order.filter(t => t !== preferred)]] *)
Definition send_order (preferredTransport : option TransportType) (m : TransportManager) : list TransportType :=
  match preferredTransport with
  | Some t => t :: List.filter (λ u, negb (bool_decide (u = t))) (tm_order m)
  | None => tm_order m
  end.

(** The loop of [send]: the transports asked, and whether the last one accepted.
    [accepts t]: the answer of the transport [t]. *)
Fixpoint send_loop (order : list TransportType) (transports : oset TransportType) (known : list TransportType)
    (accepts : TransportType → bool) : list TransportType * bool :=
  match order with
  | [] => ([], false)
  | t :: order' =>
      if os_has t transports && bool_decide (t ∈ known) then
        if accepts t then ([t], true)
        else let '(asked, ok) := send_loop order' transports known accepts in (t :: asked, ok)
      else send_loop order' transports known accepts
  end.
Definition tm_send (accepts : TransportType → bool) (peerId : jstr) (preferredTransport : option TransportType)
    (m : TransportManager) : list TransportType * bool :=
  match om_get peerId (tm_peers m) with
  | None | Some [] => ([], false)
  | Some transports => send_loop (send_order preferredTransport m) transports (tm_transports m) accepts
  end.

Definition getConnectedPeers (m : TransportManager) : list jstr := om_keys (tm_peers m).
Definition isConnected (peerId : jstr) (m : TransportManager) : bool :=
  match om_get peerId (tm_peers m) with Some (_ :: _) => true | _ => false end.
Definition getAvailableTransports (peerId : jstr) (m : TransportManager) : list TransportType :=
  default [] (om_get peerId (tm_peers m)).
Definition broadcast (accepts : jstr → TransportType → bool) (excludePeers : list jstr) (m : TransportManager) : omap jstr bool :=
  foldl (λ results peerId,
      if bool_decide (peerId ∈ excludePeers) then results
      else om_set peerId (tm_send (accepts peerId) peerId None m).2 results)
    [] (getConnectedPeers m).

(** ** Closing *)

Fixpoint disconnect_all (reports : list (TransportType * jstr)) (m : TransportManager) : TransportManager * list ManagerEvent :=
  match reports with
  | [] => (m, [])
  | (t, p) :: rest =>
      let '(m, es) := on_transport_disconnected t p m in
      let '(m, es') := disconnect_all rest m in (m, es ++ es')
  end.
(** [close]: every transport closes the peer; [reports]: those that report it as
    disconnected at once (QUIC always does). *)
Definition tm_close (peerId : jstr) (reports : list TransportType) (m : TransportManager) : TransportManager * list ManagerEvent :=
  let '(m, es) := disconnect_all ((λ t, (t, peerId)) <$> reports) m in
  (m <| tm_peers ::= om_delete peerId |>, es).
Definition tm_closeAll (reports : list (TransportType * jstr)) (m : TransportManager) : TransportManager * list ManagerEvent :=
  let '(m, es) := disconnect_all reports m in
  (m <| tm_peers := [] |>, es).

(** [connectToPeer]: which transport to use; [ws_ok]: the WebSocket connection succeeds. *)
Inductive ConnectMode := ModeAuto | ModeWebsocket | ModeOther.
Definition connectToPeer (transportMode : ConnectMode) (wsUrl : option jstr) (ws_ok : bool) : outcome TransportType :=
  match transportMode, wsUrl with
  | ModeWebsocket, Some (_ :: _) => if ws_ok then Ret websocket else Throw (Error "WebSocket")
  | ModeAuto, Some (_ :: _) => Ret (if ws_ok then websocket else webrtc)
  | _, _ => Ret webrtc
  end.

(** ** What the manager promises *)

Inductive TransportEvent :=
  | TConnected (t : TransportType) (peerId : jstr)
  | TDisconnected (t : TransportType) (peerId : jstr)
  | TClose (peerId : jstr) (reports : list TransportType).

Definition tm_step (e : TransportEvent) (m : TransportManager) : TransportManager * list ManagerEvent :=
  match e with
  | TConnected t p => on_transport_connected t p m
  | TDisconnected t p => on_transport_disconnected t p m
  | TClose p reports => tm_close p reports m
  end.
Definition tm_run (es : list TransportEvent) (m : TransportManager) : TransportManager := foldl (λ m e, (tm_step e m).1) m es.

(** Whether a transport of a peer is up, from the history alone, the last event first. *)
Fixpoint up (t : TransportType) (p : jstr) (es : list TransportEvent) : bool :=
  match es with
  | [] => false
  | TConnected t' p' :: es' => (bool_decide (t' = t ∧ p' = p)) || up t p es'
  | TDisconnected t' p' :: es' => negb (bool_decide (t' = t ∧ p' = p)) && up t p es'
  | TClose p' _ :: es' => negb (bool_decide (p' = p)) && up t p es'
  end.

Definition peers_ok (m : TransportManager) : Prop :=
  om_wf (tm_peers m) ∧ ∀ p ts, om_get p (tm_peers m) = Some ts → ts ≠ [] ∧ NoDup ts.
Definition live (t : TransportType) (p : jstr) (m : TransportManager) : Prop := t ∈ getAvailableTransports p m.

Lemma disconnected_spec t p m m' es : peers_ok m → on_transport_disconnected t p m = (m', es) →
  peers_ok m' ∧ (∀ u q, live u q m' ↔ live u q m ∧ ¬ (u = t ∧ q = p)) ∧
  (es = [] ∧ (∃ u, live u p m') ∨ es = [PeerDisconnected p] ∧ om_get p (tm_peers m') = None).
Proof.
  intros [Hwf Hne] Hd. unfold on_transport_disconnected, live, getAvailableTransports in *.
  destruct (om_get p (tm_peers m)) as [ts|] eqn:Ep.
  - destruct (Hne p ts Ep) as [_ Hnd]. assert (∀ u, u ∈ os_delete t ts ↔ u ∈ ts ∧ u ≠ t) as Hel.
    { intros u. rewrite os_elem_delete. tauto. }
    pose proof (os_delete_NoDup t ts Hnd) as Hnd'. destruct (os_delete t ts) as [|v rest] eqn:Er; injection Hd as <- <-; cbn.
    + split; [split; [by apply om_delete_wf|]|split; [|right; split; [done|apply om_get_delete_eq]]].
      * intros q us. rewrite om_get_delete. case_decide; [done|]. apply Hne.
      * intros u q. rewrite om_get_delete. case_decide as Hq; [subst; rewrite Ep /=|by naive_solver].
        split; [by intros ?%elem_of_nil|]. intros [Hu Ht]. apply Hel. naive_solver.
    + split; [split; [by apply om_set_wf|]|split; [|left; split; [done|]]].
      * intros q us. rewrite om_get_set. case_decide; [|apply Hne]. by intros [= <-].
      * intros u q. rewrite om_get_set. case_decide as Hq; [subst; rewrite Ep /=|by naive_solver]. rewrite Hel. naive_solver.
      * exists v. rewrite om_get_set_eq. left.
  - injection Hd as <- <-. split; [done|]. split; [|by right]. intros u q. split; [|tauto].
    intros Hu. split; [done|]. intros [-> ->]. rewrite Ep in Hu. by apply elem_of_nil in Hu.
Qed.

Lemma connected_spec t p m : peers_ok m → let m' := (on_transport_connected t p m).1 in
  peers_ok m' ∧ ∀ u q, live u q m' ↔ (u = t ∧ q = p) ∨ live u q m.
Proof.
  intros [Hwf Hne]. unfold on_transport_connected, live, getAvailableTransports. cbn. split; [split|].
  - by apply om_set_wf.
  - intros q ts. cbn. rewrite om_get_set. case_decide; [|apply Hne]. intros [= <-].
    assert (t ∈ os_add t (default [] (om_get p (tm_peers m)))) as Ht by (apply os_elem_add; by left).
    split; [by intros He; rewrite He in Ht; apply elem_of_nil in Ht|]. apply os_add_NoDup.
    destruct (om_get p _) as [us|] eqn:Eq; [by eapply Hne|constructor].
  - intros u q. rewrite om_get_set. case_decide as Hp; [subst|naive_solver]. cbn. rewrite os_elem_add. naive_solver.
Qed.

Lemma reports_spec p ts m m' es : peers_ok m → disconnect_all ((λ t, (t, p)) <$> ts) m = (m', es) →
  peers_ok m' ∧ ∀ u q, q ≠ p → live u q m' ↔ live u q m.
Proof.
  revert m m' es. induction ts as [|t ts IH]; intros m m' es Hm Hd; cbn in Hd; [by injection Hd as <- <-|].
  destruct (on_transport_disconnected t p m) as [m1 es1] eqn:E1. destruct (disconnect_all _ m1) as [m2 es2] eqn:E2.
  injection Hd as <- <-. destruct (disconnected_spec _ _ _ _ _ Hm E1) as (H1 & Hl & Hes).
  destruct (IH m1 m2 es2 H1 E2) as (H2 & Hl2). split; [done|]. intros u q Hq. rewrite Hl2 // Hl. naive_solver.
Qed.
Lemma close_spec p ts m : peers_ok m → let m' := (tm_close p ts m).1 in
  peers_ok m' ∧ ∀ u q, live u q m' ↔ q ≠ p ∧ live u q m.
Proof.
  intros Hm. unfold tm_close. destruct (disconnect_all _ m) as [m' es] eqn:E.
  destruct (reports_spec _ _ _ _ _ Hm E) as ([Hwf Hne] & Hl). split; [split|].
  - by apply om_delete_wf.
  - intros q us. cbn. rewrite om_get_delete. case_decide; [done|]. apply Hne.
  - intros u q. unfold live, getAvailableTransports in *. cbn. rewrite om_get_delete.
    case_decide as Hq; [split; [by intros ?%elem_of_nil|naive_solver]|]. rewrite (Hl u q Hq). tauto.
Qed.

Lemma connected_live p m : peers_ok m → isConnected p m = true ↔ ∃ u, live u p m.
Proof.
  intros [_ Hne]. unfold isConnected, live, getAvailableTransports. destruct (om_get p (tm_peers m)) as [ts|] eqn:Ep.
  - destruct (Hne p ts Ep) as [Hts _]. destruct ts as [|u ts]; [done|]. split; [|done]. intros _. exists u. left.
  - split; [done|]. by intros [u ?%elem_of_nil].
Qed.

Lemma tm_run_snoc es e m : tm_run (es ++ [e]) m = (tm_step e (tm_run es m)).1.
Proof. unfold tm_run. by rewrite foldl_app. Qed.

Lemma manager_inv es m : tm_peers m = [] →
  peers_ok (tm_run es m) ∧ ∀ t p, live t p (tm_run es m) ↔ up t p (rev es) = true.
Proof.
  intros H0. induction es as [|e es [IHok IH]] using rev_ind.
  { cbn. split; [split; rewrite H0; [constructor|done]|]. intros t p. unfold live, getAvailableTransports. rewrite H0 /=.
    split; [by intros ?%elem_of_nil|done]. }
  rewrite tm_run_snoc rev_app_distr. cbn [rev app]. destruct e as [u q|u q|q rs]; cbn [tm_step up].
  - destruct (connected_spec u q _ IHok) as [Hok Hl]. split; [done|]. intros t p.
    rewrite orb_true_iff bool_decide_eq_true -IH Hl. naive_solver.
  - destruct (on_transport_disconnected u q (tm_run es m)) as [m' es'] eqn:E.
    destruct (disconnected_spec _ _ _ _ _ IHok E) as (Hok & Hl & _). split; [done|]. intros t p.
    rewrite andb_true_iff negb_true_iff bool_decide_eq_false -IH Hl. naive_solver.
  - destruct (close_spec q rs _ IHok) as [Hok Hl]. split; [done|]. intros t p.
    rewrite andb_true_iff negb_true_iff bool_decide_eq_false -IH Hl. naive_solver.
Qed.

(** [send]: only transports that are up are asked, in the order of preference, up to the
    first that accepts. *)
Lemma send_loop_spec order ts known accepts asked ok : send_loop order ts known accepts = (asked, ok) →
  Forall (λ t, t ∈ ts ∧ t ∈ known ∧ t ∈ order) asked ∧
  (ok = true → ∃ t before, asked = before ++ [t] ∧ accepts t = true ∧ Forall (λ u, accepts u = false) before) ∧
  (ok = false → ∀ t, t ∈ order → t ∈ ts → t ∈ known → accepts t = false).
Proof.
  revert asked ok. induction order as [|t order IH]; intros asked ok H; cbn in H.
  { injection H as <- <-. split; [constructor|]. split; [done|]. by intros _ t ?%elem_of_nil. }
  destruct (os_has t ts && bool_decide (t ∈ known)) eqn:Et.
  - apply andb_prop in Et as [Hts%os_has_true Hk%bool_decide_eq_true]. destruct (accepts t) eqn:Ea.
    + injection H as <- <-. split; [by apply Forall_singleton; split_and!; [..|left]|]. split; [|done].
      intros _. by exists t, [].
    + destruct (send_loop order ts known accepts) as [a o]. injection H as <- <-. destruct (IH a o eq_refl) as (Hf & Ht & Hn).
      split; [|split].
      * constructor; [by split_and!; [..|left]|]. eapply Forall_impl; [exact Hf|]. intros u (?&?&?). split_and!; [..|right]; done.
      * intros Ho. destruct (Ht Ho) as (u & before & -> & Hu & Hb). exists u, (t :: before). split_and!; [done..|by constructor].
      * intros Ho u [->|Hu]%elem_of_cons; [done|]. by apply Hn.
  - destruct (IH asked ok H) as (Hf & Ht & Hn). split; [|split; [done|]].
    + eapply Forall_impl; [exact Hf|]. intros u (?&?&?). split_and!; [..|right]; done.
    + intros Ho u [->|Hu]%elem_of_cons Hts Hk; [|by apply Hn]. exfalso.
      rewrite andb_false_iff os_has_false bool_decide_eq_false in Et. naive_solver.
Qed.

(** the manager tracks its transports.  In every history of connections, losses and
    closings, a peer counts as connected exactly when one of its transports has come
    up and not gone since ([up], read off the history); losing a transport reports the
    peer as disconnected exactly when no other one of its transports is up; and a
    packet is offered only to transports that are up, in the order of preference, and
    accepted exactly when one of them accepts it, by the first that does. *)
Theorem manager_tracks w q s order (es : list TransportEvent) (t : TransportType) (p : jstr) (accepts : TransportType → bool) :
  let m := tm_run es (new_manager w q s order) in
  let is_up u := up u p (rev es) = true in
  (isConnected p m = true ↔ ∃ u, is_up u) ∧
  ((tm_step (TDisconnected t p) m).2 = [] ∧ (∃ u, u ≠ t ∧ is_up u) ∨
   (tm_step (TDisconnected t p) m).2 = [PeerDisconnected p] ∧ ∀ u, is_up u → u = t) ∧
  (∀ u, u ∈ getAvailableTransports p m ↔ is_up u) ∧
  let '(asked, ok) := tm_send accepts p None m in
  Forall is_up asked ∧
  (ok = true → ∃ u before, asked = before ++ [u] ∧ accepts u = true ∧ Forall (λ v, accepts v = false) before) ∧
  (ok = false → ∀ u, is_up u → u ∈ tm_order m → u ∈ tm_transports m → accepts u = false).
Proof.
  intros m is_up. destruct (manager_inv es (new_manager w q s order) eq_refl) as [Hok Hup]. fold m in Hok, Hup.
  assert (∀ u, u ∈ getAvailableTransports p m ↔ is_up u) as Hav by (intros u; apply (Hup u p)).
  split_and!; [| |done|].
  - rewrite connected_live //. by setoid_rewrite Hav.
  - cbn [tm_step]. destruct (on_transport_disconnected t p m) as [m' os] eqn:Ed.
    destruct (disconnected_spec _ _ _ _ _ Hok Ed) as (_ & Hl & [[-> [u Hu]]|[-> Hn]]); [left|right]; (split; [done|]).
    + apply Hl in Hu as [Hu%Hup Hne]. exists u. naive_solver.
    + intros u Hu%Hup. destruct (decide (u = t)) as [|Hne]; [done|]. exfalso.
      assert (live u p m') as Hu' by (apply Hl; naive_solver). unfold live, getAvailableTransports in Hu'. rewrite Hn in Hu'.
      by apply elem_of_nil in Hu'.
  - unfold tm_send, send_order. unfold getAvailableTransports in Hav. destruct (om_get p (tm_peers m)) as [[|v ts]|]; cbn in Hav.
    1, 3: split_and!; [constructor|done|intros _ u Hu%Hav; by apply elem_of_nil in Hu].
    destruct (send_loop _ _ _ _) as [asked ok] eqn:Es. destruct (send_loop_spec _ _ _ _ _ _ Es) as (Hf & Ht & Hn).
    split_and!; [|done|].
    + eapply Forall_impl; [exact Hf|]. intros u (Hu & _). by apply Hav.
    + intros Ho u Hu Hin Hk. apply Hn; [done..| |done]. by apply Hav.
Qed.
