(* ===== verification/Discovery.v ===== *)
(** * Peer discovery (src/control/discovery.js)

    [PeerDiscovery] turns what the signalling channel says about peers into transport
    connections with session keys.  Messages of the channel become works of one
    promise chain: the next starts when the current one is finished, and a work may
    wait for a transport ([Await]).  Events of the transports and timers come in
    between.  What discovery asks of the transport manager and of the signalling
    client is recorded in [d_out]; what they answer comes with each event ([World],
    [Answer]).  SDP and ICE candidates are opaque. *)

From S2P Require Import Prelude JsMap Bytes JsString Effects Crypto.
Local Open Scope Z_scope.
#[local] Unset Default Proof Using.

Section discovery.
Context {SDP Cand : Type}.
Context `{KeyAgreement}.

(** ** State *)

Record Peer := MkPeer { dp_nodeId : jstr; dp_dataServer : option jstr }.

Inductive Signal :=
  | SOffer (offer : SDP) (ephemeralPubKey : option jstr) (hsGen : option Z)
  | SAnswer (answer : SDP) (ephemeralPubKey : option jstr) (hsGen : option Z)
  | SIce (candidate : Cand) (hsGen : option Z)
  | SSessionKey (ephemeralPubKey : option jstr)
  | SSessionKeyAck (ephemeralPubKey : option jstr)
  | SOther.

Inductive DiscoveryEvent :=
  | EPeerConnected (peerId : jstr)
  | EPeerDisconnected (peerId : jstr)
  | EPeerLeave (nodeId : jstr).

(** Calls of the transport manager and of the signalling client, and events emitted. *)
Inductive Call :=
  | CSignal (to : jstr) (s : Signal)
  | CTopology (connectedPeers : list jstr)
  | CConnectWs (peerId url : jstr)
  | CCreateOffer (peerId : jstr)
  | CHandleOffer (peerId : jstr) (offer : SDP)
  | CHandleAnswer (peerId : jstr) (answer : SDP)
  | CAddIce (peerId : jstr) (candidate : Cand)
  | CQuicKey (peerId : jstr) (key : buffer)
  | CClose (peerId : jstr)
  | CDisconnect | CCloseAll
  | CEmit (e : DiscoveryEvent).

(** Items of [_signallingWorkChain]. *)
Inductive Work :=
  | WPeersUpdate (peers : list Peer)
  | WPeerJoin (peer : Peer)
  | WPeerLeave (nodeId : jstr)
  | WSignal (fromNodeId : jstr) (signal : Signal)
  | WReconnect (peerId : jstr).

(** Where a work waits: for the TUN, a WebSocket connection, an offer, an answer, the
    acceptance of an answer, or that of a candidate. *)
Inductive Await :=
  | ATun (peer : Peer)
  | AWebSocket (peer : Peer) (myEphemeralPubKey : jstr)
  | AOffer (peer : Peer) (myEphemeralPubKey : jstr)
  | AAnswer (fromNodeId myEphemeralPubKey : jstr)
  | ARemote (fromNodeId : jstr) (ephemeralPubKey : option jstr)
  | AIce.
(** How it ends. *)
Inductive Answer := Done | GotSdp (sdp : SDP) | Failed.

Inductive TransportMode := WebRtcMode | WebSocketMode | AutoMode.
#[export] Instance TransportMode_dec : EqDecision TransportMode.
Proof. solve_decision. Defined.

Record Pending := MkPending { initiator : bool; started : Z }.

Record PeerDiscovery := MkDiscovery {
  d_nodeId : jstr;                              (* identity.nodeId *)
  d_mode : TransportMode;
  d_dataServer : option jstr;
  d_awaitTun : bool;                            (* config.awaitTunBeforeMesh is set *)
  d_sessions : SessionManager;
  d_pending : omap jstr Pending;                (* pendingConnections *)
  d_established : oset jstr;                    (* establishedPeers *)
  d_leaveTimers : omap jstr Z;                  (* _peerLeaveTimers: the [gen] of the callback *)
  d_leaveGen : omap jstr Z;                     (* _leaveIntentGen *)
  d_reconnectTimers : oset jstr;                (* _meshReconnectTimers *)
  d_iceGen : omap jstr Z;                       (* _expectedRemoteIceHsGen *)
  d_works : list Work;                          (* _signallingWorkChain: what waits, *)
  d_running : option (Await * list Peer);       (* and what runs; the peers a peers-updated has left *)
  d_out : list Call
}.
#[export] Instance eta_PeerDiscovery : Eta PeerDiscovery := λ d,
  MkDiscovery (d_nodeId d) (d_mode d) (d_dataServer d) (d_awaitTun d) (d_sessions d) (d_pending d) (d_established d)
    (d_leaveTimers d) (d_leaveGen d) (d_reconnectTimers d) (d_iceGen d) (d_works d) (d_running d) (d_out d).
Definition new_discovery (nodeId : jstr) (mode : TransportMode) (dataServer : option jstr) (awaitTun : bool) :=
  MkDiscovery nodeId mode dataServer awaitTun [] [] [] [] [] [] [] [] None [].

(** The clock, [randomBytes(32)] of the next session, what the signalling client lists,
    and what the transport manager says: whether and how a peer is connected, its
    handshake generation, and whether closing it reports it as disconnected at once. *)
Record World := MkWorld {
  w_now : Z;
  w_secret : buffer;
  w_getPeer : jstr → option Peer;
  w_isConnected : jstr → bool;
  w_transports : jstr → list jstr;
  w_hsGen : jstr → Z;
  w_closeReports : jstr → bool
}.

Definition D := SM PeerDiscovery.

Definition call (c : Call) : D () := modify (λ d, d <| d_out ::= λ l, l ++ [c] |>).

(** [...(gen > 0 ? { hsGen: gen } : {})] *)
Definition positive_gen (g : Z) : option Z := if 0 <? g then Some g else None.
(** [if (signal.ephemeralPubKey)] *)
Definition key_given (k : option jstr) : option jstr := match k with Some ((_ :: _) as s) => Some s | _ => None end.

(** *** Sessions *)

Definition create_session (W : World) (peerId : jstr) : D jstr := λ d,
  let '(m, pub) := createSession (w_secret W) peerId (d_sessions d) in (Ret pub, d <| d_sessions := m |>).
Definition complete_session (peerId pub : jstr) : D () := λ d,
  match completeSession peerId (Str pub) (d_sessions d) with
  | Ret (m, _) => (Ret tt, d <| d_sessions := m |>)
  | Throw e => (Throw e, d)
  end.
Definition remove_session (peerId : jstr) : D () := modify (λ d, d <| d_sessions ::= removeSession peerId |>).

(** *** Timers *)

Definition _clearMeshReconnectTimer (peerId : jstr) : D () := modify (λ d, d <| d_reconnectTimers ::= os_delete peerId |>).

Definition bump_gen (nodeId : jstr) : D () :=
  modify (λ d, d <| d_leaveGen ::= om_set nodeId (default 0 (om_get nodeId (d_leaveGen d)) + 1) |>).
Definition _clearPendingPeerLeave (nodeId : jstr) : D () :=
  modify (λ d, d <| d_leaveTimers ::= om_delete nodeId |>) ;;
  bump_gen nodeId.

(** ** Transport events *)

Definition _updateTopology : D () := d ← get; call (CTopology (d_established d)).

Definition on_peer_connected (peerId : jstr) : D () :=
  _clearMeshReconnectTimer peerId ;;
  _clearPendingPeerLeave peerId ;;
  modify (λ d, d <| d_established ::= os_add peerId |> <| d_pending ::= om_delete peerId |>) ;;
  _updateTopology ;;
  call (CEmit (EPeerConnected peerId)).

Definition on_peer_disconnected (W : World) (peerId : jstr) : D () :=
  modify (λ d, d <| d_iceGen ::= om_delete peerId |>) ;;
  modify (λ d, d <| d_established ::= os_delete peerId |>) ;;
  remove_session peerId ;;
  modify (λ d, d <| d_pending ::= om_delete peerId |>) ;;
  _updateTopology ;;
  call (CEmit (EPeerDisconnected peerId)) ;;
  when (bool_decide (is_Some (w_getPeer W peerId)))
    (_clearMeshReconnectTimer peerId ;; modify (λ d, d <| d_reconnectTimers ::= os_add peerId |>)).

Definition on_ice_candidate (W : World) (peerId : jstr) (candidate : Cand) : D () :=
  call (CSignal peerId (SIce candidate (positive_gen (w_hsGen W peerId)))).

(** [transportManager.close]: it may report the peer as disconnected. *)
Definition tm_close (W : World) (peerId : jstr) : D () :=
  call (CClose peerId) ;;
  when (w_closeReports W peerId) (on_peer_disconnected W peerId).

(** Forget a peer and close its transports. *)
Definition drop_peer (W : World) (nodeId : jstr) : D () :=
  modify (λ d, d <| d_pending ::= om_delete nodeId |> <| d_established ::= os_delete nodeId |>) ;;
  remove_session nodeId ;;
  tm_close W nodeId.

(** ** Connecting: computations that end ([None]) or wait *)

Definition create_offer (peer : Peer) (pub : jstr) : D (option Await) :=
  call (CCreateOffer (dp_nodeId peer)) ;; mret (Some (AOffer peer pub)).

(** [_initiateConnection] after the TUN is there. *)
Definition initiate (W : World) (peer : Peer) : D (option Await) :=
  d ← get;
  let id := dp_nodeId peer in
  if om_has id (d_pending d) || os_has id (d_established d) then mret None
  else
    let wsUrl := match key_given (dp_dataServer peer) with Some u => Some u | None => key_given (d_dataServer d) end in
    let tryWs := if bool_decide (d_mode d = WebRtcMode) then None else wsUrl in
    if negb (bool_decide (is_Some tryWs)) && str_ltb id (d_nodeId d) then mret None
    else
      modify (λ d, d <| d_pending ::= om_set id (MkPending true (w_now W)) |>) ;;
      pub ← create_session W id;
      match tryWs with
      | Some url => call (CConnectWs id url) ;; mret (Some (AWebSocket peer pub))
      | None => create_offer peer pub
      end.
Definition _initiateConnection (W : World) (peer : Peer) : D (option Await) :=
  d ← get;
  if d_awaitTun d then mret (Some (ATun peer)) else initiate W peer.

(** [_maybeReconnectMeshPeer] *)
Definition _maybeReconnectMeshPeer (W : World) (peerId : jstr) : D (option Await) :=
  match w_getPeer W peerId with
  | None => mret None
  | Some peer =>
      d ← get;
      if os_has peerId (d_established d) || om_has peerId (d_pending d) then mret None
      else _initiateConnection W peer
  end.

Definition _stalePendingMeshMs : Z := 20000.
Definition _supersedePendingMeshHandshake (W : World) (nodeId : jstr) : D () :=
  d ← get;
  if os_has nodeId (d_established d) then skip
  else
    match om_get nodeId (d_pending d) with
    | None => skip
    | Some p => when (_stalePendingMeshMs <=? w_now W - started p) (drop_peer W nodeId)
    end.

(** ** Signals *)

Definition set_ice_gen (fromNodeId : jstr) (hsGen : option Z) : D () :=
  modify (λ d, match hsGen with
               | Some g => d <| d_iceGen ::= om_set fromNodeId g |>
               | None => d <| d_iceGen ::= om_delete fromNodeId |>
               end).

(** The [catch] of the offer and answer handlers. *)
Definition drop_pending (peerId : jstr) : D () := modify (λ d, d <| d_pending ::= om_delete peerId |>).

(** [if (key) completeSession(...)] *)
Definition complete_if_given (peerId : jstr) (key : option jstr) : D () :=
  match key_given key with Some k => complete_session peerId k | None => skip end.

Definition quic_key (peerId : jstr) : D () :=
  d ← get;
  match getSessionKey peerId (d_sessions d) with Some k => call (CQuicKey peerId k) | None => skip end.

Definition _handleOffer (W : World) (fromNodeId : jstr) (offer : SDP) (key : option jstr) (hsGen : option Z) :
    D (option Await) :=
  set_ice_gen fromNodeId hsGen ;;
  if w_isConnected W fromNodeId && bool_decide (js "websocket" ∈ w_transports W fromNodeId) then mret None
  else
    modify (λ d, d <| d_pending ::= om_set fromNodeId (MkPending false (w_now W)) |>) ;;
    try_catch
      (pub ← create_session W fromNodeId;
       complete_if_given fromNodeId key ;;
       call (CHandleOffer fromNodeId offer) ;;
       mret (Some (AAnswer fromNodeId pub)))
      (λ _, drop_pending fromNodeId ;; mret None).

Definition _handleAnswer (fromNodeId : jstr) (answer : SDP) (key : option jstr) (hsGen : option Z) : D (option Await) :=
  set_ice_gen fromNodeId hsGen ;;
  call (CHandleAnswer fromNodeId answer) ;;
  mret (Some (ARemote fromNodeId key)).

Definition _handleSessionKey (W : World) (fromNodeId : jstr) (key : option jstr) : D () :=
  match key_given key with
  | None => skip
  | Some k =>
      pub ← create_session W fromNodeId;
      complete_session fromNodeId k ;;
      call (CSignal fromNodeId (SSessionKeyAck (Some pub)))
  end.
Definition _handleSessionKeyAck (fromNodeId : jstr) (key : option jstr) : D () := complete_if_given fromNodeId key.

(** The candidate is from an older handshake than the one expected. *)
Definition stale_ice (exp hsGen : option Z) : bool :=
  match exp, hsGen with Some e, Some g => g <? e | _, _ => false end.
Definition ice_candidate (fromNodeId : jstr) (candidate : Cand) (hsGen : option Z) : D (option Await) :=
  d ← get;
  let exp := om_get fromNodeId (d_iceGen d) in
  if stale_ice exp hsGen then mret None
  else
    (match exp, hsGen with
     | Some e, Some g => when (e <? g) (modify (λ d, d <| d_iceGen ::= om_set fromNodeId g |>))
     | _, _ => skip
     end) ;;
    call (CAddIce fromNodeId candidate) ;;
    mret (Some AIce).

Definition _handleSignal (W : World) (fromNodeId : jstr) (signal : Signal) : D (option Await) :=
  match signal with
  | SOffer offer key hsGen => _handleOffer W fromNodeId offer key hsGen
  | SAnswer answer key hsGen => _handleAnswer fromNodeId answer key hsGen
  | SIce candidate hsGen => ice_candidate fromNodeId candidate hsGen
  | SSessionKey key => _handleSessionKey W fromNodeId key ;; mret None
  | SSessionKeyAck key => _handleSessionKeyAck fromNodeId key ;; mret None
  | SOther => mret None
  end.

(** ** Leaving *)

(** [_handlePeerLeave]: the timer carries the generation it was set with. *)
Definition _handlePeerLeave (nodeId : jstr) : D () :=
  _clearMeshReconnectTimer nodeId ;;
  _clearPendingPeerLeave nodeId ;;
  bump_gen nodeId ;;
  d ← get;
  let gen := default 0 (om_get nodeId (d_leaveGen d)) in
  modify (λ d, d <| d_leaveTimers ::= om_set nodeId gen |>).

Definition _applyPeerLeave (W : World) (nodeId : jstr) : D () :=
  if bool_decide (is_Some (w_getPeer W nodeId)) then skip
  else if w_isConnected W nodeId then skip
  else
    drop_peer W nodeId ;;
    modify (λ d, d <| d_leaveGen ::= om_delete nodeId |>) ;;
    call (CEmit (EPeerLeave nodeId)).

(** The leave timer of a node fires. *)
Definition leave_timer (W : World) (nodeId : jstr) : D () :=
  d ← get;
  match om_get nodeId (d_leaveTimers d) with
  | None => skip
  | Some gen =>
      modify (λ d, d <| d_leaveTimers ::= om_delete nodeId |>) ;;
      if bool_decide (om_get nodeId (d_leaveGen d) = Some gen) then _applyPeerLeave W nodeId else skip
  end.

(** ** The chain of works *)

Definition _enqueueSignallingWork (w : Work) : D () := modify (λ d, d <| d_works ::= λ l, l ++ [w] |>).

(** The work is over, or waits. *)
Definition wait_for (a : option Await) (rest : list Peer) : D () :=
  modify (λ d, d <| d_running := match a with Some a => Some (a, rest) | None => None end |>).

(** The loop of [_handlePeersUpdate]. *)
Fixpoint peers_loop (W : World) (peers : list Peer) : D () :=
  match peers with
  | [] => wait_for None []
  | peer :: rest =>
      _clearPendingPeerLeave (dp_nodeId peer) ;;
      d ← get;
      if negb (os_has (dp_nodeId peer) (d_established d)) && negb (om_has (dp_nodeId peer) (d_pending d)) then
        a ← _initiateConnection W peer;
        match a with Some a => wait_for (Some a) rest | None => peers_loop W rest end
      else peers_loop W rest
  end.

(** Run a work up to where it waits or ends. *)
Definition run_work (W : World) (w : Work) : D () :=
  match w with
  | WPeersUpdate peers => peers_loop W peers
  | WPeerJoin peer =>
      _supersedePendingMeshHandshake W (dp_nodeId peer) ;;
      a ← _initiateConnection W peer; wait_for a []
  | WPeerLeave nodeId => _handlePeerLeave nodeId ;; wait_for None []
  | WSignal from signal => a ← _handleSignal W from signal; wait_for a []
  | WReconnect peerId => a ← _maybeReconnectMeshPeer W peerId; wait_for a []
  end.

(** What a work does when what it waits for is there; [None] when it is over. *)
Definition continue (W : World) (a : Await) (r : Answer) : D (option Await) :=
  match a with
  | ATun peer => match r with Failed => lift (Throw (Error "TUN")) | _ => initiate W peer end
  | AWebSocket peer pub =>
      match r with
      | Failed =>
          d ← get;
          if bool_decide (d_mode d = WebSocketMode) then drop_pending (dp_nodeId peer) ;; mret None
          else create_offer peer pub
      | _ => call (CSignal (dp_nodeId peer) (SSessionKey (Some pub))) ;; mret None
      end
  | AOffer peer pub =>
      match r with
      | GotSdp offer =>
          call (CSignal (dp_nodeId peer) (SOffer offer (Some pub) (positive_gen (w_hsGen W (dp_nodeId peer))))) ;; mret None
      | _ => drop_pending (dp_nodeId peer) ;; mret None
      end
  | AAnswer from pub =>
      match r with
      | GotSdp answer =>
          call (CSignal from (SAnswer answer (Some pub) (positive_gen (w_hsGen W from)))) ;;
          quic_key from ;; mret None
      | _ => drop_pending from ;; mret None
      end
  | ARemote from key =>
      match r with
      | Failed => drop_pending from
      | _ => try_catch
               (match key_given key with Some k => complete_session from k ;; quic_key from | None => skip end)
               (λ _, drop_pending from)
      end ;; mret None
  | AIce => mret None
  end.
Definition resume (W : World) (r : Answer) : D () :=
  d ← get;
  match d_running d with
  | None => skip
  | Some (a, rest) =>
      wait_for None [] ;;
      next ← continue W a r;
      match next with Some a => wait_for (Some a) rest | None => peers_loop W rest end
  end.

(** An error of a work ends it; the chain goes on. *)
Definition guarded (m : D ()) : D () := try_catch m (λ _, wait_for None []).

(** ** Events *)

Inductive Event :=
  | PeersUpdated (peers : list Peer)            (* signalling.on('peers-updated') *)
  | PeerJoin (peer : Peer)
  | PeerLeave (nodeId : jstr)
  | GotSignal (fromNodeId : jstr) (signal : Signal)
  | NextWork (W : World)                        (* the chain takes its next work *)
  | Resume (W : World) (r : Answer)             (* the awaited promise settles *)
  | TransportConnected (peerId : jstr)          (* transportManager.on('peer-connected') *)
  | TransportDisconnected (W : World) (peerId : jstr)
  | LocalCandidate (W : World) (peerId : jstr) (candidate : Cand)
  | LeaveTimer (W : World) (nodeId : jstr)
  | ReconnectTimer (peerId : jstr).

Definition on_event (e : Event) : D () :=
  match e with
  | PeersUpdated peers => _enqueueSignallingWork (WPeersUpdate peers)
  | PeerJoin peer =>
      _clearMeshReconnectTimer (dp_nodeId peer) ;;
      _clearPendingPeerLeave (dp_nodeId peer) ;;
      modify (λ d, d <| d_iceGen ::= om_delete (dp_nodeId peer) |>) ;;
      _enqueueSignallingWork (WPeerJoin peer)
  | PeerLeave nodeId => _enqueueSignallingWork (WPeerLeave nodeId)
  | GotSignal from signal => _enqueueSignallingWork (WSignal from signal)
  | NextWork W =>
      d ← get;
      match d_running d, d_works d with
      | None, w :: ws => modify (λ d, d <| d_works := ws |>) ;; guarded (run_work W w)
      | _, _ => skip
      end
  | Resume W r => guarded (resume W r)
  | TransportConnected peerId => on_peer_connected peerId
  | TransportDisconnected W peerId => on_peer_disconnected W peerId
  | LocalCandidate W peerId candidate => on_ice_candidate W peerId candidate
  | LeaveTimer W nodeId => leave_timer W nodeId
  | ReconnectTimer peerId =>
      d ← get;
      when (os_has peerId (d_reconnectTimers d))
        (_clearMeshReconnectTimer peerId ;; _enqueueSignallingWork (WReconnect peerId))
  end.

(** No handler throws ([event_returns] in DiscoveryFlow.v), so an event is a function
    of the state. *)
Definition step (e : Event) (d : PeerDiscovery) : PeerDiscovery := (on_event e d).2.
Definition run (es : list Event) (d : PeerDiscovery) : PeerDiscovery := foldl (λ d e, step e d) d es.

(** [stop]: the chain itself goes on.  [reported]: the peers that [closeAll] reports
    as disconnected. *)
Definition stop (W : World) (reported : list jstr) : D () :=
  modify (λ d, d <| d_leaveTimers := [] |> <| d_reconnectTimers := [] |>) ;;
  call CDisconnect ;;
  call CCloseAll ;;
  for_each (on_peer_disconnected W) reported ;;
  modify (λ d, d <| d_sessions ::= clear_sessions |> <| d_pending := [] |> <| d_established := [] |>
                 <| d_leaveGen := [] |> <| d_iceGen := [] |>).
Definition getConnectedPeers (d : PeerDiscovery) : list jstr := d_established d.
End discovery.
