(* ===== verification/DiscoveryFlow.v ===== *)
(** * What peer discovery promises

    In every history of events: its bookkeeping is consistent, transports are closed
    only for peers that are gone, the chain of works drains. *)

From S2P Require Import Prelude JsMap Bytes JsString Effects Crypto Discovery.
Local Open Scope Z_scope.
#[local] Unset Default Proof Using.

Section facts.
Context {SDP Cand : Type}.
Context `{KeyAgreement}.
Abbreviation Call := (@Call SDP Cand).
Abbreviation Work := (@Work SDP Cand).
Abbreviation Event := (@Event SDP Cand).
Abbreviation PeerDiscovery := (@PeerDiscovery SDP Cand).
Abbreviation D := (@D SDP Cand).

(** ** Bookkeeping *)

(** A leave timer has the current generation, and a pending peer has a session. *)
Record disc_ok (d : PeerDiscovery) : Prop := MkDiscOk {
  ok_timers n g : om_get n (d_leaveTimers d) = Some g → om_get n (d_leaveGen d) = Some g;
  ok_pending p : om_has p (d_pending d) = true → is_Some (om_get p (d_sessions d));
  ok_established : NoDup (d_established d)
}.

(** A change of other fields. *)
Local Ltac same_ok := match goal with Hok : disc_ok _ |- _ => destruct Hok; constructor; done end.

Lemma pending_delete p q (d : PeerDiscovery) m : disc_ok d → om_has q (om_delete p (d_pending d)) = true →
  (∀ r, r ≠ p → om_get r m = om_get r (d_sessions d)) → is_Some (om_get q m).
Proof.
  intros Hd [Hq Hk]%om_has_true%om_elem_keys_delete Hm. rewrite Hm //. apply Hd. by apply om_has_true.
Qed.

Lemma call_ok c : keeps disc_ok (call c : D ()).
Proof. by intros d Hd; same_ok. Qed.
Lemma wait_ok a rest : keeps disc_ok (wait_for a rest : D ()).
Proof. by intros d Hd; same_ok. Qed.
Lemma drop_pending_ok p : keeps disc_ok (drop_pending p : D ()).
Proof. intros d Hd. constructor; cbn; [apply Hd| |apply Hd]. intros q Hq. by eapply pending_delete. Qed.
Lemma clear_leave_ok n : keeps disc_ok (_clearPendingPeerLeave n : D ()).
Proof.
  intros d Hd. constructor; cbn; [|apply Hd..]. intros k g. rewrite om_get_delete om_get_set.
  case_decide; [done|]. apply Hd.
Qed.
Lemma peer_disconnected_ok W p : keeps disc_ok (on_peer_disconnected W p : D ()).
Proof.
  intros d Hd. unfold on_peer_disconnected, mbind, SM_bind, when. cbn. destruct (bool_decide _); cbn; constructor; cbn;
    try apply Hd; try (by apply os_delete_NoDup, Hd);
    intros q Hq; apply (pending_delete p q d); auto; intros; by apply om_get_delete_ne.
Qed.
Lemma tm_close_ok W p : keeps disc_ok (tm_close W p : D ()).
Proof. unfold tm_close. keeps_steps; [apply call_ok|apply peer_disconnected_ok]. Qed.
Lemma drop_peer_ok W p : keeps disc_ok (drop_peer W p : D ()).
Proof.
  intros d Hd. unfold drop_peer. unfold mbind at 1, SM_bind at 1, modify at 1. unfold mbind at 1, SM_bind at 1, remove_session at 1, modify at 1.
  apply tm_close_ok. constructor; cbn; [apply Hd| |by apply os_delete_NoDup, Hd].
  intros q Hq. apply (pending_delete p q d); auto. intros. by apply om_get_delete_ne.
Qed.

(** A pending entry and its new session come together. *)
Definition opened (W : World) (p : jstr) (i : Pending) (d : PeerDiscovery) : PeerDiscovery :=
  (create_session W p (d <| d_pending ::= om_set p i |>)).2.
Lemma opened_ok W p i d : disc_ok d → disc_ok (opened W p i d).
Proof.
  intros Hd. constructor; cbn; [apply Hd| |apply Hd]. intros q. rewrite om_has_get !om_get_set.
  case_decide; [by eexists|]. intros Hq. by apply Hd, om_has_get.
Qed.
Definition new_key (W : World) : jstr := exportPublicKey (new_key_exchange (w_secret W)).
Lemma open_then {A} W p i (k : jstr → D A) d :
  (modify (λ d, d <| d_pending ::= om_set p i |>) ;; pub ← create_session W p; k pub) d =
  k (new_key W) (opened W p i d).
Proof. done. Qed.
Lemma open_try {A} W p i (k : jstr → D A) h d :
  (modify (λ d, d <| d_pending ::= om_set p i |>) ;; try_catch (pub ← create_session W p; k pub) h) d =
  try_catch (k (new_key W)) h (opened W p i d).
Proof. done. Qed.
Lemma create_session_ok W p : keeps disc_ok (create_session W p : D jstr).
Proof.
  intros d Hd. constructor; cbn; [apply Hd| |apply Hd]. intros q Hq. rewrite om_get_set.
  case_decide; [by eexists|]. by apply Hd.
Qed.
Lemma complete_session_ok p pub : keeps disc_ok (complete_session p pub : D ()).
Proof.
  intros d Hd. unfold complete_session, completeSession. destruct (om_get p (d_sessions d)) as [s|] eqn:E; [|done].
  destruct (deriveSessionKey _ _ _); [|done]. constructor; cbn; [apply Hd| |apply Hd].
  intros q Hq. rewrite om_get_set. case_decide; [by eexists|]. by apply Hd.
Qed.
Lemma quic_key_ok p : keeps disc_ok (quic_key p : D ()).
Proof. unfold quic_key. keeps_steps. apply call_ok. Qed.
Lemma complete_given_ok p k : keeps disc_ok (complete_if_given p k : D ()).
Proof. unfold complete_if_given. keeps_steps. apply complete_session_ok. Qed.
Lemma create_offer_ok q pub : keeps disc_ok (create_offer q pub : D (option Await)).
Proof. unfold create_offer. keeps_steps. apply call_ok. Qed.

Lemma initiate_ok W q : keeps disc_ok (initiate W q : D (option Await)).
Proof.
  apply keeps_get_bind. intros d Hd. cbv zeta. destruct (_ || _); [done|]. destruct (negb _ && _); [done|].
  rewrite open_then. apply (opened_ok W (dp_nodeId q) (MkPending true (w_now W))) in Hd. revert Hd.
  destruct (if bool_decide _ then _ else _) as [u|]; [|apply create_offer_ok].
  apply keeps_bind; [apply call_ok|]. intros. apply keeps_ret.
Qed.
Lemma initiateConnection_ok W q : keeps disc_ok (_initiateConnection W q : D (option Await)).
Proof. unfold _initiateConnection. keeps_steps. apply initiate_ok. Qed.
Lemma handleOffer_ok W p o k g : keeps disc_ok (_handleOffer W p o k g : D (option Await)).
Proof.
  unfold _handleOffer. keeps_step.
  - unfold set_ice_gen. keeps_steps. destruct g; same_ok.
  - keeps_step; [keeps_steps|]. intros d Hd. rewrite open_try. apply keeps_try_catch; [|intros; by keeps_steps; apply drop_pending_ok|by apply opened_ok].
    keeps_steps; [apply complete_given_ok|apply call_ok].
Qed.
Lemma session_key_ok W p k : keeps disc_ok (_handleSessionKey W p k : D ()).
Proof.
  unfold _handleSessionKey. keeps_steps; [apply create_session_ok|apply complete_session_ok|apply call_ok].
Qed.
Lemma set_ice_ok p g : keeps disc_ok (set_ice_gen p g : D ()).
Proof. intros d Hd. destruct g; same_ok. Qed.
Lemma handleSignal_ok W p sg : keeps disc_ok (_handleSignal W p sg : D (option Await)).
Proof.
  destruct sg; cbn [_handleSignal].
  - apply handleOffer_ok.
  - unfold _handleAnswer. keeps_steps; [apply set_ice_ok|apply call_ok].
  - unfold ice_candidate. apply keeps_get_bind. intros d Hd. cbv zeta. destruct (stale_ice _ _); [done|].
    assert (∀ (f : D ()), keeps disc_ok f → keeps disc_ok (f ;; call (CAddIce p candidate) ;; mret (Some AIce))) as Hf.
    { intros f Hf. apply keeps_bind; [done|]. intros []. keeps_steps. apply call_ok. }
    apply Hf; [|done]. keeps_steps. by same_ok.
  - keeps_steps. apply session_key_ok.
  - unfold _handleSessionKeyAck. keeps_steps. apply complete_given_ok.
  - keeps_steps.
Qed.

Lemma bump_ok n d : disc_ok d → om_get n (d_leaveTimers d) = None → disc_ok (bump_gen n d).2.
Proof.
  intros Hd Hn. constructor; cbn; [|apply Hd..]. intros k g Hk. rewrite om_get_set_ne; [by apply Hd|].
  intros ->. congruence.
Qed.
Lemma peerLeave_eq n (d : PeerDiscovery) : ∃ gens G, om_get n gens = Some G ∧
  (∀ k, k ≠ n → om_get k gens = om_get k (d_leaveGen d)) ∧
  (_handlePeerLeave n d).2 = d <| d_reconnectTimers ::= os_delete n |> <| d_leaveGen := gens |>
                               <| d_leaveTimers := om_set n G (om_delete n (d_leaveTimers d)) |>.
Proof.
  set (d1 := (bump_gen n ((_clearPendingPeerLeave n) d).2).2). exists (d_leaveGen d1), (default 0 (om_get n (d_leaveGen d1))).
  split_and!; [|intros k Hk|reflexivity]; cbn; [by rewrite om_get_set_eq|by rewrite !om_get_set_ne].
Qed.
Lemma peerLeave_ok n : keeps disc_ok (_handlePeerLeave n : D ()).
Proof.
  intros d Hd. destruct (peerLeave_eq n d) as (gens & G & Hn & Ho & ->). constructor; cbn; [|apply Hd..].
  intros k g. destruct (decide (k = n)) as [->|Hk]; [by rewrite om_get_set_eq Hn|].
  rewrite om_get_set_ne // om_get_delete_ne // Ho //. apply Hd.
Qed.

(** Closing transports does not touch the timers. *)
Lemma drop_timers W p n : keeps (λ d : PeerDiscovery, om_get n (d_leaveTimers d) = None) (drop_peer W p).
Proof.
  unfold drop_peer, tm_close, on_peer_disconnected, remove_session, _updateTopology, call, _clearMeshReconnectTimer. keeps_steps; done.
Qed.
Lemma leave_timer_ok W n : keeps disc_ok (leave_timer W n : D ()).
Proof.
  intros d Hd. unfold leave_timer. rewrite get_bind. destruct (om_get n (d_leaveTimers d)) as [g|] eqn:Eg; [|done].
  rewrite modify_bind.
  set (d1 := d <| d_leaveTimers ::= om_delete n |> : PeerDiscovery).
  assert (disc_ok d1) as Hd1.
  { constructor; cbn; [|apply Hd..]. intros k h. rewrite om_get_delete. case_decide; [done|]. apply Hd. }
  assert (om_get n (d_leaveTimers d1) = None) as Hn by apply om_get_delete_eq.
  destruct (bool_decide _); [|done]. clearbody d1. clear d Hd Eg. unfold _applyPeerLeave.
  destruct (bool_decide _); [done|]. destruct (w_isConnected _ _); [done|].
  pose proof (drop_peer_ok W n d1 Hd1) as Hd2. pose proof (drop_timers W n n d1 Hn) as Hn2.
  unfold mbind at 1, SM_bind at 1. destruct (drop_peer W n d1) as [[[]|e] d2]; [|done].
  cbn in Hd2, Hn2 |- *. rewrite modify_bind. constructor; cbn; [|apply Hd2..]. intros k h Hk. rewrite om_get_delete_ne; [by apply Hd2|]. intros ->. cbn in Hk. congruence.
Qed.

Lemma peers_loop_ok W ps : keeps disc_ok (peers_loop W ps : D ()).
Proof.
  induction ps as [|q ps IH]; cbn [peers_loop]; [apply wait_ok|].
  keeps_step; [apply clear_leave_ok|]. keeps_steps; auto using wait_ok, initiateConnection_ok.
Qed.
Lemma supersede_ok W n : keeps disc_ok (_supersedePendingMeshHandshake W n : D ()).
Proof. unfold _supersedePendingMeshHandshake. keeps_steps. apply drop_peer_ok. Qed.
Lemma run_work_ok W w : keeps disc_ok (run_work W w : D ()).
Proof.
  destruct w; cbn [run_work]; [apply peers_loop_ok|..]; unfold _maybeReconnectMeshPeer; keeps_steps;
    auto using supersede_ok, initiateConnection_ok, wait_ok, peerLeave_ok, handleSignal_ok.
Qed.
Lemma continue_ok W a r : keeps disc_ok (continue W a r : D (option Await)).
Proof.
  destruct a, r; cbn [continue]; keeps_steps;
    auto using initiate_ok, call_ok, drop_pending_ok, create_offer_ok, quic_key_ok, complete_session_ok.
Qed.
Lemma guarded_ok (m : D ()) : keeps disc_ok m → keeps disc_ok (guarded m).
Proof. intros Hm. unfold guarded. keeps_steps; auto using wait_ok. Qed.

Lemma enqueue_ok w : keeps disc_ok (_enqueueSignallingWork w : D ()).
Proof. by intros d Hd; same_ok. Qed.
Lemma clear_reconnect_ok p : keeps disc_ok (_clearMeshReconnectTimer p : D ()).
Proof. by intros d Hd; same_ok. Qed.
Lemma peer_connected_ok p : keeps disc_ok (on_peer_connected p : D ()).
Proof.
  unfold on_peer_connected, _updateTopology. keeps_steps; auto using call_ok, clear_reconnect_ok, clear_leave_ok.
  constructor; cbn; [apply H0| |by apply os_add_NoDup, H0]. intros q Hq. by eapply pending_delete.
Qed.

Lemma event_ok e : keeps disc_ok (on_event e : D ()).
Proof.
  destruct e; cbn [on_event]; [| | | | |apply guarded_ok| | | | |]; unfold resume, on_ice_candidate.
  5: { apply keeps_get_bind. intros d Hd. destruct (d_running d); [done|]. destruct (d_works d); [done|].
       apply (guarded_ok _ (run_work_ok W w)). same_ok. }
  all: keeps_steps; auto using clear_reconnect_ok, clear_leave_ok, enqueue_ok, peer_connected_ok, peer_disconnected_ok,
    call_ok, leave_timer_ok, wait_ok, continue_ok, peers_loop_ok.
  by same_ok.
Qed.

(** ** What no handler changes

    Predicates that the elementary updates keep: all operations keep them too, once
    closing a transport ([P] of a [CClose]) or arming a leave timer is accounted for. *)

Definition is_close (c : Call) : bool := match c with CClose _ => true | _ => false end.

Record closed (P : Call → Prop) (I : PeerDiscovery → Prop) : Prop := MkClosed {
  cl_call c d : P c → I d → I (d <| d_out ::= λ l, l ++ [c] |>);
  cl_sessions m d : I d → I (d <| d_sessions := m |>);
  cl_pending m d : I d → I (d <| d_pending := m |>);
  cl_unarm n d : I d → I (d <| d_leaveTimers ::= om_delete n |>);
  cl_gen m d : I d → I (d <| d_leaveGen := m |>);
  cl_reconnect m d : I d → I (d <| d_reconnectTimers := m |>);
  cl_ice m d : I d → I (d <| d_iceGen := m |>);
  cl_running r d : I d → I (d <| d_running := r |>)
}.

Definition processes_leave (n : jstr) (e : Event) (d : PeerDiscovery) : Prop :=
  ∃ W ws, e = NextWork W ∧ d_running d = None ∧ d_works d = WPeerLeave n :: ws.
(** The event lets go of [p]: its leave timer fires while nobody lists it and no
    transport is connected, or it joins again while a handshake with it is stale. *)
Definition lets_go (p : jstr) (e : Event) (d : PeerDiscovery) : Prop :=
  match e with
  | LeaveTimer W n =>
      n = p ∧ is_Some (om_get p (d_leaveTimers d)) ∧ w_getPeer W p = None ∧ w_isConnected W p = false
  | NextWork W =>
      ∃ q ws pe, d_running d = None ∧ d_works d = WPeerJoin q :: ws ∧ dp_nodeId q = p ∧
        p ∉ d_established d ∧ om_get p (d_pending d) = Some pe ∧ _stalePendingMeshMs <= w_now W - started pe
  | _ => False
  end.

Section closed.
Context (P : Call → Prop) (other_calls : ∀ c, is_close c = false → P c) (I : PeerDiscovery → Prop) (C : closed P I).

Lemma closed_call c : P c → keeps I (call c : D ()).
Proof. intros Hc d. by apply (cl_call P I C). Qed.
Lemma closed_create_session W p : keeps I (create_session W p : D jstr).
Proof. intros d Hd. by apply (cl_sessions P I C). Qed.
Lemma closed_complete_session p pub : keeps I (complete_session p pub : D ()).
Proof.
  intros d Hd. unfold complete_session. destruct (completeSession _ _ _) as [[]|]; [|done]. by apply (cl_sessions P I C).
Qed.
Local Ltac upd := by first
  [ apply (cl_sessions P I C) | apply (cl_pending P I C) | apply (cl_unarm P I C)
  | apply (cl_gen P I C) | apply (cl_reconnect P I C) | apply (cl_ice P I C) | apply (cl_running P I C) ].
Local Ltac tac := keeps_steps; try (by apply closed_call, other_calls); try upd;
  auto using closed_create_session, closed_complete_session.

(** The operations that touch the established peers. *)
Definition unest (p : jstr) : Prop := ∀ d, I d → I (d <| d_established ::= os_delete p |>).
Lemma closed_disconnected W p : unest p → keeps I (on_peer_disconnected W p : D ()).
Proof.
  intros Hest. unfold on_peer_disconnected, remove_session, _updateTopology, _clearMeshReconnectTimer. tac.
Qed.
Lemma closed_drop W p : unest p → P (CClose p) → keeps I (drop_peer W p : D ()).
Proof.
  intros Hest Hp. unfold drop_peer, remove_session, tm_close. tac; [|by apply closed_call|by apply closed_disconnected].
  by apply Hest, (cl_pending P I C).
Qed.
Lemma closed_initiate W q : keeps I (initiate W q : D (option Await)).
Proof. unfold initiate, create_offer. tac. Qed.
Lemma closed_initiateConnection W q : keeps I (_initiateConnection W q : D (option Await)).
Proof. unfold _initiateConnection. tac. apply closed_initiate. Qed.
Lemma closed_clear_leave n : keeps I (_clearPendingPeerLeave n : D ()).
Proof. unfold _clearPendingPeerLeave, bump_gen. tac. Qed.
Lemma closed_peers_loop W ps : keeps I (peers_loop W ps : D ()).
Proof.
  induction ps as [|q ps IH]; cbn [peers_loop]; unfold wait_for; tac; auto using closed_clear_leave, closed_initiateConnection.
Qed.
Lemma closed_signal W p sg : keeps I (_handleSignal W p sg : D (option Await)).
Proof.
  destruct sg; cbn [_handleSignal]; unfold _handleOffer, _handleAnswer, _handleSessionKey, _handleSessionKeyAck,
    complete_if_given, ice_candidate, set_ice_gen, drop_pending; tac.
  all: destruct hsGen; upd.
Qed.
Lemma closed_continue W a r : keeps I (continue W a r : D (option Await)).
Proof. destruct a, r; cbn [continue]; unfold drop_pending, create_offer, quic_key; tac; apply closed_initiate. Qed.
Lemma closed_guarded (m : D ()) : keeps I m → keeps I (guarded m).
Proof. intros Hm. unfold guarded, wait_for. by tac. Qed.
Lemma closed_resume W r : keeps I (guarded (resume W r) : D ()).
Proof. apply closed_guarded. unfold resume, wait_for. tac; auto using closed_continue, closed_peers_loop. Qed.
Lemma closed_connected p : (∀ d, I d → I (d <| d_established ::= os_add p |>)) → keeps I (on_peer_connected p : D ()).
Proof.
  intros Hest. unfold on_peer_connected, _updateTopology, _clearMeshReconnectTimer. tac; try apply closed_clear_leave.
  apply (cl_pending P I C). by apply Hest.
Qed.
Lemma closed_supersede_at W n d :
  (∀ pe, n ∉ d_established d → om_get n (d_pending d) = Some pe → _stalePendingMeshMs <= w_now W - started pe →
     keeps I (drop_peer W n : D ())) → I d → I (_supersedePendingMeshHandshake W n d).2.
Proof.
  intros Hc Hd. unfold _supersedePendingMeshHandshake. rewrite get_bind.
  destruct (os_has n (d_established d)) eqn:Ee; [done|]. destruct (om_get n (d_pending d)) as [pe|] eqn:Ep; [|done].
  unfold when. destruct (Z.leb_spec _stalePendingMeshMs (w_now W - started pe)); [|done].
  eapply Hc; [by apply os_has_false|done..].
Qed.
Lemma closed_supersede W n : keeps I (drop_peer W n : D ()) → keeps I (_supersedePendingMeshHandshake W n : D ()).
Proof. intros Hp d. by apply closed_supersede_at. Qed.
Lemma closed_applyPeerLeave W n : keeps I (drop_peer W n : D ()) → keeps I (_applyPeerLeave W n : D ()).
Proof. intros Hp. unfold _applyPeerLeave. by tac. Qed.
Lemma closed_peerLeave n : (∀ g d, I d → I (d <| d_leaveTimers ::= om_set n g |>)) → keeps I (_handlePeerLeave n : D ()).
Proof. intros Ha. unfold _handlePeerLeave, _clearMeshReconnectTimer, bump_gen. tac. apply closed_clear_leave. Qed.

(** A work that may be a leave. *)
Lemma closed_run_work W w : (∀ n, w = WPeerLeave n → keeps I (_handlePeerLeave n : D ())) →
  (∀ p, keeps I (drop_peer W p : D ())) →
  keeps I (run_work W w : D ()).
Proof.
  intros Hl Hp. destruct w; cbn [run_work]; unfold _maybeReconnectMeshPeer, wait_for; tac;
    auto using closed_peers_loop, closed_supersede, closed_initiateConnection, closed_signal.
Qed.

(** One work, which starts with the state [d]. *)
Lemma closed_next W w ws d : d_running d = None → d_works d = w :: ws →
  (∀ n, processes_leave n (NextWork W) d → keeps I (_handlePeerLeave n : D ())) →
  (∀ p, lets_go p (NextWork W) d → keeps I (drop_peer W p : D ())) →
  I (d <| d_works := ws |>) → I (guarded (run_work W w) (d <| d_works := ws |>)).2.
Proof.
  intros Er Ew Hl Hp Hd. destruct w as [ps|q|n|p sg|p]; cbn [run_work].
  2: { unfold guarded. eapply (keeps_try_at I); [|intros; by unfold wait_for; tac]. apply (keeps_bind_at I).
    - apply closed_supersede_at; [|done]. intros pe H1 H2 H3. apply Hp. exists q, ws, pe. by split_and!.
    - intros []. unfold wait_for. tac. apply closed_initiateConnection. }
  all: apply closed_guarded; [|done]; unfold _maybeReconnectMeshPeer, wait_for; tac;
    auto using closed_peers_loop, closed_signal, closed_initiateConnection.
  apply Hl. by exists W, ws.
Qed.

Lemma closed_event e d : (∀ ws d, I d → I (d <| d_works := ws |>)) →
  (∀ n, processes_leave n e d → keeps I (_handlePeerLeave n : D ())) →
  (∀ p, e = TransportConnected p → keeps I (on_peer_connected p : D ())) →
  (∀ W p, e = TransportDisconnected W p → keeps I (on_peer_disconnected W p : D ())) →
  (∀ W p, lets_go p e d → keeps I (drop_peer W p : D ())) → I d → I (step e d).
Proof.
  intros Hw Hl Hc Hdis Hp Hd. unfold step.
  assert (∀ w : Work, keeps I (_enqueueSignallingWork w : D ())) as He by (intros w d' Hd'; by apply (Hw _ _ Hd')).
  destruct e as [| | | |W|W r|p|W p|W p c|W n|p]; cbn [on_event].
  - by apply He.
  - clear Hl Hc Hdis Hp. revert d Hd. change (keeps I (on_event (PeerJoin peer) : D ())). cbn [on_event].
    unfold _clearMeshReconnectTimer. tac. apply closed_clear_leave.
  - by apply He.
  - by apply He.
  - rewrite get_bind. destruct (d_running d) eqn:Er; [done|]. destruct (d_works d) as [|w ws] eqn:Ew; [done|].
    rewrite modify_bind. apply closed_next; auto.
  - by apply closed_resume.
  - by apply (Hc p).
  - by apply (Hdis W p).
  - by apply closed_call; [apply other_calls|].
  - unfold leave_timer. rewrite get_bind. destruct (om_get n (d_leaveTimers d)) as [g|] eqn:Eg; [|done]. rewrite modify_bind.
    apply (cl_unarm P I C n) in Hd. destruct (bool_decide _); [|done].
    destruct (decide (w_getPeer W n = None ∧ w_isConnected W n = false)) as [[Hg Hi]|Hno].
    + apply closed_applyPeerLeave; [|done]. apply Hp. cbn. rewrite Eg. by split_and!.
    + unfold _applyPeerLeave. case_bool_decide as Hg; [done|]. destruct (w_isConnected W n) eqn:Ec; [done|].
      destruct Hno. split; [|done]. by apply eq_None_not_Some.
  - rewrite get_bind. unfold when, _clearMeshReconnectTimer. destruct (os_has _ _); [|done]. rewrite modify_bind.
    apply He. by apply (cl_reconnect P I C).
Qed.
End closed.

(** ** What is asked of the transports *)

(** The calls made since [o] are allowed. *)
Definition calls (P : Call → Prop) (o : list Call) (d : PeerDiscovery) : Prop := ∃ os, d_out d = o ++ os ∧ Forall P os.
Lemma calls_closed P o : closed P (calls P o).
Proof.
  constructor; try done. intros c d Hc (os & Ho & Hos). exists (os ++ [c]). cbn. rewrite Ho -app_assoc.
  split; [done|]. apply Forall_app_2; [done|]. by apply Forall_singleton.
Qed.

(** An event only makes calls that are allowed, when closing is allowed for the peers it
    lets go. *)
Lemma calls_event (P : Call → Prop) e d : (∀ c, is_close c = false → P c) →
  (∀ p, lets_go p e d → P (CClose p)) → calls P (d_out d) (step e d).
Proof.
  intros Ho Hp. pose proof (calls_closed P (d_out d)) as C. apply (closed_event P Ho _ C); [done|..].
  - intros n _. by apply (closed_peerLeave P _ C).
  - intros p _. by apply (closed_connected P Ho _ C).
  - intros W p _. apply (closed_disconnected P Ho _ C). by intros d'.
  - intros W p Hl. apply (closed_drop P Ho _ C); [by intros d'|by apply Hp].
  - exists []. by rewrite app_nil_r.
Qed.

(** ** When a leave timer is armed *)

(** [n] is back. *)
Definition revives (n : jstr) (e : Event) : Prop :=
  match e with TransportConnected p => p = n | PeerJoin q => dp_nodeId q = n | _ => False end.

Section unarmed.
Context (n : jstr).
Definition unarmed (d : PeerDiscovery) : Prop := om_get n (d_leaveTimers d) = None.

Lemma unarmed_closed : closed (λ _, True) unarmed.
Proof. constructor; try done. intros m d Hd. unfold unarmed in *. cbn. rewrite om_get_delete. by case_decide. Qed.
Lemma unarmed_peerLeave p : p ≠ n → keeps unarmed (_handlePeerLeave p : D ()).
Proof.
  intros Hp. eapply closed_peerLeave; [apply unarmed_closed|]. intros g d Hd. unfold unarmed. cbn.
  by rewrite om_get_set_ne.
Qed.

Lemma unarmed_event e d : unarmed d → ¬ processes_leave n e d → unarmed (step e d).
Proof.
  intros Hd He. pose proof unarmed_closed as C. assert (∀ c, is_close c = false → True) as Ho by done.
  apply (closed_event _ Ho _ C); try done.
  - intros m Hm. apply unarmed_peerLeave. by intros ->.
  - intros p _. by apply (closed_connected _ Ho _ C).
  - intros W p _. apply (closed_disconnected _ Ho _ C). by intros d'.
  - intros W p _. apply (closed_drop _ Ho _ C); [by intros d'|done].
Qed.
Lemma revived_unarmed e d : revives n e → unarmed (step e d).
Proof.
  destruct e as [|q| | | | |p| | | |]; try done; cbn; intros Hn; unfold unarmed; rewrite -Hn;
    [apply (om_get_delete_eq (dp_nodeId q))|apply (om_get_delete_eq p)].
Qed.
End unarmed.

Lemma run_app es es' (d : PeerDiscovery) : run (es ++ es') d = run es' (run es d).
Proof. apply foldl_app. Qed.

(** An armed leave timer goes back to a leave that was processed, with no join and no
    connection since. *)
Lemma armed_since n es (d0 : PeerDiscovery) : unarmed n d0 → is_Some (om_get n (d_leaveTimers (run es d0))) →
  ∃ es1 W es2, es = es1 ++ NextWork W :: es2 ∧ processes_leave n (NextWork W) (run es1 d0) ∧
    Forall (λ e, ¬ revives n e) es2.
Proof.
  intros H0. induction es as [|e es IH] using rev_ind; [unfold unarmed in H0; cbn; rewrite H0; by intros []|].
  rewrite run_app. change (run [e] (run es d0)) with (step e (run es d0)). intros Hs.
  assert (¬ revives n e) as Hr.
  { intros Hr%(revived_unarmed n e (run es d0)). unfold unarmed in Hr. rewrite Hr in Hs. by destruct Hs. }
  destruct (om_get n (d_leaveTimers (run es d0))) as [g|] eqn:Hb.
  - destruct (IH ltac:(by eexists)) as (es1 & W & es2 & -> & Hp & Hf). exists es1, W, (es2 ++ [e]).
    rewrite -app_assoc. split_and!; [done..|]. apply Forall_app_2; [done|]. by apply Forall_singleton.
  - assert (processes_leave n e (run es d0) ∨ ¬ processes_leave n e (run es d0)) as [Hl|Hl].
    { destruct e, (d_running (run es d0)) as [a|] eqn:Er, (d_works (run es d0)) as [|[|q|m| |] ws] eqn:Ew;
        try (right; intros (? & ? & ? & ? & ?); congruence).
      destruct (decide (m = n)) as [->|Hm]; [left; by exists W, ws|right; intros (? & ? & ? & ? & ?); congruence]. }
    + destruct Hl as (W & ws & -> & Hrest). exists es, W, []. split_and!; [done|by exists W, ws|constructor].
    + apply (unarmed_event n e _ Hb) in Hl. unfold unarmed in Hl. rewrite Hl in Hs. by destruct Hs.
Qed.

(** ** The chain drains *)

(** How many more times a work may wait. *)
Definition await_weight (a : Await) : nat :=
  match a with ATun _ => 3 | AWebSocket _ _ => 2 | _ => 1 end.
Definition next_weight (a : option Await) : nat := match a with Some a => await_weight a | None => 0 end.
Definition run_weight (d : PeerDiscovery) : nat :=
  match d_running d with Some (a, rest) => await_weight a + 3 * length rest | None => 0 end.
Definition work_weight (w : Work) : nat := match w with WPeersUpdate ps => S (3 * length ps) | _ => 4 end.
Definition load (d : PeerDiscovery) : nat := run_weight d + sum_list_with work_weight (d_works d).

Lemma initiate_weight W q (d : PeerDiscovery) : wlp (initiate W q) (λ a _, next_weight a <= 2)%nat d.
Proof.
  unfold initiate, create_offer. apply wlp_then. intros d1 d2. cbv zeta. wlp_steps; try (simpl; lia).
  apply wlp_any. intros pub d3. wlp_steps; try apply wlp_then; intros; try apply wlp_ret; simpl; lia.
Qed.
Lemma initiateConnection_weight W q (d : PeerDiscovery) : wlp (_initiateConnection W q) (λ a _, next_weight a <= 3)%nat d.
Proof.
  unfold _initiateConnection. apply wlp_then. intros d1 d2. wlp_steps; [simpl; lia|].
  eapply wlp_mono; [apply initiate_weight|]. simpl. lia.
Qed.
Lemma signal_weight W p sg (d : PeerDiscovery) : wlp (_handleSignal W p sg) (λ a _, next_weight a <= 1)%nat d.
Proof.
  destruct sg; cbn [_handleSignal]; unfold _handleOffer, _handleAnswer, ice_candidate.
  - apply wlp_then. intros. wlp_step; [by apply wlp_ret; simpl; lia|]. apply wlp_then. intros.
    apply wlp_try_catch; intros; repeat (apply wlp_then; intros); apply wlp_ret; simpl; lia.
  - repeat (apply wlp_then; intros). apply wlp_ret. simpl; lia.
  - apply wlp_then. intros. cbv zeta. wlp_step; [by apply wlp_ret; simpl; lia|].
    repeat (apply wlp_then; intros). apply wlp_ret. simpl; lia.
  - apply wlp_then. intros. apply wlp_ret. simpl; lia.
  - apply wlp_then. intros. apply wlp_ret. simpl; lia.
  - apply wlp_ret. simpl; lia.
Qed.
Lemma continue_weight W a r (d : PeerDiscovery) : wlp (continue W a r) (λ o _, next_weight o < await_weight a)%nat d.
Proof.
  destruct a as [q|q pub|q pub|p pub|p k|]; [destruct r as [|sdp|]; cbn [continue]|..].
  1,2: eapply wlp_mono; [apply initiate_weight|simpl; lia].
  1: by apply wlp_lift.
  all: destruct r; cbn [continue]; unfold create_offer; repeat (apply wlp_then; intros); wlp_steps;
    repeat (apply wlp_then; intros); try apply wlp_ret; simpl; lia.
Qed.
Lemma peers_loop_weight W ps (d : PeerDiscovery) : wlp (peers_loop W ps) (λ _ d', run_weight d' <= 3 * length ps)%nat d.
Proof.
  revert d. induction ps as [|q ps IH]; intros d; cbn [peers_loop]; [apply wlp_modify; cbn; lia|].
  apply wlp_then. intros _ d1. apply wlp_then. intros d2 d3. wlp_step.
  - apply wlp_bind. eapply wlp_mono; [apply initiateConnection_weight|]. intros [a|] d4 Ha.
    + apply wlp_modify. cbn in *. lia.
    + eapply wlp_mono; [apply IH|]. cbn [length]. lia.
  - eapply wlp_mono; [apply IH|]. cbn [length]. lia.
Qed.
Lemma wait_weight a (d : PeerDiscovery) : run_weight ((wait_for a [] d).2) = next_weight a.
Proof. destruct a; cbn; lia. Qed.
Lemma run_work_weight W w (d : PeerDiscovery) : wlp (run_work W w) (λ _ d', run_weight d' < work_weight w)%nat d.
Proof.
  assert (∀ (m : D (option Await)) d, (∀ d, wlp m (λ a _, next_weight a <= 3)%nat d) →
    wlp (a ← m; wait_for a []) (λ _ d', run_weight d' < 4)%nat d) as Hw.
  { intros m d0 Hm. apply wlp_bind. eapply wlp_mono; [apply Hm|]. intros a d' Ha. apply wlp_modify.
    pose proof (wait_weight a d'). cbn in *. lia. }
  destruct w; cbn [run_work work_weight].
  - eapply wlp_mono; [apply peers_loop_weight|]. simpl. lia.
  - apply wlp_then. intros. apply Hw, initiateConnection_weight.
  - apply wlp_then. intros. apply wlp_modify. cbn. lia.
  - apply Hw. intros d0. eapply wlp_mono; [apply signal_weight|]. simpl. lia.
  - apply Hw. intros d0. unfold _maybeReconnectMeshPeer. wlp_step; [|by apply wlp_ret; simpl; lia].
    apply wlp_then. intros. wlp_step; [by apply wlp_ret; simpl; lia|]. apply initiateConnection_weight.
Qed.
Lemma guarded_weight (m : D ()) k (d : PeerDiscovery) :
  wlp m (λ _ d', run_weight d' < k)%nat d → (0 < k)%nat → (run_weight (guarded m d).2 < k)%nat.
Proof. unfold wlp, guarded, try_catch. destruct (m d) as [[[]|e] d']; [done|]. intros _ Hk. cbn. lia. Qed.

Lemma works_closed ws : closed (λ _, True) (λ d, d_works d = ws).
Proof. by constructor. Qed.
Lemma resume_works W r (d : PeerDiscovery) : d_works (guarded (resume W r) d).2 = d_works d.
Proof. by apply (closed_resume (λ _, True) (λ _ _, Logic.I) _ (works_closed (d_works d))). Qed.
Lemma work_works W w (d : PeerDiscovery) : d_works (guarded (run_work W w) d).2 = d_works d.
Proof.
  pose proof (works_closed (d_works d)) as C. eapply (closed_guarded (λ _, True)); [apply C| |done].
  apply (closed_run_work _ (λ _ _, Logic.I) _ C); [intros n ->|intros p; apply (closed_drop _ (λ _ _, Logic.I) _ C); [by intros d'|done]].
  by eapply closed_peerLeave; [apply C|].
Qed.
Lemma event_out e (d : PeerDiscovery) : ∃ os, d_out (step e d) = d_out d ++ os.
Proof. destruct (calls_event (λ _, True) e d) as (os & -> & _); [done..|]. by exists os. Qed.

(** The chain takes its next step: the awaited promise settles, or the next work starts. *)
Definition tick (t : World * Answer) (d : PeerDiscovery) : PeerDiscovery :=
  match d_running d with Some _ => step (Resume t.1 t.2) d | None => step (NextWork t.1) d end.

Lemma tick_load t d : tick t d = d ∧ d_running d = None ∧ d_works d = [] ∨ (load (tick t d) < load d)%nat.
Proof.
  destruct t as [W r]. unfold tick, load, step. cbn [fst snd on_event].
  destruct (d_running d) as [[a rest]|] eqn:Er; [right|].
  - rewrite resume_works. enough (run_weight (guarded (resume W r) d).2 < run_weight d)%nat by lia.
    assert (0 < run_weight d)%nat as Hpos by (unfold run_weight; rewrite Er; destruct a; simpl; lia).
    apply guarded_weight; [|done]. unfold resume. apply wlp_bind, wlp_get. rewrite Er. apply wlp_then. intros [] d1.
    apply wlp_bind. eapply wlp_mono; [apply continue_weight|]. intros [b|] d2 Hb.
    + apply wlp_modify. unfold run_weight in *. rewrite Er. cbn in *. lia.
    + eapply wlp_mono; [apply peers_loop_weight|]. intros ? d3 Hd3. unfold run_weight in *. rewrite Er. simpl in *.
      destruct a; simpl; lia.
  - rewrite get_bind Er. destruct (d_works d) as [|w ws] eqn:Ew; [by left|right]. rewrite modify_bind.
    set (d1 := d <| d_works := ws |>).
    rewrite (work_works W w d1). change (d_works d1) with ws. unfold run_weight at 2. rewrite Er. cbn [sum_list_with].
    assert (run_weight (guarded (run_work W w) d1).2 < work_weight w)%nat; [|lia].
    apply guarded_weight; [apply run_work_weight|]. destruct w; simpl; lia.
Qed.

Lemma event_returns e (d : PeerDiscovery) : (on_event e d).1 = Ret tt.
Proof.
  assert (∀ m d, (guarded m d : outcome () * PeerDiscovery).1 = Ret tt) as Hg.
  { intros m d'. unfold guarded, try_catch. by destruct (m d') as [[[]|] d'']. }
  destruct e as [| | | |W|W r|p|W p|W p c|W n|p]; cbn [on_event]; try done.
  - rewrite get_bind. destruct (d_running d); [done|]. destruct (d_works d); [done|]. by rewrite modify_bind Hg.
  - unfold on_peer_disconnected, mbind, SM_bind, when. cbn. by destruct (bool_decide _).
  - unfold leave_timer, _applyPeerLeave, drop_peer, tm_close, on_peer_disconnected, remove_session, _updateTopology,
      _clearMeshReconnectTimer, call, mbind, SM_bind, when, get, modify, skip, mret, SM_ret.
    cbn. repeat (case_match; cbn; try done).
  - rewrite get_bind. by destruct (os_has _ _).
Qed.

(** Running what returns. *)
Lemma guarded_ret (m : D ()) d d' : m d = (Ret tt, d') → guarded m d = (Ret tt, d').
Proof. intros Hm. unfold guarded, try_catch. by rewrite Hm. Qed.
Lemma run_bind {A B} (m : D A) (k : A → D B) d a d' : m d = (Ret a, d') → (m ≫= k) d = k a d'.
Proof. intros Hm. unfold mbind, SM_bind. by rewrite Hm. Qed.
End facts.

(** ** Theorems *)

(** in every history of messages, transport events, timers and work steps: a
    leave timer that is armed carries the current generation, so that when it fires
    the leave is applied (the generations never stop one: every join and every
    connection clears the timer itself); a peer with a handshake pending has a
    session; and no peer is listed twice among the established ones. *)
Theorem discovery_consistent {SDP Cand} `{KeyAgreement} nodeId mode ds tun (es : list (@Event SDP Cand)) :
  let d := run es (new_discovery nodeId mode ds tun) in
  (∀ W n, is_Some (om_get n (d_leaveTimers d)) →
     leave_timer W n d = _applyPeerLeave W n (d <| d_leaveTimers ::= om_delete n |>)) ∧
  (∀ p, om_has p (d_pending d) = true → is_Some (om_get p (d_sessions d))) ∧
  NoDup (d_established d).
Proof.
  intros d. assert (disc_ok d) as [Ht Hp Hn].
  { unfold d, run. apply foldl_inv; [by intros d' e; apply event_ok|]. constructor; [done..|]. apply NoDup_nil_2. }
  split_and!; [|done..]. intros W n [g Hg]. unfold leave_timer. rewrite get_bind Hg modify_bind bool_decide_eq_true_2 //. by apply Ht.
Qed.

(** C12: a transport is closed only when its peer is gone.  In every history, an event
    closes the transports of a peer only if the peer is neither listed by the
    signalling server nor connected, and its leave timer fires, armed by a peer-leave
    after which the peer neither joined nor connected; or if it joins again while a
    handshake with it, not established, has been pending for at least 20 seconds. *)
Theorem close_only_departed {SDP Cand} `{KeyAgreement} nodeId mode ds tun (es : list (@Event SDP Cand)) e p :
  let d := run es (new_discovery nodeId mode ds tun) in
  CClose p ∈ drop (length (d_out d)) (d_out (step e d)) →
  (∃ W es1 W1 es2, e = LeaveTimer W p ∧ w_getPeer W p = None ∧ w_isConnected W p = false ∧
     es = es1 ++ NextWork W1 :: es2 ∧ processes_leave p (NextWork W1) (run es1 (new_discovery nodeId mode ds tun)) ∧
     Forall (λ e', ¬ revives p e') es2) ∨
  (∃ W q ws pe, e = NextWork W ∧ d_running d = None ∧ d_works d = WPeerJoin q :: ws ∧ dp_nodeId q = p ∧
     p ∉ d_established d ∧ om_get p (d_pending d) = Some pe ∧ 20000 <= w_now W - started pe).
Proof.
  intros d Hin. destruct (calls_event (λ c, ∀ q, c = CClose q → lets_go q e d) e d) as (os & Ho & Hos).
  - by intros c Hc q ->.
  - by intros q Hq q' [= <-].
  - rewrite Ho drop_app_length in Hin. rewrite Forall_forall in Hos. specialize (Hos _ Hin p eq_refl).
    destruct e as [| | | |W| | | | |W n|]; try done; cbn in Hos.
    + destruct Hos as (q & ws & pe & Hrest). right. exists W, q, ws, pe. by split.
    + destruct Hos as (-> & Ht & Hl & Hc). left.
      destruct (armed_since p es (new_discovery nodeId mode ds tun)) as (es1 & W1 & es2 & Hes & Hp & Hf); [done..|].
      exists W, es1, W1, es2. by split_and!.
Qed.

(** the chain of works drains.  However many works wait, whatever the transports
    answer, to the one that runs and to those after it, at most [load] steps of the
    chain (a promise settles, or the next work starts) end them all; and no handler
    throws. *)
Theorem chain_drains {SDP Cand} `{KeyAgreement} (d : @PeerDiscovery SDP Cand) (ts : list (World * @Answer SDP)) :
  (∀ e, on_event e d = (Ret tt, step e d)) ∧
  ((load d <= length ts)%nat → let d' := foldl (λ d t, tick t d) d ts in d_running d' = None ∧ d_works d' = []).
Proof.
  split. { intros e. unfold step. rewrite -(event_returns e d). by destruct (on_event e d). }
  revert d. induction ts as [|t ts IH]; intros d Hd d'.
  - destruct (tick_load (MkWorld 0 [] (λ _, None) (λ _, false) (λ _, []) (λ _, 0) (λ _, false), Done) d) as [(_ & Hr)|Hl];
      [done|]. cbn in Hd. lia.
  - apply IH. destruct (tick_load t d) as [(-> & Hr & Hw)|Hl]; [|cbn in *; lia]. unfold load, run_weight. rewrite Hr Hw. simpl. lia.
Qed.

(** ** Two nodes *)

Definition demo_W (now : Z) (secret : Z) : World :=
  MkWorld now (replicate 32 secret) (λ _, None) (λ _, false) (λ _, []) (λ _, 1) (λ _, false).
(** As src/src/core/node.js builds it, with the wait for the TUN. *)
Definition disc_node (id : jstr) (mode : TransportMode) (ds : option jstr) : @PeerDiscovery jstr jstr :=
  new_discovery id mode ds true.
Definition peer_a : Peer := MkPeer (js "a") None.
Definition peer_b : Peer := MkPeer (js "b") None.

Lemma close_only_departed_witness :
  let H := toy_agreement in
  let es := [PeerLeave (js "b"); NextWork (demo_W 0 3)] in
  let d := run es (disc_node (js "a") WebRtcMode None) in
  d_out (step (LeaveTimer (demo_W 4000 0) (js "b")) d) = [CClose (js "b"); CEmit (EPeerLeave (js "b"))] ∧
  ∃ es1 W1 es2, es = es1 ++ NextWork W1 :: es2 ∧ Forall (λ e, ¬ revives (js "b") e) es2.
Proof.
  intros H es d. split; [vm_compute; reflexivity|].
  destruct (@close_only_departed jstr jstr H (js "a") WebRtcMode None true es (LeaveTimer (demo_W 4000 0) (js "b")) (js "b"))
    as [(W & es1 & W1 & es2 & _ & _ & _ & Hes & _ & Hf)|(W & q & ws & pe & He & _)].
  - vm_compute. left.
  - exists es1, W1, es2. exact (conj Hes Hf).
  - discriminate He.
Defined.

(** A work with two peers, of which the second is B. *)
Lemma chain_drains_witness :
  let H := toy_agreement in
  let d := step (PeersUpdated [MkPeer (js "c") None; peer_b]) (disc_node (js "a") WebRtcMode None) in
  let d' := foldl (λ d t, tick t d) d (replicate 7 (demo_W 0 3, Failed)) in
  load d = 7%nat ∧ d_running d' = None ∧ d_works d' = [].
Proof.
  intros H d d'. split; [vm_compute; reflexivity|].
  destruct (@chain_drains jstr jstr H d (replicate 7 (demo_W 0 3, Failed))) as [_ Hd]. apply Hd. vm_compute. apply le_n.
Defined.

(** ** Handshakes that do not happen *)

(** B restarts within 20 seconds of A's offer: A finds its handshake still pending and
    does not offer again, nothing of A's is armed to try later, and B, whose id is
    above A's, waits for A. *)
Example restart_during_handshake :
  let H := toy_agreement in
  let a := run [PeersUpdated [peer_b]; NextWork (demo_W 0 3); Resume (demo_W 0 3) Done; Resume (demo_W 0 0) (GotSdp (js "sdp"));
                PeerJoin peer_b; NextWork (demo_W 10000 5); Resume (demo_W 10000 5) Done] (disc_node (js "a") WebRtcMode None) in
  let b := run [PeersUpdated [peer_a]; NextWork (demo_W 10000 6); Resume (demo_W 10000 6) Done] (disc_node (js "b") WebRtcMode None) in
  (match d_out a with [CCreateOffer _; CSignal _ (SOffer _ _ _)] => True | _ => False end) ∧
  d_works a = [] ∧ d_running a = None ∧ d_reconnectTimers a = [] ∧ d_leaveTimers a = [] ∧ d_out b = [].
Proof. vm_compute. split_and!; reflexivity || exact I. Qed.

(** With a data server that cannot be reached, both sides fall back to an offer. *)
Definition offers (d : @PeerDiscovery jstr jstr) : nat :=
  length (List.filter (λ c, match c with CSignal _ (SOffer _ _ _) => true | _ => false end) (d_out d)).
Example both_offer_in_auto_mode :
  let H := toy_agreement in
  let node id other := run [PeersUpdated [other]; NextWork (demo_W 0 3); Resume (demo_W 0 3) Done; Resume (demo_W 1 0) Failed;
                            Resume (demo_W 2 0) (GotSdp (js "sdp"))] (disc_node id AutoMode (Some (js "ws://h"))) in
  offers (node (js "a") peer_b) = 1%nat ∧ offers (node (js "b") peer_a) = 1%nat.
Proof. vm_compute. split; reflexivity. Qed.

(** After [stop], a transport that reports its end of a connection arms the reconnect
    timer: the node connects again. *)
Example reconnects_after_stop :
  let H := toy_agreement in
  let listed := MkWorld 0 (replicate 32 3) (λ _, Some peer_b) (λ _, false) (λ _, []) (λ _, 1) (λ _, false) in
  let a := (stop listed [] (run [TransportConnected (js "b")] (disc_node (js "a") WebRtcMode None))).2 in
  let a' := run [TransportDisconnected listed (js "b"); ReconnectTimer (js "b"); NextWork listed; Resume listed Done] a in
  last (d_out a) = Some CCloseAll ∧ last (d_out a') = Some (CCreateOffer (js "b")).
Proof. vm_compute. split; reflexivity. Qed.
