(* ===== verification/Handshake.v ===== *)
(** * The handshake of two nodes

    Two nodes in WebRTC mode exchange one offer and one answer and hold the same session
    key, whatever else their discovery does meanwhile: other peers, candidates, repeated
    announcements of the other node, the wait for the TUN, works in any order. *)

From S2P Require Import Prelude JsMap Bytes JsString Effects Crypto Discovery DiscoveryFlow.
Local Open Scope Z_scope.
#[local] Unset Default Proof Using.

Section handshake.
Context {SDP Cand : Type}.
Context `{KeyAgreement}.
Abbreviation Signal := (@Signal SDP Cand).
Abbreviation Call := (@Call SDP Cand).
Abbreviation Work := (@Work SDP Cand).
Abbreviation Event := (@Event SDP Cand).
Abbreviation PeerDiscovery := (@PeerDiscovery SDP Cand).
Abbreviation D := (@D SDP Cand).
Abbreviation ADone := (@Done SDP).

(** ** What a node knows of the other *)

(** The signals that matter for a session; candidates and unknown ones do not. *)
Definition keyed (s : Signal) : bool := match s with SIce _ _ | SOther => false | _ => true end.
Definition keyed_to (p : jstr) (c : Call) : option Signal :=
  match c with CSignal q s => if bool_decide (q = p) && keyed s then Some s else None | _ => None end.
Definition keyed_work (p : jstr) (w : Work) : option Signal :=
  match w with WSignal q s => if bool_decide (q = p) && keyed s then Some s else None | _ => None end.
Definition keyed_from (p : jstr) (e : Event) : option Signal :=
  match e with GotSignal q s => if bool_decide (q = p) && keyed s then Some s else None | _ => None end.
(** The keyed signals sent to [p], those from it that wait in the chain, and those that
    a history brings. *)
Definition sent (p : jstr) (d : PeerDiscovery) : list Signal := base.omap (keyed_to p) (d_out d).
Definition queued (p : jstr) (d : PeerDiscovery) : list Signal := base.omap (keyed_work p) (d_works d).
Definition heard (p : jstr) (es : list Event) : list Signal := base.omap (keyed_from p) es.

(** The running work waits for a transport to [p]. *)
Definition about (p : jstr) (a : Await) : bool :=
  match a with
  | AWebSocket q _ | AOffer q _ => bool_decide (dp_nodeId q = p)
  | AAnswer q _ | ARemote q _ => bool_decide (q = p)
  | ATun _ | AIce => false
  end.
Definition active (p : jstr) (d : PeerDiscovery) : option Await :=
  match d_running d with Some (a, _) => if about p a then Some a else None | None => None end.
Definition busy (p : jstr) (d : PeerDiscovery) : bool := om_has p (d_pending d) || os_has p (d_established d).

(** Nothing is going on with [p]. *)
Definition apart (p : jstr) (d : PeerDiscovery) : Prop := busy p d = false ∧ queued p d = [] ∧ active p d = None.
Definition idle (d : PeerDiscovery) : Prop := d_works d = [] ∧ d_running d = None.

(** ** Histories in which the handshake with [p] is not broken *)

Definition is_sdp (r : @Answer SDP) : bool := match r with GotSdp _ => true | _ => false end.
Definition is_failed (r : @Answer SDP) : bool := match r with Failed => true | _ => false end.
(** The TUN comes up, and what is asked of the transports for [p] succeeds. *)
Definition settles_well (p : jstr) (a : Await) (r : @Answer SDP) : bool :=
  match a with
  | ATun _ => negb (is_failed r)
  | AOffer _ _ | AAnswer _ _ => negb (about p a) || is_sdp r
  | ARemote _ _ => negb (about p a) || negb (is_failed r)
  | AWebSocket _ _ | AIce => true
  end.
(** [randomBytes(32)] has 32 bytes; [p] is not connected by a WebSocket; no pending
    handshake with [p] is older than 20 seconds. *)
Definition secret_ok (W : World) : bool := bool_decide (length (w_secret W) = 32%nat).
Definition steady (p : jstr) (W : World) (d : PeerDiscovery) : bool :=
  negb (w_isConnected W p && bool_decide (js "websocket" ∈ w_transports W p)) &&
  match om_get p (d_pending d) with Some i => w_now W - started i <? _stalePendingMeshMs | None => true end.
(** No transport to [p] breaks, none comes without a handshake, and [p] stays in sight. *)
Definition calm (p : jstr) (e : Event) (d : PeerDiscovery) : bool :=
  match e with
  | TransportConnected q => negb (bool_decide (q = p)) || busy p d
  | TransportDisconnected _ q => negb (bool_decide (q = p))
  | LeaveTimer W q => negb (bool_decide (q = p)) || bool_decide (is_Some (w_getPeer W q)) || w_isConnected W q
  | NextWork W => secret_ok W && steady p W d
  | Resume W r => secret_ok W && match d_running d with Some (a, _) => settles_well p a r | None => true end
  | _ => true
  end.
Fixpoint calms (p : jstr) (es : list Event) (d : PeerDiscovery) : bool :=
  match es with [] => true | e :: es => calm p e d && calms p es (step e d) end.

(** The signalling server announces [p]. *)
Definition announces (p : jstr) (e : Event) : bool :=
  match e with
  | PeersUpdated ps => bool_decide (p ∈ dp_nodeId <$> ps)
  | PeerJoin q => bool_decide (dp_nodeId q = p)
  | _ => false
  end.

(** ** What leaves the other node alone *)

(** The state that belongs to [p]. *)
Record side := MkSide {
  s_session : option session; s_pending : option Pending; s_est : bool; s_sent : list Signal; s_id : jstr; s_mode : TransportMode
}.
Definition side_of (p : jstr) (d : PeerDiscovery) : side :=
  MkSide (om_get p (d_sessions d)) (om_get p (d_pending d)) (os_has p (d_established d)) (sent p d) (d_nodeId d) (d_mode d).
(** A mention of [p] does nothing: it is connected or connecting, or it is to start. *)
Definition settled (p : jstr) (v : side) : Prop :=
  is_Some (s_pending v) ∨ s_est v = true ∨ s_mode v = WebRtcMode ∧ str_ltb p (s_id v) = true.

Section other.
Variables (p : jstr) (v : side).
Definition same (d : PeerDiscovery) : Prop := side_of p d = v.

Lemma same_call c : keyed_to p c = None → keeps same (call c : D ()).
Proof. intros Hc d <-. unfold same, side_of, sent. cbn. by rewrite omap_app /= Hc app_nil_r. Qed.
Lemma same_fields d d' : same d → om_get p (d_sessions d') = om_get p (d_sessions d) → om_get p (d_pending d') = om_get p (d_pending d) →
  os_has p (d_established d') = os_has p (d_established d) → d_out d' = d_out d → d_nodeId d' = d_nodeId d → d_mode d' = d_mode d → same d'.
Proof. intros <- E1 E2 E3 E4 E5 E6. unfold same, side_of, sent. by rewrite E1 E2 E3 E4 E5 E6. Qed.

Lemma same_create W q : q ≠ p → keeps same (create_session W q : D jstr).
Proof. intros Hq d Hd. eapply same_fields; [exact Hd|..]; try done. cbn. by rewrite om_get_set_ne. Qed.
Lemma same_complete q k : q ≠ p → keeps same (complete_session q k : D ()).
Proof.
  intros Hq d Hd. unfold complete_session, completeSession. destruct (om_get q (d_sessions d)); [|done]. destruct (deriveSessionKey _ _ _); [|done].
  eapply same_fields; [exact Hd|..]; try done. cbn. by rewrite om_get_set_ne.
Qed.
Local Ltac field := intros; eapply same_fields; [eassumption|..]; try done; cbn; unfold removeSession;
  by rewrite ?om_get_set_ne ?om_get_delete_ne ?os_has_delete_ne ?os_has_add_ne.
Lemma keyed_to_other q s : q ≠ p → keyed_to p (CSignal q s) = None.
Proof. intros Hq. cbn. by rewrite bool_decide_eq_false_2. Qed.
Lemma same_disconnected W q : q ≠ p → keeps same (on_peer_disconnected W q : D ()).
Proof.
  intros Hq. unfold on_peer_disconnected, remove_session, _updateTopology, _clearMeshReconnectTimer.
  keeps_steps; try (by apply same_call); field.
Qed.
Lemma same_drop W q : q ≠ p → keeps same (drop_peer W q : D ()).
Proof. intros Hq. unfold drop_peer, remove_session, tm_close. keeps_steps; [field..|by apply same_call|by apply same_disconnected]. Qed.
Lemma same_clear_leave q : keeps same (_clearPendingPeerLeave q : D ()).
Proof. unfold _clearPendingPeerLeave, bump_gen. keeps_steps; field. Qed.
Lemma same_wait a rest : keeps same (wait_for a rest : D ()).
Proof. unfold wait_for. keeps_steps; field. Qed.
Lemma same_drop_pending q : q ≠ p → keeps same (drop_pending q : D ()).
Proof. intros Hq. unfold drop_pending. keeps_steps; field. Qed.
Lemma same_peerLeave n : keeps same (_handlePeerLeave n : D ()).
Proof. unfold _handlePeerLeave, _clearMeshReconnectTimer, bump_gen. keeps_steps; try apply same_clear_leave; field. Qed.

(** A computation that leaves [p] alone and does not wait for it. *)
Definition away (a : option Await) : Prop := ∀ b, a = Some b → about p b = false.
Definition quiet (m : D (option Await)) (d : PeerDiscovery) : Prop := same (m d).2 ∧ wlp m (λ a _, away a) d.
Lemma quiet_none (m : D ()) d : keeps same m → same d → quiet (m ;; mret None) d.
Proof. intros Hm Hd. split; [apply (keeps_bind_at same); [by apply Hm|intros; apply keeps_ret]|]. apply wlp_then. intros. apply wlp_ret. by intros b. Qed.

Lemma initiate_settled W q d : dp_nodeId q = p → same d → settled p v → initiate W q d = (Ret None, d).
Proof.
  intros He Hd Hs. unfold initiate. rewrite get_bind He. unfold same, side_of in Hd. subst v. cbv zeta. destruct Hs as [Hs|[Hs|[Hm Hs]]]; cbn [s_pending s_est s_mode s_id] in Hs.
  - by rewrite (proj2 (om_has_get _ _) Hs).
  - by rewrite Hs orb_true_r.
  - cbn [s_mode] in Hm. rewrite Hm Hs. by destruct (_ || _).
Qed.
Definition harmless (q : jstr) : Prop := q = p → settled p v.
Lemma quiet_initiate W q d : harmless (dp_nodeId q) → same d → quiet (initiate W q) d.
Proof.
  intros Hh Hd. destruct (decide (dp_nodeId q = p)) as [He|Hne].
  { rewrite /quiet /wlp (initiate_settled W q d He Hd (Hh He)). by split. }
  split.
  - revert d Hd. change (keeps same (initiate W q : D (option Await))). unfold initiate, create_offer. keeps_steps; try (by apply same_call); [field|by apply same_create].
  - unfold initiate, create_offer. apply wlp_bind, wlp_get. cbv zeta. wlp_step; [by apply wlp_ret|]. wlp_step; [by apply wlp_ret|].
    apply wlp_then. intros _ d1. apply wlp_then. intros pub d2. destruct (if bool_decide _ then _ else _) as [u|]; apply wlp_then; intros; apply wlp_ret; intros b [= <-]; cbn; by rewrite bool_decide_eq_false_2.
Qed.
Lemma quiet_initiateConnection W q d : harmless (dp_nodeId q) → same d → quiet (_initiateConnection W q) d.
Proof.
  intros Hh Hd. rewrite /quiet /wlp /_initiateConnection get_bind. destruct (d_awaitTun d); [split; [done|by intros b [= <-]]|by apply quiet_initiate].
Qed.
Lemma quiet_supersede W q d : harmless q → steady p W d = true → same d → same (_supersedePendingMeshHandshake W q d).2.
Proof.
  intros Hh Hst Hd. unfold _supersedePendingMeshHandshake. rewrite get_bind. destruct (os_has _ _); [done|]. destruct (om_get q (d_pending d)) as [i|] eqn:Hp; [|done].
  destruct (decide (q = p)) as [->|Hq].
  - unfold steady in Hst. rewrite Hp in Hst. apply andb_prop in Hst as [_ Hst%Z.ltb_lt]. destruct (Z.leb_spec _stalePendingMeshMs (w_now W - started i)); [lia|done].
  - destruct (_ <=? _); [by apply same_drop|done].
Qed.
Definition other_signal (q : jstr) (sg : Signal) : Prop := q ≠ p ∨ keyed sg = false.
Lemma same_signal W q sg : other_signal q sg → keeps same (_handleSignal W q sg : D (option Await)).
Proof.
  assert (∀ g, keeps same (set_ice_gen q g : D ())) as Hice by (intros [g|]; unfold set_ice_gen; keeps_steps; field).
  intros [Hq|Hk]; destruct sg; try done; cbn [_handleSignal];
    unfold _handleOffer, _handleAnswer, _handleSessionKey, _handleSessionKeyAck, complete_if_given, ice_candidate, drop_pending; keeps_steps;
    auto using same_create, same_complete; try (by apply same_call, keyed_to_other); try (by apply same_call); field.
Qed.
Lemma quiet_signal W q sg d : other_signal q sg → same d → quiet (_handleSignal W q sg) d.
Proof.
  intros Ho Hd. split; [by apply same_signal|].
  assert (∀ b, b = AIce ∨ (∃ x, b = AAnswer q x) ∨ (∃ x, b = ARemote q x) → q ≠ p ∨ b = AIce → about p b = false) as Hb.
  { intros b [->|[[x ->]|[x ->]]] [?|?]; try done; cbn; by rewrite bool_decide_eq_false_2. }
  destruct sg; cbn [_handleSignal]; unfold _handleOffer, _handleAnswer, ice_candidate.
  - destruct Ho as [Hq|]; [|done]. apply wlp_then. intros. wlp_step; [by apply wlp_ret|]. apply wlp_then. intros.
    apply wlp_try_catch; intros; repeat (apply wlp_then; intros); apply wlp_ret; [|done]. intros b [= <-]. eauto 6.
  - destruct Ho as [Hq|]; [|done]. repeat (apply wlp_then; intros). apply wlp_ret. intros b [= <-]. eauto 6.
  - apply wlp_then. intros. cbv zeta. wlp_step; [by apply wlp_ret|]. repeat (apply wlp_then; intros). apply wlp_ret. by intros b [= <-].
  - apply wlp_then. intros. by apply wlp_ret.
  - apply wlp_then. intros. by apply wlp_ret.
  - by apply wlp_ret.
Qed.
Lemma quiet_continue W a r d : about p a = false → (∀ q, a = ATun q → harmless (dp_nodeId q)) → same d → quiet (continue W a r) d.
Proof.
  intros Ha Ht Hd.
  assert (∀ q, bool_decide (q = p) = false → q ≠ p) as Hne by (intros q; by rewrite bool_decide_eq_false).
  destruct a as [q|q pub|q pub|q pub|q k|]; cbn [about] in Ha; try apply Hne in Ha.
  - destruct r; cbn [continue]; [apply quiet_initiate; auto..|]. split; [done|by apply wlp_lift].
  - split.
    + revert d Hd. change (keeps same (continue W (AWebSocket q pub) r : D (option Await))). destruct r; cbn [continue]; unfold create_offer, drop_pending;
        keeps_steps; try (by apply same_call, keyed_to_other); try (by apply same_call); field.
    + destruct r; cbn [continue]; unfold create_offer; wlp_steps; repeat (apply wlp_then; intros); try (by apply wlp_ret).
      apply wlp_ret. intros b [= <-]. cbn. by rewrite bool_decide_eq_false_2.
  - destruct r; cbn [continue]; apply quiet_none; auto using same_drop_pending. by apply same_call, keyed_to_other.
  - destruct r; cbn [continue]; try (apply quiet_none; by auto using same_drop_pending). split.
    + revert d Hd. change (keeps same (continue W (AAnswer q pub) (GotSdp sdp) : D (option Await))). cbn [continue]. unfold quic_key.
      keeps_steps; try (by apply same_call, keyed_to_other); by apply same_call.
    + cbn [continue]. repeat (apply wlp_then; intros). by apply wlp_ret.
  - cbn [continue]. apply quiet_none; [|done]. destruct r; unfold quic_key, drop_pending; keeps_steps;
      auto using same_complete; try (by apply same_call); field.
  - split; [done|by apply wlp_ret].
Qed.

(** A work, or the rest of one, that leaves [p] alone and does not end waiting for it. *)
Definition quietly (m : D ()) (d : PeerDiscovery) : Prop := same (m d).2 ∧ wlp m (λ _ d', active p d' = None) d.
Lemma quietly_wait (m : D (option Await)) (k : option Await → D ()) d : quiet m d →
  (∀ a d', same d' → away a → quietly (k a) d') → quietly (a ← m; k a) d.
Proof.
  intros [Hs Hw] Hk. unfold quietly, wlp, mbind, SM_bind in *. destruct (m d) as [[a|e] d']; [|by split].
  by destruct (Hk a d' Hs Hw).
Qed.
Lemma quietly_rest a rest d : same d → away a → quietly (wait_for a rest) d.
Proof.
  intros Hd Ha. split; [by apply same_wait|]. apply wlp_modify. unfold active. cbn. destruct a as [b|]; [|done]. by rewrite (Ha b).
Qed.
Lemma quietly_then (m : D ()) (k : D ()) d : same (m d).2 → (∀ d', same d' → quietly k d') → quietly (m ;; k) d.
Proof.
  intros Hs Hk. unfold quietly, wlp, mbind, SM_bind in *. destruct (m d) as [[[]|e] d']; [|by split]. by destruct (Hk d' Hs).
Qed.
Lemma quietly_peers W ps d : (∀ q, q ∈ ps → harmless (dp_nodeId q)) → same d → quietly (peers_loop W ps) d.
Proof.
  revert d. induction ps as [|q ps IH]; intros d Hps Hd; cbn [peers_loop]; [by apply quietly_rest|].
  assert (∀ d, same d → quietly (peers_loop W ps) d) as IH' by (intros d' Hd'; apply IH; [set_solver|done]).
  apply quietly_then; [by apply same_clear_leave|]. intros d' Hd'. unfold quietly, wlp. rewrite get_bind. fold (wlp (S := PeerDiscovery) (A := ())).
  destruct (_ && _); [|by apply IH']. apply quietly_wait; [apply quiet_initiateConnection; [apply Hps; left|done]|].
  intros [a|] d2 Hd2 Ha; [by apply quietly_rest|by apply IH'].
Qed.
(** The works that leave [p] alone. *)
Definition work_away (W : World) (w : Work) : Prop :=
  match w with
  | WPeersUpdate ps => ∀ q, q ∈ ps → harmless (dp_nodeId q)
  | WPeerJoin q => harmless (dp_nodeId q)
  | WPeerLeave _ => True
  | WSignal q sg => other_signal q sg
  | WReconnect q => ∀ peer, w_getPeer W q = Some peer → harmless (dp_nodeId peer)
  end.
Lemma quietly_work W w d : work_away W w → steady p W d = true → same d → quietly (run_work W w) d.
Proof.
  intros Hw Hst Hd. destruct w as [ps|q|n|q sg|q]; cbn [run_work work_away] in *.
  - by apply quietly_peers.
  - apply quietly_then; [by apply quiet_supersede|]. intros d' Hd'. apply quietly_wait; [by apply quiet_initiateConnection|].
    intros. by apply quietly_rest.
  - apply quietly_then; [by apply same_peerLeave|]. intros. by apply quietly_rest.
  - apply quietly_wait; [by apply quiet_signal|]. intros. by apply quietly_rest.
  - apply quietly_wait; [|intros; by apply quietly_rest]. unfold _maybeReconnectMeshPeer. destruct (w_getPeer W q) as [peer|]; [|by split].
    rewrite /quiet /wlp get_bind. destruct (_ || _); [by split|]. by apply quiet_initiateConnection, Hd; apply Hw.
Qed.
Lemma quietly_resume W r a rest d : d_running d = Some (a, rest) → about p a = false →
  (∀ q, a = ATun q ∨ q ∈ rest → harmless (dp_nodeId q)) → same d → quietly (resume W r) d.
Proof.
  intros Hr Ha Hh Hd. unfold resume, quietly, wlp. rewrite get_bind Hr. fold (wlp (S := PeerDiscovery) (A := ())).
  apply quietly_then; [by apply same_wait|]. intros d1 Hd1. apply quietly_wait; [apply quiet_continue; auto|].
  intros [b|] d2 Hd2 Hb; [by apply quietly_rest|]. apply quietly_peers; auto.
Qed.
Lemma quietly_guarded (m : D ()) d : quietly m d → same (guarded m d).2 ∧ active p (guarded m d).2 = None.
Proof. unfold quietly, wlp, guarded, try_catch. destruct (m d) as [[[]|e] d']; [done|]. intros [Hs _]. split; [by apply same_wait|done]. Qed.
End other.
(** ** Events outside the chain *)

Definition connected (v : side) : side := MkSide (s_session v) None true (s_sent v) (s_id v) (s_mode v).
Definition mentions (p : jstr) (w : Work) : bool :=
  match w with
  | WPeersUpdate ps => bool_decide (p ∈ dp_nodeId <$> ps)
  | WPeerJoin q => bool_decide (dp_nodeId q = p)
  | _ => false
  end.
(** What such an event adds to the chain, and what it does to [p]. *)
Record outside (p : jstr) (e : Event) (d d' : PeerDiscovery) (ws : list Work) : Prop := MkOutside {
  os_side : side_of p d' = side_of p d ∨ busy p d = true ∧ side_of p d' = connected (side_of p d);
  os_running : d_running d' = d_running d;
  os_works : d_works d' = d_works d ++ ws;
  os_queued : base.omap (keyed_work p) ws = heard p [e];
  os_mentions : announces p e = true → existsb (mentions p) ws = true
}.

Lemma outside_keeps p (m : D ()) e d : keeps (same p (side_of p d)) m → keeps (λ d', d_running d' = d_running d ∧ d_works d' = d_works d) m →
  keyed_from p e = None → announces p e = false → outside p e d (m d).2 [].
Proof.
  intros Hs Hr Hk Ha. destruct (Hr d) as [Er Ew]; [done|]. constructor; try done.
  - left. by apply Hs.
  - by rewrite app_nil_r.
  - unfold heard. cbn. by rewrite Hk.
  - by rewrite Ha.
Qed.
Local Ltac chain := cbn [on_event]; unfold on_ice_candidate, leave_timer, _applyPeerLeave, drop_peer, tm_close, on_peer_disconnected, remove_session,
  _updateTopology, _clearMeshReconnectTimer, call; keeps_steps; try done; try (by destruct_and!).
Lemma outside_chain p e d : match e with NextWork _ | Resume _ _ => False | _ => True end → calm p e d = true → ∃ ws, outside p e d (step e d) ws.
Proof.
  intros Hch Hc. destruct e as [ps|q|n|q sg|W|W r|q|W q|W q c|W q|q]; try done; cbn [calm] in Hc.
  - exists [WPeersUpdate ps]. constructor; try done; [by left|]. cbn. by intros ->.
  - exists [WPeerJoin q]. constructor; try done; [by left|]. cbn. by intros ->.
  - exists [WPeerLeave n]. constructor; try done; by left.
  - exists [WSignal q sg]. constructor; try done; by left.
  - exists []. constructor; try done; [|by rewrite app_nil_r]. destruct (decide (q = p)) as [->|Hq].
    + rewrite bool_decide_eq_true_2 in Hc; [|done]. right. split; [done|]. unfold side_of, connected, sent. cbn.
      rewrite !omap_app /= !app_nil_r om_get_delete_eq. f_equal. by apply os_has_true, os_elem_add; left.
    + left. unfold side_of, sent. cbn. by rewrite !omap_app /= !app_nil_r om_get_delete_ne // os_has_add_ne.
  - exists []. apply negb_true_iff, bool_decide_eq_false in Hc. apply outside_keeps; [by apply same_disconnected|chain|done|done].
  - exists []. apply outside_keeps; [apply same_call; cbn; by destruct (bool_decide _)|chain|done|done].
  - exists []. apply outside_keeps; [cbn [on_event]|chain|done|done]. unfold leave_timer, _applyPeerLeave. destruct (decide (q = p)) as [->|Hq].
    + rewrite bool_decide_eq_true_2 // /= in Hc. destruct (bool_decide _) eqn:Hg; [by keeps_steps|]. cbn in Hc. rewrite Hc. by keeps_steps.
    + keeps_steps; try (by apply same_call); try done. by apply same_drop.
  - unfold step. cbn [on_event]. rewrite get_bind. destruct (os_has q _); [|exists []; apply (outside_keeps p skip); [by intros ?..|done|done]].
    exists [WReconnect q]. constructor; try done; by left.
Qed.
Lemma peers_loop_out W ps (d : PeerDiscovery) : ∃ os, d_out (guarded (peers_loop W ps) d).2 = d_out d ++ os.
Proof.
  pose proof (calls_closed (λ _, True) (d_out d)) as C.
  assert (calls (λ _, True) (d_out d) (guarded (peers_loop W ps) d).2) as (os & Ho & _); [|by exists os].
  eapply (closed_guarded (λ _, True)); [exact C|by apply (closed_peers_loop (λ _, True) (λ _ _, Logic.I) _ C)|].
  exists []. by rewrite app_nil_r.
Qed.

(** ** One keyed signal heard and handled

    [sg] comes while [Wt] holds, is handled up to where it waits with [V], and ends with
    [Z]; all the while a mention of the other node does nothing. *)

Section exchange.
Context (p : jstr) (sg : Signal) (Wt : side → Prop) (V : Await → side → Prop) (Z : side → list Call → Prop).
Context (Wt_settled : ∀ v, Wt v → settled p v) (V_settled : ∀ a v, V a v → settled p v) (Z_settled : ∀ v o, Z v o → settled p v).
Context (Wt_connected : ∀ v, Wt v → Wt (connected v)) (V_connected : ∀ a v, V a v → V a (connected v))
  (Z_connected : ∀ v o, Z v o → Z (connected v) o) (Z_more : ∀ v o os, Z v o → Z v (o ++ os)).
Context (V_about : ∀ a v, V a v → about p a = true).
Context (starts : ∀ W d, Wt (side_of p d) → secret_ok W = true → steady p W d = true →
  ∃ a d', _handleSignal W p sg d = (Ret (Some a), d') ∧ V a (side_of p d')).
Context (ends : ∀ W r a d, V a (side_of p d) → settles_well p a r = true →
  ∃ d', continue W a r d = (Ret None, d') ∧ Z (side_of p d') (d_out d')).

Definition waiting (v : side) (q : list Signal) (a : option Await) : Prop := Wt v ∧ q = [] ∧ a = None.
Definition served (v : side) (o : list Call) (q : list Signal) (a : option Await) : Prop := Z v o ∧ q = [] ∧ a = None.
Definition in_hand (v : side) (o : list Call) (q : list Signal) (a : option Await) : Prop :=
  Wt v ∧ q = [sg] ∧ a = None ∨ (∃ b, V b v ∧ q = [] ∧ a = Some b) ∨ served v o q a.
Definition exchange (hs : list Signal) (d : PeerDiscovery) : Prop :=
  hs = [] ∧ waiting (side_of p d) (queued p d) (active p d) ∨ hs = [sg] ∧ in_hand (side_of p d) (d_out d) (queued p d) (active p d).

Lemma exchange_settled hs d : exchange hs d → settled p (side_of p d).
Proof. intros [[_ (HW & _)]|[_ [(HW & _)|[(b & HV & _)|(HZ & _)]]]]; eauto. Qed.
(** What leaves the side of [p] alone keeps the stage. *)
Lemma exchange_same hs d d' : exchange hs d → side_of p d' = side_of p d → queued p d' = queued p d → active p d' = active p d →
  (∃ os, d_out d' = d_out d ++ os) → exchange hs d'.
Proof.
  unfold exchange, in_hand, waiting, served. intros Hx -> -> -> [os ->].
  destruct Hx as [?|[-> [?|[?|(HZ & ?)]]]]; [by left|right; split; [done|]; tauto..|].
  right. split; [done|]. right. right. split; [by apply Z_more|done].
Qed.
Lemma exchange_outside hs e d ws : exchange hs d → outside p e d (step e d) ws → hs ++ heard p [e] `prefix_of` [sg] →
  exchange (hs ++ heard p [e]) (step e d).
Proof.
  intros Hx [Hside Hrun Hworks Hq _] Hpre. destruct (event_out e d) as [os Ho].
  assert (active p (step e d) = active p d) as Ha by (unfold active; by rewrite Hrun).
  assert (queued p (step e d) = queued p d ++ heard p [e]) as Hqd by (unfold queued; by rewrite Hworks omap_app Hq).
  assert ((∀ v, Wt v → Wt (connected v)) → Wt (side_of p d) → Wt (side_of p (step e d))) as HW by (destruct Hside as [->|[_ ->]]; auto).
  assert (∀ b, V b (side_of p d) → V b (side_of p (step e d))) as HV by (destruct Hside as [->|[_ ->]]; auto).
  assert (∀ o, Z (side_of p d) o → Z (side_of p (step e d)) (o ++ os)) as HZ by (destruct Hside as [->|[_ ->]]; auto).
  clear Hq. unfold exchange, in_hand, waiting, served in *. rewrite Ho Hqd Ha. clear Hqd. revert Hpre. generalize (heard p [e]). intros h Hpre.
  destruct Hx as [[-> (Hw & -> & ->)]|[-> Hx]].
  - destruct h as [|s l]; [left; auto|]. destruct Hpre as [k Hk]. cbn in Hk. injection Hk as <- Hk.
    symmetry in Hk. apply app_nil in Hk as [-> _]. right. auto.
  - destruct Hpre as [k Hk]. cbn in Hk. injection Hk as Hk. symmetry in Hk. apply app_nil in Hk as [-> _]. rewrite !app_nil_r. right. split; [done|].
    destruct Hx as [(? & -> & ->)|[(b & ? & -> & ->)|(? & -> & ->)]]; [left; auto|right; left; eauto|right; right; auto].
Qed.
Lemma settled_away W w d : settled p (side_of p d) → keyed_work p w = None → work_away p (side_of p d) W w.
Proof.
  intros Hs Hk. assert (∀ q, harmless p (side_of p d) q) as Hh by (by intros q _). destruct w as [ps|q|n|q s|q]; cbn in *; auto.
  unfold other_signal. destruct (decide (q = p)) as [->|]; [|by left]. rewrite bool_decide_eq_true_2 // in Hk. destruct (keyed s); [done|by right].
Qed.
Lemma exchange_next hs W d : exchange hs d → secret_ok W = true → steady p W d = true → exchange hs (step (NextWork W) d).
Proof.
  intros Hx Hsec Hst. destruct (event_out (NextWork W) d) as [os Ho]. revert os Ho. unfold step. cbn [on_event]. rewrite get_bind.
  destruct (d_running d) as [r|] eqn:Hr; [by intros|]. destruct (d_works d) as [|w ws] eqn:Hw; [by intros|]. rewrite modify_bind. intros os Ho.
  set (d1 := d <| d_works := ws |>) in *. pose proof (work_works W w d1) as Hws. assert (side_of p d1 = side_of p d) as Hs1 by done.
  destruct (keyed_work p w) as [s|] eqn:Hk.
  - assert (queued p d = s :: queued p d1) as Hq by (unfold queued; rewrite Hw /= Hk //).
    destruct Hx as [[_ (_ & Hq0 & _)]|[-> [(HW & Hq0 & _)|[(b & _ & Hq0 & _)|(_ & Hq0 & _)]]]]; rewrite Hq in Hq0; try done.
    injection Hq0 as -> Hq1. destruct w as [| | |q s|]; try done. cbn in Hk.
    destruct (decide (q = p)) as [->|Hne]; [|rewrite bool_decide_eq_false_2 // in Hk]. rewrite bool_decide_eq_true_2 // in Hk.
    destruct (keyed s); [|done]. injection Hk as ->. destruct (starts W d1 HW Hsec Hst) as (a & d2 & Hrun & HV).
    assert (guarded (run_work W (WSignal p sg)) d1 = (Ret tt, (wait_for (Some a) [] d2).2)) as Hg.
    { apply guarded_ret. cbn [run_work]. by rewrite (run_bind _ _ _ (Some a) d2). }
    rewrite Hg in Hws |- *. right. split; [done|]. right. left. exists a. split_and!; [done| |].
    + unfold queued. cbn [snd] in *. by rewrite Hws.
    + unfold active. cbn. by rewrite (V_about _ _ HV).
  - destruct (quietly_guarded p (side_of p d) _ _ (quietly_work p _ W w d1 (settled_away W w d (exchange_settled _ _ Hx) Hk) Hst Hs1)) as [Hs2 Ha2].
    apply (exchange_same hs d); [done|exact Hs2| |by rewrite Ha2 /active Hr|by exists os].
    unfold queued. rewrite Hws Hw /= Hk //.
Qed.
Lemma exchange_resume hs W r d : exchange hs d → calm p (Resume W r) d = true → exchange hs (step (Resume W r) d).
Proof.
  intros Hx Hc. destruct (event_out (Resume W r) d) as [os Ho]. revert os Ho. unfold step. cbn [on_event]. intros os Ho.
  pose proof (resume_works W r d) as Hws. assert (queued p (guarded (resume W r) d).2 = queued p d) as Hq by (unfold queued; by rewrite Hws).
  destruct (d_running d) as [[a rest]|] eqn:Hr; [|unfold guarded, resume, try_catch; by rewrite get_bind Hr].
  cbn [calm] in Hc. rewrite Hr in Hc. apply andb_prop in Hc as [_ Hset]. destruct (about p a) eqn:Ha.
  - assert (active p d = Some a) as Hact by (unfold active; by rewrite Hr Ha).
    destruct Hx as [[_ (_ & _ & H0)]|[-> [(_ & _ & H0)|[(b & HV & Hq0 & H0)|(_ & _ & H0)]]]]; rewrite Hact in H0; try done. injection H0 as <-.
    destruct (ends W r a (wait_for None [] d).2 HV Hset) as (d1 & Hcont & HZ).
    assert (guarded (resume W r) d = guarded (peers_loop W rest) d1) as Hg.
    { unfold guarded, try_catch, resume. rewrite get_bind Hr (run_bind _ _ _ tt (wait_for None [] d).2) // (run_bind _ _ _ None d1) //. }
    assert (quietly p (side_of p d1) (peers_loop W rest) d1) as Hquiet by (apply quietly_peers; [intros ???; by eapply Z_settled|done]).
    destruct (quietly_guarded _ _ _ _ Hquiet) as [Hs2 Ha2]. rewrite Hg in Hq |- *. right. split; [done|]. right. right. rewrite /served Hs2 Hq Hq0 Ha2.
    split_and!; [|done..]. destruct (peers_loop_out W rest d1) as [os1 ->]. by apply Z_more.
  - assert (quietly p (side_of p d) (resume W r) d) as Hquiet.
    { eapply quietly_resume; [exact Hr|done| |done]. intros ???. by apply (exchange_settled hs). }
    destruct (quietly_guarded _ _ _ _ Hquiet) as [Hs2 Ha2]. apply (exchange_same hs d); [done..| |by exists os]. by rewrite Ha2 /active Hr Ha.
Qed.
Lemma exchange_step hs e d : exchange hs d → calm p e d = true → hs ++ heard p [e] `prefix_of` [sg] → exchange (hs ++ heard p [e]) (step e d).
Proof.
  intros Hx Hc Hpre. destruct e as [| | | |W|W r| | | | |]; try (edestruct outside_chain as [ws Hws]; [| |by eapply exchange_outside]; [done|exact Hc]).
  - rewrite app_nil_r. cbn [calm] in Hc. apply andb_prop in Hc as [Hsec Hst]. by apply exchange_next.
  - rewrite app_nil_r. by apply exchange_resume.
Qed.
Lemma exchange_run es : ∀ hs d, exchange hs d → calms p es d = true → hs ++ heard p es = [sg] → exchange [sg] (run es d).
Proof.
  induction es as [|e es IH]; intros hs d Hx Hc Hh; [cbn in Hh; rewrite app_nil_r in Hh; by subst|].
  cbn [calms] in Hc. apply andb_prop in Hc as [Hc Hcs].
  assert (heard p (e :: es) = heard p [e] ++ heard p es) as He by (unfold heard; by rewrite -omap_app).
  rewrite He app_assoc in Hh. cbn [run foldl]. apply (IH (hs ++ heard p [e])); [|done|done]. apply exchange_step; [done..|]. rewrite -Hh. by eexists.
Qed.
(** The signal has been handled when the chain is done, or when the side of [p] shows it. *)
Lemma exchange_served es d : exchange [] d → calms p es d = true → heard p es = [sg] →
  (let v := side_of p (run es d) in idle (run es d) ∨ ¬ Wt v ∧ ∀ a, ¬ V a v) → Z (side_of p (run es d)) (d_out (run es d)).
Proof.
  intros Hx Hc Hh Hi. destruct (exchange_run es [] d Hx Hc Hh) as [[? _]|[_ [(HW & Hq & _)|[(b & HV & _ & Ha)|[HZ _]]]]]; [done|..|done].
  - destruct Hi as [[Hw _]|[HnW _]]; [|done]. unfold queued in Hq. by rewrite Hw in Hq.
  - destruct Hi as [[_ Hr]|[_ HnV]]; [|by destruct (HnV b)]. unfold active in Ha. by rewrite Hr in Ha.
Qed.
End exchange.
(** ** The one who offers *)

Definition keyed_session (secret : buffer) (key : option buffer) : session :=
  MkSession (new_key_exchange secret) key (bool_decide (is_Some key)).
Definition pub_of (secret : buffer) : jstr := exportPublicKey (new_key_exchange secret).
Definition connecting (v : side) : Prop := is_Some (s_pending v) ∨ s_est v = true.
Lemma connecting_settled p v : connecting v → settled p v.
Proof. intros [?|?]; [by left|by right; left]. Qed.
Lemma connecting_connected v : connecting (connected v).
Proof. by right. Qed.

Lemma initiate_offers W q (d : PeerDiscovery) : os_has (dp_nodeId q) (d_established d) = false → om_get (dp_nodeId q) (d_pending d) = None →
  d_mode d = WebRtcMode → str_ltb (dp_nodeId q) (d_nodeId d) = false →
  initiate W q d = (Ret (Some (AOffer q (new_key W))),
    (call (CCreateOffer (dp_nodeId q)) (opened W (dp_nodeId q) (MkPending true (w_now W)) d)).2).
Proof.
  intros Hb Hi Hm Hlt. apply om_has_false in Hi. unfold initiate. rewrite get_bind Hi Hb Hm Hlt /=. by rewrite open_then.
Qed.

Section offers.
Context (p : jstr) (base : list Signal).

Definition free (v : side) : Prop :=
  s_pending v = None ∧ s_est v = false ∧ s_sent v = base ∧ s_mode v = WebRtcMode ∧ str_ltb p (s_id v) = false.
Definition asking (a : Await) (v : side) : Prop :=
  ∃ secret q, length secret = 32%nat ∧ s_session v = Some (keyed_session secret None) ∧ connecting v ∧ s_sent v = base ∧
    a = AOffer q (pub_of secret) ∧ dp_nodeId q = p.
Definition asked (v : side) (_ : list Call) : Prop :=
  ∃ secret offer g, length secret = 32%nat ∧ s_session v = Some (keyed_session secret None) ∧ connecting v ∧
    s_sent v = base ++ [SOffer offer (Some (pub_of secret)) g].
Definition calling : PeerDiscovery → Prop := exchange p SOther (λ _, False) asking asked [SOther].

Lemma asking_connected a v : asking a v → asking a (connected v).
Proof. intros (secret & q & ? & ? & ? & ? & ?). exists secret, q. split_and!; first [done|apply connecting_connected|by destruct_and!]. Qed.
Lemma asked_connected v o : asked v o → asked (connected v) o.
Proof. intros (secret & offer & g & ? & ? & ? & ?). exists secret, offer, g. split_and!; first [done|apply connecting_connected]. Qed.
Lemma asking_about a v : asking a v → about p a = true.
Proof. intros (secret & q & _ & _ & _ & _ & -> & Hq). cbn. by apply bool_decide_eq_true. Qed.
Lemma asking_ends W r a d : asking a (side_of p d) → settles_well p a r = true →
  ∃ d', continue W a r d = (Ret None, d') ∧ asked (side_of p d') (d_out d').
Proof.
  intros Ha Hset. pose proof (asking_about _ _ Ha) as Hab. destruct Ha as (secret & q & Hl & Hs & Hc & Hb & -> & Hq).
  cbn [settles_well] in Hset. rewrite Hab in Hset. destruct r as [|offer|]; try done. subst p. eexists. split; [reflexivity|].
  exists secret, offer, (positive_gen (w_hsGen W (dp_nodeId q))). split_and!; try done. cbn in *. unfold sent in *. cbn. rewrite omap_app Hb /=.
  by rewrite bool_decide_eq_true_2.
Qed.
Lemma calling_step e d : calling d → calm p e d = true → heard p [e] = [] → calling (step e d).
Proof.
  intros Hx Hc Hh. unfold calling. change [SOther] with ([SOther] ++ [] : list Signal). rewrite -Hh.
  apply exchange_step; try done; rewrite ?Hh ?app_nil_r; try done.
  - intros a v (? & ? & _ & _ & ? & _). by apply connecting_settled.
  - intros v o (? & ? & ? & _ & _ & ? & _). by apply connecting_settled.
  - apply asking_connected.
  - apply asked_connected.
  - apply asking_about.
  - apply asking_ends.
Qed.

(** A mention of [p] that is still to be dealt with. *)
Definition owed_run (d : PeerDiscovery) : Prop :=
  match d_running d with Some (a, rest) => (∃ q, a = ATun q ∧ dp_nodeId q = p) ∨ p ∈ dp_nodeId <$> rest | None => False end.
Definition owed (d : PeerDiscovery) : Prop := existsb (mentions p) (d_works d) = true ∨ owed_run d.
(** How a work ends, or where it waits, that starts when [p] is free. *)
Definition fpost (due : Prop) (d : PeerDiscovery) : Prop :=
  free (side_of p d) ∧ active p d = None ∧ (due → owed_run d) ∨ ∃ a, asking a (side_of p d) ∧ active p d = Some a.

Lemma initiate_returns W q (d : PeerDiscovery) : ∃ a d', initiate W q d = (Ret a, d').
Proof.
  unfold initiate. rewrite get_bind. cbv zeta. destruct (_ || _); [by do 2 eexists|]. destruct (negb _ && _); [by do 2 eexists|].
  rewrite open_then. destruct (if bool_decide _ then _ else _) as [u|]; by do 2 eexists.
Qed.
Lemma free_initiate W q d : free (side_of p d) → secret_ok W = true → ∃ a d', initiate W q d = (Ret a, d') ∧
  (dp_nodeId q ≠ p ∧ free (side_of p d') ∧ away p a ∨ ∃ b, a = Some b ∧ asking b (side_of p d')).
Proof.
  intros Hf Hsec. destruct (decide (dp_nodeId q = p)) as [He|Hne].
  - destruct Hf as (Hp & Hest & Hb & Hm & Hlt). unfold secret_ok in Hsec. apply bool_decide_eq_true in Hsec. cbn in Hp, Hest, Hm, Hlt.
    pose proof (initiate_offers W q d) as E. rewrite He in E. do 2 eexists. split; [by apply E|]. right. eexists. split; [done|].
    exists (w_secret W), q. split_and!; try done.
    + cbn. by rewrite om_get_set_eq.
    + left. cbn. rewrite om_get_set_eq. by eexists.
    + cbn in *. unfold sent in *. cbn. by rewrite omap_app Hb /= app_nil_r.
  - destruct (initiate_returns W q d) as (a & d' & E). exists a, d'. split; [done|]. left. split; [done|].
    destruct (quiet_initiate p (side_of p d) W q d) as [Hs Ha]; [by intros He|done|]. rewrite E in Hs. rewrite /wlp E in Ha. by rewrite Hs.
Qed.
Lemma free_connect W q d : free (side_of p d) → secret_ok W = true → ∃ a d', _initiateConnection W q d = (Ret a, d') ∧
  (free (side_of p d') ∧ away p a ∧ (dp_nodeId q = p → a = Some (ATun q)) ∨ ∃ b, a = Some b ∧ asking b (side_of p d')).
Proof.
  intros Hf Hsec. unfold _initiateConnection. rewrite get_bind. destruct (d_awaitTun d).
  - do 2 eexists. split; [done|]. left. split_and!; [done|by intros b [= <-]|done].
  - destruct (free_initiate W q d Hf Hsec) as (a & d' & E & [(Hne & Hf' & Ha)|Hask]); exists a, d'; (split; [done|]);
      [left|by right]. split_and!; [done..|by intros ?].
Qed.
Lemma waits_free (due : Prop) b rest d : free (side_of p d) → about p b = false → (due → (∃ q, b = ATun q ∧ dp_nodeId q = p) ∨ p ∈ dp_nodeId <$> rest) →
  fpost due (wait_for (Some b) rest d).2.
Proof. intros Hf Hb Hd. left. split_and!; [done|unfold active; cbn; by rewrite Hb|exact Hd]. Qed.
Lemma waits_asking due b rest d : asking b (side_of p d) → fpost due (wait_for (Some b) rest d).2.
Proof. intros Hb. right. exists b. split; [done|]. unfold active. cbn. by rewrite (asking_about _ _ Hb). Qed.
Lemma free_peers W ps d : free (side_of p d) → secret_ok W = true →
  ∃ d', peers_loop W ps d = (Ret tt, d') ∧ fpost (p ∈ dp_nodeId <$> ps) d'.
Proof.
  intros Hf Hsec. revert d Hf. induction ps as [|q ps IH]; intros d Hf; cbn [peers_loop].
  { eexists. split; [done|]. left. split_and!; [done..|]. by intros ?%elem_of_nil. }
  set (d1 := (_clearPendingPeerLeave (dp_nodeId q) d).2). rewrite (run_bind _ _ _ tt d1) // get_bind.
  assert (free (side_of p d1)) as Hf1 by done. destruct (negb _ && _) eqn:Hb.
  - destruct (free_connect W q d1 Hf1 Hsec) as (a & d2 & E & [(Hf2 & Ha & Hq)|(b & -> & Hask)]); rewrite (run_bind _ _ _ a d2 E) || rewrite (run_bind _ _ _ (Some b) d2 E).
    + destruct a as [b|].
      * eexists. split; [done|]. apply waits_free; [done|by apply Ha|]. rewrite fmap_cons elem_of_cons. intros [->|?]; [left|by right].
        exists q. split; [|done]. by injection (Hq eq_refl).
      * destruct (IH d2 Hf2) as (d3 & E3 & Hp). exists d3. split; [done|]. destruct Hp as [(Hf3 & Ha3 & Hd)|]; [left|by right]. split_and!; [done..|].
        rewrite fmap_cons elem_of_cons. intros [->|?]; [by specialize (Hq eq_refl)|auto].
    + eexists. split; [done|]. by apply waits_asking.
  - destruct (IH d1 Hf1) as (d3 & E3 & Hp). exists d3. split; [done|]. destruct Hp as [(Hf3 & Ha3 & Hd)|]; [left|by right]. split_and!; [done..|].
    rewrite fmap_cons elem_of_cons. intros [->|?]; [|auto]. exfalso. destruct Hf1 as (Hp & He & _). cbn in Hp, He. apply om_has_false in Hp. by rewrite He Hp in Hb.
Qed.

Lemma supersede_returns W n (d : PeerDiscovery) : (_supersedePendingMeshHandshake W n d).1 = Ret tt.
Proof.
  unfold _supersedePendingMeshHandshake. rewrite get_bind. destruct (os_has _ _); [done|]. destruct (om_get _ _) as [i|]; [|done].
  destruct (_ <=? _); [|done]. unfold when, drop_peer, tm_close, on_peer_disconnected. unfold mbind, SM_bind. cbn.
  destruct (w_closeReports W n); [|done]. cbn. by destruct (bool_decide _).
Qed.
Lemma caught_returns (m : D ()) q (d : PeerDiscovery) : ∃ d', try_catch m (λ _, drop_pending q) d = (Ret tt, d').
Proof. unfold try_catch. destruct (m d) as [[[]|e] d1]; by eexists. Qed.
Lemma continue_returns W a r (d : PeerDiscovery) : (∀ q, a = ATun q → r ≠ Failed) → ∃ o d', continue W a r d = (Ret o, d').
Proof.
  intros Ht. destruct a as [q|q pub|q pub|q pub|q k|].
  - destruct r; cbn [continue]; try apply initiate_returns. by destruct (Ht q).
  - destruct r; cbn [continue]; try (by do 2 eexists). rewrite get_bind. destruct (bool_decide _); by do 2 eexists.
  - destruct r; by do 2 eexists.
  - destruct r; cbn [continue]; try (by do 2 eexists). rewrite modify_bind. unfold quic_key. unfold mbind at 1, SM_bind. rewrite get_bind.
    destruct (getSessionKey _ _); by do 2 eexists.
  - destruct r; cbn [continue]; [|..|by do 2 eexists].
    1,2: match goal with |- ∃ o d', (try_catch ?m _ ;; _) _ = _ => destruct (caught_returns m q d) as [d' E] end; rewrite (run_bind _ _ _ tt d' E); by do 2 eexists.
  - by do 2 eexists.
Qed.
Lemma quietly_free due (m : D ()) d : quietly p (side_of p d) m d → free (side_of p d) → ¬ due → fpost due (guarded m d).2.
Proof. intros [Hs Ha]%quietly_guarded Hf Hno. left. rewrite Hs. by split_and!. Qed.
Lemma fpost_mono (P Q : Prop) d : (Q → P) → fpost P d → fpost Q d.
Proof. intros Himp [(?&?&?)|?]; [left; split_and!; auto|by right]. Qed.

Lemma free_connect_wait W q d (due : Prop) : free (side_of p d) → secret_ok W = true → (due → dp_nodeId q = p) →
  ∃ d', (a ← _initiateConnection W q; wait_for a []) d = (Ret tt, d') ∧ fpost due d'.
Proof.
  intros Hf Hsec Hdue. destruct (free_connect W q d Hf Hsec) as (a & d' & E & [(Hf' & Ha & Hq)|(b & -> & Hask)]).
  - rewrite (run_bind _ _ _ a d' E). eexists. split; [done|]. destruct a as [b|].
    + apply waits_free; [done|by apply Ha|]. intros Hd. left. exists q. split; [|by apply Hdue]. by injection (Hq (Hdue Hd)).
    + left. split_and!; [done..|]. intros Hd. by specialize (Hq (Hdue Hd)).
  - rewrite (run_bind _ _ _ (Some b) d' E). eexists. split; [done|]. by apply waits_asking.
Qed.
Lemma free_work W w d : free (side_of p d) → secret_ok W = true → steady p W d = true → keyed_work p w = None →
  fpost (mentions p w = true) (guarded (run_work W w) d).2.
Proof.
  intros Hf Hsec Hst Hk. destruct w as [ps|q|n|q sg|q]; cbn [run_work mentions].
  - destruct (free_peers W ps d Hf Hsec) as (d' & E & Hp). rewrite (guarded_ret _ _ _ E). eapply fpost_mono, Hp. apply bool_decide_eq_true.
  - assert (same p (side_of p d) (_supersedePendingMeshHandshake W (dp_nodeId q) d).2) as Hs.
    { assert (same p (side_of p d) d) as Hd by reflexivity. pose proof Hf as (Hp & _). cbn in Hp. unfold _supersedePendingMeshHandshake. rewrite get_bind. destruct (os_has _ (d_established d)); [done|].
      destruct (om_get (dp_nodeId q) (d_pending d)) as [i|] eqn:Hi; [|done]. destruct (_ <=? _); [|done]. apply same_drop; [|done]. intros Hq. rewrite Hq Hp in Hi. done. }
    destruct (_supersedePendingMeshHandshake W (dp_nodeId q) d) as [r d1] eqn:E. pose proof (supersede_returns W (dp_nodeId q) d) as Hr. rewrite E in Hr. cbn in Hr, Hs. subst r.
    destruct (free_connect_wait W q d1 (bool_decide (dp_nodeId q = p) = true)) as (d2 & E2 & Hp); [by rewrite Hs|done|by apply bool_decide_eq_true|].
    erewrite (guarded_ret _ d d2); [done|]. by rewrite (run_bind _ _ _ tt d1).
  - apply quietly_free; [|done..]. apply quietly_then; [by apply same_peerLeave|]. intros. by apply quietly_rest.
  - apply quietly_free; [|done..]. apply (quietly_work p _ W (WSignal q sg)); [|done..]. cbn in *. unfold other_signal. destruct (decide (q = p)) as [Hq|]; [|by left].
    right. rewrite bool_decide_eq_true_2 // in Hk. by destruct (keyed sg).
  - unfold _maybeReconnectMeshPeer. destruct (w_getPeer W q) as [peer|]; [|apply quietly_free; [by apply quietly_rest|done..]].
    destruct (os_has q (d_established d) || om_has q (d_pending d)) eqn:Hb.
    + apply quietly_free; [|done..]. unfold quietly, wlp, mbind, SM_bind. cbn. by rewrite Hb.
    + destruct (free_connect_wait W peer d False) as (d2 & E2 & Hp); [done..|]. erewrite (guarded_ret _ d d2); [by eapply fpost_mono, Hp|].
      rewrite -E2. unfold mbind, SM_bind. cbn. by rewrite Hb.
Qed.
Lemma free_resume W r a rest d : free (side_of p d) → secret_ok W = true → d_running d = Some (a, rest) → about p a = false →
  settles_well p a r = true → fpost ((∃ q, a = ATun q ∧ dp_nodeId q = p) ∨ p ∈ dp_nodeId <$> rest) (guarded (resume W r) d).2.
Proof.
  intros Hf Hsec Hr Ha Hset. set (d0 := (wait_for None [] d).2 : PeerDiscovery). assert (free (side_of p d0)) as Hf0 by done.
  assert (∃ o d1, continue W a r d0 = (Ret o, d1) ∧
    (free (side_of p d1) ∧ away p o ∧ (∀ q, a = ATun q → dp_nodeId q ≠ p) ∨ ∃ b, o = Some b ∧ asking b (side_of p d1))) as (o & d1 & E & Hcase).
  { assert ((∃ q, a = ATun q) ∨ ∀ q, a ≠ ATun q) as [[q ->]|Hno'] by (destruct a; [left; by eexists|right; done..]).
    - assert (r ≠ Failed) as Hnf by (by intros ->). assert (continue W (ATun q) r d0 = initiate W q d0) as -> by (by destruct r).
      destruct (free_initiate W q d0 Hf0 Hsec) as (o & d1 & E & [(Hne & ? & ?)|?]); exists o, d1; (split; [done|]); [left|by right].
      split_and!; [done..|]. by intros q' [= <-].
    - destruct (continue_returns W a r d0) as (o & d1 & E); [by intros q ?%Hno'|]. exists o, d1. split; [done|]. left.
      destruct (quiet_continue p (side_of p d0) W a r d0 Ha) as [Hs Haw]; [by intros q ?%Hno'|done|]. rewrite E in Hs. rewrite /wlp E in Haw.
      rewrite Hs. split_and!; [done..|]. by intros q ?%Hno'. }
  assert (resume W r d = (match o with Some a => wait_for (Some a) rest | None => peers_loop W rest end) d1) as Hres.
  { unfold resume. rewrite get_bind Hr (run_bind _ _ _ tt d0) // (run_bind _ _ _ o d1) //. }
  destruct Hcase as [(Hf1 & Haw & Hne)|(b & -> & Hask)].
  - destruct o as [b|].
    + rewrite (guarded_ret _ _ _ Hres). apply waits_free; [done|by apply Haw|]. intros [(q & -> & Hq)|?]; [|by right]. by destruct (Hne q).
    + destruct (free_peers W rest d1 Hf1 Hsec) as (d2 & E2 & Hp). rewrite E2 in Hres. rewrite (guarded_ret _ _ _ Hres). eapply fpost_mono, Hp.
      intros [(q & -> & Hq)|?]; [|done]. by destruct (Hne q).
  - rewrite (guarded_ret _ _ _ Hres). by apply waits_asking.
Qed.

Definition uncalled (told : bool) (d : PeerDiscovery) : Prop :=
  free (side_of p d) ∧ queued p d = [] ∧ active p d = None ∧ (told = true → owed d).
Lemma fpost_uncalled (due : Prop) told d : fpost due d → queued p d = [] → (told = true → existsb (mentions p) (d_works d) = true ∨ due) →
  uncalled told d ∨ calling d.
Proof.
  intros [(Hf & Ha & Hd)|(a & Hask & Ha)] Hq Ht.
  - left. split_and!; [done..|]. intros [?|?]%Ht; [by left|right; auto].
  - right. right. split; [done|]. right. left. by exists a.
Qed.
Lemma uncalled_outside told e d ws : uncalled told d → outside p e d (step e d) ws → heard p [e] = [] → uncalled (told || announces p e) (step e d).
Proof.
  intros (Hf & Hq & Ha & Ht) [Hside Hrun Hworks Hws Hm] Hh. split_and!.
  - destruct Hside as [->|[Hb _]]; [done|]. destruct Hf as (Hp & He & _). cbn in Hp, He. apply om_has_false in Hp. by rewrite /busy Hp He in Hb.
  - unfold queued in *. by rewrite Hworks omap_app Hq Hws Hh.
  - unfold active in *. by rewrite Hrun.
  - unfold owed, owed_run in *. rewrite Hworks Hrun existsb_app. intros [Htt|Han]%orb_prop.
    + destruct (Ht Htt) as [->|?]; [by left|by right].
    + left. rewrite (Hm Han). apply orb_true_r.
Qed.
Lemma uncalled_step told e d : uncalled told d → calm p e d = true → heard p [e] = [] →
  uncalled (told || announces p e) (step e d) ∨ calling (step e d).
Proof.
  intros Hu Hc Hh. destruct e as [| | | |W|W r| | | | |];
    try (edestruct outside_chain as [ws Hws]; [| |left; by eapply uncalled_outside]; [done|exact Hc]); cbn [announces]; rewrite orb_false_r.
  - cbn [calm] in Hc. apply andb_prop in Hc as [Hsec Hst]. unfold step. cbn [on_event]. rewrite get_bind.
    destruct (d_running d) as [r|] eqn:Hr; [by left|]. destruct (d_works d) as [|w ws] eqn:Hw; [by left|]. rewrite modify_bind.
    destruct Hu as (Hf & Hq & Ha & Ht). unfold queued in Hq. rewrite Hw in Hq. cbn in Hq. destruct (keyed_work p w) eqn:Hk; [done|].
    set (d1 := d <| d_works := ws |>). pose proof (work_works W w d1) as Hws.
    apply (fpost_uncalled (mentions p w = true)); [by apply free_work|unfold queued; by rewrite Hws|]. intros Htt. rewrite Hws.
    destruct (Ht Htt) as [Hex|Hrun]; [|unfold owed_run in Hrun; by rewrite Hr in Hrun]. rewrite Hw in Hex. cbn in Hex. apply orb_prop in Hex as [?|?]; [by right|by left].
  - cbn [calm] in Hc. apply andb_prop in Hc as [Hsec Hset]. unfold step. cbn [on_event].
    destruct (d_running d) as [[a rest]|] eqn:Hr; [|unfold guarded, resume, try_catch; rewrite get_bind Hr; by left].
    destruct Hu as (Hf & Hq & Ha & Ht). unfold active in Ha. rewrite Hr in Ha. destruct (about p a) eqn:Hab; [done|].
    eapply fpost_uncalled; [by apply (free_resume W r a rest)|unfold queued; by rewrite resume_works|]. intros Htt. rewrite resume_works.
    destruct (Ht Htt) as [?|Hrun]; [by left|right]. unfold owed_run in Hrun. by rewrite Hr in Hrun.
Qed.
Lemma uncalled_run es : ∀ told d, uncalled told d ∨ calling d → calms p es d = true → heard p es = [] →
  uncalled (told || existsb (announces p) es) (run es d) ∨ calling (run es d).
Proof.
  induction es as [|e es IH]; intros told d Hd Hc Hh; [cbn; by rewrite orb_false_r|].
  cbn [calms] in Hc. apply andb_prop in Hc as [Hc Hcs].
  assert (heard p (e :: es) = heard p [e] ++ heard p es) as He by (unfold heard; by rewrite -omap_app).
  rewrite He in Hh. apply app_nil in Hh as [Hh Hhs]. cbn [run foldl existsb]. rewrite orb_assoc. apply IH; [|done..].
  destruct Hd as [Hu|Hcall]; [by apply uncalled_step|right; by apply calling_step].
Qed.
(** Told of [p], a chain that is done has sent one offer; and nothing else is sent. *)
Lemma told_asked es d : apart p d → d_mode d = WebRtcMode → str_ltb p (d_nodeId d) = false → base = sent p d →
  calms p es d = true → heard p es = [] → existsb (announces p) es = true ∧ idle (run es d) ∨ sent p (run es d) ≠ base →
  asked (side_of p (run es d)) (d_out (run es d)) ∧ queued p (run es d) = [] ∧ active p (run es d) = None.
Proof.
  intros (Hb & Hq & Ha) Hm Hlt Hbase Hc Hh Hdone. apply orb_false_elim in Hb as [Hp He].
  assert (uncalled false d) as Hu by (split_and!; try done; by apply om_has_false in Hp).
  destruct (uncalled_run es false d (or_introl Hu) Hc Hh) as [(Hf & _ & _ & Ho)|[[? _]|[_ [([] & _)|[(b & Hask & _ & Ha1)|HZ]]]]]; try done.
  - destruct Hdone as [[Han [Hw Hr]]|Hs]; [|by destruct Hf as (_ & _ & Hsent & _)]. rewrite Han in Ho.
    destruct (Ho eq_refl) as [Hex|Hrun]; [by rewrite Hw in Hex|unfold owed_run in Hrun; by rewrite Hr in Hrun].
  - destruct Hdone as [[_ [_ Hr]]|Hs]; [unfold active in Ha1; by rewrite Hr in Ha1|by destruct Hask as (? & ? & _ & _ & _ & Hsent & _)].
Qed.
End offers.

(** ** The one who answers *)

(** The key that two secrets agree on. *)
Definition agreed (sA sB key : buffer) : Prop :=
  length key = 32%nat ∧ deriveSessionKey (new_key_exchange sA) (Str (pub_of sB)) None = Ret key ∧
  deriveSessionKey (new_key_exchange sB) (Str (pub_of sA)) None = Ret key.
Lemma pub_given secret : length secret = 32%nat → key_given (Some (pub_of secret)) = Some (pub_of secret).
Proof.
  intros Hl. unfold pub_of, exportPublicKey, new_key_exchange. cbn [kx_publicKey].
  destruct (public_ok _ Hl) as [_ Hp]. by destruct (getPublicKey secret) as [|x [|y [|z r]]].
Qed.
Lemma completes p secret pub key (d : PeerDiscovery) : om_get p (d_sessions d) = Some (keyed_session secret None) →
  deriveSessionKey (new_key_exchange secret) (Str pub) None = Ret key →
  complete_session p pub d = (Ret tt, d <| d_sessions ::= om_set p (keyed_session secret (Some key)) |>).
Proof. intros Hs Hk. unfold complete_session. by rewrite (Crypto.complete_session p (Str pub) _ _ key Hs Hk). Qed.

Section answers.
Context (p : jstr) (base : list Signal) (sA : buffer) (sA_32 : length sA = 32%nat) (offer : SDP) (g : option Z).

(** [p] is to make the offers. *)
Definition listening (v : side) : Prop := s_mode v = WebRtcMode ∧ str_ltb p (s_id v) = true.
Definition unanswered (v : side) : Prop := listening v ∧ s_sent v = base.
Definition answering (a : Await) (v : side) : Prop :=
  ∃ sB key, agreed sA sB key ∧ length sB = 32%nat ∧ listening v ∧ s_session v = Some (keyed_session sB (Some key)) ∧ s_sent v = base ∧ a = AAnswer p (pub_of sB).
Definition answered (v : side) (o : list Call) : Prop :=
  ∃ sB key answer g', agreed sA sB key ∧ length sB = 32%nat ∧ listening v ∧ s_session v = Some (keyed_session sB (Some key)) ∧
    s_sent v = base ++ [SAnswer answer (Some (pub_of sB)) g'] ∧ CQuicKey p key ∈ o.

Lemma answer_starts W d : unanswered (side_of p d) → secret_ok W = true → steady p W d = true →
  ∃ a d', _handleSignal W p (SOffer offer (Some (pub_of sA)) g) d = (Ret (Some a), d') ∧ answering a (side_of p d').
Proof.
  intros [Hl Hb] Hsec [Hst _]%andb_prop. apply bool_decide_eq_true in Hsec. apply negb_true_iff in Hst.
  destruct (shared_by_text sA (w_secret W) sA_32 Hsec) as (key & Hlen & HkA & HkB).
  set (d1 := (set_ice_gen p g d).2). set (d2 := opened W p (MkPending false (w_now W)) d1).
  set (d3 := d2 <| d_sessions ::= om_set p (keyed_session (w_secret W) (Some key)) |>).
  exists (AAnswer p (new_key W)), (call (CHandleOffer p offer) d3).2. split.
  - cbn [_handleSignal]. unfold _handleOffer. rewrite (run_bind _ _ _ tt d1) // Hst open_try. unfold try_catch, complete_if_given. rewrite pub_given //.
    rewrite (run_bind _ _ _ tt d3) //. apply completes; [|done]. cbn. by rewrite om_get_set_eq.
  - assert (side_of p d1 = side_of p d) as Hs1 by by destruct g.
    assert (listening (side_of p d1) ∧ s_sent (side_of p d1) = base) as [Hl1 Hb1] by (by rewrite Hs1).
    exists (w_secret W), key. split_and!; try done.
    + cbn -[d1]. by rewrite om_get_set_eq.
    + cbn -[d1] in *. unfold sent in *. cbn -[d1]. by rewrite omap_app Hb1 /= app_nil_r.
Qed.
Lemma answer_ends W r a d : answering a (side_of p d) → settles_well p a r = true →
  ∃ d', continue W a r d = (Ret None, d') ∧ answered (side_of p d') (d_out d').
Proof.
  intros (sB & key & Hag & Hl & Hli & Hs & Hb & ->) Hset. cbn [settles_well about] in Hset. rewrite bool_decide_eq_true_2 // in Hset.
  destruct r as [|answer|]; try done. cbn [continue]. set (sig := CSignal p (SAnswer answer (Some (pub_of sB)) (positive_gen (w_hsGen W p))) : Call).
  set (d1 := (call sig d).2). set (d2 := (call (CQuicKey p key) d1).2). exists d2. split.
  - rewrite (run_bind _ _ _ tt d1) // (run_bind _ _ _ tt d2) //. unfold quic_key. rewrite get_bind /getSessionKey. cbn in Hs |- *. by rewrite Hs.
  - exists sB, key, answer, (positive_gen (w_hsGen W p)). split_and!; try done.
    + cbn in *. unfold sent in *. cbn. rewrite !omap_app Hb /=. by rewrite bool_decide_eq_true_2 // app_nil_r.
    + cbn. set_solver.
Qed.
Lemma heard_answered es d : apart p d → d_mode d = WebRtcMode → str_ltb p (d_nodeId d) = true → base = sent p d →
  calms p es d = true → heard p es = [SOffer offer (Some (pub_of sA)) g] →
  idle (run es d) ∨ sent p (run es d) ≠ base → answered (side_of p (run es d)) (d_out (run es d)).
Proof.
  intros (_ & Hq & Ha) Hm Hlt Hbase Hc Hh Hi.
  assert (∀ v, listening v → settled p v) as Hset by (by intros v ?; right; right).
  eapply (exchange_served p _ unanswered answering answered); try done.
  - intros v [? _]. by apply Hset.
  - intros a v (? & ? & _ & _ & ? & _). by apply Hset.
  - intros v o (? & ? & ? & ? & _ & _ & ? & _). by apply Hset.
  - intros v o os (sB & key & answer & g' & ? & ? & ? & ? & ? & ?). exists sB, key, answer, g'. split_and!; try done. apply elem_of_app. by left.
  - intros a v (sB & key & _ & _ & _ & _ & _ & ->). by apply bool_decide_eq_true.
  - apply answer_starts.
  - apply answer_ends.
  - left. by split_and!.
  - destruct Hi as [?|Hs]; [by left|right]. split; [by intros [_ ?]|]. by intros a (sB & key & _ & _ & _ & _ & ? & _).
Qed.
End answers.

(** ** The one who offered takes the answer *)

Section completes.
Context (p : jstr) (sA sB key : buffer) (sB_32 : length sB = 32%nat) (HK : agreed sA sB key) (answer : SDP) (g : option Z).

Definition offered (v : side) : Prop := connecting v ∧ s_session v = Some (keyed_session sA None).
Definition finishing (a : Await) (v : side) : Prop := offered v ∧ a = ARemote p (Some (pub_of sB)).
Definition finished (v : side) (o : list Call) : Prop := connecting v ∧ s_session v = Some (keyed_session sA (Some key)) ∧ CQuicKey p key ∈ o.

Lemma finish_starts W d : offered (side_of p d) →
  ∃ a d', _handleSignal W p (SAnswer answer (Some (pub_of sB)) g) d = (Ret (Some a), d') ∧ finishing a (side_of p d').
Proof. intros [Hc Hs]. do 2 eexists. split; [reflexivity|]. split; [|done]. by destruct g. Qed.
Lemma finish_ends W r a d : finishing a (side_of p d) → settles_well p a r = true →
  ∃ d', continue W a r d = (Ret None, d') ∧ finished (side_of p d') (d_out d').
Proof.
  intros [[Hc Hs] ->] Hset. cbn [settles_well about] in Hset. rewrite bool_decide_eq_true_2 // in Hset.
  destruct HK as (_ & HkA & _). set (d1 := d <| d_sessions ::= om_set p (keyed_session sA (Some key)) |>).
  set (d2 := (call (CQuicKey p key) d1).2 : PeerDiscovery). exists d2. split.
  - assert (continue W (ARemote p (Some (pub_of sB))) r = (try_catch (complete_session p (pub_of sB) ;; quic_key p) (λ _, drop_pending p) ;; mret None)) as ->.
    { destruct r; cbn [continue]; rewrite ?pub_given //. }
    rewrite (run_bind _ _ _ tt d2) //. unfold try_catch. rewrite (run_bind _ _ _ tt d1); [|by apply completes].
    unfold quic_key. rewrite get_bind /getSessionKey. cbn. by rewrite om_get_set_eq.
  - split_and!; [done| |]; cbn; [by rewrite om_get_set_eq|set_solver].
Qed.
Lemma heard_finished es d : offered (side_of p d) → queued p d = [] → active p d = None →
  calms p es d = true → heard p es = [SAnswer answer (Some (pub_of sB)) g] → idle (run es d) → finished (side_of p (run es d)) (d_out (run es d)).
Proof.
  intros Ho Hq Ha Hc Hh Hi. eapply (exchange_served p _ offered finishing finished); try done.
  - intros v [? _]. by apply connecting_settled.
  - intros a v [[? _] _]. by apply connecting_settled.
  - intros v o [? _]. by apply connecting_settled.
  - intros v [_ ?]. split; [apply connecting_connected|done].
  - intros a v [[_ ?] ->]. split; [|done]. split; [apply connecting_connected|done].
  - intros v o [_ ?]. split; [apply connecting_connected|done].
  - intros v o os (? & ? & ?). split_and!; [done..|]. apply elem_of_app. by left.
  - intros a v [_ ->]. by apply bool_decide_eq_true.
  - intros W d' Ho' _ _. by apply finish_starts.
  - apply finish_ends.
  - left. by split_and!.
  - by left.
Qed.
End completes.
End handshake.

(** C3: two nodes that shake hands hold the same key.  A and B are in WebRTC mode, A has
    the smaller id, and nothing is going on between them ([apart]): no connection or
    handshake, no message of the other in the chain.  Their histories are any events,
    of whatever other peers, of candidates, joins, leaves, timers and works, in any
    order, with or without the wait for the TUN, in which the handshake is not broken
    ([calms]): the TUN comes up, offers and answers of the other node are made and
    accepted, no transport to it breaks or comes without a handshake, it is not
    connected by a WebSocket, it does not leave the signalling server's list when a
    leave timer fires, and no handshake with it gets 20 seconds old.  Of B, A first hears
    nothing but candidates and announcements, and it is told of B and done with its works,
    or has sent B something anyhow; the signalling channel brings B what A sent it, and
    then A what B sent it ([sent], [heard]: offers, answers and keys, without the
    candidates); B is done with its works, or has sent A something anyhow; and A is done
    with its works at the end.  Then A sent one offer and B one answer, and both sessions
    are established with the same 32-byte key, which both passed to the transport. *)
Theorem handshake_agrees {SDP Cand} `{KeyAgreement} (dA dB : @PeerDiscovery SDP Cand) (esA esB esA' : list Event) :
  let A := d_nodeId dA in let B := d_nodeId dB in
  let a := run esA dA in let b := run esB dB in let a' := run esA' a in
  d_mode dA = WebRtcMode → d_mode dB = WebRtcMode → str_ltb A B = true → apart B dA → apart A dB →
  calms B esA dA = true → calms A esB dB = true → calms B esA' a = true →
  heard B esA = [] → existsb (announces B) esA = true ∧ idle a ∨ sent B a ≠ sent B dA →
  sent B a = sent B dA ++ heard A esB → idle b ∨ sent A b ≠ sent A dB → sent A b = sent A dB ++ heard B esA' → idle a' →
  ∃ offer pubA gA answer pubB gB key,
    heard A esB = [SOffer offer (Some pubA) gA] ∧ heard B esA' = [SAnswer answer (Some pubB) gB] ∧ length key = 32%nat ∧
    getSessionKey B (d_sessions a') = Some key ∧ getSessionKey A (d_sessions b) = Some key ∧
    CQuicKey B key ∈ d_out a' ∧ CQuicKey A key ∈ d_out b.
Proof.
  intros A B a b a' HmA HmB Hlt HA HB CA CB CA' Hno Ia Hab Ib Hba Ia'.
  assert (str_ltb B A = false) as Hlt'.
  { rewrite str_ltb_total ?Hlt //. intros He. unfold A, B in *. rewrite He str_ltb_irrefl in Hlt. done. }
  destruct (told_asked B (sent B dA) esA dA HA HmA Hlt' eq_refl CA Hno Ia) as [(sA & offer & gA & HlA & HsA & Hcon & Hout) [Hqa0 Haa0]].
  cbn [s_sent side_of] in Hout. rewrite Hab in Hout. apply app_inv_head in Hout.
  destruct (heard_answered A (sent A dB) sA HlA offer gA esB dB HB HmB Hlt eq_refl CB Hout Ib)
    as (sB & key & answer & gB & HK & HlB & _ & HsB & Houtb & Hqb).
  cbn [s_sent side_of] in Houtb. rewrite Hba in Houtb. apply app_inv_head in Houtb.
  destruct (heard_finished B sA sB key HlB HK answer gB esA' a) as (_ & Hk & Hqa); [by split|done..|].
  exists offer, (pub_of sA), gA, answer, (pub_of sB), gB, key. split_and!; [done|done|by destruct HK|..|done|done].
  - unfold getSessionKey. cbn [s_session side_of] in Hk. by rewrite Hk.
  - unfold getSessionKey. cbn [s_session side_of] in HsB. by rewrite HsB.
Qed.

(** ** Two nodes

    A is told of another peer and of B, whose offer comes second; a candidate and a join
    of B come in between, and B is told of A while it answers. *)

Definition sig_a := @SOffer jstr jstr (js "sdp") (Some (@new_key toy_agreement (demo_W 0 5))) (positive_gen 1).
Definition sig_b := @SAnswer jstr jstr (js "sdp2") (Some (@new_key toy_agreement (demo_W 1 4))) (positive_gen 1).
Definition es_a : list (@Event jstr jstr) :=
  [PeersUpdated [MkPeer (js "c") None; peer_b]; NextWork (demo_W 0 3); TransportConnected (js "d"); Resume (demo_W 0 3) Done;
   PeerJoin peer_b; Resume (demo_W 0 4) Failed; Resume (demo_W 0 5) Done; GotSignal (js "b") (SIce (js "candidate") None);
   Resume (demo_W 0 6) (GotSdp (js "sdp")); NextWork (demo_W 1 7); Resume (demo_W 1 7) Done; NextWork (demo_W 1 8); Resume (demo_W 1 8) Failed].
Definition es_b : list (@Event jstr jstr) :=
  [GotSignal (js "a") sig_a; PeersUpdated [peer_a]; NextWork (demo_W 1 4); GotSignal (js "a") (SIce (js "candidate") (Some 1));
   Resume (demo_W 1 0) (GotSdp (js "sdp2")); NextWork (demo_W 2 0); Resume (demo_W 2 0) Done; NextWork (demo_W 2 0); Resume (demo_W 2 0) Done].
Definition es_a' : list (@Event jstr jstr) :=
  [PeerLeave (js "c"); GotSignal (js "b") sig_b; NextWork (demo_W 2 0); NextWork (demo_W 2 0); Resume (demo_W 2 0) Done;
   TransportConnected (js "b"); LeaveTimer (demo_W 4002 0) (js "c")].

Lemma handshake_agrees_witness :
  let H := toy_agreement in
  let a := run es_a' (run es_a (disc_node (js "a") WebRtcMode None)) in
  let b := run es_b (disc_node (js "b") WebRtcMode None) in
  d_awaitTun a = true ∧ d_established a = [js "d"; js "b"] ∧
  ∃ key, length key = 32%nat ∧ getSessionKey (js "b") (d_sessions a) = Some key ∧ getSessionKey (js "a") (d_sessions b) = Some key.
Proof.
  intros H a b. split; [vm_compute; reflexivity|]. split; [vm_compute; reflexivity|].
  destruct (@handshake_agrees jstr jstr H (disc_node (js "a") WebRtcMode None) (disc_node (js "b") WebRtcMode None) es_a es_b es_a')
    as (offer & pubA & gA & answer & pubB & gB & key & _ & _ & Hl & Ka & Kb & _).
  1-3: vm_compute; reflexivity.
  1,2: repeat split.
  1-4: vm_compute; reflexivity.
  1: left; split; [vm_compute; reflexivity|split; vm_compute; reflexivity].
  1: vm_compute; reflexivity.
  1: right; vm_compute; discriminate.
  1: vm_compute; reflexivity.
  1: split; vm_compute; reflexivity.
  exists key. split; [exact Hl|]. split; [exact Ka|exact Kb].
Defined.
