(* ===== verification/Connectivity.v ===== *)
(** * Discovery over the transport manager

    The manager's events are discovery's ([transportManager.on(...)] in
    [_setupTransportEvents]), and what discovery closes the manager closes.  A run of
    the two is a list of things that happen to a transport or to discovery. *)

From S2P Require Import Prelude JsMap Bytes JsString Effects Crypto Transports Discovery DiscoveryFlow.
Local Open Scope Z_scope.
#[local] Unset Default Proof Using.

Section connectivity.
Context {SDP Cand : Type}.
Context `{KeyAgreement}.
Abbreviation PeerDiscovery := (@PeerDiscovery SDP Cand).
Abbreviation Event := (@Event SDP Cand).
Abbreviation Call := (@Call SDP Cand).
Abbreviation D := (@D SDP Cand).

Record Stack := MkStack { s_manager : TransportManager; s_discovery : PeerDiscovery }.

(** A transport gains or loses a peer, or anything else happens to discovery, in the
    course of which it may close peers; [reports p]: the transports that report the
    closing of [p] at once, which [W] says too ([closeReports]). *)
Inductive Happening :=
  | HConnected (t : TransportType) (p : jstr)
  | HLost (W : World) (t : TransportType) (p : jstr)
  | HDiscovery (e : Event) (reports : jstr → list TransportType).

Definition feed (W : World) (d : PeerDiscovery) (e : ManagerEvent) : PeerDiscovery :=
  match e with
  | PeerConnected p _ => step (TransportConnected p) d
  | PeerDisconnected p => step (TransportDisconnected W p) d
  end.
Definition no_world : World := MkWorld 0 [] (λ _, None) (λ _, false) (λ _, []) (λ _, 0) (λ _, false).

(** The peers an event made discovery close. *)
Definition closed_by (e : Event) (d : PeerDiscovery) : list jstr :=
  base.omap (λ c, match c with CClose p => Some p | _ => None end) (drop (length (d_out d)) (d_out (step e d))).

Definition happen (h : Happening) (s : Stack) : Stack :=
  let '(MkStack m d) := s in
  match h with
  | HConnected t p => let '(m, es) := tm_step (TConnected t p) m in MkStack m (foldl (feed no_world) d es)
  | HLost W t p => let '(m, es) := tm_step (TDisconnected t p) m in MkStack m (foldl (feed W) d es)
  | HDiscovery e reports =>
      MkStack (foldl (λ m p, (tm_step (TClose p (reports p)) m).1) m (closed_by e d)) (step e d)
  end.

(** Events other than the manager's own. *)
Definition own_event (e : Event) : Prop :=
  match e with TransportConnected _ | TransportDisconnected _ _ => False | _ => True end.
Definition happening_ok (h : Happening) : Prop := match h with HDiscovery e _ => own_event e | _ => True end.

(** ** The established peers *)

(** Since [d0], exactly the peers of the [CClose] calls have been dropped. *)
Definition est_since (d0 : PeerDiscovery) (d : PeerDiscovery) : Prop :=
  ∃ os, d_out d = d_out d0 ++ os ∧ ∀ p, p ∈ d_established d ↔ p ∈ d_established d0 ∧ CClose p ∉ os.

Lemma est_closed d0 : closed (λ c, is_close c = false) (est_since d0).
Proof.
  constructor; try done. intros c d Hc (os & Ho & He). exists (os ++ [c]). cbn. rewrite Ho -app_assoc. split; [done|].
  intros p. rewrite He not_elem_of_app list_elem_of_singleton. naive_solver.
Qed.

(** While [q] is closed. *)
Definition est_without (q : jstr) (d0 d : PeerDiscovery) : Prop := est_since d0 d ∧ q ∉ d_established d.
Lemma est_without_closed q d0 : closed (λ c, is_close c = false) (est_without q d0).
Proof.
  destruct (est_closed d0). by constructor; intros; match goal with Hs : est_without _ _ _ |- _ => destruct Hs end; split; auto.
Qed.
Lemma est_drop d0 W q : keeps (est_since d0) (drop_peer W q : D ()).
Proof.
  intros d Hd. unfold drop_peer, remove_session, tm_close. rewrite !modify_bind.
  match goal with |- est_since _ (when _ _ ?x).2 => set (d1 := x) end.
  assert (est_without q d0 d1) as Hd1.
  { destruct Hd as (os & Ho & He). split; [|cbn; rewrite os_elem_delete; tauto]. exists (os ++ [CClose q]). cbn. rewrite Ho -app_assoc.
    split; [done|]. intros p. rewrite os_elem_delete He not_elem_of_app list_elem_of_singleton. naive_solver. }
  clearbody d1. unfold when. destruct (w_closeReports W q); [|by destruct Hd1].
  destruct (closed_disconnected _ (λ c Hc, Hc) _ (est_without_closed q d0) W q) with d1; [|done|done].
  intros d' [(os & Ho & He) Hq]. split; [|cbn; rewrite os_elem_delete; tauto]. exists os. split; [done|]. intros p. cbn.
  rewrite os_elem_delete He. split; [tauto|]. intros Hp. split; [|done]. intros ->. by apply Hq, He.
Qed.

Lemma est_event e d : own_event e → est_since d (step e d).
Proof.
  intros He. pose proof (est_closed d) as C. apply (closed_event _ (λ c Hc, Hc) _ C).
  - by intros ws d'.
  - intros n _. by apply (closed_peerLeave _ _ C).
  - by intros p ->.
  - by intros W p ->.
  - intros W p _. apply est_drop.
  - exists []. rewrite app_nil_r. split; [done|]. intros p. split; [|tauto]. intros Hp. split; [done|]. apply not_elem_of_nil.
Qed.

Lemma established_after e d p : own_event e → p ∈ d_established (step e d) ↔ p ∈ d_established d ∧ p ∉ closed_by e d.
Proof.
  intros He. destruct (est_event e d He) as (os & Ho & Hp). rewrite Hp /closed_by Ho drop_app_length list_elem_of_omap.
  split; (intros [H1 H2]; split; [done|]).
  - intros (c & Hc & Hs). destruct c; simplify_eq/=; auto.
  - intros Hc. apply H2. by exists (CClose p).
Qed.

(** ** Together *)

Definition agree (s : Stack) : Prop :=
  peers_ok (s_manager s) ∧ ∀ p, p ∈ d_established (s_discovery s) ↔ isConnected p (s_manager s) = true.

Lemma est_connected W t p d q : q ∈ d_established (foldl (feed W) d [PeerConnected p t]) ↔ q = p ∨ q ∈ d_established d.
Proof. cbn. by rewrite os_elem_add. Qed.
Lemma est_disconnected W p d q : q ∈ d_established (foldl (feed W) d [PeerDisconnected p]) ↔ q ≠ p ∧ q ∈ d_established d.
Proof.
  cbn [foldl feed]. unfold step. cbn [on_event].
  assert (d_established (on_peer_disconnected W p d).2 = os_delete p (d_established d)) as ->.
  { unfold on_peer_disconnected, mbind, SM_bind, when. cbn. by destruct (bool_decide _). }
  apply os_elem_delete.
Qed.

Lemma close_all_spec reports ps m : peers_ok m →
  let m' := foldl (λ m p, (tm_step (TClose p (reports p)) m).1) m ps in
  peers_ok m' ∧ ∀ u q, live u q m' ↔ q ∉ ps ∧ live u q m.
Proof.
  revert m. induction ps as [|p ps IH]; intros m Hm m'; [split; [done|]; intros u q; rewrite elem_of_nil; naive_solver|].
  destruct (close_spec p (reports p) m Hm) as [Hm1 Hl1]. destruct (IH _ Hm1) as [Hok Hl]. split; [done|]. intros u q.
  rewrite Hl Hl1 not_elem_of_cons. tauto.
Qed.

Lemma happen_agrees h s : happening_ok h → agree s → agree (happen h s).
Proof.
  destruct s as [m d]. intros Hh [Hm Ha]. unfold agree in *. cbn [s_manager s_discovery] in *.
  assert (∀ q, q ∈ d_established d ↔ ∃ u, live u q m) as Hq by (intros q; rewrite Ha; by apply connected_live).
  destruct h as [t p|W t p|e reports]; cbn [happen].
  - cbn [tm_step]. destruct (connected_spec t p m Hm) as [Hm' Hl]. destruct (on_transport_connected t p m) as [m' es] eqn:E.
    assert (es = [PeerConnected p t]) as -> by (by injection E). split; [done|]. intros q.
    rewrite est_connected Hq connected_live //. setoid_rewrite Hl. naive_solver.
  - cbn [tm_step]. destruct (on_transport_disconnected t p m) as [m' es] eqn:E.
    destruct (disconnected_spec _ _ _ _ _ Hm E) as (Hm' & Hl & Hes). split; [done|]. intros q.
    cbn [s_manager s_discovery]. rewrite connected_live //.
    destruct Hes as [[-> [u Hu]]|[-> Hn]]; [rewrite /= Hq|rewrite est_disconnected Hq]; setoid_rewrite Hl.
    + apply Hl in Hu. destruct (decide (q = p)) as [->|]; naive_solver.
    + assert (∀ u, live u p m → u = t) as Ht.
      { intros u Hu. destruct (decide (u = t)) as [|Hne]; [done|]. assert (live u p m') as Hu' by (apply Hl; naive_solver).
        unfold live, getAvailableTransports in Hu'. rewrite Hn in Hu'. by apply elem_of_nil in Hu'. }
      destruct (decide (q = p)) as [->|]; naive_solver.
  - destruct (close_all_spec reports (closed_by e d) m Hm) as [Hm' Hl]. split; [done|]. intros q.
    rewrite established_after // Hq connected_live //. setoid_rewrite Hl. naive_solver.
Qed.
End connectivity.

(** discovery knows who is connected.  Whatever happens to the transports (several
    may carry the same peer), to the signalling channel and to the timers, in any
    order, the peers discovery holds established are at every moment exactly those
    that have a transport up: what the manager tells discovery when the last transport
    of a peer goes, and what discovery makes the manager close, keep the two in step. *)
Theorem established_are_connected {SDP Cand} `{KeyAgreement} nodeId mode ds tun w q s order
    (hs : list (@Happening SDP Cand)) :
  Forall happening_ok hs →
  let st := foldl (λ st h, happen h st) (MkStack (new_manager w q s order) (new_discovery nodeId mode ds tun)) hs in
  ∀ p, p ∈ d_established (s_discovery st) ↔ isConnected p (s_manager st) = true.
Proof.
  intros Hhs st. enough (agree st) as [_ Ha] by exact Ha.
  assert (agree (MkStack (new_manager w q s order) (new_discovery (SDP := SDP) (Cand := Cand) nodeId mode ds tun))) as H0.
  { split; [split; [constructor|done]|]. intros p. cbn. by rewrite elem_of_nil. }
  unfold st. clear st. revert H0. generalize (MkStack (new_manager w q s order) (new_discovery (SDP := SDP) (Cand := Cand) nodeId mode ds tun)).
  induction Hhs as [|h hs Hh _ IH]; intros st Hst; [done|]. by apply IH, happen_agrees.
Qed.

Lemma established_are_connected_witness :
  let H := toy_agreement in
  let hs := [HConnected webrtc (js "b"); HConnected websocket (js "b"); HLost no_world webrtc (js "b");
             HDiscovery (PeerLeave (js "b")) (λ _, []); HDiscovery (NextWork no_world) (λ _, []);
             HLost no_world websocket (js "b")] in
  let st k := foldl (λ st h, happen h st)
                (MkStack (new_manager true true true None) (new_discovery (SDP := jstr) (Cand := jstr) (js "a") AutoMode None false)) (take k hs) in
  d_established (s_discovery (st 5%nat)) = [js "b"] ∧ isConnected (js "b") (s_manager (st 5%nat)) = true ∧
  d_established (s_discovery (st 6%nat)) = [] ∧ isConnected (js "b") (s_manager (st 6%nat)) = false.
Proof.
  intros H hs st. split; [vm_compute; reflexivity|].
  split; [apply (@established_are_connected jstr jstr H); [repeat (constructor; [exact I|]); constructor|vm_compute; left]|].
  split; vm_compute; reflexivity.
Defined.
