(* ===== verification/UserspaceNat.v ===== *)
(** * The userspace NAT of an exit node (src/exit/userspace-nat.js)

    The exit terminates the TCP connections of the tunnel itself: it answers the
    client's segments, carries the bytes over a socket of the operating system
    and builds the segments that bring the server's bytes back.  Connection
    objects live in a store ([conns], indexed by creation) because the event
    handlers of a socket keep the object after the table of connections has
    forgotten it; [tcpConnections] maps a 4-tuple to an index.  Calls that leave
    the program ([sendResponse], sockets, the ICMP helper) are recorded in
    [out], in order; a [sendResponse] closure is an identity, since the node
    passes a fresh one for each packet.  Metrics and console output are left out. *)

From S2P Require Import Prelude JsMap Bytes JsString Effects MeshPacket IpPacket.
Local Open Scope Z_scope.

Inductive TCP_STATE : Type := CONNECTING | ESTABLISHED | FIN_WAIT | CLOSED.
#[export] Instance tcp_state_eq_dec : EqDecision TCP_STATE.
Proof. solve_decision. Defined.

Inductive effect : Type :=
  | Send (f : nat) (node : jstr) (pkt : buffer)
  | SockConnect (s : nat) (port : Z) (host : jstr)
  | SockWrite (s : nat) (d : buffer)
  | SockEnd (s : nat)
  | SockDestroy (s : nat)
  | SockPause (s : nat)
  | SockResume (s : nat)
  | UdpSend (u : nat) (d : buffer) (port : Z) (host : jstr)
  | UdpClose (u : nat)
  | IcmpWrite (cmd : jstr)
  | IcmpKill.

(** A connection; [sock] is its socket ([null] once closed), named by the index
    of the connection, and [lingerCloseTimer] says whether the timer is armed. *)
Record Conn := MkConn {
  key : jstr;
  srcNodeId : jstr;
  c_srcIp : jstr;
  c_srcPort : Z;
  c_dstIp : jstr;
  c_dstPort : Z;
  actualDstIp : jstr;
  sendResponse : nat;
  state : TCP_STATE;
  clientSeq : Z;
  clientAck : Z;
  serverSeq : Z;
  sock : option nat;
  pendingData : list buffer;
  lastActivity : Z;
  pendingResponses : Z;
  synNegotiation : SynOptions;
  peerWindowScaleShift : Z;
  peerRecvWindow : option Z;
  lastPeerAck : option Z;
  serverSocketPaused : bool;
  serverReadBacklog : option buffer;
  eofFromServer : bool;
  finSent : bool;
  clientFinSeen : bool;
  clientFinSeq : option Z;
  socketEndedToServer : bool;
  lingerCloseTimer : bool
}.
#[export] Instance eta_Conn : Eta Conn := λ c,
  MkConn (key c) (srcNodeId c) (c_srcIp c) (c_srcPort c) (c_dstIp c) (c_dstPort c)
    (actualDstIp c) (sendResponse c) (state c) (clientSeq c) (clientAck c) (serverSeq c)
    (sock c) (pendingData c) (lastActivity c) (pendingResponses c) (synNegotiation c)
    (peerWindowScaleShift c) (peerRecvWindow c) (lastPeerAck c) (serverSocketPaused c)
    (serverReadBacklog c) (eofFromServer c) (finSent c) (clientFinSeen c) (clientFinSeq c)
    (socketEndedToServer c) (lingerCloseTimer c).

(** What a connection's code works on: the object, the number of random draws
    made so far, and the effects so far. *)
Record CS := MkCS { cs_conn : Conn; cs_rnd : nat; cs_out : list effect }.
#[export] Instance eta_CS : Eta CS := λ s, MkCS (cs_conn s) (cs_rnd s) (cs_out s).

Record UdpInfo := MkUdp {
  u_srcNodeId : jstr; u_srcIp : jstr; u_srcPort : Z; u_dstIp : jstr; u_dstPort : Z;
  u_sendResponse : nat; u_lastActivity : Z
}.
#[export] Instance eta_UdpInfo : Eta UdpInfo := λ u,
  MkUdp (u_srcNodeId u) (u_srcIp u) (u_srcPort u) (u_dstIp u) (u_dstPort u)
    (u_sendResponse u) (u_lastActivity u).

Record IcmpReq := MkIcmpReq { i_srcIp : jstr; i_srcNodeId : jstr; i_sendResponse : nat }.

Record UserSpaceNAT := MkNat {
  tcpConnections : omap jstr nat;
  conns : list Conn;
  udpSockets : omap jstr nat;
  udps : list UdpInfo;
  connectingCount : Z;
  localVirtualIp : option jstr;
  icmpHelper : bool;
  icmpPending : omap jstr IcmpReq;
  icmpBuffer : jstr;
  rnd : nat;
  out : list effect
}.
#[export] Instance eta_Nat : Eta UserSpaceNAT := λ s,
  MkNat (tcpConnections s) (conns s) (udpSockets s) (udps s) (connectingCount s)
    (localVirtualIp s) (icmpHelper s) (icmpPending s) (icmpBuffer s) (rnd s) (out s).

(** [config.maxPendingResponses ?? 200], [config.connectionTimeout || 300000],
    [config.maxConnections || 50]; the linger delay only sets the timer. *)
Record NatConfig := MkNatConfig {
  tcpMaxPending : Z; connectionTimeout : Z; maxConnections : Z
}.
Definition nat_config (maxPendingResponses timeout maxConns : option Z) : NatConfig :=
  MkNatConfig (default 200 maxPendingResponses) (js_or timeout 300000) (js_or maxConns 50).

Definition new_nat : UserSpaceNAT := MkNat [] [] [] [] 0 None false [] [] 0 [].

(** ** Window arithmetic *)

Definition MSS : nat := 1360.

Definition _scaledPeerRecvWindow (conn : Conn) : Z :=
  let raw := default 65535 (peerRecvWindow conn) in
  let s := peerWindowScaleShift conn in
  if raw =? 0 then 0
  else if (s <=? 0) || (14 <? s) then raw
  else Z.min (raw * 2 ^ s) 0x40000000.

Definition _maxPendingForConn (cfg : NatConfig) (conn : Conn) : Z :=
  let w := _scaledPeerRecvWindow conn in
  if w =? 0 then 0
  else
    let slack := 6 in
    let byWin := w / 1360 + slack in
    Z.min (tcpMaxPending cfg) (Z.max slack byWin).

(** [Math.floor(n * 0.35)] for a positive integer [n]: the double 0.35 is
    6305039478318694 / 2^54 and the product is rounded to 53 bits, ties to even. *)
Definition floor_035 (n : Z) : Z :=
  let p := n * 6305039478318694 in
  let k := Z.max 0 (Z.log2 p - 52) in
  let q := p / 2 ^ k in
  let r := p mod 2 ^ k in
  let q := if (2 ^ k <? 2 * r) || ((2 * r =? 2 ^ k) && Z.odd q) then q + 1 else q in
  (q * 2 ^ k) / 2 ^ 54.

Definition _resumePendingTarget (cfg : NatConfig) (conn : Conn) : Z :=
  let maxP := _maxPendingForConn cfg conn in
  if maxP <=? 0 then 0 else Z.max 4 (floor_035 maxP).

(** ** One connection *)

Section nat.
Variable cfg : NatConfig.
(** The k-th draw of [Math.random()], as an IP identification
    [(Math.random() * 0xffff) >>> 0], as [Math.floor(Math.random() * 65535)] and
    as an initial sequence number [Math.floor(Math.random() * 0xffffffff)]. *)
Variables (random_id random_seq : nat → Z).

Definition conn_upd (f : Conn → Conn) : SM CS () := modify (λ s, s <| cs_conn ::= f |>).
Definition emit (e : effect) : SM CS () := modify (λ s, s <| cs_out ::= λ o, o ++ [e] |>).

(** [buildTCPPacket(dstIp, srcIp, dstPort, srcPort, ...)] for the connection. *)
Definition reply_packet (seq ack flags : Z) (data : buffer) (options : option buffer) :
    SM CS buffer :=
  s ← get;
  let conn := cs_conn s in
  modify (λ s, s <| cs_rnd ::= S |>) ;;
  lift (buildTCPPacket (random_id (cs_rnd s)) (c_dstIp conn) (c_srcIp conn)
          (c_dstPort conn) (c_srcPort conn) seq ack flags data options).

(** [sendResponse(srcNodeId, packet)] with the closure the connection keeps. *)
Definition reply (packet : buffer) : SM CS () :=
  conn ← gets cs_conn;
  emit (Send (sendResponse conn) (srcNodeId conn) packet).

Definition has_backlog (conn : Conn) : bool :=
  match serverReadBacklog conn with Some b => (0 <? length b)%nat | None => false end.

Definition live (conn : Conn) : bool :=
  bool_decide (state conn = ESTABLISHED) || bool_decide (state conn = FIN_WAIT).

Definition _maybeSendServerFin : SM CS () :=
  conn ← gets cs_conn;
  if negb (eofFromServer conn) || finSent conn || negb (bool_decide (state conn = ESTABLISHED))
     || has_backlog conn || (0 <? pendingResponses conn)
  then skip
  else
    conn_upd (λ c, c <| finSent := true |> <| state := FIN_WAIT |>) ;;
    finPacket ← reply_packet (serverSeq conn) (clientAck conn)
                  (Z.lor TCP_FLAGS.FIN TCP_FLAGS.ACK) [] None;
    conn_upd (λ c, c <| serverSeq ::= Z.add 1 |>) ;;
    reply finPacket.

(** The loop over the backlog from [offset], returning the final offset. *)
Fixpoint flush_loop (fuel : nat) (maxP : Z) (backlog : buffer) (offset : nat) : SM CS nat :=
  match fuel with
  | O => mret offset
  | S f =>
      conn ← gets cs_conn;
      if (offset <? length backlog)%nat && (0 <? maxP) && (pendingResponses conn <? maxP) then
        let chunkSize := Nat.min MSS (length backlog - offset) in
        let chunk := subarray offset (offset + chunkSize) backlog in
        let atEndOfBacklog := (length backlog <=? offset + chunkSize)%nat in
        responsePacket ← reply_packet (serverSeq conn) (clientAck conn)
          (if atEndOfBacklog then Z.lor TCP_FLAGS.PSH TCP_FLAGS.ACK else TCP_FLAGS.ACK) chunk None;
        conn_upd (λ c, c <| serverSeq ::= Z.add (blen chunk) |>) ;;
        conn_upd (λ c, c <| pendingResponses ::= Z.add 1 |>) ;;
        reply responsePacket ;;
        flush_loop f maxP backlog (offset + chunkSize)
      else mret offset
  end.

Definition _flushServerReadBacklog : SM CS () :=
  conn ← gets cs_conn;
  if negb (live conn) then skip
  else
    match serverReadBacklog conn with
    | Some ((_ :: _) as backlog) =>
        offset ← flush_loop (S (length backlog)) (_maxPendingForConn cfg conn) backlog 0;
        conn_upd (λ c, c <| serverReadBacklog :=
          if (offset <? length backlog)%nat then Some (drop offset backlog) else None |>) ;;
        _maybeSendServerFin
    | _ => _maybeSendServerFin
    end.

Definition _syncServerSocketPause : SM CS () :=
  conn ← gets cs_conn;
  match sock conn with
  | None => skip
  | Some sk =>
      if negb (live conn) then skip
      else
        let win := default 65535 (peerRecvWindow conn) in
        let maxP := _maxPendingForConn cfg conn in
        let overInFlight := (0 <? maxP) && (maxP <=? pendingResponses conn) in
        let zeroWin := win =? 0 in
        let backlogStuck := has_backlog conn && (overInFlight || zeroWin || (maxP =? 0)) in
        let needPause := zeroWin || overInFlight || backlogStuck in
        let resumeBelow := _resumePendingTarget cfg conn in
        let canResume := serverSocketPaused conn && (0 <? win) && (0 <? maxP)
          && (pendingResponses conn <? resumeBelow) && (pendingResponses conn <? maxP)
          && negb backlogStuck in
        if needPause && negb (serverSocketPaused conn) then
          emit (SockPause sk) ;; conn_upd (λ c, c <| serverSocketPaused := true |>)
        else if canResume then
          emit (SockResume sk) ;; conn_upd (λ c, c <| serverSocketPaused := false |>)
        else skip
  end.

(** The fields of a parsed segment the NAT reads; absent ones are [undefined]. *)
Definition tcp_of (p : IpInfo) : option TcpFields :=
  match transport p with Tcp f => Some f | _ => None end.
Definition flag_of (f : TcpFields → bool) (p : IpInfo) : bool :=
  match tcp_of p with Some t => f t | None => false end.
(** [tcpSeq + n]: [undefined + n] is NaN, which [>>> 0] turns into 0. *)
Definition seq_plus (p : IpInfo) (n : Z) : Z :=
  match tcp_of p with Some t => tcpSeq t + n | None => 0 end.

Definition _updatePeerWindowAndAck (parsed : IpInfo) : SM CS () :=
  conn ← gets cs_conn;
  if negb (live conn) then skip
  else
    conn_upd (λ c, c <| peerRecvWindow := tcpWindow <$> tcp_of parsed |>) ;;
    match tcp_of parsed with
    | Some t =>
        if negb (tcpFlagsACK t) then _flushServerReadBacklog ;; _syncServerSocketPause
        else
          let ack := uint32 (tcpAck t) in
          match lastPeerAck conn with
          | None =>
              conn_upd (λ c, c <| lastPeerAck := Some ack |>) ;;
              _flushServerReadBacklog ;; _syncServerSocketPause
          | Some lastPeer =>
              let prev := uint32 lastPeer in
              let delta := uint32 (ack - prev) in
              when ((0 <? delta) && (delta <? 0x80000000))
                (conn_upd (λ c, c <| lastPeerAck := Some ack |>) ;;
                 when (0 <? pendingResponses conn)
                   (let released := Z.min (pendingResponses conn)
                                      (Z.max 1 ((delta + 1359) / 1360)) in
                    conn_upd (λ c, c <| pendingResponses ::= λ n, n - released |>))) ;;
              _flushServerReadBacklog ;; _syncServerSocketPause
          end
    | None => _flushServerReadBacklog ;; _syncServerSocketPause
    end.

(** ** The NAT *)

(** Run a connection's code on the i-th connection object. *)
Definition on_conn {A} (i : nat) (m : SM CS A) : SM UserSpaceNAT A :=
  zoom (λ s, conns s !! i ≫= λ c, Some (MkCS c (rnd s) (out s)))
    (λ t s, s <| conns ::= <[i := cs_conn t]> |> <| rnd := cs_rnd t |> <| out := cs_out t |>) m.

Definition emit_nat (e : effect) : SM UserSpaceNAT () := modify (λ s, s <| out ::= λ o, o ++ [e] |>).

(** The part of [_closeTCPConnection] on the object; tells whether it was closed already. *)
Definition close_conn : SM CS bool :=
  conn ← gets cs_conn;
  if bool_decide (state conn = CLOSED) then mret true
  else
    conn_upd (λ c, c <| lingerCloseTimer := false |>) ;;
    conn_upd (λ c, c <| state := CLOSED |>) ;;
    match sock conn with
    | Some sk => emit (SockDestroy sk) ;; conn_upd (λ c, c <| sock := None |>)
    | None => skip
    end ;;
    mret false.

Definition _closeTCPConnection (key : jstr) (i : nat) : SM UserSpaceNAT () :=
  closed ← on_conn i close_conn;
  when (negb closed) (modify (λ s, s <| tcpConnections ::= om_delete key |>)).

Definition _scheduleTcpLingerClose (i : nat) : SM UserSpaceNAT () :=
  on_conn i (
    conn ← gets cs_conn;
    when (negb (lingerCloseTimer conn || bool_decide (state conn = CLOSED)))
      (conn_upd (λ c, c <| lingerCloseTimer := true |>))).

(** The linger timer of connection [i] fires. *)
Definition lingerTimer (key : jstr) (i : nat) : SM UserSpaceNAT () :=
  on_conn i (conn_upd (λ c, c <| lingerCloseTimer := false |>)) ;;
  s ← get;
  when (bool_decide (om_get key (tcpConnections s) = Some i)) (_closeTCPConnection key i).

(** *** The handlers of a connection's socket *)

Definition conn_connected (now : Z) (i : nat) : SM CS () :=
  conn ← gets cs_conn;
  if bool_decide (state conn = CLOSED) then emit (SockDestroy i)
  else
    conn_upd (λ c, c <| state := ESTABLISHED |> <| lastActivity := now |>
                     <| peerRecvWindow := Some 65535 |>) ;;
    synAckOpts ← lift (buildSynAckOptions now (synNegotiation conn));
    synAckPacket ← reply_packet (serverSeq conn) (clientSeq conn + 1)
      (Z.lor TCP_FLAGS.SYN TCP_FLAGS.ACK) [] (Some synAckOpts);
    conn_upd (λ c, c <| serverSeq ::= Z.add 1 |>) ;;
    conn_upd (λ c, c <| clientAck := clientSeq c + 1 |>) ;;
    reply synAckPacket ;;
    for_each (λ chunk, emit (SockWrite i chunk)) (pendingData conn) ;;
    conn_upd (λ c, c <| pendingData := [] |>).

Definition onConnect (now : Z) (i : nat) : SM UserSpaceNAT () :=
  modify (λ s, s <| connectingCount ::= λ n, n - 1 |>) ;;
  on_conn i (conn_connected now i).

Definition conn_data (now : Z) (data : buffer) : SM CS () :=
  conn ← gets cs_conn;
  if bool_decide (state conn = CLOSED) then skip
  else
    conn_upd (λ c, c <| lastActivity := now |>) ;;
    conn_upd (λ c, c <| serverReadBacklog ::=
      λ o, Some (match o with Some b => b ++ data | None => data end) |>) ;;
    _flushServerReadBacklog ;;
    _syncServerSocketPause.

Definition onData (now : Z) (i : nat) (data : buffer) : SM UserSpaceNAT () :=
  on_conn i (conn_data now data).

Definition conn_end : SM CS () :=
  conn ← gets cs_conn;
  if bool_decide (state conn = CLOSED) then skip
  else
    conn_upd (λ c, c <| eofFromServer := true |>) ;;
    _flushServerReadBacklog ;;
    _maybeSendServerFin ;;
    _syncServerSocketPause.

Definition onEnd (i : nat) : SM UserSpaceNAT () := on_conn i conn_end.

(** The RST a socket error sends to the client, unless a FIN was sent. *)
Definition conn_reset : SM CS () :=
  conn ← gets cs_conn;
  rstPacket ← reply_packet (serverSeq conn) (clientAck conn) TCP_FLAGS.RST [] None;
  reply rstPacket.

(** [if (conn.finSent) schedule the linger close, else close now] *)
Definition lingerOrClose (i : nat) : SM UserSpaceNAT () :=
  conn ← on_conn i (gets cs_conn);
  if finSent conn then _scheduleTcpLingerClose i else _closeTCPConnection (key conn) i.

Definition onError (i : nat) : SM UserSpaceNAT () :=
  conn ← on_conn i (gets cs_conn);
  if bool_decide (state conn = CLOSED) then skip
  else
    when (bool_decide (state conn = CONNECTING))
      (modify (λ s, s <| connectingCount ::= λ n, n - 1 |>)) ;;
    when (negb (finSent conn)) (on_conn i conn_reset) ;;
    lingerOrClose i.

Definition onTimeout (i : nat) : SM UserSpaceNAT () :=
  conn ← on_conn i (gets cs_conn);
  when (bool_decide (state conn = CONNECTING))
    (modify (λ s, s <| connectingCount ::= λ n, n - 1 |>)) ;;
  emit_nat (SockDestroy i) ;;
  lingerOrClose i.

Definition onClose (i : nat) : SM UserSpaceNAT () :=
  conn ← on_conn i (gets cs_conn);
  if bool_decide (state conn = CLOSED) then skip else lingerOrClose i.

(** *** Segments of the client *)

Definition conn_key (p : IpInfo) : jstr :=
  srcIp p ++ js ":" ++ num_str (srcPort p) ++ js ":" ++ dstIp p ++ js ":" ++ num_str (dstPort p).

Definition localhost : jstr := js "127.0.0.1".

(** [parseTcpSynOptions], whose loop always ends. *)
Definition syn_negotiation (ipPacket : buffer) : outcome SynOptions :=
  default (Throw TypeError) (parseTcpSynOptions ipPacket).

(** A SYN: a new connection object, its place in the table, its socket. *)
Definition handleSyn (now : Z) (parsed : IpInfo) (node : jstr) (f : nat) (ipPacket : buffer)
    (key : jstr) (conn : option Conn) : SM UserSpaceNAT () :=
  st ← get;
  if match conn with Some c => negb (bool_decide (state c = CLOSED)) | None => false end then skip
  else if maxConnections cfg <=? connectingCount st then skip
  else
    modify (λ s, s <| connectingCount ::= Z.add 1 |>) ;;
    let actualDstIp :=
      if bool_decide (localVirtualIp st = Some (dstIp parsed)) && bool_decide (dstIp parsed ≠ [])
      then localhost else dstIp parsed in
    negotiation ← lift (syn_negotiation ipPacket);
    let shift := match wscale negotiation with
      | Some w => if w <=? 14 then w else 0 | None => 0 end in
    let i := length (conns st) in
    modify (λ s, s <| rnd ::= S |>) ;;
    modify (λ s, s <| conns ::= λ l, l ++ [MkConn key node (srcIp parsed) (srcPort parsed)
      (dstIp parsed) (dstPort parsed) actualDstIp f CONNECTING (seq_plus parsed 0) 0
      (random_seq (rnd st)) (Some i) [] now 0 negotiation shift (tcpWindow <$> tcp_of parsed)
      None false None false false false None false false] |>) ;;
    modify (λ s, s <| tcpConnections ::= om_set key i |>) ;;
    emit_nat (SockConnect i (dstPort parsed) actualDstIp).

(** A segment for which there is no connection is answered by a RST. *)
Definition sendReset (parsed : IpInfo) (node : jstr) (f : nat) : SM UserSpaceNAT () :=
  s ← get;
  modify (λ s, s <| rnd ::= S |>) ;;
  rstPacket ← lift (buildTCPPacket (random_id (rnd s)) (dstIp parsed) (srcIp parsed)
    (dstPort parsed) (srcPort parsed) 0 (seq_plus parsed 1)
    (Z.lor TCP_FLAGS.RST TCP_FLAGS.ACK) [] None);
  emit_nat (Send f node rstPacket).

(** [buildTCPPacket(..., conn.serverSeq, conn.clientAck, ACK)] sent with the
    [sendResponse] of the segment it answers. *)
Definition sendAck (node : jstr) (f : nat) : SM CS () :=
  conn ← gets cs_conn;
  ackPacket ← reply_packet (serverSeq conn) (clientAck conn) TCP_FLAGS.ACK [] None;
  emit (Send f node ackPacket).

Definition handleFin (parsed : IpInfo) (node : jstr) (f : nat) : SM CS () :=
  conn ← gets cs_conn;
  if clientFinSeen conn && bool_decide (clientFinSeq conn = tcpSeq <$> tcp_of parsed)
  then sendAck node f
  else
    conn_upd (λ c, c <| clientFinSeen := true |> <| clientFinSeq := tcpSeq <$> tcp_of parsed |>
                     <| clientAck := seq_plus parsed 1 |>) ;;
    sendAck node f ;;
    match sock conn with
    | Some sk => when (negb (socketEndedToServer conn))
                   (emit (SockEnd sk) ;; conn_upd (λ c, c <| socketEndedToServer := true |>))
    | None => skip
    end.

Definition handleData (parsed : IpInfo) (node : jstr) (f : nat) : SM CS () :=
  conn ← gets cs_conn;
  let data := ip_data parsed in
  when (0 <? length data)%nat
    (conn_upd (λ c, c <| clientAck := seq_plus parsed (blen data) |>) ;;
     match state conn, sock conn with
     | ESTABLISHED, Some sk => emit (SockWrite sk data)
     | CONNECTING, _ => conn_upd (λ c, c <| pendingData ::= λ l, l ++ [data] |>)
     | _, _ => skip
     end ;;
     sendAck node f) ;;
  when (live conn) _syncServerSocketPause.

(** A segment of a known connection. *)
Definition handleSegment (now : Z) (parsed : IpInfo) (node : jstr) (f : nat) : SM CS () :=
  conn_upd (λ c, c <| lastActivity := now |>) ;;
  conn ← gets cs_conn;
  when (live conn) (_updatePeerWindowAndAck parsed) ;;
  if flag_of tcpFlagsACK parsed && negb (flag_of tcpFlagsSYN parsed)
     && negb (flag_of tcpFlagsFIN parsed) && (length (ip_data parsed) =? 0)%nat
  then skip
  else if flag_of tcpFlagsFIN parsed then handleFin parsed node f
  else handleData parsed node f.

Definition _handleTCP (now : Z) (parsed : IpInfo) (node : jstr) (f : nat) (ipPacket : buffer) :
    SM UserSpaceNAT () :=
  let key := conn_key parsed in
  s ← get;
  let i := om_get key (tcpConnections s) in
  if flag_of tcpFlagsRST parsed then
    match i with Some i => _closeTCPConnection key i | None => skip end
  else if flag_of tcpFlagsSYN parsed && negb (flag_of tcpFlagsACK parsed) then
    handleSyn now parsed node f ipPacket key (i ≫= λ i, conns s !! i)
  else match i with
       | None => sendReset parsed node f
       | Some i => on_conn i (handleSegment now parsed node f)
       end.

(** *** UDP *)

(** [socket.send(data, port, host)] of a dgram socket: the port must be 1..65535. *)
Definition udp_send (u : nat) (data : buffer) (port : Z) (host : jstr) : SM UserSpaceNAT () :=
  lift (guard_js ((0 <? port) && (port <? 65536)) RangeError) ;; emit_nat (UdpSend u data port host).

Definition upd_udp (u : nat) (f : UdpInfo → UdpInfo) : SM UserSpaceNAT () :=
  modify (λ s, s <| udps ::= alter f u |>).

Definition _handleUDP (now : Z) (parsed : IpInfo) (node : jstr) (f : nat) : SM UserSpaceNAT () :=
  let key := conn_key parsed in
  s ← get;
  u ← (match om_get key (udpSockets s) with
       | Some u => mret u
       | None =>
           let u := length (udps s) in
           modify (λ s, s <| udps ::= λ l, l ++ [MkUdp node (srcIp parsed) (srcPort parsed)
             (dstIp parsed) (dstPort parsed) f now] |>) ;;
           modify (λ s, s <| udpSockets ::= om_set key u |>) ;;
           mret u
       end);
  upd_udp u (λ i, i <| u_lastActivity := now |>) ;;
  when (0 <? length (ip_data parsed))%nat
    (udp_send u (ip_data parsed) (dstPort parsed) (dstIp parsed)).

(** A datagram arrives on the u-th socket. *)
Definition onUdpMessage (now : Z) (u : nat) (msg : buffer) : SM UserSpaceNAT () :=
  s ← get;
  match udps s !! u with
  | None => skip
  | Some info =>
      modify (λ s, s <| rnd ::= S |>) ;;
      responsePacket ← lift (buildUDPPacket (random_id (rnd s)) (u_dstIp info) (u_srcIp info)
        (u_dstPort info) (u_srcPort info) msg);
      upd_udp u (λ i, i <| u_lastActivity := now |>) ;;
      emit_nat (Send (u_sendResponse info) (u_srcNodeId info) responsePacket)
  end.

Definition onUdpError (key : jstr) : SM UserSpaceNAT () :=
  modify (λ s, s <| udpSockets ::= om_delete key |>).

(** *** ICMP *)

(** [s.split('.').map(Number)[i]] written with [writeUInt8]: NaN is written as 0. *)
Definition ip_octet (i : nat) (s : jstr) : Z := default 0 (mjoin (ip_parts s !! i)).

(** The part the two builders of an echo reply share: both checksums (the loops
    are those of [calculateIPChecksum]) and the IP header. *)
Definition icmp_reply (srcIp dstIp : jstr) (ident ttl : Z) (icmpHeader payload : buffer) :
    outcome buffer :=
  let icmpPacket := icmpHeader ++ payload in
  icmpPacket ← write_uint 2 (calculateIPChecksum icmpPacket) 2 icmpPacket;
  let h := buf_alloc 20 in
  h ← write_uint 1 0x45 0 h;
  h ← write_uint 1 0 1 h;
  h ← write_uint 2 (20 + blen icmpPacket) 2 h;
  h ← write_uint 2 ident 4 h;
  h ← write_uint 2 0 6 h;
  h ← write_uint 1 ttl 8 h;
  h ← write_uint 1 1 9 h;
  h ← write_uint 2 0 10 h;
  h ← write_uint 1 (ip_octet 0 srcIp) 12 h;
  h ← write_uint 1 (ip_octet 1 srcIp) 13 h;
  h ← write_uint 1 (ip_octet 2 srcIp) 14 h;
  h ← write_uint 1 (ip_octet 3 srcIp) 15 h;
  h ← write_uint 1 (ip_octet 0 dstIp) 16 h;
  h ← write_uint 1 (ip_octet 1 dstIp) 17 h;
  h ← write_uint 1 (ip_octet 2 dstIp) 18 h;
  h ← write_uint 1 (ip_octet 3 dstIp) 19 h;
  h ← write_uint 2 (calculateIPChecksum h) 10 h;
  Ret (h ++ icmpPacket).

Definition _buildICMPEchoReply (srcIp dstIp : jstr) (icmpData : buffer) (ipId : Z) :
    outcome buffer :=
  let icmpHeader := buf_alloc 8 in
  let icmpHeader :=
    if (4 <=? length icmpData)%nat then buf_copy (take 4 icmpData) 4 icmpHeader else icmpHeader in
  let payload := if (4 <? length icmpData)%nat then drop 4 icmpData else [] in
  icmp_reply dstIp srcIp ipId 64 icmpHeader payload.

(** [Buffer.from(s, 'hex')]: digits in pairs, up to the first pair that is not. *)
Definition hex_val (c : Z) : option Z :=
  if (48 <=? c) && (c <=? 57) then Some (c - 48)
  else if (97 <=? c) && (c <=? 102) then Some (c - 87)
  else if (65 <=? c) && (c <=? 70) then Some (c - 55)
  else None.
Fixpoint from_hex (s : jstr) : buffer :=
  match s with
  | a :: b :: s' =>
      match hex_val a, hex_val b with
      | Some x, Some y => x * 16 + y :: from_hex s'
      | _, _ => []
      end
  | _ => []
  end.
(** [buf.toString('hex')] *)
Definition bytes_hex (b : buffer) : jstr := b ≫= λ x, [hex_digit (x / 16); hex_digit (x mod 16)].

(** [parseInt(s, 10)]: spaces, a sign, the leading digits; [None] is NaN. *)
Definition is_space (c : Z) : bool :=
  bool_decide (c ∈ [9; 10; 11; 12; 13; 32; 0xA0; 0xFEFF; 0x2028; 0x2029]).
Fixpoint skip_spaces (s : jstr) : jstr :=
  match s with c :: s' => if is_space c then skip_spaces s' else s | [] => [] end.
Fixpoint parse_digits (acc : option Z) (s : jstr) : option Z :=
  match s with
  | c :: s' => if (48 <=? c) && (c <=? 57)
               then parse_digits (Some (default 0 acc * 10 + (c - 48))) s' else acc
  | [] => acc
  end.
Definition parse_int (s : jstr) : option Z :=
  match skip_spaces s with
  | 45 :: s' => Z.opp <$> parse_digits None s'
  | 43 :: s' => parse_digits None s'
  | s' => parse_digits None s'
  end.
(** A number, perhaps NaN, in a template literal. *)
Definition num_or_nan (n : option Z) : jstr := match n with Some z => num_str z | None => js "NaN" end.

Definition _buildICMPReplyFromExternal (ident : Z) (extSrcIp clientIp : jstr)
    (id seq ttl : option Z) (payloadHex : jstr) : outcome buffer :=
  let payload := if bool_decide (payloadHex = []) then [] else from_hex payloadHex in
  let icmpHeader := buf_alloc 8 in
  icmpHeader ← write_uint 2 (default 0 id) 4 icmpHeader;
  icmpHeader ← write_uint 2 (default 0 seq) 6 icmpHeader;
  icmp_reply extSrcIp clientIp ident (default 0 ttl) icmpHeader payload.

Definition icmp_key (id seq : option Z) : jstr := num_or_nan id ++ js ":" ++ num_or_nan seq.

Definition _handleICMP (parsed : IpInfo) (node : jstr) (f : nat) : SM UserSpaceNAT () :=
  s ← get;
  match transport parsed with
  | Icmp 8 _ icmpData =>
      if bool_decide (localVirtualIp s = Some (dstIp parsed)) then
        echoReply ← lift (_buildICMPEchoReply (srcIp parsed) (dstIp parsed) icmpData (ipId parsed));
        emit_nat (Send f node echoReply)
      else
        when (icmpHelper s && (4 <=? length icmpData)%nat)
          (id ← lift (read_u16 0 icmpData);
           seq ← lift (read_u16 2 icmpData);
           let payload := if (4 <? length icmpData)%nat then drop 4 icmpData else [] in
           modify (λ s, s <| icmpPending ::=
             om_set (icmp_key (Some id) (Some seq)) (MkIcmpReq (srcIp parsed) node f) |>) ;;
           emit_nat (IcmpWrite (js "REQ " ++ dstIp parsed ++ js " " ++ num_str id ++ js " "
             ++ num_str seq ++ js " " ++ bytes_hex payload ++ [10])))
  | _ => skip
  end.

(** One line of the helper's output; [parts[i]] may be absent. *)
Definition processICMPLine (line : jstr) : SM UserSpaceNAT () :=
  if bool_decide (skip_spaces line = []) then skip
  else
    let parts := js_split 32 line in
    let num i := (parts !! i) ≫= parse_int in
    if bool_decide (parts !! 0%nat = Some (js "REP")) then
      let id := num 2%nat in
      let seq := num 3%nat in
      let ttl := num 4%nat in
      let payloadHex := default [] (parts !! 5%nat) in
      let key := icmp_key id seq in
      s ← get;
      match om_get key (icmpPending s) with
      | None => skip
      | Some pending =>
          modify (λ s, s <| icmpPending ::= om_delete key |>) ;;
          modify (λ s, s <| rnd ::= S |>) ;;
          srcIp ← lift (match parts !! 1%nat with Some ip => Ret ip | None => Throw TypeError end);
          reply ← lift (_buildICMPReplyFromExternal (random_id (rnd s)) srcIp (i_srcIp pending)
                          id seq ttl payloadHex);
          emit_nat (Send (i_sendResponse pending) (i_srcNodeId pending) reply)
      end
    else when (bool_decide (parts !! 0%nat = Some (js "TIMEOUT")))
      (modify (λ s, s <| icmpPending ::= om_delete (icmp_key (num 1%nat) (num 2%nat)) |>)).

Definition _processICMPResponses : SM UserSpaceNAT () :=
  s ← get;
  let lines := js_split 10 (icmpBuffer s) in
  modify (λ s, s <| icmpBuffer := default [] (last lines) |>) ;;
  for_each processICMPLine (removelast lines).

(** *** Packets, cleanup, start and stop *)

Definition _processPacket (now : Z) (ipPacket : buffer) (node : jstr) (f : nat) :
    SM UserSpaceNAT () :=
  r ← lift (parseIPPacket ipPacket);
  match r with
  | IpOk parsed =>
      if protocol parsed =? PROTOCOLS.TCP then _handleTCP now parsed node f ipPacket
      else if protocol parsed =? PROTOCOLS.UDP then _handleUDP now parsed node f
      else if protocol parsed =? PROTOCOLS.ICMP then _handleICMP parsed node f
      else skip
  | _ => skip
  end.

Definition cleanup_tcp (now : Z) (p : jstr * nat) : SM UserSpaceNAT () :=
  conn ← on_conn p.2 (gets cs_conn);
  when (connectionTimeout cfg <? now - lastActivity conn) (_closeTCPConnection p.1 p.2).

Definition cleanup_udp (now : Z) (p : jstr * nat) : SM UserSpaceNAT () :=
  s ← get;
  match udps s !! p.2 with
  | None => skip
  | Some info => when (connectionTimeout cfg <? now - u_lastActivity info)
      (emit_nat (UdpClose p.2) ;; modify (λ s, s <| udpSockets ::= om_delete p.1 |>))
  end.

Definition _cleanup (now : Z) : SM UserSpaceNAT () :=
  s ← get;
  for_each (cleanup_tcp now) (tcpConnections s) ;;
  for_each (cleanup_udp now) (udpSockets s).

Definition nat_stop : SM UserSpaceNAT () :=
  s ← get;
  when (icmpHelper s) (emit_nat IcmpKill ;; modify (λ s, s <| icmpHelper := false |>)) ;;
  modify (λ s, s <| icmpPending := [] |>) ;;
  for_each (λ p, _closeTCPConnection p.1 p.2) (tcpConnections s) ;;
  modify (λ s, s <| tcpConnections := [] |>) ;;
  for_each (λ p, emit_nat (UdpClose p.2)) (udpSockets s) ;;
  modify (λ s, s <| udpSockets := [] |>).

Definition setLocalVirtualIp (ip : jstr) : SM UserSpaceNAT () :=
  modify (λ s, s <| localVirtualIp := Some ip |>).

(** [{ tcpConnections, udpSockets }] *)
Definition nat_getStats (s : UserSpaceNAT) : nat * nat :=
  (om_size (tcpConnections s), om_size (udpSockets s)).

(** ** Events *)

Inductive event : Type :=
  | Packet (now : Z) (ipPacket : buffer) (node : jstr) (f : nat)
  | SocketConnect (now : Z) (i : nat)
  | SocketData (now : Z) (i : nat) (d : buffer)
  | SocketEnded (i : nat)
  | SocketError (i : nat)
  | SocketTimeout (i : nat)
  | SocketClose (i : nat)
  | LingerTimer (i : nat)
  | UdpMessage (now : Z) (u : nat) (d : buffer)
  | UdpError (key : jstr)
  | IcmpOutput (text : jstr)
  | IcmpHelperReady (up : bool)
  | SetLocalVirtualIp (ip : jstr)
  | Cleanup (now : Z)
  | Stop.

Definition step (e : event) : SM UserSpaceNAT () :=
  match e with
  | Packet now b node f => _processPacket now b node f
  | SocketConnect now i => onConnect now i
  | SocketData now i d => onData now i d
  | SocketEnded i => onEnd i
  | SocketError i => onError i
  | SocketTimeout i => onTimeout i
  | SocketClose i => onClose i
  | LingerTimer i => conn ← on_conn i (gets cs_conn); lingerTimer (key conn) i
  | UdpMessage now u d => onUdpMessage now u d
  | UdpError k => onUdpError k
  | IcmpOutput t => modify (λ s, s <| icmpBuffer ::= λ b, b ++ t |>) ;; _processICMPResponses
  | IcmpHelperReady up => modify (λ s, s <| icmpHelper := up |>)
  | SetLocalVirtualIp ip => setLocalVirtualIp ip
  | Cleanup now => _cleanup now
  | Stop => nat_stop
  end.
End nat.

(** ** What a client makes of the packets sent to it *)

(** Sequence number, flags and data of a TCP packet. *)
Definition tcp_view (b : buffer) : option (Z * Z * buffer) :=
  match parseIPPacket b with
  | Ret (IpOk p) => (λ t, (tcpSeq t, tcpFlags t, ip_data p)) <$> tcp_of p
  | _ => None
  end.

(** A strict receiver: after the SYN it takes segments of at most [MSS] bytes in
    sequence and nothing after a FIN; anything else is refused ([None]). *)
Record rx := Rx { rx_next : option Z; rx_data : buffer; rx_fin : bool }.
#[export] Instance rx_eq_dec : EqDecision rx.
Proof. solve_decision. Defined.
Definition rx_init : rx := Rx None [] false.
Definition rx_step (r : rx) (b : buffer) : option rx :=
  match tcp_view b with
  | None => None
  | Some (seq, flags, data) =>
      if has_flag flags TCP_FLAGS.RST then Some r
      else if has_flag flags TCP_FLAGS.SYN then
        if bool_decide (r = rx_init) then Some (Rx (Some (uint32 (seq + 1))) [] false) else None
      else if bool_decide (rx_next r = Some seq) && negb (rx_fin r) && (length data <=? MSS)%nat then
        let fin := has_flag flags TCP_FLAGS.FIN in
        Some (Rx (Some (uint32 (seq + blen data + Z.b2z fin))) (rx_data r ++ data) fin)
      else None
  end.
Definition receive (l : list buffer) : option rx :=
  foldl (λ r b, r ≫= λ r, rx_step r b) (Some rx_init) l.

(** The packets sent through the closure [f]. *)
Definition sent (f : nat) (out : list effect) : list buffer :=
  base.omap (λ e, match e with Send g _ b => if decide (g = f) then Some b else None | _ => None end) out.
