(* ===== verification/NatStream.v ===== *)
(** * The userspace NAT carries the server's bytes to the client

    Histories of events of the NAT ([reach]) and the invariant of a connection:
    the packets sent through its closure are, to a strict TCP receiver, a prefix
    of what its socket delivered, the rest being in the backlog; and the FIN comes
    after everything.  [CF] is the invariant of one connection's code; the
    triples below lift it to the NAT. *)

From S2P Require Import Prelude JsMap Bytes JsString Effects MeshPacket IpPacket UserspaceNat.
Local Open Scope Z_scope.
#[local] Unset Default Proof Using.

(** ** Receiving what [buildTCPPacket] makes *)

Lemma receive_snoc l b : receive (l ++ [b]) = receive l ≫= λ r, rx_step r b.
Proof. by rewrite /receive foldl_app. Qed.

Lemma sent_app f o o' : sent f (o ++ o') = sent f o ++ sent f o'.
Proof. apply omap_app. Qed.

Lemma sent_own f node b o : sent f (o ++ [Send f node b]) = sent f o ++ [b].
Proof. by rewrite sent_app /sent /= decide_True. Qed.

Lemma sent_nil f es : (∀ g n b, Send g n b ∈ es → g ≠ f) → sent f es = [].
Proof.
  intros He. induction es as [|e es IH]; [done|]. rewrite /sent /=.
  assert (sent f es = []) as Hes by (apply IH; intros g n b Hin; eapply He; by right).
  destruct e; try exact Hes. rewrite decide_False; [exact Hes|]. eapply He. by left.
Qed.

(** *** The receiver, segment by segment *)

Lemma uint32_add a b : uint32 (uint32 a + b) = uint32 (a + b).
Proof. unfold uint32. by rewrite Zplus_mod_idemp_l. Qed.

Lemma rx_syn seq b : tcp_view b = Some (uint32 seq, Z.lor TCP_FLAGS.SYN TCP_FLAGS.ACK, []) →
  rx_step rx_init b = Some (Rx (Some (uint32 (seq + 1))) [] false).
Proof. intros Hb. rewrite /rx_step Hb. simpl. by rewrite uint32_add. Qed.

Lemma rx_rst r seq d b : tcp_view b = Some (seq, TCP_FLAGS.RST, d) → rx_step r b = Some r.
Proof. intros Hb. by rewrite /rx_step Hb. Qed.

Lemma rx_segment r seq (last : bool) d b :
  rx_next r = Some (uint32 seq) → rx_fin r = false → (length d <= MSS)%nat →
  tcp_view b = Some (uint32 seq, if last then Z.lor TCP_FLAGS.PSH TCP_FLAGS.ACK else TCP_FLAGS.ACK, d) →
  rx_step r b = Some (Rx (Some (uint32 (seq + blen d))) (rx_data r ++ d) false).
Proof.
  intros Hn Hf Hd Hb. rewrite /rx_step Hb Hn Hf.
  assert (∀ f, f = TCP_FLAGS.RST ∨ f = TCP_FLAGS.SYN ∨ f = TCP_FLAGS.FIN →
    has_flag (if last then Z.lor TCP_FLAGS.PSH TCP_FLAGS.ACK else TCP_FLAGS.ACK) f = false) as Hfl.
  { intros f Hx. destruct last; destruct Hx as [->|[->| ->]]; vm_compute; reflexivity. }
  rewrite !Hfl; [|tauto..]. rewrite bool_decide_true // (proj2 (Nat.leb_le _ _) Hd). simpl.
  by rewrite Z.add_0_r uint32_add.
Qed.

Lemma rx_finish r seq b :
  rx_next r = Some (uint32 seq) → rx_fin r = false →
  tcp_view b = Some (uint32 seq, Z.lor TCP_FLAGS.FIN TCP_FLAGS.ACK, []) →
  rx_step r b = Some (Rx (Some (uint32 (seq + 1))) (rx_data r) true).
Proof.
  intros Hn Hf Hb. rewrite /rx_step Hb Hn Hf. simpl. rewrite bool_decide_true //= app_nil_r.
  change (blen []) with 0. by rewrite Z.add_0_r uint32_add.
Qed.

Definition live_state (st : TCP_STATE) : bool :=
  bool_decide (st = ESTABLISHED) || bool_decide (st = FIN_WAIT).

(** [reply packet] appends a packet of the connection. *)
Lemma wp_reply (b : buffer) (Q : () → CS → Prop) t :
  Q tt (t <| cs_out ::= λ o, o ++ [Send (sendResponse (cs_conn t)) (srcNodeId (cs_conn t)) b] |>) →
  wp (reply b) Q t.
Proof. done. Qed.

Lemma wp_conn_upd g (Q : () → CS → Prop) t : Q tt (t <| cs_conn ::= g |>) → wp (conn_upd g) Q t.
Proof. done. Qed.
Lemma wp_emit e (Q : () → CS → Prop) t : Q tt (t <| cs_out ::= λ o, o ++ [e] |>) → wp (emit e) Q t.
Proof. done. Qed.
Ltac cs_step :=
  cbv iota; first [wp_step | apply wp_conn_upd | apply wp_emit | apply wp_reply]; cbv beta zeta.

Section conn.
Variable cfg : NatConfig.
Variables (random_id random_seq : nat → Z).
Hypothesis random_ok : ∀ k, 0 <= random_id k < 65536.

(** *** The invariant of a connection

    Parameters: its index, what its socket delivered, its closure, the effects
    when its code started, the closures of other senders, and two facts that hold
    once the server ended ([E]) and once the socket connected ([K]). *)
Section inv.
Variables (i : nat) (H : buffer) (f0 : nat) (out0 : list effect) (P : nat → Prop) (E K : Prop).
Hypothesis P_own : ¬ P f0.

Record stream_ok (st : TCP_STATE) (seq : Z) (pend : Z) (eof fin : bool) (r : rx) (rest : buffer) :
    Prop := {
  so_data : rx_data r ++ rest = H;
  so_fin : rx_fin r = fin;
  so_next : live_state st = true → rx_next r = Some (uint32 seq);
  so_init : st = CONNECTING → r = rx_init;
  so_state : st ≠ CLOSED → fin = bool_decide (st = FIN_WAIT);
  so_eof : fin = true → rest = [] ∧ eof = true;
  so_pend : 0 <= pend <= Z.max 0 (tcpMaxPending cfg);
  so_E : eof = true → E;
  so_K : live_state st = true → K
}.

Record CFp (rest : buffer) (sIp : jstr) (sP : Z) (dIp : jstr) (dP : Z) (neg : SynOptions)
    (f : nat) (sk : option nat) (st : TCP_STATE) (seq pend : Z) (eof fin : bool)
    (o : list effect) : Prop := {
  cf_addr : (ipv4 sIp ∧ ipv4 dIp) ∧ 0 <= sP < 65536 ∧ 0 <= dP < 65536;
  cf_syn : syn_ok neg;
  cf_own : f = f0;
  cf_sock : sk = None ∨ sk = Some i;
  cf_bytes : bytes_ok H;
  cf_stream : ∃ r, receive (sent f0 o) = Some r ∧ stream_ok st seq pend eof fin r rest;
  cf_out : ∃ es, o = out0 ++ es ∧ ∀ g n b, Send g n b ∈ es → g = f0 ∨ P g
}.
Definition CFc (rest : buffer) (c : Conn) (o : list effect) : Prop :=
  CFp rest (c_srcIp c) (c_srcPort c) (c_dstIp c) (c_dstPort c) (synNegotiation c)
    (sendResponse c) (sock c) (state c) (serverSeq c) (pendingResponses c)
    (eofFromServer c) (finSent c) o.
Definition addr_ok (c : Conn) : Prop :=
  (ipv4 (c_srcIp c) ∧ ipv4 (c_dstIp c)) ∧ 0 <= c_srcPort c < 65536 ∧ 0 <= c_dstPort c < 65536.
Definition backlog_of (c : Conn) : buffer := default [] (serverReadBacklog c).
Definition CF (t : CS) : Prop := CFc (backlog_of (cs_conn t)) (cs_conn t) (cs_out t).

Lemma cf_emit rest c o e :
  (∀ g n b, e = Send g n b → P g) → CFc rest c o → CFc rest c (o ++ [e]).
Proof using P_own.
  intros He [?????(r & Hr & Hs)(es & -> & Hes)]. constructor; try done.
  - exists r. split; [|done]. rewrite sent_app (sent_nil f0 [e]) ?app_nil_r //.
    intros g n b <-%list_elem_of_singleton ->. by eapply P_own, He.
  - exists (es ++ [e]). rewrite assoc_L. split; [done|].
    intros g n b [Hin|<-%list_elem_of_singleton]%elem_of_app; [by eapply Hes|right; by eapply He].
Qed.

Lemma opt_pad_lt o : (opt_pad o < 4)%nat.
Proof. apply Nat.mod_upper_bound. lia. Qed.

(** A packet built by the connection, and what its receiver reads in it. *)
Lemma wp_reply_packet seq ack fl data opt (Q : buffer → CS → Prop) t :
  addr_ok (cs_conn t) →
  byte_ok fl → bytes_ok data → (length data <= MSS)%nat →
  bytes_ok (default [] opt) → (length (default [] opt) <= 40)%nat →
  (∀ b, tcp_view b = Some (uint32 seq, fl, data) → Q b (t <| cs_rnd ::= S |>)) →
  wp (reply_packet random_id seq ack fl data opt) Q t.
Proof using random_ok.
  intros [[Hs Hd] [Hsp Hdp]] Hfl Hdata Hl Hopt Hol HQ.
  unfold reply_packet. wp_steps. unfold MSS in Hl.
  assert (tcp_args_ok (c_dstPort (cs_conn t)) (c_srcPort (cs_conn t)) fl
    (random_id (cs_rnd t)) data (default [] opt)) as Hok.
  { pose proof (opt_pad_lt (default [] opt)). unfold tcp_args_ok, blen. split_and!; try done; try lia;
      apply random_ok. }
  destruct (buildTCPPacket_bytes (random_id (cs_rnd t)) (c_dstIp (cs_conn t)) (c_srcIp (cs_conn t))
    _ _ seq ack fl data opt Hok) as (c & seg & Hb & _).
  eapply wp_lift; [exact Hb|]. apply HQ. unfold tcp_view.
  by rewrite (buildTCPPacket_parses _ _ _ _ _ _ _ _ _ _ _ Hd Hs Hok Hb).
Qed.

(** A packet of the connection itself. *)
Lemma cf_own_send rest rest' sIp sP dIp dP neg f sk st st' seq seq' pend pend' eof eof' fin fin' o node b :
  CFp rest sIp sP dIp dP neg f sk st seq pend eof fin o →
  (∀ r, stream_ok st seq pend eof fin r rest →
     ∃ r', rx_step r b = Some r' ∧ stream_ok st' seq' pend' eof' fin' r' rest') →
  CFp rest' sIp sP dIp dP neg f sk st' seq' pend' eof' fin' (o ++ [Send f node b]).
Proof.
  intros [? ? -> ? ? (r & Hr & Hs) (es & -> & Hes)] Hb. constructor; try done.
  - destruct (Hb r Hs) as (r' & Hr' & Hs'). exists r'. by rewrite sent_own receive_snoc Hr.
  - exists (es ++ [Send f0 node b]). rewrite assoc_L. split; [done|].
    intros g n b' [Hin|Hin%list_elem_of_singleton]%elem_of_app; [by eapply Hes|].
    left. by injection Hin.
Qed.

(** A change of the fields the stream depends on. *)
Lemma cf_change rest rest' sIp sP dIp dP neg f sk st st' seq seq' pend pend' eof eof' fin fin' o :
  CFp rest sIp sP dIp dP neg f sk st seq pend eof fin o →
  (∀ r, stream_ok st seq pend eof fin r rest → stream_ok st' seq' pend' eof' fin' r rest') →
  CFp rest' sIp sP dIp dP neg f sk st' seq' pend' eof' fin' o.
Proof. intros [?????(r & Hr & Hs)?] Hb. constructor; try done. exists r. auto. Qed.

Lemma maxPending_bound c : _maxPendingForConn cfg c <= Z.max 0 (tcpMaxPending cfg).
Proof. unfold _maxPendingForConn. case_match; lia. Qed.

Lemma has_backlog_false c : has_backlog c = false → backlog_of c = [].
Proof. rewrite /has_backlog /backlog_of. destruct (serverReadBacklog c) as [[|]|]; done. Qed.

Lemma CF_addr rest c o : CFc rest c o → addr_ok c.
Proof. by intros [??????]. Qed.

Lemma maybeSendServerFin_ok t : CF t → wp (_maybeSendServerFin random_id) (λ _, CF) t.
Proof using random_ok.
  intros Ht. unfold _maybeSendServerFin. do 2 cs_step.
  destruct (negb _ || _ || _ || _ || _) eqn:Eg; [by cs_step|]. bool_to_prop. do 3 cs_step.
  apply wp_reply_packet; [exact (CF_addr _ _ _ Ht)|done|constructor|unfold MSS; simpl; lia|constructor|simpl; lia|].
  intros b Hb. do 3 cs_step.
  eapply cf_own_send; [exact Ht|]. intros r Hr. simpl in Hr.
  destruct Hr as [Hd Hf Hn _ _ _ Hp HE HK].
  eexists. split; [eapply rx_finish; [apply Hn; by rewrite H3|congruence|exact Hb]|].
  pose proof (has_backlog_false _ H2) as HB. rewrite HB in Hd.
  constructor; simpl; try done.
  - exact (eq_trans (f_equal _ HB) Hd).
  - intros _. by rewrite Z.add_comm.
  - intros _. apply HK. by rewrite H3.
Qed.

Lemma subarray_drop (b : buffer) k n : subarray k (k + n) b = take n (drop k b).
Proof. apply subarray_plus. Qed.

(** The loop sends the backlog from [offset] up to the offset it returns. *)
Lemma flush_loop_ok fuel maxP b : ∀ k t,
  maxP <= Z.max 0 (tcpMaxPending cfg) →
  live_state (state (cs_conn t)) = true → bytes_ok b →
  CFc (drop k b) (cs_conn t) (cs_out t) →
  wp (flush_loop random_id fuel maxP b k)
    (λ k' t', CFc (drop k' b) (cs_conn t') (cs_out t') ∧ state (cs_conn t') = state (cs_conn t)) t.
Proof using random_ok.
  induction fuel as [|f IH]; intros k t HmaxP Hlive Hb Ht;
    cbn [flush_loop]; [by cs_step|].
  do 2 cs_step. destruct (_ && _ && _) eqn:Eg; [|by cs_step]. bool_to_prop.
  assert (k < length b)%nat as Hk by (by apply Nat.ltb_lt).
  set (n := Nat.min MSS (length b - k)) in *.
  rewrite subarray_drop. assert (length (take n (drop k b)) = n) as Hn
    by (rewrite length_take length_drop; unfold n; lia).
  cs_step. apply wp_reply_packet; [exact (CF_addr _ _ _ Ht)|by case_match|
    by apply bytes_ok_take, bytes_ok_drop|rewrite Hn; unfold n, MSS; lia|constructor|simpl; lia|].
  intros p Hp. do 6 cs_step.
  eapply wp_mono; [apply IH; [done|exact Hlive|done|]|]; last first.
  { intros k' t' [? Hst]. split; [done|]. by rewrite Hst. }
  eapply cf_own_send; [exact Ht|]. intros r [Hd Hf Hnx _ Hs Heof Hpd HE HK].
  assert (finSent (cs_conn t) = false) as Hfin.
  { destruct (finSent (cs_conn t)) eqn:Efin; [|done]. destruct (Heof eq_refl) as [Hnil _].
    apply (f_equal length) in Hnil. rewrite length_drop /= in Hnil. lia. }
  eexists. split.
  - apply rx_segment with (seq := serverSeq (cs_conn t)) (last := (length b <=? k + n)%nat) (d := take n (drop k b)).
    + by apply Hnx.
    + congruence.
    + rewrite Hn. unfold n, MSS. lia.
    + exact Hp.
  - rewrite Z.add_comm. constructor; simpl; try done; try (intros; congruence); try lia.
    + rewrite -(assoc_L (++)) -drop_drop take_drop. done.
    + intros Hc. rewrite Hc in Hlive. done.
Qed.

Lemma flush_ok t : CF t → wp (_flushServerReadBacklog cfg random_id) (λ _, CF) t.
Proof using random_ok.
  intros Ht. unfold _flushServerReadBacklog. do 2 cs_step.
  destruct (negb _) eqn:El; [by cs_step|]. apply negb_false_iff in El.
  destruct (serverReadBacklog (cs_conn t)) as [[|x b']|] eqn:Eb;
    [by apply maybeSendServerFin_ok| |by apply maybeSendServerFin_ok].
  set (b := x :: b') in *.
  assert (bytes_ok b) as Hb.
  { destruct Ht as [_ _ _ _ HH (r & _ & [Hd _ _ _ _ _ _ _ _]) _].
    rewrite /backlog_of Eb /= in Hd. rewrite -Hd in HH. by apply bytes_ok_app in HH as [_ ?]. }
  cs_step. eapply wp_mono.
  { apply (flush_loop_ok _ _ b 0 t); [apply maxPending_bound|exact El|done|].
    rewrite drop_0. unfold CF in Ht. by rewrite /backlog_of Eb in Ht. }
  cbv beta. intros k t' [Ht' Hst]. do 2 cs_step. apply maybeSendServerFin_ok.
  unfold CF, backlog_of. simpl. case_match eqn:Ek; [exact Ht'|].
  apply Nat.ltb_ge in Ek. rewrite drop_ge // in Ht'.
Qed.

Lemma sync_ok t : CF t → wp (_syncServerSocketPause cfg) (λ _, CF) t.
Proof using P_own.
  intros Ht. unfold _syncServerSocketPause. do 2 cs_step.
  repeat first [case_match; [..]|cs_step]; try exact Ht; by apply cf_emit.
Qed.

Lemma flush_sync_ok t : CF t →
  wp (_flushServerReadBacklog cfg random_id ;; _syncServerSocketPause cfg) (λ _, CF) t.
Proof using random_ok P_own.
  intros Ht. cs_step. eapply wp_mono; [by apply flush_ok|]. cbv beta. intros [] t' Ht'.
  by apply sync_ok.
Qed.

Lemma update_ok p t : CF t → wp (_updatePeerWindowAndAck cfg random_id p) (λ _, CF) t.
Proof using random_ok P_own.
  intros Ht. unfold _updatePeerWindowAndAck. do 2 cs_step.
  destruct (negb _); [by cs_step|]. do 2 cs_step.
  destruct (tcp_of p) as [tc|]; [|by apply flush_sync_ok].
  destruct (negb _); [by apply flush_sync_ok|].
  destruct (lastPeerAck (cs_conn t)) as [prev|]; [|do 2 cs_step; by apply flush_sync_ok].
  do 2 cs_step; [|by apply flush_sync_ok]. do 3 cs_step; [|by apply flush_sync_ok].
  cs_step. apply flush_sync_ok. eapply cf_change; [exact Ht|].
  intros r [? ? ? ? ? ? Hp ? ?]. constructor; try done. simpl.
  apply Z.ltb_lt in H1. lia.
Qed.

Lemma sendAck_ok node f t : P f → CF t → wp (sendAck random_id node f) (λ _, CF) t.
Proof using random_ok P_own.
  intros Hf Ht. unfold sendAck. do 2 cs_step. cs_step.
  apply wp_reply_packet; [exact (CF_addr _ _ _ Ht)|done|constructor|unfold MSS; simpl; lia|constructor|simpl; lia|].
  intros b _. cs_step. apply cf_emit; [|exact Ht]. by intros g n b' [= <- _ _].
Qed.

Lemma handleFin_ok p node f t : P f → CF t → wp (handleFin random_id p node f) (λ _, CF) t.
Proof using random_ok P_own.
  intros Hf Ht. unfold handleFin. do 2 cs_step.
  destruct (_ && _); [by apply sendAck_ok|]. do 3 cs_step.
  eapply wp_mono; [by apply sendAck_ok|]. cbv beta. intros [] t' Ht'.
  destruct (sock (cs_conn t)); [|by cs_step]. cs_step; [|exact Ht']. repeat cs_step.
  by apply cf_emit.
Qed.

Lemma handleData_ok p node f t : P f → CF t → wp (handleData cfg random_id p node f) (λ _, CF) t.
Proof using random_ok P_own.
  intros Hf Ht. unfold handleData. do 3 cs_step.
  eapply (wp_mono _ (λ _, CF)).
  - cs_step; [|done]. do 3 cs_step.
    eapply (wp_mono _ (λ _, CF)); [|cbv beta; intros [] t' ?; by apply sendAck_ok].
    destruct (state (cs_conn t)), (sock (cs_conn t)); repeat cs_step; try exact Ht; by apply cf_emit.
  - cbv beta. intros [] t' Ht'. cs_step; [by apply sync_ok|done].
Qed.

Lemma handleSegment_ok now p node f t :
  P f → CF t → wp (handleSegment cfg random_id now p node f) (λ _, CF) t.
Proof using random_ok P_own.
  intros Hf Ht. unfold handleSegment. do 5 cs_step.
  eapply (wp_mono _ (λ _, CF)); [cs_step; [by apply update_ok|done]|].
  cbv beta. intros [] t' Ht'. repeat case_match;
    [by cs_step|by apply handleFin_ok|by apply handleData_ok].
Qed.

Lemma synack_ok now neg : syn_ok neg → ∃ o, buildSynAckOptions now neg = Ret o ∧
  bytes_ok o ∧ (length o <= 40)%nat.
Proof.
  intros Hn. rewrite (buildSynAckOptions_bytes now neg Hn). eexists. split; [done|].
  split; [apply bytes_ok_app; split; [by apply synack_opts_bytes|apply bytes_ok_alloc]|].
  destruct (synack_opts_length now neg) as [Hl _]. rewrite length_app length_buf_alloc.
  pose proof (pad4 (length (synack_opts now neg ≫= opt_bytes))). lia.
Qed.

Lemma connected_ok now t : K → live (cs_conn t) = false → CF t →
  wp (conn_connected random_id now i) (λ _, CF) t.
Proof using random_ok P_own.
  intros HK Hl Ht. unfold conn_connected. do 2 cs_step. destruct (bool_decide _) eqn:Ec.
  { cs_step. by apply cf_emit. }
  apply bool_decide_eq_false in Ec.
  assert (state (cs_conn t) = CONNECTING) as Hst by (unfold live in Hl; by destruct (state (cs_conn t))).
  destruct (synack_ok now (synNegotiation (cs_conn t))) as (o & Ho & Hob & Hol); [apply Ht|].
  do 3 cs_step. eapply wp_lift; [exact Ho|]. cs_step.
  apply wp_reply_packet; [exact (CF_addr _ _ _ Ht)|done|constructor|unfold MSS; simpl; lia|done|done|].
  intros b Hb. do 6 cs_step.
  assert (∀ l t, CF t → wp (for_each (λ chunk, emit (SockWrite i chunk)) l) (λ _, CF) t) as Hw.
  { intros l t0 Ht0. apply wp_for_each; [|done]. intros a t1 _ Ht1. cs_step. by apply cf_emit. }
  cs_step. eapply wp_mono; [apply Hw|intros [] t'; cbv beta; intros Ht'; by cs_step].
  eapply cf_own_send; [exact Ht|]. intros r [Hd Hf Hn Hi Hs He Hp HE _].
  rewrite (Hi Hst) in Hd Hf |- *. simpl in Hf.
  eexists. split; [by apply rx_syn|]. simpl. constructor; simpl; try done.
  - intros _. by rewrite Z.add_comm.
Qed.

Lemma end_ok t : E → CF t → wp (conn_end cfg random_id) (λ _, CF) t.
Proof using random_ok P_own.
  intros HE Ht. unfold conn_end. do 2 cs_step. destruct (bool_decide _); [by cs_step|].
  do 3 cs_step. eapply wp_mono; [apply flush_ok|].
  - eapply cf_change; [exact Ht|]. intros r [? ? ? ? ? Heof ? ? ?]. constructor; try done.
    intros Hfin. split; [by apply Heof|done].
  - cbv beta. intros [] t' Ht'. cs_step. eapply wp_mono; [by apply maybeSendServerFin_ok|].
    cbv beta. intros [] t'' Ht''. by apply sync_ok.
Qed.

Lemma reset_ok t : CF t → wp (conn_reset random_id) (λ _, CF) t.
Proof using random_ok.
  intros Ht. unfold conn_reset. do 3 cs_step.
  apply wp_reply_packet; [exact (CF_addr _ _ _ Ht)|done|constructor|unfold MSS; simpl; lia|constructor|simpl; lia|].
  intros b Hb. cs_step. eapply cf_own_send; [exact Ht|]. intros r Hr.
  exists r. split; [by eapply rx_rst|exact Hr].
Qed.

Lemma close_ok t : CF t → wp close_conn (λ _, CF) t.
Proof using P_own.
  intros Ht. unfold close_conn. do 2 cs_step. destruct (bool_decide _); [by cs_step|].
  assert (CF (t <| cs_conn ::= λ c, c <| lingerCloseTimer := false |> |>
                <| cs_conn ::= λ c, c <| state := CLOSED |> |>)) as Ht'.
  { eapply cf_change; [exact Ht|]. intros r [? ? ? ? ? ? ? ? ?]. by constructor. }
  do 4 cs_step. cs_step. destruct (sock (cs_conn t)); repeat cs_step; [|exact Ht'].
  apply (cf_emit _ _ _ (SockDestroy n)) in Ht'; [|done].
  destruct Ht' as [h1 h2 h3 h4 h5 h6 h7].
  constructor; [exact h1|exact h2|exact h3|by left|exact h5|exact h6|exact h7].
Qed.
End inv.

(** Data of the socket: the invariant for what was delivered, this data included. *)
Lemma data_ok i H f0 out0 P (E K : Prop) now d t :
  ¬ P f0 → bytes_ok d → (eofFromServer (cs_conn t) = true → False) →
  CF i H f0 out0 P E K t →
  wp (conn_data cfg random_id now d)
    (λ _, CF i (H ++ if bool_decide (state (cs_conn t) = CLOSED) then [] else d) f0 out0 P E K) t.
Proof using random_ok.
  intros HP Hd Heof Ht. unfold conn_data. do 2 cs_step. destruct (bool_decide _) eqn:Ec.
  { cs_step. by rewrite app_nil_r. }
  do 4 cs_step. cs_step. eapply wp_mono; [apply flush_ok; [done..|]|].
  - destruct Ht as [h1 h2 h3 h4 h5 (r & Hr & [Hdat Hf Hn Hi Hs He Hp HE HK]) h7].
    assert (CFp i (H ++ d) f0 out0 P E K (backlog_of (cs_conn t) ++ d) (c_srcIp (cs_conn t)) (c_srcPort (cs_conn t))
      (c_dstIp (cs_conn t)) (c_dstPort (cs_conn t)) (synNegotiation (cs_conn t))
      (sendResponse (cs_conn t)) (sock (cs_conn t)) (state (cs_conn t)) (serverSeq (cs_conn t))
      (pendingResponses (cs_conn t)) (eofFromServer (cs_conn t)) (finSent (cs_conn t)) (cs_out t)) as Hg.
    { constructor; try done; [by apply bytes_ok_app|]. exists r. split; [done|]. constructor; try done.
      - by rewrite assoc_L Hdat.
      - intros Hfin. destruct (He Hfin). by exfalso; auto. }
    unfold CF, CFc, backlog_of in *. simpl. by destruct (serverReadBacklog (cs_conn t)).
  - cbv beta. intros [] t' Ht'. by apply sync_ok.
Qed.

(** The invariant seen at a later point of the effects, none of them its own. *)
Lemma cf_move i H f0 out0 (P P' : nat → Prop) (E E' K K' : Prop) rest c o o' :
  CFc i H f0 out0 P E K rest c o → sent f0 o' = sent f0 o → (E → E') → (K → K') →
  CFc i H f0 o' P' E' K' rest c o'.
Proof.
  intros [h1 h2 h3 h4 h5 (r & Hr & [? ? ? ? ? ? ? ? ?]) h7] Ho HE HK.
  constructor; try done.
  - exists r. rewrite Ho. split; [done|]. constructor; auto.
  - exists []. rewrite app_nil_r. split; [done|]. intros g n b Hin. by apply elem_of_nil in Hin.
Qed.

(** ** Histories of the NAT *)

Definition callbacks (past : list event) : list nat :=
  base.omap (λ e, match e with Packet _ _ _ f => Some f | _ => None end) past.
Definition connected (past : list event) : list nat :=
  base.omap (λ e, match e with SocketConnect _ i => Some i | _ => None end) past.
Definition ended (past : list event) : list nat :=
  base.omap (λ e, match e with SocketEnded i => Some i | _ => None end) past.

(** What the node and the sockets of the operating system guarantee: buffers hold
    bytes, each packet comes with a fresh closure, a socket connects at most once
    and delivers nothing after its end. *)
Definition allowed (past : list event) (e : event) : Prop :=
  match e with
  | Packet _ b _ f => bytes_ok b ∧ f ∉ callbacks past
  | SocketConnect _ i => i ∉ connected past
  | SocketData _ i d => bytes_ok d ∧ i ∉ ended past
  | UdpMessage _ _ d => bytes_ok d
  | _ => True
  end.

#[export] Instance allowed_dec past e : Decision (allowed past e).
Proof. destruct e; apply _. Defined.

(** The data an event adds to what the j-th connection's socket delivered. *)
Definition feed (s : UserSpaceNAT) (e : event) (j : nat) : buffer :=
  match e with
  | SocketData _ i d =>
      match conns s !! i with
      | Some c => if decide (i = j) then (if bool_decide (state c = CLOSED) then [] else d) else []
      | None => []
      end
  | _ => []
  end.

(** A history: the events, most recent first, the data each socket delivered to an
    open connection, and the state; it goes on while no handler throws. *)
Inductive reach : list event → (nat → buffer) → UserSpaceNAT → Prop :=
  | reach_new : reach [] (λ _, []) new_nat
  | reach_step past H s e s' :
      reach past H s → allowed past e →
      step cfg random_id random_seq e s = (Ret tt, s') →
      reach (e :: past) (λ j, H j ++ feed s e j) s'.

(** ** The invariant of the NAT *)

Definition foreign (past : list event) (s : UserSpaceNAT) (g : nat) : Prop :=
  g ∈ callbacks past ∧ ∀ i c, conns s !! i = Some c → sendResponse c ≠ g.

Definition udp_ok (past : list event) (s : UserSpaceNAT) (x : UdpInfo) : Prop :=
  foreign past s (u_sendResponse x) ∧ (ipv4 (u_srcIp x) ∧ ipv4 (u_dstIp x)) ∧
  0 <= u_srcPort x < 65536 ∧ 0 <= u_dstPort x < 65536.

Record NInv (past : list event) (H : nat → buffer) (s : UserSpaceNAT) : Prop := {
  ni_conn : ∀ i c, conns s !! i = Some c →
    CFc i (H i) (sendResponse c) (out s) (λ _, False) (i ∈ ended past) (i ∈ connected past)
      (backlog_of c) c (out s) ∧ sendResponse c ∈ callbacks past;
  ni_inj : ∀ i j c d, conns s !! i = Some c → conns s !! j = Some d →
    sendResponse c = sendResponse d → i = j;
  ni_udp : ∀ u x, udps s !! u = Some x → udp_ok past s x;
  ni_icmp : ∀ k x, om_get k (icmpPending s) = Some x → foreign past s (i_sendResponse x);
  ni_H : ∀ i, conns s !! i = None → H i = [];
  ni_tab : ∀ p, p ∈ tcpConnections s → is_Some (conns s !! p.2);
  ni_sent : ∀ g n b, Send g n b ∈ out s → g ∈ callbacks past
}.

(** Together with the number of connection objects and closures that are free for
    other packets. *)
Definition NI past H n (F : nat → Prop) s : Prop :=
  NInv past H s ∧ length (conns s) = n ∧ ∀ g, F g → foreign past s g.

Lemma on_conn_ok {A} past (H H' : nat → buffer) n (F : nat → Prop) i (m : SM CS A) s :
  NI past H n F s → (i < n)%nat → (∀ j, j ≠ i → H' j = H j) →
  (∀ c, conns s !! i = Some c → let t := MkCS c (rnd s) (out s) in
     let C H := CF i H (sendResponse c) (out s) F (i ∈ ended past) (i ∈ connected past) in
     ¬ F (sendResponse c) → C (H i) t → wp m (λ _, C (H' i)) t) →
  wp (on_conn i m) (λ _, NI past H' n F) s.
Proof.
  intros (HI & Hn & HF) Hi HH Hm. destruct (lookup_lt_is_Some_2 (conns s) i) as [c Hc]; [lia|].
  pose proof HI as [Hconn Hinj Hudp Hicmp HH0 Htab Hsd].
  destruct (Hconn i c Hc) as [Hcf Hcb].
  unfold on_conn. eapply wp_zoom; [by rewrite Hc|]. eapply wp_mono.
  { apply (Hm c Hc); [intros Hf; by eapply (HF _ Hf)|]. by eapply cf_move. }
  cbv beta. intros a t' Ht'. pose proof Ht' as [_ _ Hown _ _ _ (es & Hes & Hsend)]. simpl in Hes.
  assert (∀ j c', <[i:=cs_conn t']> (conns s) !! j = Some c' →
    ∃ c0, conns s !! j = Some c0 ∧ sendResponse c' = sendResponse c0) as Hsame.
  { intros j c' [(<- & <- & _)|[? ?]]%list_lookup_insert_Some; [|by eauto]. by exists c. }
  assert (∀ g, foreign past s g → foreign past (s <| conns ::= <[i := cs_conn t']> |>) g) as Hfor.
  { intros g [Hg Hne]. split; [done|]. simpl. intros j c' (c0 & Hc0 & ->)%Hsame. by eapply Hne. }
  split; [|split; [simpl; by rewrite length_insert|intros g Hg; by apply Hfor, HF]].
  constructor; simpl.
  - intros j c' Hj. apply list_lookup_insert_Some in Hj as [(<- & <- & _)|[Hne Hj]].
    + rewrite Hown. split; [|done]. by eapply cf_move.
    + destruct (Hconn j c' Hj) as [Hcj ?]. split; [|done]. rewrite (HH j); [|done].
      eapply cf_move; [exact Hcj| |done..]. rewrite Hes sent_app (sent_nil _ es) ?app_nil_r //.
      intros g k b Hin. destruct (Hsend _ _ _ Hin) as [->|Hg].
      * intros Heq. by apply Hne, (Hinj i j c c').
      * intros ->. by eapply (HF _ Hg).
  - intros j k c1 c2 (d1 & Hd1 & ->)%Hsame (d2 & Hd2 & ->)%Hsame. by eapply Hinj.
  - intros u x Hu. destruct (Hudp u x Hu) as [Hfu ?]. split; [by apply Hfor|done].
  - intros k x Hk. by eapply Hfor, Hicmp.
  - intros j Hj. rewrite HH; [apply HH0|]; [|intros ->].
    + apply lookup_ge_None in Hj. rewrite length_insert in Hj. by apply lookup_ge_None.
    + apply lookup_ge_None in Hj. rewrite length_insert in Hj. lia.
  - intros p Hp. apply lookup_lt_is_Some. rewrite length_insert. by apply lookup_lt_is_Some, Htab.
  - intros g k b. rewrite Hes. intros [Hin|Hin]%elem_of_app; [by eapply Hsd|].
    destruct (Hsend _ _ _ Hin) as [->|Hg]; [done|apply (HF _ Hg)].
Qed.

(** The state may change in everything the invariant does not speak of; effects of
    other senders may be added. *)
Lemma NI_change past H n F s s' es :
  NI past H n F s → conns s' = conns s →
  (∀ u x, udps s' !! u = Some x → udp_ok past s x) →
  (∀ k x, om_get k (icmpPending s') = Some x → om_get k (icmpPending s) = Some x ∨ F (i_sendResponse x)) →
  (∀ p, p ∈ tcpConnections s' → p ∈ tcpConnections s) →
  out s' = out s ++ es → (∀ g n b, Send g n b ∈ es → foreign past s g) →
  NI past H n F s'.
Proof.
  intros ([Hconn Hinj Hudp Hicmp HH0 Htab Hsd] & Hn & HF) Hc Hu Hi Ht Ho He.
  assert (∀ g, foreign past s g → foreign past s' g) as Hfor.
  { intros g [? Hg]. split; [done|]. by rewrite Hc. }
  split; [|split; [by rewrite Hc|intros g Hg; by apply Hfor, HF]]. constructor.
  - intros i c. rewrite Hc. intros Hic. destruct (Hconn i c Hic) as [Hcf ?]. split; [|done].
    eapply cf_move; [exact Hcf| |done..]. rewrite Ho sent_app (sent_nil _ es) ?app_nil_r //.
    intros g m b Hin ->. destruct (He _ _ _ Hin) as [_ Hne]. by eapply Hne.
  - intros i j c d. rewrite Hc. apply Hinj.
  - intros u x Hx. destruct (Hu u x Hx). split; [by apply Hfor|done].
  - intros j x Hj. apply Hfor. destruct (Hi j x Hj) as [Hj'|Hf]; [by eapply Hicmp|by apply HF].
  - intros i. rewrite Hc. apply HH0.
  - intros p Hp. rewrite Hc. by apply Htab, Ht.
  - intros g m b. rewrite Ho. intros [Hin|Hin]%elem_of_app; [by eapply Hsd|apply (He _ _ _ Hin)].
Qed.

Lemma NI_same past H n F s s' :
  NI past H n F s → conns s' = conns s → udps s' = udps s → icmpPending s' = icmpPending s →
  tcpConnections s' = tcpConnections s → out s' = out s → NI past H n F s'.
Proof.
  intros HI Hc Hu Hi Ht Ho. apply (NI_change past H n F s s' []); try done.
  - rewrite Hu. apply HI.
  - rewrite Hi. by left.
  - by rewrite Ht.
  - by rewrite app_nil_r.
  - intros g m b Hin. by apply elem_of_nil in Hin.
Qed.

Lemma NI_emit past H n F s s' e :
  NI past H n F s → conns s' = conns s → udps s' = udps s → icmpPending s' = icmpPending s →
  tcpConnections s' = tcpConnections s → out s' = out s ++ [e] →
  (∀ g k b, e = Send g k b → foreign past s g) → NI past H n F s'.
Proof.
  intros HI Hc Hu Hi Ht Ho He. apply (NI_change past H n F s s' [e]); try done.
  - rewrite Hu. apply HI.
  - rewrite Hi. by left.
  - by rewrite Ht.
  - intros g m b <-%list_elem_of_singleton. by eapply He.
Qed.

Lemma wp_peek i (Q : Conn → UserSpaceNAT → Prop) s c :
  conns s !! i = Some c → Q c s → wp (on_conn i (gets cs_conn)) Q s.
Proof.
  intros Hc HQ. unfold on_conn. eapply wp_zoom; [by rewrite Hc|]. apply wp_gets. simpl.
  destruct s as [t0 c0 ? ? ? ? ? ? ? ? ?]. unfold set_field. simpl in *. by rewrite list_insert_id.
Qed.

Lemma NI_lookup past H n F s i : NI past H n F s → (i < n)%nat → ∃ c, conns s !! i = Some c.
Proof. intros (_ & <- & _) Hi. by apply lookup_lt_is_Some_2. Qed.

Lemma NI_tab past H n F s k i : NI past H n F s → om_get k (tcpConnections s) = Some i → (i < n)%nat.
Proof.
  intros ([_ _ _ _ _ Ht _] & <- & _) Hk%om_get_Some_elem.
  by apply lookup_lt_is_Some_1, (Ht _ Hk).
Qed.

(** Code of a connection that keeps its invariant. *)
Lemma on_conn_inv {A} past H n (F : nat → Prop) i (m : SM CS A) s :
  NI past H n F s → (i < n)%nat →
  (∀ Hi f0 out0 (E K : Prop) t, ¬ F f0 → CF i Hi f0 out0 F E K t → wp m (λ _, CF i Hi f0 out0 F E K) t) →
  wp (on_conn i m) (λ _, NI past H n F) s.
Proof. intros HI Hi Hm. eapply on_conn_ok; [done..|]. intros c Hc t C Hf Ht. by apply Hm. Qed.

Lemma close_inv past H n F k i s :
  NI past H n F s → (i < n)%nat → wp (_closeTCPConnection k i) (λ _, NI past H n F) s.
Proof.
  intros HI Hi. unfold _closeTCPConnection. wp_step. eapply wp_mono.
  { apply (on_conn_inv past H n F); [done..|]. intros. by apply close_ok. }
  cbv beta. intros b s' HI'. wp_step; [|done]. wp_step.
  apply (NI_change past H n F s' _ []); try done; [apply HI'|by left| |by rewrite app_nil_r|].
  - simpl. intros p. apply om_elem_delete.
  - intros g m p Hin. by apply elem_of_nil in Hin.
Qed.

Lemma linger_inv past H n F i s :
  NI past H n F s → (i < n)%nat → wp (_scheduleTcpLingerClose i) (λ _, NI past H n F) s.
Proof.
  intros HI Hi. apply (on_conn_inv past H n F); [done..|]. intros Hi' f0 out0 E K t _ Ht.
  do 2 cs_step. by cs_step; [cs_step|].
Qed.

Lemma lingerOrClose_inv past H n F i s :
  NI past H n F s → (i < n)%nat → wp (lingerOrClose i) (λ _, NI past H n F) s.
Proof.
  intros HI Hi. destruct (NI_lookup _ _ _ _ _ _ HI Hi) as [c Hc]. unfold lingerOrClose.
  wp_step. apply (wp_peek i _ s c Hc). case_match; [by apply linger_inv|by apply close_inv].
Qed.

(** *** Packets *)

Lemma NI_weaken past H n (F : nat → Prop) s : NI past H n F s → NInv past H s.
Proof. by intros [? _]. Qed.

Lemma new_conn_stream i f past o key sIp sP dIp dP act node seq0 seq neg now shift win :
  (ipv4 sIp ∧ ipv4 dIp) → (0 <= sP < 65536 ∧ 0 <= dP < 65536) → syn_ok neg → sent f o = [] →
  let c := MkConn key node sIp sP dIp dP act f CONNECTING seq0 0 seq (Some i) [] now 0 neg shift win
             None false None false false false None false false in
  CFc i [] f o (λ _, False) (i ∈ ended past) (i ∈ connected past) (backlog_of c) c o.
Proof.
  intros Hip Hp Hneg Ho c. constructor; try done; [by right|constructor|..].
  - rewrite Ho. exists rx_init. split; [done|]. constructor; simpl; try done; lia.
  - exists []. rewrite app_nil_r. split; [done|]. intros g n b Hin. by apply elem_of_nil in Hin.
Qed.

Lemma syn_negotiation_ok b : bytes_ok b → ∃ r, syn_negotiation b = Ret r ∧ syn_ok r.
Proof.
  intros Hb. destruct (parse_syn_options_ok b Hb) as (r & Hr & Hok). exists r.
  by rewrite /syn_negotiation Hr.
Qed.

(** A new connection object whose closure sent nothing yet. *)
Lemma NInv_new_conn past H n F s s' c :
  NI past H n F s → F (sendResponse c) → sent (sendResponse c) (out s) = [] →
  conns s' = conns s ++ [c] → udps s' = udps s → icmpPending s' = icmpPending s →
  (∀ u x, udps s !! u = Some x → u_sendResponse x ≠ sendResponse c) →
  (∀ k x, om_get k (icmpPending s) = Some x → i_sendResponse x ≠ sendResponse c) →
  (∀ p, p ∈ tcpConnections s' → p ∈ tcpConnections s ∨ p.2 = n) →
  (∃ e, out s' = out s ++ [e] ∧ ∀ g k b, e ≠ Send g k b) →
  CFc n [] (sendResponse c) (out s) (λ _, False) (n ∈ ended past) (n ∈ connected past) (backlog_of c) c (out s) →
  NInv past H s'.
Proof.
  intros ([Hconn Hinj Hudp Hicmp HH0 Htab Hsd] & Hn & HF) Hfc Hsent Hc Hu Hi Hudp' Hicmp' Ht (e & Ho & He) Hcf.
  destruct (HF _ Hfc) as [Hcb Hne].
  assert (∀ f, sent f (out s') = sent f (out s)) as Hs.
  { intros f. rewrite Ho sent_app (sent_nil f [e]) ?app_nil_r //.
    intros g k b Hin%list_elem_of_singleton. by destruct (He g k b). }
  assert (∀ j d, conns s' !! j = Some d → conns s !! j = Some d ∨ (j = n ∧ d = c)) as Hl.
  { intros j d. rewrite Hc. intros [?|[Hlt Hd]]%lookup_app_Some; [by left|right].
    apply list_lookup_singleton_Some in Hd as [Hj ->]. split; [lia|done]. }
  assert (∀ g, foreign past s g → g ≠ sendResponse c → foreign past s' g) as Hfor.
  { intros g [? Hg] Hgc. split; [done|]. intros j d [Hj|[-> ->]]%Hl; [by eapply Hg|done]. }
  constructor.
  - intros j d [Hj|[-> ->]]%Hl.
    + destruct (Hconn j d Hj) as [Hd ?]. split; [|done]. eapply cf_move; [exact Hd|apply Hs|done..].
    + split; [|done]. rewrite HH0; [|apply lookup_ge_None; lia].
      eapply cf_move; [exact Hcf|apply Hs|done..].
  - intros i j ci cj [Hi'|[-> ->]]%Hl [Hj'|[-> ->]]%Hl; try done; [by eapply Hinj|..].
    + intros Heq. by destruct (Hne i ci).
    + intros Heq. by destruct (Hne j cj).
  - intros u x. rewrite Hu. intros Hx. destruct (Hudp u x Hx). split; [|done].
    apply Hfor; [done|by eapply Hudp'].
  - intros k x. rewrite Hi. intros Hx. apply Hfor; [by eapply Hicmp|by eapply Hicmp'].
  - intros i. rewrite Hc !lookup_ge_None length_app => ?. apply HH0, lookup_ge_None. lia.
  - intros p Hp. rewrite Hc. destruct (Ht p Hp) as [Hp'| ->].
    + destruct (Htab p Hp') as [d ?]. exists d. by apply lookup_app_l_Some.
    + exists c. rewrite lookup_app_r; [|lia]. by rewrite Hn Nat.sub_diag.
  - intros g k b. rewrite Ho. intros [Hin|Hin%list_elem_of_singleton]%elem_of_app; [by eapply Hsd|].
    by destruct (He g k b).
Qed.

Definition fresh (f : nat) (s : UserSpaceNAT) : Prop :=
  sent f (out s) = [] ∧ (∀ u x, udps s !! u = Some x → u_sendResponse x ≠ f) ∧
  (∀ k x, om_get k (icmpPending s) = Some x → i_sendResponse x ≠ f).

Lemma handleSyn_inv past H n now p node f b k c s :
  NI past H n (eq f) s → fresh f s → parsed_wf p → bytes_ok b →
  wp (handleSyn cfg random_seq now p node f b k c) (λ _, NInv past H) s.
Proof.
  intros HI (Hs & Hu & Hic) (Hip & Hp & _) Hb. unfold handleSyn. do 2 wp_step. cbv beta.
  destruct (match c with Some _ => _ | None => _ end); [wp_step; by eapply NI_weaken|].
  case_match; [wp_step; by eapply NI_weaken|]. do 2 wp_step. cbv zeta. wp_step.
  destruct (syn_negotiation_ok b Hb) as (neg & Hneg & Hok). eapply wp_lift; [exact Hneg|].
  repeat wp_step. cbv beta. unfold emit_nat. wp_step.
  eapply NInv_new_conn with (s := s);
    [exact HI| | |reflexivity|reflexivity|reflexivity|exact Hu|exact Hic|..].
  - done.
  - exact Hs.
  - simpl. intros q [?| ->]%om_elem_set; [by left|right; apply HI].
  - eexists. split; [reflexivity|done].
  - destruct HI as (_ & -> & _). by apply new_conn_stream.
Qed.

Lemma foreign_send past H n f s : NI past H n (eq f) s → foreign past s f.
Proof. intros (_ & _ & HF). by apply HF. Qed.

Lemma sendReset_inv past H n p node f s :
  NI past H n (eq f) s → parsed_wf p →
  wp (sendReset random_id p node f) (λ _, NInv past H) s.
Proof.
  intros HI ([Hs Hd] & [Hsp Hdp] & _). unfold sendReset. repeat wp_step. cbv beta.
  destruct (buildTCPPacket_bytes (random_id (rnd s)) (dstIp p) (srcIp p) (dstPort p) (srcPort p)
    0 (seq_plus p 1) (Z.lor TCP_FLAGS.RST TCP_FLAGS.ACK) [] None) as (c & seg & Hb & _).
  { pose proof (opt_pad_lt []). unfold tcp_args_ok, blen. simpl in *.
    split_and!; try done; try lia; try apply random_ok; constructor. }
  eapply wp_lift; [exact Hb|]. unfold emit_nat. wp_step.
  eapply NI_weaken, (NI_emit past H n (eq f) s); [exact HI|done..|].
  intros g k b' [= <- _ _]. by eapply foreign_send.
Qed.

Lemma handleTCP_inv past H n now p node f b s :
  NI past H n (eq f) s → fresh f s → parsed_wf p → bytes_ok b →
  wp (_handleTCP cfg random_id random_seq now p node f b) (λ _, NInv past H) s.
Proof.
  intros HI Hf Hp Hb. unfold _handleTCP. do 2 wp_step. cbv beta zeta.
  destruct (flag_of tcpFlagsRST p).
  { destruct (om_get _ _) as [i|] eqn:Ei; [|wp_step; by eapply NI_weaken].
    eapply wp_mono; [eapply close_inv; [exact HI|by eapply NI_tab]|]. cbv beta. intros _ s' HI'. by eapply NI_weaken. }
  destruct (_ && _); [by eapply handleSyn_inv|].
  destruct (om_get _ _) as [i|] eqn:Ei; [|by eapply sendReset_inv].
  eapply wp_mono; [eapply on_conn_inv; [exact HI|by eapply NI_tab|]|].
  - intros Hi f0 out0 E K t Hf0 Ht. by apply handleSegment_ok.
  - cbv beta. intros _ s' HI'. by eapply NI_weaken.
Qed.

(** An effect that is not a packet, or a packet of another sender. *)
Lemma wlp_emit_nat past H n F e s :
  NI past H n F s → (∀ g k b, e = Send g k b → foreign past s g) →
  wlp (emit_nat e) (λ _, NI past H n F) s.
Proof. intros HI He. unfold emit_nat. wlp_step. by eapply (NI_emit past H n F s). Qed.

Lemma upd_udp_inv past H n F u g s :
  NI past H n F s → (∀ x, udp_ok past s x → udp_ok past s (g x)) →
  wlp (upd_udp u g) (λ _, NI past H n F) s.
Proof.
  intros HI Hg. unfold upd_udp. wlp_step. apply (NI_change past H n F s _ []); try done.
  - simpl. intros v x. rewrite list_lookup_alter. case_decide; [|apply HI].
    intros (y & Hy & ->)%fmap_Some. apply Hg. by eapply HI.
  - by left.
  - by rewrite app_nil_r.
  - intros ? ? ? Hin. by apply elem_of_nil in Hin.
Qed.

Lemma handleUDP_inv past H n now p node f s :
  NI past H n (eq f) s → parsed_wf p →
  wlp (_handleUDP now p node f) (λ _, NInv past H) s.
Proof.
  intros HI (Hip & Hp & _). unfold _handleUDP. do 2 wlp_step. cbv beta. wlp_step.
  apply (wlp_mono _ (λ _, NI past H n (eq f))).
  - destruct (om_get _ _); [by wlp_step|]. repeat wlp_step. cbv beta.
    apply (NI_change past H n (eq f) s _ []); try done.
    + simpl. intros u x [Hx|[_ Hx]]%lookup_app_Some; [by eapply HI|].
      apply list_lookup_singleton_Some in Hx as [_ <-]. split; [by eapply foreign_send|done].
    + by left.
    + by rewrite app_nil_r.
    + intros ? ? ? Hin. by apply elem_of_nil in Hin.
  - cbv beta. intros u s' HI'. wlp_step. eapply wlp_mono; [by eapply upd_udp_inv|].
    cbv beta. intros [] s'' HI''. wlp_step; [|by eapply NI_weaken]. unfold udp_send. do 2 wlp_step.
    eapply wlp_mono; [by eapply wlp_emit_nat|]. cbv beta. intros _ ? ?. by eapply NI_weaken.
Qed.

Lemma handleICMP_inv past H n p node f s :
  NI past H n (eq f) s → wlp (_handleICMP p node f) (λ _, NInv past H) s.
Proof.
  intros HI. unfold _handleICMP. do 2 wlp_step. cbv beta.
  repeat (match goal with |- wlp (match ?x with _ => _ end) _ _ => destruct x end;
    try (wlp_step; by eapply NI_weaken)).
  { do 2 wlp_step. eapply wlp_mono; [eapply wlp_emit_nat; [exact HI|]|].
    - intros g k b [= <- _ _]. by eapply foreign_send.
    - cbv beta. intros _ ? ?. by eapply NI_weaken. }
  wlp_step; [|by eapply NI_weaken]. do 4 wlp_step. cbv beta zeta. repeat wlp_step. cbv beta.
  unfold emit_nat. wlp_step. eapply NI_weaken, (NI_change past H n (eq f) s _ [_]); try done.
  - apply HI.
  - simpl. intros k x. rewrite om_get_set. case_decide; [intros [= <-]; by right|by left].
  - by intros g k b Hin%list_elem_of_singleton.
Qed.

Lemma processPacket_inv past H n now b node f s :
  NI past H n (eq f) s → fresh f s → bytes_ok b →
  wlp (_processPacket cfg random_id random_seq now b node f) (λ _, NInv past H) s.
Proof.
  intros HI Hf Hb. unfold _processPacket. destruct (parseIPPacket_wf b Hb) as (r & Hr & Hwf).
  do 2 wlp_step. rewrite Hr in H0. apply Ret_inj in H0 as <-.
  destruct r as [|v|p]; try (wlp_step; by eapply NI_weaken).
  repeat case_match; [apply wp_wlp; eapply handleTCP_inv|eapply handleUDP_inv|eapply handleICMP_inv|wlp_step; eapply NI_weaken];
    eauto.
Qed.

(** *** The other events *)

Definition nobody (g : nat) : Prop := False.

Lemma NI_nobody past H s : NInv past H s → NI past H (length (conns s)) nobody s.
Proof. intros HI. split; [done|]. by split. Qed.

Lemma NInv_past past H s e : NInv past H s → NInv (e :: past) H s.
Proof.
  intros [Hconn Hinj Hudp Hicmp HH0 Htab Hsd].
  assert (∀ g, g ∈ callbacks past → g ∈ callbacks (e :: past)) as Hcb
    by (intros g Hg; unfold callbacks; simpl; case_match; [by right|done]).
  assert (∀ g, foreign past s g → foreign (e :: past) s g) as Hfor by (intros g [? ?]; split; auto).
  constructor; try done; eauto.
  - intros i c Hc. destruct (Hconn i c Hc). split; [|auto].
    eapply cf_move; [done|done|..]; intros Hin; unfold ended, connected in *; simpl;
      case_match; done || by right.
  - intros u x Hx. destruct (Hudp u x Hx). split; auto.
Qed.

Lemma socket_inv past H n (F : nat → Prop) i m s :
  NI past H n F s → (i < n)%nat →
  (∀ Hi f0 out0 t, ¬ F f0 → CF i Hi f0 out0 F (i ∈ ended past) (i ∈ connected past) t →
     wp m (λ _, CF i Hi f0 out0 F (i ∈ ended past) (i ∈ connected past)) t) →
  wp (on_conn i m) (λ _ : (), NI past H n F) s.
Proof. intros HI Hi Hm. eapply on_conn_ok; [done..|]. intros c Hc t C Hf Ht. by apply Hm. Qed.

Lemma NI_count past H n F s g : NI past H n F s → NI past H n F (s <| connectingCount ::= g |>).
Proof. intros HI. by apply (NI_same past H n F s). Qed.

Lemma onConnect_inv past H n F now i s :
  NI past H n F s → (i < n)%nat → i ∈ connected past →
  (∀ c, conns s !! i = Some c → live c = false) →
  wp (onConnect random_id now i) (λ _, NI past H n F) s.
Proof.
  intros HI Hi HK Hl. unfold onConnect. do 2 wp_step.
  eapply on_conn_ok; [by apply NI_count|done..|]. intros c Hc t C Hf Ht.
  apply connected_ok; [done..| |done]. by apply Hl.
Qed.

Lemma onError_inv past H n F i s :
  NI past H n F s → (i < n)%nat → wp (onError random_id i) (λ _, NI past H n F) s.
Proof.
  intros HI Hi. destruct (NI_lookup _ _ _ _ _ _ HI Hi) as [c Hc]. unfold onError.
  wp_step. apply (wp_peek i _ s c Hc). case_match; [by wp_step|]. wp_step.
  apply (wp_mono _ (λ _, NI past H n F)); [wp_step; [wp_step; by apply NI_count|done]|].
  intros [] s' HI'. wp_step. apply (wp_mono _ (λ _, NI past H n F)).
  - wp_step; [|done]. apply socket_inv; [done..|]. intros. by apply reset_ok.
  - intros [] s'' HI''. by apply lingerOrClose_inv.
Qed.

Lemma onTimeout_inv past H n F i s :
  NI past H n F s → (i < n)%nat → wp (onTimeout i) (λ _, NI past H n F) s.
Proof.
  intros HI Hi. destruct (NI_lookup _ _ _ _ _ _ HI Hi) as [c Hc]. unfold onTimeout.
  wp_step. apply (wp_peek i _ s c Hc). wp_step.
  apply (wp_mono _ (λ _, NI past H n F)); [wp_step; [wp_step; by apply NI_count|done]|].
  intros [] s' HI'. wp_step. unfold emit_nat. wp_step. apply lingerOrClose_inv; [|done].
  by eapply (NI_emit past H n F s').
Qed.

Lemma onClose_inv past H n F i s :
  NI past H n F s → (i < n)%nat → wp (onClose i) (λ _, NI past H n F) s.
Proof.
  intros HI Hi. destruct (NI_lookup _ _ _ _ _ _ HI Hi) as [c Hc]. unfold onClose.
  wp_step. apply (wp_peek i _ s c Hc). case_match; [by wp_step|by apply lingerOrClose_inv].
Qed.

Lemma lingerTimer_inv past H n F k i s :
  NI past H n F s → (i < n)%nat → wp (lingerTimer k i) (λ _, NI past H n F) s.
Proof.
  intros HI Hi. unfold lingerTimer. wp_step. eapply wp_mono.
  { apply (on_conn_inv past H n F); [done..|]. intros. by apply wp_conn_upd. }
  cbv beta. intros [] s' HI'. do 3 wp_step; [by apply close_inv|done].
Qed.

Lemma closeAll_inv past H n F l s :
  NI past H n F s → (∀ p, p ∈ l → (p.2 < n)%nat) →
  wp (for_each (λ p, _closeTCPConnection p.1 p.2) l) (λ _, NI past H n F) s.
Proof. intros HI Hl. apply wp_for_each; [|done]. intros p s' Hp HI'. by apply close_inv; [|apply Hl]. Qed.

Lemma NI_members past H n F s p : NI past H n F s → p ∈ tcpConnections s → (p.2 < n)%nat.
Proof. intros ([_ _ _ _ _ Ht _] & <- & _) Hp. by apply lookup_lt_is_Some_1, Ht. Qed.

Lemma cleanup_inv past H n F now s :
  NI past H n F s → wlp (_cleanup cfg now) (λ _, NI past H n F) s.
Proof.
  intros HI. unfold _cleanup. do 3 wlp_step. eapply wlp_mono.
  { apply wp_wlp, (wp_for_each _ (NI past H n F)); [|exact HI]. intros p s' Hp HI'.
    assert (p.2 < n)%nat as Hlt by (exact (NI_members _ _ _ _ _ _ HI Hp)). unfold cleanup_tcp.
    destruct (NI_lookup _ _ _ _ _ _ HI' Hlt) as [c Hc].
    wp_step. apply (wp_peek _ _ s' c Hc). wp_step; [by apply close_inv|done]. }
  cbv beta. intros [] s' HI'. apply (wlp_for_each _ (NI past H n F)); [|done].
  intros p s'' _ HI''. unfold cleanup_udp. do 2 wlp_step. cbv beta.
  destruct (udps s'' !! p.2); [|by wlp_step]. wlp_step; [|done]. wlp_step.
  eapply wlp_mono; [by apply (wlp_emit_nat past H n F)|]. cbv beta. intros [] s3 HI3. wlp_step.
  by apply (NI_same past H n F s3).
Qed.

Lemma stop_inv past H n F s : NI past H n F s → wlp nat_stop (λ _, NI past H n F) s.
Proof.
  intros HI. unfold nat_stop. do 3 wlp_step. apply (wlp_mono _ (λ _, NI past H n F)).
  { wlp_step; [|done]. wlp_step. eapply wlp_mono; [by apply (wlp_emit_nat past H n F)|].
    cbv beta. intros [] s1 H1. wlp_step. by apply (NI_same past H n F s1). }
  intros [] s1 H1. do 3 wlp_step.
  assert (NI past H n F (s1 <| icmpPending := [] |>)) as H2.
  { apply (NI_change past H n F s1 _ []); try done; [apply H1|by rewrite app_nil_r|].
    intros ? ? ? Hin. by apply elem_of_nil in Hin. }
  eapply wlp_mono; [apply wp_wlp, closeAll_inv; [exact H2|]|].
  { intros p Hp. exact (NI_members _ _ _ _ _ _ HI Hp). }
  cbv beta. intros [] s3 H3. do 3 wlp_step.
  assert (NI past H n F (s3 <| tcpConnections := [] |>)) as H4.
  { apply (NI_change past H n F s3 _ []); try done; [apply H3|by left| |by rewrite app_nil_r|];
      [intros p Hin|intros ? ? ? Hin]; by apply elem_of_nil in Hin. }
  eapply wlp_mono; [apply (wlp_for_each _ (NI past H n F)); [|exact H4]|].
  { intros p s4 _ H5. by apply (wlp_emit_nat past H n F). }
  cbv beta. intros [] s5 H5. wlp_step. by apply (NI_same past H n F s5).
Qed.

Lemma processICMP_inv past H n F s :
  NI past H n F s → wlp (_processICMPResponses random_id) (λ _, NI past H n F) s.
Proof.
  intros HI. unfold _processICMPResponses. do 4 wlp_step. cbv beta zeta.
  apply (wlp_for_each _ (NI past H n F)); [|by apply (NI_same past H n F s)].
  generalize (removelast (js_split 10 (icmpBuffer s))) => l. clear s HI. intros line s _ HI. unfold processICMPLine.
  assert (∀ k, NI past H n F (s <| icmpPending ::= om_delete k |>)) as Hdel.
  { intros k. apply (NI_change past H n F s _ []); try done; [apply HI| |by rewrite app_nil_r|].
    - simpl. intros j x. rewrite om_get_delete. case_decide; [done|by left].
    - intros ? ? ? Hin. by apply elem_of_nil in Hin. }
  case_match; [by wlp_step|]. cbv zeta. case_match; [|wlp_step; [by wlp_step|done]].
  do 2 wlp_step. cbv beta. destruct (om_get _ _) as [x|] eqn:Ex; [|by wlp_step].
  repeat wlp_step. cbv beta. unfold emit_nat. wlp_step.
  eapply (NI_emit past H n F); [apply Hdel|done..|]. intros g k b [= <- _ _].
  destruct HI as [HI _]. by eapply (ni_icmp _ _ _ HI).
Qed.

Lemma onUdpMessage_inv past H n F now u d s :
  NI past H n F s → wlp (onUdpMessage random_id now u d) (λ _, NI past H n F) s.
Proof.
  intros HI. unfold onUdpMessage. do 2 wlp_step. cbv beta.
  destruct (udps s !! u) as [x|] eqn:Ex; [|by wlp_step]. unfold upd_udp, emit_nat.
  repeat wlp_step. cbv beta. pose proof HI as [HI' _].
  eapply (NI_change past H n F s _ [_]); try done.
  - simpl. intros v y. rewrite list_lookup_alter. case_decide; [|apply HI'].
    intros (z & Hz & ->)%fmap_Some. exact (ni_udp _ _ _ HI' u z Hz).
  - by left.
  - intros g k b [= -> _ _]%list_elem_of_singleton. by eapply (ni_udp _ _ _ HI').
Qed.

Lemma NI_NInv_wp {A} past H n F (m : SM UserSpaceNAT A) s :
  wp m (λ _, NI past H n F) s → wlp m (λ _, NInv past H) s.
Proof. intros Hm. apply wp_wlp. eapply wp_mono; [exact Hm|]. cbv beta. intros _ ? ?. by eapply NI_weaken. Qed.
Lemma NI_NInv {A} past H n F (m : SM UserSpaceNAT A) s :
  wlp m (λ _, NI past H n F) s → wlp m (λ _, NInv past H) s.
Proof. intros Hm. eapply wlp_mono; [exact Hm|]. cbv beta. intros _ ? ?. by eapply NI_weaken. Qed.

(** What the event needs of the index it names: the object exists. *)
Lemma on_conn_missing {A} i (m : SM CS A) Q s :
  (length (conns s) <= i)%nat → wlp (on_conn i m) Q s.
Proof.
  intros Hi. unfold on_conn. apply wlp_zoom. intros t.
  by rewrite (proj2 (lookup_ge_None (conns s) i) Hi).
Qed.

(** A socket event of an object that exists keeps the invariant. *)
Lemma socket_event {A} past H i (m : SM UserSpaceNAT A) s :
  NInv past H s →
  (∀ n, NI past H n nobody s → (i < n)%nat → wp m (λ _, NI past H n nobody) s) →
  (length (conns s) <= i → wlp m (λ _, NInv past H) s)%nat → wlp m (λ _, NInv past H) s.
Proof.
  intros HI Hm Hno. destruct (Nat.le_gt_cases (length (conns s)) i) as [?|Hlt]; [by apply Hno|].
  eapply NI_NInv_wp, Hm; [by apply NI_nobody|done].
Qed.

Lemma NInv_ext past H H' s : (∀ j, H j = H' j) → NInv past H s → NInv past H' s.
Proof.
  intros HH [Hconn Hinj Hudp Hicmp HH0 Htab Hsd]. constructor; try done.
  - intros i c Hc. rewrite -HH. by apply Hconn.
  - intros i Hi. rewrite -HH. by apply HH0.
Qed.

Lemma onData_inv past H now i d s e (H' := λ j, H j ++ feed s (SocketData now i d) j) :
  NInv past H s → bytes_ok d → i ∉ ended past → ended (e :: past) = ended past →
  wlp (onData cfg random_id now i d) (λ _, NInv (e :: past) H') s.
Proof.
  intros HI0 Hd Hend Hee. pose proof (NInv_past _ _ _ e HI0) as HI. unfold onData.
  destruct (Nat.le_gt_cases (length (conns s)) i) as [?|Hlt]; [by apply on_conn_missing|].
  apply (NI_NInv_wp _ _ (length (conns s)) nobody).
  eapply on_conn_ok; [by apply NI_nobody|done|..].
  - intros j Hj. subst H'. simpl. case_match; [|by rewrite app_nil_r].
    by rewrite decide_False ?app_nil_r.
  - intros c Hc t C Hf Ht. subst H'. simpl. rewrite Hc decide_True //.
    apply data_ok; [done..| |done]. intros He. apply Hend. rewrite -Hee.
    destruct Ht as [_ _ _ _ _ (r & _ & [_ _ _ _ _ _ _ HE _]) _]. by apply HE.
Qed.

(** A packet's closure is free for its answer. *)
Lemma packet_ready past H s now b node f :
  NInv past H s → f ∉ callbacks past →
  NI (Packet now b node f :: past) H (length (conns s)) (eq f) s.
Proof.
  intros HI Hf. split; [by apply NInv_past|]. split; [done|].
  intros g <-. split; [unfold callbacks; simpl; by left|].
  intros i c Hc Heq. apply Hf. rewrite -Heq. by eapply (ni_conn _ _ _ HI).
Qed.

Lemma packet_fresh past H s f : NInv past H s → f ∉ callbacks past → fresh f s.
Proof.
  intros HI Hf. split_and!.
  - apply elem_of_nil_inv. intros p Hp. apply list_elem_of_omap in Hp as (ev & Hev & Hp).
    destruct ev; try done. case_decide; [|done]. subst. apply Hf. by eapply (ni_sent _ _ _ HI).
  - intros u x Hx <-. apply Hf. by eapply (ni_udp _ _ _ HI).
  - intros k x Hx <-. apply Hf. by eapply (ni_icmp _ _ _ HI).
Qed.

Lemma step_inv past H s e s' :
  NInv past H s → allowed past e → step cfg random_id random_seq e s = (Ret tt, s') →
  NInv (e :: past) (λ j, H j ++ feed s e j) s'.
Proof.
  intros HI0 He Hs. revert Hs. pose proof (NInv_past _ _ _ e HI0) as HI.
  apply (wlp_run _ (λ _, NInv (e :: past) (λ j, H j ++ feed s e j))).
  assert (∀ m : SM UserSpaceNAT (), (∀ j, feed s e j = []) → wlp m (λ _, NInv (e :: past) H) s →
    wlp m (λ _, NInv (e :: past) (λ j, H j ++ feed s e j)) s) as Hnil.
  { intros m Hj Hm. eapply wlp_mono; [exact Hm|]. cbv beta. intros _ s1. apply NInv_ext.
    intros j. by rewrite Hj app_nil_r. }
  destruct e as [now b node f|now i|now i d|i|i|i|i|i|now u d|k|t|up|ip|now|]; simpl in *;
    try (apply Hnil; [done|]).
  - destruct He as [Hb Hf].
    apply (processPacket_inv _ _ (length (conns s)));
      [by apply packet_ready|by apply (packet_fresh past H)|done].
  - apply (socket_event _ _ i); [done| |].
    + intros n Hn Hi. apply onConnect_inv; [done..|unfold connected; simpl; by left|].
      intros c Hc. destruct (live c) eqn:El; [|done]. exfalso. apply He.
      destruct (ni_conn _ _ _ HI0 i c Hc) as [[_ _ _ _ _ (r & _ & [_ _ _ _ _ _ _ _ HK]) _] _].
      by apply HK.
    + intros Hl. unfold onConnect. do 2 wlp_step. by apply on_conn_missing.
  - destruct He as [Hd He]. by apply onData_inv.
  - apply (socket_event _ _ i); [done| |by apply on_conn_missing].
    intros n Hn Hi. apply socket_inv; [done..|]. intros Hi' f0 out0 t Hf Ht.
    apply end_ok; [done|unfold ended; simpl; by left|done].
  - apply (socket_event _ _ i); [done|intros; by apply onError_inv|].
    intros Hl. unfold onError. wlp_step. by apply on_conn_missing.
  - apply (socket_event _ _ i); [done|intros; by apply onTimeout_inv|].
    intros Hl. unfold onTimeout. wlp_step. by apply on_conn_missing.
  - apply (socket_event _ _ i); [done|intros; by apply onClose_inv|].
    intros Hl. unfold onClose. wlp_step. by apply on_conn_missing.
  - apply (socket_event _ _ i); [done| |intros Hl; wlp_step; by apply on_conn_missing].
    intros n Hn Hi. destruct (NI_lookup _ _ _ _ _ _ Hn Hi) as [c Hc]. wp_step.
    apply (wp_peek i _ s c Hc). by apply lingerTimer_inv.
  - by eapply NI_NInv, onUdpMessage_inv, NI_nobody.
  - unfold onUdpError. wlp_step. eapply NI_weaken. by eapply NI_same; [apply NI_nobody|..].
  - do 2 wlp_step. eapply NI_NInv, processICMP_inv.
    by eapply NI_same; [apply NI_nobody|..].
  - wlp_step. eapply NI_weaken. by eapply NI_same; [apply NI_nobody|..].
  - unfold setLocalVirtualIp. wlp_step. eapply NI_weaken. by eapply NI_same; [apply NI_nobody|..].
  - by eapply NI_NInv, cleanup_inv, NI_nobody.
  - by eapply NI_NInv, stop_inv, NI_nobody.
Qed.

Lemma new_nat_inv : NInv [] (λ _, []) new_nat.
Proof.
  constructor; try done.
  - intros p Hp. by apply elem_of_nil in Hp.
  - intros g n b Hp. by apply elem_of_nil in Hp.
Qed.

Lemma reach_inv past H s : reach past H s → NInv past H s.
Proof. induction 1 as [|past H s e s' Hr IH He Hs]; [apply new_nat_inv|by eapply step_inv]. Qed.

(** C1: the exit carries a server's bytes to the client intact.  In every history
    of packets, socket events, timers and cleanups, and for every connection ever
    opened, what a strict TCP receiver reads in the packets sent through the
    connection's closure is a prefix of what its socket delivered: segments of at
    most 1360 bytes with contiguous sequence numbers (modulo 2^32), nothing lost,
    repeated or out of order, the remainder being the backlog; a FIN is sent only
    when the server has ended and everything was sent, and nothing follows it; the
    count of segments in flight stays within the limit; and no other connection
    sends through that closure. *)
Theorem nat_stream_integrity past H s i c :
  reach past H s → conns s !! i = Some c →
  ∃ r, receive (sent (sendResponse c) (out s)) = Some r ∧
    rx_data r ++ default [] (serverReadBacklog c) = H i ∧
    rx_fin r = finSent c ∧
    (finSent c = true → rx_data r = H i ∧ i ∈ ended past) ∧
    0 <= pendingResponses c <= Z.max 0 (tcpMaxPending cfg) ∧
    (∀ j d, conns s !! j = Some d → sendResponse d = sendResponse c → j = i).
Proof using random_ok.
  intros HI%reach_inv Hc. destruct (ni_conn _ _ _ HI i c Hc) as [[_ _ _ _ _ (r & Hr & Hok) _] _].
  destruct Hok as [Hd Hf _ _ _ He Hp HE _]. exists r. split_and!; try done; try lia.
  - intros Hfin. destruct (He Hfin) as [Hb Heof]. rewrite -/(backlog_of c) Hb app_nil_r in Hd.
    split; [done|]. by apply HE.
  - intros j d Hd' Heq. by apply (ni_inj _ _ _ HI j i d c).
Qed.
End conn.

(** ** A history: a SYN, the connection, five bytes, their acknowledgement, the end *)

Definition built (o : outcome buffer) : buffer := match o with Ret b => b | Throw _ => [] end.
Definition client_packet (seq ack fl : Z) (data : buffer) : buffer :=
  built (buildTCPPacket 1 (dotted 10 0 0 2) (dotted 93 184 216 34) 40000 80 seq ack fl data None).
Definition demo_cfg : NatConfig := nat_config None None None.
Definition demo_events : list event :=
  [Packet 0 (client_packet 500 0 TCP_FLAGS.SYN []) (js "a") 0;
   SocketConnect 1 0;
   SocketData 2 0 [104; 101; 108; 108; 111];
   Packet 3 (client_packet 501 1001 TCP_FLAGS.ACK []) (js "a") 1;
   Packet 4 (client_packet 501 1006 TCP_FLAGS.ACK []) (js "a") 2;
   SocketEnded 0].

(** Run a history, the first event first; [None] when an event is not allowed or a
    handler throws. *)
Fixpoint runs (cfg : NatConfig) (past : list event) (s : UserSpaceNAT) (evs : list event) :
    option UserSpaceNAT :=
  match evs with
  | [] => Some s
  | e :: evs' =>
      if bool_decide (allowed past e) then
        match step cfg (λ _, 7) (λ _, 1000) e s with
        | (Ret _, s') => runs cfg (e :: past) s' evs'
        | (Throw _, _) => None
        end
      else None
  end.

Lemma runs_reach cfg evs : ∀ past H s s',
  reach cfg (λ _, 7) (λ _, 1000) past H s → runs cfg past s evs = Some s' →
  ∃ H', reach cfg (λ _, 7) (λ _, 1000) (rev_append evs past) H' s'.
Proof.
  induction evs as [|e evs IH]; intros past H s s' Hr; simpl; [intros [= <-]; by eexists|].
  case_bool_decide as Ha; [|done]. destruct (step _ _ _ e s) as [[[]|] s1] eqn:Es; [|done].
  eapply IH. by eapply reach_step.
Qed.

(** A state a history reaches, for examples. *)
Definition reached (cfg : NatConfig) (evs : list event) : UserSpaceNAT :=
  default new_nat (runs cfg [] new_nat evs).

Lemma reached_reach cfg evs : is_Some (runs cfg [] new_nat evs) →
  ∃ H, reach cfg (λ _, 7) (λ _, 1000) (rev_append evs []) H (reached cfg evs).
Proof.
  intros [s Hs]. unfold reached. rewrite Hs. eapply (runs_reach cfg evs [] (λ _, [])); [apply reach_new|done].
Qed.

Lemma nat_stream_integrity_witness :
  let s := reached demo_cfg demo_events in
  ∃ past H c r, reach demo_cfg (λ _, 7) (λ _, 1000) past H s ∧ conns s !! 0%nat = Some c ∧
    receive (sent (sendResponse c) (out s)) = Some r ∧ rx_fin r = finSent c ∧
    finSent c = true ∧ rx_data r = [104; 101; 108; 108; 111].
Proof.
  intros s. assert (∃ H, reach demo_cfg (λ _, 7) (λ _, 1000) (rev_append demo_events []) H s) as [H Hr]
    by (apply reached_reach; vm_compute; by eexists).
  assert (∃ c, conns s !! 0%nat = Some c ∧ finSent c = true ∧
    rx_data <$> receive (sent (sendResponse c) (out s)) = Some [104; 101; 108; 108; 111])
    as (c & Hc & Hfin & Hd) by (eexists; split; [vm_compute; reflexivity|by vm_compute]).
  clearbody s. destruct (nat_stream_integrity demo_cfg (λ _, 7) (λ _, 1000) ltac:(done) _ H s 0 c Hr Hc)
    as (r & Hrec & _ & Hf & _).
  exists (rev_append demo_events []), H, c, r. rewrite Hrec in Hd. simplify_eq/=. by split_and!.
Defined.

(** ** What the examples show *)

(** Two small segments acknowledged together count as one: the other stays in flight
    for ever, and the FIN is never sent although the client has everything. *)
Definition cumulative_ack_events : list event :=
  [Packet 0 (client_packet 500 0 TCP_FLAGS.SYN []) (js "a") 0;
   SocketConnect 1 0;
   Packet 2 (client_packet 501 1001 TCP_FLAGS.ACK []) (js "a") 1;
   SocketData 3 0 [104; 101];
   SocketData 4 0 [108; 108];
   Packet 5 (client_packet 501 1005 TCP_FLAGS.ACK []) (js "a") 2;
   SocketEnded 0].

Lemma cumulative_ack_blocks_fin :
  let s := reached demo_cfg cumulative_ack_events in
  is_Some (runs demo_cfg [] new_nat cumulative_ack_events) ∧
  ∃ c, conns s !! 0%nat = Some c ∧ serverSeq c = 1005 ∧ lastPeerAck c = Some 1005 ∧
    backlog_of c = [] ∧ eofFromServer c = true ∧ pendingResponses c = 1 ∧ finSent c = false.
Proof. split; [vm_compute; by eexists|]. eexists. split; [vm_compute; reflexivity|by vm_compute]. Qed.

(** A retransmitted data segment is written to the server's socket a second time. *)
Lemma retransmission_written_twice :
  let data := client_packet 501 1001 TCP_FLAGS.ACK [71; 69; 84] in
  let s := reached demo_cfg [Packet 0 (client_packet 500 0 TCP_FLAGS.SYN []) (js "a") 0;
     SocketConnect 1 0; Packet 2 data (js "a") 1; Packet 3 data (js "a") 2] in
  base.omap (λ e, match e with SockWrite _ d => Some d | _ => None end) (out s) =
    [[71; 69; 84]; [71; 69; 84]].
Proof. by vm_compute. Qed.

(** A RST during the connection attempt closes the connection without giving back its
    slot of [connectingCount]: after [maxConnections] of them every SYN is dropped. *)
Definition syn_rst (k : nat) : list event :=
  let pkt fl := built (buildTCPPacket 1 (dotted 10 0 0 2) (dotted 93 184 216 34)
    (40000 + Z.of_nat k) 80 500 0 fl [] None) in
  [Packet 0 (pkt TCP_FLAGS.SYN) (js "a") (2 * k); Packet 0 (pkt TCP_FLAGS.RST) (js "a") (2 * k + 1)].

Lemma aborted_handshakes_exhaust_slots :
  let s := reached demo_cfg (List.seq 0 51 ≫= syn_rst) in
  is_Some (runs demo_cfg [] new_nat (List.seq 0 51 ≫= syn_rst)) ∧
  connectingCount s = 50 ∧ tcpConnections s = [] ∧ length (conns s) = 50%nat.
Proof. by vm_compute; repeat split; eexists. Qed.
