(* ===== verification/NatLive.v ===== *)
(** * The userspace NAT drains: progress under acknowledgements

    Segments in flight plus segments still in the backlog ([work]) go down with
    every acknowledgement that advances while the client's window is open, so after
    that many of them everything was sent and acknowledged, and the FIN went out if
    the server has ended. *)

From S2P Require Import Prelude JsMap Bytes JsString Effects MeshPacket IpPacket UserspaceNat NatStream.
Local Open Scope Z_scope.
#[local] Unset Default Proof Using.

(** Segments needed for [n] bytes. *)
Definition chunks (n : nat) : Z := (Z.of_nat n + 1359) / 1360.

Lemma chunks_step n : (0 < n)%nat → chunks (n - Nat.min MSS n) = chunks n - 1.
Proof.
  intros Hn. unfold chunks, MSS. destruct (Nat.le_gt_cases 1360 n).
  - rewrite Nat.min_l; [|lia]. replace (Z.of_nat n + 1359) with (Z.of_nat (n - 1360) + 1359 + 1 * 1360) by lia.
    rewrite Z.div_add; lia.
  - rewrite Nat.min_r; [|lia]. rewrite Nat.sub_diag.
    rewrite (Z.div_small (Z.of_nat 0 + 1359)); [|lia].
    replace (Z.of_nat n + 1359) with (Z.of_nat (n - 1) + 1 * 1360) by lia.
    rewrite Z.div_add // Z.div_small; lia.
Qed.

Lemma chunks_nonneg n : 0 <= chunks n.
Proof. unfold chunks. apply Z.div_pos; lia. Qed.

Lemma chunks_zero n : chunks n <= 0 → n = 0%nat.
Proof.
  intros Hc. destruct (decide (n = 0)%nat) as [|Hn]; [done|]. pose proof (chunks_step n).
  pose proof (chunks_nonneg (n - Nat.min MSS n)). lia.
Qed.

(** What the flush does not touch but for the state and [finSent]. *)
Definition stable (c : Conn) :=
  (lastPeerAck c, eofFromServer c, peerRecvWindow c, peerWindowScaleShift c).
Definition work (c : Conn) : Z := pendingResponses c + chunks (length (backlog_of c)).

Section live.
Variables (cfg : NatConfig) (random_id : nat → Z).

Lemma wlp_conn_upd g (Q : () → CS → Prop) t : Q tt (t <| cs_conn ::= g |>) → wlp (conn_upd g) Q t.
Proof. done. Qed.
Lemma wlp_reply (b : buffer) (Q : () → CS → Prop) t :
  Q tt (t <| cs_out ::= λ o, o ++ [Send (sendResponse (cs_conn t)) (srcNodeId (cs_conn t)) b] |>) →
  wlp (reply b) Q t.
Proof. done. Qed.
Lemma wlp_reply_packet seq ack fl data opt (Q : buffer → CS → Prop) t :
  (∀ b, Q b (t <| cs_rnd ::= S |>)) → wlp (reply_packet random_id seq ack fl data opt) Q t.
Proof. intros HQ. unfold reply_packet. by repeat wlp_step. Qed.

Lemma maxPending_same c c' : stable c' = stable c → _maxPendingForConn cfg c' = _maxPendingForConn cfg c.
Proof. intros [= _ _ Hw Hs]. by rewrite /_maxPendingForConn /_scaledPeerRecvWindow Hw Hs. Qed.
End live.

Ltac live_step :=
  cbv iota; first [wlp_step | apply wlp_conn_upd | apply wlp_reply | apply wlp_reply_packet; intros ?];
  cbv beta zeta.

Section progress.
Variables (cfg : NatConfig) (random_id : nat → Z).

(** The shape of a connection past its handshake. *)
Definition shape (c : Conn) : Prop :=
  live c = true ∧ finSent c = bool_decide (state c = FIN_WAIT) ∧ 0 <= pendingResponses c.

Lemma work_parts c : shape c → work c <= 0 → pendingResponses c = 0 ∧ backlog_of c = [].
Proof.
  intros (_ & _ & Hp) Hw. unfold work in Hw. pose proof (chunks_nonneg (length (backlog_of c))).
  split; [lia|]. apply nil_length_inv, chunks_zero. lia.
Qed.

Lemma no_backlog c : backlog_of c = [] → has_backlog c = false.
Proof. rewrite /has_backlog /backlog_of. by destruct (serverReadBacklog c) as [[|]|]. Qed.

(** The FIN goes out when nothing is left. *)
Lemma fin_progress t : shape (cs_conn t) →
  wlp (_maybeSendServerFin random_id) (λ _ t',
    stable (cs_conn t') = stable (cs_conn t) ∧ shape (cs_conn t') ∧
    pendingResponses (cs_conn t') = pendingResponses (cs_conn t) ∧
    serverReadBacklog (cs_conn t') = serverReadBacklog (cs_conn t) ∧
    (eofFromServer (cs_conn t) = true → work (cs_conn t) <= 0 → finSent (cs_conn t') = true)) t.
Proof.
  intros Hs. pose proof Hs as (Hl & Hf & Hp). unfold _maybeSendServerFin. do 2 live_step.
  destruct (_ || _) eqn:E.
  - live_step. split_and!; try done. intros He Hw.
    destruct (work_parts _ Hs Hw) as [Hz Hb%no_backlog].
    rewrite He Hb Hz /= orb_false_r orb_false_r in E. apply orb_true_iff in E as [E|E]; [done|].
    apply negb_true_iff, bool_decide_eq_false in E. rewrite Hf. apply bool_decide_eq_true.
    unfold live in Hl. by destruct (state (cs_conn t)).
  - repeat live_step. split_and!; try done.
Qed.

(** The loop moves segments from the backlog into flight. *)
Lemma flush_loop_progress fuel maxP b : ∀ k t,
  (length b - k < fuel)%nat →
  wlp (flush_loop random_id fuel maxP b k) (λ k' t',
    let p := pendingResponses (cs_conn t) in let p' := pendingResponses (cs_conn t') in
    p' + chunks (length b - k') = p + chunks (length b - k) ∧ p <= p' ∧
    (maxP <= 0 ∨ maxP <= p' ∨ (length b <= k')%nat) ∧
    stable (cs_conn t') = stable (cs_conn t) ∧ state (cs_conn t') = state (cs_conn t) ∧
    finSent (cs_conn t') = finSent (cs_conn t)) t.
Proof.
  induction fuel as [|f IH]; intros k t Hfuel; [lia|]. cbn [flush_loop]. do 2 live_step.
  destruct (_ && _ && _) eqn:E; cbv iota.
  - bool_to_prop. assert (k < length b)%nat as Hk by (by apply Nat.ltb_lt).
    pose proof (chunks_step (length b - k) ltac:(lia)) as Hc.
    assert (0 < Nat.min MSS (length b - k) <= length b - k)%nat as Hn by (unfold MSS; lia).
    set (n := Nat.min MSS (length b - k)) in *. clearbody n. do 8 live_step.
    eapply wlp_mono; [apply IH; lia|]. cbv beta zeta. simpl.
    intros k' t' (Hw & Hle & Hdone & Hst & Hs & Hf). split_and!; try done; [|lia].
    rewrite Hw. by rewrite Nat.sub_add_distr Hc; lia.
  - live_step. split_and!; try done.
    rewrite !andb_false_iff Nat.ltb_ge !Z.ltb_ge in E. lia.
Qed.

(** Flushing keeps the work, sends the FIN when there is none, and leaves a backlog
    only when the window is full. *)
Lemma flush_progress t : shape (cs_conn t) →
  wlp (_flushServerReadBacklog cfg random_id) (λ _ t',
    stable (cs_conn t') = stable (cs_conn t) ∧ shape (cs_conn t') ∧
    work (cs_conn t') = work (cs_conn t) ∧
    (eofFromServer (cs_conn t) = true → work (cs_conn t) <= 0 → finSent (cs_conn t') = true) ∧
    (_maxPendingForConn cfg (cs_conn t) <= 0 ∨
     _maxPendingForConn cfg (cs_conn t) <= pendingResponses (cs_conn t') ∨
     backlog_of (cs_conn t') = [])) t.
Proof.
  intros Hs. unfold _flushServerReadBacklog. do 2 live_step.
  rewrite (proj1 Hs). cbn [negb]. cbv iota.
  assert (backlog_of (cs_conn t) = [] → wlp (_maybeSendServerFin random_id) (λ _ t',
    stable (cs_conn t') = stable (cs_conn t) ∧ shape (cs_conn t') ∧
    work (cs_conn t') = work (cs_conn t) ∧
    (eofFromServer (cs_conn t) = true → work (cs_conn t) <= 0 → finSent (cs_conn t') = true) ∧
    (_maxPendingForConn cfg (cs_conn t) <= 0 ∨
     _maxPendingForConn cfg (cs_conn t) <= pendingResponses (cs_conn t') ∨
     backlog_of (cs_conn t') = [])) t) as Hfin.
  { intros Hb. eapply wlp_mono; [by apply fin_progress|]. cbv beta.
    intros [] t' (Hst & Hs' & Hp & Hr & Hf). unfold work, backlog_of in *. rewrite Hp Hr.
    split_and!; try done. right. by right. }
  destruct (serverReadBacklog (cs_conn t)) as [[|x b']|] eqn:Eb;
    [apply Hfin; by rewrite /backlog_of Eb| |apply Hfin; by rewrite /backlog_of Eb].
  cbv iota. set (b := x :: b') in *. clearbody b. live_step. eapply wlp_mono; [apply flush_loop_progress; lia|].
  cbv beta zeta. intros k t' (Hw & Hle & Hdone & Hst & Hstate & Hf). live_step. live_step.
  set (t2 := t' <| cs_conn ::= _ |>).
  assert (backlog_of (cs_conn t2) = drop k b) as Hb2.
  { unfold backlog_of, t2. simpl. case_match eqn:Ek; [done|]. apply Nat.ltb_ge in Ek. by rewrite drop_ge. }
  assert (work (cs_conn t2) = work (cs_conn t)) as Hwork.
  { unfold work. rewrite Hb2 length_drop /t2 /backlog_of Eb /=. rewrite Nat.sub_0_r in Hw. lia. }
  assert (shape (cs_conn t2)) as Hs2.
  { destruct Hs as (Hl & Hfs & Hp). split_and!.
    - unfold live in *. by rewrite /t2 /= Hstate.
    - by rewrite /t2 /= Hstate Hf.
    - unfold t2. simpl. lia. }
  eapply wlp_mono; [by apply fin_progress|]. cbv beta.
  intros [] t3 (Hst3 & Hs3 & Hp3 & Hr3 & Hf3). split; [by rewrite Hst3|]. split; [done|].
  assert (backlog_of (cs_conn t3) = drop k b) as Hb3 by (by rewrite /backlog_of Hr3 -/(backlog_of _)).
  assert (eofFromServer (cs_conn t2) = eofFromServer (cs_conn t)) as He2 by (unfold t2; simpl; by injection Hst).
  split; [unfold work; rewrite Hb3 Hp3 -Hb2; exact Hwork|]. split.
  - intros He Hz. apply Hf3; [by rewrite He2|by rewrite Hwork].
  - rewrite Hp3 Hb3. destruct Hdone as [?|[?|?]]; [by left|by right; left|right; right]. by apply drop_ge.
Qed.

Definition core (c : Conn) :=
  (stable c, state c, finSent c, pendingResponses c, serverReadBacklog c).

Lemma sync_progress t :
  wlp (_syncServerSocketPause cfg) (λ _ t', core (cs_conn t') = core (cs_conn t)) t.
Proof.
  unfold _syncServerSocketPause, emit. do 2 live_step.
  by repeat first [case_match|live_step].
Qed.

(** An acknowledgement that advances past [a] with an open window, and nothing else. *)
Definition advancing (a : Z) (p : IpInfo) : Prop :=
  match tcp_of p with
  | Some f => tcpFlagsACK f = true ∧ tcpFlagsSYN f = false ∧ tcpFlagsFIN f = false ∧
      ip_data p = [] ∧ 0 < tcpWindow f < 65536 ∧
      0 < uint32 (uint32 (tcpAck f) - uint32 a) < 0x80000000
  | None => False
  end.
#[export] Instance advancing_dec a p : Decision (advancing a p).
Proof. unfold advancing. destruct (tcp_of p); apply _. Defined.
Fixpoint acks_advance (a : Z) (l : list IpInfo) : Prop :=
  match l with
  | [] => True
  | p :: l' => advancing a p ∧
      acks_advance (match tcp_of p with Some f => uint32 (tcpAck f) | None => a end) l'
  end.

#[export] Instance acks_advance_dec a l : Decision (acks_advance a l).
Proof. revert a. induction l; intros b; simpl; apply _. Defined.

(** Something is in flight, or nothing waits. *)
Definition moving (c : Conn) : Prop := 0 < pendingResponses c ∨ backlog_of c = [].

Lemma maxPending_open c w : 0 < tcpMaxPending cfg → peerRecvWindow c = Some w → 0 < w →
  0 < _maxPendingForConn cfg c.
Proof.
  intros Hm Hw Hpos. unfold _maxPendingForConn, _scaledPeerRecvWindow. rewrite Hw. simpl.
  assert (∀ x, 0 < x → 0 < (if x =? 0 then 0 else Z.min (tcpMaxPending cfg) (Z.max 6 (x / 1360 + 6)))) as Hx.
  { intros x Hx. rewrite (proj2 (Z.eqb_neq x 0)); lia. }
  rewrite (proj2 (Z.eqb_neq w 0)); [|lia]. destruct (_ || _) eqn:E; [by apply Hx|].
  apply Hx. apply orb_false_iff in E as [E%Z.leb_gt _].
  pose proof (Z.pow_pos_nonneg 2 (peerWindowScaleShift c) ltac:(lia) ltac:(lia)). nia.
Qed.

Definition after_ack (a' : Z) (c c' : Conn) : Prop :=
  shape c' ∧ lastPeerAck c' = Some a' ∧ eofFromServer c' = eofFromServer c ∧ moving c' ∧
  work c' <= work c ∧ (moving c → work c' <= Z.max 0 (work c - 1)) ∧
  (eofFromServer c = true → work c' <= 0 → finSent c' = true).

Lemma ack_progress now p node f a t :
  0 < tcpMaxPending cfg → shape (cs_conn t) → lastPeerAck (cs_conn t) = Some a → advancing a p →
  wlp (handleSegment cfg random_id now p node f)
    (λ _ t', after_ack (match tcp_of p with Some f => uint32 (tcpAck f) | None => a end)
       (cs_conn t) (cs_conn t')) t.
Proof.
  intros Hm Hs Ha Hadv. unfold advancing in Hadv. destruct (tcp_of p) as [fl|] eqn:Hp; [|done].
  destruct Hadv as (HA & HS & HF & Hd & Hw & Hdel).
  pose proof Hs as (Hl & Hfin & Hpend). unfold handleSegment. do 5 live_step.
  eapply (wlp_mono _ (λ _ t', after_ack (uint32 (tcpAck fl)) (cs_conn t) (cs_conn t'))).
  2: { intros [] t' Ht'. rewrite /flag_of Hp HA HS HF Hd /=. by live_step. }
  live_step; [|by match goal with Hx : live _ = false |- _ => change (live (cs_conn t) = false) in Hx end; congruence].
  unfold _updatePeerWindowAndAck. do 2 live_step.
  change (live (cs_conn t <| cs_conn ::= _ |>)) with (live (cs_conn t)). rewrite Hl. cbn [negb].
  do 2 live_step. rewrite Hp HA. cbn [negb]. cbv iota zeta.
  change (lastPeerAck (cs_conn t <| cs_conn ::= _ |>)) with (lastPeerAck (cs_conn t)). rewrite Ha.
  cbv iota.
  assert (∀ t1, shape (cs_conn t1) → lastPeerAck (cs_conn t1) = Some (uint32 (tcpAck fl)) →
    eofFromServer (cs_conn t1) = eofFromServer (cs_conn t) →
    peerRecvWindow (cs_conn t1) = Some (tcpWindow fl) → work (cs_conn t1) <= work (cs_conn t) →
    (moving (cs_conn t) → work (cs_conn t1) <= Z.max 0 (work (cs_conn t) - 1)) →
    wlp (_flushServerReadBacklog cfg random_id ;; _syncServerSocketPause cfg)
      (λ _ t', after_ack (uint32 (tcpAck fl)) (cs_conn t) (cs_conn t')) t1) as Hflush.
  { intros t1 Hs1 Ha1 He1 Hw1 Hle Hmov. live_step. eapply wlp_mono; [by apply flush_progress|].
    cbv beta. intros [] t2 (Hst & Hs2 & Hwk & Hf2 & Hmax). eapply wlp_mono; [apply sync_progress|].
    cbv beta. intros [] t3 Hc. rewrite /after_ack /shape /moving /work /backlog_of /live.
    injection Hc as Hk He4 Hw4 Hsc Hst3 Hfs Hpp Hbb.
    rewrite Hst3 Hfs Hpp Hbb Hk He4. injection Hst as Hk2 He2 _ _. rewrite Hk2 He2.
    pose proof (maxPending_open _ _ Hm Hw1 ltac:(lia)).
    split_and!; try done; try congruence.
    - by destruct Hs2.
    - by apply Hs2.
    - by apply Hs2.
    - destruct Hmax as [?|[?|?]]; [lia|left; lia|by right].
    - rewrite -/(backlog_of _) -/(work _) -/(work _). lia.
    - rewrite -/(backlog_of _) -/(work _) -/(work _) Hwk. auto.
    - intros He Hz. apply Hf2; [congruence|]. rewrite -Hwk. exact Hz. }
  live_step.
  rewrite (proj2 (Z.ltb_lt _ _) (proj1 Hdel)) (proj2 (Z.ltb_lt _ _) (proj2 Hdel)).
  live_step; [|done]. do 2 live_step.
  assert (0 < pendingResponses (cs_conn t) → 0 <= pendingResponses (cs_conn t) -
    pendingResponses (cs_conn t) `min` (1 `max` ((uint32 (uint32 (tcpAck fl) - uint32 a) + 1359) / 1360))
    <= pendingResponses (cs_conn t) - 1) as Hrel by lia.
  live_step; [live_step|]; apply Hflush; try done.
  - apply Z.ltb_lt in H1. split_and!; [done|done|by apply Hrel].
  - apply Z.ltb_lt in H1. unfold work, backlog_of. simpl. specialize (Hrel H1). lia.
  - apply Z.ltb_lt in H1. intros _. unfold work, backlog_of. simpl. specialize (Hrel H1). lia.
  - apply Z.ltb_ge in H1. simpl in H1. intros [?|Hb]; [lia|].
    unfold work, backlog_of in *. simpl. rewrite Hb. simpl. change (chunks 0) with 0. lia.
Qed.

(** The FIN is out once there is no work left. *)
Definition finished (c : Conn) : Prop := eofFromServer c = true → work c <= 0 → finSent c = true.

Lemma acks_progress l now node f : ∀ a t,
  0 < tcpMaxPending cfg → shape (cs_conn t) → lastPeerAck (cs_conn t) = Some a → acks_advance a l →
  moving (cs_conn t) → finished (cs_conn t) →
  wlp (for_each (λ p, handleSegment cfg random_id now p node f) l)
    (λ _ t', shape (cs_conn t') ∧ eofFromServer (cs_conn t') = eofFromServer (cs_conn t) ∧
       work (cs_conn t') <= Z.max 0 (work (cs_conn t) - Z.of_nat (length l)) ∧
       finished (cs_conn t')) t.
Proof.
  induction l as [|p l IH]; intros a t Hm Hs Ha Hl Hmov Hfin; cbn [for_each].
  { live_step. split_and!; try done; [apply Hs..|simpl; lia]. }
  destruct Hl as [Hp Hl]. live_step. eapply wlp_mono; [by eapply ack_progress|]. cbv beta.
  intros [] t1 (Hs1 & Ha1 & He1 & Hm1 & Hw1 & Hdec & Hf1).
  eapply wlp_mono; [eapply IH; [done..|]|].
  { intros He Hz. apply Hf1; [congruence|done]. }
  cbv beta. intros [] t2 (Hs2 & He2 & Hw2 & Hf2). specialize (Hdec Hmov).
  split_and!; [apply Hs2..|congruence|simpl; lia|done].
Qed.
End progress.

(** C15: the NAT drains.  Take any reachable NAT and any established connection the
    client has acknowledged before; if the client then sends more advancing
    acknowledgements with an open window than there are segments in flight and in
    the backlog, each handled without an exception, then everything the server
    delivered has been sent, nothing is in flight, and if the server has ended the
    FIN has been sent. *)
Theorem nat_drains cfg random_id random_seq past H s i c a l now node f :
  (∀ k, 0 <= random_id k < 65536) → reach cfg random_id random_seq past H s →
  conns s !! i = Some c → live c = true → lastPeerAck c = Some a → f ≠ sendResponse c →
  0 < tcpMaxPending cfg → acks_advance a l → work c < Z.of_nat (length l) →
  ∃ t, for_each (λ p, handleSegment cfg random_id now p node f) l (MkCS c (rnd s) (out s)) = (Ret tt, t) ∧
    rx_data <$> receive (sent (sendResponse c) (cs_out t)) = Some (H i) ∧
    pendingResponses (cs_conn t) = 0 ∧ backlog_of (cs_conn t) = [] ∧
    (eofFromServer c = true → finSent (cs_conn t) = true).
Proof.
  intros Hrnd Hr%(reach_inv _ _ _ Hrnd) Hc Hl Ha Hf Hm Hacks Hlen.
  destruct (ni_conn _ _ _ _ Hr i c Hc) as [Hcf _].
  assert (CF cfg i (H i) (sendResponse c) (out s) (eq f) (i ∈ ended past) (i ∈ connected past)
    (MkCS c (rnd s) (out s))) as Ht by (by eapply cf_move).
  assert (shape c) as Hs.
  { destruct Hcf as [_ _ _ _ _ (r & _ & [_ _ _ _ Hst _ Hp _ _]) _]. split_and!; [done| |apply Hp].
    apply Hst. intros Hcl. by rewrite /live Hcl in Hl. }
  destruct l as [|p l]; [simpl in Hlen; pose proof (chunks_nonneg (length (backlog_of c)));
    destruct Hs as (_ & _ & ?); unfold work in Hlen; lia|].
  destruct Hacks as [Hp Hacks].
  set (t := MkCS c (rnd s) (out s)) in *.
  assert (wp (for_each (λ p, handleSegment cfg random_id now p node f) (p :: l)) (λ _ t',
    CF cfg i (H i) (sendResponse c) (out s) (eq f) (i ∈ ended past) (i ∈ connected past) t' ∧
    shape (cs_conn t') ∧ work (cs_conn t') <= 0 ∧ eofFromServer (cs_conn t') = eofFromServer c ∧
    finished (cs_conn t')) t) as Hwp.
  { apply wp_wlp_and.
    - apply wp_for_each; [|done]. intros q t' _ Ht'. apply handleSegment_ok; [done|congruence|done|done].
    - cbn [for_each]. live_step. eapply wlp_mono; [by apply (ack_progress cfg random_id now p node f a t)|].
      cbv beta. intros [] t1 (Hs1 & Ha1 & He1 & Hm1 & Hw1 & _ & Hf1).
      eapply wlp_mono; [eapply acks_progress; [done..|]|].
      { intros He Hz. apply Hf1; [by rewrite -He1|done]. }
      cbv beta. intros [] t2 (Hs2 & He2 & Hw2 & Hf2). simpl in Hlen, Hw1.
      split_and!; [apply Hs2..| |by rewrite He2|done]. fold (work c) in *. lia. }
  apply wp_run in Hwp as ([] & Hrun & Ht' & Hs' & Hw' & He' & Hf'). eexists. split; [exact Hrun|].
  destruct (work_parts _ Hs' Hw') as [Hp0 Hb0].
  split; [|split_and!; [done|done|]].
  - destruct Ht' as [_ _ _ _ _ (r & Hrec & [Hd _ _ _ _ _ _ _ _]) _].
    rewrite Hrec /=. rewrite Hb0 app_nil_r in Hd. by rewrite Hd.
  - intros He. apply Hf'; [by rewrite He'|done].
Qed.

(** Five bytes in flight, the server ended: two acknowledgements are enough. *)
Definition live_events : list event := take 4 demo_events ++ [SocketEnded 0].
Definition ack_info (ack : Z) : list IpInfo :=
  match parseIPPacket (client_packet 501 ack TCP_FLAGS.ACK []) with Ret (IpOk p) => [p] | _ => [] end.

Lemma nat_drains_witness :
  let s := reached demo_cfg live_events in
  let l := ack_info 1006 ++ ack_info 1007 in
  ∃ c t, conns s !! 0%nat = Some c ∧ finSent c = false ∧
    for_each (λ p, handleSegment demo_cfg (λ _, 7) 9 p (js "a") 77) l (MkCS c (rnd s) (out s)) = (Ret tt, t) ∧
    pendingResponses (cs_conn t) = 0 ∧ finSent (cs_conn t) = true.
Proof.
  intros s l.
  assert (∃ H, reach demo_cfg (λ _, 7) (λ _, 1000) (rev_append live_events []) H s) as [H Hr]
    by (apply reached_reach; vm_compute; by eexists).
  assert (∃ c, conns s !! 0%nat = Some c ∧ finSent c = false ∧ live c = true ∧
    lastPeerAck c = Some 1001 ∧ sendResponse c = 0%nat ∧ eofFromServer c = true ∧ work c = 1)
    as (c & Hc & Hfin & Hl & Ha & Hf & He & Hw)
    by (eexists; split; [vm_compute; reflexivity|by vm_compute]).
  assert (acks_advance 1001 l) as Hacks.
  { apply (bool_decide_unpack _). by vm_compute. }
  assert (length l = 2%nat) as Hlen by (by vm_compute). clearbody s l.
  destruct (nat_drains demo_cfg (λ _, 7) (λ _, 1000) (rev_append live_events []) H s 0 c 1001 l 9
    (js "a") 77 ltac:(done) Hr Hc Hl Ha ltac:(by rewrite Hf) ltac:(done) Hacks ltac:(by rewrite Hw Hlen))
    as (t & Ht & _ & Hp & _ & Hfin').
  exists c, t. split_and!; try done. by apply Hfin'.
Defined.
