(* ===== verification/NatIcmp.v ===== *)
(** * Echo replies of the userspace NAT, and when a packet makes it throw

    The exit answers an echo request to its own address itself: the reply a client
    parses carries the request's identifier, sequence number and payload, with valid
    checksums.  [handlePacket_throws] says exactly which packets raise an exception
    in the handler. *)

From S2P Require Import Prelude JsMap Bytes JsString Effects MeshPacket IpPacket UserspaceNat NatStream.
Local Open Scope Z_scope.
#[local] Unset Default Proof Using.

Lemma ip_octet_byte i s : ipv4 s → (i < 4)%nat → ip_octet i s = ip_byte i s ∧ byte_ok (ip_octet i s).
Proof.
  intros (a & b & c & d & -> & Ha & Hb & Hc & Hd) Hi. unfold ip_byte, ip_octet, byte_ok in *.
  rewrite ip_parts_dotted; try lia.
  destruct i as [|[|[|[|]]]]; simpl; rewrite ?Z.mod_small; lia.
Qed.

#[local] Ltac len_side := rewrite ?length_app ?length_be_bytes ?length_buf_alloc; cbn [length]; try lia.
#[local] Ltac fill := rewrite write_uint_zero; [rewrite ret_bind|len_side|len_side|try lia].

(** The header of a reply without its checksum, as the writes leave it. *)
Definition icmp_ip (ttl n ident cks : Z) (s d : jstr) : buffer :=
  ip_head_of 0 ttl n ident 1 ++ be_bytes 2 cks ++ ip4 s ++ ip4 d.

Lemma icmp_ip_length ttl n ident cks s d : length (icmp_ip ttl n ident cks s d) = 20%nat.
Proof. unfold icmp_ip, ip_head_of. by rewrite !length_app !length_be_bytes. Qed.

Lemma icmp_ip_ok ttl n ident cks s d : byte_ok ttl → bytes_ok (icmp_ip ttl n ident cks s d).
Proof.
  intros Ht. unfold icmp_ip, ip_head_of. rewrite !bytes_ok_app.
  repeat split; try apply be_bytes_ok; try apply ip4_ok; repeat constructor; (done || apply Ht).
Qed.

(** The message: type, code, checksum, identifier and sequence number, payload. *)
Definition icmp_msg (q payload : buffer) (c : Z) : buffer := [0; 0] ++ be_bytes 2 c ++ q ++ payload.

Section reply.
Context (src dst : jstr) (ident ttl : Z) (q payload : buffer).
Context (Hs : ipv4 src) (Hd : ipv4 dst) (Hid : 0 <= ident < 65536) (Httl : byte_ok ttl)
  (Hq : bytes_ok q) (Hql : length q = 4%nat) (Hp : bytes_ok payload).

Lemma icmp_msg_checksum : blen payload <= 65507 →
  let c := calculateIPChecksum (icmp_msg q payload 0) in
  0 <= c < 65536 ∧ calculateIPChecksum (icmp_msg q payload c) = 0.
Proof using All.
  intros Hl c. unfold blen in *.
  assert (bytes_ok ([0; 0] ++ q ++ payload)) as Hok.
  { rewrite !bytes_ok_app. split_and!; [by repeat constructor|done|done]. }
  split.
  - apply checksum_range; unfold icmp_msg.
    + rewrite !bytes_ok_app in Hok |- *. destruct Hok as (? & ? & ?). split_and!; try done; apply be_bytes_ok.
    + unfold blen. rewrite !length_app length_be_bytes Hql /=. lia.
  - unfold icmp_msg at 1, c, icmp_msg. apply checksum_verifies; [by exists 1%nat|done|].
    unfold blen. rewrite length_app Hql /=. lia.
Qed.

Lemma icmp_ip_checksum n :
  let c := calculateIPChecksum (icmp_ip ttl n ident 0 src dst) in
  0 <= c < 65536 ∧ calculateIPChecksum (icmp_ip ttl n ident c src dst) = 0.
Proof using All.
  intros c. split.
  - apply checksum_range; [by apply icmp_ip_ok|unfold blen; rewrite icmp_ip_length; lia].
  - unfold icmp_ip at 1, c, icmp_ip. apply checksum_verifies.
    + exists 5%nat. unfold ip_head_of. by rewrite !length_app !length_be_bytes.
    + pose proof (icmp_ip_ok ttl n ident 0 src dst Httl) as Hok. unfold icmp_ip in Hok.
      rewrite !bytes_ok_app in Hok |- *. tauto.
    + unfold blen, ip_head_of. rewrite !length_app !length_be_bytes. done.
Qed.

(** The bytes of a reply that fits an IP packet; a longer one is a [RangeError]. *)
Lemma icmp_reply_bytes (n := 28 + blen payload) :
  let c1 := calculateIPChecksum (icmp_msg q payload 0) in
  let c2 := calculateIPChecksum (icmp_ip ttl n ident 0 src dst) in
  n <= 65535 →
  icmp_reply src dst ident ttl ([0; 0; 0; 0] ++ q) payload =
    Ret (icmp_ip ttl n ident c2 src dst ++ icmp_msg q payload c1).
Proof using All.
  intros c1 c2 Hn. unfold blen in n.
  destruct icmp_msg_checksum as [Hc1 _]; [unfold blen; lia|]. fold c1 in Hc1.
  destruct (icmp_ip_checksum n) as [Hc2 _]. fold c2 in Hc2.
  unfold icmp_reply. cbv zeta.
  assert (([0; 0; 0; 0] ++ q) ++ payload = icmp_msg q payload 0) as Hm.
  { unfold icmp_msg. rewrite be_bytes_2. by rewrite -(assoc_L (++)). }
  rewrite Hm -/c1. unfold icmp_msg at 1.
  rewrite (write_uint_mid 2 c1 [0; 0] (be_bytes 2 0)) ?length_be_bytes // ret_bind.
  rewrite -/(icmp_msg q payload c1).
  assert (20 + blen (icmp_msg q payload c1) = n) as ->.
  { unfold blen, icmp_msg. rewrite !length_app length_be_bytes Hql /=. lia. }
  destruct (ip_octet_byte 0 src Hs ltac:(lia)) as [E1 B1], (ip_octet_byte 1 src Hs ltac:(lia)) as [E2 B2],
    (ip_octet_byte 2 src Hs ltac:(lia)) as [E3 B3], (ip_octet_byte 3 src Hs ltac:(lia)) as [E4 B4],
    (ip_octet_byte 0 dst Hd ltac:(lia)) as [E5 B5], (ip_octet_byte 1 dst Hd ltac:(lia)) as [E6 B6],
    (ip_octet_byte 2 dst Hd ltac:(lia)) as [E7 B7], (ip_octet_byte 3 dst Hd ltac:(lia)) as [E8 B8].
  rewrite E1 E2 E3 E4 E5 E6 E7 E8. rewrite E1 in B1. rewrite E2 in B2. rewrite E3 in B3.
  rewrite E4 in B4. rewrite E5 in B5. rewrite E6 in B6. rewrite E7 in B7. rewrite E8 in B8.
  unfold byte_ok in *. change (256 ^ Z.of_nat 1) with 256. rewrite buf_alloc_nil. do 16 fill.
  match goal with |- context [(?h ++ buf_alloc ?k)] =>
    assert (h ++ buf_alloc k = icmp_ip ttl n ident 0 src dst) as -> end.
  { unfold icmp_ip, ip_head_of, ip4. rewrite !be_bytes_1 !(Z.mod_small _ 256) // -!(assoc_L (++)) //. }
  rewrite -/c2. unfold icmp_ip at 1.
  rewrite (write_uint_mid 2 c2 (ip_head_of 0 ttl n ident 1) (be_bytes 2 0)) ?length_be_bytes //.
Qed.

Lemma icmp_reply_range :
  28 + blen payload > 65535 → icmp_reply src dst ident ttl ([0; 0; 0; 0] ++ q) payload = Throw RangeError.
Proof using All.
  intros Hn. unfold blen in Hn. unfold icmp_reply. cbv zeta.
  set (c := calculateIPChecksum _).
  assert (0 <= c < 65536) as Hc.
  { unfold c, calculateIPChecksum. change 0xffff with (Z.ones 16). rewrite Z.land_ones //.
    by apply Z.mod_pos_bound. }
  clearbody c. rewrite -(assoc_L (++)) (write_uint_mid 2 c [0; 0] [0; 0]) // ret_bind.
  rewrite buf_alloc_nil. do 2 fill. rewrite (write_uint_big 2 (20 + _)) //.
  unfold blen. rewrite !length_app length_be_bytes Hql. simpl. lia.
Qed.
End reply.

(** The echo request's data as the reply carries it: identifier and sequence number
    (zero when absent), payload. *)
Definition echo_parts (d : buffer) : buffer * buffer :=
  (if (4 <=? length d)%nat then take 4 d else [0; 0; 0; 0], if (4 <? length d)%nat then drop 4 d else []).

Lemma echo_parts_eq src dst d ident :
  let '(q, payload) := echo_parts d in
  _buildICMPEchoReply src dst d ident = icmp_reply dst src ident 64 ([0; 0; 0; 0] ++ q) payload ∧
  length q = 4%nat ∧ (bytes_ok d → bytes_ok q ∧ bytes_ok payload) ∧
  ((4 <= length d)%nat → q ++ payload = d).
Proof.
  unfold echo_parts, _buildICMPEchoReply. destruct (Nat.leb_spec 4 (length d)) as [H4|H4].
  - destruct (Nat.ltb_spec 4 (length d)) as [H5|H5].
    + split_and!; [|rewrite length_take; lia| |intros _; apply take_drop].
      * destruct d as [|x0 [|x1 [|x2 [|x3 d']]]]; simpl in H4; try lia. done.
      * intros. split; [by apply bytes_ok_take|by apply bytes_ok_drop].
    + destruct d as [|x0 [|x1 [|x2 [|x3 [|x4 d']]]]]; simpl in H4, H5; try lia.
      split_and!; [done|done| |done]. intros. split; [by apply bytes_ok_take|constructor].
  - destruct (Nat.ltb_spec 4 (length d)) as [H5|H5]; [lia|].
    split_and!; [done|done| |lia]. intros. split; [repeat constructor; done|constructor].
Qed.

(** Building the reply succeeds exactly on requests that fit. *)
Lemma echo_reply_range src dst d ident :
  ipv4 src → ipv4 dst → bytes_ok d → 0 <= ident < 65536 →
  (blen d <= 65511 → ∃ b, _buildICMPEchoReply src dst d ident = Ret b) ∧
  (65511 < blen d → _buildICMPEchoReply src dst d ident = Throw RangeError).
Proof.
  intros Hs Hd Hok Hid. pose proof (echo_parts_eq src dst d ident) as He.
  destruct (echo_parts d) as [q pl] eqn:Ep. destruct He as (Hb & Hq & Hbytes & Heq).
  destruct (Hbytes Hok) as [Hqok Hplok]. rewrite Hb.
  assert (blen pl = Z.max 0 (blen d - 4)) as Hlen.
  { unfold echo_parts in Ep. injection Ep as _ <-. unfold blen.
    destruct (Nat.ltb_spec 4 (length d)); [rewrite length_drop|simpl]; lia. }
  split; intros Hl; [eexists; apply icmp_reply_bytes|apply icmp_reply_range]; try done; lia.
Qed.

(** ping.  The reply the exit builds to an echo request for its address is, for
    any request of at most 65511 bytes after the ICMP header word, a packet the
    client parses as an echo reply from the address it pinged to its own, with the
    same IP identification and exactly the request's identifier, sequence number and
    payload; the IP header and ICMP checksums verify.  A longer request makes the
    builder throw a [RangeError]. *)
Theorem icmp_echo_reply src dst d ident :
  ipv4 src → ipv4 dst → bytes_ok d → 0 <= ident < 65536 → (4 <= length d)%nat →
  (blen d <= 65511 → ∃ b, _buildICMPEchoReply src dst d ident = Ret b ∧
     parseIPPacket b = Ret (IpOk (MkIp 4 20 (24 + blen d) ident PROTOCOLS.ICMP dst src 0 0
       (drop 4 d) (Icmp 0 0 d))) ∧
     calculateIPChecksum (take 20 b) = 0 ∧ calculateIPChecksum (drop 20 b) = 0) ∧
  (65511 < blen d → _buildICMPEchoReply src dst d ident = Throw RangeError).
Proof.
  intros Hs Hd Hok Hid H4. pose proof (echo_parts_eq src dst d ident) as He.
  destruct (echo_parts d) as [q pl]. destruct He as (Hb & Hq & Hbytes & Heq).
  destruct (Hbytes Hok) as [Hqok Hplok]. specialize (Heq H4). rewrite Hb.
  assert (blen d = 4 + blen pl) as Hlen by (unfold blen; rewrite -Heq length_app Hq; lia).
  split; intros Hl.
  - eexists. split; [apply icmp_reply_bytes; try done; lia|].
    set (c1 := calculateIPChecksum (icmp_msg q pl 0)).
    rewrite take_app_exact ?icmp_ip_length // drop_app_exact ?icmp_ip_length //.
    split_and!; [|by eapply proj2, (icmp_ip_checksum dst src ident 64 q pl)
      |eapply proj2, (icmp_msg_checksum dst src ident 64 q pl); try done; lia].
    unfold icmp_ip. rewrite parse_header_of //; [|unfold blen in *; lia].
    assert (4 <= length (icmp_msg q pl c1))%nat as Hml
      by (unfold icmp_msg; rewrite !length_app length_be_bytes; simpl; lia).
    rewrite (proj2 (Nat.leb_le _ _) Hml). cbn [andb]. simpl (1 =? _). cbv iota. rewrite ret_bind.
    set (h := ip_head_of 0 64 (28 + blen pl) ident 1 ++ _).
    assert (length h = 20%nat) as Hh by (unfold h, ip_head_of; by rewrite !length_app !length_be_bytes).
    clearbody h.
    assert (∀ k, (20 <= k)%nat → drop k (h ++ icmp_msg q pl c1) = drop (k - 20) (icmp_msg q pl c1)) as Hdrop.
    { intros k Hk. by rewrite drop_app_ge Hh. }
    assert (∀ k, (20 <= k)%nat → byte_at k (h ++ icmp_msg q pl c1) = byte_at (k - 20) (icmp_msg q pl c1)) as Hat.
    { intros k Hk. unfold byte_at. by rewrite lookup_app_r Hh. }
    rewrite !Hdrop ?Hat //. unfold icmp_msg. rewrite be_bytes_2. all: try lia. simpl.
    rewrite Heq drop_0. replace (28 + blen pl) with (24 + blen d) by lia. done.
  - rewrite -Hb. by apply echo_reply_range.
Qed.

(** Two requests, one too long for a reply. *)
Lemma icmp_echo_reply_witness :
  let src := dotted 10 0 0 2 in let dst := dotted 10 0 0 1 in
  let d := [0x12; 0x34; 0; 1; 97; 98; 99] in
  (∃ b, _buildICMPEchoReply src dst d 77 = Ret b ∧
    parseIPPacket b = Ret (IpOk (MkIp 4 20 31 77 PROTOCOLS.ICMP dst src 0 0 [97; 98; 99] (Icmp 0 0 d)))) ∧
  _buildICMPEchoReply src dst (replicate (Z.to_nat 65512) 0) 77 = Throw RangeError.
Proof.
  intros src dst d. assert (ipv4 src ∧ ipv4 dst) as [Hs Hd] by (split; by apply ipv4_dotted).
  assert (bytes_ok d) as Hok by (apply (bool_decide_unpack _); by vm_compute). split.
  - destruct (icmp_echo_reply src dst d 77 Hs Hd Hok ltac:(lia) ltac:(simpl; lia)) as [Hr _].
    destruct Hr as (b & Hb & Hp & _); [done|].
    exists b. split; [exact Hb|]. rewrite Hp. reflexivity.
  - destruct (icmp_echo_reply src dst (replicate (Z.to_nat 65512) 0) 77 Hs Hd) as [_ Hr].
    + apply Forall_replicate. by red.
    + lia.
    + rewrite length_replicate. lia.
    + apply Hr. unfold blen. rewrite length_replicate. lia.
Defined.

(** ** Which packets make the handler throw *)

Definition crashes (s : UserSpaceNAT) (p : IpInfo) : Prop :=
  (protocol p = PROTOCOLS.UDP ∧ ip_data p ≠ [] ∧ dstPort p = 0) ∨
  (protocol p = PROTOCOLS.ICMP ∧ ∃ c d, transport p = Icmp 8 c d ∧
     localVirtualIp s = Some (dstIp p) ∧ 65511 < blen d).

Definition throws {S A} (m : SM S A) (s : S) : Prop := ∃ e s', m s = (Throw e, s').

Lemma wp_not_throws {S A} (m : SM S A) Q s : wp m Q s → ¬ throws m s.
Proof. intros Hm (e & s' & Hs). unfold wp in Hm. by rewrite Hs in Hm. Qed.

Lemma throws_bind {S A B} (m : SM S A) (k : A → SM S B) a s s' :
  m s = (Ret a, s') → throws (k a) s' → throws (m ≫= k) s.
Proof. intros Hm (e & s'' & Hk). exists e, s''. by rewrite /mbind /SM_bind Hm. Qed.

Lemma udp_lookup now p node f s : ∃ u s', ∀ k : nat → SM UserSpaceNAT (),
  ((match om_get (conn_key p) (udpSockets s) with
    | Some u => mret u
    | None =>
        let u := length (udps s) in
        modify (λ s, s <| udps ::= λ l, l ++ [MkUdp node (srcIp p) (srcPort p)
          (dstIp p) (dstPort p) f now] |>) ;;
        modify (λ s, s <| udpSockets ::= om_set (conn_key p) u |>) ;;
        mret u
    end) ≫= k) s = k u s'.
Proof. destruct (om_get _ _); by eexists _, _. Qed.

Lemma handleUDP_throws now p node f s : 0 <= dstPort p < 65536 →
  throws (_handleUDP now p node f) s ↔ ip_data p ≠ [] ∧ dstPort p = 0.
Proof.
  intros Hp. unfold _handleUDP. destruct (udp_lookup now p node f s) as (u & s' & Hk).
  unfold throws. unfold mbind at 1, SM_bind at 1, get. cbv beta zeta iota. setoid_rewrite Hk.
  unfold upd_udp, modify, mbind, SM_bind, when, udp_send, lift, guard_js, emit_nat, skip, mret, SM_ret.
  destruct (ip_data p) as [|x d].
  - simpl. split; [by intros (? & ? & ?)|by intros []].
  - change (0 <? length (x :: d))%nat with true. cbv iota.
    destruct (Z.ltb_spec 0 (dstPort p)); simpl.
    + rewrite (proj2 (Z.ltb_lt _ _)); [|lia]. split; [by intros (? & ? & ?)|intros []; lia].
    + split; [intros _; split; [done|lia]|]. intros _. by eexists _, _.
Qed.

Lemma handleICMP_throws p node f s : parsed_wf p →
  throws (_handleICMP p node f) s ↔ ∃ c d, transport p = Icmp 8 c d ∧
     localVirtualIp s = Some (dstIp p) ∧ 65511 < blen d.
Proof.
  intros ([Hs Hd] & _ & _ & Hid & Hic). unfold _handleICMP, throws.
  unfold mbind at 1, SM_bind at 1, get. cbv beta iota.
  destruct (transport p) as [|t|u|ty cd d] eqn:Et; try (split; [by intros (? & ? & ?)|by intros (? & ? & ? & ?)]).
  destruct (decide (ty = 8)) as [->|Hty]; last first.
  { transitivity False; [|by split; [|intros (? & ? & [= ?] & ?)]]. split; [|done].
    intros (e & s' & He). destruct ty as [|q|q]; try done.
    destruct q as [q|q|]; try done. destruct q as [q|q|]; try done. destruct q as [q|q|]; try done.
    by destruct q. }
  destruct (echo_reply_range (srcIp p) (dstIp p) d (ipId p) Hs Hd (Hic _ _ _ eq_refl) Hid) as [Hok Hlong].
  case_bool_decide as Hip.
  - destruct (Z.le_gt_cases (blen d) 65511) as [Hl|Hl].
    + destruct (Hok Hl) as [b Hb]. rewrite Hb. split; [by intros (? & ? & ?)|].
      intros (c' & d' & [= _ <-] & _ & ?). lia.
    + rewrite (Hlong Hl). split; [intros _; by eexists _, _|by intros _; eexists _, _].
  - split; [|by intros (? & ? & _ & ? & _)]. intros (e & s' & He). exfalso. revert He.
    destruct (_ && _) eqn:Eh; [|done]. bool_to_prop.
    match goal with Hx : (4 <=? _)%nat = true |- _ => apply Nat.leb_le in Hx end.
    unfold when, lift, modify, emit_nat, mbind, SM_bind.
    rewrite !read_uint_ok; [|lia..]. done.
Qed.

(** C34: in any reachable state a packet from the tunnel, whatever its bytes, makes
    the NAT's handler throw exactly in two cases: a UDP datagram with a payload to
    port 0 (the socket refuses the port), and an echo request for the exit's own
    address too long for its reply.  No TCP segment ever does. *)
Theorem handlePacket_throws cfg random_id random_seq past H s now b node f :
  (∀ k, 0 <= random_id k < 65536) → reach cfg random_id random_seq past H s →
  bytes_ok b → f ∉ callbacks past →
  (∃ e s', step cfg random_id random_seq (Packet now b node f) s = (Throw e, s')) ↔
  ∃ p, parseIPPacket b = Ret (IpOk p) ∧ crashes s p.
Proof.
  intros Hrnd Hr%reach_inv Hb Hf; [|done]. simpl. unfold _processPacket.
  destruct (parseIPPacket_wf b Hb) as (r & Hp & Hwf). rewrite Hp.
  unfold mbind at 1, SM_bind at 1, lift. cbv beta iota.
  destruct r as [|v|p]; try (split; [by intros (? & ? & ?)|by intros (? & ? & ?)]).
  specialize (Hwf p eq_refl).
  assert (∀ X : Prop, (X ↔ crashes s p) → (X ↔ ∃ q, Ret (IpOk p) = Ret (IpOk q) ∧ crashes s q)) as Hex.
  { intros X ->. split; [by exists p|by intros (q & [= <-] & ?)]. }
  apply Hex. unfold crashes.
  destruct (Z.eqb_spec (protocol p) PROTOCOLS.TCP) as [->|Ht].
  { split; [|by intros [[? _]|[? _]]]. intros Hth. exfalso. eapply wp_not_throws, Hth.
    apply (handleTCP_inv _ _ _ Hrnd (Packet now b node f :: past) H (length (conns s)));
      [by apply packet_ready|by apply (packet_fresh cfg past H)|done|done]. }
  destruct (Z.eqb_spec (protocol p) PROTOCOLS.UDP) as [->|Hu].
  { rewrite -/(throws _ _) handleUDP_throws; [|apply Hwf]. split; [by left|by intros [[_ ?]|[? _]]]. }
  destruct (Z.eqb_spec (protocol p) PROTOCOLS.ICMP) as [->|Hi].
  { rewrite -/(throws _ _) handleICMP_throws //. split; [by right|by intros [[? _]|[_ ?]]]. }
  split; [by intros (? & ? & ?)|by intros [[? _]|[? _]]].
Qed.

(** A datagram to port 0, in the initial state. *)
Lemma handlePacket_throws_witness :
  let b := built (buildUDPPacket 1 (dotted 10 0 0 2) (dotted 93 184 216 34) 4000 0 [1; 2; 3]) in
  ∃ e s', step demo_cfg (λ _, 7) (λ _, 1000) (Packet 0 b (js "a") 0) new_nat = (Throw e, s').
Proof.
  intros b.
  apply (handlePacket_throws demo_cfg (λ _, 7) (λ _, 1000) [] (λ _, []) new_nat 0 b (js "a") 0).
  - done.
  - apply reach_new.
  - apply (bool_decide_unpack _). by vm_compute.
  - by apply not_elem_of_nil.
  - eexists. split; [vm_compute; reflexivity|]. left. by vm_compute.
Defined.
