(* ===== verification/VpnFraming.v ===== *)
(** * The packet stream of clean-vpn over TCP (src/scripts/clean-vpn.js)

    clean-vpn carries IPv4 packets over a TCP socket as [len:32, packet] frames.
    The sender ([createTcpFramedBatchedWriter]) collects frames into one write, flushed
    when 8192 bytes are reached, at the next turn of the event loop or by a timer; the
    receiver ([StreamFramer]) cuts the packets out of chunks of any size.  The chunk
    queue, the merge of many small chunks and the reset on a bad length are modelled as
    the code has them; [unframe] is the reference: what a byte stream means, whatever its
    chunks.  [endpoint.write] belongs to Node: an operation says whether it throws. *)

From S2P Require Import Prelude Bytes Effects Framing.
From stdpp Require Import pretty.
Local Open Scope Z_scope.
#[local] Unset Default Proof Using.

Definition MAX_PKT : Z := 65535.
Definition STREAM_FRAMER_CHUNK_MERGE_AFTER : Z := 24.

(** ** The receiver *)

(** [StreamFramer] with the packets handed to [onPacket]. *)
Record StreamFramer := Framer {
  f_chunks : list buffer;
  f_len : Z;
  f_out : list buffer;
}.
#[export] Instance eta_framer : Eta StreamFramer := λ r, Framer (f_chunks r) (f_len r) (f_out r).
Definition framer_new : StreamFramer := Framer [] 0 [].

(** The loop of [#peekUInt32BE]: [tmp] is the part of the four bytes copied so far. *)
Fixpoint peek_loop (chunks : list buffer) (tmp : buffer) : buffer :=
  match chunks with
  | [] => tmp
  | c :: cs =>
      let need := (4 - length tmp)%nat in
      if (length tmp <? 4)%nat then
        if (need <=? length c)%nat then tmp ++ take need c else peek_loop cs (tmp ++ c)
      else tmp
  end.

Definition peekUInt32BE (f : StreamFramer) : outcome (option Z) :=
  if f_len f <? 4 then Ret None else
  match f_chunks f with
  | [] => Ret None
  | c0 :: _ =>
      if (4 <=? length c0)%nat then v ← read_u32 0 c0; Ret (Some v) else
      let tmp := peek_loop (f_chunks f) [] in
      if (4 <=? length tmp)%nat then v ← read_u32 0 tmp; Ret (Some v) else Ret None
  end.

(** The loop of [#consume]: [need] bytes are missing; [first.length] of a missing first
    chunk is a [TypeError]. *)
Fixpoint consume_loop (chunks : list buffer) (len : Z) (need : nat) (out : buffer) :
    outcome (buffer * list buffer * Z) :=
  if (need =? 0)%nat then Ret (out, chunks, len) else
  match chunks with
  | [] => Throw TypeError
  | first :: rest =>
      if (length first <=? need)%nat
      then consume_loop rest (len - blen first) (need - length first) (out ++ first)
      else Ret (out ++ take need first, drop need first :: rest, len - Z.of_nat need)
  end.

Definition consume (n : nat) : SM StreamFramer buffer :=
  f ← get;
  '(out, chunks, len) ← lift (consume_loop (f_chunks f) (f_len f) n []);
  modify (λ f, (f <| f_chunks := chunks |>) <| f_len := len |>);;
  mret out.

Definition mergeChunksIfNeeded : SM StreamFramer () :=
  modify (λ f,
    if (Z.of_nat (length (f_chunks f)) <? STREAM_FRAMER_CHUNK_MERGE_AFTER) || (f_len f =? 0) then f
    else f <| f_chunks := [concat (f_chunks f)] |>).

Definition bad_length (packedLen : Z) : bool := (packedLen <=? 0) || (MAX_PKT <? packedLen).
Definition bad_frame (packedLen : Z) : js_error := Error ("bad frame length " +:+ pretty packedLen).

(** The [for(;;)] of [push]. *)
Fixpoint push_loop (fuel : nat) : SM StreamFramer () :=
  match fuel with
  | O => skip
  | S fuel =>
      f ← get;
      if f_len f <? 4 then skip else
      packedLen ← lift (peekUInt32BE f);
      match packedLen with
      | None => skip
      | Some packedLen =>
          if bad_length packedLen then
            modify (λ f, (f <| f_chunks := [] |>) <| f_len := 0 |>);;
            lift (Throw (bad_frame packedLen))
          else
          let frameLen := 4 + packedLen in
          if f_len f <? frameLen then skip else
          frame ← consume (Z.to_nat frameLen);
          modify (λ f, f <| f_out ::= λ o, o ++ [drop 4 frame] |>);;
          push_loop fuel
      end
  end.

Definition push (chunk : buffer) : SM StreamFramer () :=
  when (negb (length chunk =? 0)%nat)
    (modify (λ f, (f <| f_chunks ::= λ cs, cs ++ [chunk] |>) <| f_len ::= λ l, l + blen chunk |>));;
  f ← get;
  push_loop (Z.to_nat (f_len f));;
  mergeChunksIfNeeded.

(** ** The sender *)

Definition encodeCleanVpnFramedPkt (pkt : buffer) : outcome buffer :=
  let buf := buf_alloc (4 + length pkt) in
  buf ← write_uint 4 (blen pkt) 0 buf;
  Ret (if (length pkt =? 0)%nat then buf else buf_copy pkt 4 buf).

(** The closure of [createTcpFramedBatchedWriter]: its variables, the [setImmediate]
    callbacks that wait, what [endpoint.write] took and how often it threw. *)
Record Writer := MkWriter {
  w_batch : list buffer;
  w_batchLen : Z;
  w_flushTimer : bool;
  w_flushDeferred : bool;
  w_immediates : nat;
  w_written : list buffer;
  w_errors : nat;
}.
#[export] Instance eta_writer : Eta Writer := λ r,
  MkWriter (w_batch r) (w_batchLen r) (w_flushTimer r) (w_flushDeferred r) (w_immediates r)
    (w_written r) (w_errors r).
Definition writer_new : Writer := MkWriter [] 0 false false 0 [] 0.

Section writer.
Variables maxBatch flushMs : Z.

(** [endpoint.write(payload, ...)] in its [try]: [ok] is false when it throws. *)
Definition endpoint_write (payload : buffer) (ok : bool) : SM Writer () :=
  if ok then modify (λ w, w <| w_written ::= λ l, l ++ [payload] |>)
  else modify (λ w, w <| w_errors ::= S |>).

Definition flush (ok : bool) : SM Writer () :=
  modify (λ w, (w <| w_flushTimer := false |>) <| w_flushDeferred := false |>);;
  w ← get;
  if w_batchLen w =? 0 then skip else
  let payload := match w_batch w with [p] => p | ps => take (Z.to_nat (w_batchLen w)) (concat ps) end in
  modify (λ w, (w <| w_batch := [] |>) <| w_batchLen := 0 |>);;
  endpoint_write payload ok.

Definition scheduleFlush : SM Writer () :=
  w ← get;
  if w_batchLen w =? 0 then skip else
  if flushMs <=? 0 then
    if w_flushDeferred w then skip else
    modify (λ w, (w <| w_flushDeferred := true |>) <| w_immediates ::= S |>)
  else
  if w_flushTimer w then skip else modify (λ w, w <| w_flushTimer := true |>).

(** The function it returns, of one packet. *)
Definition write_pkt (pkt : buffer) (ok : bool) : SM Writer () :=
  if maxBatch <=? 0 then
    match encodeCleanVpnFramedPkt pkt with
    | Ret piece => endpoint_write piece ok
    | Throw _ => modify (λ w, w <| w_errors ::= S |>)
    end
  else
  piece ← lift (encodeCleanVpnFramedPkt pkt);
  modify (λ w, (w <| w_batch ::= λ b, b ++ [piece] |>) <| w_batchLen ::= λ l, l + blen piece |>);;
  w ← get;
  if maxBatch <=? w_batchLen w then flush ok else scheduleFlush.

(** What happens to a writer: a packet, a [setImmediate] callback, the timer. *)
Inductive wop :=
  | Pkt (pkt : buffer) (ok : bool)
  | Immediate (ok : bool)
  | Timer (ok : bool).

Definition writer_step (o : wop) : SM Writer () :=
  match o with
  | Pkt pkt ok => write_pkt pkt ok
  | Immediate ok =>
      w ← get;
      match w_immediates w with
      | O => skip
      | S n => modify (λ w, w <| w_immediates := n |>);; flush ok
      end
  | Timer ok =>
      w ← get;
      when (w_flushTimer w) (modify (λ w, w <| w_flushTimer := false |>);; flush ok)
  end.
End writer.

(** ** The reference: the packets of a byte stream

    [inl rest]: the bytes of an incomplete frame are left; [inr n]: a frame of the
    impossible length [n] starts there. *)

Fixpoint unframe_from (fuel : nat) (b : buffer) : list buffer * (buffer + Z) :=
  match fuel with
  | O => ([], inl b)
  | S fuel =>
      if (length b <? 4)%nat then ([], inl b) else
      let n := be_value (take 4 b) in
      if bad_length n then ([], inr n) else
      if (length b <? 4 + Z.to_nat n)%nat then ([], inl b) else
      let '(ps, r) := unframe_from fuel (drop (4 + Z.to_nat n) b) in
      (take (Z.to_nat n) (drop 4 b) :: ps, r)
  end.
Definition unframe (b : buffer) : list buffer * (buffer + Z) := unframe_from (length b) b.

Lemma unframe_fuel b f g : (length b <= f)%nat → (length b <= g)%nat → unframe_from f b = unframe_from g b.
Proof.
  revert b g. induction f as [|f IH]; intros b g Hf Hg.
  { destruct b; [by destruct g|simpl in Hf; lia]. }
  destruct g as [|g]; [destruct b; [done|simpl in Hg; lia]|]. simpl.
  case_match; [done|]. case_match; [done|]. case_match; [done|].
  rewrite (IH _ g) //; rewrite length_drop; lia.
Qed.

(** One frame: [unframe] by its own equation. *)
Lemma unframe_eq b : unframe b =
  if (length b <? 4)%nat then ([], inl b) else
  let n := be_value (take 4 b) in
  if bad_length n then ([], inr n) else
  if (length b <? 4 + Z.to_nat n)%nat then ([], inl b) else
  let '(ps, r) := unframe (drop (4 + Z.to_nat n) b) in (take (Z.to_nat n) (drop 4 b) :: ps, r).
Proof.
  unfold unframe at 1. rewrite (unframe_fuel _ _ (S (length b))); [|lia..]. cbn [unframe_from].
  case_match; [done|]. cbv zeta. case_match; [done|]. case_match; [done|].
  rewrite (unframe_fuel _ _ (length (drop (4 + Z.to_nat (be_value (take 4 b))) b))) //.
  rewrite length_drop. lia.
Qed.

(** More bytes continue where the rest left off, and nothing follows a bad length. *)
Lemma unframe_app b c : unframe (b ++ c) =
  match unframe b with
  | (ps, inl rest) => let '(qs, r) := unframe (rest ++ c) in (ps ++ qs, r)
  | bad => bad
  end.
Proof.
  induction b as [b IH] using (induction_ltof1 _ (@length Z)); unfold ltof in IH.
  rewrite (unframe_eq b). destruct (Nat.ltb_spec (length b) 4) as [Hl|Hl]; [by destruct (unframe (b ++ c))|].
  cbv zeta. rewrite unframe_eq.
  rewrite (proj2 (Nat.ltb_ge _ _)); [|rewrite length_app; lia]. cbv zeta.
  rewrite take_app_le //. destruct (bad_length _) eqn:Hbad; [done|].
  set (n := Z.to_nat (be_value (take 4 b))). destruct (Nat.ltb_spec (length b) (4 + n)) as [Hn|Hn].
  - rewrite (unframe_eq (b ++ c)) (proj2 (Nat.ltb_ge (length (b ++ c)) 4)); [|rewrite length_app; lia].
    cbv zeta. rewrite take_app_le // Hbad -/n.
    destruct (_ <? _)%nat; [done|]. by destruct (unframe _).
  - rewrite (proj2 (Nat.ltb_ge _ _)); [|rewrite length_app; lia].
    rewrite drop_app_le // (drop_app_le b c 4) // IH; [|rewrite length_drop; lia].
    rewrite take_app_le; [|rewrite length_drop; lia].
    destruct (unframe (drop (4 + n) b)) as [ps [rest|k]]; [|done].
    by destruct (unframe (rest ++ c)).
Qed.

(** What the sender writes is read back packet by packet. *)
Definition pkt_ok (p : buffer) : Prop := 0 < blen p <= MAX_PKT.
#[export] Instance pkt_ok_dec p : Decision (pkt_ok p).
Proof. unfold pkt_ok. apply _. Defined.

Lemma unframe_entries ps rest : Forall pkt_ok ps →
  unframe (entries 4 ps ++ rest) = let '(qs, r) := unframe rest in (ps ++ qs, r).
Proof.
  induction ps as [|p ps IH]; intros Hps; [change (entries 4 [] ++ rest) with rest; by destruct (unframe rest)|].
  apply Forall_cons in Hps as [Hp Hps]. specialize (IH Hps).
  unfold pkt_ok, MAX_PKT, blen in Hp.
  rewrite entries_cons -!(assoc_L (++)) unframe_eq.
  set (h := be_bytes 4 (blen p)). assert (length h = 4%nat) as Hh by done.
  assert (be_value h = blen p) as Hv by (apply be_value_bytes; unfold blen; lia).
  rewrite (proj2 (Nat.ltb_ge _ _)); [|rewrite length_app; lia]. cbv zeta.
  rewrite (take_app_exact h) // Hv /bad_length /MAX_PKT /blen.
  rewrite (proj2 (Z.leb_gt _ _)) ?(proj2 (Z.ltb_ge _ _)) ?Nat2Z.id /=; [|lia..].
  rewrite (proj2 (Nat.ltb_ge _ _)); [|rewrite !length_app; lia].
  change (S (S (S (S (length p))))) with (4 + length p)%nat.
  rewrite -drop_drop (drop_app_exact h) // drop_app_exact // IH take_app_exact //.
  by destruct (unframe rest).
Qed.

(** ** The receiver computes the reference *)

Definition f_bytes (f : StreamFramer) : buffer := concat (f_chunks f).
Definition f_inv (f : StreamFramer) : Prop :=
  f_len f = blen (f_bytes f) ∧ Forall (λ c, c ≠ []) (f_chunks f).

Lemma peek_loop_spec cs : ∀ tmp, (length tmp <= 4)%nat →
  (4 <= length (tmp ++ concat cs))%nat → peek_loop cs tmp = take 4 (tmp ++ concat cs).
Proof.
  induction cs as [|c cs IH]; intros tmp Ht Hl; simpl in *.
  { rewrite app_nil_r in Hl. rewrite app_nil_r take_ge //. }
  destruct (Nat.ltb_spec (length tmp) 4); [|rewrite take_app_exact; [done|lia]].
  destruct (Nat.leb_spec (4 - length tmp) (length c)).
  - rewrite take_app (take_ge tmp); [|lia]. by rewrite take_app_le.
  - rewrite IH; [by rewrite -(assoc_L (++))|rewrite length_app; lia|by rewrite -(assoc_L (++))].
Qed.

Lemma read_head (b : buffer) : (4 <= length b)%nat → read_u32 0 b = Ret (be_value (take 4 b)).
Proof. intros. by rewrite read_uint_ok. Qed.

Lemma peek_spec f : f_inv f → 4 <= f_len f →
  peekUInt32BE f = Ret (Some (be_value (take 4 (f_bytes f)))).
Proof.
  intros [Hl Hne] H4. unfold peekUInt32BE. rewrite (proj2 (Z.ltb_ge _ _)) //.
  unfold f_bytes in *. rewrite Hl in H4. unfold blen in H4.
  destruct (f_chunks f) as [|c0 cs]; [done|].
  destruct (Nat.leb_spec 4 (length c0)).
  - rewrite read_head // ret_bind. by rewrite /= take_app_le.
  - rewrite (peek_loop_spec (c0 :: cs) []); [|simpl in *; lia..].
    change ([] ++ ?x) with x. rewrite (proj2 (Nat.leb_le _ _)); [|rewrite length_take; lia].
    rewrite read_head ?length_take ?ret_bind; [by rewrite take_take|lia].
Qed.

Lemma consume_loop_spec cs : ∀ len need out, (need <= length (concat cs))%nat →
  Forall (λ c, c ≠ []) cs →
  ∃ cs', consume_loop cs len need out = Ret (out ++ take need (concat cs), cs', len - Z.of_nat need) ∧
    concat cs' = drop need (concat cs) ∧ Forall (λ c, c ≠ []) cs'.
Proof.
  induction cs as [|c cs IH]; intros len need out Hn Hne.
  { simpl in Hn. replace need with 0%nat by lia. exists []. by rewrite /= app_nil_r Z.sub_0_r. }
  pose proof Hne as [Hc Hcs]%Forall_cons. simpl. destruct (Nat.eqb_spec need 0) as [->|].
  { exists (c :: cs). by rewrite /= app_nil_r Z.sub_0_r. }
  simpl in Hn. rewrite length_app in Hn. destruct (Nat.leb_spec (length c) need) as [Hle|Hgt].
  - destruct (IH (len - blen c) (need - length c)%nat (out ++ c)) as (cs' & -> & Hcs' & Hne'); [lia|done|].
    exists cs'. rewrite -(assoc_L (++)) take_app (take_ge c) // drop_app (drop_ge c) //.
    split; [|done]. do 2 f_equal. unfold blen. lia.
  - exists (drop need c :: cs). rewrite take_app_le; [|lia]. rewrite /= drop_app_le; [|lia].
    split; [done|]. split; [done|]. constructor; [|done].
    intros E. apply (f_equal length) in E. rewrite length_drop /= in E. lia.
Qed.

Lemma consume_spec n f : f_inv f → Z.of_nat n <= f_len f →
  ∃ cs', consume n f = (Ret (take n (f_bytes f)), Framer cs' (f_len f - Z.of_nat n) (f_out f)) ∧
    f_inv (Framer cs' (f_len f - Z.of_nat n) (f_out f)) ∧ concat cs' = drop n (f_bytes f).
Proof.
  intros [Hl Hne] Hn. rewrite Hl /blen in Hn.
  destruct (consume_loop_spec (f_chunks f) (f_len f) n []) as (cs' & E & Hcs & Hne'); [|done|].
  { unfold f_bytes in Hn. lia. }
  exists cs'. unfold consume. rewrite get_bind /lift. unfold mbind at 1, SM_bind at 1. rewrite E.
  split; [done|]. split; [|done]. split; [|done].
  cbn [f_len f_bytes f_chunks]. unfold f_bytes, blen in *. cbn [f_chunks]. rewrite Hcs length_drop. lia.
Qed.

Definition framed (f : StreamFramer) (r : list buffer * (buffer + Z)) (res : outcome () * StreamFramer) : Prop :=
  match r with
  | (ps, inl rest) => ∃ cs, res = (Ret tt, Framer cs (blen rest) (f_out f ++ ps)) ∧
      concat cs = rest ∧ Forall (λ c, c ≠ []) cs
  | (ps, inr n) => res = (Throw (bad_frame n), Framer [] 0 (f_out f ++ ps))
  end.

Lemma push_loop_spec fuel : ∀ f, f_inv f →
  framed f (unframe_from fuel (f_bytes f)) (push_loop fuel f).
Proof.
  induction fuel as [|fuel IH]; intros f Hf; pose proof Hf as [Hl Hne].
  { simpl. exists (f_chunks f). rewrite app_nil_r. destruct f; simpl in *. by rewrite -Hl. }
  cbn [unframe_from push_loop]. rewrite get_bind.
  assert (f_len f = Z.of_nat (length (f_bytes f))) as Hlen by done.
  destruct (Nat.ltb_spec (length (f_bytes f)) 4) as [H4|H4].
  { rewrite (proj2 (Z.ltb_lt _ _)); [|lia]. exists (f_chunks f). rewrite app_nil_r -Hl. by destruct f. }
  rewrite (proj2 (Z.ltb_ge _ _)); [|lia]. rewrite peek_spec; [|done|lia].
  cbv zeta. set (n := be_value _). change (lift (Ret (Some n)) ≫= ?k) with (k (Some n)).
  cbv beta iota. destruct (bad_length n) eqn:Hbad; [by rewrite /framed app_nil_r|].
  unfold bad_length, MAX_PKT in Hbad. bool_to_prop.
  destruct (Nat.ltb_spec (length (f_bytes f)) (4 + Z.to_nat n)) as [Hn|Hn].
  { rewrite (proj2 (Z.ltb_lt _ _)); [|lia]. exists (f_chunks f). rewrite app_nil_r -Hl. by destruct f. }
  rewrite (proj2 (Z.ltb_ge _ _)); [|lia].
  destruct (consume_spec (Z.to_nat (4 + n)) f) as (cs & Ec & Hf' & Hcs); [done|lia|].
  unfold mbind at 1, SM_bind at 1. rewrite Ec modify_bind. 
  replace (Z.to_nat (4 + n)) with (4 + Z.to_nat n)%nat in * by lia.
  set (f' := set_field _ _ _). specialize (IH f' Hf').
  assert (f_bytes f' = drop (4 + Z.to_nat n) (f_bytes f)) as Hb by exact Hcs. rewrite Hb in IH.
  assert (f_out f' = f_out f ++ [take (Z.to_nat n) (drop 4 (f_bytes f))]) as Ho.
  { unfold f', set_field. simpl. do 2 f_equal. by rewrite take_drop_commute. }
  destruct (unframe_from fuel _) as [ps [rest|k]]; unfold framed in *; rewrite Ho -(assoc_L (++)) in IH; done.
Qed.

Lemma unframe_rest b ps rest : unframe b = (ps, inl rest) → unframe rest = ([], inl rest).
Proof.
  intros E. pose proof (unframe_app b []) as H. rewrite app_nil_r E app_nil_r in H.
  destruct (unframe rest) as [qs r]. simplify_eq. f_equal. apply (app_inv_head ps). by rewrite app_nil_r.
Qed.

(** [push] on a framer that holds an incomplete frame. *)
Definition pushed (out : list buffer) (r : list buffer * (buffer + Z)) (res : outcome () * StreamFramer) : Prop :=
  match r with
  | (ps, inl rest) => ∃ f, res = (Ret tt, f) ∧ f_inv f ∧ f_out f = out ++ ps ∧ f_bytes f = rest ∧
      Z.of_nat (length (f_chunks f)) < STREAM_FRAMER_CHUNK_MERGE_AFTER
  | (ps, inr n) => res = (Throw (bad_frame n), Framer [] 0 (out ++ ps))
  end.

Lemma merge_spec cs out : Forall (λ c, c ≠ []) cs →
  pushed out ([], inl (concat cs)) (mergeChunksIfNeeded (Framer cs (blen (concat cs)) out)).
Proof.
  intros Hne. unfold pushed, mergeChunksIfNeeded, modify. eexists. split; [done|]. simpl.
  destruct (_ || _) eqn:E.
  - split; [done|]. split; [by rewrite app_nil_r|]. split; [done|].
    apply orb_true_iff in E as [E%Z.ltb_lt|E%Z.eqb_eq]; [done|].
    destruct cs as [|c cs]; [done|]. apply Forall_cons in Hne as [Hc _].
    unfold blen in E. destruct c; [done|]. simpl in E. lia.
  - bool_to_prop. split; [|split; [by rewrite /= app_nil_r|split; [by rewrite /f_bytes /= app_nil_r|done]]].
    split; [by rewrite /f_bytes /= app_nil_r|]. apply Forall_singleton. intros En. by match goal with H : blen _ ≠ 0 |- _ => rewrite En in H end.
Qed.

Lemma push_spec chunk f : f_inv f → pushed (f_out f) (unframe (f_bytes f ++ chunk)) (push chunk f).
Proof.
  intros Hf. unfold push.
  set (f1 := Framer (if (length chunk =? 0)%nat then f_chunks f else f_chunks f ++ [chunk])
               (f_len f + blen chunk) (f_out f)).
  assert (∀ k : () → SM StreamFramer (), (when (negb (length chunk =? 0)%nat) (modify (λ f,
      (f <| f_chunks ::= λ cs, cs ++ [chunk] |>) <| f_len ::= λ l, l + blen chunk |>)) ≫= k) f = k tt f1) as Hw.
  { intros k. unfold f1. destruct chunk; [|done]. destruct f; by rewrite /= Z.add_0_r. }
  rewrite Hw. clear Hw.
  assert (f_bytes f1 = f_bytes f ++ chunk) as Hb.
  { unfold f1, f_bytes. simpl. destruct chunk; simpl; [by rewrite app_nil_r|].
    by rewrite concat_app /= app_nil_r. }
  assert (f_inv f1) as H1.
  { destruct Hf as [Hl Hne]. split; [rewrite Hb; unfold blen in *; rewrite length_app /f1 /=; unfold blen; lia|].
    unfold f1. simpl. destruct chunk; [done|]. by apply Forall_app_2; [|apply Forall_singleton]. }
  rewrite get_bind. pose proof (push_loop_spec (Z.to_nat (f_len f1)) f1 H1) as HL.
  rewrite -(unframe_fuel (f_bytes f1) (length (f_bytes f1))) in HL; [|done|rewrite (proj1 H1) /blen; lia].
  change (unframe_from _ _) with (unframe (f_bytes f1)) in HL. rewrite Hb in HL.
  unfold mbind, SM_bind. destruct (unframe _) as [ps [rest|n]].
  - destruct HL as (cs & -> & <- & Hne). unfold pushed. cbv beta iota. cbn [f1 f_out].
    destruct (merge_spec cs (f_out f ++ ps) Hne) as (f' & -> & Hi & Ho & Hr & Hc).
    exists f'. by rewrite Ho app_nil_r.
  - simpl in HL. by rewrite HL.
Qed.

Lemma push_all_spec chunks : ∀ f, f_inv f → unframe (f_bytes f) = ([], inl (f_bytes f)) →
  Z.of_nat (length (f_chunks f)) < STREAM_FRAMER_CHUNK_MERGE_AFTER →
  pushed (f_out f) (unframe (f_bytes f ++ concat chunks)) (for_each push chunks f).
Proof.
  induction chunks as [|c chunks IH]; intros f Hf Hu Hn.
  { rewrite /= app_nil_r Hu. exists f. by rewrite app_nil_r. }
  pose proof (push_spec c f Hf) as HP. cbn [concat for_each].
  rewrite (assoc_L (++)) unframe_app. unfold mbind, SM_bind.
  destruct (unframe (f_bytes f ++ c)) as [ps [rest|n]] eqn:E; simpl in HP; [|by rewrite HP].
  destruct HP as (f' & -> & Hi & Ho & <- & Hc).
  specialize (IH f' Hi (unframe_rest _ _ _ E) Hc).
  destruct (unframe (f_bytes f' ++ concat chunks)) as [qs [rest|n]]; unfold pushed in *; rewrite Ho in IH;
    by rewrite (assoc_L (++)).
Qed.

Lemma framer_new_spec chunks : pushed [] (unframe (concat chunks)) (for_each push chunks framer_new).
Proof. by apply (push_all_spec chunks framer_new). Qed.

(** However TCP cuts a byte stream into chunks, [StreamFramer] hands over exactly
    the packets the concatenated stream holds, in order, keeps exactly the bytes of the
    incomplete frame, in at most 23 chunks, and on a length of 0 or over 65535 throws
    "bad frame length" after the packets before it, with nothing kept. *)
Theorem stream_framer_refines (chunks : list buffer) :
  match unframe (concat chunks) with
  | (ps, inl rest) => ∃ f, for_each push chunks framer_new = (Ret tt, f) ∧
      f_out f = ps ∧ concat (f_chunks f) = rest ∧ f_len f = blen rest ∧
      Z.of_nat (length (f_chunks f)) < STREAM_FRAMER_CHUNK_MERGE_AFTER
  | (ps, inr n) => for_each push chunks framer_new = (Throw (bad_frame n), Framer [] 0 ps)
  end.
Proof.
  pose proof (framer_new_spec chunks) as H.
  destruct (unframe (concat chunks)) as [ps [rest|n]]; [|done].
  destruct H as (f & -> & [Hl _] & Ho & Hb & Hc). exists f. by rewrite Hl Hb.
Qed.

(** ** The sender writes whole frames in order *)

Definition frame (p : buffer) : buffer := be_bytes 4 (blen p) ++ p.

Lemma encode_spec p : blen p < 2 ^ 32 → encodeCleanVpnFramedPkt p = Ret (frame p).
Proof.
  intros Hp. unfold encodeCleanVpnFramedPkt, blen in *.
  rewrite buf_alloc_nil (write_uint_zero 4); [|done|lia|lia]. rewrite ret_bind.
  replace (4 + length p - 4)%nat with (length p) by lia.
  destruct (Nat.eqb_spec (length p) 0) as [E|E].
  { destruct p; [|done]. by rewrite /frame /= !app_nil_r. }
  rewrite buf_copy_zero //. by rewrite Nat.sub_diag app_nil_r.
Qed.

Lemma concat_frames ps : concat (map frame ps) = entries 4 ps.
Proof. induction ps as [|p ps IH]; [done|]. by rewrite /= IH entries_cons /frame -(assoc_L (++)). Qed.

Section sender.
Variables maxBatch flushMs : Z.

(** A batch that waits will be flushed; without batching none waits. *)
Definition armed (w : Writer) : Prop :=
  (maxBatch <= 0 → w_batchLen w = 0) ∧
  (w_flushDeferred w = true → (0 < w_immediates w)%nat) ∧
  (w_batchLen w ≠ 0 → if flushMs <=? 0 then w_flushDeferred w = true else w_flushTimer w = true).

(** [acc]: the packets written so far; [sent]: those whose write the socket took;
    [pend]: those of the batch. *)
Definition w_state (acc sent pend : list buffer) (w : Writer) : Prop :=
  concat (w_written w) = entries 4 sent ∧
  w_batch w = map frame pend ∧ w_batchLen w = sumZ (entry_size 4) pend ∧
  (sent ++ pend) `sublist_of` acc ∧ (w_errors w = 0%nat → sent ++ pend = acc).
Definition w_inv (acc : list buffer) (w : Writer) : Prop :=
  (∃ sent pend, w_state acc sent pend w) ∧ armed w.

Lemma payload_entries pend : match map frame pend with [p] => p | ps => take (Z.to_nat (sumZ (entry_size 4) pend)) (concat ps) end
  = entries 4 pend.
Proof.
  assert (take (Z.to_nat (sumZ (entry_size 4) pend)) (entries 4 pend) = entries 4 pend) as Ht.
  { apply take_ge. pose proof (length_entries 4 pend). lia. }
  destruct pend as [|p [|q pend]]; [done| |].
  - by rewrite /entries /= app_nil_r.
  - rewrite -concat_frames in Ht. by rewrite -concat_frames.
Qed.

Lemma write_entries_spec acc sent pend ok w :
  concat (w_written w) = entries 4 sent → w_batch w = [] → w_batchLen w = 0 →
  (sent ++ pend) `sublist_of` acc → (w_errors w = 0%nat → sent ++ pend = acc) →
  ∃ w', endpoint_write (entries 4 pend) ok w = (Ret tt, w') ∧
    (∃ sent', w_state acc sent' [] w') ∧ (armed w → armed w').
Proof.
  intros Hw Hb Hbl Hs He. destruct ok; eexists; (split; [done|]); (split; [|done]).
  - exists (sent ++ pend). split; [|by rewrite app_nil_r].
    by rewrite /= concat_app Hw /= app_nil_r /entries bind_app.
  - exists sent. split; [done|]. rewrite app_nil_r. split; [done|]. split; [done|]. split; [|done].
    etrans; [|exact Hs]. apply sublist_inserts_r. done.
Qed.

Lemma flush_spec acc sent pend ok w : w_state acc sent pend w →
  ∃ w', flush ok w = (Ret tt, w') ∧ w_inv acc w'.
Proof.
  intros (Hw & Hb & Hl & Hs & He). unfold flush. rewrite modify_bind get_bind.
  set (w1 := set_field _ _ _). assert (w_batchLen w1 = sumZ (entry_size 4) pend) as -> by done.
  destruct (Z.eqb_spec (sumZ (entry_size 4) pend) 0) as [E|E].
  - exists w1. split; [done|]. split; [by exists sent, pend|]. split; [intros _; by rewrite /= Hl|].
    split; [done|]. intros H. by rewrite /= Hl E in H.
  - rewrite modify_bind. assert (w_batch w1 = map frame pend) as -> by done. rewrite payload_entries.
    set (w2 := set_field _ _ _). destruct (write_entries_spec acc sent pend ok w2) as (w' & -> & Hw' & Ha');
      [done..|]. exists w'. split; [done|]. split; [|by apply Ha'].
    destruct Hw' as [sent' ?]. by exists sent', [].
Qed.

Lemma schedule_spec acc sent pend w : w_state acc sent pend w → 0 < maxBatch →
  (w_flushDeferred w = true → (0 < w_immediates w)%nat) →
  ∃ w', scheduleFlush flushMs w = (Ret tt, w') ∧ w_inv acc w'.
Proof.
  intros Hst Hm Hd. unfold scheduleFlush. rewrite get_bind.
  destruct (Z.eqb_spec (w_batchLen w) 0) as [E|E].
  { exists w. split; [done|]. split; [by exists sent, pend|]. by split. }
  destruct (flushMs <=? 0) eqn:Hf; case_match eqn:Hb; eexists; (split; [done|]);
    (split; [by exists sent, pend|]); (split; [lia|]); rewrite Hf /=; split; done || (intros; simpl; lia).
Qed.

Lemma write_pkt_spec acc pkt ok w : w_inv acc w → blen pkt < 2 ^ 32 →
  ∃ w', write_pkt maxBatch flushMs pkt ok w = (Ret tt, w') ∧ w_inv (acc ++ [pkt]) w'.
Proof.
  intros [(sent & pend & Hw & Hb & Hl & Hs & He) Ha] Hp. unfold write_pkt. rewrite encode_spec //.
  assert ((sent ++ pend ++ [pkt]) `sublist_of` (acc ++ [pkt])) as Hs'.
  { rewrite (assoc_L (++)). by apply sublist_app. }
  assert (w_errors w = 0%nat → sent ++ pend ++ [pkt] = acc ++ [pkt]) as He'.
  { intros E. by rewrite (assoc_L (++)) He. }
  destruct (Z.leb_spec maxBatch 0) as [Hm|Hm].
  - assert (pend = []) as ->.
    { destruct pend as [|q pend]; [done|]. pose proof (proj1 Ha Hm) as H0.
      rewrite Hl sumZ_cons in H0. pose proof (entry_size_ge 4 q).
      pose proof (sum_entries_length 4 pend). lia. }
    replace (frame pkt) with (entries 4 [pkt]); [|by rewrite -concat_frames /= app_nil_r].
    destruct (write_entries_spec (acc ++ [pkt]) sent [pkt] ok w) as (w' & -> & [sent' ?] & Ha'); [done..|].
    exists w'. split; [done|]. split; [by exists sent', []|by apply Ha'].
  - change (lift (Ret (frame pkt)) ≫= ?k) with (k (frame pkt)). cbv beta. rewrite modify_bind get_bind.
    set (w1 := set_field _ _ _).
    assert (w_state (acc ++ [pkt]) sent (pend ++ [pkt]) w1) as H1.
    { split; [done|]. split; [by rewrite /= Hb map_app|]. split; [|done].
      rewrite /= Hl sumZ_app /= /entry_size /frame. unfold blen at 2. rewrite length_app length_be_bytes /blen. lia. }
    destruct (maxBatch <=? w_batchLen w1); [by apply (flush_spec _ sent (pend ++ [pkt]))|].
    apply (schedule_spec _ sent (pend ++ [pkt])); [done|done|apply Ha].
Qed.

Definition op_pkts (o : wop) : list buffer := match o with Pkt p _ => [p] | _ => [] end.

Lemma writer_step_spec acc o w : w_inv acc w → Forall (λ p, blen p < 2 ^ 32) (op_pkts o) →
  ∃ w', writer_step maxBatch flushMs o w = (Ret tt, w') ∧ w_inv (acc ++ op_pkts o) w'.
Proof.
  intros Hw Hp. destruct o as [p ok|ok|ok]; simpl; [|rewrite app_nil_r get_bind..].
  - apply write_pkt_spec; [done|]. by apply Forall_cons in Hp as [? _].
  - destruct (w_immediates w) as [|n] eqn:En; [by exists w|]. rewrite modify_bind.
    destruct Hw as [(sent & pend & Hst) _]. by apply (flush_spec _ sent pend).
  - destruct (w_flushTimer w) eqn:Et; [|by exists w]. cbn [when]. rewrite modify_bind.
    destruct Hw as [(sent & pend & Hst) _]. by apply (flush_spec _ sent pend).
Qed.

Lemma writer_run_spec ops : ∀ acc w, w_inv acc w → Forall (λ p, blen p < 2 ^ 32) (ops ≫= op_pkts) →
  ∃ w', for_each (writer_step maxBatch flushMs) ops w = (Ret tt, w') ∧ w_inv (acc ++ (ops ≫= op_pkts)) w'.
Proof.
  induction ops as [|o ops IH]; intros acc w Hw Hp; cbn [for_each].
  { exists w. by rewrite app_nil_r. }
  apply Forall_app in Hp as [Hp Hps]. destruct (writer_step_spec acc o w Hw Hp) as (w1 & E & Hw1).
  destruct (IH _ w1 Hw1 Hps) as (w2 & E2 & Hw2). exists w2.
  unfold mbind at 1, SM_bind. rewrite E E2. split; [done|]. by rewrite -(assoc_L (++)) in Hw2.
Qed.

Lemma writer_new_inv : w_inv [] writer_new.
Proof. split; [by exists [], []|]. done. Qed.
End sender.

(** ** The stream *)

(** A prefix of a stream of frames holds a prefix of its packets. *)
Lemma unframe_prefix ps b : Forall pkt_ok ps → b `prefix_of` entries 4 ps →
  ∃ qs rest, unframe b = (qs, inl rest) ∧ qs `prefix_of` ps ∧ (b = entries 4 ps → qs = ps).
Proof.
  intros Hps [c Hc]. pose proof (unframe_entries ps [] Hps) as Hu.
  rewrite app_nil_r Hc unframe_app (unframe_eq []) /= app_nil_r in Hu.
  destruct (unframe b) as [qs [rest|n]] eqn:Eb; [|done]. exists qs, rest. split; [done|].
  destruct (unframe (rest ++ c)) as [q r] eqn:E. simplify_eq. split; [by apply prefix_app_r|].
  intros Hb. assert (c = []) as -> by (apply (app_inv_head b); rewrite app_nil_r -Hc Hb //).
  rewrite app_nil_r (unframe_rest _ _ _ Eb) in E. simplify_eq. by rewrite app_nil_r.
Qed.

(** C22: Whatever packets of 1 to 65535 bytes a clean-vpn bridge writes, whenever the
    batch is flushed and however TCP cuts the bytes: the receiver never throws and hands
    over a prefix of the packets whose write the socket took, which are among those
    written and in their order; none is missing as long as no write threw, a batch that
    waits has its flush armed, and once all bytes arrived and no batch waits the packets
    are exactly those written. *)
Theorem vpn_stream_delivers (maxBatch flushMs : Z) (ops : list wop) (chunks : list buffer) w :
  Forall pkt_ok (ops ≫= op_pkts) →
  for_each (writer_step maxBatch flushMs) ops writer_new = (Ret tt, w) →
  concat chunks `prefix_of` concat (w_written w) →
  ∃ f sent, for_each push chunks framer_new = (Ret tt, f) ∧
    f_out f `prefix_of` sent ∧ sent `sublist_of` (ops ≫= op_pkts) ∧
    (w_errors w = 0%nat → sent `prefix_of` (ops ≫= op_pkts)) ∧
    (w_batchLen w ≠ 0 → if flushMs <=? 0 then (0 < w_immediates w)%nat else w_flushTimer w = true) ∧
    (concat chunks = concat (w_written w) → f_out f = sent) ∧
    (w_errors w = 0%nat → w_batchLen w = 0 → sent = ops ≫= op_pkts).
Proof.
  intros Hok Hrun Hpre.
  destruct (writer_run_spec maxBatch flushMs ops [] writer_new) as (w' & E & Hinv); [apply writer_new_inv| |].
  { eapply Forall_impl; [exact Hok|]. intros p [_ H]. unfold MAX_PKT in H. lia. }
  assert (w' = w) as -> by congruence. destruct Hinv as [(sent & pend & Hw & Hb & Hl & Hs & He) Ha].
  rewrite Hw in Hpre. change ([] ++ ?l) with l in Hs, He.
  assert (Forall pkt_ok sent) as Hsent.
  { apply Forall_forall. intros p Hp. rewrite Forall_forall in Hok. apply Hok.
    eapply elem_of_sublist; [|exact Hs]. set_solver. }
  destruct (unframe_prefix sent _ Hsent Hpre) as (qs & rest & Eu & Hq & Hall).
  pose proof (framer_new_spec chunks) as HF. rewrite Eu in HF. destruct HF as (f & Ef & _ & Ho & _).
  exists f, sent. rewrite Ef Ho Hw. split; [done|]. split; [done|].
  split; [etrans; [apply sublist_inserts_r; reflexivity|exact Hs]|].
  split; [intros En; rewrite -(He En); by apply prefix_app_r|].
  split; [|split; [intros Ec; by apply Hall|]].
  - destruct Ha as (_ & Hd & Hf). intros Hne. specialize (Hf Hne). destruct (flushMs <=? 0); auto.
  - intros En E0. rewrite -(He En). destruct pend as [|p pend]; [by rewrite app_nil_r|].
    rewrite Hl sumZ_cons in E0. pose proof (entry_size_ge 4 p). pose proof (sum_entries_length 4 pend). lia.
Qed.

(** Three packets, the second batch lost in a throwing write, odd chunks. *)
Lemma vpn_stream_delivers_witness :
  let ops := [Pkt [69; 1; 2] true; Pkt [69; 3] true; Immediate true; Pkt [69; 4] false; Immediate false;
    Pkt [69; 5] true; Immediate true] in
  let chunks := [[0; 0]; [0; 3; 69; 1; 2; 0]; [0; 0; 2; 69; 3; 0; 0; 0; 2]] in
  ∃ w f sent, for_each (writer_step 8192 0) ops writer_new = (Ret tt, w) ∧
    for_each push chunks framer_new = (Ret tt, f) ∧ f_out f `prefix_of` sent ∧
    sent `sublist_of` (ops ≫= op_pkts) ∧ f_out f = [[69; 1; 2]; [69; 3]] ∧ w_errors w = 1%nat.
Proof.
  set (ops := [_; _; _; _; _; _; _]). set (chunks := [_; _; _]). cbv zeta.
  destruct (for_each (writer_step 8192 0) ops writer_new) as [[[]|e] w] eqn:E; [|by vm_compute in E].
  destruct (vpn_stream_delivers 8192 0 ops chunks w) as (f & sent & Ef & Hp & Hs & _).
  - apply (bool_decide_unpack _). vm_compute. reflexivity.
  - exact E.
  - vm_compute in E. injection E as <-. vm_compute. eexists [_; _]. reflexivity.
  - exists w, f, sent. split; [reflexivity|]. split; [exact Ef|]. split; [exact Hp|]. split; [exact Hs|].
    vm_compute in E. injection E as <-. vm_compute in Ef. injection Ef as <-. by split.
Defined.

(** An empty packet makes the receiver drop the connection: the bridges refuse it before
    it is written. *)
Example empty_packet_breaks_stream :
  (for_each (writer_step 8192 0) [Pkt [] true; Immediate true] writer_new).2.(w_written) = [[0; 0; 0; 0]] ∧
  (for_each push [[0; 0; 0; 0]] framer_new).1 = Throw (bad_frame 0).
Proof. by split; vm_compute. Qed.
