(* ===== verification/VpnPackets.v ===== *)
(** * Packets on the clean-vpn bridge (src/scripts/clean-vpn.js, scripts/lib/vpn-ipv6.mjs)

    What the bridge reads in a packet before it forwards it: whether it is IPv4 that can
    cross ([isIpv4Bridgeable]), IPv6 of the fixed address pair ([ipv6PacketAllowed]),
    whether it may wake an idle client ([ipv4TriggersExitLazyConnect]), and the echo
    reply it makes for the TUN's own address.  Reads keep their [RangeError]; that none
    is raised is proved.  [Buffer.allocUnsafe] leaves what the memory held: an argument. *)

From S2P Require Import Prelude Bytes Effects MeshPacket IpPacket VpnFraming.
Local Open Scope Z_scope.
#[local] Unset Default Proof Using.

(** ** [internetChecksum16] *)

Fixpoint checksum_loop (fuel : nat) (buf : buffer) (off i len : nat) (sum : Z) : outcome Z :=
  match fuel with
  | O => Ret sum
  | S fuel =>
      if (i <? len)%nat then
        w ← (if (i + 1 <? len)%nat then read_u16 (off + i) buf
             else Ret (Z.shiftl (byte_at (off + i) buf) 8));
        checksum_loop fuel buf off (i + 2) len (sum + w)
      else Ret sum
  end.

Definition internetChecksum16 (buf : buffer) (off len : nat) : outcome Z :=
  sum ← checksum_loop (S len) buf off 0 len 0;
  Ret (Z.land (Z.lnot (int32 (fold_carry 4 sum))) 0xffff).

(** ** Which packets cross *)

Definition isIpv4Bridgeable (pkt : buffer) : outcome bool :=
  if (length pkt <? 20)%nat then Ret false else
  if negb (Z.shiftr (byte_at 0 pkt) 4 =? 4) then Ret false else
  let ihlWords := Z.land (byte_at 0 pkt) 0x0f in
  if ihlWords <? 5 then Ret false else
  let hdrBytes := ihlWords * 4 in
  if blen pkt <? hdrBytes then Ret false else
  totalLen ← read_u16 2 pkt;
  if (totalLen <? hdrBytes) || (blen pkt <? totalLen) || (MAX_PKT <? totalLen) then Ret false
  else Ret true.

Definition ipv4TcpSynOnly (pkt : buffer) : outcome bool :=
  b ← isIpv4Bridgeable pkt;
  if negb b then Ret false else
  proto ← read_u8 9 pkt;
  if negb (proto =? 6) then Ret false else
  b0 ← read_u8 0 pkt;
  let ihl := Z.land b0 0x0f * 4 in
  if blen pkt <? ihl + 14 then Ret false else
  fl ← read_u8 (Z.to_nat (ihl + 13)) pkt;
  Ret (negb (Z.land fl 0x02 =? 0) && (Z.land fl 0x10 =? 0)).

Definition ipv4DnsQuery (pkt : buffer) : outcome bool :=
  b ← isIpv4Bridgeable pkt;
  if negb b then Ret false else
  proto ← read_u8 9 pkt;
  if negb (proto =? 17) then Ret false else
  b0 ← read_u8 0 pkt;
  let ihl := Z.land b0 0x0f * 4 in
  if blen pkt <? ihl + 4 then Ret false else
  port ← read_u16 (Z.to_nat (ihl + 2)) pkt;
  Ret (port =? 53).

Definition ipv4TriggersExitLazyConnect (pkt : buffer) : outcome bool :=
  syn ← ipv4TcpSynOnly pkt;
  if (syn : bool) then Ret true else ipv4DnsQuery pkt.

(** ** IPv6 of the fixed pair *)

Inductive role := RoleClient | RoleExit.
Inductive direction := In | Out.
#[export] Instance role_eq_dec : EqDecision role.
Proof. solve_decision. Defined.
#[export] Instance direction_eq_dec : EqDecision direction.
Proof. solve_decision. Defined.

Definition clientBytes : buffer := [0xfd; 0x42; 0x63; 0x76; 0x70; 0x6e; 0; 0; 0; 0; 0; 0; 0; 0; 0; 2].
Definition exitBytes : buffer := [0xfd; 0x42; 0x63; 0x76; 0x70; 0x6e; 0; 0; 0; 0; 0; 0; 0; 0; 0; 1].

Definition ipv6PacketAllowed (pkt : buffer) (r : role) (d : direction) : outcome bool :=
  if (length pkt <? 40)%nat || (65535 <? blen pkt) || negb (Z.shiftr (byte_at 0 pkt) 4 =? 6)
  then Ret false else
  size ← read_u16 4 pkt;
  if (size =? 0) || negb (size + 40 =? blen pkt) then Ret false else
  let src := subarray 8 24 pkt in
  let dst := subarray 24 40 pkt in
  let outboundClient := bool_decide (bool_decide (r = RoleClient) = bool_decide (d = Out)) in
  if outboundClient then
    Ret (bool_decide (src = clientBytes) &&
      ((Z.land (byte_at 0 dst) 0xe0 =? 0x20) || bool_decide (dst = exitBytes)))
  else
    Ret (bool_decide (dst = clientBytes) && negb (byte_at 0 src =? 0xff) &&
      negb (bool_decide (src = buf_alloc 16))).

(** ** The echo reply for the TUN's own address

    [junk]: what the 8+n bytes of [allocUnsafe] held; [ident]: the value
    [nextIpIdentification()] returns; the 20 header bytes are all written. *)

Definition echo_icmp (icmpBody icmpPacket : buffer) : outcome buffer :=
  icmpPacket ← write_uint 1 0 0 icmpPacket;
  icmpPacket ← write_uint 1 0 1 icmpPacket;
  icmpPacket ← write_uint 2 0 2 icmpPacket;
  let icmpPacket := if (length icmpBody =? 0)%nat then icmpPacket else buf_copy icmpBody 8 icmpPacket in
  c ← internetChecksum16 icmpPacket 0 (length icmpPacket);
  write_uint 2 c 2 icmpPacket.

Definition echo_header (pkt : buffer) (total ident : Z) : outcome buffer :=
  let ipHeader := buf_alloc 20 in
  ipHeader ← write_uint 1 0x45 0 ipHeader;
  ipHeader ← write_uint 1 0 1 ipHeader;
  ipHeader ← write_uint 2 total 2 ipHeader;
  ipHeader ← write_uint 2 (Z.land ident 0xffff) 4 ipHeader;
  ipHeader ← write_uint 2 0 6 ipHeader;
  ipHeader ← write_uint 1 64 8 ipHeader;
  ipHeader ← write_uint 1 1 9 ipHeader;
  ipHeader ← write_uint 2 0 10 ipHeader;
  let ipHeader := buf_copy (subarray 16 20 pkt) 12 ipHeader in
  let ipHeader := buf_copy (subarray 12 16 pkt) 16 ipHeader in
  c ← internetChecksum16 ipHeader 0 20;
  write_uint 2 c 10 ipHeader.

Definition buildEchoReply (pkt : buffer) (totalLen : Z) (ident : Z) (junk : nat → buffer) : outcome buffer :=
  let icmpOff := 20%nat in
  let icmpTotal := Z.to_nat (totalLen - 20) in
  let icmpBody := subarray (icmpOff + 8) (icmpOff + icmpTotal) pkt in
  icmpPacket ← echo_icmp icmpBody (junk (8 + length icmpBody)%nat);
  ipHeader ← echo_header pkt (20 + blen icmpPacket) ident;
  Ret (ipHeader ++ icmpPacket).

Definition tryBuildTunIcmpEchoReplyForLocalIp (pkt localDst4 : buffer) (ident : Z) (junk : nat → buffer) :
    outcome (option buffer) :=
  if (length pkt <? 28)%nat then Ret None else
  if negb (Z.shiftr (byte_at 0 pkt) 4 =? 4) then Ret None else
  if negb (Z.land (byte_at 0 pkt) 0x0f =? 5) then Ret None else
  totalLen ← read_u16 2 pkt;
  if (totalLen <? 28) || (blen pkt <? totalLen) then Ret None else
  w ← read_u16 6 pkt;
  if negb (Z.land w 0x1fff =? 0) then Ret None else
  if negb (byte_at 9 pkt =? 1) then Ret None else
  if negb (byte_at 16 pkt =? byte_at 0 localDst4) || negb (byte_at 17 pkt =? byte_at 1 localDst4) ||
     negb (byte_at 18 pkt =? byte_at 2 localDst4) || negb (byte_at 19 pkt =? byte_at 3 localDst4)
  then Ret None else
  if negb (byte_at 20 pkt =? 8) || negb (byte_at 21 pkt =? 0) then Ret None else
  let icmpTotal := totalLen - 20 in
  if icmpTotal <? 8 then Ret None else
  r ← buildEchoReply pkt totalLen ident junk;
  Ret (Some r).

(** ** The checksum is that of the mesh's exit *)

Lemma subarray_2 off k (buf : buffer) : (2 <= k)%nat → (off + k <= length buf)%nat → ∃ x y,
  subarray off (off + k) buf = x :: y :: subarray (off + 2) (off + k) buf ∧
  read_u16 off buf = Ret (x * 256 + y).
Proof.
  intros Hk Hl. destruct (drop off buf) as [|x [|y r]] eqn:E;
    pose proof (f_equal length E) as El; rewrite length_drop /= in El; try lia.
  exists x, y. destruct (read_next 2 off buf [x; y] r E) as [-> Hr]; [done|lia|].
  rewrite be_value_2. split; [|done]. unfold subarray. rewrite E Hr.
  replace (off + k - off)%nat with (S (S (off + k - (off + 2)))) by lia. done.
Qed.

Lemma checksum_loop_spec buf off len : (off + len <= length buf)%nat → ∀ fuel i sum,
  (len < i + fuel)%nat →
  checksum_loop fuel buf off i len sum = Ret (sum + word_sum (subarray (off + i) (off + len) buf)).
Proof.
  intros Hl. induction fuel as [|fuel IH]; intros i sum Hf; cbn [checksum_loop].
  { rewrite /subarray (_ : off + len - (off + i) = 0)%nat; [by rewrite /= Z.add_0_r|lia]. }
  destruct (Nat.ltb_spec i len) as [Hi|Hi]; last first.
  { rewrite /subarray (_ : off + len - (off + i) = 0)%nat; [by rewrite /= Z.add_0_r|lia]. }
  destruct (Nat.ltb_spec (i + 1) len) as [Hi1|Hi1].
  - destruct (subarray_2 (off + i) (len - i) buf) as (x & y & Es & ->); [lia..|].
    replace (off + i + (len - i))%nat with (off + len)%nat in Es by lia.
    rewrite ret_bind IH; [|lia]. rewrite Es. f_equal.
    replace (off + (i + 2))%nat with (off + i + 2)%nat by lia.
    change (word_sum (x :: y :: ?l)) with (x * 256 + y + word_sum l). lia.
  - replace len with (i + 1)%nat in * by lia. rewrite ret_bind IH; [|lia].
    destruct (drop (off + i) buf) as [|x r] eqn:E;
      pose proof (f_equal length E) as El; rewrite length_drop /= in El; [lia|].
    destruct (byte_next _ _ _ _ E) as [-> _]. unfold subarray. rewrite E.
    replace (off + (i + 1) - (off + i))%nat with 1%nat by lia.
    replace (off + (i + 1) - (off + (i + 2)))%nat with 0%nat by lia. simpl. f_equal. lia.
Qed.

Lemma internetChecksum16_spec buf off len : (off + len <= length buf)%nat →
  internetChecksum16 buf off len = Ret (calculateIPChecksum (subarray off (off + len) buf)).
Proof.
  intros Hl. unfold internetChecksum16. rewrite checksum_loop_spec // ?ret_bind; [|lia].
  by rewrite Nat.add_0_r Z.add_0_l.
Qed.

(** ** What crosses *)

Definition ip_total (pkt : buffer) : Z := be_value (subarray 2 4 pkt).
Definition ip_ihl (pkt : buffer) : Z := Z.land (byte_at 0 pkt) 0x0f * 4.

(** An IPv4 packet whose header and length fit the buffer. *)
Definition bridgeable (pkt : buffer) : Prop :=
  20 <= blen pkt ∧ Z.shiftr (byte_at 0 pkt) 4 = 4 ∧ 20 <= ip_ihl pkt ∧
  ip_ihl pkt <= ip_total pkt ∧ ip_total pkt <= blen pkt ∧ ip_total pkt <= MAX_PKT.
#[export] Instance bridgeable_dec pkt : Decision (bridgeable pkt).
Proof. unfold bridgeable. apply _. Defined.

Lemma isIpv4Bridgeable_spec pkt : isIpv4Bridgeable pkt = Ret (bool_decide (bridgeable pkt)).
Proof.
  unfold isIpv4Bridgeable, bridgeable, ip_ihl.
  destruct (Nat.ltb_spec (length pkt) 20) as [Hl|Hl].
  { rewrite bool_decide_eq_false_2 //. unfold blen. lia. }
  destruct (Z.eqb_spec (Z.shiftr (byte_at 0 pkt) 4) 4) as [H4|H4]; simpl;
    [|rewrite bool_decide_eq_false_2 //; tauto].
  destruct (Z.ltb_spec (Z.land (byte_at 0 pkt) 0x0f) 5) as [H5|H5];
    [rewrite bool_decide_eq_false_2 //; lia|].
  destruct (Z.ltb_spec (blen pkt) (Z.land (byte_at 0 pkt) 0x0f * 4)) as [Hb|Hb];
    [rewrite bool_decide_eq_false_2 //; lia|].
  rewrite read_uint_ok; [|lia]. rewrite ret_bind. change (2 + 2)%nat with 4%nat. fold (ip_total pkt).
  repeat case_match; bool_to_prop; symmetry; f_equal;
    try (apply bool_decide_eq_false_2; unfold blen in *; repeat (rewrite ?orb_true_iff in *; bool_to_prop); lia).
  apply bool_decide_eq_true_2. unfold blen in *. lia.
Qed.

Lemma read_byte_at (i : nat) pkt : (i < length pkt)%nat → read_u8 i pkt = Ret (byte_at i pkt).
Proof.
  intros Hi. destruct (drop i pkt) as [|x r] eqn:E;
    pose proof (f_equal length E) as El; rewrite length_drop /= in El; [lia|].
  destruct (byte_next _ _ _ _ E) as [-> _]. by destruct (read_next 1 i pkt [x] r E) as [-> _]; [|lia|].
Qed.

Lemma ipv4TcpSynOnly_spec pkt : ipv4TcpSynOnly pkt = Ret (bool_decide (bridgeable pkt) &&
  (byte_at 9 pkt =? 6) && (ip_ihl pkt + 14 <=? blen pkt) &&
  (let fl := byte_at (Z.to_nat (ip_ihl pkt + 13)) pkt in
   has_flag fl TCP_FLAGS.SYN && negb (has_flag fl TCP_FLAGS.ACK))).
Proof.
  unfold ipv4TcpSynOnly. rewrite isIpv4Bridgeable_spec ret_bind.
  case_bool_decide as Hb; [|done]. destruct Hb as (Hl & _ & Hi & _). unfold blen in *.
  rewrite (read_byte_at 9) ?ret_bind; [|lia]. destruct (byte_at 9 pkt =? 6); [|done].
  rewrite (read_byte_at 0) ?ret_bind; [|lia]. fold (ip_ihl pkt). cbn [negb andb].
  rewrite Z.leb_antisym. destruct (Z.ltb_spec (Z.of_nat (length pkt)) (ip_ihl pkt + 14)); [done|].
  rewrite read_byte_at ?ret_bind; [|lia]. unfold has_flag. by rewrite negb_involutive.
Qed.

Lemma ipv4DnsQuery_spec pkt : ipv4DnsQuery pkt = Ret (bool_decide (bridgeable pkt) &&
  (byte_at 9 pkt =? 17) && (ip_ihl pkt + 4 <=? blen pkt) &&
  (let o := Z.to_nat (ip_ihl pkt + 2) in be_value (subarray o (o + 2) pkt) =? 53)).
Proof.
  unfold ipv4DnsQuery. rewrite isIpv4Bridgeable_spec ret_bind.
  case_bool_decide as Hb; [|done]. destruct Hb as (Hl & _ & Hi & _). unfold blen in *.
  rewrite (read_byte_at 9) ?ret_bind; [|lia]. destruct (byte_at 9 pkt =? 17); [|done].
  rewrite (read_byte_at 0) ?ret_bind; [|lia]. fold (ip_ihl pkt). cbn [negb andb].
  rewrite Z.leb_antisym. destruct (Z.ltb_spec (Z.of_nat (length pkt)) (ip_ihl pkt + 4)); [done|].
  rewrite read_uint_ok ?ret_bind //. lia.
Qed.

(** What wakes an idle client, in terms of a parsed packet. *)
Definition wakes (i : IpInfo) : bool :=
  match transport i with
  | Tcp f => tcpFlagsSYN f && negb (tcpFlagsACK f)
  | Udp _ => dstPort i =? 53
  | _ => false
  end.

(** The transport header is there in full. *)
Definition untruncated (pkt : buffer) : Prop :=
  (byte_at 9 pkt = 6 → ip_ihl pkt + 20 <= blen pkt) ∧ (byte_at 9 pkt = 17 → ip_ihl pkt + 8 <= blen pkt).

(** A packet that is not bridgeable never wakes an idle client; for a bridgeable one
    with its whole transport header the test never throws and agrees with the mesh's own
    parser: exactly a TCP SYN without ACK or a UDP datagram to port 53 wakes it. *)
Theorem lazy_connect_agrees (pkt : buffer) :
  (¬ bridgeable pkt → ipv4TriggersExitLazyConnect pkt = Ret false) ∧
  (bridgeable pkt → untruncated pkt → ∃ i, parseIPPacket pkt = Ret (IpOk i) ∧
    ipv4TriggersExitLazyConnect pkt = Ret (wakes i)).
Proof.
  unfold ipv4TriggersExitLazyConnect. rewrite ipv4TcpSynOnly_spec ret_bind ipv4DnsQuery_spec.
  split; [intros Hb; by rewrite !bool_decide_eq_false_2|]. intros Hb [Ht Hu].
  rewrite bool_decide_eq_true_2 //. destruct Hb as (Hl & H4 & Hi & _). unfold blen in *.
  unfold parseIPPacket. rewrite (proj2 (Nat.ltb_ge _ _)); [|lia]. rewrite H4. cbn [Z.land Pos.land Pos.Ndouble].
  rewrite (read_uint_ok 2 2) ?ret_bind; [|lia]. rewrite (read_uint_ok 2 4) ?ret_bind; [|lia].
  fold (ip_ihl pkt). cbn [andb]. set (o := Z.to_nat (ip_ihl pkt)). change (Z.land 4 15 =? 4) with true.
  destruct (Z.eqb_spec (byte_at 9 pkt) 6) as [E6|N6].
  - specialize (Ht E6). rewrite E6 (proj2 (Nat.leb_le _ _)); [|lia]. change (_ && true) with true. cbn [andb negb].
    rewrite (proj2 (Z.leb_le _ _)); [|lia]. unfold parse_tcp. rewrite !read_uint_ok; [|lia..].
    rewrite !ret_bind. eexists. split; [done|]. change (6 =? 17) with false. unfold wakes. cbn.
    replace (Z.to_nat (ip_ihl pkt + 13)) with (o + 13)%nat by lia. by case_match.
  - change (byte_at 9 pkt =? PROTOCOLS.TCP) with (byte_at 9 pkt =? 6). rewrite (proj2 (Z.eqb_neq _ 6)) //.
    cbn [andb negb]. destruct (Z.eqb_spec (byte_at 9 pkt) 17) as [E17|N17].
    + specialize (Hu E17). rewrite E17 (proj2 (Nat.leb_le _ _)); [|lia]. change (_ && true) with true. cbn [andb].
      rewrite (proj2 (Z.leb_le _ _)); [|lia]. unfold parse_udp. rewrite !read_uint_ok; [|lia..].
      rewrite !ret_bind. eexists. split; [done|]. unfold wakes. cbn -[subarray].
      by replace (Z.to_nat (ip_ihl pkt + 2)) with (o + 2)%nat by lia.
    + change (byte_at 9 pkt =? PROTOCOLS.UDP) with (byte_at 9 pkt =? 17). rewrite (proj2 (Z.eqb_neq _ 17)) //.
      cbn [andb]. case_match; rewrite ret_bind; eexists; (split; [done|]); done.
Qed.

(** A DNS query and a SYN wake the client, its retransmitted data does not. *)
Definition sample_packet (proto : Z) (l4 : buffer) : buffer :=
  [0x45; 0] ++ be_bytes 2 (20 + blen l4) ++ [0; 1; 0; 0; 64; proto; 0; 0; 10; 0; 0; 2; 8; 8; 8; 8] ++ l4.

Lemma lazy_connect_agrees_witness :
  (∃ i, parseIPPacket (sample_packet 17 [16; 0; 0; 53; 0; 8; 0; 0]) = Ret (IpOk i) ∧
    ipv4TriggersExitLazyConnect (sample_packet 17 [16; 0; 0; 53; 0; 8; 0; 0]) = Ret (wakes i)) ∧
  ipv4TriggersExitLazyConnect [0x45] = Ret false ∧
  ipv4TriggersExitLazyConnect (sample_packet 6 ([16; 0; 1; 187] ++ buf_alloc 8 ++ [0x50; 2] ++ buf_alloc 6)) = Ret true ∧
  ipv4TriggersExitLazyConnect (sample_packet 6 ([16; 0; 1; 187] ++ buf_alloc 8 ++ [0x50; 18] ++ buf_alloc 6)) = Ret false.
Proof.
  split; [|split; [|by vm_compute]].
  - apply lazy_connect_agrees; [apply (bool_decide_unpack _); vm_compute; reflexivity|].
    split; intros H; [by vm_compute in H|by vm_compute].
  - apply lazy_connect_agrees. intros [H _]. by vm_compute in H.
Defined.

(** ** The echo reply *)

(** An unfragmented echo request to the local address, without IP options. *)
Definition echo_for (pkt localDst4 : buffer) : Prop :=
  28 <= blen pkt ∧ Z.shiftr (byte_at 0 pkt) 4 = 4 ∧ Z.land (byte_at 0 pkt) 0x0f = 5 ∧
  28 <= ip_total pkt <= blen pkt ∧ Z.land (be_value (subarray 6 8 pkt)) 0x1fff = 0 ∧
  byte_at 9 pkt = 1 ∧
  (byte_at 16 pkt = byte_at 0 localDst4 ∧ byte_at 17 pkt = byte_at 1 localDst4 ∧
   byte_at 18 pkt = byte_at 2 localDst4 ∧ byte_at 19 pkt = byte_at 3 localDst4) ∧
  byte_at 20 pkt = 8 ∧ byte_at 21 pkt = 0.
#[export] Instance echo_for_dec pkt l : Decision (echo_for pkt l).
Proof. unfold echo_for. apply _. Defined.

Definition vpn_ip (total ident c : Z) (src dst : buffer) : buffer :=
  ip_head_of 0 64 total ident 1 ++ be_bytes 2 c ++ src ++ dst.
Definition vpn_echo (c : Z) (q body : buffer) : buffer := [0; 0] ++ be_bytes 2 c ++ q ++ body.

Lemma try_echo_spec pkt l ident junk :
  tryBuildTunIcmpEchoReplyForLocalIp pkt l ident junk =
    if bool_decide (echo_for pkt l) then r ← buildEchoReply pkt (ip_total pkt) ident junk; Ret (Some r)
    else Ret None.
Proof.
  unfold tryBuildTunIcmpEchoReplyForLocalIp, echo_for, blen.
  destruct (Nat.ltb_spec (length pkt) 28) as [Hl|Hl]; [rewrite bool_decide_eq_false_2 //; lia|].
  destruct (Z.eqb_spec (Z.shiftr (byte_at 0 pkt) 4) 4); [|rewrite bool_decide_eq_false_2 //; tauto].
  destruct (Z.eqb_spec (Z.land (byte_at 0 pkt) 0x0f) 5); [|rewrite bool_decide_eq_false_2 //; tauto].
  cbn [negb]. rewrite (read_uint_ok 2 2) ?ret_bind; [|lia]. change (2 + 2)%nat with 4%nat. fold (ip_total pkt).
  destruct (Z.ltb_spec (ip_total pkt) 28); [rewrite bool_decide_eq_false_2 //; lia|].
  destruct (Z.ltb_spec (Z.of_nat (length pkt)) (ip_total pkt)); [rewrite bool_decide_eq_false_2 //; lia|].
  cbn [orb]. rewrite (read_uint_ok 2 6) ?ret_bind; [|lia]. change (6 + 2)%nat with 8%nat.
  destruct (Z.eqb_spec (Z.land (be_value (subarray 6 8 pkt)) 0x1fff) 0); [|rewrite bool_decide_eq_false_2 //; tauto].
  destruct (Z.eqb_spec (byte_at 9 pkt) 1); [|rewrite bool_decide_eq_false_2 //; tauto]. cbn [negb].
  destruct (Z.eqb_spec (byte_at 16 pkt) (byte_at 0 l)); [|rewrite bool_decide_eq_false_2 //; tauto].
  destruct (Z.eqb_spec (byte_at 17 pkt) (byte_at 1 l)); [|rewrite bool_decide_eq_false_2 //; tauto].
  destruct (Z.eqb_spec (byte_at 18 pkt) (byte_at 2 l)); [|rewrite bool_decide_eq_false_2 //; tauto].
  destruct (Z.eqb_spec (byte_at 19 pkt) (byte_at 3 l)); [|rewrite bool_decide_eq_false_2 //; tauto].
  destruct (Z.eqb_spec (byte_at 20 pkt) 8); [|rewrite bool_decide_eq_false_2 //; tauto].
  destruct (Z.eqb_spec (byte_at 21 pkt) 0); [|rewrite bool_decide_eq_false_2 //; tauto]. cbn [negb orb].
  destruct (Z.ltb_spec (ip_total pkt - 20) 8); [lia|]. rewrite bool_decide_eq_true_2; [done|].
  split_and!; done || lia.
Qed.

(** The checksum over a message or header of even prefix, as stored and as verified. *)
Lemma stored_checksum p s : Nat.Even (length p) → bytes_ok (p ++ s) → blen p + 2 + blen s <= 65534 →
  let c := calculateIPChecksum (p ++ be_bytes 2 0 ++ s) in
  0 <= c < 65536 ∧ calculateIPChecksum (p ++ be_bytes 2 c ++ s) = 0.
Proof.
  intros Hp Hok Hl c. split; [|by apply checksum_verifies].
  apply checksum_range; [|unfold blen in *; rewrite !length_app length_be_bytes; lia].
  rewrite !bytes_ok_app in Hok |- *. destruct Hok. split_and!; [done|apply be_bytes_ok|done].
Qed.

(** The message: the four bytes after the checksum are those of the memory. *)
Lemma echo_icmp_bytes body j : length j = (8 + length body)%nat → bytes_ok j → bytes_ok body →
  blen body <= 65507 →
  ∃ c, echo_icmp body j = Ret (vpn_echo c (subarray 4 8 j) body) ∧
    calculateIPChecksum (vpn_echo c (subarray 4 8 j) body) = 0.
Proof.
  intros Hj Hjok Hbok Hl. unfold blen in Hl.
  destruct j as [|x0 [|x1 [|x2 [|x3 [|x4 [|x5 [|x6 [|x7 rest]]]]]]]]; simpl in Hj; try lia.
  change (subarray 4 8 _) with [x4; x5; x6; x7]. unfold echo_icmp.
  rewrite (write_uint_mid 1 0 [] [x0]) // ret_bind.
  rewrite (write_uint_mid 1 0 [0] [x1]) // ret_bind (write_uint_mid 2 0 [0; 0] [x2; x3]) // ret_bind.
  set (m := if (length body =? 0)%nat then _ else _).
  assert (m = vpn_echo 0 [x4; x5; x6; x7] body) as ->.
  { unfold m. destruct (Nat.eqb_spec (length body) 0) as [E|E].
    - destruct body; [|done]. destruct rest; [done|simpl in Hj; lia].
    - pose proof (buf_copy_mid body [0; 0; 0; 0; x4; x5; x6; x7] rest [] 8) as Hcp.
      rewrite !app_nil_r in Hcp. change ([0; 0] ++ be_bytes 2 0 ++ [x4; x5; x6; x7] ++ rest)
        with ([0; 0; 0; 0; x4; x5; x6; x7] ++ rest). rewrite Hcp //. lia. }
  rewrite internetChecksum16_spec //. rewrite ret_bind.
  rewrite /subarray Nat.add_0_l Nat.sub_0_r drop_0 take_ge //. unfold vpn_echo at 2 3.
  destruct (stored_checksum [0; 0] ([x4; x5; x6; x7] ++ body)) as [Hc Hv]; [by exists 1%nat| | |].
  { rewrite !bytes_ok_app. split_and!; [by repeat constructor| |done].
    rewrite /bytes_ok !Forall_cons in Hjok |- *. split_and!; tauto || constructor. }
  { unfold blen. rewrite length_app /=. lia. }
  set (c := calculateIPChecksum _) in *. exists c.
  rewrite (write_uint_mid 2 c [0; 0] (be_bytes 2 0)) ?length_be_bytes //.
Qed.

Lemma subarray_4 (pkt : buffer) a : (a + 4 <= length pkt)%nat → length (subarray a (a + 4) pkt) = 4%nat.
Proof. intros. rewrite length_subarray; lia. Qed.

Lemma echo_header_bytes pkt total ident : bytes_ok pkt → (20 <= length pkt)%nat → 0 <= total < 65536 →
  let s := subarray 16 20 pkt in let d := subarray 12 16 pkt in
  ∃ c, echo_header pkt total ident = Ret (vpn_ip total (Z.land ident 0xffff) c s d) ∧
    calculateIPChecksum (vpn_ip total (Z.land ident 0xffff) c s d) = 0.
Proof.
  intros Hok Hl Ht s d. pose proof (subarray_4 pkt 16 ltac:(lia)) as Hs. pose proof (subarray_4 pkt 12 ltac:(lia)) as Hd.
  assert (0 <= Z.land ident 0xffff < 65536) as Hid.
  { change 0xffff with (Z.ones 16). rewrite Z.land_ones //. by apply Z.mod_pos_bound. }
  set (id := Z.land ident 0xffff) in *. unfold echo_header. rewrite -/s -/d -/id. rewrite buf_alloc_nil.
  change (length s = 4%nat) in Hs. change (length d = 4%nat) in Hd.
  do 8 (rewrite write_uint_zero; [rewrite ret_bind|rewrite ?length_app ?length_be_bytes; cbn [length]; lia..]).
  set (h := buf_copy _ _ _). assert (h = vpn_ip total id 0 s d) as ->.
  { unfold h. rewrite buf_copy_zero; [|done|rewrite Hs; cbn; lia]. rewrite Hs.
    rewrite buf_copy_zero; [|rewrite length_app Hs //|rewrite Hd; cbn; lia]. rewrite Hd app_nil_r.
    unfold vpn_ip, ip_head_of. by rewrite -!(assoc_L (++)). }
  assert (length (vpn_ip total id 0 s d) = 20%nat) as HL.
  { unfold vpn_ip, ip_head_of. rewrite !length_app !length_be_bytes Hs Hd //. }
  rewrite internetChecksum16_spec ?HL // ret_bind.
  rewrite /subarray Nat.add_0_l Nat.sub_0_r drop_0 take_ge ?HL //. unfold vpn_ip at 2 4.
  destruct (stored_checksum (ip_head_of 0 64 total id 1) (s ++ d)) as [Hc Hv].
  { exists 5%nat. unfold ip_head_of. by rewrite !length_app !length_be_bytes. }
  { unfold ip_head_of. rewrite !bytes_ok_app. split_and!; try apply be_bytes_ok; try by apply bytes_ok_subarray.
    all: apply (bool_decide_unpack _); done. }
  { unfold blen, ip_head_of. rewrite !length_app !length_be_bytes Hs Hd. done. }
  set (c := calculateIPChecksum _) in *. exists c.
  rewrite (write_uint_mid 2 c (ip_head_of 0 64 total id 1) (be_bytes 2 0)) ?length_be_bytes //.
Qed.

(** The fields of the packet the two parts make. *)
Lemma reply_fields n id c c' s d q body (r := vpn_ip n id c s d ++ vpn_echo c' q body) :
  length s = 4%nat → length d = 4%nat → length q = 4%nat → n = 28 + blen body → 0 <= n < 65536 →
  blen r = n ∧ bridgeable r ∧ subarray 12 16 r = s ∧ subarray 16 20 r = d ∧ subarray 20 22 r = [0; 0] ∧
  subarray 28 (length r) r = body ∧ take 20 r = vpn_ip n id c s d ∧ drop 20 r = vpn_echo c' q body ∧
  subarray 24 28 r = q.
Proof.
  intros Hs Hd Hq Hn Hr.
  destruct s as [|s0 [|s1 [|s2 [|s3 [|]]]]]; try done. destruct d as [|d0 [|d1 [|d2 [|d3 [|]]]]]; try done.
  destruct q as [|q0 [|q1 [|q2 [|q3 [|]]]]]; try done.
  assert (blen r = n) as Hl.
  { rewrite Hn. unfold r, vpn_ip, vpn_echo, ip_head_of, blen. rewrite !length_app !length_be_bytes. cbn [length]. lia. }
  assert (be_value [(n / 256) mod 256; n mod 256] = n) as Hv.
  { rewrite -be_bytes_2 be_value_bytes //. }
  split; [done|]. unfold r, vpn_ip, vpn_echo, ip_head_of in *. rewrite !be_bytes_2 in Hl |- *. cbn [app] in Hl |- *.
  split; [|do 3 (split; [done|]); split; [|done]].
  - unfold bridgeable, ip_ihl, ip_total. rewrite Hl.
    change (be_value (subarray 2 4 _)) with (be_value [(n / 256) mod 256; n mod 256]). rewrite Hv.
    change (Z.land (byte_at 0 _) 0x0f * 4) with 20. change (Z.shiftr (byte_at 0 _) 4) with 4.
    unfold MAX_PKT, blen in *. lia.
  - unfold subarray. cbn [drop length]. rewrite drop_0 take_ge //. lia.
Qed.

(** The reply to an echo request. *)
Lemma echo_reply_some (pkt localDst4 : buffer) (ident : Z) (junk : nat → buffer) :
  bytes_ok pkt → blen pkt <= MAX_PKT → (∀ n, length (junk n) = n ∧ bytes_ok (junk n)) →
  echo_for pkt localDst4 → ∃ r,
    tryBuildTunIcmpEchoReplyForLocalIp pkt localDst4 ident junk = Ret (Some r) ∧
    blen r = ip_total pkt ∧ bridgeable r ∧
    subarray 12 16 r = subarray 16 20 pkt ∧ subarray 16 20 r = subarray 12 16 pkt ∧
    subarray 20 22 r = [0; 0] ∧
    subarray 28 (length r) r = subarray 28 (Z.to_nat (ip_total pkt)) pkt ∧
    calculateIPChecksum (take 20 r) = 0 ∧ calculateIPChecksum (drop 20 r) = 0 ∧
    subarray 24 28 r = subarray 4 8 (junk (Z.to_nat (ip_total pkt - 20))).
Proof.
  intros Hok Hmax Hj He. rewrite try_echo_spec.
  rewrite bool_decide_eq_true_2 //. destruct He as (Hl & _ & _ & Ht & _).
  unfold blen, MAX_PKT in *. set (T := ip_total pkt) in *. unfold buildEchoReply.
  replace (20 + Z.to_nat (T - 20))%nat with (Z.to_nat T) by lia. set (body := subarray (20 + 8) (Z.to_nat T) pkt).
  assert (length body = Z.to_nat T - 28)%nat as Hb by (unfold body; rewrite length_subarray; lia).
  destruct (Hj (8 + length body)%nat) as [Hjl Hjok].
  destruct (echo_icmp_bytes body (junk (8 + length body)%nat)) as (c & -> & Hc);
    [done|done|by apply bytes_ok_subarray|unfold blen; lia|].
  rewrite ret_bind. set (q := subarray 4 8 _) in *. set (m := vpn_echo c q body) in *.
  assert (length q = 4%nat) as Hq by (unfold q; rewrite length_subarray; lia).
  assert (length m = Z.to_nat T - 20)%nat as Hm.
  { unfold m, vpn_echo. rewrite !length_app length_be_bytes Hq Hb. simpl. lia. }
  destruct (echo_header_bytes pkt (20 + blen m) ident) as (c2 & Eh & Hv);
    [done|lia|unfold blen; lia|]. rewrite Eh ret_bind. clear Eh.
  pose proof (subarray_4 pkt 16 ltac:(lia)) as Hs4. pose proof (subarray_4 pkt 12 ltac:(lia)) as Hd4.
  set (n := 20 + blen m) in *. assert (n = T) as Hn by (unfold n, blen; lia).
  destruct (reply_fields n (Z.land ident 0xffff) c2 c _ _ q body Hs4 Hd4 Hq) as (F1 & F2 & F3 & F4 & F5 & F6 & F7 & F8 & F9);
    [unfold blen; lia|lia|].
  eexists. split; [done|]. rewrite F6 F7 F8 F9. split_and!; try done; [rewrite -Hn; exact F1|].
  unfold q. do 2 f_equal. lia.
Qed.

(** The bridge answers exactly the unfragmented echo requests to the TUN's own
    address, never throwing; the answer is a bridgeable packet of the same length with the
    addresses exchanged and the payload intact, whose header and message checksums both
    verify.  Its identifier and sequence number, however, are not the request's: they are
    the bytes the freshly allocated buffer happened to hold. *)
Theorem tun_echo_reply (pkt localDst4 : buffer) (ident : Z) (junk : nat → buffer) :
  bytes_ok pkt → blen pkt <= MAX_PKT → (∀ n, length (junk n) = n ∧ bytes_ok (junk n)) →
  (¬ echo_for pkt localDst4 → tryBuildTunIcmpEchoReplyForLocalIp pkt localDst4 ident junk = Ret None) ∧
  (echo_for pkt localDst4 → ∃ r,
    tryBuildTunIcmpEchoReplyForLocalIp pkt localDst4 ident junk = Ret (Some r) ∧
    blen r = ip_total pkt ∧ bridgeable r ∧
    subarray 12 16 r = subarray 16 20 pkt ∧ subarray 16 20 r = subarray 12 16 pkt ∧
    subarray 20 22 r = [0; 0] ∧
    subarray 28 (length r) r = subarray 28 (Z.to_nat (ip_total pkt)) pkt ∧
    calculateIPChecksum (take 20 r) = 0 ∧ calculateIPChecksum (drop 20 r) = 0 ∧
    subarray 24 28 r = subarray 4 8 (junk (Z.to_nat (ip_total pkt - 20)))).
Proof.
  intros Hok Hmax Hj. split; [|by apply echo_reply_some].
  intros He. by rewrite try_echo_spec bool_decide_eq_false_2.
Qed.

(** A ping of [10.0.0.2] by [10.0.0.1] with identifier 1 and sequence number 2, the
    memory holding nines: the reply carries nines for both. *)
Definition ping_request : buffer :=
  [0x45; 0; 0; 29; 0; 7; 0; 0; 64; 1; 0; 0; 10; 0; 0; 1; 10; 0; 0; 2; 8; 0; 0; 0; 0; 1; 0; 2; 42].

Lemma tun_echo_reply_witness : ∃ r,
  tryBuildTunIcmpEchoReplyForLocalIp ping_request [10; 0; 0; 2] 5 (λ n, replicate n 9) = Ret (Some r) ∧
  subarray 12 16 r = [10; 0; 0; 2] ∧ subarray 28 (length r) r = [42] ∧ subarray 24 28 r = [9; 9; 9; 9] ∧
  subarray 24 28 r ≠ subarray 24 28 ping_request.
Proof.
  destruct (tun_echo_reply ping_request [10; 0; 0; 2] 5 (λ n, replicate n 9)) as [_ H].
  - apply (bool_decide_unpack _). vm_compute. reflexivity.
  - by vm_compute.
  - intros n. split; [apply length_replicate|]. apply Forall_replicate. by split.
  - destruct H as (r & E & _ & _ & H1 & _ & _ & H2 & _ & _ & H3); [apply (bool_decide_unpack _); vm_compute; reflexivity|].
    exists r. rewrite H1 H2 H3. split; [exact E|]. split_and!; [by vm_compute..|apply (bool_decide_unpack _); vm_compute; reflexivity].
Defined.

(** ** IPv6 of the fixed pair *)

(** An IPv6 packet of the tunnel: the header's length is the buffer's. *)
Definition ipv6_shape (pkt : buffer) : Prop :=
  40 < blen pkt <= 65535 ∧ Z.shiftr (byte_at 0 pkt) 4 = 6 ∧ be_value (subarray 4 6 pkt) + 40 = blen pkt.
#[export] Instance ipv6_shape_dec pkt : Decision (ipv6_shape pkt).
Proof. unfold ipv6_shape. apply _. Defined.

(** From the client: to global unicast [2000::/3] or to the exit's own address. *)
Definition client_to_exit (pkt : buffer) : Prop :=
  subarray 8 24 pkt = clientBytes ∧
  (Z.land (byte_at 0 (subarray 24 40 pkt)) 0xe0 = 0x20 ∨ subarray 24 40 pkt = exitBytes).
Definition exit_to_client (pkt : buffer) : Prop :=
  subarray 24 40 pkt = clientBytes ∧ byte_at 0 (subarray 8 24 pkt) ≠ 0xff ∧ subarray 8 24 pkt ≠ buf_alloc 16.
#[export] Instance client_to_exit_dec pkt : Decision (client_to_exit pkt).
Proof. unfold client_to_exit. apply _. Defined.
#[export] Instance exit_to_client_dec pkt : Decision (exit_to_client pkt).
Proof. unfold exit_to_client. apply _. Defined.

Definition outbound_client (r : role) (d : direction) : bool :=
  match r, d with RoleClient, Out | RoleExit, In => true | _, _ => false end.

#[local] Instance if_decision (b : bool) P Q `{Decision P, Decision Q} : Decision (if b then P else Q).
Proof. destruct b; apply _. Defined.
Definition ipv6_allowed (pkt : buffer) (r : role) (d : direction) : Prop :=
  ipv6_shape pkt ∧ if outbound_client r d then client_to_exit pkt else exit_to_client pkt.
#[export] Instance ipv6_allowed_dec pkt r d : Decision (ipv6_allowed pkt r d).
Proof. unfold ipv6_allowed. apply _. Defined.

Lemma outbound_client_spec r d :
  bool_decide (bool_decide (r = RoleClient) = bool_decide (d = Out)) = outbound_client r d.
Proof. by destruct r, d. Qed.

Lemma ipv6_allowed_shape pkt r d : ¬ ipv6_shape pkt → bool_decide (ipv6_allowed pkt r d) = false.
Proof. intros H. apply bool_decide_eq_false_2. by intros [? _]. Qed.

Lemma ipv6PacketAllowed_spec pkt r d : bytes_ok pkt →
  ipv6PacketAllowed pkt r d = Ret (bool_decide (ipv6_allowed pkt r d)).
Proof.
  intros Hok. unfold ipv6PacketAllowed. rewrite outbound_client_spec.
  destruct (Nat.ltb_spec (length pkt) 40) as [Hl|Hl].
  { rewrite ipv6_allowed_shape //. unfold ipv6_shape, blen. lia. }
  destruct (Z.ltb_spec 65535 (blen pkt)) as [Hm|Hm]; [rewrite ipv6_allowed_shape //; unfold ipv6_shape; lia|].
  destruct (Z.eqb_spec (Z.shiftr (byte_at 0 pkt) 4) 6) as [H6|H6]; cbn [orb negb];
    [|rewrite ipv6_allowed_shape //; unfold ipv6_shape; tauto].
  pose proof (read_uint_range 2 4 pkt _ Hok (read_uint_ok 2 4 pkt ltac:(lia))) as Hr.
  rewrite (read_uint_ok 2 4) ?ret_bind; [|lia]. change (4 + 2)%nat with 6%nat in *.
  destruct (Z.eqb_spec (be_value (subarray 4 6 pkt)) 0);
    [rewrite ipv6_allowed_shape //; unfold ipv6_shape; lia|].
  destruct (Z.eqb_spec (be_value (subarray 4 6 pkt) + 40) (blen pkt)) as [He|];
    [|rewrite ipv6_allowed_shape //; unfold ipv6_shape; tauto].
  assert (ipv6_shape pkt) as Hs by (unfold ipv6_shape; split_and!; [lia|lia|done|done]).
  assert (bool_decide (ipv6_allowed pkt r d) = bool_decide
    (if outbound_client r d then client_to_exit pkt else exit_to_client pkt)) as ->.
  { apply bool_decide_ext. unfold ipv6_allowed. tauto. }
  cbn [orb negb]. destruct (outbound_client r d); f_equal; apply eq_true_iff_eq;
    rewrite ?andb_true_iff ?orb_true_iff ?negb_true_iff ?bool_decide_eq_true ?bool_decide_eq_false
      ?Z.eqb_eq ?Z.eqb_neq /client_to_exit /exit_to_client; tauto.
Qed.

Lemma ipv6PacketAllowed_total pkt r d : ∃ b, ipv6PacketAllowed pkt r d = Ret b.
Proof.
  unfold ipv6PacketAllowed. destruct (Nat.ltb_spec (length pkt) 40); [by eexists|]. cbn [orb].
  destruct (_ || _); [by eexists|]. rewrite (read_uint_ok 2 4) ?ret_bind; [|lia].
  destruct (_ || _); [by eexists|]. destruct (bool_decide _); by eexists.
Qed.

(** The IPv6 filter never throws; what one end of the tunnel lets out the other end
    lets in, in both directions, and no packet may travel in both. *)
Theorem ipv6_ends_agree (pkt : buffer) : bytes_ok pkt →
  (∀ r d, ∃ b, ipv6PacketAllowed pkt r d = Ret b) ∧
  ipv6PacketAllowed pkt RoleClient Out = ipv6PacketAllowed pkt RoleExit In ∧
  ipv6PacketAllowed pkt RoleExit Out = ipv6PacketAllowed pkt RoleClient In ∧
  ¬ (ipv6PacketAllowed pkt RoleClient Out = Ret true ∧ ipv6PacketAllowed pkt RoleExit Out = Ret true).
Proof.
  intros Hok. rewrite !ipv6PacketAllowed_spec //. split; [intros r d; rewrite ipv6PacketAllowed_spec //; eauto|].
  split; [done|]. split; [done|]. intros [H1%Ret_inj%bool_decide_eq_true H2%Ret_inj%bool_decide_eq_true].
  destruct H1 as [_ [_ Hd]], H2 as [_ [Hc _]]. rewrite Hc in Hd. by destruct Hd as [Hd|Hd].
Qed.

Definition v6_packet (src dst data : buffer) : buffer :=
  [0x60; 0; 0; 0] ++ be_bytes 2 (blen data) ++ [59; 64] ++ src ++ dst ++ data.

Lemma ipv6_ends_agree_witness :
  let pkt := v6_packet clientBytes (0x20 :: buf_alloc 15) [1] in
  ipv6PacketAllowed pkt RoleClient Out = Ret true ∧ ipv6PacketAllowed pkt RoleExit In = Ret true ∧
  ipv6PacketAllowed pkt RoleExit Out = Ret false.
Proof.
  set (pkt := v6_packet _ _ _). cbv zeta.
  destruct (ipv6_ends_agree pkt) as (_ & E & _); [apply (bool_decide_unpack _); vm_compute; reflexivity|].
  rewrite -E. by vm_compute.
Defined.
