(* ===== verification/VpnBridge.v ===== *)
(** * The clean-vpn bridge between TUN and transport (src/scripts/clean-vpn.js)

    [attachTunBridge]: packets of the TUN device go to the current endpoint, wait while a
    connection is opened, or are dropped; an idle, failed or closed endpoint is taken down
    and another takes its place.  The closure's variables are the state; each callback of
    the sockets, timers and the TUN is an operation, and [step] dispatches the events.
    The endpoints (sockets, channels) are Node's: a table of their flags, with which of the
    bridge's handlers they hold; what they did is told by the events.  [b_sent] and
    [b_tun] log what was handed to endpoints and to the TUN.  Logging, [setKeepAlive] and
    the two callbacks [softKeepAliveIdle] and [onWebrtcWireDown] are left out. *)

From S2P Require Import Prelude Bytes Effects VpnFraming VpnPackets.
Local Open Scope Z_scope.
#[local] Unset Default Proof Using.

Definition KEEPALIVE_TUN_QUEUE_MAX : nat := 256.
Definition DC_QUEUE_COMPACT_AFTER : nat := 2048.
Definition DC_BUFFER_HIGH : Z := 8 * 1024 * 1024.

Inductive transport := Websocket | Tcp | UdpClient | UdpServer | WebrtcDc.
Inductive wire_role := Server | Client.
Inductive reason := Idle | PeerClose | PeerReset | PeerError | DcClose.
#[export] Instance transport_eq_dec : EqDecision transport.
Proof. solve_decision. Defined.
#[export] Instance wire_role_eq_dec : EqDecision wire_role.
Proof. solve_decision. Defined.
#[export] Instance reason_eq_dec : EqDecision reason.
Proof. solve_decision. Defined.

(** A socket, channel or [{ sock, peer }]: its flags, the handlers attached to it. *)
Record Endpoint := MkEp {
  e_destroyed : bool;
  e_readableEnded : bool;
  e_writableEnded : bool;
  e_finUnsafe : bool;        (** __cleanVpnGracefulFinUnsafe *)
  e_closed : bool;           (** 'close' was emitted *)
  e_wire : bool;             (** attachWireHandlers *)
  e_drain : bool;            (** attachTcpIdleDrainHandlers *)
  e_peer : option (buffer * Z);
}.
#[export] Instance eta_endpoint : Eta Endpoint := λ r, MkEp (e_destroyed r) (e_readableEnded r)
  (e_writableEnded r) (e_finUnsafe r) (e_closed r) (e_wire r) (e_drain r) (e_peer r).
Definition ep_new (unsafe : bool) : Endpoint := MkEp false false false unsafe false false false None.

(** What the options' callbacks and the clock answer. *)
Record Env := MkEnv {
  now : Z;
  shouldCountKeepaliveActivity : bool;
  tunOutboundSendIf : buffer → bool;
  lazyConnectFilter : buffer → bool;
}.

Record Bridge := MkBridge {
  ep : option nat;
  wireArmed : bool;
  connecting : bool;
  tunQueue : list buffer;
  dcQueue : list buffer;
  dcHead : nat;
  dcPumpScheduled : bool;
  dcPumps : nat;                  (** setImmediate(pumpDcQueue) callbacks that wait *)
  idleTimer : bool;
  pingTimer : bool;
  idleCooldownUntilMs : Z;
  wireOff : option nat;           (** whose handlers wireOff() removes *)
  tcpIdleDrainOff : option nat;
  tcpFramedSend : option nat;     (** the endpoint the cached writer writes to *)
  teardownBusy : bool;
  framer : StreamFramer;
  ipIdCounter : Z;
  eps : list Endpoint;
  env : Env;
  b_sent : list (nat * buffer);
  b_tun : list buffer;
}.
#[export] Instance eta_bridge : Eta Bridge := λ r, MkBridge (ep r) (wireArmed r) (connecting r) (tunQueue r)
  (dcQueue r) (dcHead r) (dcPumpScheduled r) (dcPumps r) (idleTimer r) (pingTimer r) (idleCooldownUntilMs r)
  (wireOff r) (tcpIdleDrainOff r) (tcpFramedSend r) (teardownBusy r) (framer r) (ipIdCounter r) (eps r)
  (env r) (b_sent r) (b_tun r).

Section bridge.
Variables (tr : transport) (keepAliveSec reconnectCooldownSec : Z) (lazyConnect : bool).
Variables (tcpWireRole : option wire_role) (softKeepAliveIdle softKeepAliveIdleKeepsWire : bool).
Variables (local4 : option buffer) (ipv6Role : option role).
(** [tun.write] takes the packet (it throws otherwise, which is caught); the memory
    [allocUnsafe] returns. *)
Variables (tun_takes : buffer → bool) (junk : nat → buffer).

(** ** Endpoints *)

Definition on_ep (f : Endpoint → Endpoint) (e : nat) (b : Bridge) : Bridge := b <| eps ::= alter f e |>.
Definition ep_at (e : nat) (b : Bridge) : Endpoint := default (ep_new false) (eps b !! e).

Definition resetTcpEndpoint (e : nat) (b : Bridge) : Bridge :=
  if e_destroyed (ep_at e b) then b else on_ep (λ p, p <| e_destroyed := true |>) e b.

Definition respondFinTcpEndpoint (e : nat) (b : Bridge) : Bridge :=
  let p := ep_at e b in
  if e_destroyed p then b else
  if e_finUnsafe p then resetTcpEndpoint e b else
  if e_writableEnded p then b else on_ep (λ p, p <| e_writableEnded := true |>) e b.

(** Up to its promise; the timer is the event [GracefulTimeout]. *)
Definition gracefulCloseTcpEndpoint (e : nat) (b : Bridge) : Bridge :=
  let p := ep_at e b in
  if e_destroyed p then b else
  if e_finUnsafe p then resetTcpEndpoint e b else
  if e_writableEnded p then resetTcpEndpoint e b else on_ep (λ p, p <| e_writableEnded := true |>) e b.

Definition closing (p : Endpoint) : bool := e_readableEnded p || e_writableEnded p || e_destroyed p.

(** ** The closure's helpers *)

Definition resolveTcpWireRole : wire_role :=
  match tcpWireRole with Some r => r | None => if lazyConnect then Client else Server end.

Definition clearTcpEndpointRef (e : nat) (b : Bridge) : Bridge :=
  if decide (ep b = Some e) then (b <| ep := None |>) <| tcpFramedSend := None |> else b.

Definition cancelTimers (b : Bridge) : Bridge := (b <| idleTimer := false |>) <| pingTimer := false |>.

Definition bumpActivity (b : Bridge) : Bridge :=
  if keepAliveSec =? 0 then b else
  if negb (shouldCountKeepaliveActivity (env b)) then b else b <| idleTimer := true |>.

(** [wireOff(); wireOff = () => {}] *)
Definition run_wireOff (b : Bridge) : Bridge :=
  match wireOff b with
  | Some e => (on_ep (λ p, p <| e_wire := false |>) e b) <| wireOff := None |>
  | None => b
  end.

Definition run_tcpIdleDrainOff (b : Bridge) : Bridge :=
  match tcpIdleDrainOff b with
  | Some e => (on_ep (λ p, p <| e_drain := false |>) e b) <| tcpIdleDrainOff := None |>
  | None => b
  end.

Definition attachTcpIdleDrainHandlers (e : nat) (b : Bridge) : Bridge :=
  let b := run_tcpIdleDrainOff b in
  (on_ep (λ p, p <| e_drain := true |>) e b) <| tcpIdleDrainOff := Some e |>.

(** The handlers of a data channel cannot be removed: [wireOff] does nothing. *)
Definition attachWireHandlers (b : Bridge) : Bridge :=
  let b := run_wireOff b in
  match ep b with
  | Some e => (on_ep (λ p, p <| e_wire := true |>) e b)
      <| wireOff := if decide (tr = WebrtcDc) then None else Some e |>
  | None => b
  end.

Definition applyWireKeepalive (b : Bridge) : Bridge :=
  match ep b with
  | None => b
  | Some _ => if keepAliveSec =? 0 then b else if decide (tr = Websocket) then b <| pingTimer := true |> else b
  end.

Definition start_cooldown (b : Bridge) : Bridge :=
  if (0 <? reconnectCooldownSec) && lazyConnect
  then b <| idleCooldownUntilMs := now (env b) + reconnectCooldownSec * 1000 |> else b.

Definition clear_dc (b : Bridge) : Bridge :=
  ((b <| dcQueue := [] |>) <| dcHead := 0%nat |>) <| dcPumpScheduled := false |>.

(** ** Taking the wire down *)

Definition tcpClientIdleDisarm (b : Bridge) : Bridge :=
  if teardownBusy b then b else
  if negb (wireArmed b) && bool_decide (ep b = None) then b else
  let b := run_wireOff (cancelTimers b) in
  let b := start_cooldown ((b <| wireArmed := false |>) <| tunQueue := [] |>) in
  match ep b with
  | Some e => if e_destroyed (ep_at e b) then b else attachTcpIdleDrainHandlers e b
  | None => b
  end.

(** Until the [await]; [teardownBusy] stays set while the close is awaited (the event
    [GracefulDone] ends it). *)
Definition tcpServerIdleGracefulClose (b : Bridge) : Bridge :=
  if teardownBusy b then b else
  let b := run_wireOff (cancelTimers b) in
  let b := start_cooldown (clear_dc ((b <| wireArmed := false |>) <| tunQueue := [] |>)) in
  let sock := ep b in
  let b := (b <| ep := None |>) <| tcpFramedSend := None |> in
  match sock with
  | Some e => if e_destroyed (ep_at e b) then b else (gracefulCloseTcpEndpoint e b) <| teardownBusy := true |>
  | None => b
  end.

Definition softTeardownWire (b : Bridge) : Bridge :=
  if teardownBusy b then b else
  if negb (wireArmed b) && negb (connecting b) then b <| tunQueue := [] |> else
  let b := cancelTimers b in
  let b := if softKeepAliveIdleKeepsWire then b else b <| wireArmed := false |> in
  start_cooldown (b <| tunQueue := [] |>).

Definition teardownWire (r : reason) (b : Bridge) : Bridge :=
  match (if decide (tr = UdpServer ∧ r = Idle) then ep b else None) with
  | Some e => cancelTimers (on_ep (λ p, p <| e_peer := None |>) e b)
  | None =>
  if bool_decide (tr = Tcp) && bool_decide (r = Idle) && (0 <? keepAliveSec) && negb softKeepAliveIdle then
    match resolveTcpWireRole with
    | Client => tcpClientIdleDisarm b
    | Server => tcpServerIdleGracefulClose b
    end
  else
  if teardownBusy b then b else
  if negb (wireArmed b) && bool_decide (ep b = None) && negb (connecting b) then b <| tunQueue := [] |> else
  let b := run_wireOff (cancelTimers b) in
  let b := clear_dc ((b <| wireArmed := false |>) <| tunQueue := [] |>) in
  let b := if decide (r = Idle) then start_cooldown b else b in
  let sock := ep b in
  let b := run_tcpIdleDrainOff ((b <| ep := None |>) <| tcpFramedSend := None |>) in
  (** [ep] is null from here on: only the TCP branch, which kept [sock], closes anything *)
  match tr, sock with
  | Tcp, Some e => if decide (r = PeerClose) then respondFinTcpEndpoint e b else resetTcpEndpoint e b
  | _, _ => b
  end
  end.

Definition handleTcpWireFailure (resetLike : bool) (b : Bridge) : Bridge :=
  if wireArmed b then teardownWire (if resetLike then PeerReset else PeerError) b else
  match ep b with
  | None => b
  | Some e => resetTcpEndpoint e (clearTcpEndpointRef e (run_tcpIdleDrainOff b))
  end.

(** The idle timer. *)
Definition idle_fires (b : Bridge) : Bridge :=
  if idleTimer b then
    let b := b <| idleTimer := false |> in
    if softKeepAliveIdle then softTeardownWire b else teardownWire Idle b
  else b.

(** ** Sending *)

Definition hand_over (e : nat) (pkt : buffer) (b : Bridge) : Bridge := b <| b_sent ::= λ l, l ++ [(e, pkt)] |>.

Definition schedulePump (b : Bridge) : Bridge := (b <| dcPumpScheduled := true |>) <| dcPumps ::= S |>.

Definition sendOnWire (pkt : buffer) (b : Bridge) : Bridge :=
  match (if wireArmed b then ep b else None) with
  | None => b
  | Some e =>
      match tr with
      | UdpServer =>
          match e_peer (ep_at e b) with
          | None => b
          | Some _ => let b := bumpActivity b in if 65507 <? blen pkt then b else hand_over e pkt b
          end
      | Websocket | UdpClient => hand_over e pkt (bumpActivity b)
      | Tcp =>
          let b := bumpActivity b in
          let w := default e (tcpFramedSend b) in
          hand_over w pkt (b <| tcpFramedSend := Some w |>)
      | WebrtcDc =>
          let b := (bumpActivity b) <| dcQueue ::= λ q, q ++ [pkt] |> in
          if dcPumpScheduled b then b else schedulePump b
      end
  end.

Definition sendAll (pkts : list buffer) (b : Bridge) : Bridge := foldl (flip sendOnWire) b pkts.

(** What the data channel answers at each packet. *)
Record DcAnswer := MkDc { dc_isOpen : bool; dc_bufferedAmount : Z; dc_ok : bool }.

(** The loop of [pumpDcQueue], [n] packets left; [false]: it returned early. *)
Fixpoint pump_loop (n : nat) (e : nat) (rd : nat → DcAnswer) (b : Bridge) : Bridge * bool :=
  match n with
  | O => (b, true)
  | S n =>
      let a := rd (dcHead b) in
      if negb (dc_isOpen a) then (b, false) else
      if DC_BUFFER_HIGH <? dc_bufferedAmount a then (schedulePump b, false) else
      match dcQueue b !! dcHead b with
      | None => (b, true)
      | Some pkt =>
          let b := bumpActivity (b <| dcHead ::= S |>) in
          pump_loop n e rd (if dc_ok a then hand_over e pkt b else b)
      end
  end.

Definition pumpDcQueue (rd : nat → DcAnswer) (b : Bridge) : Bridge :=
  let b := b <| dcPumpScheduled := false |> in
  if decide (tr = WebrtcDc) then
    match (if wireArmed b then ep b else None) with
    | None => b
    | Some e =>
        let '(b, ended) := pump_loop (length (dcQueue b) - dcHead b) e rd b in
        if ended && (DC_QUEUE_COMPACT_AFTER <=? dcHead b)%nat && (length (dcQueue b) / 2 <? dcHead b)%nat
        then (b <| dcQueue := drop (dcHead b) (dcQueue b) |>) <| dcHead := 0%nat |> else b
    end
  else b.

(** ** Connecting *)

Definition closeBridgeEndpoint (prev : option nat) (b : Bridge) : Bridge :=
  match prev with
  | None => b
  | Some e =>
      let p := ep_at e b in
      if e_destroyed p then b else
      match tr with
      | Tcp =>
          if closing p then resetTcpEndpoint e b else
          match resolveTcpWireRole with
          | Server => gracefulCloseTcpEndpoint e b
          | Client => respondFinTcpEndpoint e b
          end
      | UdpServer => b
      | _ => resetTcpEndpoint e b
      end
  end.

Definition reconnectWire (newEp : nat) (b : Bridge) : Bridge :=
  if connecting b then b else
  let b := run_wireOff (cancelTimers b) in
  let prev := ep b in
  let pending := tunQueue b in
  let b := ((b <| tunQueue := [] |>) <| ep := Some newEp |>) <| wireArmed := true |> in
  let b := ((clear_dc b) <| tcpFramedSend := None |>) <| framer := framer_new |> in
  let b := bumpActivity (applyWireKeepalive (attachWireHandlers b)) in
  sendAll pending (closeBridgeEndpoint prev b).

Definition rearmTcpClientWire (b : Bridge) : Bridge * bool :=
  if wireArmed b || connecting b then (b, false) else
  match (if decide (tr = Tcp) then ep b else None) with
  | None => (b, false)
  | Some e =>
      let p := ep_at e b in
      if e_destroyed p then (b, false) else
      if decide (resolveTcpWireRole = Server) then (b, false) else
      if closing p then (resetTcpEndpoint e (clearTcpEndpointRef e (run_tcpIdleDrainOff b)), false) else
      (bumpActivity ((attachWireHandlers (run_tcpIdleDrainOff b)) <| wireArmed := true |>), true)
  end.

(** [ensureWire] until its [await]. *)
Definition ensureWire (b : Bridge) : Bridge :=
  if wireArmed b || connecting b then b else
  let '(b, rearmed) := rearmTcpClientWire b in
  if (rearmed : bool) then sendAll (tunQueue b) (b <| tunQueue := [] |>) else
  if lazyConnect then b <| connecting := true |> else b.

(** [lazyConnect()] resolves with an endpoint, or rejects. *)
Definition lazy_resolved (newEp : nat) (b : Bridge) : Bridge :=
  if negb (connecting b) then b else
  let sameEp := bool_decide (ep b = Some newEp) in
  let b := if sameEp then b else (run_tcpIdleDrainOff b) <| tcpFramedSend := None |> in
  let b := (b <| ep := Some newEp |>) <| wireArmed := true |> in
  let b := if sameEp then b else attachWireHandlers (b <| framer := framer_new |>) in
  let b := bumpActivity (applyWireKeepalive b) in
  (sendAll (tunQueue b) (b <| tunQueue := [] |>)) <| connecting := false |>.

Definition lazy_rejected (b : Bridge) : Bridge :=
  if negb (connecting b) then b else
  (((b <| wireArmed := false |>) <| ep := None |>) <| tcpFramedSend := None |>) <| connecting := false |>.

(** ** The TUN *)

Definition writeTun (pkt : buffer) (b : Bridge) : outcome Bridge :=
  allowed ← (if Z.shiftr (byte_at 0 pkt) 4 =? 6 then
      match ipv6Role with Some r => ipv6PacketAllowed pkt r In | None => Ret false end
    else Ret true);
  Ret (if (allowed : bool) && tun_takes pkt then b <| b_tun ::= λ l, l ++ [pkt] |> else b).

Fixpoint writeTun_all (pkts : list buffer) (b : Bridge) : outcome Bridge :=
  match pkts with
  | [] => Ret b
  | p :: ps => b ← writeTun p b; writeTun_all ps b
  end.

(** A packet that waits for the connection: the oldest gives way. *)
Definition enqueue (pkt : buffer) (b : Bridge) : Bridge :=
  let q := if (KEEPALIVE_TUN_QUEUE_MAX <=? length (tunQueue b))%nat then tail (tunQueue b) else tunQueue b in
  b <| tunQueue := q ++ [pkt] |>.

(** One packet of a batch, after the checks of its content. *)
Definition route_packet (pkt : buffer) (b : Bridge) : Bridge :=
  if negb (wireArmed b) && lazyConnect then
    if now (env b) <? idleCooldownUntilMs b then b else
    if negb (lazyConnectFilter (env b) pkt) then b else
    let '(b, rearmed) := rearmTcpClientWire b in
    if (rearmed : bool) then
      if negb (tunOutboundSendIf (env b) pkt) then b else sendOnWire pkt b
    else ensureWire (enqueue pkt b)
  else
  if negb (wireArmed b) then b else
  if negb (tunOutboundSendIf (env b) pkt) then b else sendOnWire pkt b.

Definition tun_packet (pkt : buffer) (b : Bridge) : outcome Bridge :=
  if (length pkt =? 0)%nat || (MAX_PKT <? blen pkt) then Ret b else
  let ident := Z.land (ipIdCounter b + 1) 0xffff in
  reply ← match local4 with
    | Some l => tryBuildTunIcmpEchoReplyForLocalIp pkt l ident junk
    | None => Ret None
    end;
  match reply with
  | Some r => writeTun r (b <| ipIdCounter := ident |>)
  | None =>
      v4 ← isIpv4Bridgeable pkt;
      v6 ← (if (v4 : bool) then Ret false else
        match ipv6Role with Some r => ipv6PacketAllowed pkt r Out | None => Ret false end);
      if v4 || v6 then Ret (route_packet pkt b) else Ret b
  end.

Fixpoint tun_read (batch : list buffer) (b : Bridge) : outcome Bridge :=
  match batch with
  | [] => Ret b
  | p :: ps => b ← tun_packet p b; tun_read ps b
  end.

(** ** The sockets' events: only attached handlers run *)

(** TCP 'data' on the wire: the packets go to the TUN as they are framed; a bad length
    resets the socket. *)
Definition on_data (e : nat) (chunk : buffer) (b : Bridge) : outcome Bridge :=
  if e_wire (ep_at e b) then
    let b := bumpActivity b in
    let '(r, f) := push chunk ((framer b) <| f_out := [] |>) in
    b ← writeTun_all (f_out f) (b <| framer := f |>);
    match r with Ret _ => Ret b | Throw _ => Ret (resetTcpEndpoint e b) end
  else if e_drain (ep_at e b) then Ret (resetTcpEndpoint e (clearTcpEndpointRef e (run_tcpIdleDrainOff b)))
  else Ret b.

Definition bindOrMigrateUdpServerPeer (e : nat) (rinfo : buffer * Z) (b : Bridge) : Bridge :=
  on_ep (λ p, p <| e_peer := Some rinfo |>) e b.

(** A message: binary for a WebSocket or data channel, a datagram of [rinfo]. *)
Definition on_message (e : nat) (msg : buffer) (rinfo : buffer * Z) (b : Bridge) : outcome Bridge :=
  if negb (e_wire (ep_at e b)) then Ret b else
  match tr with
  | Tcp => Ret b
  | Websocket => writeTun msg (bumpActivity b)
  | UdpClient | WebrtcDc =>
      if (length msg =? 0)%nat || (MAX_PKT <? blen msg) then Ret b else writeTun msg (bumpActivity b)
  | UdpServer =>
      if (length msg =? 0)%nat || (MAX_PKT <? blen msg) then Ret b else
      match ep b with
      | None => Throw TypeError
      | Some cur => writeTun msg (bumpActivity (bindOrMigrateUdpServerPeer cur rinfo b))
      end
  end.

(** 'end' (TCP). *)
Definition on_end (e : nat) (b : Bridge) : Bridge :=
  let b := on_ep (λ p, p <| e_readableEnded := true |>) e b in
  if decide (tr = Tcp) then
    if e_wire (ep_at e b) then (if wireArmed b then teardownWire PeerClose b else b)
    else if e_drain (ep_at e b) then respondFinTcpEndpoint e b else b
  else b.

(** 'close'; [onClosed] of a data channel. *)
Definition on_close (e : nat) (b : Bridge) : Bridge :=
  if e_closed (ep_at e b) then b else
  let b := on_ep (λ p, (p <| e_closed := true |>) <| e_destroyed := true |>) e b in
  if e_wire (ep_at e b) then
    match tr with
    | UdpServer => b
    | WebrtcDc => if wireArmed b then teardownWire DcClose b else b
    | Tcp =>
        let b := run_tcpIdleDrainOff b in
        if wireArmed b then teardownWire PeerClose b else clearTcpEndpointRef e b
    | _ => if wireArmed b then teardownWire PeerClose b else b
    end
  else if e_drain (ep_at e b) then clearTcpEndpointRef e (run_tcpIdleDrainOff b) else b.

(** 'error'; the socket is destroyed with it. *)
Definition on_error (e : nat) (resetLike : bool) (b : Bridge) : Bridge :=
  if e_closed (ep_at e b) then b else
  let b := on_ep (λ p, p <| e_destroyed := true |>) e b in
  if e_wire (ep_at e b) || e_drain (ep_at e b) then
    match tr with
    | Tcp => handleTcpWireFailure resetLike b
    | Websocket | UdpClient => if wireArmed b then teardownWire PeerError b else b
    | _ => b
    end
  else b.

(** The writer's callback reports an error: it counts for the current endpoint only. *)
Definition on_write_error (e : nat) (resetLike : bool) (b : Bridge) : Bridge :=
  if decide (tr = Tcp ∧ ep b = Some e) then handleTcpWireFailure resetLike b else b.

(** ** Histories *)

Inductive event :=
  | NewEndpoint (unsafe : bool)
  | TunRead (batch : list buffer)
  | Data (e : nat) (chunk : buffer)
  | Message (e : nat) (msg : buffer) (rinfo : buffer * Z)
  | End (e : nat)
  | Close (e : nat)
  | SockError (e : nat) (resetLike : bool)
  | WriteError (e : nat) (resetLike : bool)
  | IdleTimer
  | LazyResolved (e : nat)
  | LazyRejected
  | Reconnect (e : nat)
  | EnsureWire
  | GracefulDone
  | GracefulTimeout (e : nat)
  | Pump (rd : nat → DcAnswer)
  | SetEnv (v : Env).

(** [lazyConnect] and the servers do not hand in a socket that waits for its FIN. *)
Definition usable (e : nat) (b : Bridge) : bool := (e <? length (eps b))%nat && negb (e_drain (ep_at e b)).

Definition step (ev : event) (b : Bridge) : outcome Bridge :=
  match ev with
  | NewEndpoint unsafe => Ret (b <| eps ::= λ l, l ++ [ep_new unsafe] |>)
  | TunRead batch => tun_read batch b
  | Data e chunk => if decide (tr = Tcp) then on_data e chunk b else Ret b
  | Message e msg rinfo => on_message e msg rinfo b
  | End e => Ret (on_end e b)
  | Close e => Ret (on_close e b)
  | SockError e r => Ret (on_error e r b)
  | WriteError e r => Ret (on_write_error e r b)
  | IdleTimer => Ret (idle_fires b)
  | LazyResolved e => Ret (if usable e b then lazy_resolved e b else b)
  | LazyRejected => Ret (lazy_rejected b)
  | Reconnect e => Ret (if usable e b then reconnectWire e b else b)
  | EnsureWire => Ret (ensureWire b)
  | GracefulDone => Ret (b <| teardownBusy := false |>)
  | GracefulTimeout e => Ret (resetTcpEndpoint e b)
  | Pump rd => Ret (match dcPumps b with O => b | S n => pumpDcQueue rd (b <| dcPumps := n |>) end)
  | SetEnv v => Ret (b <| env := v |>)
  end.

Fixpoint run (evs : list event) (b : Bridge) : outcome Bridge :=
  match evs with [] => Ret b | ev :: evs => b ← step ev b; run evs b end.

(** [attachTunBridge] with a first endpoint (0), or none with [lazyConnect]. *)
Definition bridge_new (first : option bool) (ident : Z) (v : Env) : Bridge :=
  let b := MkBridge None (negb lazyConnect) false [] [] 0 false 0 false false 0 None None None false framer_new ident [] v [] [] in
  match (if lazyConnect then None else first) with
  | Some unsafe =>
      bumpActivity (applyWireKeepalive (attachWireHandlers ((b <| eps := [ep_new unsafe] |>) <| ep := Some 0%nat |>)))
  | None => b
  end.
End bridge.
