(* ===== verification/VpnBridgeFlow.v ===== *)
(** * What the clean-vpn bridge keeps, in every history

    [wire_inv] is the state a running bridge is in between two events: handlers sit on
    the current endpoint only, the cached writer writes to it, packets wait only while no
    wire is armed.  The theorems: the order of the packets ([bridge_keeps_order]), that
    events of replaced endpoints change nothing ([stale_events_harmless]), and that a
    packet is on its way or a connection is being opened for it ([bridge_reaches_wire]). *)

From S2P Require Import Prelude Bytes Effects VpnFraming VpnPackets VpnBridge.
Local Open Scope Z_scope.
#[local] Unset Default Proof Using.

(** ** Changes that do not concern the wire *)

(** The same wire: endpoint, handlers, queues and what was sent; flags of sockets and
    timers may differ. *)
Record quiet (b b' : Bridge) : Prop := {
  q_ep : ep b' = ep b;
  q_armed : wireArmed b' = wireArmed b;
  q_conn : connecting b' = connecting b;
  q_queue : tunQueue b' = tunQueue b;
  q_dc : dcQueue b' = dcQueue b;
  q_head : dcHead b' = dcHead b;
  q_off : wireOff b' = wireOff b;
  q_drainoff : tcpIdleDrainOff b' = tcpIdleDrainOff b;
  q_writer : tcpFramedSend b' = tcpFramedSend b;
  q_sent : b_sent b' = b_sent b;
  q_wire e : e_wire (ep_at e b') = e_wire (ep_at e b);
  q_drain e : e_drain (ep_at e b') = e_drain (ep_at e b);
}.

#[export] Instance quiet_preorder : PreOrder quiet.
Proof.
  split; [by split|]. intros a b c [] []. split; intros; etrans; eauto.
Qed.

Lemma ep_at_on_ep f e e' b : ep_at e (on_ep f e' b) =
  if decide (e = e' ∧ (e < length (eps b))%nat) then f (ep_at e b) else ep_at e b.
Proof.
  unfold ep_at, on_ep. cbn. rewrite list_lookup_alter.
  destruct (decide (e' = e)) as [<-|Hne]; [|by rewrite decide_False; [|naive_solver]].
  case_decide as H; [by destruct (lookup_lt_is_Some_2 (eps b) e' (proj2 H)) as [p ->]|].
  destruct (eps b !! e') eqn:E; [|done]. apply lookup_lt_Some in E. tauto.
Qed.

Lemma on_ep_quiet f e b : (∀ p, e_wire (f p) = e_wire p ∧ e_drain (f p) = e_drain p) → quiet b (on_ep f e b).
Proof.
  intros Hf. split; try done; intros e';
    rewrite ep_at_on_ep; case_decide; try apply Hf; done.
Qed.

Section bridge.
Context (tr : transport) (keepAliveSec reconnectCooldownSec : Z) (lazyConnect : bool)
  (tcpWireRole : option wire_role) (softKeepAliveIdle softKeepAliveIdleKeepsWire : bool)
  (local4 : option buffer) (ipv6Role : option role)
  (tun_takes : buffer → bool) (junk : nat → buffer).

Lemma reset_quiet e b : quiet b (resetTcpEndpoint e b).
Proof. unfold resetTcpEndpoint. case_match; [done|]. by apply on_ep_quiet. Qed.
Lemma respond_quiet e b : quiet b (respondFinTcpEndpoint e b).
Proof.
  unfold respondFinTcpEndpoint. repeat case_match; try done; [apply reset_quiet|by apply on_ep_quiet].
Qed.
Lemma graceful_quiet e b : quiet b (gracefulCloseTcpEndpoint e b).
Proof.
  unfold gracefulCloseTcpEndpoint. repeat case_match; try done; try apply reset_quiet. by apply on_ep_quiet.
Qed.
Lemma cancel_quiet b : quiet b (cancelTimers b).
Proof. by split. Qed.
Lemma bump_quiet b : quiet b (bumpActivity keepAliveSec b).
Proof. unfold bumpActivity. repeat case_match; done. Qed.
Lemma keepalive_quiet b : quiet b (applyWireKeepalive tr keepAliveSec b).
Proof. unfold applyWireKeepalive. repeat case_match; done. Qed.
Lemma closeBridge_quiet prev b : quiet b (closeBridgeEndpoint tr lazyConnect tcpWireRole prev b).
Proof.
  unfold closeBridgeEndpoint. repeat case_match; try done; auto using reset_quiet, respond_quiet, graceful_quiet.
Qed.

(** ** Sending *)

(** The same wire, but for what was sent over it. *)
Record wired (b b' : Bridge) : Prop := {
  w_ep : ep b' = ep b;
  w_armed : wireArmed b' = wireArmed b;
  w_conn : connecting b' = connecting b;
  w_queue : tunQueue b' = tunQueue b;
  w_off : wireOff b' = wireOff b;
  w_drainoff : tcpIdleDrainOff b' = tcpIdleDrainOff b;
  w_env : env b' = env b;
  w_cool : idleCooldownUntilMs b' = idleCooldownUntilMs b;
  w_eps : eps b' = eps b;
  w_busy : teardownBusy b' = teardownBusy b;
  w_framer : framer b' = framer b;
}.
#[local] Instance wired_preorder : PreOrder wired.
Proof. split; [by split|]. intros a b c [] []. split; intros; etrans; eauto. Qed.

Lemma bump_wired b : wired b (bumpActivity keepAliveSec b).
Proof. unfold bumpActivity. repeat case_match; done. Qed.

(** What the writer and the channel's queue keep. *)
Record send_inv (b : Bridge) : Prop := {
  si_writer e : tcpFramedSend b = Some e → ep b = Some e;
  si_dc : tr ≠ WebrtcDc → dcQueue b = [];
  si_head : (dcHead b <= length (dcQueue b))%nat;
}.

Lemma quiet_send b b' : quiet b b' → send_inv b → send_inv b'.
Proof.
  intros [] [Hw Hd Hh]. split; [intros e|intros ?|]; rewrite ?q_writer0 ?q_ep0 ?q_dc0 ?q_head0; auto.
Qed.

(** Packets handed over or in the channel's queue, oldest first. *)
Definition transit (b : Bridge) : list buffer := map snd (b_sent b) ++ drop (dcHead b) (dcQueue b).

Definition sends : buffer → Bridge → Bridge := sendOnWire tr keepAliveSec.

(** A wire that takes every packet: all but a UDP server's, which needs a peer. *)
Definition carries (pkt : buffer) (b : Bridge) : Prop :=
  match tr, ep b with
  | UdpServer, Some e => e_peer (ep_at e b) ≠ None ∧ blen pkt <= 65507
  | _, _ => True
  end.

Lemma hand_over_transit e pkt b : tr ≠ WebrtcDc → send_inv b → transit (hand_over e pkt b) = transit b ++ [pkt].
Proof.
  intros Htr [_ Hdc _]. unfold transit, hand_over. cbn.
  by rewrite Hdc // !drop_nil !app_nil_r map_app.
Qed.

(** What [sendOnWire] does to a bridge that keeps the invariant. *)
Definition sent_of (pkt : buffer) (b b' : Bridge) : Prop :=
  wired b b' ∧ send_inv b' ∧ (transit b' = transit b ∨ transit b' = transit b ++ [pkt]) ∧
  (∀ e, wireArmed b = true → ep b = Some e → carries pkt b →
    transit b' = transit b ++ [pkt] ∧ (tr ≠ WebrtcDc → b_sent b' = b_sent b ++ [(e, pkt)]) ∧
    (tr = WebrtcDc → dcPumpScheduled b' = true)).

Lemma quiet_hand_over e pkt b (b1 := bumpActivity keepAliveSec b) : tr ≠ WebrtcDc → send_inv b → ep b = Some e →
  wired b (hand_over e pkt b1) ∧ send_inv (hand_over e pkt b1) ∧
  transit (hand_over e pkt b1) = transit b ++ [pkt] ∧ b_sent (hand_over e pkt b1) = b_sent b ++ [(e, pkt)].
Proof.
  intros Htr Hs He. pose proof (bump_quiet b) as Q. pose proof (bump_wired b) as W. fold b1 in Q, W.
  assert (send_inv b1) as H1 by exact (quiet_send _ _ Q Hs).
  split; [destruct W; by split|]. split; [destruct H1; by split|].
  split; [rewrite hand_over_transit //; destruct Q; unfold transit; congruence|].
  cbn. destruct Q. congruence.
Qed.

Lemma sent_by_hand_over e pkt b : tr ≠ WebrtcDc → send_inv b → ep b = Some e →
  sent_of pkt b (hand_over e pkt (bumpActivity keepAliveSec b)).
Proof.
  intros Htr Hs He. destruct (quiet_hand_over e pkt b Htr Hs He) as (W & Hs' & Ht & Hb).
  split; [done|]. split; [done|]. split; [by right|]. intros e' _ He' _.
  assert (e' = e) as -> by congruence. done.
Qed.

Lemma sent_to_channel pkt b : tr = WebrtcDc → send_inv b → sent_of pkt b
  (let b1 := (bumpActivity keepAliveSec b) <| dcQueue ::= λ q, q ++ [pkt] |> in
   if dcPumpScheduled b1 then b1 else schedulePump b1).
Proof.
  intros Htr Hs. cbv zeta. set (b1 := set_field _ _ _).
  pose proof (bump_quiet b) as Q. pose proof (bump_wired b) as W.
  assert (wired b b1) as W1 by (destruct W; by split).
  assert (send_inv b1 ∧ transit b1 = transit b ++ [pkt]) as [H1 Ht].
  { destruct (quiet_send _ _ Q Hs) as [Hw Hd Hh]. split.
    - split; [done|done|]. cbn. rewrite length_app. lia.
    - unfold transit. cbn. rewrite drop_app_le //. destruct Q. by rewrite q_sent0 q_head0 q_dc0 (assoc_L (++)). }
  assert (∀ b2, (b2 = b1 ∧ dcPumpScheduled b1 = true ∨ b2 = schedulePump b1) → sent_of pkt b b2) as HS.
  { intros b2 Hb2. assert (wired b b2 ∧ send_inv b2 ∧ transit b2 = transit b ++ [pkt] ∧ dcPumpScheduled b2 = true) as (?&?&?&?).
    { destruct Hb2 as [[-> ?]| ->]; [done|]. split; [destruct W1; by split|]. split; [destruct H1; by split|]. done. }
    split; [done|]. split; [done|]. split; [by right|]. done. }
  destruct (dcPumpScheduled b1) eqn:E; apply HS; auto.
Qed.

Lemma sent_writer pkt b b' e : sent_of pkt b b' → ep b = Some e →
  sent_of pkt b (b' <| tcpFramedSend := Some e |>).
Proof.
  intros (W & [_ Hd Hh] & Ht & Hc) He. split; [destruct W; by split|]. split; [|done].
  split; [|done|done]. intros e' [= <-]. cbn. destruct W. congruence.
Qed.

Lemma not_sent pkt b e : send_inv b → ep b = Some e → ¬ carries pkt b → sent_of pkt b b.
Proof. intros Hs He Hc. split; [done|]. split; [done|]. split; [by left|]. done. Qed.

Lemma sendOnWire_spec pkt b : send_inv b → sent_of pkt b (sends pkt b).
Proof.
  intros Hs. unfold sends, sendOnWire.
  destruct (wireArmed b) eqn:Ha; [|split; [done|split; [done|split; [by left|congruence]]]].
  destruct (ep b) as [e|] eqn:He; [|split; [done|split; [done|split; [by left|congruence]]]].
  destruct tr eqn:Htr.
  - apply sent_by_hand_over; [by rewrite Htr|done|done].
  - assert (default e (tcpFramedSend (bumpActivity keepAliveSec b)) = e) as Hdef.
    { rewrite (q_writer _ _ (bump_quiet b)). destruct (tcpFramedSend b) as [w|] eqn:E; [|done].
      pose proof (si_writer _ Hs w E). simpl. congruence. }
    cbv zeta. rewrite Hdef. apply (sent_writer pkt b (hand_over e pkt (bumpActivity keepAliveSec b)) e); [|done].
    apply sent_by_hand_over; [by rewrite Htr|done|done].
  - apply sent_by_hand_over; [by rewrite Htr|done|done].
  - destruct (e_peer (ep_at e b)) as [peer|] eqn:Ep; last first.
    { apply (not_sent _ _ e); [done|done|]. unfold carries. rewrite Htr He Ep. by intros []. }
    cbv zeta. case_match eqn:Hsz; last by apply sent_by_hand_over; [by rewrite Htr|done|done].
    pose proof (bump_quiet b) as Q. split; [apply bump_wired|]. split; [by apply (quiet_send b)|].
    split; [left; unfold transit; destruct Q; congruence|].
    intros e' _ _ Hc. unfold carries in Hc. rewrite Htr He in Hc. bool_to_prop. lia.
  - by apply sent_to_channel.
Qed.

Definition sends_all : list buffer → Bridge → Bridge := sendAll tr keepAliveSec.

Lemma sendAll_spec pkts : ∀ b, send_inv b → wired b (sends_all pkts b) ∧ send_inv (sends_all pkts b) ∧
  (∃ l, transit (sends_all pkts b) = transit b ++ l ∧ l `sublist_of` pkts).
Proof.
  induction pkts as [|p pkts IH]; intros b Hs; [split; [done|split; [done|exists []; by rewrite app_nil_r]]|].
  change (sends_all (p :: pkts) b) with (sends_all pkts (sends p b)).
  destruct (sendOnWire_spec p b Hs) as (W & H1 & Ht & _). destruct (IH _ H1) as (W2 & H2 & l & Hl & Hsub).
  split; [by etrans|]. split; [done|]. destruct Ht as [Ht|Ht]; rewrite Ht in Hl.
  - exists l. split; [done|]. by constructor.
  - exists (p :: l). split; [by rewrite Hl -(assoc_L (++))|]. by constructor.
Qed.

(** ** The invariant *)

Record wire_inv (b : Bridge) : Prop := {
  wi_send : send_inv b;
  wi_armed : wireArmed b = true → ep b ≠ None;
  wi_conn : connecting b = true → wireArmed b = false;
  wi_queue : tunQueue b ≠ [] → wireArmed b = false ∧ (connecting b = true ∨ ep b = None);
  wi_len : (length (tunQueue b) <= KEEPALIVE_TUN_QUEUE_MAX)%nat;
  wi_off e e' : ep b = Some e → wireOff b = Some e' → e' = e;
  wi_wire : tr ≠ WebrtcDc → ∀ e, e_wire (ep_at e b) = true → wireOff b = Some e;
  wi_drain e : wireArmed b = true → ep b = Some e → e_drain (ep_at e b) = false;
  wi_drainoff e : e_drain (ep_at e b) = true → tcpIdleDrainOff b = Some e;
}.

(** All packets the bridge holds or has handed over, oldest first. *)
Definition held (b : Bridge) : list buffer := transit b ++ tunQueue b.

(** A step that keeps the invariant and at most drops packets. *)
Definition good (b b' : Bridge) : Prop := wire_inv b' ∧ held b' `sublist_of` held b.

Lemma good_refl b : wire_inv b → good b b.
Proof. by split. Qed.
Lemma good_trans b b1 b2 : good b b1 → (wire_inv b1 → good b1 b2) → good b b2.
Proof. intros [H1 S1] H2. destruct (H2 H1) as [H S]. split; [done|]. by etrans. Qed.

Lemma if_good (c : bool) b b1 b2 : good b b1 → good b b2 → good b (if c then b1 else b2).
Proof. by destruct c. Qed.

Lemma quiet_good b b' : wire_inv b → quiet b b' → good b b'.
Proof.
  intros H Q. pose proof (quiet_send _ _ Q (wi_send _ H)) as Hs. destruct H, Q. split; [split|]; try done.
  - by rewrite q_armed0 q_ep0.
  - by rewrite q_conn0 q_armed0.
  - by rewrite q_queue0 q_armed0 q_conn0 q_ep0.
  - by rewrite q_queue0.
  - intros e e'. rewrite q_ep0 q_off0. auto.
  - intros Htr e. rewrite q_wire0 q_off0. auto.
  - intros e. rewrite q_armed0 q_ep0 q_drain0. auto.
  - intros e. rewrite q_drain0 q_drainoff0. auto.
  - unfold held, transit. by rewrite q_sent0 q_head0 q_dc0 q_queue0.
Qed.

Lemma wireOff_good b : wire_inv b → good b (run_wireOff b).
Proof.
  intros H. unfold run_wireOff. destruct (wireOff b) as [e|] eqn:E; [|by apply good_refl].
  destruct H as [[] ? ? ? ? ? Hw Hd Hdo]. split; [|done].
  assert (∀ e', e_drain (ep_at e' (on_ep (λ p, p <| e_wire := false |>) e b)) = e_drain (ep_at e' b)) as HD.
  { intros e'. rewrite ep_at_on_ep. by case_decide. }
  split; try done; [|intros e'; change (wireArmed b = true → ep b = Some e' → e_drain (ep_at e' (on_ep (λ p, p <| e_wire := false |>) e b)) = false); rewrite HD; apply Hd
    |intros e'; change (e_drain (ep_at e' (on_ep (λ p, p <| e_wire := false |>) e b)) = true → tcpIdleDrainOff b = Some e'); rewrite HD; apply Hdo].
  intros Htr e'. cbn [wireOff]. change (e_wire (ep_at e' (on_ep (λ p, p <| e_wire := false |>) e b)) = true → None = Some e').
  rewrite ep_at_on_ep. case_decide as Hx; [done|]. intros He'. specialize (Hw Htr e' He').
  assert (e' = e) as -> by congruence. destruct Hx. split; [done|].
  unfold ep_at in He'. destruct (eps b !! e) eqn:El; [by eapply lookup_lt_Some|done].
Qed.

Lemma wireOff_none b : wireOff (run_wireOff b) = None.
Proof. unfold run_wireOff. destruct (wireOff b) eqn:E; [done|exact E]. Qed.

Lemma disarm_good b : wire_inv b → good b ((b <| wireArmed := false |>) <| tunQueue := [] |>).
Proof.
  intros []. split; [split; try done|].
  - by destruct wi_send0.
  - cbn. lia.
  - unfold held. cbn. rewrite app_nil_r. apply sublist_inserts_r. reflexivity.
Qed.

Lemma empty_queue_good b : wire_inv b → good b (b <| tunQueue := [] |>).
Proof.
  intros []. split; [split; try done|].
  - by destruct wi_send0.
  - cbn. lia.
  - unfold held. cbn. rewrite app_nil_r. apply sublist_inserts_r. reflexivity.
Qed.

Lemma clear_dc_good b : wire_inv b → good b (clear_dc b).
Proof.
  intros []. split; [split; try done|].
  - destruct wi_send0. split; [done|done|]. cbn. lia.
  - unfold held, transit. cbn. rewrite app_nil_r -(assoc_L (++)). apply sublist_app; [done|].
    apply sublist_inserts_l. done.
Qed.

Lemma cooldown_good b : wire_inv b → good b (start_cooldown reconnectCooldownSec lazyConnect b).
Proof.
  intros H. unfold start_cooldown. case_match; [|by apply good_refl]. destruct H as [[] ? ? ? ? ? ? ? ?]. by split.
Qed.

Lemma drop_ep_good b : wire_inv b → wireArmed b = false → good b ((b <| ep := None |>) <| tcpFramedSend := None |>).
Proof.
  intros [] Ha. split; [split; try done|done].
  - destruct wi_send0. by split.
  - cbn. by rewrite Ha.
  - cbn. intros Hq. split; [done|]. by right.
Qed.

(** Changing the idle handlers of one endpoint. *)
Lemma drain_good b d (f : Endpoint → Endpoint) e : wire_inv b → (∀ p, e_wire (f p) = e_wire p) →
  let b' := (on_ep f e b) <| tcpIdleDrainOff := d |> in
  (∀ e', wireArmed b = true → ep b = Some e' → e_drain (ep_at e' b') = false) →
  (∀ e', e_drain (ep_at e' b') = true → d = Some e') → good b b'.
Proof.
  intros [] Hf b' Hd Hdo. split; [split; try done|done].
  - by destruct wi_send0.
  - intros Htr e'. change (e_wire (ep_at e' (on_ep f e b)) = true → wireOff b = Some e').
    rewrite ep_at_on_ep. case_decide; rewrite ?Hf; auto.
Qed.

Lemma drainOff_no_drain b : (∀ e, e_drain (ep_at e b) = true → tcpIdleDrainOff b = Some e) →
  tcpIdleDrainOff (run_tcpIdleDrainOff b) = None ∧ ∀ e, e_drain (ep_at e (run_tcpIdleDrainOff b)) = false.
Proof.
  intros Hd. unfold run_tcpIdleDrainOff. destruct (tcpIdleDrainOff b) as [w|] eqn:E; last first.
  { split; [done|]. intros e. destruct (e_drain _) eqn:Ee; [|done]. specialize (Hd e Ee). congruence. }
  split; [done|]. intros e. change (e_drain (ep_at e (on_ep (λ p, p <| e_drain := false |>) w b)) = false).
  rewrite ep_at_on_ep. case_decide as Hx; [done|]. destruct (e_drain (ep_at e b)) eqn:Ee; [|done].
  specialize (Hd e Ee). assert (e = w) as -> by congruence. destruct Hx. split; [done|].
  unfold ep_at in Ee. destruct (eps b !! w) eqn:El; [by eapply lookup_lt_Some|done].
Qed.

Lemma drainOff_good b : wire_inv b → good b (run_tcpIdleDrainOff b).
Proof.
  intros H. destruct (drainOff_no_drain b (wi_drainoff _ H)) as [_ Hn]. revert Hn. unfold run_tcpIdleDrainOff.
  case_match; [|intros _; by apply good_refl]. intros Hn. apply drain_good; [done|done|intros e' _ _; apply Hn|].
  intros e'. by rewrite Hn.
Qed.

Lemma drainOff_fields b (b1 := run_tcpIdleDrainOff b) : ep b1 = ep b ∧ wireArmed b1 = wireArmed b ∧
  connecting b1 = connecting b ∧ tunQueue b1 = tunQueue b ∧ transit b1 = transit b ∧ env b1 = env b.
Proof. unfold b1, run_tcpIdleDrainOff. by destruct (tcpIdleDrainOff b). Qed.

Lemma attach_drain_good e b : wire_inv b → wireArmed b = false → good b (attachTcpIdleDrainHandlers e b).
Proof.
  intros H Ha. eapply good_trans; [by apply drainOff_good|]. intros H1.
  destruct (drainOff_no_drain b (wi_drainoff _ H)) as [_ Hn]. destruct (drainOff_fields b) as (_ & Ha1 & _).
  apply drain_good; [done|done|congruence|]. intros e'.
  change (e_drain (ep_at e' (on_ep (λ p, p <| e_drain := true |>) e (run_tcpIdleDrainOff b))) = true → Some e = Some e').
  rewrite ep_at_on_ep. case_decide as Hx; [by destruct Hx as [-> _]|]. by rewrite Hn.
Qed.

(** ** Every operation is good *)

Abbreviation teardown := (teardownWire tr keepAliveSec reconnectCooldownSec lazyConnect tcpWireRole softKeepAliveIdle).
Abbreviation clientDisarm := (tcpClientIdleDisarm reconnectCooldownSec lazyConnect).
Abbreviation serverClose := (tcpServerIdleGracefulClose reconnectCooldownSec lazyConnect).
Abbreviation wireFailure := (handleTcpWireFailure tr keepAliveSec reconnectCooldownSec lazyConnect tcpWireRole softKeepAliveIdle).

Lemma cooldown_armed b : wireArmed (start_cooldown reconnectCooldownSec lazyConnect b) = wireArmed b.
Proof. unfold start_cooldown. by case_match. Qed.

(** The common part: timers, handlers, the queue. *)
Lemma disarmed_good b : wire_inv b →
  let b' := ((run_wireOff (cancelTimers b)) <| wireArmed := false |>) <| tunQueue := [] |> in
  good b b' ∧ wireArmed b' = false.
Proof.
  intros H. split; [|done]. eapply good_trans; [by apply quiet_good, cancel_quiet|]. intros I1.
  eapply good_trans; [by apply wireOff_good|]. apply disarm_good.
Qed.

Lemma clientDisarm_good b : wire_inv b → good b (clientDisarm b).
Proof.
  intros H. unfold tcpClientIdleDisarm. case_match; [by apply good_refl|]. case_match; [by apply good_refl|].
  destruct (disarmed_good b H) as [G _]. eapply good_trans; [exact G|]. intros I1.
  eapply good_trans; [by apply cooldown_good|]. intros I2.
  repeat case_match; try by apply good_refl. apply attach_drain_good; [done|]. by rewrite cooldown_armed.
Qed.

Lemma serverClose_good b : wire_inv b → good b (serverClose b).
Proof.
  intros H. unfold tcpServerIdleGracefulClose. case_match; [by apply good_refl|].
  destruct (disarmed_good b H) as [G Ha]. eapply good_trans; [exact G|]. intros I1.
  eapply good_trans; [by apply clear_dc_good|]. intros I2.
  eapply good_trans; [by apply cooldown_good|]. intros I3.
  eapply good_trans; [apply drop_ep_good; [done|by rewrite cooldown_armed]|]. intros I4.
  repeat case_match; try by apply good_refl. eapply good_trans; [by apply quiet_good, graceful_quiet|].
  intros I5. apply quiet_good; [done|]. by split.
Qed.

Lemma soft_good b : wire_inv b → good b (softTeardownWire reconnectCooldownSec lazyConnect softKeepAliveIdleKeepsWire b).
Proof.
  intros H. unfold softTeardownWire. case_match; [by apply good_refl|]. case_match; [by apply empty_queue_good|].
  eapply good_trans; [by apply quiet_good, cancel_quiet|]. intros I1. destruct softKeepAliveIdleKeepsWire.
  - eapply good_trans; [by apply empty_queue_good|]. apply cooldown_good.
  - eapply good_trans; [by apply disarm_good|]. apply cooldown_good.
Qed.

Lemma close_sock_good (r : reason) sock b : wire_inv b → good b (match tr, sock with
  | Tcp, Some e => if decide (r = PeerClose) then respondFinTcpEndpoint e b else resetTcpEndpoint e b
  | _, _ => b
  end).
Proof.
  intros H. destruct tr; destruct sock as [e|]; try (by apply good_refl).
  case_decide; apply quiet_good; auto using respond_quiet, reset_quiet.
Qed.

Lemma teardown_good r b : wire_inv b → good b (teardown r b).
Proof.
  intros H. unfold teardownWire. destruct (if decide (tr = UdpServer ∧ r = Idle) then ep b else None) as [e|].
  { eapply good_trans; [|intros ?; apply quiet_good, cancel_quiet; done]. apply quiet_good; [done|]. by apply on_ep_quiet. }
  destruct (_ && negb softKeepAliveIdle); [case_match; [by apply serverClose_good|by apply clientDisarm_good]|].
  case_match; [by apply good_refl|]. case_match; [by apply empty_queue_good|].
  destruct (disarmed_good b H) as [G Ha]. eapply good_trans; [exact G|]. intros I1.
  eapply good_trans; [by apply clear_dc_good|]. intros I2. set (b2 := clear_dc _) in *.
  assert (good b2 (if decide (r = Idle) then start_cooldown reconnectCooldownSec lazyConnect b2 else b2)) as G3
    by (case_decide; [by apply cooldown_good|by apply good_refl]).
  eapply good_trans; [exact G3|]. intros I3.
  eapply good_trans; [apply drop_ep_good; [done|by case_decide; rewrite ?cooldown_armed]|]. intros I4.
  eapply good_trans; [by apply drainOff_good|]. intros I5.
  by apply close_sock_good.
Qed.

Lemma clear_ref_good e b : wire_inv b → wireArmed b = false → good b (clearTcpEndpointRef e b).
Proof. intros H Ha. unfold clearTcpEndpointRef. case_decide; [by apply drop_ep_good|by apply good_refl]. Qed.

Lemma drainOff_armed b : wireArmed (run_tcpIdleDrainOff b) = wireArmed b.
Proof. unfold run_tcpIdleDrainOff. by case_match. Qed.

(** Dropping an endpoint whose handlers were the idle ones. *)
Lemma drop_drained_good e b : wire_inv b → wireArmed b = false →
  good b (clearTcpEndpointRef e (run_tcpIdleDrainOff b)).
Proof.
  intros H Ha. eapply good_trans; [by apply drainOff_good|]. intros. apply clear_ref_good; [done|].
  by rewrite drainOff_armed.
Qed.

Lemma failure_good r b : wire_inv b → good b (wireFailure r b).
Proof.
  intros H. unfold handleTcpWireFailure. case_match; [by apply teardown_good|]. case_match; [|by apply good_refl].
  eapply good_trans; [by apply drop_drained_good|]. intros. by apply quiet_good, reset_quiet.
Qed.

Lemma idle_good b : wire_inv b → good b (idle_fires tr keepAliveSec reconnectCooldownSec lazyConnect tcpWireRole
  softKeepAliveIdle softKeepAliveIdleKeepsWire b).
Proof.
  intros H. unfold idle_fires. case_match; [|by apply good_refl].
  eapply good_trans; [apply (quiet_good b (b <| idleTimer := false |>)); [done|by split]|].
  intros. apply if_good; [by apply soft_good|by apply teardown_good].
Qed.

Lemma wired_inv b b' : wire_inv b → wired b b' → send_inv b' → wire_inv b'.
Proof.
  intros [] [] Hs. split; [done|..].
  - by rewrite w_armed0 w_ep0.
  - by rewrite w_conn0 w_armed0.
  - by rewrite w_queue0 w_armed0 w_conn0 w_ep0.
  - by rewrite w_queue0.
  - intros e e'. rewrite w_ep0 w_off0. auto.
  - intros Htr e. unfold ep_at. rewrite w_eps0 w_off0. by apply wi_wire0.
  - intros e. unfold ep_at. rewrite w_armed0 w_ep0 w_eps0. apply wi_drain0.
  - intros e. unfold ep_at. rewrite w_eps0 w_drainoff0. apply wi_drainoff0.
Qed.

(** The packets that waited, over a wire that has none waiting. *)
Lemma flush_good pending b : wire_inv b →
  wire_inv (sends_all pending b) ∧ held (sends_all pending b) `sublist_of` (transit b ++ pending ++ tunQueue b).
Proof.
  intros H. destruct (sendAll_spec pending b (wi_send _ H)) as (W & Hs & l & Hl & Hsub).
  split; [by eapply wired_inv|]. unfold held. rewrite Hl (w_queue _ _ W) -(assoc_L (++)).
  by do 2 apply sublist_app.
Qed.

(** A wire without handlers gets those of its endpoint. *)
Definition no_handlers (b : Bridge) : Prop :=
  wireOff b = None ∧ (tr ≠ WebrtcDc → ∀ e, e_wire (ep_at e b) = false).

Lemma wireOff_drains b : tcpIdleDrainOff (run_wireOff b) = tcpIdleDrainOff b ∧
  ∀ e, e_drain (ep_at e (run_wireOff b)) = e_drain (ep_at e b).
Proof.
  unfold run_wireOff. destruct (wireOff b) as [w|]; [|done]. split; [done|]. intros e.
  change (e_drain (ep_at e (on_ep (λ p, p <| e_wire := false |>) w b)) = e_drain (ep_at e b)).
  rewrite ep_at_on_ep. by case_decide.
Qed.

Lemma wireOff_no_handlers b : (tr ≠ WebrtcDc → ∀ e, e_wire (ep_at e b) = true → wireOff b = Some e) →
  no_handlers (run_wireOff b).
Proof.
  intros Hw. split; [apply wireOff_none|]. intros Htr e. specialize (Hw Htr). unfold run_wireOff.
  destruct (wireOff b) as [w|] eqn:E; [|by destruct (e_wire _) eqn:Ee; [specialize (Hw e Ee)|]].
  change (e_wire (ep_at e (on_ep (λ p, p <| e_wire := false |>) w b)) = false).
  rewrite ep_at_on_ep. case_decide as Hd; [done|]. destruct (e_wire (ep_at e b)) eqn:Ee; [|done].
  specialize (Hw e Ee). assert (e = w) as -> by congruence. destruct Hd. split; [done|].
  unfold ep_at in Ee. destruct (eps b !! w) eqn:El; [by eapply lookup_lt_Some|done].
Qed.

Lemma attach_inv b e : no_handlers b → send_inv b → ep b = Some e → wireArmed b = true → connecting b = false →
  tunQueue b = [] → e_drain (ep_at e b) = false → (∀ e', e_drain (ep_at e' b) = true → tcpIdleDrainOff b = Some e') →
  wire_inv (attachWireHandlers tr b).
Proof.
  intros [Hoff Hw] Hs He Ha Hc Hq Hed Hdo. unfold attachWireHandlers. assert (run_wireOff b = b) as -> by (unfold run_wireOff; by rewrite Hoff).
  rewrite He. set (b1 := on_ep _ e b).
  assert (∀ e', e_drain (ep_at e' b1) = e_drain (ep_at e' b)) as HD.
  { intros e'. unfold b1. rewrite ep_at_on_ep. by case_decide. }
  split; try done.
  - destruct Hs. by split.
  - intros _. change (ep b ≠ None). by rewrite He.
  - change (connecting b = true → wireArmed b = false). by rewrite Hc.
  - change (length (tunQueue b) <= KEEPALIVE_TUN_QUEUE_MAX)%nat. rewrite Hq. cbn. lia.
  - intros e1 e2. change (ep b = Some e1 → (if decide (tr = WebrtcDc) then None else Some e) = Some e2 → e2 = e1).
    case_decide; congruence.
  - intros Htr e'. cbn [wireOff]. change (e_wire (ep_at e' b1) = true → (if decide (tr = WebrtcDc) then None else Some e) = Some e').
    rewrite decide_False // ep_at_on_ep. case_decide as Hd; [by destruct Hd as [-> _]|]. by rewrite (Hw Htr).
  - intros e'. change (wireArmed b = true → ep b = Some e' → e_drain (ep_at e' b1) = false).
    rewrite He HD. by intros _ [= <-].
  - intros e'. change (e_drain (ep_at e' b1) = true → tcpIdleDrainOff b = Some e'). rewrite HD. apply Hdo.
Qed.

Abbreviation reconnect := (reconnectWire tr keepAliveSec lazyConnect tcpWireRole).
Abbreviation rearm := (rearmTcpClientWire tr keepAliveSec lazyConnect tcpWireRole).
Abbreviation ensure := (ensureWire tr keepAliveSec lazyConnect tcpWireRole).
Abbreviation resolved := (lazy_resolved tr keepAliveSec).

(** A new endpoint takes the place of the current one. *)
Lemma attached_tail b b' : quiet (attachWireHandlers tr b) b' → wire_inv (attachWireHandlers tr b) → ep b ≠ None →
  wire_inv b' ∧ transit b' = transit b ∧ tunQueue b' = tunQueue b.
Proof.
  intros Q H He. destruct (quiet_good _ _ H Q) as [H' _]. split; [done|]. unfold transit.
  rewrite (q_sent _ _ Q) (q_head _ _ Q) (q_dc _ _ Q) (q_queue _ _ Q). unfold attachWireHandlers.
  assert (∀ b, b_sent (run_wireOff b) = b_sent b ∧ dcHead (run_wireOff b) = dcHead b ∧
    dcQueue (run_wireOff b) = dcQueue b ∧ tunQueue (run_wireOff b) = tunQueue b ∧ ep (run_wireOff b) = ep b) as HR.
  { intros b0. unfold run_wireOff. by destruct (wireOff b0). }
  destruct (HR b) as (E1 & E2 & E3 & E4 & E5). rewrite E5. destruct (ep b) as [e|]; [|done].
  cbn [b_sent dcHead dcQueue tunQueue]. change (b_sent (on_ep ?f ?x ?y)) with (b_sent y).
  cbn. by rewrite E1 E2 E3 E4.
Qed.

Lemma reconnect_good e b : wire_inv b → e_drain (ep_at e b) = false → good b (reconnect e b).
Proof.
  intros H Hd. unfold reconnectWire. case_match eqn:Hc; [by apply good_refl|].
  destruct (good_trans _ _ _ (quiet_good _ _ H (cancel_quiet b)) (wireOff_good _)) as [H1 S1].
  pose proof (wireOff_no_handlers (cancelTimers b) (wi_wire _ (proj1 (quiet_good _ _ H (cancel_quiet b))))) as N1.
  set (b1 := run_wireOff (cancelTimers b)) in *.
  set (b2 := set_field framer _ _). 
  assert (connecting b1 = false) as Hc1 by (unfold b1, run_wireOff, cancelTimers; case_match; done).
  assert (wire_inv (attachWireHandlers tr b2)) as H2.
  { assert (∀ e', e_drain (ep_at e' b2) = e_drain (ep_at e' b)) as HD by exact (proj2 (wireOff_drains (cancelTimers b))).
    apply (attach_inv b2 e); [done|by split|done|done|done|done|by rewrite HD|]. intros e'. rewrite HD.
    change (tcpIdleDrainOff b2) with (tcpIdleDrainOff b1). unfold b1.
    rewrite (proj1 (wireOff_drains _)). apply (wi_drainoff _ H). }
  match goal with |- good _ (sendAll _ _ ?p ?x) =>
    assert (quiet (attachWireHandlers tr b2) x) as Q end.
  { etrans; [apply keepalive_quiet|]. etrans; [apply bump_quiet|]. apply closeBridge_quiet. }
  destruct (attached_tail b2 _ Q H2) as (H3 & Ht & Hq); [done|].
  destruct (flush_good (tunQueue b1) _ H3) as [H4 S4]. split; [exact H4|].
  etrans; [exact S4|]. etrans; [|exact S1]. rewrite Ht Hq. change (tunQueue b2) with (@nil buffer).
  rewrite app_nil_r. unfold held. apply sublist_app; [|done].
  unfold transit. change (dcQueue b2) with (@nil buffer). change (b_sent b2) with (b_sent b1).
  rewrite drop_nil app_nil_r. apply sublist_inserts_r. done.
Qed.

Lemma attach_wireOff b : attachWireHandlers tr b = attachWireHandlers tr (run_wireOff b).
Proof.
  unfold attachWireHandlers. assert (run_wireOff (run_wireOff b) = run_wireOff b) as E.
  { unfold run_wireOff at 1. by rewrite wireOff_none. }
  by rewrite E.
Qed.

Lemma wireOff_fields b : ep (run_wireOff b) = ep b ∧ wireArmed (run_wireOff b) = wireArmed b ∧
  connecting (run_wireOff b) = connecting b ∧ tunQueue (run_wireOff b) = tunQueue b ∧
  transit (run_wireOff b) = transit b.
Proof. unfold run_wireOff. by destruct (wireOff b). Qed.
(** Attaching to an armed wire that has nothing waiting. *)
Lemma attach_good b e : wire_inv b → ep b = Some e → connecting b = false → tunQueue b = [] →
  e_drain (ep_at e b) = false →
  let b' := attachWireHandlers tr (b <| wireArmed := true |>) in
  wire_inv b' ∧ transit b' = transit b ∧ tunQueue b' = [].
Proof.
  intros H He Hc Hq Hed b'. unfold b'. rewrite attach_wireOff. set (b1 := b <| wireArmed := true |>).
  assert (wire_inv b1) as H1.
  { destruct H as [[] ? ? ? ? ? ? ? ?]. constructor; [by split|intros _; change (ep b ≠ None); by rewrite He|..|done|done|done| |done].
    - change (connecting b = true → true = false). by rewrite Hc.
    - intros Hne. by destruct Hne.
    - intros e' _. change (ep b = Some e' → e_drain (ep_at e' b) = false). rewrite He. by intros [= <-]. }
  destruct (wireOff_fields b1) as (F1 & F2 & F3 & F4 & F5).
  destruct (wireOff_good b1 H1) as [H2 _].
  assert (wire_inv (attachWireHandlers tr (run_wireOff b1))) as H3.
  { apply (attach_inv _ e); [by apply wireOff_no_handlers; destruct H1|by destruct H2|..].
    - by rewrite F1. - by rewrite F2. - by rewrite F3. - by rewrite F4.
    - by rewrite (proj2 (wireOff_drains b1)).
    - intros e'. rewrite (proj2 (wireOff_drains b1)) (proj1 (wireOff_drains b1)). apply (wi_drainoff _ H1). }
  destruct (attached_tail (run_wireOff b1) _ ltac:(reflexivity) H3) as (_ & Ht & Hq'); [by rewrite F1 /= He|].
  split; [done|]. rewrite Ht Hq' F5 F4. done.
Qed.

Lemma attach_armed b : (attachWireHandlers tr b) <| wireArmed := true |> = attachWireHandlers tr (b <| wireArmed := true |>).
Proof.
  unfold attachWireHandlers, run_wireOff. change (wireOff (b <| wireArmed := true |>)) with (wireOff b).
  destruct (wireOff b) as [w|]; [cbn; by destruct (ep b)|].
  change (ep (b <| wireArmed := true |>)) with (ep b). by destruct (ep b).
Qed.

(** What [rearmTcpClientWire] answers. *)
Lemma rearm_good b (r := rearm b) : wire_inv b → good b r.1 ∧
  (r.2 = true → wireArmed r.1 = true ∧ connecting r.1 = false ∧ tunQueue r.1 = [] ∧ ep r.1 = ep b ∧ ep b ≠ None) ∧
  (r.2 = false → wireArmed r.1 = wireArmed b ∧ connecting r.1 = connecting b ∧ env r.1 = env b).
Proof.
  intros H. unfold r, rearmTcpClientWire.
  destruct (wireArmed b || connecting b) eqn:Hac; [split; [by apply good_refl|done]|]. bool_to_prop.
  destruct (if decide (tr = Tcp) then ep b else None) as [e|] eqn:Ee; [|split; [by apply good_refl|done]].
  assert (ep b = Some e) as He by (by case_decide). clear Ee.
  destruct (drainOff_fields b) as (D1 & D2 & D3 & D4 & D5 & D6).
  case_match; [split; [by apply good_refl|done]|]. case_match; [split; [by apply good_refl|done]|].
  case_match; cbn [fst snd]; (split; [|split; [|]]); try done.
  - eapply good_trans; [by apply drop_drained_good|]. intros. by apply quiet_good, reset_quiet.
  - intros _. unfold resetTcpEndpoint, clearTcpEndpointRef. repeat case_match; by rewrite /= ?D2 ?D3 ?D6.
  - assert (tunQueue b = []) as Hq.
    { destruct (tunQueue b) eqn:E; [done|]. destruct (wi_queue _ H) as [_ [?|?]]; congruence. }
    destruct (drainOff_good b H) as [G1 _]. rewrite attach_armed.
    destruct (attach_good (run_tcpIdleDrainOff b) e G1) as (G2 & Ht & Hq2); [congruence..|apply drainOff_no_drain, (wi_drainoff _ H)|].
    eapply good_trans; [|intros ?; by apply quiet_good, bump_quiet]. split; [done|].
    unfold held. by rewrite Ht Hq2 D5 Hq.
  - intros _. rewrite attach_armed.
    destruct (drainOff_good b H) as [G1 _].
    assert (tunQueue b = []) as Hq.
    { destruct (tunQueue b) eqn:E; [done|]. destruct (wi_queue _ H) as [_ [?|?]]; congruence. }
    pose proof (bump_quiet (attachWireHandlers tr ((run_tcpIdleDrainOff b) <| wireArmed := true |>))) as Q.
    rewrite (q_armed _ _ Q) (q_conn _ _ Q) (q_queue _ _ Q) (q_ep _ _ Q).
    destruct (attach_good (run_tcpIdleDrainOff b) e G1) as (_ & _ & Hq2); [congruence..|apply drainOff_no_drain, (wi_drainoff _ H)|]. rewrite Hq2.
    unfold attachWireHandlers. destruct (wireOff_fields ((run_tcpIdleDrainOff b) <| wireArmed := true |>)) as (F1 & F2 & F3 & _).
    rewrite F1. change (ep (_ <| wireArmed := true |>)) with (ep (run_tcpIdleDrainOff b)). rewrite D1 He.
    cbn. rewrite F1 F2 F3. cbn. by rewrite D1 D3.
Qed.

Lemma connect_inv b : wire_inv b → wireArmed b = false → wire_inv (b <| connecting := true |>).
Proof.
  intros [[] ? ? ? ? ? ? ? ?] Ha. constructor; [by split|done|done| |done|done|done|done|done].
  intros _. split; [exact Ha|]. by left.
Qed.

Lemma ensure_good b : wire_inv b → good b (ensure b).
Proof.
  intros H. unfold ensureWire. destruct (wireArmed b || connecting b) eqn:Hac; [by apply good_refl|]. bool_to_prop.
  destruct (rearm_good b H) as (G & Ht & Hf). destruct (rearm b) as [b1 [|]]; cbn [fst snd] in *.
  - destruct (Ht eq_refl) as (_ & _ & Hq & _). rewrite Hq. eapply good_trans; [exact G|]. apply empty_queue_good.
  - destruct (Hf eq_refl) as (Ha & _). case_match; [|exact G]. destruct G as [G S]. split; [|exact S].
    apply connect_inv; congruence.
Qed.

(** A second try to rearm, after the packet was queued, changes nothing. *)
Lemma rearm_again b b1 p : rearm b = (b1, false) → wireArmed b = false →
  rearm (enqueue p b1) = (enqueue p b1, false).
Proof.
  unfold rearmTcpClientWire at 1. intros Hr Ha. rewrite Ha in Hr. cbn [orb] in Hr.
  destruct (connecting b) eqn:Hc.
  { injection Hr as <-. unfold rearmTcpClientWire. change (connecting (enqueue p b)) with (connecting b).
    by rewrite Hc orb_true_r. }
  destruct (if decide (tr = Tcp) then ep b else None) as [e|] eqn:Ee; last first.
  { injection Hr as <-. unfold rearmTcpClientWire. change (ep (enqueue p b)) with (ep b). rewrite Ee. by destruct (_ || _). }
  assert (ep b = Some e) as He by (by destruct (decide (tr = Tcp))).
  destruct (e_destroyed (ep_at e b)) eqn:Ed.
  { injection Hr as <-. unfold rearmTcpClientWire. change (ep (enqueue p b)) with (ep b). rewrite Ee.
    change (ep_at e (enqueue p b)) with (ep_at e b). rewrite Ed. by destruct (_ || _). }
  destruct (decide (resolveTcpWireRole lazyConnect tcpWireRole = Server)) as [Es|].
  { injection Hr as <-. unfold rearmTcpClientWire. change (ep (enqueue p b)) with (ep b). rewrite Ee.
    rewrite (decide_True (P := resolveTcpWireRole lazyConnect tcpWireRole = Server)) //. destruct (_ || _); [done|]. by destruct (e_destroyed _). }
  destruct (closing (ep_at e b)); [|done]. injection Hr as <-.
  set (b1 := resetTcpEndpoint _ _). assert (ep (enqueue p b1) = None) as Hn.
  { change (ep b1 = None). unfold b1. rewrite (q_ep _ _ (reset_quiet _ _)). unfold clearTcpEndpointRef.
    destruct (drainOff_fields b) as (-> & _). by rewrite decide_True. }
  unfold rearmTcpClientWire. rewrite Hn. destruct (_ || _); [done|]. by destruct (decide (tr = Tcp)).
Qed.

Lemma enqueue_length p b : (length (tunQueue b) <= KEEPALIVE_TUN_QUEUE_MAX)%nat →
  (length (tunQueue (enqueue p b)) <= KEEPALIVE_TUN_QUEUE_MAX)%nat.
Proof.
  intros Hl. assert (0 < KEEPALIVE_TUN_QUEUE_MAX)%nat by (unfold KEEPALIVE_TUN_QUEUE_MAX; lia).
  change (length ((if (KEEPALIVE_TUN_QUEUE_MAX <=? length (tunQueue b))%nat then tail (tunQueue b) else tunQueue b)
    ++ [p]) <= KEEPALIVE_TUN_QUEUE_MAX)%nat.
  set (M := KEEPALIVE_TUN_QUEUE_MAX) in *. clearbody M. rewrite length_app. cbn [length].
  destruct (Nat.leb_spec M (length (tunQueue b))); [|lia]. destruct (tunQueue b); cbn [tail length] in *; lia.
Qed.

Lemma enqueue_held p b : held (enqueue p b) `sublist_of` held b ++ [p].
Proof.
  unfold held. change (transit (enqueue p b)) with (transit b). rewrite -(assoc_L (++)). apply sublist_app; [done|].
  unfold enqueue. cbn. apply sublist_app; [|done]. case_match; [|done].
  destruct (tunQueue b); [done|]. cbn. by constructor.
Qed.

Lemma set_connecting b : connecting b = true → b <| connecting := true |> = b.
Proof. intros Hc. destruct b. cbn in *. by subst. Qed.

(** A packet that must wait: queued, and a connection is being opened. *)
Lemma wait_spec b b1 p : wire_inv b → wireArmed b = false → lazyConnect = true → rearm b = (b1, false) →
  let b' := ensure (enqueue p b1) in
  b' = (enqueue p b1) <| connecting := true |> ∧ wire_inv b' ∧ held b' `sublist_of` held b ++ [p].
Proof.
  intros H Ha Hl Hr b'. destruct (rearm_good b H) as (G & _ & Hf). rewrite Hr in G, Hf. cbn [fst snd] in *.
  destruct (Hf eq_refl) as (Ha1 & Hc1 & _). rewrite Ha in Ha1.
  assert (b' = (enqueue p b1) <| connecting := true |>) as Hb.
  { unfold b', ensureWire. change (wireArmed (enqueue p b1)) with (wireArmed b1).
    change (connecting (enqueue p b1)) with (connecting b1). rewrite Ha1. cbn [orb].
    destruct (connecting b1) eqn:Hc; [symmetry; by apply set_connecting|].
    by rewrite (rearm_again b) // Hl. }
  split; [done|]. rewrite Hb. destruct G as [H1 S]. split.
  - destruct H1 as [[] ? ? ? ? ? ? ? ?]. constructor; [by split|done|by intros _| |by apply enqueue_length|done|done|done|done].
    intros _. split; [exact Ha1|]. by left.
  - change (held (enqueue p b1) `sublist_of` held b ++ [p]). etrans; [apply enqueue_held|]. by apply sublist_app.
Qed.

(** *** The end of a connection attempt *)

(** [ready]: no attempt runs and nothing waits; the operations of [lazy_resolved] do not
    look at either. *)
Definition ready (b : Bridge) : Bridge := (b <| connecting := false |>) <| tunQueue := [] |>.

Lemma ready_attach b : attachWireHandlers tr (ready b) = ready (attachWireHandlers tr b).
Proof.
  unfold attachWireHandlers, run_wireOff. change (wireOff (ready b)) with (wireOff b).
  destruct (wireOff b) as [w|]; [cbn; by destruct (ep b)|].
  change (ep (ready b)) with (ep b). by destruct (ep b).
Qed.
Lemma ready_bump b : bumpActivity keepAliveSec (ready b) = ready (bumpActivity keepAliveSec b).
Proof. unfold bumpActivity. change (env (ready b)) with (env b). by repeat case_match. Qed.
Lemma ready_keepalive b : applyWireKeepalive tr keepAliveSec (ready b) = ready (applyWireKeepalive tr keepAliveSec b).
Proof. unfold applyWireKeepalive. change (ep (ready b)) with (ep b). by repeat case_match. Qed.

Lemma ready_of b x : connecting b = false → tunQueue b = [] → ready b = x → b = x.
Proof. intros Hc Hq <-. destruct b. cbn in *. by subst. Qed.

Lemma connecting_sends p b : sends p (b <| connecting := false |>) = (sends p b) <| connecting := false |>.
Proof.
  unfold sends, sendOnWire, bumpActivity, schedulePump, hand_over, ep_at. destruct b. cbn.
  repeat (case_goal; cbn); reflexivity.
Qed.

Lemma connecting_sends_all ps : ∀ b, sends_all ps (b <| connecting := false |>) = (sends_all ps b) <| connecting := false |>.
Proof.
  induction ps as [|p ps IH]; intros b; [done|].
  change (sends_all (p :: ps) ?x) with (sends_all ps (sends p x)). by rewrite connecting_sends IH.
Qed.

(** The bridge the waiting packets are sent over. *)
Definition resolved_wire (e : nat) (b : Bridge) : Bridge :=
  let same := bool_decide (ep b = Some e) in
  let b1 := if same then b else (run_tcpIdleDrainOff b) <| tcpFramedSend := None |> in
  let b2 := ready ((b1 <| ep := Some e |>) <| wireArmed := true |>) in
  bumpActivity keepAliveSec (applyWireKeepalive tr keepAliveSec
    (if same then b2 else attachWireHandlers tr (b2 <| framer := framer_new |>))).

Lemma resolved_eq e b : connecting b = true → resolved e b = sends_all (tunQueue b) (resolved_wire e b).
Proof.
  intros Hc. unfold lazy_resolved, resolved_wire. rewrite Hc. cbn [negb].
  set (same := bool_decide _). set (b1 := if same then b else _).
  set (b2 := (b1 <| ep := Some e |>) <| wireArmed := true |>).
  assert ((if same then ready b2 else attachWireHandlers tr ((ready b2) <| framer := framer_new |>)) =
    ready (if same then b2 else attachWireHandlers tr (b2 <| framer := framer_new |>))) as ->.
  { destruct same; [done|]. by rewrite -ready_attach. }
  rewrite ready_keepalive ready_bump. set (x := if same then b2 else _).
  set (y := bumpActivity _ _). change (sendAll tr keepAliveSec) with sends_all.
  rewrite -connecting_sends_all. f_equal.
  pose proof (bump_quiet (applyWireKeepalive tr keepAliveSec x)) as Q1. pose proof (keepalive_quiet x) as Q2.
  unfold y. rewrite (q_queue _ _ Q1) (q_queue _ _ Q2). unfold x.
  assert (tunQueue b1 = tunQueue b) as Hq1 by (unfold b1; case_match; [done|]; apply drainOff_fields).
  destruct same; [exact Hq1|]. unfold attachWireHandlers.
  destruct (wireOff_fields (b2 <| framer := framer_new |>)) as (_ & _ & _ & F4 & _).
  destruct (ep (run_wireOff _)); [etrans; [exact F4|exact Hq1]|etrans; [exact F4|exact Hq1]].
Qed.

Lemma resolved_wire_good e b : wire_inv b → connecting b = true → e_drain (ep_at e b) = false →
  let b' := resolved_wire e b in wire_inv b' ∧ transit b' = transit b ∧ tunQueue b' = [].
Proof.
  intros H Hc Hed b'. pose proof (wi_conn _ H Hc) as Ha. unfold b', resolved_wire.
  case_bool_decide as He.
  - set (b2 := ready _). assert (wire_inv b2) as H2.
    { destruct H as [[Hw ? ?] ? ? ? ? Ho ? ? ?]. constructor; [|done|done|by intros []|cbn; lia| |done|by intros e' _ [= <-]|done].
      - constructor; [|done|done]. intros e'. change (tcpFramedSend b = Some e' → Some e = Some e'). intros ?%Hw. congruence.
      - intros e1 e2. change (Some e = Some e1 → wireOff b = Some e2 → e2 = e1). rewrite -He. apply Ho. }
    assert (quiet b2 (bumpActivity keepAliveSec (applyWireKeepalive tr keepAliveSec b2))) as Q
      by (etrans; [apply keepalive_quiet|apply bump_quiet]).
    destruct (quiet_good _ _ H2 Q) as [H3 _]. split; [done|]. unfold transit.
    by rewrite (q_sent _ _ Q) (q_head _ _ Q) (q_dc _ _ Q) (q_queue _ _ Q).
  - destruct (drainOff_good b H) as [H1 _]. destruct (drainOff_fields b) as (D1 & D2 & D3 & D4 & D5 & _).
    set (b2 := set_field framer _ _).
    assert (∀ e, e_wire (ep_at e b2) = e_wire (ep_at e (run_tcpIdleDrainOff b))) as Hw by done.
    assert (no_handlers (run_wireOff b2)) as N.
    { apply wireOff_no_handlers. intros Htr e'. rewrite Hw. apply (wi_wire _ H1 Htr). }
    destruct (wireOff_fields b2) as (F1 & F2 & F3 & F4 & F5).
    assert (wire_inv (attachWireHandlers tr b2)) as H2.
    { destruct (drainOff_no_drain b (wi_drainoff _ H)) as [_ Hn].
      assert (∀ e', e_drain (ep_at e' (run_wireOff b2)) = false) as HD.
      { intros e'. rewrite (proj2 (wireOff_drains b2)). exact (Hn e'). }
      rewrite attach_wireOff. apply (attach_inv _ e); [done| |by rewrite F1|by rewrite F2|by rewrite F3|by rewrite F4|done|
        intros e'; by rewrite HD].
      destruct H1 as [[_ Hd Hh] _ _ _ _ _ _ _ _]. unfold run_wireOff. destruct (wireOff b2); by constructor. }
    assert (quiet (attachWireHandlers tr b2) (bumpActivity keepAliveSec (applyWireKeepalive tr keepAliveSec (attachWireHandlers tr b2)))) as Q
      by (etrans; [apply keepalive_quiet|apply bump_quiet]).
    destruct (attached_tail b2 _ Q H2) as (H3 & Ht & Hq); [done|]. split; [done|]. split; [|by rewrite Hq].
    rewrite Ht. exact D5.
Qed.

Lemma resolved_good e b : wire_inv b → e_drain (ep_at e b) = false → good b (resolved e b).
Proof.
  intros H Hed. destruct (connecting b) eqn:Hc; last first.
  { unfold lazy_resolved. rewrite Hc. by apply good_refl. }
  rewrite resolved_eq //. destruct (resolved_wire_good e b H Hc Hed) as (H1 & Ht & Hq).
  destruct (flush_good (tunQueue b) _ H1) as [H2 S]. split; [done|]. unfold held at 2.
  by rewrite Hq app_nil_r Ht in S.
Qed.

Lemma rejected_good b : wire_inv b → good b (lazy_rejected b).
Proof.
  intros H. unfold lazy_rejected. destruct (connecting b) eqn:Hc; [|by apply good_refl]. split; [|done].
  destruct H as [[] ? ? ? ? ? ? ? ?]. constructor; try done. intros _. split; [done|]. by right.
Qed.

(** *** The data channel's pump *)

Lemma schedule_good b : wire_inv b → good b (schedulePump b).
Proof. intros [[] ? ? ? ? ? ? ? ?]. split; [by constructor|done]. Qed.

Lemma head_good b pkt : wire_inv b → dcQueue b !! dcHead b = Some pkt → 
  good b (b <| dcHead ::= S |>) ∧ ∀ e, good b (hand_over e pkt (b <| dcHead ::= S |>)).
Proof.
  intros [[Hw Hd Hh] ? ? ? ? ? ? ? ?] Hp. pose proof (lookup_lt_Some _ _ _ Hp) as Hlt.
  assert (drop (dcHead b) (dcQueue b) = pkt :: drop (S (dcHead b)) (dcQueue b)) as Hdrop by by apply drop_S.
  assert (wire_inv (b <| dcHead ::= S |>)) as H1.
  { by constructor. }
  split; [split; [exact H1|]|intros e; split].
  - unfold held, transit. change (dcHead (b <| dcHead ::= S |>)) with (S (dcHead b)).
    cbn. rewrite Hdrop -!(assoc_L (++)). apply sublist_app; [done|]. cbn. by constructor.
  - destruct H1 as [[] ? ? ? ? ? ? ? ?]. by constructor.
  - unfold held, transit. cbn. rewrite Hdrop map_app -!(assoc_L (++)). done.
Qed.

Lemma pump_loop_good n e rd : ∀ b, wire_inv b → good b (pump_loop keepAliveSec n e rd b).1.
Proof.
  induction n as [|n IH]; intros b H; cbn [pump_loop]; [by apply good_refl|].
  case_match; [by apply good_refl|]. case_match; [by apply schedule_good|].
  case_match eqn:Hp; [|by apply good_refl]. destruct (head_good b _ H Hp) as [G1 G2].
  set (b1 := b <| dcHead ::= S |>) in *. pose proof (bump_quiet b1) as Q. set (b2 := bumpActivity _ b1) in *.
  assert (good b b2) as G by (eapply good_trans; [exact G1|]; intros; by apply quiet_good).
  eapply good_trans; [|apply IH]. apply if_good; [|exact G].
  eapply good_trans; [exact (G2 e)|]. intros H3. apply quiet_good; [done|].
  destruct Q. split; try done. cbn. by rewrite q_sent0.
Qed.

Lemma pump_good rd b : wire_inv b → good b (pumpDcQueue tr keepAliveSec rd b).
Proof.
  intros H. unfold pumpDcQueue. set (b0 := b <| dcPumpScheduled := false |>).
  assert (good b b0) as G0 by (apply quiet_good; [done|by split]).
  eapply good_trans; [exact G0|]. intros H0. destruct (decide (tr = WebrtcDc)) as [Ht|]; [|by apply good_refl].
  destruct (if wireArmed b0 then ep b0 else None) as [e|]; [|by apply good_refl].
  pose proof (pump_loop_good (length (dcQueue b0) - dcHead b0) e rd b0 H0) as G.
  destruct (pump_loop _ _ _ _ b0) as [b1 ended]. cbn [fst] in G. eapply good_trans; [exact G|]. intros H1.
  apply if_good; [|by apply good_refl]. destruct H1 as [[Hw Hd Hh] ? ? ? ? ? ? ? ?]. split; [|done].
  constructor; try done. constructor; [done|done|]. cbn. lia.
Qed.

(** *** The sockets *)

Lemma on_ep_good f e b : wire_inv b → (∀ p, e_wire (f p) = e_wire p ∧ e_drain (f p) = e_drain p) → good b (on_ep f e b).
Proof. intros H Hf. apply quiet_good; [done|]. by apply on_ep_quiet. Qed.

Abbreviation failed := (on_error tr keepAliveSec reconnectCooldownSec lazyConnect tcpWireRole softKeepAliveIdle).

(** A flag of the endpoint, then the rest. *)
Lemma flag_good f e b b' : wire_inv b → (∀ p, e_wire (f p) = e_wire p ∧ e_drain (f p) = e_drain p) →
  (wire_inv (on_ep f e b) → good (on_ep f e b) b') → good b b'.
Proof. intros H Hf Hg. eapply good_trans; [by apply on_ep_good|exact Hg]. Qed.

Lemma on_end_good e b : wire_inv b → good b (on_end tr keepAliveSec reconnectCooldownSec lazyConnect tcpWireRole softKeepAliveIdle e b).
Proof.
  intros H. unfold on_end. cbv zeta. apply flag_good with (f := λ p, p <| e_readableEnded := true |>) (e := e); [done|done|].
  intros H1. destruct (decide (tr = Tcp)); [|by apply good_refl].
  apply if_good; [apply if_good; [by apply teardown_good|by apply good_refl]|].
  apply if_good; [apply quiet_good; auto using respond_quiet|by apply good_refl].
Qed.

(** The endpoint that loses its idle handlers is not the armed wire. *)
Lemma clear_drained_good e b : wire_inv b → e_drain (ep_at e b) = true →
  good b (clearTcpEndpointRef e (run_tcpIdleDrainOff b)).
Proof.
  intros H He. destruct (wireArmed b) eqn:Ha; [|by apply drop_drained_good].
  eapply good_trans; [by apply drainOff_good|]. intros H1. unfold clearTcpEndpointRef.
  destruct (drainOff_fields b) as (-> & _). case_decide as Hep; [|by apply good_refl].
  pose proof (wi_drain _ H e Ha Hep). congruence.
Qed.

Lemma on_close_good e b : wire_inv b → good b (on_close tr keepAliveSec reconnectCooldownSec lazyConnect tcpWireRole softKeepAliveIdle e b).
Proof.
  intros H. unfold on_close. apply if_good; [by apply good_refl|]. cbv zeta.
  apply flag_good with (f := λ p, (p <| e_closed := true |>) <| e_destroyed := true |>) (e := e); [done|done|].
  intros H1. set (b1 := on_ep _ e b) in *. destruct (e_wire (ep_at e b1)).
  - assert (∀ r, good b1 (if wireArmed b1 then teardown r b1 else b1)) as HT.
    { intros r. apply if_good; [by apply teardown_good|by apply good_refl]. }
    assert (good b1 (if wireArmed (run_tcpIdleDrainOff b1) then teardown PeerClose (run_tcpIdleDrainOff b1)
      else clearTcpEndpointRef e (run_tcpIdleDrainOff b1))) as HC.
    { eapply good_trans; [by apply drainOff_good|]. intros H2.
      destruct (wireArmed (run_tcpIdleDrainOff b1)) eqn:E; [by apply teardown_good|by apply clear_ref_good]. }
    clearbody b1. pose proof (good_refl b1 H1) as HR. revert HT HC HR. destruct tr; auto.
  - destruct (e_drain (ep_at e b1)) eqn:Ed; [by apply clear_drained_good|by apply good_refl].
Qed.

Lemma on_error_good e r b : wire_inv b → good b (failed e r b).
Proof.
  intros H. unfold on_error. apply if_good; [by apply good_refl|]. cbv zeta.
  apply flag_good with (f := λ p, p <| e_destroyed := true |>) (e := e); [done|done|].
  intros H1. set (b1 := on_ep _ e b) in *. apply if_good; [|by apply good_refl].
  assert (good b1 (if wireArmed b1 then teardown PeerError b1 else b1)) as HT.
  { apply if_good; [by apply teardown_good|by apply good_refl]. }
  pose proof (failure_good r b1 H1) as HF. pose proof (good_refl b1 H1) as HR. clearbody b1.
  revert HT HF HR. destruct tr; auto.
Qed.

(** *** Packets *)

(** Steps that only touch the TUN's side. *)
Lemma writeTun_quiet pkt b b' : writeTun ipv6Role tun_takes pkt b = Ret b' → quiet b b'.
Proof.
  unfold writeTun. intros (a & _ & Hr)%outcome_bind_Ret. apply Ret_inj in Hr as <-. case_match; [by split|done].
Qed.

Lemma writeTun_all_quiet pkts : ∀ b b', writeTun_all ipv6Role tun_takes pkts b = Ret b' → quiet b b'.
Proof.
  induction pkts as [|p ps IH]; intros b b'; cbn [writeTun_all]; [by intros [= ->]|].
  intros (b1 & H1%writeTun_quiet & H2%IH)%outcome_bind_Ret. by etrans.
Qed.

Lemma on_data_good e chunk b b' : wire_inv b →
  on_data keepAliveSec ipv6Role tun_takes e chunk b = Ret b' → good b b'.
Proof.
  intros H. unfold on_data. destruct (e_wire (ep_at e b)).
  - pose proof (bump_quiet b) as Q. set (b1 := bumpActivity _ b) in *. destruct (push chunk _) as [r f].
    intros (b2 & H2%writeTun_all_quiet & Hr)%outcome_bind_Ret.
    assert (quiet b b2) as Q2 by (etrans; [exact Q|]; etrans; [|exact H2]; by split).
    apply quiet_good; [done|]. destruct r; apply Ret_inj in Hr as <-; [done|]. etrans; [exact Q2|apply reset_quiet].
  - destruct (e_drain (ep_at e b)) eqn:Ed; intros Hr; apply Ret_inj in Hr as <-; [|by apply good_refl].
    eapply good_trans; [by apply clear_drained_good|]. intros. by apply quiet_good, reset_quiet.
Qed.

Lemma on_message_good e msg rinfo b b' : wire_inv b →
  on_message tr keepAliveSec ipv6Role tun_takes e msg rinfo b = Ret b' → good b b'.
Proof.
  intros H Hr. apply quiet_good; [done|]. revert Hr. unfold on_message.
  destruct (negb _); [intros Hr; by apply Ret_inj in Hr as <-|].
  assert (∀ b b', writeTun ipv6Role tun_takes msg (bumpActivity keepAliveSec b) = Ret b' → quiet b b') as HW.
  { intros b0 b0' Hw%writeTun_quiet. etrans; [apply bump_quiet|exact Hw]. }
  destruct tr; try destruct (_ || _); try (intros Hr; by apply Ret_inj in Hr as <-); try apply HW.
  destruct (ep b) as [cur|]; [|done]. intros Hw%HW. etrans; [|exact Hw]. by apply on_ep_quiet.
Qed.

(** A packet of the TUN that is to cross: not empty, not answered here, IPv4 or the
    tunnel's IPv6. *)
Definition crosses (pkt : buffer) : Prop :=
  (pkt ≠ [] ∧ blen pkt <= MAX_PKT) ∧
  match local4 with Some l => ¬ echo_for pkt l | None => True end ∧
  (bridgeable pkt ∨ match ipv6Role with Some r => ipv6_allowed pkt r Out | None => False end).
#[local] Instance crosses_dec pkt : Decision (crosses pkt).
Proof. unfold crosses. destruct local4, ipv6Role; apply _. Defined.

Definition memory_ok : Prop := ∀ n, length (junk n) = n ∧ bytes_ok (junk n).

Abbreviation route := (route_packet tr keepAliveSec lazyConnect tcpWireRole).
Abbreviation tun_pkt := (tun_packet tr keepAliveSec lazyConnect tcpWireRole local4 ipv6Role tun_takes junk).

Lemma writeTun_total pkt b : ∃ b', writeTun ipv6Role tun_takes pkt b = Ret b'.
Proof.
  unfold writeTun. destruct (_ =? 6); [|by eexists].
  destruct ipv6Role as [r|]; [|by eexists]. destruct (ipv6PacketAllowed_total pkt r In) as [v ->]. by eexists.
Qed.
Lemma writeTun_all_total pkts : ∀ b, ∃ b', writeTun_all ipv6Role tun_takes pkts b = Ret b'.
Proof.
  induction pkts as [|p ps IH]; intros b; cbn [writeTun_all]; [by eexists|].
  destruct (writeTun_total p b) as [b1 ->]. apply IH.
Qed.

Lemma tun_packet_spec pkt b : memory_ok → bytes_ok pkt → 
  (crosses pkt → tun_pkt pkt b = Ret (route pkt b)) ∧
  (¬ crosses pkt → ∃ b', tun_pkt pkt b = Ret b' ∧ quiet b b').
Proof.
  intros Hm Hok. unfold tun_packet, crosses.
  destruct (Nat.eqb_spec (length pkt) 0) as [E0|E0].
  { split; [intros ([Hn _] & _); by destruct pkt|]. intros _. by eexists. }
  destruct (Z.ltb_spec MAX_PKT (blen pkt)) as [El|El]; cbn [orb].
  { split; [intros ([_ ?] & _); lia|]. intros _. by eexists. }
  assert (pkt ≠ []) as Hne by (by intros ->).
  assert (∃ b', (v4 ← isIpv4Bridgeable pkt;
    v6 ← (if (v4 : bool) then Ret false else match ipv6Role with Some r => ipv6PacketAllowed pkt r Out | None => Ret false end);
    if v4 || v6 then Ret (route pkt b) else Ret b) = Ret b' ∧
    (bridgeable pkt ∨ match ipv6Role with Some r => ipv6_allowed pkt r Out | None => False end → b' = route pkt b) ∧
    (¬ (bridgeable pkt ∨ match ipv6Role with Some r => ipv6_allowed pkt r Out | None => False end) → b' = b)) as (b' & Hb' & Hyes & Hno).
  { rewrite isIpv4Bridgeable_spec ret_bind. case_bool_decide as H4; [rewrite ret_bind; eexists; split; [done|]; split; [done|tauto]|].
    destruct ipv6Role as [r|]; [rewrite ipv6PacketAllowed_spec // ret_bind; case_bool_decide|rewrite ret_bind];
      (eexists; split; [done|]; split; [tauto|tauto]). }
  destruct local4 as [l|]; [|rewrite ret_bind Hb'; split; [intros (_ & _ & H); by rewrite Hyes|]].
  - destruct (decide (echo_for pkt l)) as [He|He].
    + split; [tauto|]. intros _.
      destruct (echo_reply_some pkt l (Z.land (ipIdCounter b + 1) 0xffff) junk Hok El Hm He) as (r & -> & _ & (_ & H4 & _) & _).
      rewrite ret_bind. unfold writeTun. rewrite H4. cbn [Z.eqb Pos.eqb]. rewrite ret_bind. eexists. split; [done|].
      by destruct (true && tun_takes r); split.
    + rewrite try_echo_spec bool_decide_eq_false_2 // ret_bind Hb'. split; [intros (_ & _ & H); by rewrite Hyes|].
      intros Hn. exists b'. split; [done|]. rewrite Hno; [done|]. tauto.
  - intros Hn. exists b'. split; [done|]. rewrite Hno; [done|]. tauto.
Qed.

(** A step that may add the packet [p]. *)
Definition adds (p : list buffer) (b b' : Bridge) : Prop := wire_inv b' ∧ held b' `sublist_of` held b ++ p.

Lemma good_adds p b b' : good b b' → adds p b b'.
Proof. intros [H S]. split; [done|]. by apply sublist_inserts_r. Qed.

Lemma armed_queue b : wire_inv b → wireArmed b = true → tunQueue b = [].
Proof.
  intros H Ha. destruct (tunQueue b) eqn:E; [done|]. destruct (wi_queue _ H) as [? _]; congruence.
Qed.

Lemma sends_adds p b : wire_inv b → wireArmed b = true → adds [p] b (sends p b).
Proof.
  intros H Ha. destruct (sendOnWire_spec p b (wi_send _ H)) as (W & Hs & Ht & _).
  split; [by eapply wired_inv|]. unfold held. rewrite (w_queue _ _ W) (armed_queue b) // !app_nil_r.
  destruct Ht as [->| ->]; [|done]. by apply sublist_inserts_r.
Qed.

Lemma route_adds p b : wire_inv b → adds [p] b (route p b).
Proof.
  intros H. pose proof (good_adds [p] b b (good_refl b H)) as Hb. unfold route_packet.
  destruct (wireArmed b) eqn:Ha; cbn [negb andb].
  { destruct (negb _); [done|]. by apply sends_adds. }
  destruct lazyConnect eqn:Hl; [|done]. destruct (_ <? _); [done|]. destruct (negb _); [done|].
  rewrite -Hl. destruct (rearm b) as [b1 [|]] eqn:Er.
  - destruct (rearm_good b H) as (G & Ht & _). rewrite Er in G, Ht. destruct (Ht eq_refl) as (Ha1 & _).
    cbn [fst] in *. destruct (negb _); [by apply good_adds|]. destruct G as [H1 S].
    destruct (sends_adds p b1 H1 Ha1) as [H2 S2]. split; [done|]. etrans; [exact S2|]. by apply sublist_app.
  - destruct (wait_spec b b1 p) as (_ & H2 & S2); [done..|]. by split.
Qed.

Lemma adds_trans p q b b1 b2 : adds p b b1 → adds q b1 b2 → adds (p ++ q) b b2.
Proof. intros [_ S1] [H S2]. split; [done|]. rewrite (assoc_L (++)). etrans; [exact S2|]. by apply sublist_app. Qed.

Definition crossing : list buffer → list buffer := filter crosses.

Lemma tun_read_adds batch : memory_ok → Forall bytes_ok batch → ∀ b, wire_inv b →
  ∃ b', tun_read tr keepAliveSec lazyConnect tcpWireRole local4 ipv6Role tun_takes junk batch b = Ret b' ∧
    adds (crossing batch) b b'.
Proof.
  intros Hm Hok. induction Hok as [|p ps Hp _ IH]; intros b H; cbn [tun_read].
  { exists b. split; [done|]. by apply good_adds, good_refl. }
  destruct (tun_packet_spec p b Hm Hp) as [Hy Hn]. unfold crossing. rewrite filter_cons.
  destruct (decide (crosses p)) as [Hc|Hc].
  - rewrite (Hy Hc) ret_bind. destruct (route_adds p b H) as [H1 S1].
    destruct (IH _ H1) as (b' & -> & Ha). exists b'. split; [done|]. by apply (adds_trans [p] _ _ (route p b)).
  - destruct (Hn Hc) as (b1 & -> & Q). rewrite ret_bind. destruct (quiet_good _ _ H Q) as [H1 S1].
    destruct (IH _ H1) as (b' & -> & Ha). exists b'. split; [done|].
    apply (adds_trans [] _ _ b1); [|done]. by apply good_adds.
Qed.

(** What an event brings from the TUN; its bytes are bytes. *)
Definition read_of (ev : event) : list buffer := match ev with TunRead batch => batch | _ => [] end.
Definition event_ok (ev : event) : Prop :=
  match ev with
  | TunRead batch => Forall bytes_ok batch
  | Data _ chunk => bytes_ok chunk
  | Message _ msg _ => bytes_ok msg
  | _ => True
  end.

Abbreviation bstep := (step tr keepAliveSec reconnectCooldownSec lazyConnect tcpWireRole softKeepAliveIdle
  softKeepAliveIdleKeepsWire local4 ipv6Role tun_takes junk).
Abbreviation brun := (run tr keepAliveSec reconnectCooldownSec lazyConnect tcpWireRole softKeepAliveIdle
  softKeepAliveIdleKeepsWire local4 ipv6Role tun_takes junk).

Lemma new_endpoint_quiet unsafe b : quiet b (b <| eps ::= λ l, l ++ [ep_new unsafe] |>).
Proof.
  assert (∀ e, e_wire (ep_at e (b <| eps ::= λ l, l ++ [ep_new unsafe] |>)) = e_wire (ep_at e b) ∧
    e_drain (ep_at e (b <| eps ::= λ l, l ++ [ep_new unsafe] |>)) = e_drain (ep_at e b)) as HE; [|by split; try done; apply HE].
  intros e. unfold ep_at. cbn. destruct (decide (e < length (eps b))%nat) as [Hl|Hl]; [by rewrite lookup_app_l|].
  rewrite lookup_app_r; [|lia]. rewrite (lookup_ge_None_2 (eps b)); [|lia].
  destruct (e - length (eps b))%nat as [|[|]]; done.
Qed.

Lemma step_adds ev b : memory_ok → event_ok ev → wire_inv b →
  (∀ b', bstep ev b = Ret b' → adds (crossing (read_of ev)) b b').
Proof.
  intros Hm Hok H b'. destruct ev; cbn [step read_of]; cbn [event_ok] in Hok.
  2: { destruct (tun_read_adds batch Hm Hok b H) as (b1 & -> & Ha). by intros [= <-]. }
  all: assert (∀ b0, good b b0 → Ret b0 = Ret b' → adds (crossing []) b b') as HG
    by (intros b0 G Hr; apply Ret_inj in Hr as <-; by apply good_adds).
  - apply HG. by apply quiet_good, new_endpoint_quiet.
  - destruct (decide (tr = Tcp)); [|by apply HG, good_refl]. intros Hr. apply good_adds. by eapply on_data_good.
  - intros Hr. apply good_adds. by eapply on_message_good.
  - by apply HG, on_end_good.
  - by apply HG, on_close_good.
  - by apply HG, on_error_good.
  - apply HG. unfold on_write_error. case_decide; [by apply failure_good|by apply good_refl].
  - by apply HG, idle_good.
  - apply HG. destruct (usable e b) eqn:Hu; [|by apply good_refl].
    apply andb_true_iff in Hu as [_ Hu%negb_true_iff]. by apply resolved_good.
  - by apply HG, rejected_good.
  - apply HG. destruct (usable e b) eqn:Hu; [|by apply good_refl].
    apply andb_true_iff in Hu as [_ Hu%negb_true_iff]. by apply reconnect_good.
  - by apply HG, ensure_good.
  - apply HG. apply quiet_good; [done|by split].
  - apply HG. apply quiet_good; [done|apply reset_quiet].
  - apply HG. destruct (dcPumps b) as [|n]; [by apply good_refl|].
    eapply (good_trans _ (b <| dcPumps := n |>)); [apply quiet_good; [done|by split]|]. intros. by apply pump_good.
  - apply HG. apply quiet_good; [done|by split].
Qed.

Lemma run_adds evs : memory_ok → Forall event_ok evs → ∀ b b', wire_inv b → brun evs b = Ret b' →
  adds (crossing (evs ≫= read_of)) b b'.
Proof.
  intros Hm. induction 1 as [|ev evs Hev _ IH]; intros b b' H; cbn [run].
  { intros [= <-]. by apply good_adds, good_refl. }
  intros (b1 & H1 & Hr)%outcome_bind_Ret. pose proof (step_adds ev b Hm Hev H b1 H1) as HA.
  rewrite bind_cons /crossing filter_app. eapply adds_trans; [exact HA|]. apply IH; [apply HA|done].
Qed.

Lemma new_inv first ident v : (lazyConnect = false → first ≠ None) →
  wire_inv (bridge_new tr keepAliveSec lazyConnect first ident v) ∧ held (bridge_new tr keepAliveSec lazyConnect first ident v) = [].
Proof.
  intros Hf. unfold bridge_new. destruct lazyConnect eqn:Hl.
  { split; [|done]. by constructor; try done; cbn; lia. }
  destruct first as [unsafe|]; [|by destruct Hf].
  set (b0 := set_field ep _ _). cbn [negb] in b0.
  assert (∀ e, e_wire (ep_at e b0) = false ∧ e_drain (ep_at e b0) = false) as HE by (by intros [|[|]]).
  assert (wire_inv (attachWireHandlers tr b0)) as H0.
  { apply (attach_inv b0 0%nat); [split; [done|intros _ e; apply HE]|by split|done..|apply HE|].
    intros e. by rewrite (proj2 (HE e)). }
  assert (quiet (attachWireHandlers tr b0) (bumpActivity keepAliveSec (applyWireKeepalive tr keepAliveSec (attachWireHandlers tr b0)))) as Q
    by (etrans; [apply keepalive_quiet|apply bump_quiet]).
  destruct (attached_tail b0 _ Q H0) as (H1 & Ht & Hq); [done|]. split; [done|]. unfold held. by rewrite Ht Hq.
Qed.

(** No event throws but a datagram for a UDP server that lost its endpoint. *)
Lemma step_total ev b : memory_ok → event_ok ev → wire_inv b → tr ≠ UdpServer → ∃ b', bstep ev b = Ret b'.
Proof.
  intros Hm Hok H Htr. destruct ev; cbn [step]; try (by eexists); cbn [event_ok] in Hok.
  - destruct (tun_read_adds batch Hm Hok b H) as (b' & -> & _). by eexists.
  - destruct (decide (tr = Tcp)); [|by eexists]. unfold on_data.
    destruct (e_wire _); [|destruct (e_drain _); by eexists]. destruct (push chunk _) as [r f].
    destruct (writeTun_all_total (f_out f) ((bumpActivity keepAliveSec b) <| framer := f |>)) as [b' ->].
    rewrite ret_bind. destruct r; by eexists.
  - unfold on_message. destruct (negb _); [by eexists|].
    destruct tr; try done; try destruct (_ || _); try (by eexists); apply writeTun_total.
Qed.

Lemma run_total evs : memory_ok → tr ≠ UdpServer → Forall event_ok evs → ∀ b, wire_inv b → ∃ b', brun evs b = Ret b'.
Proof.
  intros Hm Htr. induction 1 as [|ev evs Hev _ IH]; intros b H; cbn [run]; [by eexists|].
  destruct (step_total ev b Hm Hev H Htr) as [b1 Hb1]. rewrite Hb1 ret_bind. apply IH.
  by apply (step_adds ev b Hm Hev H b1).
Qed.

Abbreviation bnew := (bridge_new tr keepAliveSec lazyConnect).

(** C21: In every history of a clean-vpn bridge (packets of the TUN, sockets that fail,
    close or are replaced, connection attempts, idle time) the packets handed to endpoints,
    those in the data channel's queue and those waiting for a connection are, in this
    order, among the packets the TUN delivered that are to cross, in the TUN's order and
    at most once each; at most 256 wait, and only while no wire is armed and a connection
    is being opened or no endpoint is left; an armed wire has an endpoint, and the cached
    writer writes to it.  No event throws (a UDP server's need not be considered). *)
Theorem bridge_keeps_order (first : option bool) (ident : Z) (v : Env) (evs : list event) :
  memory_ok → (lazyConnect = false → first ≠ None) → Forall event_ok evs →
  (tr ≠ UdpServer → ∃ b, brun evs (bnew first ident v) = Ret b) ∧
  ∀ b, brun evs (bnew first ident v) = Ret b →
    (map snd (b_sent b) ++ drop (dcHead b) (dcQueue b) ++ tunQueue b) `sublist_of` crossing (evs ≫= read_of) ∧
    (length (tunQueue b) <= 256)%nat ∧
    (tunQueue b ≠ [] → wireArmed b = false ∧ (connecting b = true ∨ ep b = None)) ∧
    (wireArmed b = true → ep b ≠ None) ∧
    (∀ e, tcpFramedSend b = Some e → ep b = Some e).
Proof.
  intros Hm Hf Hok. destruct (new_inv first ident v Hf) as [H0 Hh]. split; [intros Htr; by apply run_total|].
  intros b Hr. destruct (run_adds evs Hm Hok _ b H0 Hr) as [H S]. rewrite Hh in S. unfold held, transit in S.
  rewrite -(assoc_L (++)) in S. split; [exact S|]. split; [apply (wi_len _ H)|]. split; [apply (wi_queue _ H)|].
  split; [apply (wi_armed _ H)|]. apply (si_writer _ (wi_send _ H)).
Qed.

(** *** A packet reaches the wire *)

Lemma attach_fields b (b1 := attachWireHandlers tr b) : ep b1 = ep b ∧ wireArmed b1 = wireArmed b ∧ b_sent b1 = b_sent b.
Proof.
  unfold b1, attachWireHandlers, run_wireOff. destruct (wireOff b) as [w|]; cbn; destruct (ep b) eqn:He; by rewrite /= ?He.
Qed.

Lemma resolved_wire_fields e b (b1 := resolved_wire e b) :
  ep b1 = Some e ∧ wireArmed b1 = true ∧ b_sent b1 = b_sent b.
Proof.
  unfold b1, resolved_wire. set (x := if bool_decide _ then ready _ else _).
  assert (quiet x (bumpActivity keepAliveSec (applyWireKeepalive tr keepAliveSec x))) as []
    by (etrans; [apply keepalive_quiet|apply bump_quiet]).
  rewrite q_ep0 q_armed0 q_sent0. unfold x. case_bool_decide; [done|].
  match goal with |- context [attachWireHandlers tr ?y] => destruct (attach_fields y) as (-> & -> & ->) end.
  split; [done|]. split; [done|]. change (b_sent (run_tcpIdleDrainOff b) = b_sent b).
  unfold run_tcpIdleDrainOff. by destruct (tcpIdleDrainOff b).
Qed.

Lemma sendAll_carried pkts e : tr ≠ UdpServer → ∀ b, send_inv b → wireArmed b = true → ep b = Some e →
  transit (sends_all pkts b) = transit b ++ pkts ∧
  (tr ≠ WebrtcDc → b_sent (sends_all pkts b) = b_sent b ++ map (pair e) pkts) ∧
  (tr = WebrtcDc → pkts ≠ [] → dcPumpScheduled (sends_all pkts b) = true).
Proof.
  intros Htr. induction pkts as [|p ps IH]; intros b Hs Ha He; [by rewrite /= !app_nil_r|].
  change (sends_all (p :: ps) b) with (sends_all ps (sends p b)).
  destruct (sendOnWire_spec p b Hs) as (W & H1 & _ & Hc).
  destruct (Hc e Ha He) as (Ht & Hb & Hd); [unfold carries; by destruct tr|].
  destruct (IH (sends p b)) as (Ht2 & Hb2 & Hd2); [done|by rewrite (w_armed _ _ W)|by rewrite (w_ep _ _ W)|].
  split; [by rewrite Ht2 Ht -(assoc_L (++))|]. split.
  - intros Hw. rewrite (Hb2 Hw) (Hb Hw) -(assoc_L (++)). done.
  - intros Hw _. destruct ps; [by apply Hd|]. by apply Hd2.
Qed.

(** The end of an attempt hands over what waits. *)
Lemma resolved_carries e b : tr ≠ UdpServer → wire_inv b → connecting b = true → e_drain (ep_at e b) = false →
  let b' := resolved e b in
  ep b' = Some e ∧ wireArmed b' = true ∧ tunQueue b' = [] ∧ transit b' = transit b ++ tunQueue b ∧
  (tr ≠ WebrtcDc → b_sent b' = b_sent b ++ map (pair e) (tunQueue b)) ∧
  (tr = WebrtcDc → tunQueue b ≠ [] → dcPumpScheduled b' = true).
Proof.
  intros Htr H Hc Hd b'. unfold b'. rewrite resolved_eq //.
  destruct (resolved_wire_good e b H Hc Hd) as (H1 & Ht & Hq). destruct (resolved_wire_fields e b) as (F1 & F2 & F3).
  destruct (sendAll_spec (tunQueue b) _ (wi_send _ H1)) as (W & _).
  destruct (sendAll_carried (tunQueue b) e Htr _ (wi_send _ H1) F2 F1) as (T1 & T2 & T3).
  rewrite (w_ep _ _ W) (w_armed _ _ W) (w_queue _ _ W) T1 Ht -F3. done.
Qed.

Lemma rearm_env b : env (rearm b).1 = env b.
Proof.
  unfold rearmTcpClientWire, resetTcpEndpoint, clearTcpEndpointRef, bumpActivity, attachWireHandlers, run_wireOff,
    run_tcpIdleDrainOff. by repeat (case_goal; try done).
Qed.

Lemma rearmed_sends p b b1 : wire_inv b → rearm b = (b1, true) → ∃ e, ep b = Some e ∧ wireArmed (sends p b1) = true ∧
  b_sent (sends p b1) = b_sent b ++ [(e, p)].
Proof.
  intros H Hr. destruct (rearm_good b H) as (G & Ht & _). rewrite Hr in G, Ht. cbn [fst snd] in *.
  destruct (Ht eq_refl) as (Ha & _ & _ & He & Hne). destruct (ep b) as [e|] eqn:Ep; [|done]. exists e.
  assert (tr = Tcp) as Htr.
  { revert Hr. unfold rearmTcpClientWire. destruct (_ || _); [done|]. by destruct (decide (tr = Tcp)). }
  destruct G as [G _]. destruct (sendOnWire_spec p b1 (wi_send _ G)) as (W & _ & _ & Hc).
  destruct (Hc e Ha He) as (_ & Hb & _); [unfold carries; by rewrite Htr|]. split; [done|].
  split; [by rewrite (w_armed _ _ W)|]. rewrite Hb; [|by rewrite Htr]. f_equal. revert Hr. unfold rearmTcpClientWire.
  destruct (_ || _); [done|]. destruct (if decide (tr = Tcp) then _ else _) as [e'|]; [|done].
  repeat (case_goal; [done|]). intros [= <-]. rewrite (q_sent _ _ (bump_quiet _)).
  change (b_sent (?x <| wireArmed := true |>)) with (b_sent x). destruct (attach_fields (run_tcpIdleDrainOff b)) as (_ & _ & ->).
  unfold run_tcpIdleDrainOff. by destruct (tcpIdleDrainOff b).
Qed.

(** C35: A packet of the TUN that is to cross and may open a connection, while no wire is
    armed and the pause after an idle teardown is over, is handed over at once to the
    socket that stayed open, or waits last in the queue while a connection is being opened;
    when the attempt ends with an endpoint (whichever), the wire is armed with it, and all
    that waits is handed to it in order (to a data channel: by a scheduled pump). *)
Theorem bridge_reaches_wire (first : option bool) (ident : Z) (v : Env) (evs : list event) (pkt : buffer) b :
  memory_ok → lazyConnect = true → tr ≠ UdpServer → Forall event_ok evs → bytes_ok pkt →
  brun evs (bnew first ident v) = Ret b → wireArmed b = false → crosses pkt →
  idleCooldownUntilMs b <= now (env b) → lazyConnectFilter (env b) pkt = true → tunOutboundSendIf (env b) pkt = true →
  ∃ b1, bstep (TunRead [pkt]) b = Ret b1 ∧
    ((∃ e, ep b = Some e ∧ wireArmed b1 = true ∧ b_sent b1 = b_sent b ++ [(e, pkt)]) ∨
     (connecting b1 = true ∧ last (tunQueue b1) = Some pkt ∧
      ∀ e, usable e b1 = true → ∃ b2, bstep (LazyResolved e) b1 = Ret b2 ∧
        wireArmed b2 = true ∧ ep b2 = Some e ∧ tunQueue b2 = [] ∧
        map snd (b_sent b2) ++ drop (dcHead b2) (dcQueue b2) =
          (map snd (b_sent b1) ++ drop (dcHead b1) (dcQueue b1)) ++ tunQueue b1 ∧
        (if decide (tr = WebrtcDc) then dcPumpScheduled b2 = true
         else b_sent b2 = b_sent b1 ++ map (pair e) (tunQueue b1)))).
Proof.
  intros Hm Hl Htr Hok Hp Hr Ha Hcr Hcool Hfil Hsend. destruct (new_inv first ident v) as [H0 _]; [congruence|].
  destruct (run_adds evs Hm Hok _ b H0 Hr) as [H _]. cbn [step tun_read].
  rewrite (proj1 (tun_packet_spec pkt b Hm Hp) Hcr) ret_bind. eexists. split; [done|].
  unfold route_packet. rewrite Ha. assert (negb false && lazyConnect = true) as -> by done.
  destruct (Z.ltb_spec (now (env b)) (idleCooldownUntilMs b)); [lia|].
  rewrite Hfil. cbn [negb]. pose proof (rearm_env b) as Henv.
  destruct (rearm b) as [b1 [|]] eqn:Er; [left; cbn in Henv; rewrite Henv Hsend; cbn [negb]; by apply rearmed_sends|right].
  destruct (wait_spec b b1 pkt H Ha Hl Er) as (Eb & H2 & _). set (b2 := ensure _) in *.
  assert (tunQueue b2 = tunQueue (enqueue pkt b1)) as Eq by (by rewrite Eb).
  assert (connecting b2 = true) as Hc by (by rewrite Eb).
  assert (last (tunQueue b2) = Some pkt) as Hlast by (rewrite Eq; apply last_snoc).
  split; [exact Hc|]. split; [exact Hlast|]. intros e Hu. rewrite Hu. eexists. split; [done|].
  apply andb_true_iff in Hu as [_ Hu%negb_true_iff].
  destruct (resolved_carries e b2 Htr H2 Hc Hu) as (R1 & R2 & R3 & R4 & R5 & R6).
  split; [done|]. split; [done|]. split; [done|]. split; [exact R4|].
  case_decide as Hw; [|by apply R5]. apply R6; [done|]. intros E. by rewrite E in Hlast.
Qed.

(** The events of one endpoint. *)
Definition event_of (e : nat) (ev : event) : Prop :=
  match ev with
  | Data i _ | Message i _ _ | End i | Close i | SockError i _ | WriteError i _ => i = e
  | _ => False
  end.

Definition only_flags (stale : nat) (b b' : Bridge) : Prop :=
  b' = b <| eps := eps b' |> ∧ ∀ i, i ≠ stale → eps b' !! i = eps b !! i.
Lemma only_flags_refl stale b b' : b' = b → only_flags stale b b'.
Proof. intros ->. split; [by destruct b|done]. Qed.
Lemma only_flags_on_ep stale f b : only_flags stale b (on_ep f stale b).
Proof. split; [done|]. intros i Hi. cbn. by rewrite list_lookup_alter_ne. Qed.
Lemma ep_flags f e b : (∀ p, e_wire (f p) = e_wire p ∧ e_drain (f p) = e_drain p) →
  e_wire (ep_at e (on_ep f e b)) = e_wire (ep_at e b) ∧ e_drain (ep_at e (on_ep f e b)) = e_drain (ep_at e b).
Proof. intros Hf. split; rewrite ep_at_on_ep; case_decide; done || apply Hf. Qed.

(** C33: While a wire is armed, whatever the replaced endpoints still do (data, messages,
    end, close, errors, failed writes) changes nothing but their own flags: it is not taken
    for the current endpoint's.  (Not so for data channels, whose handlers stay, and for
    a socket that still waits for its FIN.) *)
Theorem stale_events_harmless (first : option bool) (ident : Z) (v : Env) (evs : list event) (ev : event)
    (e stale : nat) b b' :
  memory_ok → (lazyConnect = false → first ≠ None) → Forall event_ok evs → tr ≠ WebrtcDc →
  brun evs (bnew first ident v) = Ret b → wireArmed b = true → ep b = Some e → stale ≠ e →
  e_drain (ep_at stale b) = false → event_of stale ev → bstep ev b = Ret b' →
  b' = b <| eps := eps b' |> ∧ ∀ i, i ≠ stale → eps b' !! i = eps b !! i.
Proof.
  intros Hm Hf Hok Htr Hr Ha He Hne Hd Hev Hs. destruct (new_inv first ident v Hf) as [H0 _].
  destruct (run_adds evs Hm Hok _ b H0 Hr) as [H _].
  assert (e_wire (ep_at stale b) = false) as Hw.
  { destruct (e_wire _) eqn:Ew; [|done]. destruct Hne. by apply (wi_off _ H e stale), (wi_wire _ H Htr). }
  destruct ev; cbn [event_of] in Hev; try done; subst; cbn [step] in Hs.
  - unfold on_data in Hs. rewrite Hw Hd in Hs. apply only_flags_refl. by destruct (decide _); apply Ret_inj in Hs.
  - unfold on_message in Hs. rewrite Hw in Hs. apply only_flags_refl. by apply Ret_inj in Hs.
  - apply Ret_inj in Hs as <-. unfold on_end. rewrite (proj1 (ep_flags _ _ _ _)) // (proj2 (ep_flags _ _ _ _)) // Hw Hd.
    destruct (decide _); apply only_flags_on_ep.
  - apply Ret_inj in Hs as <-. unfold on_close. destruct (e_closed _); [by apply only_flags_refl|].
    rewrite (proj1 (ep_flags _ _ _ _)) // (proj2 (ep_flags _ _ _ _)) // Hw Hd. apply only_flags_on_ep.
  - apply Ret_inj in Hs as <-. unfold on_error. destruct (e_closed _); [by apply only_flags_refl|].
    rewrite (proj1 (ep_flags _ _ _ _)) // (proj2 (ep_flags _ _ _ _)) // Hw Hd. apply only_flags_on_ep.
  - apply Ret_inj in Hs as <-. unfold on_write_error. rewrite decide_False; [by apply only_flags_refl|].
    intros [_ ?]. congruence.
Qed.
End bridge.
#[export] Hint Resolve reset_quiet respond_quiet graceful_quiet cancel_quiet bump_quiet keepalive_quiet
  closeBridge_quiet : mesh.

(** ** A client over TCP *)

Definition junk0 (n : nat) : buffer := replicate n 0.
Lemma junk0_ok : memory_ok junk0.
Proof. intros n. split; [apply length_replicate|]. by apply Forall_replicate. Qed.

(** A bare IPv4 header. *)
Definition v4_packet : buffer := [0x45; 0; 0; 20] ++ replicate 16 0.
Definition env0 : Env := MkEnv 0 true (λ _, true) (λ _, true).

(** A client that connects when a packet asks for it. *)
Definition client_new : Bridge := bridge_new Tcp 10 true None 0 env0.
Definition client_run : list event → Bridge → outcome Bridge :=
  run Tcp 10 0 true None false false None None (λ _, true) junk0.
Definition client_step : event → Bridge → outcome Bridge :=
  step Tcp 10 0 true None false false None None (λ _, true) junk0.

Definition client_state (evs : list event) : Bridge :=
  match client_run evs client_new with Ret b => b | Throw _ => client_new end.

(** It connects, is idle, and uses the socket that stayed open. *)
Definition client_history : list event :=
  [NewEndpoint false; NewEndpoint false; TunRead [v4_packet]; LazyResolved 0; TunRead [v4_packet; v4_packet]; IdleTimer].
(** Its first connection fails and another takes its place. *)
Definition client_replaced : list event :=
  client_history ++ [SockError 0 true; TunRead [v4_packet]; LazyResolved 1].

Lemma v4_ok : bytes_ok v4_packet.
Proof. apply (bool_decide_unpack _). vm_compute. exact I. Qed.
Lemma v4_crosses : crosses None None v4_packet.
Proof. apply (bool_decide_unpack _). vm_compute. exact I. Qed.
Lemma client_history_ok : Forall event_ok client_history.
Proof. repeat constructor; apply (bool_decide_unpack _); vm_compute; exact I. Qed.
Lemma client_replaced_ok : Forall event_ok client_replaced.
Proof. apply Forall_app_2; [apply client_history_ok|]. repeat constructor; apply (bool_decide_unpack _); vm_compute; exact I. Qed.

(** Four packets read, four handed over: three to the first socket, one to the second. *)
Lemma bridge_keeps_order_witness : ∃ b, client_run client_replaced client_new = Ret b ∧
  map fst (b_sent b) = [0; 0; 0; 1]%nat ∧
  (map snd (b_sent b) ++ drop (dcHead b) (dcQueue b) ++ tunQueue b) `sublist_of`
    crossing None None (client_replaced ≫= read_of).
Proof.
  eexists. split; [vm_compute; reflexivity|]. split; [vm_compute; reflexivity|].
  eapply (bridge_keeps_order Tcp 10 0 true None false false None None (λ _, true) junk0 None 0 env0 client_replaced
    junk0_ok); [done|exact client_replaced_ok|vm_compute; reflexivity].
Defined.

(** The first socket's late 'close' changes nothing but its flags. *)
Lemma stale_events_harmless_witness : ∃ b b', client_run client_replaced client_new = Ret b ∧
  client_step (Close 0) b = Ret b' ∧ wireArmed b' = true ∧ ep b' = Some 1%nat ∧ b' = b <| eps := eps b' |>.
Proof.
  do 2 eexists. split; [vm_compute; reflexivity|]. split; [vm_compute; reflexivity|].
  split; [reflexivity|]. split; [reflexivity|].
  eapply (stale_events_harmless Tcp 10 0 true None false false None None (λ _, true) junk0 None 0 env0 client_replaced
    (Close 0) 1 0 _ _ junk0_ok); [done|exact client_replaced_ok|done|vm_compute; reflexivity|done..].
Defined.

(** After the idle time the next packet goes over the same socket. *)
Lemma bridge_reaches_wire_witness : ∃ b b1, client_run client_history client_new = Ret b ∧ wireArmed b = false ∧
  client_step (TunRead [v4_packet]) b = Ret b1 ∧ (wireArmed b1 = true ∨ connecting b1 = true).
Proof.
  eexists. destruct (bridge_reaches_wire Tcp 10 0 true None false false None None (λ _, true) junk0 None 0 env0
    client_history v4_packet (client_state client_history) junk0_ok eq_refl) as (b1 & Hs & Hw);
    [done|exact client_history_ok|exact v4_ok|vm_compute; reflexivity|done|exact v4_crosses|done..|].
  exists b1. split; [vm_compute; reflexivity|]. split; [done|]. split; [exact Hs|].
  destruct Hw as [(e & _ & Ha & _)|(Hc & _)]; [by left|by right].
Defined.

(** ** What the bridge does not do *)

Definition run_of (tr : transport) (lazyConnect : bool) (evs : list event) : outcome Bridge :=
  run tr 10 0 lazyConnect None false false None None (λ _, true) junk0 evs
    (bridge_new tr 10 lazyConnect (Some false) 0 env0).

(** An idle WebSocket is taken off the bridge, but never closed: [ep] is null before
    [ep?.close?.()]. *)
Example websocket_never_closed : ∃ b,
  run_of Websocket true [NewEndpoint false; TunRead [v4_packet]; LazyResolved 0; IdleTimer] = Ret b ∧
  ep b = None ∧ wireArmed b = false ∧ e_wire (ep_at 0 b) = false ∧ e_destroyed (ep_at 0 b) = false.
Proof. eexists. split; [vm_compute; reflexivity|]. by split_and!. Qed.

(** The handlers of a data channel stay: when a replaced channel closes, the new wire is
    taken down. *)
Example dc_reconnect_torn_down : ∃ b b',
  run_of WebrtcDc false [NewEndpoint false; Reconnect 1] = Ret b ∧ wireArmed b = true ∧ ep b = Some 1%nat ∧
  run_of WebrtcDc false [NewEndpoint false; Reconnect 1; Close 0] = Ret b' ∧ wireArmed b' = false ∧ ep b' = None.
Proof. do 2 eexists. split; [vm_compute; reflexivity|]. do 2 (split; [done|]). split; [vm_compute; reflexivity|done]. Qed.

(** While a server still closes its idle socket, the end of the next one is missed: the
    wire stays armed with a socket that is gone. *)
Example stuck_during_graceful_close : ∃ b,
  run_of Tcp false [IdleTimer; NewEndpoint false; Reconnect 1; End 1; Close 1; GracefulDone] = Ret b ∧
  wireArmed b = true ∧ ep b = Some 1%nat ∧ e_closed (ep_at 1 b) = true ∧ e_destroyed (ep_at 1 b) = true.
Proof. eexists. split; [vm_compute; reflexivity|]. by split_and!. Qed.
