(* ===== verification/DnsBoot.v ===== *)
(** * The DNS boot protocol (src/scripts/lib/dns-boot.mjs)

    [dnsBootStep] takes a state, an event and the evidence for it, and answers the next
    state with the actions to take, or throws: a pure state machine, translated line by
    line.  The theorems: protected work is admitted only on complete evidence of the
    current boot ([dns_admission_evidence]), the state's fields agree in every history
    ([boot_inv]), and every state but the disabled one can still become active
    ([dns_boot_recoverable]). *)

From S2P Require Import Prelude Bytes JsString.
Local Open Scope Z_scope.
#[local] Unset Default Proof Using.

Inductive boot_phase :=
  | Cold | Guarding | Review | Preparing | Starting | Probing | Selecting
  | Active | Blocked | DisablePreparing | Restoring | Releasing | Disabled.
Inductive journal := Unchecked | Missing | Stale | Current | Released | Corrupt.
Inductive dns_event :=
  | NewBoot | Start | GuardConfirmed | GuardLost | Failure | JournalInspected | AuthorizeNewEpoch
  | IntentCommitted | AdapterBound | Ready | Selected | Retry | Disable | DisableCommitted | Restored
  | GuardRemoved | OtherEvent.
Inductive action :=
  | HoldWorkloadStart | DiscardRuntimeReadiness | InstallBootGuard | ReadDurableIntent | InspectCurrentOwner
  | PreserveJournal | RetainGuard | ManualReview | ResumeCurrentBootRestore | ResumeCurrentBootIntent
  | StartAdapter | SnapshotCurrentBootBaseline | PersistNewEpochIntent | ProbeProtectedUdp | ProbeProtectedTcp
  | ApplyManagedDnsWithJournal | AdmitProtectedWorkload | PersistDisableIntent | RestoreCurrentBootBaseline
  | RemoveGuard | AdmitExplicitBaseline.
Inductive journal_status := SMissing | SValid | SCorrupt.
Inductive intent := Apply | Restore.
(** The keys of the evidence that are compared with [true]. *)
Inductive key :=
  | optIn | guardVerified | contextMatches | operatorApproved | ownedLink | baselineVerified
  | oldJournalPreserved | durable | udpReady | tcpReady | readBackMatches | removalVerified.

#[export] Instance boot_phase_eq_dec : EqDecision boot_phase.
Proof. solve_decision. Defined.
#[export] Instance journal_eq_dec : EqDecision journal.
Proof. solve_decision. Defined.
#[export] Instance dns_event_eq_dec : EqDecision dns_event.
Proof. solve_decision. Defined.
#[export] Instance action_eq_dec : EqDecision action.
Proof. solve_decision. Defined.

(** [None]: the key is missing or has another type. *)
Record Evidence := MkEvidence {
  yes : key → bool;
  e_bootId : option jstr;
  e_status : option journal_status;
  e_journalBootId : option jstr;
  e_released : option bool;
  e_direction : option intent;
}.

Record BootState := MkBoot {
  s_bootId : jstr;
  s_phase : boot_phase;
  s_guard : bool;
  s_admitted : bool;
  s_journal : journal;
}.
#[export] Instance eta_boot : Eta BootState := λ r,
  MkBoot (s_bootId r) (s_phase r) (s_guard r) (s_admitted r) (s_journal r).

Definition ASSERT : js_error := Error "ERR_ASSERTION".
Definition hex_lower (c : Z) : bool := ((48 <=? c) && (c <=? 57)) || ((97 <=? c) && (c <=? 102)).

(** [/^[a-f0-9]{8}(?:-[a-f0-9]{4}){3}-[a-f0-9]{12}$/] *)
Definition uuid (s : jstr) : bool :=
  (length s =? 36)%nat &&
  forallb (λ '(i, c), if bool_decide (i ∈ [8; 13; 18; 23]%nat) then c =? 45 else hex_lower c) (imap pair s).
Definition bootId (id : option jstr) : outcome jstr :=
  match id with Some s => if uuid s then Ret s else Throw ASSERT | None => Throw ASSERT end.

Definition dnsBootInitial (id : option jstr) : outcome BootState :=
  s ← bootId id; Ret (MkBoot s Cold false false Unchecked).

(** [next(phase, actions)]; the extra fields are set by the caller. *)
Definition next (s : BootState) (p : boot_phase) (acts : list action) : outcome (BootState * list action) :=
  Ret ((s <| s_phase := p |>) <| s_admitted := bool_decide (p = Active ∨ p = Disabled) |>, acts).

(** The journal was read. *)
Definition journal_inspected (s : BootState) (ev : Evidence) : outcome (BootState * list action) :=
  match e_status ev with
  | None => Throw ASSERT
  | Some SCorrupt => next (s <| s_journal := Corrupt |>) Blocked [PreserveJournal; ManualReview]
  | Some SMissing => next (s <| s_journal := Missing |>) Review [ManualReview]
  | Some SValid =>
      id ← bootId (e_journalBootId ev);
      if negb (bool_decide (id = s_bootId s)) || negb (yes ev contextMatches) then
        next (s <| s_journal := Stale |>) Review [PreserveJournal; ManualReview]
      else
      match e_released ev with
      | Some true => next (s <| s_journal := Released |>) Review [PreserveJournal; ManualReview]
      | Some false =>
          match e_direction ev with
          | Some Restore => next (s <| s_journal := Current |>) Restoring [ResumeCurrentBootRestore]
          | Some Apply => next (s <| s_journal := Current |>) Starting [ResumeCurrentBootIntent; StartAdapter]
          | None => Throw ASSERT
          end
      | None => Throw ASSERT
      end
  end.

(** The transitions that need the verified guard. *)
Definition guarded_step (s : BootState) (event : dns_event) (ev : Evidence) : outcome (BootState * list action) :=
  let have := forallb (yes ev) in
  match event, s_phase s with
  | JournalInspected, Review => journal_inspected s ev
  | AuthorizeNewEpoch, Review =>
      guard_js (bool_decide (s_journal s ∈ [Missing; Stale; Released])) ASSERT;;
      guard_js (have [operatorApproved; ownedLink; baselineVerified]) ASSERT;;
      guard_js (bool_decide (s_journal s = Missing) || yes ev oldJournalPreserved) ASSERT;;
      next s Preparing [SnapshotCurrentBootBaseline; PersistNewEpochIntent]
  | IntentCommitted, Preparing =>
      guard_js (have [durable; contextMatches]) ASSERT;;
      next (s <| s_journal := Current |>) Starting [StartAdapter]
  | AdapterBound, Starting => next s Probing [ProbeProtectedUdp; ProbeProtectedTcp]
  | Ready, Probing =>
      guard_js (have [udpReady; tcpReady; contextMatches]) ASSERT;; next s Selecting [ApplyManagedDnsWithJournal]
  | Selected, Selecting =>
      guard_js (have [readBackMatches; contextMatches; durable]) ASSERT;; next s Active [AdmitProtectedWorkload]
  | Retry, Blocked => next s Review [InspectCurrentOwner; ReadDurableIntent]
  | Disable, (Active | Blocked) =>
      guard_js (bool_decide (s_journal s = Current)) ASSERT;;
      guard_js (have [operatorApproved; contextMatches]) ASSERT;;
      next s DisablePreparing [HoldWorkloadStart; PersistDisableIntent]
  | DisableCommitted, DisablePreparing =>
      guard_js (have [durable; contextMatches]) ASSERT;; next s Restoring [RestoreCurrentBootBaseline]
  | Restored, Restoring =>
      guard_js (have [readBackMatches; contextMatches; durable]) ASSERT;; next s Releasing [RemoveGuard]
  | GuardRemoved, Releasing =>
      guard_js (yes ev removalVerified) ASSERT;;
      next ((s <| s_guard := false |>) <| s_journal := Released |>) Disabled [AdmitExplicitBaseline]
  | _, _ => Throw (Error "invalid DNS boot transition")
  end.

(** [dnsBootStep] after the checks of the state. *)
Definition boot_event (s : BootState) (event : dns_event) (ev : Evidence) : outcome (BootState * list action) :=
  let guarded :=
    guard_js (s_guard s || bool_decide (s_phase s = Disabled)) ASSERT;;
    guarded_step s event ev in
  match event, s_phase s with
  | NewBoot, _ =>
      id ← bootId (e_bootId ev);
      guard_js (negb (bool_decide (id = s_bootId s))) ASSERT;;
      s' ← dnsBootInitial (Some id);
      Ret (s', [HoldWorkloadStart; DiscardRuntimeReadiness])
  | Start, Cold =>
      guard_js (yes ev optIn) ASSERT;;
      next s Guarding [HoldWorkloadStart; InstallBootGuard]
  | GuardConfirmed, Guarding =>
      guard_js (yes ev guardVerified) ASSERT;;
      next ((s <| s_guard := true |>) <| s_journal := Unchecked |>) Review [ReadDurableIntent; InspectCurrentOwner]
  | (GuardLost | Failure), (Cold | Disabled) => guarded
  | GuardLost, _ => next (s <| s_guard := false |>) Guarding [HoldWorkloadStart; InstallBootGuard]
  | Failure, _ =>
      if negb (s_guard s) then next s Guarding [HoldWorkloadStart; PreserveJournal; InstallBootGuard]
      else next s Blocked [HoldWorkloadStart; PreserveJournal; RetainGuard]
  | _, _ => guarded
  end.

Definition dnsBootStep (s : BootState) (event : dns_event) (ev : Evidence) : outcome (BootState * list action) :=
  bootId (Some (s_bootId s));; boot_event s event ev.

(** ** The scenarios of [dnsBootDryRun] *)

Inductive scenario := Fresh | PreviousBoot | SameBoot | CorruptJournal | AdapterDown | DisableIt | PowerLoss.

Definition first_id : jstr := js "11111111-1111-1111-1111-111111111111".
Definition second_id : jstr := js "22222222-2222-2222-2222-222222222222".

Definition nothing : Evidence := MkEvidence (λ _, false) None None None None None.
#[export] Instance key_eq_dec : EqDecision key.
Proof. solve_decision. Defined.
Definition having (ks : list key) : Evidence := MkEvidence (λ k, bool_decide (k ∈ ks)) None None None None None.
#[export] Instance eta_evidence : Eta Evidence := λ r,
  MkEvidence (yes r) (e_bootId r) (e_status r) (e_journalBootId r) (e_released r) (e_direction r).
Definition valid_journal (id : jstr) (released : option bool) (d : option intent) : Evidence :=
  ((((having [contextMatches]) <| e_status := Some SValid |>) <| e_journalBootId := Some id |>)
    <| e_released := released |>) <| e_direction := d |>.

Definition guard_events : list (dns_event * Evidence) :=
  [(Start, having [optIn]); (GuardConfirmed, having [guardVerified])].

Definition scenario_events (sc : scenario) : list (dns_event * Evidence) :=
  guard_events ++
  match sc with
  | CorruptJournal => [(JournalInspected, nothing <| e_status := Some SCorrupt |>)]
  | PreviousBoot => [(JournalInspected, valid_journal second_id None None)]
  | _ =>
      (match sc with
       | SameBoot => [(JournalInspected, valid_journal first_id (Some false) (Some Apply))]
       | _ => [(JournalInspected, nothing <| e_status := Some SMissing |>);
               (AuthorizeNewEpoch, having [operatorApproved; ownedLink; baselineVerified]);
               (IntentCommitted, having [durable; contextMatches])]
       end) ++
      [(AdapterBound, nothing)] ++
      (match sc with
       | AdapterDown => [(Failure, nothing)]
       | _ =>
           [(Ready, having [udpReady; tcpReady; contextMatches]);
            (Selected, having [readBackMatches; contextMatches; durable])] ++
           (match sc with
            | DisableIt => [(Disable, having [operatorApproved; contextMatches]);
                (DisableCommitted, having [durable; contextMatches]);
                (Restored, having [readBackMatches; contextMatches; durable]);
                (GuardRemoved, having [removalVerified])]
            | PowerLoss => [(NewBoot, nothing <| e_bootId := Some second_id |>)] ++ guard_events ++
                [(JournalInspected, valid_journal first_id None None)]
            | _ => []
            end)
       end)
  end.

(** The states and actions, step by step; an event the machine refuses throws. *)
Fixpoint boot_steps (evs : list (dns_event * Evidence)) (s : BootState) : outcome (list (dns_event * BootState * list action)) :=
  match evs with
  | [] => Ret []
  | (e, ev) :: evs =>
      '(s', acts) ← dnsBootStep s e ev;
      rest ← boot_steps evs s';
      Ret ((e, s', acts) :: rest)
  end.

Definition dnsBootDryRun (sc : scenario) : outcome (list (dns_event * BootState * list action)) :=
  s ← dnsBootInitial (Some first_id); boot_steps (scenario_events sc) s.

(** ** Histories: events the machine refuses leave the state as it is *)

Definition boot_next (s : BootState) (x : dns_event * Evidence) : BootState :=
  match dnsBootStep s x.1 x.2 with Ret (s', _) => s' | Throw _ => s end.
Definition boot_run : list (dns_event * Evidence) → BootState → BootState := flip (foldl boot_next).

(** ** The fields agree *)

Definition admits (p : boot_phase) : bool := match p with Active | Disabled => true | _ => false end.
Definition guarded (p : boot_phase) : bool := match p with Cold | Guarding | Disabled => false | _ => true end.
(** Phases that work on the journal of the current boot. *)
Definition on_journal (p : boot_phase) : bool :=
  match p with Starting | Probing | Selecting | Active | DisablePreparing | Restoring | Releasing => true | _ => false end.

Record boot_inv (s : BootState) : Prop := {
  bi_id : uuid (s_bootId s) = true;
  bi_admitted : s_admitted s = admits (s_phase s);
  bi_guard : s_guard s = guarded (s_phase s);
  bi_journal : on_journal (s_phase s) = true → s_journal s = Current;
  bi_released : s_phase s = Disabled → s_journal s = Released;
}.

Lemma bootId_Ret id x : bootId id = Ret x → id = Some x ∧ uuid x = true.
Proof. unfold bootId. destruct id as [s|]; [|done]. destruct (uuid s) eqn:E; [|done]. by intros [= <-]. Qed.

Lemma bootId_ok s : uuid s = true → bootId (Some s) = Ret s.
Proof. unfold bootId. by intros ->. Qed.

Lemma initial_inv id s : dnsBootInitial id = Ret s → boot_inv s ∧ s_phase s = Cold ∧ id = Some (s_bootId s).
Proof.
  unfold dnsBootInitial. intros (x & [-> Hx]%bootId_Ret & [= <-])%outcome_bind_Ret. split; [|done].
  by constructor.
Qed.

(** Take an accepted step apart: its guards become facts, its result is substituted. *)
Ltac step_in H :=
  lazymatch type of H with
  | Throw _ = Ret _ => discriminate H
  | next _ _ _ = Ret (_, _) => unfold next in H; injection H as <- <-
  | guard_js ?b _ ≫= _ = Ret _ =>
      let G := fresh "G" in destruct b eqn:G; [cbn [guard_js mbind outcome_bind] in H|discriminate H]; step_in H
  | bootId _ ≫= _ = Ret _ =>
      let x := fresh "id" in let B := fresh "B" in
      apply outcome_bind_Ret in H as (x & B & H); apply bootId_Ret in B as [B ?]; step_in H
  | (if ?c then _ else _) = Ret _ => let G := fresh "G" in destruct c eqn:G; step_in H
  | match ?c with _ => _ end = Ret _ => let G := fresh "G" in destruct c eqn:G; step_in H
  | _ => idtac
  end.

(** The evidence that resumes what the journal of this boot intends. *)
Definition resumable (id : jstr) (ev : Evidence) : Prop :=
  e_status ev = Some SValid ∧ e_journalBootId ev = Some id ∧ yes ev contextMatches = true ∧
  e_released ev = Some false ∧ e_direction ev = Some Apply.

Lemma inspected_spec s ev s' acts : journal_inspected s ev = Ret (s', acts) →
  ∃ p j, s' = MkBoot (s_bootId s) p (s_guard s) false j ∧ guarded p = true ∧ (on_journal p = true → j = Current) ∧
    (p = Starting ∧ resumable (s_bootId s) ev ∨ p = Restoring ∨ p = Review ∨ p = Blocked).
Proof.
  unfold journal_inspected. intros H. step_in H; try discriminate H; do 2 eexists;
    (split; [reflexivity|]); (split; [done|]); (split; [done|]); auto 6.
  match goal with G : _ || _ = false |- _ => apply orb_false_iff in G as [E%negb_false_iff%bool_decide_eq_true C%negb_false_iff] end.
  subst. left. by split_and!.
Qed.

Lemma boot_step_inv s e ev s' acts : boot_inv s → dnsBootStep s e ev = Ret (s', acts) →
  boot_inv s' ∧ (e ≠ NewBoot → s_bootId s' = s_bootId s).
Proof.
  intros [Hid Ha Hg Hj Hr] H. unfold dnsBootStep in H. rewrite bootId_ok // ret_bind in H. unfold boot_event in H.
  destruct (decide (e = NewBoot)) as [->|Hne].
  { step_in H. apply outcome_bind_Ret in H as (s0 & Hs0 & [= <- <-]). split; [|done]. by eapply initial_inv. }
  destruct s as [id p g a j]; cbn [s_phase s_guard s_admitted s_journal s_bootId] in *.
  destruct e, p; try done; cbn in H; step_in H; try discriminate H; cbn in *; subst;
    try (apply inspected_spec in H as (p & j' & -> & ? & ? & Hp));
    (split; [constructor; cbn; auto; try (intros X; discriminate X)|done]).
  - by destruct Hp as [[-> _]|[->|[->| ->]]].
  - by intros ->.
  - intros _. by apply bool_decide_eq_true in G0.
Qed.

Lemma boot_next_inv s x : boot_inv s → boot_inv (boot_next s x).
Proof.
  intros H. unfold boot_next. destruct (dnsBootStep s x.1 x.2) as [[s' acts]|] eqn:E; [|done].
  by destruct (boot_step_inv _ _ _ _ _ H E).
Qed.

Lemma boot_run_inv evs : ∀ s, boot_inv s → boot_inv (boot_run evs s).
Proof. induction evs as [|x evs IH]; intros s H; [done|]. by apply IH, boot_next_inv. Qed.

(** ** What was shown to the machine *)

Abbreviation history := (list (dns_event * Evidence)).
Definition shows (ks : list key) (x : dns_event * Evidence) (e : dns_event) : Prop :=
  x.1 = e ∧ Forall (λ k, yes x.2 k = true) ks.

(** Events that undo what came before. *)
Definition interrupts (e : dns_event) : bool := match e with NewBoot | GuardLost | Failure => true | _ => false end.

(** The accepted events since the last interruption. *)
Definition log_next (s : BootState) (log : history) (x : dns_event * Evidence) : history :=
  match dnsBootStep s x.1 x.2 with
  | Ret _ => if interrupts x.1 then [] else log ++ [x]
  | Throw _ => log
  end.
Fixpoint log_of (evs : history) (s : BootState) (log : history) : history :=
  match evs with [] => log | x :: evs => log_of evs (boot_next s x) (log_next s log x) end.

(** Leave to use the journal: it is of this boot and context and intends to apply, or a
    new epoch was approved and committed. *)
Definition permitted (id : jstr) (l : history) : Prop :=
  (∃ j, l = [j] ∧ j.1 = JournalInspected ∧ resumable id j.2) ∨
  (∃ a c, l = [a; c] ∧ shows [operatorApproved; ownedLink; baselineVerified] a AuthorizeNewEpoch ∧
    shows [durable; contextMatches] c IntentCommitted).
(** Leave, adapter bound, both transports ready, selection read back. *)
Definition admission (id : jstr) (l : history) : Prop :=
  ∃ perm b r c, l = perm ++ [b; r; c] ∧ permitted id perm ∧ shows [] b AdapterBound ∧
    shows [udpReady; tcpReady; contextMatches] r Ready ∧ shows [readBackMatches; contextMatches; durable] c Selected.
Definition release (l : history) : Prop :=
  ∃ r v, l = [r; v] ∧ shows [readBackMatches; contextMatches; durable] r Restored ∧ shows [removalVerified] v GuardRemoved.

(** What is behind each phase. *)
Definition behind (id : jstr) (p : boot_phase) (l : history) : Prop :=
  match p with
  | Preparing => ∃ a, l = [a] ∧ shows [operatorApproved; ownedLink; baselineVerified] a AuthorizeNewEpoch
  | Starting => permitted id l
  | Probing => ∃ perm b, l = perm ++ [b] ∧ permitted id perm ∧ shows [] b AdapterBound
  | Selecting => ∃ perm b r, l = perm ++ [b; r] ∧ permitted id perm ∧ shows [] b AdapterBound ∧
      shows [udpReady; tcpReady; contextMatches] r Ready
  | Active => admission id l
  | Releasing => ∃ r, l = [r] ∧ shows [readBackMatches; contextMatches; durable] r Restored
  | Disabled => release l
  | _ => l = []
  end.
Definition backed (s : BootState) (log : history) : Prop :=
  ∃ l, behind (s_bootId s) (s_phase s) l ∧ l `sublist_of` log.

Lemma backed_none s log : behind (s_bootId s) (s_phase s) [] → backed s log.
Proof. intros H. exists []. split; [done|]. apply sublist_nil_l. Qed.

Lemma backed_snoc s s' log x : backed s log →
  (∀ l, behind (s_bootId s) (s_phase s) l → behind (s_bootId s') (s_phase s') (l ++ [x])) → backed s' (log ++ [x]).
Proof. intros (l & Hl & Hs) H. exists (l ++ [x]). split; [by apply H|]. by apply sublist_app. Qed.

Lemma shows_of ks e ev : forallb (yes ev) ks = true → shows ks (e, ev) e.
Proof. intros H. split; [done|]. apply Forall_forall. intros k Hk. rewrite forallb_forall in H. by apply H, list_elem_of_In. Qed.

Lemma log_next_backed s log x : boot_inv s → backed s log → backed (boot_next s x) (log_next s log x).
Proof.
  intros HI HB. unfold boot_next, log_next. destruct x as [e ev]. cbn [fst snd].
  destruct (dnsBootStep s e ev) as [[s' acts]|] eqn:H; [|done].
  pose proof (bi_id _ HI) as Hid. unfold dnsBootStep in H. rewrite bootId_ok // ret_bind in H. unfold boot_event in H.
  destruct (decide (e = NewBoot)) as [->|Hne].
  { step_in H. apply outcome_bind_Ret in H as (s0 & Hs0 & [= <- <-]). by apply initial_inv in Hs0 as (_ & Hp & _);
      apply backed_none; rewrite Hp. }
  destruct s as [id p g a j]; cbn [s_phase s_guard s_admitted s_journal s_bootId] in *.
  destruct e, p; try done; cbn in H; step_in H; try discriminate H; cbn [interrupts];
    try (by apply backed_none).
  { apply inspected_spec in H as (p & j' & -> & _ & _ & [[-> Hr]|[->|[->| ->]]]); try (by apply backed_none).
    eapply backed_snoc; [exact HB|]. cbn. intros l ->. left. by eexists. }
  all: eapply backed_snoc; [exact HB|]; cbn -[forallb].
  - intros l ->. eexists. split; [done|]. by apply shows_of.
  - intros l (a0 & -> & Ha). right. do 2 eexists. split; [done|]. split; [done|]. by apply shows_of.
  - intros l Hl. do 2 eexists. split; [done|]. split; [done|]. by apply shows_of.
  - intros l (perm & b & -> & Hl & Hb). exists perm, b. eexists. rewrite -(assoc_L (++)). split; [done|].
    split; [done|]. split; [done|]. by apply shows_of.
  - intros l (perm & b & r & -> & Hl & Hb & Hr). exists perm, b, r. eexists. rewrite -(assoc_L (++)). split; [done|].
    split; [done|]. split; [done|]. split; [done|]. by apply shows_of.
  - intros l ->. eexists. split; [done|]. by apply shows_of.
  - intros l (r & -> & Hr). do 2 eexists. split; [done|]. split; [done|]. apply shows_of. cbn. by rewrite G0.
Qed.

Lemma log_of_backed evs : ∀ s log, boot_inv s → backed s log → backed (boot_run evs s) (log_of evs s log).
Proof.
  induction evs as [|x evs IH]; intros s log HI HB; [done|]. cbn [log_of].
  apply (IH (boot_next s x)); [by apply boot_next_inv|by apply log_next_backed].
Qed.

(** C27: In every history of the boot protocol, refused events included, protected work is
    admitted only when since the last new boot, lost guard or failure the machine was
    shown: leave to use the journal (it is of this very boot and context, not released,
    and intends to apply; or an operator approved a new epoch on a verified baseline,
    committed durably), the adapter bound, UDP and TCP both ready, and the selection read
    back durably; the guard is then verified and the journal current.  The unprotected
    baseline is admitted only after its restoration was read back and the guard's removal
    verified. *)
Theorem dns_admission_evidence (id : option jstr) s0 (evs : history) :
  dnsBootInitial id = Ret s0 → let s := boot_run evs s0 in s_admitted s = true →
  (s_phase s = Active ∧ s_guard s = true ∧ s_journal s = Current ∧
     ∃ l, admission (s_bootId s) l ∧ l `sublist_of` log_of evs s0 []) ∨
  (s_phase s = Disabled ∧ s_guard s = false ∧ s_journal s = Released ∧
     ∃ l, release l ∧ l `sublist_of` log_of evs s0 []).
Proof.
  intros Hi s Ha. destruct (initial_inv _ _ Hi) as (H0 & Hp & _).
  pose proof (boot_run_inv evs s0 H0) as HI. fold s in HI.
  assert (backed s (log_of evs s0 [])) as (l & Hl & Hs).
  { apply log_of_backed; [done|]. apply backed_none. by rewrite Hp. }
  pose proof (bi_admitted _ HI) as Hadm. pose proof (bi_guard _ HI) as Hg. pose proof (bi_journal _ HI) as Hj.
  rewrite Ha in Hadm. destruct (s_phase s) eqn:E; try done.
  - left. split; [done|]. split; [done|]. split; [by apply Hj|]. by exists l.
  - right. split; [done|]. split; [done|]. split; [by apply (bi_released _ HI)|]. by exists l.
Qed.

(** ** Every state but the disabled one leads to the active one *)

Definition from_review : history :=
  [(JournalInspected, nothing <| e_status := Some SMissing |>);
   (AuthorizeNewEpoch, having [operatorApproved; ownedLink; baselineVerified]);
   (IntentCommitted, having [durable; contextMatches]); (AdapterBound, nothing);
   (Ready, having [udpReady; tcpReady; contextMatches]);
   (Selected, having [readBackMatches; contextMatches; durable])].
Definition to_review (p : boot_phase) : history :=
  match p with
  | Cold => guard_events
  | Guarding => [(GuardConfirmed, having [guardVerified])]
  | Review => []
  | _ => [(Failure, nothing); (Retry, nothing)]
  end.

Lemma boot_run_cons x evs s : boot_run (x :: evs) s = boot_run evs (boot_next s x).
Proof. done. Qed.
Lemma boot_next_ok s e ev s' acts : uuid (s_bootId s) = true → boot_event s e ev = Ret (s', acts) → boot_next s (e, ev) = s'.
Proof. intros Hid H. unfold boot_next, dnsBootStep. by rewrite bootId_ok // ret_bind H. Qed.

(** Run a concrete history on a state whose boot id is valid. *)
Ltac boot_exec Hid :=
  repeat (rewrite boot_run_cons; erewrite boot_next_ok; [|exact Hid|reflexivity]).

Lemma to_review_ok s : boot_inv s → s_phase s ≠ Disabled →
  ∃ a j, boot_run (to_review (s_phase s)) s = MkBoot (s_bootId s) Review true a j.
Proof.
  intros [Hid _ Hg _ _] Hp. destruct s as [id p g a j]. cbn [s_bootId s_phase s_guard] in *. subst g.
  destruct p; try done; cbn [to_review guard_events]; boot_exec Hid; by do 2 eexists.
Qed.

Lemma from_review_ok id a j : uuid id = true →
  boot_run from_review (MkBoot id Review true a j) = MkBoot id Active true true Current.
Proof. intros Hid. unfold from_review. boot_exec Hid. reflexivity. Qed.

Lemma boot_run_app e1 e2 s : boot_run (e1 ++ e2) s = boot_run e2 (boot_run e1 s).
Proof. apply foldl_app. Qed.

(** A disabled state refuses everything but a new boot. *)
Lemma disabled_stays s x : boot_inv s → s_phase s = Disabled → x.1 ≠ NewBoot → boot_next s x = s.
Proof.
  intros [Hid _ _ _ _] Hp Hx. destruct x as [e ev], s as [id p g a j]. cbn [fst s_phase s_bootId] in *. subst p.
  unfold boot_next, dnsBootStep. rewrite bootId_ok // ret_bind. destruct e; try done; by destruct g.
Qed.

(** C28: No history of the boot protocol leads to a dead end: from every state but the
    disabled one at most eight events make protected work admitted within the same boot,
    whatever failed before; the disabled state stays as it is until a new boot. *)
Theorem dns_boot_recoverable (id : option jstr) s0 (evs : history) :
  dnsBootInitial id = Ret s0 → let s := boot_run evs s0 in
  (s_phase s ≠ Disabled → ∃ more, (length more <= 8)%nat ∧
     boot_run more s = MkBoot (s_bootId s) Active true true Current) ∧
  (s_phase s = Disabled → ∀ x, x.1 ≠ NewBoot → boot_next s x = s).
Proof.
  intros Hi s. destruct (initial_inv _ _ Hi) as (H0 & _ & _).
  pose proof (boot_run_inv evs s0 H0) as HI. fold s in HI. split.
  - intros Hp. destruct (to_review_ok s HI Hp) as (a & j & Hr). exists (to_review (s_phase s) ++ from_review). split.
    + by destruct (s_phase s); cbn; lia.
    + rewrite boot_run_app Hr. apply from_review_ok, HI.
  - intros Hp x. by apply disabled_stays.
Qed.

(** ** The scenarios *)

Definition removes_guard (acts : list action) : bool := bool_decide (RemoveGuard ∈ acts).
(** Admission and the guard's removal in one state of a report. *)
Definition conservative (x : dns_event * BootState * list action) : bool :=
  let '(_, s, acts) := x in
  implb (s_admitted s) (bool_decide (s_phase s = Disabled) || (bool_decide (s_phase s = Active) && s_guard s)) &&
  implb (removes_guard acts) (bool_decide (s_phase s = Releasing)).

(** Every scenario runs to its end without an exception, is conservative throughout, and
    admits work at its end only where it should. *)
Lemma dry_run_outcome (sc : scenario) : ∃ steps, dnsBootDryRun sc = Ret steps ∧ forallb conservative steps = true ∧
  (λ x, s_admitted x.1.2) <$> last steps = Some (match sc with Fresh | SameBoot | DisableIt => true | _ => false end).
Proof. destruct sc; (eexists; split; [vm_compute; reflexivity|]); split; vm_compute; reflexivity. Qed.

Lemma dns_admission_evidence_witness : ∃ s0, dnsBootInitial (Some first_id) = Ret s0 ∧
  s_phase (boot_run (scenario_events Fresh) s0) = Active ∧
  ∃ l, admission first_id l ∧ l `sublist_of` log_of (scenario_events Fresh) s0 [].
Proof.
  eexists. split; [vm_compute; reflexivity|]. split; [vm_compute; reflexivity|].
  destruct (dns_admission_evidence (Some first_id) (MkBoot first_id Cold false false Unchecked) (scenario_events Fresh))
    as [(_ & _ & _ & H)|(H & _)]; [vm_compute; reflexivity..|exact H|vm_compute in H; discriminate H].
Defined.

Lemma dns_boot_recoverable_witness : ∃ s0, dnsBootInitial (Some first_id) = Ret s0 ∧
  ∃ more, (length more <= 8)%nat ∧ s_phase (boot_run more (boot_run (scenario_events CorruptJournal) s0)) = Active.
Proof.
  eexists. split; [vm_compute; reflexivity|].
  destruct (dns_boot_recoverable (Some first_id) (MkBoot first_id Cold false false Unchecked) (scenario_events CorruptJournal))
    as [H _]; [vm_compute; reflexivity|]. destruct H as (more & Hl & Hr); [vm_compute; discriminate|].
  exists more. split; [exact Hl|]. exact (f_equal s_phase Hr).
Defined.
