(* ===== verification/TlsReplay.v ===== *)
(** * Admission of encrypted-SNI tokens (src/scripts/lib/transparent-tls-replay.mjs)

    [EncSniReplayGuard] remembers the tokens a relay admitted: [consume] admits a token once,
    within its time window, in a table of bounded size that forgets expired entries.
    [replay_refines]: each answer is that of a specification that remembers every admission
    for ever; [replay_once]: no token is ever admitted twice, though entries are forgotten.
    The clock is an argument of each call ([None]: not a safe integer). *)

From S2P Require Import Prelude JsMap Bytes JsString Effects DnsBoot.
Local Open Scope Z_scope.
#[local] Unset Default Proof Using.

Definition ENC_SNI_TS_WINDOW_MS : Z := 5 * 60 * 1000.
Definition ENC_SNI_REPLAY_MAX_ENTRIES : Z := 65536.
Definition ENC_SNI_REPLAY_RETENTION_MS : Z := 2 * ENC_SNI_TS_WINDOW_MS + 1000.

(** [Number.isSafeInteger] of an integer. *)
Definition MAX_SAFE_INTEGER : Z := 2 ^ 53 - 1.
Definition isSafeInteger (n : Z) : bool := (- MAX_SAFE_INTEGER <=? n) && (n <=? MAX_SAFE_INTEGER).

Definition relayError (code : string) : js_error := Error code.

Record ReplayGuard := MkGuard { g_entries : omap jstr Z; g_lastNow : Z; g_maxEntries : Z }.
#[export] Instance eta_guard : Eta ReplayGuard := λ r, MkGuard (g_entries r) (g_lastNow r) (g_maxEntries r).

Definition replay_new (maxEntries : Z) : outcome ReplayGuard :=
  if negb (isSafeInteger maxEntries) || (maxEntries <? 1) || (ENC_SNI_REPLAY_MAX_ENTRIES <? maxEntries)
  then Throw (relayError "TLS_RELAY_CONFIG") else Ret (MkGuard [] 0 maxEntries).

(** [/^[0-9a-f]{64}$/] *)
Definition replay_id_ok (id : jstr) : bool := (length id =? 64)%nat && forallb hex_lower id.

(** The loop that forgets expired entries: it stops at the first that is not. *)
Fixpoint prune (now : Z) (m : omap jstr Z) : omap jstr Z :=
  match m with
  | (id, expiry) :: rest => if now <? expiry then m else prune now rest
  | [] => []
  end.

(** [issuedAtSeconds] and the clock's answer: [None] for what is not an integer. *)
Definition consume (replayId : jstr) (issuedAtSeconds : option Z) (clock : option Z) : SM ReplayGuard () :=
  match (if replay_id_ok replayId then issuedAtSeconds else None) with
  | None => lift (Throw (relayError "TLS_RELAY_CONFIG"))
  | Some issued =>
      if (issued <? 0) || (0xffffffff <? issued) then lift (Throw (relayError "TLS_RELAY_CONFIG")) else
      g ← get;
      match clock with
      | None => lift (Throw (relayError "TLS_RELAY_REPLAY_CLOCK"))
      | Some now =>
          if negb (isSafeInteger now) || (now <? g_lastNow g) ||
             negb (isSafeInteger (now + ENC_SNI_REPLAY_RETENTION_MS))
          then lift (Throw (relayError "TLS_RELAY_REPLAY_CLOCK")) else
          modify (λ g, g <| g_lastNow := now |>);;
          if ENC_SNI_TS_WINDOW_MS / 1000 <? Z.abs (now / 1000 - issued)
          then lift (Throw (relayError "TLS_RELAY_REPLAY_STALE")) else
          modify (λ g, g <| g_entries ::= prune now |>);;
          g ← get;
          if om_has replayId (g_entries g) then lift (Throw (relayError "TLS_RELAY_REPLAY")) else
          if g_maxEntries g <=? Z.of_nat (om_size (g_entries g)) then lift (Throw (relayError "TLS_RELAY_REPLAY_FULL")) else
          modify (λ g, g <| g_entries ::= om_set replayId (now + ENC_SNI_REPLAY_RETENTION_MS) |>)
      end
  end.

Record Call := MkCall { c_id : jstr; c_issued : option Z; c_clock : option Z }.
Definition consume_call (c : Call) : SM ReplayGuard () := consume (c_id c) (c_issued c) (c_clock c).

(** A history of calls: the answers, and the guard at the end. *)
Fixpoint replay_run (calls : list Call) (g : ReplayGuard) : list (outcome ()) * ReplayGuard :=
  match calls with
  | [] => ([], g)
  | c :: calls =>
      let '(r, g) := consume_call c g in
      let '(rs, g) := replay_run calls g in (r :: rs, g)
  end.

(** ** The specification: it remembers every admission, with its time *)

Record Spec := MkSpec { sp_log : list (jstr * Z); sp_last : Z }.

Definition live (now : Z) (x : jstr * Z) : Prop := now < x.2 + ENC_SNI_REPLAY_RETENTION_MS.
#[export] Instance live_dec now x : Decision (live now x).
Proof. unfold live. apply _. Defined.

Definition metadata_ok (c : Call) : Prop :=
  replay_id_ok (c_id c) = true ∧ match c_issued c with Some i => 0 <= i <= 0xffffffff | None => False end.
#[export] Instance metadata_ok_dec c : Decision (metadata_ok c).
Proof. unfold metadata_ok. destruct (c_issued c); apply _. Defined.
Definition clock_ok (last now : Z) : Prop := last <= now ∧ 0 <= now + MAX_SAFE_INTEGER ∧ now + ENC_SNI_REPLAY_RETENTION_MS <= MAX_SAFE_INTEGER.
#[export] Instance clock_ok_dec last now : Decision (clock_ok last now).
Proof. unfold clock_ok. apply _. Defined.
(** The token's second is at most 300 away. *)
Definition in_window (issued now : Z) : Prop := Z.abs (now / 1000 - issued) <= 300.
#[export] Instance in_window_dec i now : Decision (in_window i now).
Proof. unfold in_window. apply _. Defined.

Definition spec_consume (max : Z) (c : Call) (s : Spec) : outcome () * Spec :=
  if decide (¬ metadata_ok c) then (Throw (relayError "TLS_RELAY_CONFIG"), s) else
  match c_clock c with
  | None => (Throw (relayError "TLS_RELAY_REPLAY_CLOCK"), s)
  | Some now =>
      if decide (¬ clock_ok (sp_last s) now) then (Throw (relayError "TLS_RELAY_REPLAY_CLOCK"), s) else
      let s1 := MkSpec (sp_log s) now in
      if decide (¬ in_window (default 0 (c_issued c)) now) then (Throw (relayError "TLS_RELAY_REPLAY_STALE"), s1) else
      let alive := filter (live now) (sp_log s) in
      if decide (c_id c ∈ alive.*1) then (Throw (relayError "TLS_RELAY_REPLAY"), s1) else
      if decide (max <= Z.of_nat (length alive)) then (Throw (relayError "TLS_RELAY_REPLAY_FULL"), s1) else
      (Ret tt, MkSpec (sp_log s ++ [(c_id c, now)]) now)
  end.

Fixpoint spec_run (max : Z) (calls : list Call) (s : Spec) : list (outcome ()) * Spec :=
  match calls with
  | [] => ([], s)
  | c :: calls =>
      let '(r, s) := spec_consume max c s in
      let '(rs, s) := spec_run max calls s in (r :: rs, s)
  end.

(** ** Refinement *)

Definition entry (x : jstr * Z) : jstr * Z := (x.1, x.2 + ENC_SNI_REPLAY_RETENTION_MS).

(** Times that do not decrease. *)
Fixpoint rising (l : list (jstr * Z)) : Prop :=
  match l with [] => True | x :: l => Forall (λ y, x.2 <= y.2) l ∧ rising l end.

Lemma rising_snoc l x : rising l → Forall (λ y, y.2 <= x.2) l → rising (l ++ [x]).
Proof.
  induction l as [|y l IH]; cbn; [by auto|]. intros [Hy Hl] [Hx Hf]%Forall_cons. split; [|by apply IH].
  apply Forall_app. by split; [|constructor].
Qed.

Lemma rising_filter (P : jstr * Z → Prop) `{∀ x, Decision (P x)} l : rising l → rising (filter P l).
Proof.
  induction l as [|x l IH]; [done|]. intros [Hx Hl]. rewrite filter_cons. case_decide; [|by apply IH].
  split; [|by apply IH].
  apply Forall_forall. intros y [_ Hy]%list_elem_of_filter. by rewrite Forall_forall in Hx; apply Hx.
Qed.

(** The table holds the admissions alive at some time [p] of the past. *)
Definition remembers (s : Spec) (g : ReplayGuard) : Prop :=
  g_lastNow g = sp_last s ∧ rising (sp_log s) ∧ Forall (λ x, x.2 <= sp_last s) (sp_log s) ∧
  ∃ p, p <= sp_last s ∧ g_entries g = map entry (filter (live p) (sp_log s)).

Lemma prune_filter now log : rising log → prune now (map entry log) = map entry (filter (live now) log).
Proof.
  induction log as [|[id t] log IH]; [done|]. intros [Hle Hs]. rewrite filter_cons.
  cbn [map prune entry fst snd]. unfold live at 1. cbn [snd].
  destruct (Z.ltb_spec now (t + ENC_SNI_REPLAY_RETENTION_MS)) as [Hl|Hl].
  - rewrite decide_True //. cbn [map]. do 2 f_equal. symmetry. apply filter_all.
    eapply Forall_impl; [exact Hle|]. intros [i u]. unfold live. cbn. lia.
  - rewrite decide_False; [by apply IH|lia].
Qed.

Lemma filter_live p now (log : list (jstr * Z)) : p <= now → filter (live now) (filter (live p) log) = filter (live now) log.
Proof. intros Hp. apply list_filter_filter_l. intros x. unfold live. lia. Qed.

Lemma entry_keys (l : list (jstr * Z)) : om_keys (map entry l) = l.*1.
Proof. unfold om_keys. rewrite -list_fmap_compose. by apply list_fmap_ext. Qed.

(** The metadata, read the two ways. *)
Lemma metadata_dec c :
  if decide (metadata_ok c) then ∃ i, (if replay_id_ok (c_id c) then c_issued c else None) = Some i ∧
    (i <? 0) || (0xffffffff <? i) = false ∧ c_issued c = Some i
  else match (if replay_id_ok (c_id c) then c_issued c else None) with
    | None => True | Some i => (i <? 0) || (0xffffffff <? i) = true end.
Proof.
  case_decide as H; unfold metadata_ok in H; destruct (replay_id_ok (c_id c)), (c_issued c) as [i|]; try done; try (by destruct H).
  - exists i. split; [done|]. split; [|done]. destruct H. apply orb_false_iff. split; apply Z.ltb_ge; lia.
  - apply orb_true_iff. destruct (Z.ltb_spec i 0); [by left|]. right. apply Z.ltb_lt. 
    destruct (Z.ltb_spec 0xffffffff i); [done|]. destruct H. split; [done|lia].
Qed.

Lemma clock_dec last now : 0 <= last →
  negb (isSafeInteger now) || (now <? last) || negb (isSafeInteger (now + ENC_SNI_REPLAY_RETENTION_MS)) =
  negb (bool_decide (clock_ok last now)).
Proof.
  intros Hl. unfold isSafeInteger, clock_ok, ENC_SNI_REPLAY_RETENTION_MS, ENC_SNI_TS_WINDOW_MS, MAX_SAFE_INTEGER.
  case_bool_decide as H; cbn [negb].
  - rewrite !orb_false_iff !negb_false_iff !andb_true_iff !Z.leb_le Z.ltb_ge. lia.
  - rewrite !orb_true_iff !negb_true_iff !andb_false_iff !Z.leb_gt Z.ltb_lt. lia.
Qed.

Lemma remembers_later s g now : sp_last s <= now → remembers s g →
  remembers (MkSpec (sp_log s) now) (g <| g_lastNow := now |>).
Proof.
  intros Hn (_ & Hr & Hp & p & Hple & He). split; [done|]. split; [done|]. split; [|by exists p; split; [cbn; lia|]].
  eapply Forall_impl; [exact Hp|]. cbn. intros x ?. lia.
Qed.

Lemma remembers_pruned log now g : remembers (MkSpec log now) g →
  g_entries (g <| g_entries ::= prune now |>) = map entry (filter (live now) log) ∧
  remembers (MkSpec log now) (g <| g_entries ::= prune now |>).
Proof.
  intros (Hl & Hr & Hp & p & Hple & He). cbn [sp_last sp_log] in *.
  assert (prune now (g_entries g) = map entry (filter (live now) log)) as Hpr.
  { rewrite He prune_filter; [by rewrite filter_live|by apply rising_filter]. }
  split; [exact Hpr|]. split; [exact Hl|]. split; [done|]. split; [done|]. exists now. split; [done|exact Hpr].
Qed.

Lemma remembers_added id log now g : remembers (MkSpec log now) g →
  g_entries g = map entry (filter (live now) log) → id ∉ (filter (live now) log).*1 →
  remembers (MkSpec (log ++ [(id, now)]) now) (g <| g_entries ::= om_set id (now + ENC_SNI_REPLAY_RETENTION_MS) |>).
Proof.
  intros (Hl & Hr & Hp & _) He Hid. cbn [sp_last sp_log] in *. split; [exact Hl|]. split.
  { by apply rising_snoc. }
  split; [apply Forall_app; split; [done|]; constructor; cbn; [lia|done]|]. exists now. split; [cbn; lia|].
  change (om_set id (now + ENC_SNI_REPLAY_RETENTION_MS) (g_entries g) = map entry (filter (live now) (log ++ [(id, now)]))).
  rewrite He om_set_fresh; last first.
  { apply om_has_false. rewrite -not_true_iff_false om_has_true entry_keys. done. }
  rewrite filter_app filter_cons_True; [by rewrite map_app|].
  unfold live, ENC_SNI_REPLAY_RETENTION_MS, ENC_SNI_TS_WINDOW_MS. cbn. lia.
Qed.

Lemma consume_refines c s g : 0 <= sp_last s → remembers s g →
  let '(r, g') := consume_call c g in let '(r', s') := spec_consume (g_maxEntries g) c s in
  r = r' ∧ remembers s' g' ∧ 0 <= sp_last s' ∧ g_maxEntries g' = g_maxEntries g.
Proof.
  intros H0 HR. pose proof (proj1 HR) as Hlast. unfold consume_call, consume, spec_consume.
  pose proof (metadata_dec c) as Hm. destruct (decide (metadata_ok c)) as [Hok|Hok]; last first.
  { rewrite decide_True //. by destruct (if replay_id_ok (c_id c) then c_issued c else None); [rewrite Hm|]. }
  rewrite decide_False; [|tauto]. destruct Hm as (i & -> & -> & ->). cbn [default].
  unfold mbind at 1, SM_bind at 1, get. destruct (c_clock c) as [now|]; [|done].
  rewrite Hlast clock_dec //. case_bool_decide as Hc; [rewrite (decide_False (P := ¬ clock_ok _ _)); [|tauto]|by rewrite decide_True].
  cbn [negb]. destruct Hc as [Hnow _]. pose proof (remembers_later s g now Hnow HR) as H1.
  unfold mbind at 1, SM_bind at 1, modify. set (g1 := g <| g_lastNow := now |>) in *.
  change (ENC_SNI_TS_WINDOW_MS / 1000) with 300. unfold in_window. change (id i) with i.
  destruct (Z.ltb_spec 300 (Z.abs (now / 1000 - i))) as [Hw|Hw];
    [rewrite decide_True; [|lia]; split; [done|]; split; [exact H1|]; split; [cbn; lia|done]|rewrite decide_False; [|lia]].
  unfold mbind at 1, SM_bind at 1. destruct (remembers_pruned _ _ _ H1) as [He H2].
  set (g2 := g1 <| g_entries ::= prune now |>) in *. unfold mbind, SM_bind.
  assert (om_has (c_id c) (g_entries g2) = bool_decide (c_id c ∈ (filter (live now) (sp_log s)).*1)) as ->.
  { apply eq_true_iff_eq. by rewrite om_has_true bool_decide_eq_true He entry_keys. }
  case_bool_decide as Hin; [rewrite decide_True //; split; [done|]; split; [exact H2|]; split; [cbn; lia|done]|].
  rewrite decide_False //. change (g_maxEntries g2) with (g_maxEntries g).
  assert (om_size (g_entries g2) = length (filter (live now) (sp_log s))) as ->.
  { unfold om_size. by rewrite He length_map. }
  destruct (Z.leb_spec (g_maxEntries g) (Z.of_nat (length (filter (live now) (sp_log s))))) as [Hf|Hf];
    [rewrite decide_True //; split; [done|]; split; [exact H2|]; split; [cbn; lia|done]|].
  rewrite decide_False; [|lia]. split; [done|]. split; [by apply remembers_added|]. split; [cbn; lia|done].
Qed.

Lemma run_refines calls : ∀ s g, 0 <= sp_last s → remembers s g →
  (replay_run calls g).1 = (spec_run (g_maxEntries g) calls s).1 ∧
  remembers (spec_run (g_maxEntries g) calls s).2 (replay_run calls g).2 ∧
  g_maxEntries (replay_run calls g).2 = g_maxEntries g.
Proof.
  induction calls as [|c calls IH]; intros s g H0 HR; [done|]. cbn [replay_run spec_run].
  pose proof (consume_refines c s g H0 HR) as H. destruct (consume_call c g) as [r g1].
  destruct (spec_consume (g_maxEntries g) c s) as [r' s1]. destruct H as (<- & HR1 & H1 & Hm).
  destruct (IH s1 g1 H1 HR1) as (E & R & M). rewrite Hm in E, R, M.
  destruct (replay_run calls g1) as [rs g2], (spec_run (g_maxEntries g) calls s1) as [rs' s2].
  cbn [fst snd] in *. by subst.
Qed.

Lemma new_guard max g : replay_new max = Ret g → g = MkGuard [] 0 max ∧ 1 <= max <= ENC_SNI_REPLAY_MAX_ENTRIES.
Proof.
  unfold replay_new. destruct (negb (isSafeInteger max)); [done|]. cbn [orb].
  destruct (Z.ltb_spec max 1); [done|]. destruct (Z.ltb_spec ENC_SNI_REPLAY_MAX_ENTRIES max); [done|]. by intros [= <-].
Qed.
Lemma remembers_new max : remembers (MkSpec [] 0) (MkGuard [] 0 max).
Proof. split; [done|]. split; [done|]. split; [done|]. by exists 0. Qed.

Lemma prune_size now m : (length (prune now m) <= length m)%nat.
Proof. induction m as [|[id t] m IH]; cbn [prune]; [done|]. case_match; cbn; lia. Qed.

Lemma consume_bounded c g : Z.of_nat (om_size (g_entries g)) <= g_maxEntries g →
  Z.of_nat (om_size (g_entries (consume_call c g).2)) <= g_maxEntries (consume_call c g).2.
Proof.
  intros H. unfold consume_call, consume. destruct (if replay_id_ok _ then _ else _) as [i|]; [|exact H].
  destruct (_ || _); [exact H|]. unfold mbind, SM_bind, get. destruct (c_clock c) as [now|]; [|exact H].
  destruct (_ || _); [exact H|]. unfold modify. destruct (_ <? _); [exact H|].
  pose proof (prune_size now (g_entries g)) as Hp. unfold om_size in H.
  change (g_entries (?g <| g_entries ::= ?f |>)) with (f (g_entries g)).
  destruct (om_has _ _) eqn:Hh; [cbn; unfold om_size; lia|].
  destruct (Z.leb_spec (g_maxEntries g) (Z.of_nat (om_size (prune now (g_entries g))))) as [Hf|Hf].
  { rewrite (proj2 (Z.leb_le _ _)); [|exact Hf]. cbn. unfold om_size. lia. }
  rewrite (proj2 (Z.leb_gt _ _)); [|exact Hf].
  change (Z.of_nat (om_size (om_set (c_id c) (now + ENC_SNI_REPLAY_RETENTION_MS) (prune now (g_entries g)))) <= g_maxEntries g).
  rewrite om_size_set. unfold om_size in *. case_match; lia.
Qed.

Lemma run_bounded calls : ∀ g, Z.of_nat (om_size (g_entries g)) <= g_maxEntries g →
  Z.of_nat (om_size (g_entries (replay_run calls g).2)) <= g_maxEntries (replay_run calls g).2.
Proof.
  induction calls as [|c calls IH]; intros g H; [done|]. cbn [replay_run].
  pose proof (consume_bounded c g H) as H1. destruct (consume_call c g) as [r g1]. specialize (IH g1 H1).
  by destruct (replay_run calls g1).
Qed.

(** ** No token is admitted twice *)

(** The admitted calls, with the time of each. *)
Fixpoint admissions (calls : list Call) (rs : list (outcome ())) : list Call :=
  match calls, rs with
  | c :: calls, Ret _ :: rs => c :: admissions calls rs
  | _ :: calls, Throw _ :: rs => admissions calls rs
  | _, _ => []
  end.

Definition call_in_window (c : Call) : Prop :=
  match c_issued c, c_clock c with Some i, Some now => 0 <= now ∧ in_window i now | _, _ => False end.

Lemma spec_consume_cases max c s : let '(r, s') := spec_consume max c s in
  match r with
  | Ret _ => ∃ i now, c_issued c = Some i ∧ c_clock c = Some now ∧ sp_last s <= now ∧ in_window i now ∧
      Forall (λ x, x.1 = c_id c → ¬ live now x) (sp_log s) ∧ s' = MkSpec (sp_log s ++ [(c_id c, now)]) now
  | Throw _ => sp_log s' = sp_log s ∧ sp_last s <= sp_last s'
  end.
Proof.
  unfold spec_consume. case_decide as Hm; [done|]. destruct (c_clock c) as [now|]; [|done].
  case_decide as Hc; [done|]. assert (sp_last s <= now) as Hn by (destruct (decide (clock_ok (sp_last s) now)) as [[? _]|]; [done|tauto]).
  case_decide as Hw; [done|]. case_decide as Hi; [done|]. case_decide; [done|].
  unfold metadata_ok in Hm. destruct (c_issued c) as [i|]; [|tauto]. exists i, now. split; [done|]. split; [done|]. split; [done|].
  split; [destruct (decide (in_window i now)); [done|tauto]|]. split; [|done].
  apply Forall_forall. intros [id t] Hx Heq Hl. destruct Hi. cbn in Heq. subst id.
  apply (list_elem_of_fmap_2 fst _ (c_id c, t)). by apply list_elem_of_filter.
Qed.

(** A token is out of its window once its entry has expired. *)
Lemma expired_is_stale i t now : in_window i t → t + ENC_SNI_REPLAY_RETENTION_MS <= now → ¬ in_window i now.
Proof.
  unfold in_window, ENC_SNI_REPLAY_RETENTION_MS, ENC_SNI_TS_WINDOW_MS. intros Ht Hn Hw.
  assert (t / 1000 + 601 <= now / 1000); [|lia].
  rewrite -(Z.div_add t 601 1000); [|lia]. apply Z.div_le_mono; lia.
Qed.

(** A token: its id and the second it was issued. *)
Definition token (c : Call) : jstr * option Z := (c_id c, c_issued c).
Definition timed (c : Call) : Prop := ∃ i t, c_issued c = Some i ∧ c_clock c = Some t ∧ in_window i t.
Definition logged (c : Call) : jstr * Z := (c_id c, default 0 (c_clock c)).

(** The admitted calls behind the log. *)
Definition once (acc : list Call) (s : Spec) : Prop :=
  sp_log s = map logged acc ∧ NoDup (map token acc) ∧ Forall timed acc.

Lemma spec_consume_once max c s acc : once acc s →
  let '(r, s') := spec_consume max c s in once (acc ++ match r with Ret _ => [c] | Throw _ => [] end) s'.
Proof.
  intros (Hl & Hnd & Ht). pose proof (spec_consume_cases max c s) as H.
  destruct (spec_consume max c s) as [[[]|e] s']; [|destruct H as [Hl' _]; rewrite app_nil_r; split; [congruence|done]].
  destruct H as (i & now & Hi & Hc & _ & Hw & Hdead & ->). split; [cbn; rewrite Hl map_app /= /logged Hc //|]. split.
  - rewrite map_app. apply NoDup_app. split; [done|]. split; [|apply NoDup_singleton].
    intros x (c' & -> & Hin)%list_elem_of_fmap_1 E%list_elem_of_singleton. injection E as Eid Eis.
    rewrite ->Forall_forall in Ht. destruct (Ht c' Hin) as (i' & t & Hi' & Hc' & Hw'). assert (i' = i) as -> by congruence.
    rewrite Hl Forall_map in Hdead. rewrite ->Forall_forall in Hdead. specialize (Hdead c' Hin Eid). unfold live, logged in Hdead.
    rewrite Hc' in Hdead. cbn in Hdead. apply (expired_is_stale i t now); [done|lia|done].
  - apply Forall_app. split; [done|]. constructor; [|done]. by exists i, now.
Qed.

Lemma spec_run_once max calls : ∀ s acc, once acc s →
  once (acc ++ admissions calls (spec_run max calls s).1) (spec_run max calls s).2.
Proof.
  induction calls as [|c calls IH]; intros s acc Hs; cbn [spec_run admissions fst snd]; [by rewrite app_nil_r|].
  pose proof (spec_consume_once max c s acc Hs) as H. destruct (spec_consume max c s) as [r s1].
  specialize (IH s1 _ H). destruct (spec_run max calls s1) as [rs s2]. cbn [fst snd] in *.
  rewrite -(assoc_L (++)) in IH. by destruct r.
Qed.

Lemma admitted_once max calls g : replay_new max = Ret g → NoDup (map token (admissions calls (replay_run calls g).1)).
Proof.
  intros [-> _]%new_guard. destruct (run_refines calls (MkSpec [] 0) (MkGuard [] 0 max)) as (-> & _ & _);
    [done|apply remembers_new|].
  destruct (spec_run_once max calls (MkSpec [] 0) []) as (_ & Hnd & _); [|exact Hnd].
  split; [done|]. split; [apply NoDup_nil_2|done].
Qed.

(** Whatever the clock does and however full the table gets, no token (an id with the
    second it was issued in) is ever admitted twice, although the guard forgets its
    entries: when an entry expires, its token is out of its window.  So ids that each
    belong to one second, as the hash of an authenticated token does, are admitted once. *)
Theorem replay_once (max : Z) (calls : list Call) g : replay_new max = Ret g →
  let admitted := admissions calls (replay_run calls g).1 in
  NoDup (map token admitted) ∧
  ((∀ c c', c ∈ admitted → c' ∈ admitted → c_id c = c_id c' → c_issued c = c_issued c') → NoDup (map c_id admitted)).
Proof.
  intros Hg admitted. pose proof (admitted_once max calls g Hg) as Hnd. split; [done|]. fold admitted in Hnd.
  intros H. clearbody admitted. induction admitted as [|c l IH]; [apply NoDup_nil_2|]. cbn [map] in *.
  apply NoDup_cons in Hnd as [Hc Hl]. apply NoDup_cons. split; [|apply IH; [done|set_solver]].
  intros (c' & E & Hin)%list_elem_of_fmap_1. apply Hc. rewrite /token E (H c c'); [|by left|by right|done].
  by apply (list_elem_of_fmap_2 token).
Qed.

(** C30: The guard answers every call as the specification that remembers all admissions
    for ever: it admits exactly authentic metadata, at a clock that did not go back, within
    300 seconds of the token's second, if no admission of the same id is younger than 601
    seconds and fewer than [max] are; it otherwise throws the error for the first of these
    that fails.  Its table never holds more than [max] entries. *)
Theorem replay_refines (max : Z) (calls : list Call) g : replay_new max = Ret g →
  (replay_run calls g).1 = (spec_run max calls (MkSpec [] 0)).1 ∧
  Z.of_nat (om_size (g_entries (replay_run calls g).2)) <= max ∧ max <= 65536.
Proof.
  intros [-> [H1 Hm]]%new_guard. destruct (run_refines calls (MkSpec [] 0) (MkGuard [] 0 max)) as (E & _ & M);
    [done|apply remembers_new|].
  split; [exact E|]. split; [|exact Hm]. cbn [g_maxEntries] in M. etrans; [|by apply Z.eq_le_incl].
  apply run_bounded. cbn. lia.
Qed.

(** A token used twice at once, later, and when its entry has expired. *)
Definition token_a : jstr := replicate 64 97.
Definition token_b : jstr := replicate 64 98.
Definition sample_calls : list Call :=
  [MkCall token_a (Some 1300) (Some 1000000); MkCall token_a (Some 1300) (Some 1000001);
   MkCall token_b (Some 1000) (Some 1000002); MkCall token_a (Some 1300) (Some 1600999);
   MkCall token_a (Some 1300) (Some 1601000); MkCall token_b (Some 1000) (Some 1600000)].

Lemma replay_once_witness : ∃ g, replay_new 2 = Ret g ∧
  (replay_run sample_calls g).1 = [Ret (); Throw (relayError "TLS_RELAY_REPLAY"); Ret ();
    Throw (relayError "TLS_RELAY_REPLAY"); Throw (relayError "TLS_RELAY_REPLAY_STALE");
    Throw (relayError "TLS_RELAY_REPLAY_CLOCK")] ∧
  NoDup (map token (admissions sample_calls (replay_run sample_calls g).1)).
Proof.
  eexists. split; [vm_compute; reflexivity|]. split; [vm_compute; reflexivity|].
  by apply (replay_once 2 sample_calls).
Defined.

Lemma replay_refines_witness : ∃ g, replay_new 1 = Ret g ∧
  (replay_run sample_calls g).1 = (spec_run 1 sample_calls (MkSpec [] 0)).1.
Proof.
  eexists. split; [vm_compute; reflexivity|]. by apply (replay_refines 1 sample_calls).
Defined.
