(* ===== verification/Base62.v ===== *)
(** * Base 62 (src/scripts/lib/transparent-tls-enc-sni.mjs)

    [base62Encode] and [base62Decode] convert between bytes and letters by long
    multiplication on little-endian digit arrays, one loop per input digit.
    [base62_roundtrip]: they are inverse to each other on everything that is not all
    zeros; [base62_zeros_grow] shows what they do to zeros. *)

From S2P Require Import Prelude Bytes JsString IpPacket.
Local Open Scope Z_scope.
#[local] Unset Default Proof Using.

Definition BASE62 : jstr := js "0123456789abcdefghijklmnopqrstuvwxyzABCDEFGHIJKLMNOPQRSTUVWXYZ".

(** ** Encoding *)

(** [for (j...) { carry += digits[j] << 8; digits[j] = carry % 62; carry = (carry / 62) | 0 }] *)
Fixpoint encode_digits (digits : list Z) (carry : Z) : list Z * Z :=
  match digits with
  | [] => ([], carry)
  | d :: ds =>
      let carry := carry + int32 (Z.shiftl d 8) in
      let '(ds, c) := encode_digits ds (int32 (Z.quot carry 62)) in
      (Z.rem carry 62 :: ds, c)
  end.

(** [while (carry > 0) { digits.push(carry % 62); carry = (carry / 62) | 0 }] *)
Fixpoint encode_carry (fuel : nat) (carry : Z) : list Z :=
  match fuel with
  | O => []
  | S fuel => if 0 <? carry then Z.rem carry 62 :: encode_carry fuel (int32 (Z.quot carry 62)) else []
  end.

Definition encode_byte (digits : list Z) (byte : Z) : list Z :=
  let '(ds, c) := encode_digits digits byte in ds ++ encode_carry (Z.to_nat c) c.

Fixpoint leading (z : Z) (l : list Z) : nat :=
  match l with x :: l => if x =? z then S (leading z l) else O | [] => O end.

Definition base62_char (d : Z) : Z := default 0 (BASE62 !! Z.to_nat d).

Definition base62Encode (buf : buffer) : jstr :=
  match buf with
  | [] => []
  | _ =>
      let digits := foldl encode_byte [0] buf in
      let out := replicate (leading 0 buf) (base62_char 0) ++ map base62_char (rev digits) in
      match out with [] => [base62_char 0] | _ => out end
  end.

(** ** Decoding *)

(** [BASE62.indexOf(c)] *)
Definition base62_index (c : Z) : option Z :=
  match list_find (λ x, x = c) BASE62 with Some (i, _) => Some (Z.of_nat i) | None => None end.

(** [for (j...) { carry += bytes[j] * 62; bytes[j] = carry & 0xff; carry >>= 8 }] *)
Fixpoint decode_bytes (bytes : list Z) (carry : Z) : list Z * Z :=
  match bytes with
  | [] => ([], carry)
  | b :: bs =>
      let carry := carry + b * 62 in
      let '(bs, c) := decode_bytes bs (Z.shiftr (int32 carry) 8) in
      (Z.land carry 0xff :: bs, c)
  end.

Fixpoint decode_carry (fuel : nat) (carry : Z) : list Z :=
  match fuel with
  | O => []
  | S fuel => if 0 <? carry then Z.land carry 0xff :: decode_carry fuel (Z.shiftr (int32 carry) 8) else []
  end.

Definition decode_char (bytes : list Z) (idx : Z) : list Z :=
  let '(bs, c) := decode_bytes bytes idx in bs ++ decode_carry (Z.to_nat c) c.

Fixpoint decode_loop (str : jstr) (bytes : list Z) : outcome (list Z) :=
  match str with
  | [] => Ret bytes
  | c :: str =>
      match base62_index c with
      | None => Throw (Error "enc-sni: bad base62 char")
      | Some idx => decode_loop str (decode_char bytes idx)
      end
  end.

Definition base62Decode (str : jstr) : outcome buffer :=
  match str with
  | [] => Ret []
  | _ =>
      let zeros := leading (base62_char 0) str in
      bytes ← decode_loop (drop zeros str) [0];
      Ret (buf_alloc zeros ++ rev bytes)
  end.

Example base62_example : base62Encode [0; 1; 255] = js "08f" ∧ base62Decode (js "08f") = Ret [0; 1; 255].
Proof. split; vm_compute; reflexivity. Qed.

(** ** Digits in a base, the least significant first *)

Section digits.
Context (B M : Z) (HB : 2 <= B) (HM : 1 <= M).

Definition digit_in (d : Z) : Prop := 0 <= d < B.
Fixpoint value (ds : list Z) : Z := match ds with [] => 0 | d :: ds => d + B * value ds end.
(** No leading zero, unless the number is zero. *)
Definition normal (ds : list Z) : Prop := Forall digit_in ds ∧ (ds = [0] ∨ ∃ d, last ds = Some d ∧ d ≠ 0).

Fixpoint mul_add (ds : list Z) (c : Z) : list Z * Z :=
  match ds with
  | [] => ([], c)
  | d :: ds => let x := c + d * M in let '(r, c') := mul_add ds (x / B) in (x mod B :: r, c')
  end.
Fixpoint push_carry (fuel : nat) (c : Z) : list Z :=
  match fuel with O => [] | S fuel => if 0 <? c then c mod B :: push_carry fuel (c / B) else [] end.
Definition append_digit (ds : list Z) (c : Z) : list Z :=
  let '(r, c') := mul_add ds c in r ++ push_carry (Z.to_nat c') c'.

Lemma value_nonneg ds : Forall digit_in ds → 0 <= value ds.
Proof. induction 1 as [|d ds [? ?] _ IH]; cbn; [lia|]. nia. Qed.

Lemma value_app ds es : value (ds ++ es) = value ds + B ^ Z.of_nat (length ds) * value es.
Proof.
  induction ds as [|d ds IH]; [cbn; lia|]. cbn [app value length]. rewrite IH Nat2Z.inj_succ Z.pow_succ_r; [|lia]. nia.
Qed.

Lemma mul_add_spec ds : Forall digit_in ds → ∀ c, 0 <= c →
  let '(r, c') := mul_add ds c in
  Forall digit_in r ∧ length r = length ds ∧ 0 <= c' ∧ value r + B ^ Z.of_nat (length r) * c' = value ds * M + c.
Proof.
  induction 1 as [|d ds [Hd _] _ IH]; intros c Hc; cbn [mul_add]; [cbn; repeat split; [constructor|lia|nia]|].
  assert (0 <= c + d * M) as Hx by nia. pose proof (Z.div_pos (c + d * M) B Hx ltac:(lia)) as Hq.
  pose proof (Z.mod_pos_bound (c + d * M) B ltac:(lia)) as Hr. pose proof (Z.div_mod (c + d * M) B ltac:(lia)) as He.
  specialize (IH _ Hq). destruct (mul_add ds _) as [r c']. destruct IH as (H1 & H2 & H3 & H4).
  split; [by constructor|]. split; [cbn; lia|]. split; [done|]. cbn [value length].
  rewrite Nat2Z.inj_succ Z.pow_succ_r; [|lia]. nia.
Qed.

Lemma push_carry_spec n : ∀ c, 0 <= c < Z.of_nat (S n) → Forall digit_in (push_carry n c) ∧ value (push_carry n c) = c ∧
  (0 < c → ∃ d, last (push_carry n c) = Some d ∧ d ≠ 0) ∧ (c = 0 → push_carry n c = []).
Proof.
  induction n as [|n IH]; intros c Hc; cbn [push_carry]; [by repeat split; [constructor|cbn; lia|lia]|].
  destruct (Z.ltb_spec 0 c) as [Hp|Hp]; [|by repeat split; [constructor|cbn; lia|lia]].
  pose proof (Z.mod_pos_bound c B ltac:(lia)) as Hr. pose proof (Z.div_mod c B ltac:(lia)) as He.
  assert (0 <= c / B < c) as Hq by (split; [apply Z.div_pos; lia|apply Z.div_lt; lia]).
  destruct (IH (c / B)) as (H1 & H2 & H3 & H4); [lia|]. split; [by constructor|]. split; [cbn [value]; lia|].
  split; [|lia]. intros _. destruct (Z.eq_dec (c / B) 0) as [E|E].
  - rewrite H4 //. exists (c mod B). split; [done|]. lia.
  - destruct H3 as (d & Hd & Hne); [lia|]. exists d. split; [|done].
    destruct (push_carry n (c / B)) eqn:Ep; [done|]. exact Hd.
Qed.

(** With no carry left, the top digit stays above zero. *)
Lemma mul_add_last ds d : Forall digit_in ds → last ds = Some d → d ≠ 0 → ∀ c, 0 <= c →
  (mul_add ds c).2 = 0 → ∃ e, last (mul_add ds c).1 = Some e ∧ e ≠ 0.
Proof.
  induction 1 as [|x ds Hx Hds IH]; [done|]. intros Hl Hne c Hc. cbn [mul_add].
  assert (0 <= c + x * M) as Hp by (unfold digit_in in Hx; nia). pose proof (Z.div_pos (c + x * M) B Hp ltac:(lia)) as Hq.
  destruct ds as [|y ds].
  - cbn in Hl |- *. injection Hl as ->. intros Hz. exists ((c + d * M) mod B). split; [done|].
    pose proof (Z.div_mod (c + d * M) B ltac:(lia)). unfold digit_in in Hx. nia.
  - specialize (IH Hl Hne ((c + x * M) / B) Hq). pose proof (mul_add_spec (y :: ds) Hds _ Hq) as Hs.
    destruct (mul_add (y :: ds) _) as [r c']. cbn [fst snd] in *. intros Hz. destruct (IH Hz) as (e & He & Hn).
    exists e. split; [|done]. destruct Hs as (_ & Hlen & _). by destruct r.
Qed.

Lemma append_digit_spec ds c : normal ds → 0 <= c →
  normal (append_digit ds c) ∧ value (append_digit ds c) = value ds * M + c.
Proof.
  intros [Hd Hn] Hc. unfold append_digit. pose proof (mul_add_spec ds Hd c ltac:(lia)) as Hs.
  assert ((mul_add ds c).2 = 0 → normal (mul_add ds c).1) as Hz.
  { intros Hz. destruct Hn as [->|(d & Hl & Hne)].
    - cbn in Hz |- *. rewrite Z.add_0_r in Hz |- *. assert (c < B) by (pose proof (Z.div_mod c B); pose proof (Z.mod_pos_bound c B); lia).
      rewrite Z.mod_small; [|lia]. split; [by constructor|].
      destruct (Z.eq_dec c 0) as [->|?]; [by left|]. right. by exists c.
    - split; [by destruct (mul_add ds c); apply Hs|]. right. eapply mul_add_last; eauto; lia. }
  destruct (mul_add ds c) as [r c']. cbn [fst snd] in Hz. destruct Hs as (H1 & H2 & H3 & H4).
  destruct (push_carry_spec (Z.to_nat c') c') as (P1 & P2 & P3 & P4); [lia|]. split.
  - destruct (Z.eq_dec c' 0) as [E|E]; [rewrite P4 // app_nil_r; by apply Hz|].
    split; [by apply Forall_app|]. right. destruct P3 as (d & Hl & Hne); [lia|]. exists d. split; [|done].
    by rewrite last_app Hl.
  - rewrite value_app P2. exact H4.
Qed.

Lemma value_zero ds : Forall digit_in ds → value ds = 0 → Forall (λ d, d = 0) ds.
Proof.
  induction 1 as [|d ds [Hd ?] Hds IH]; [done|]. cbn. intros Hv. pose proof (value_nonneg ds Hds).
  constructor; [nia|]. apply IH. nia.
Qed.

Lemma value_upper ds : Forall digit_in ds → value ds < B ^ Z.of_nat (length ds).
Proof.
  induction 1 as [|d ds [? ?] _ IH]; [cbn; lia|]. cbn [value length]. rewrite Nat2Z.inj_succ Z.pow_succ_r; [nia|lia].
Qed.
Lemma value_lower ds d : Forall digit_in ds → last ds = Some d → d ≠ 0 → B ^ Z.of_nat (length ds) <= B * value ds.
Proof.
  induction 1 as [|x ds [Hx ?] Hds IH]; [done|]. intros Hl Hne. cbn [value length]. rewrite Nat2Z.inj_succ Z.pow_succ_r; [|lia].
  destruct ds as [|y ds].
  - injection Hl as ->. cbn. nia.
  - specialize (IH Hl Hne). nia.
Qed.

(** Numbers have one normal representation. *)
Lemma value_inj ds : ∀ es d e, Forall digit_in ds → Forall digit_in es →
  last ds = Some d → d ≠ 0 → last es = Some e → e ≠ 0 → value ds = value es → ds = es.
Proof.
  induction ds as [|x ds IH]; intros es d e Hds Hes Hd Hdn He Hen Hv; [done|]. destruct es as [|y es]; [done|].
  apply Forall_cons in Hds as [[Hx1 Hx2] Hds], Hes as [[Hy1 Hy2] Hes]. cbn [value] in Hv.
  pose proof (value_nonneg ds Hds). pose proof (value_nonneg es Hes).
  destruct (Z.div_mod_unique B (value ds) (value es) x y) as [Hv' ->]; [by left|by left|lia|].
  destruct ds as [|x' ds], es as [|y' es]; [done|..].
  - exfalso. apply eq_sym, value_zero in Hv'; [|done]. rewrite ->Forall_forall in Hv'.
    apply Hen, Hv'. by apply last_Some_elem_of.
  - exfalso. apply value_zero in Hv'; [|done]. rewrite ->Forall_forall in Hv'.
    apply Hdn, Hv'. by apply last_Some_elem_of.
  - f_equal. by eapply (IH (y' :: es) d e).
Qed.
End digits.

(** ** The two loops are that arithmetic *)

Lemma int32_fits x : 0 <= x < 2 ^ 31 → int32 x = x.
Proof. intros Hx. unfold int32. rewrite Z.mod_small; lia. Qed.

Lemma encode_digits_spec ds : Forall (digit_in 62) ds → ∀ c, 0 <= c < 256 →
  encode_digits ds c = mul_add 62 256 ds c ∧ (mul_add 62 256 ds c).2 < 256.
Proof.
  induction 1 as [|d ds [Hd1 Hd2] _ IH]; intros c Hc; cbn [encode_digits mul_add]; [split; [done|cbn; lia]|].
  rewrite Z.shiftl_mul_pow2 // (int32_fits (d * 2 ^ 8)); [|lia]. change (2 ^ 8) with 256.
  rewrite Z.quot_div_nonneg; [|lia..]. rewrite Z.rem_mod_nonneg; [|lia..].
  assert (0 <= (c + d * 256) / 62 < 256) as Hq by (split; [apply Z.div_pos; lia|apply Z.div_lt_upper_bound; lia]).
  rewrite int32_fits; [|lia]. destruct (IH _ Hq) as [-> Hl]. by destruct (mul_add 62 256 ds _).
Qed.

Lemma encode_carry_spec n : ∀ c, 0 <= c < 2 ^ 31 → encode_carry n c = push_carry 62 n c.
Proof.
  induction n as [|n IH]; intros c Hc; cbn [encode_carry push_carry]; [done|]. destruct (0 <? c); [|done].
  rewrite Z.quot_div_nonneg; [|lia..]. rewrite Z.rem_mod_nonneg; [|lia..].
  assert (0 <= c / 62 < 2 ^ 31) as Hq by (split; [apply Z.div_pos; lia|apply Z.div_lt_upper_bound; lia]).
  rewrite int32_fits // IH //.
Qed.

Lemma encode_byte_spec ds b : normal 62 ds → byte_ok b → encode_byte ds b = append_digit 62 256 ds b.
Proof.
  intros [Hd _] Hb. unfold encode_byte, append_digit. destruct (encode_digits_spec ds Hd b Hb) as [-> Hl].
  pose proof (mul_add_spec 62 256 ltac:(lia) ltac:(lia) ds Hd b ltac:(unfold byte_ok in Hb; lia)) as Hs.
  destruct (mul_add 62 256 ds b) as [r c']. cbn [snd] in Hl. destruct Hs as (_ & _ & ? & _). by rewrite encode_carry_spec; [|lia].
Qed.

Lemma decode_bytes_spec bs : Forall (digit_in 256) bs → ∀ c, 0 <= c < 62 →
  decode_bytes bs c = mul_add 256 62 bs c ∧ (mul_add 256 62 bs c).2 < 62.
Proof.
  induction 1 as [|d ds [Hd1 Hd2] _ IH]; intros c Hc; cbn [decode_bytes mul_add]; [split; [done|cbn; lia]|].
  rewrite int32_fits; [|lia]. rewrite Z.shiftr_div_pow2 // (Z.land_ones _ 8) //. change (2 ^ 8) with 256.
  assert (0 <= (c + d * 62) / 256 < 62) as Hq by (split; [apply Z.div_pos; lia|apply Z.div_lt_upper_bound; lia]).
  destruct (IH _ Hq) as [-> Hl]. by destruct (mul_add 256 62 ds _).
Qed.

Lemma decode_carry_spec n : ∀ c, 0 <= c < 2 ^ 31 → decode_carry n c = push_carry 256 n c.
Proof.
  induction n as [|n IH]; intros c Hc; cbn [decode_carry push_carry]; [done|]. destruct (0 <? c); [|done].
  rewrite int32_fits // Z.shiftr_div_pow2 // (Z.land_ones _ 8) //. change (2 ^ 8) with 256.
  assert (0 <= c / 256 < 2 ^ 31) as Hq by (split; [apply Z.div_pos; lia|apply Z.div_lt_upper_bound; lia]).
  by rewrite IH.
Qed.

Lemma decode_char_spec bs i : normal 256 bs → 0 <= i < 62 → decode_char bs i = append_digit 256 62 bs i.
Proof.
  intros [Hd _] Hi. unfold decode_char, append_digit. destruct (decode_bytes_spec bs Hd i Hi) as [-> Hl].
  pose proof (mul_add_spec 256 62 ltac:(lia) ltac:(lia) bs Hd i ltac:(lia)) as Hs.
  destruct (mul_add 256 62 bs i) as [r c']. cbn [snd] in Hl. destruct Hs as (_ & _ & ? & _). by rewrite decode_carry_spec; [|lia].
Qed.

(** Appending digits one by one, most significant first. *)
Definition to_value (M : Z) (l : list Z) : Z := foldl (λ v x, v * M + x) 0 l.

Lemma to_value_rev M l : to_value M l = value M (rev l).
Proof.
  unfold to_value. induction l as [|x l IH] using rev_ind; [done|]. rewrite foldl_app IH rev_app_distr. cbn. lia.
Qed.

Lemma append_all B M l : 2 <= B → 1 <= M → Forall (λ x, 0 <= x) l → ∀ ds, normal B ds →
  normal B (foldl (append_digit B M) ds l) ∧
  value B (foldl (append_digit B M) ds l) = foldl (λ v x, v * M + x) (value B ds) l.
Proof.
  intros HB HM. induction 1 as [|x l Hx _ IH]; intros ds Hn; [done|]. cbn [foldl].
  destruct (append_digit_spec B M HB HM ds x Hn Hx) as [Hn' Hv]. destruct (IH _ Hn') as [H1 H2]. by rewrite H2 Hv.
Qed.

Lemma normal_zero B : 2 <= B → normal B [0].
Proof. intros HB. split; [constructor; [unfold digit_in; lia|done]|]. by left. Qed.

Lemma encode_fold b : bytes_ok b → ∀ ds, normal 62 ds → foldl encode_byte ds b = foldl (append_digit 62 256) ds b.
Proof.
  induction 1 as [|x b Hx _ IH]; intros ds Hn; [done|]. cbn [foldl]. rewrite encode_byte_spec //. apply IH.
  apply append_digit_spec; [lia|lia|done|]. unfold byte_ok in Hx. lia.
Qed.

Lemma leading_split z l : l = replicate (leading z l) z ++ drop (leading z l) l ∧
  (leading z l <= length l)%nat ∧ head (drop (leading z l) l) ≠ Some z.
Proof.
  induction l as [|x l (IH1 & IH2 & IH3)]; [done|]. cbn [leading]. destruct (Z.eqb_spec x z) as [->|Hne].
  - cbn. split; [by rewrite -IH1|]. split; [lia|done].
  - cbn. split; [done|]. split; [lia|]. by intros [= ?].
Qed.

Lemma leading_app z k l : head l ≠ Some z → leading z (replicate k z ++ l) = k.
Proof.
  intros Hl. induction k as [|k IH]; cbn; [|by rewrite Z.eqb_refl IH].
  destruct l as [|x l]; [done|]. cbn. destruct (Z.eqb_spec x z); [by subst|done].
Qed.

(** *** The alphabet *)

Lemma base62_index_char d : 0 <= d < 62 → base62_index (base62_char d) = Some d.
Proof.
  intros Hd. assert (Forall (λ d, base62_index (base62_char (Z.of_nat d)) = Some (Z.of_nat d)) (seq 0 62)) as H
    by (apply (bool_decide_unpack _); vm_compute; exact I).
  rewrite ->Forall_forall in H. specialize (H (Z.to_nat d)). rewrite Z2Nat.id in H; [|lia]. apply H.
  apply elem_of_seq. lia.
Qed.

Lemma base62_char_index c d : base62_index c = Some d → 0 <= d < 62 ∧ base62_char d = c.
Proof.
  unfold base62_index. destruct (list_find _ BASE62) as [[i x]|] eqn:E; [|done]. intros [= <-].
  apply list_find_Some in E as (Hi & -> & _). split.
  - apply lookup_lt_Some in Hi. change (length BASE62) with 62%nat in Hi. lia.
  - unfold base62_char. by rewrite Nat2Z.id Hi.
Qed.

Lemma base62_zero d : 0 <= d < 62 → base62_char d = base62_char 0 → d = 0.
Proof. intros Hd E. apply (f_equal base62_index) in E. rewrite !base62_index_char in E; [congruence|lia..]. Qed.

Lemma decode_loop_digits l : Forall (digit_in 62) l → ∀ bs, normal 256 bs →
  decode_loop (map base62_char l) bs = Ret (foldl (append_digit 256 62) bs l).
Proof.
  induction 1 as [|d l Hd _ IH]; intros bs Hn; [done|]. cbn [map decode_loop foldl].
  rewrite base62_index_char // decode_char_spec //. apply IH, append_digit_spec; [lia|lia|done|unfold digit_in in Hd; lia].
Qed.

(** ** Both ways *)

(** What one number is in the other base. *)
Lemma convert B M l d : 2 <= B → 2 <= M → Forall (digit_in M) l → head l = Some d → d ≠ 0 →
  let ds := foldl (append_digit B M) [0] l in
  Forall (digit_in B) ds ∧ (∃ e, last ds = Some e ∧ e ≠ 0) ∧ value B ds = value M (rev l).
Proof.
  intros HB HM Hl Hd Hne ds. destruct (append_all B M l HB ltac:(lia)) with (ds := [0]) as [[H1 H2] H3].
  { eapply Forall_impl; [exact Hl|]. unfold digit_in. lia. }
  { by apply normal_zero. }
  fold ds in H1, H2, H3. cbn [value] in H3. rewrite Z.mul_0_r Z.add_0_r -/(to_value M l) to_value_rev in H3.
  split; [done|]. split; [|done]. destruct H2 as [E|?]; [|done]. rewrite E in H3. cbn in H3.
  exfalso. apply Hne. assert (Forall (λ x, x = 0) (rev l)) as Hz.
  { apply (value_zero M); [lia|by apply Forall_rev|lia]. }
  rewrite ->Forall_forall in Hz. apply Hz. apply list_elem_of_In, in_rev. rewrite rev_involutive. destruct l; [done|]. injection Hd as ->. by left.
Qed.

Lemma convert_back B M l d : 2 <= B → 2 <= M → Forall (digit_in M) l → head l = Some d → d ≠ 0 →
  rev (foldl (append_digit M B) [0] (rev (foldl (append_digit B M) [0] l))) = l.
Proof.
  intros HB HM Hl Hd Hne. destruct (convert B M l d HB HM Hl Hd Hne) as (H1 & (e & He & Hen) & Hv).
  set (ds := foldl (append_digit B M) [0] l) in *.
  destruct (convert M B (rev ds) e HM HB) as (G1 & (f & Hf & Hfn) & Gv); [by apply Forall_rev| |done|].
  { destruct ds as [|? ?] using rev_ind; [done|]. rewrite rev_app_distr. by rewrite last_snoc in He. }
  rewrite rev_involutive Hv in Gv.
  rewrite -(rev_involutive l). f_equal. apply (value_inj M HM _ _ f d); [done|by apply Forall_rev|done|done| |done|done].
  destruct l; [done|]. cbn. injection Hd as ->. by rewrite last_snoc.
Qed.

(** Everything after the leading zeros. *)
Lemma nonzero_tail z l x : x ∈ l → x ≠ z → ∃ d r, drop (leading z l) l = d :: r ∧ d ≠ z.
Proof.
  intros Hx Hne. destruct (leading_split z l) as (E & _ & Hh). destruct (drop (leading z l) l) as [|d r].
  - rewrite app_nil_r in E. rewrite E in Hx. apply elem_of_replicate in Hx as [-> _]. done.
  - exists d, r. split; [done|]. intros ->. by apply Hh.
Qed.

Lemma encode_shape b x : bytes_ok b → x ∈ b → x ≠ 0 →
  base62Encode b = replicate (leading 0 b) (base62_char 0) ++
    map base62_char (rev (foldl (append_digit 62 256) [0] (drop (leading 0 b) b))).
Proof.
  intros Hb Hx Hne. unfold base62Encode. destruct b as [|y b]; [by apply not_elem_of_nil in Hx|].
  set (b0 := y :: b) in *. assert (foldl encode_byte [0] b0 = foldl (append_digit 62 256) [0] (drop (leading 0 b0) b0)) as ->.
  { rewrite encode_fold //; [|apply normal_zero; lia]. destruct (leading_split 0 b0) as (E & _ & _). rewrite {1}E foldl_app. f_equal.
    generalize (leading 0 b0). intros k. by induction k. }
  set (out := replicate _ _ ++ _). destruct out eqn:E; [|done].
  apply app_eq_nil in E as [_ E]. apply map_eq_nil in E.
  destruct (nonzero_tail 0 b0 x Hx Hne) as (d & r & Hd & Hdn).
  destruct (convert 62 256 (drop (leading 0 b0) b0) d) as (_ & (e & He & _) & _); [lia|lia|by apply bytes_ok_drop|by rewrite Hd|done|].
  apply (f_equal (@rev Z)) in E. rewrite rev_involutive in E. by rewrite E in He.
Qed.

Lemma encode_decode b : bytes_ok b → (∃ x, x ∈ b ∧ x ≠ 0) → base62Decode (base62Encode b) = Ret b.
Proof.
  intros Hb (x & Hx & Hne). rewrite (encode_shape b x) //. destruct (nonzero_tail 0 b x Hx Hne) as (d & r & Hd & Hdn).
  destruct (leading_split 0 b) as (E & _ & _). set (k := leading 0 b) in *. set (t := drop k b) in *.
  destruct (convert 62 256 t d) as (H1 & (e & He & Hen) & _); [lia|lia|by apply bytes_ok_drop|by rewrite Hd|done|].
  set (ds := foldl _ _ t) in *. assert (head (map base62_char (rev ds)) = Some (base62_char e)) as Hh.
  { destruct ds as [|y ds'] using rev_ind; [done|]. rewrite rev_app_distr. rewrite last_snoc in He. by injection He as ->. }
  unfold base62Decode. destruct (replicate k (base62_char 0) ++ map base62_char (rev ds)) eqn:Es.
  { apply app_eq_nil in Es as [_ Es]. by rewrite Es in Hh. }
  rewrite -Es leading_app; last first.
  { rewrite Hh. intros [= Ez%base62_zero]; [done|]. rewrite ->Forall_forall in H1. apply H1. by apply last_Some_elem_of. }
  rewrite drop_app_exact; [|by rewrite length_replicate].
  rewrite decode_loop_digits; [|by apply Forall_rev|apply normal_zero; lia]. rewrite ret_bind. f_equal.
  rewrite (convert_back 62 256 t d) //; [by apply bytes_ok_drop|by rewrite Hd].
Qed.

(** A letter says less than a byte. *)
Lemma encode_longer b x : bytes_ok b → x ∈ b → x ≠ 0 → (length b <= length (base62Encode b))%nat.
Proof.
  intros Hb Hx Hne. rewrite (encode_shape b x) //. destruct (nonzero_tail 0 b x Hx Hne) as (d & r & Hd & Hdn).
  destruct (leading_split 0 b) as (E & _ & _). set (k := leading 0 b) in *. set (t := drop k b) in *.
  assert (bytes_ok t) as Ht by by apply bytes_ok_drop.
  destruct (convert 62 256 t d) as (H1 & _ & Hv); [lia|lia|done|by rewrite Hd|done|]. set (ds := foldl _ _ t) in *.
  rewrite {1}E !length_app !length_replicate length_map length_rev. apply Nat.add_le_mono_l.
  pose proof (value_upper 62 ltac:(lia) ds H1) as Hu.
  assert (256 ^ Z.of_nat (length t) <= 256 * value 256 (rev t)) as Hlo.
  { rewrite -(length_rev t). apply (value_lower 256 ltac:(lia) (rev t) d); [by apply Forall_rev|by rewrite Hd /= last_snoc|done]. }
  destruct (Nat.le_gt_cases (length t) (length ds)) as [|Hlt]; [done|]. exfalso.
  assert (62 ^ Z.of_nat (length ds) <= 256 ^ Z.of_nat (length ds)) by (apply Z.pow_le_mono_l; lia).
  assert (256 ^ Z.of_nat (S (length ds)) <= 256 ^ Z.of_nat (length t)) as H3 by (apply Z.pow_le_mono_r; lia).
  rewrite Nat2Z.inj_succ Z.pow_succ_r in H3; [|lia]. lia.
Qed.

Lemma base62Decode_eq s : s ≠ [] → base62Decode s =
  (bytes ← decode_loop (drop (leading (base62_char 0) s) s) [0]; Ret (buf_alloc (leading (base62_char 0) s) ++ rev bytes)).
Proof. by destruct s. Qed.

Lemma decode_encode s : Forall (λ c, c ∈ BASE62) s → (∃ c, c ∈ s ∧ c ≠ base62_char 0) →
  ∃ b', bytes_ok b' ∧ base62Decode s = Ret b' ∧ base62Encode b' = s ∧ ∃ x, x ∈ b' ∧ x ≠ 0.
Proof.
  intros Hs (x & Hx & Hne). assert (∃ l, s = map base62_char l ∧ Forall (digit_in 62) l) as (l & -> & Hl).
  { clear x Hx Hne. induction Hs as [|c s Hc _ (l & -> & Hl)]; [by exists []|].
    apply list_elem_of_lookup in Hc as [i Hi]. pose proof (lookup_lt_Some _ _ _ Hi) as Hlt. change (length BASE62) with 62%nat in Hlt.
    exists (Z.of_nat i :: l). split; [|constructor; [unfold digit_in; lia|done]]. cbn. f_equal. unfold base62_char. by rewrite Nat2Z.id Hi. }
  apply list_elem_of_fmap_1 in Hx as (x0 & -> & Hx). assert (x0 ≠ 0) as Hx0 by (by intros ->).
  assert (leading (base62_char 0) (map base62_char l) = leading 0 l) as Hk.
  { clear Hx Hs. induction Hl as [|d l Hd _ IH]; [done|]. cbn [map leading]. destruct (Z.eqb_spec d 0) as [->|Hn]; [by rewrite Z.eqb_refl IH|].
    destruct (Z.eqb_spec (base62_char d) (base62_char 0)) as [E|]; [|done]. by apply base62_zero in E. }
  destruct (nonzero_tail 0 l x0 Hx Hx0) as (d & r & Hd & Hdn). destruct (leading_split 0 l) as (E & Hkl & _).
  set (k := leading 0 l) in *. set (t := drop k l) in *. assert (Forall (digit_in 62) t) as Ht by by apply Forall_drop.
  destruct (convert 256 62 t d) as (H1 & (e & He & Hen) & _); [lia|lia|done|by rewrite Hd|done|].
  pose proof (convert_back 256 62 t d ltac:(lia) ltac:(lia) Ht ltac:(by rewrite Hd) Hdn) as Hback.
  set (bs := foldl _ _ t) in *. assert (head (rev bs) = Some e) as Hh.
  { destruct bs as [|y bs'] using rev_ind; [done|]. rewrite rev_app_distr. rewrite last_snoc in He. by injection He as ->. }
  assert (bytes_ok (buf_alloc k ++ rev bs)) as Hok.
  { apply bytes_ok_app. split; [apply bytes_ok_alloc|]. by apply Forall_rev. }
  assert (e ∈ buf_alloc k ++ rev bs) as Hein.
  { apply elem_of_app. right. destruct (rev bs); [done|]. injection Hh as ->. by left. }
  exists (buf_alloc k ++ rev bs). split; [done|]. split; [|split; [|by exists e]].
  - rewrite base62Decode_eq; [|intros Em; apply map_eq_nil in Em as ->; by apply not_elem_of_nil in Hx].
    rewrite Hk skipn_map. fold t. rewrite decode_loop_digits //. apply normal_zero; lia.
  - rewrite (encode_shape _ e) //.
    assert (leading 0 (buf_alloc k ++ rev bs) = k) as -> by (apply leading_app; rewrite Hh; congruence).
    rewrite drop_app_exact; [|by rewrite length_buf_alloc]. rewrite Hback {1}E map_app. f_equal.
    generalize k; intros n; induction n; cbn; congruence.
Qed.

(** Base 62 is lossless both ways: bytes are read back from their letters, and every
    string of letters is the one its bytes are written as (so two spellings never stand
    for one token), except for those that are all zeros. *)
Theorem base62_roundtrip (b : buffer) (s : jstr) :
  (bytes_ok b → b = [] ∨ (∃ x, x ∈ b ∧ x ≠ 0) → base62Decode (base62Encode b) = Ret b) ∧
  (Forall (λ c, c ∈ BASE62) s → s = [] ∨ (∃ c, c ∈ s ∧ c ≠ base62_char 0) →
    ∃ b', bytes_ok b' ∧ base62Decode s = Ret b' ∧ base62Encode b' = s).
Proof.
  split.
  - intros Hb [->|Hx]; [done|]. by apply encode_decode.
  - intros Hs [->|Hx]; [exists []; split; [constructor|done]|].
    destruct (decode_encode s Hs Hx) as (b' & ? & ? & ? & _). by exists b'.
Qed.

Lemma base62_roundtrip_witness :
  base62Decode (base62Encode [0; 7; 255; 0]) = Ret [0; 7; 255; 0] ∧
  ∃ b, base62Decode (js "0Z9") = Ret b ∧ base62Encode b = js "0Z9".
Proof.
  split.
  - apply (base62_roundtrip [0; 7; 255; 0] []); [apply (bool_decide_unpack _); vm_compute; exact I|].
    right. exists 7. split; [|done]. apply (bool_decide_unpack _). vm_compute. exact I.
  - destruct (proj2 (base62_roundtrip [] (js "0Z9"))) as (b & _ & Hd & He); [apply (bool_decide_unpack _); vm_compute; exact I| |].
    + right. exists 90. split; [apply (bool_decide_unpack _); vm_compute; exact I|by vm_compute].
    + by exists b.
Defined.

(** Zeros alone come back one longer. *)
Example base62_zeros_grow : base62Decode (base62Encode [0]) = Ret [0; 0; 0] ∧ base62Decode (js "0") = Ret [0; 0].
Proof. by split. Qed.

(** ** Different letters are different bytes *)

Lemma decode_loop_letters s : ∀ bs r, decode_loop s bs = Ret r → Forall (λ c, c ∈ BASE62) s.
Proof.
  induction s as [|c s IH]; intros bs r; cbn [decode_loop]; [by constructor|].
  destruct (base62_index c) as [d|] eqn:E; [|done]. intros Hr%IH. constructor; [|done].
  apply base62_char_index in E as [Hd <-]. unfold base62_char.
  destruct (lookup_lt_is_Some_2 BASE62 (Z.to_nat d)) as [x Hx]; [change (length BASE62) with 62%nat; lia|].
  rewrite Hx. by eapply list_elem_of_lookup_2.
Qed.

Lemma base62Decode_letters s b : base62Decode s = Ret b → Forall (λ c, c ∈ BASE62) s.
Proof.
  destruct (decide (s = [])) as [->|Hs]; [by constructor|]. rewrite base62Decode_eq //.
  intros (r & Hr & _)%outcome_bind_Ret. destruct (leading_split (base62_char 0) s) as (E & _ & _). rewrite E.
  apply Forall_app. split; [|by eapply decode_loop_letters]. apply Forall_replicate. apply (bool_decide_unpack _). vm_compute. exact I.
Qed.

Lemma base62Decode_zeros s : s ≠ [] → Forall (λ c, c = base62_char 0) s → base62Decode s = Ret (buf_alloc (S (length s))).
Proof.
  intros Hs Hz. rewrite base62Decode_eq //. assert (leading (base62_char 0) s = length s) as ->.
  { clear Hs. induction Hz as [|c s -> _ IH]; [done|]. cbn [leading length]. by rewrite Z.eqb_refl IH. }
  rewrite drop_all ret_bind /=. f_equal. unfold buf_alloc. by rewrite -replicate_S_end.
Qed.

Lemma zeros_dec s : Forall (λ c, c = base62_char 0) s ∨ ∃ c, c ∈ s ∧ c ≠ base62_char 0.
Proof.
  destruct (decide (Forall (λ c, c = base62_char 0) s)) as [|H]; [by left|]. right.
  apply not_Forall_Exists in H; [|apply _]. by apply Exists_exists in H.
Qed.

(** What the bytes of a string look like. *)
Lemma base62Decode_shape s b : base62Decode s = Ret b →
  (s = [] ∧ b = []) ∨ (s ≠ [] ∧ Forall (λ c, c = base62_char 0) s ∧ b = buf_alloc (S (length s))) ∨
  (base62Encode b = s ∧ ∃ x, x ∈ b ∧ x ≠ 0).
Proof.
  intros H. destruct (decide (s = [])) as [->|Hs]; [left; by injection H as <-|]. right.
  destruct (zeros_dec s) as [Hz|Hx]; [left; rewrite base62Decode_zeros // in H; by injection H as <-|].
  right. destruct (decode_encode s (base62Decode_letters _ _ H) Hx) as (b' & _ & Hb & He & Hx').
  rewrite H in Hb. by injection Hb as ->.
Qed.

Lemma base62Decode_inj s s' b : base62Decode s = Ret b → base62Decode s' = Ret b → s = s'.
Proof.
  intros H%base62Decode_shape H'%base62Decode_shape.
  assert (∀ n x, x ∈ buf_alloc n → x = 0) as Hz by (intros n x Hx; by apply elem_of_replicate in Hx as [-> _]).
  destruct H as [[-> Hb]|[(_ & H1 & Hb)|[<- (x & Hx & Hn)]]], H' as [[-> Hb']|[(_ & H1' & Hb')|[<- (x' & Hx' & Hn')]]]; subst; try done;
    try match goal with
    | H : _ ∈ [] |- _ => by apply not_elem_of_nil in H
    | H : _ ∈ buf_alloc _ |- _ => by apply Hz in H
    end.
  apply (f_equal length) in Hb'. rewrite !length_buf_alloc in Hb'. injection Hb' as Hl.
  apply list_eq_same_length with (n := length s'); [done|done|]. intros i c c' _ Hc Hc'.
  rewrite ->Forall_lookup in H1, H1'. by rewrite (H1 _ _ Hc) (H1' _ _ Hc').
Qed.
