(* ===== verification/TlsEncSni.v ===== *)
(** * Encrypted origin names (src/scripts/lib/transparent-tls-enc-sni.mjs)

    The client of a transparent relay hides the host and port of a connection in the name
    it asks the exit for: [encodeRelayHostname] seals them and writes them as DNS labels,
    [decodeRelayFromHostname] reads them back.  [enc_sni_roundtrip]: the exit finds what
    the client hid, however the public suffix is spelled on the way.  What the exit does
    with it is in TlsRelay.  AES-256-GCM is the class [Aead]; HMAC and SHA-256 are parameters; time, in milliseconds, and the nonce are
    arguments.  [toLowerCase] is that of ASCII text, which host names are. *)

From S2P Require Import Prelude JsMap Bytes JsString Effects Crypto Base62 DnsBoot TlsReplay.
Local Open Scope Z_scope.
#[local] Unset Default Proof Using.

Definition ENC_SNI_VERSION : Z := 2.
Definition ENC_SNI_NONCE_LEN : nat := 12.
Definition ENC_SNI_TAG_LEN : nat := 16.
Definition DNS_LABEL_MAX : nat := 63.
Definition HOSTNAME_MAX : nat := 253.

Definition enc_error (msg : string) : js_error := Error ("enc-sni: " +:+ msg).

(** ** The plaintext *)

Definition host_char (c : Z) : bool :=
  ((0x61 <=? c) && (c <=? 0x7a)) || ((0x30 <=? c) && (c <=? 0x39)) || (c =? 0x2e) || (c =? 0x2d).

Definition assertRelayHostname (h : jstr) : outcome () :=
  if (length h =? 0)%nat || (HOSTNAME_MAX <? length h)%nat then Throw (enc_error "hostname length") else
  if bool_decide (58 ∈ h) || bool_decide (47 ∈ h) || bool_decide (32 ∈ h) then Throw (enc_error "hostname invalid") else
  guard_js (forallb host_char h) (enc_error "hostname non-ascii/idna").

(** [port]: [None] when [Number(port)] is not an integer; [now] is [Date.now()]. *)
Definition buildPlaintext (hostname : jstr) (port : option Z) (now : Z) : outcome buffer :=
  assertRelayHostname hostname;;
  match port with
  | None => Throw (enc_error "bad port")
  | Some p =>
      guard_js (negb ((p <? 1) || (65535 <? p))) (enc_error "bad port");;
      let hostB := utf8_encode hostname in
      guard_js (negb ((length hostB <? 1)%nat || (253 <? length hostB)%nat)) (enc_error "host utf8");;
      let secs := now / 1000 in
      guard_js ((0 <=? secs) && (secs <? 2 ^ 32)) RangeError;;
      Ret ([ENC_SNI_VERSION] ++ be_bytes 4 secs ++ be_bytes 2 p ++ [blen hostB] ++ hostB)
  end.

Record Decoded := MkDecoded { d_hostname : jstr; d_port : Z; d_issuedAtSeconds : Z }.

Definition parsePlaintext (pt : buffer) (now : Z) : outcome Decoded :=
  if (length pt <? 8)%nat then Throw (enc_error "plaintext short") else
  if negb (byte_at 0 pt =? ENC_SNI_VERSION) then
    Throw (enc_error (if byte_at 0 pt =? 1 then "v1 base32hex not supported" else "bad version"))
  else
  issuedAtSeconds ← read_uint 4 1 pt;
  if ENC_SNI_TS_WINDOW_MS / 1000 <? Z.abs (now / 1000 - issuedAtSeconds) then Throw (enc_error "ts_window") else
  port ← read_uint 2 5 pt;
  let hl := byte_at 7 pt in
  if negb (blen pt =? 8 + hl) then Throw (enc_error "plaintext len") else
  let hostname := utf8_decode (subarray 8 (8 + Z.to_nat hl) pt) in
  assertRelayHostname hostname;;
  Ret (MkDecoded hostname port issuedAtSeconds).

(** ** Labels *)

Fixpoint split_labels (fuel : nat) (blob : jstr) : list jstr :=
  match fuel, blob with
  | S fuel, _ :: _ => take DNS_LABEL_MAX blob :: split_labels fuel (drop DNS_LABEL_MAX blob)
  | _, _ => []
  end.
Definition splitDnsLabels (blob : jstr) : list jstr := split_labels (length blob) blob.

Definition buildRelayHostname (encLabels : list jstr) (publicName : jstr) : outcome jstr :=
  let pn := ascii_lower (js_trim publicName) in
  guard_js (negb (length pn =? 0)%nat) (enc_error "publicName required");;
  guard_js (forallb (λ l, negb (length l =? 0)%nat && (length l <=? DNS_LABEL_MAX)%nat) encLabels) (enc_error "label len");;
  let host := js_join 46 (encLabels ++ [pn]) in
  guard_js (length (utf8_encode host) <=? HOSTNAME_MAX)%nat (enc_error "relay SNI too long");;
  Ret host.

(** [s.endsWith(p)] *)
Definition ends_with (p s : jstr) : bool := bool_decide (drop (length s - length p) s = p) && (length p <=? length s)%nat.

Definition parseRelayEncLabels (sni publicName : jstr) : option (list jstr) :=
  let pn := ascii_lower (js_trim publicName) in
  if (length pn =? 0)%nat || (length sni =? 0)%nat then None else
  let suffix := 46 :: pn in
  if negb (ends_with suffix (ascii_lower sni)) then None else
  let prefix := take (length sni - length suffix) sni in
  if (length prefix =? 0)%nat then None else
  let labels := filter (λ l, l ≠ []) (js_split 46 prefix) in
  if (length labels =? 0)%nat then None else
  if negb (forallb (λ l, (length l <=? DNS_LABEL_MAX)%nat) labels) then None else
  Some labels.

Definition looksLikeRelayEncSniHostname (sni publicName : jstr) : bool :=
  bool_decide (is_Some (parseRelayEncLabels sni publicName)).

(** ** Sealing *)

Section enc_sni.
Context `{Aead} (hmacSha256 : buffer → jstr → buffer) (sha256hex : buffer → jstr).

Definition deriveEncSniKey (psk : buffer) : buffer := hmacSha256 psk (js "transparent-tls-enc-sni-v2" ++ [0]).

(** [opts.port ?? 443] *)
Definition encodeRelaySniLabel (psk : buffer) (hostname : jstr) (port : option (option Z)) (now : Z) (nonce : buffer) :
    outcome (list jstr) :=
  let key := deriveEncSniKey psk in
  pt ← buildPlaintext hostname (default (Some 443) port) now;
  guard_js (length key =? 32)%nat RangeError;;
  let '(ct, tag) := seal key nonce pt in
  guard_js (length tag =? ENC_SNI_TAG_LEN)%nat (enc_error "tag len");;
  Ret (splitDnsLabels (base62Encode (nonce ++ ct ++ tag))).

Definition decodeRelaySniLabel (psk : buffer) (labels : list jstr) (now : Z) : outcome (Decoded * jstr) :=
  wire ← base62Decode (concat labels);
  if (length wire <? ENC_SNI_NONCE_LEN + ENC_SNI_TAG_LEN + 8)%nat then Throw (enc_error "wire short") else
  let nonce := subarray 0 ENC_SNI_NONCE_LEN wire in
  let tag := drop (length wire - ENC_SNI_TAG_LEN) wire in
  let ct := subarray ENC_SNI_NONCE_LEN (length wire - ENC_SNI_TAG_LEN) wire in
  let key := deriveEncSniKey psk in
  guard_js (length key =? 32)%nat RangeError;;
  match open key nonce tag ct with
  | None => Throw (Error "Unsupported state or unable to authenticate data")
  | Some pt => parsed ← parsePlaintext pt now; Ret (parsed, sha256hex wire)
  end.

Definition encodeRelayHostname (psk : buffer) (hostname : jstr) (port : option (option Z)) (publicName : jstr)
    (now : Z) (nonce : buffer) : outcome jstr :=
  labels ← encodeRelaySniLabel psk hostname port now nonce;
  buildRelayHostname labels publicName.

(** [{ ok: false }], or what was decoded with the replay id and the labels. *)
Definition decodeRelayFromHostname (sni publicName : jstr) (psk : buffer) (now : Z) : option (Decoded * jstr * list jstr) :=
  match parseRelayEncLabels sni publicName with
  | None => None
  | Some labels =>
      match decodeRelaySniLabel psk labels now with
      | Ret (d, replayId) => Some (d, replayId, labels)
      | Throw _ => None
      end
  end.
End enc_sni.

(** ** The plaintext is read back *)

Lemma host_chars_ascii h : forallb host_char h = true → ascii_str h ∧ Forall (λ c, c ≠ 46 → host_char c = true) h.
Proof.
  intros H. rewrite forallb_forall in H. split; apply Forall_forall; intros c Hc%list_elem_of_In; specialize (H c Hc).
  - unfold host_char in H. rewrite !orb_true_iff !andb_true_iff !Z.leb_le !Z.eqb_eq in H. lia.
  - done.
Qed.

Lemma assertRelayHostname_ok h u : assertRelayHostname h = Ret u →
  ascii_str h ∧ (1 <= length h <= 253)%nat ∧ assertRelayHostname h = Ret ().
Proof.
  unfold assertRelayHostname, HOSTNAME_MAX. destruct (Nat.eqb_spec (length h) 0); [done|].
  destruct (Nat.ltb_spec 253 (length h)); [done|]. cbn [orb]. destruct (_ || _); [done|].
  intros Hg. destruct (forallb host_char h) eqn:E; [|done]. split; [by apply host_chars_ascii|]. split; [lia|done].
Qed.

Lemma plaintext_roundtrip h port now now' pt : buildPlaintext h port now = Ret pt →
  Z.abs (now' / 1000 - now / 1000) <= 300 →
  ∃ p, port = Some p ∧ 1 <= p <= 65535 ∧ parsePlaintext pt now' = Ret (MkDecoded h p (now / 1000)) ∧
    length pt = (8 + length h)%nat ∧ bytes_ok pt ∧ ascii_str h ∧ (1 <= length h <= 253)%nat.
Proof.
  unfold buildPlaintext. intros (u & Hh & H)%outcome_bind_Ret Hw.
  destruct (assertRelayHostname_ok h u Hh) as (Ha & Hl & Hok). destruct port as [p|]; [|done].
  apply outcome_bind_Ret in H as (? & Hp%guard_js_Ret & H). apply outcome_bind_Ret in H as (? & _ & H).
  apply outcome_bind_Ret in H as (? & Hs%guard_js_Ret & H). apply Ret_inj in H as <-. rewrite ascii_encode //.
  apply negb_true_iff, orb_false_iff in Hp as [Hp1%Z.ltb_ge Hp2%Z.ltb_ge].
  apply andb_true_iff in Hs as [Hs1%Z.leb_le Hs2%Z.ltb_lt]. exists p. split; [done|]. split; [lia|].
  split; [|split; [done|split; [|done]]]; last first.
  { rewrite !bytes_ok_app. split; [by repeat constructor|]. split; [apply be_bytes_ok|]. split; [apply be_bytes_ok|].
    split; [constructor; [unfold byte_ok, blen; lia|done]|by apply ascii_bytes_ok]. }
  set (secs := now / 1000) in *. set (pt := [ENC_SNI_VERSION] ++ _).
  assert (read_uint 4 1 pt = Ret secs) as R1 by (apply (read_be_mid 4 secs [2] (be_bytes 2 p ++ [blen h] ++ h)); [done|lia]).
  assert (read_uint 2 5 pt = Ret p) as R2 by (apply (read_be_mid 2 p ([2] ++ be_bytes 4 secs) ([blen h] ++ h)); [done|lia]).
  assert (subarray 8 (8 + Z.to_nat (blen h)) pt = h) as R3.
  { replace pt with (([2] ++ be_bytes 4 secs ++ be_bytes 2 p ++ [blen h]) ++ h ++ []); [|by rewrite app_nil_r].
    apply subarray_mid; [done|]. unfold blen. by rewrite Nat2Z.id. }
  assert (length pt = 8 + length h)%nat as R4 by done.
  unfold parsePlaintext. rewrite R1 R2 !ret_bind (proj2 (Nat.ltb_ge _ _)); [|lia].
  change (byte_at 0 pt) with 2. change (byte_at 7 pt) with (blen h). change (negb (2 =? ENC_SNI_VERSION)) with false.
  change (ENC_SNI_TS_WINDOW_MS / 1000) with 300. rewrite (proj2 (Z.ltb_ge _ _)) //. cbv iota zeta.
  rewrite (proj2 (Z.eqb_eq _ _)); [|unfold blen; lia]. cbn [negb]. by rewrite R3 ascii_decode // Hok.
Qed.

(** ** The labels *)

Lemma split_labels_spec fuel : ∀ blob, (length blob <= fuel)%nat →
  concat (split_labels fuel blob) = blob ∧
  Forall (λ l, (1 <= length l <= 63)%nat ∧ l ⊆ blob) (split_labels fuel blob).
Proof.
  induction fuel as [|fuel IH]; intros blob Hl; [destruct blob; [done|cbn in Hl; lia]|]. destruct blob as [|c blob]; [done|].
  cbn [split_labels]. set (b := c :: blob) in *. assert (0 < length b)%nat as Hb by (cbn; lia).
  destruct (IH (drop DNS_LABEL_MAX b)) as [H1 H2]; [rewrite length_drop /DNS_LABEL_MAX; lia|]. split.
  - cbn [concat]. by rewrite H1 take_drop.
  - constructor.
    + rewrite length_take /DNS_LABEL_MAX. split; [lia|]. apply subseteq_take.
    + eapply Forall_impl; [exact H2|]. intros l [? Hs]. split; [done|]. etrans; [exact Hs|]. apply subseteq_drop.
Qed.

Lemma splitDnsLabels_spec blob : concat (splitDnsLabels blob) = blob ∧
  Forall (λ l, (1 <= length l <= 63)%nat ∧ l ⊆ blob) (splitDnsLabels blob).
Proof. by apply split_labels_spec. Qed.

Lemma split_join c l ls : Forall (λ l, c ∉ l) (l :: ls) → js_split c (js_join c (l :: ls)) = l :: ls.
Proof.
  unfold js_split. revert l. induction ls as [|l2 ls IH]; intros l [Hl Hls]%Forall_cons.
  - cbn. by rewrite (proj2 (js_split_go_none c [] l [] Hl)).
  - change (js_join c (l :: l2 :: ls)) with (l ++ c :: js_join c (l2 :: ls)).
    rewrite (proj1 (js_split_go_none c [] l _ Hl)) IH //.
Qed.

Lemma join_snoc c l ls x : js_join c ((l :: ls) ++ [x]) = js_join c (l :: ls) ++ c :: x.
Proof.
  revert l. induction ls as [|l2 ls IH]; intros l; [done|].
  change (js_join c ((l :: l2 :: ls) ++ [x])) with (l ++ c :: js_join c ((l2 :: ls) ++ [x])).
  change (js_join c (l :: l2 :: ls)) with (l ++ c :: js_join c (l2 :: ls)).
  by rewrite IH -(assoc_L (++)).
Qed.

Lemma join_length c ls : (length (concat ls) <= length (js_join c ls))%nat.
Proof.
  destruct ls as [|l ls]; [done|]. revert l. induction ls as [|l2 ls IH]; intros l; [cbn; rewrite app_nil_r; lia|].
  change (js_join c (l :: l2 :: ls)) with (l ++ c :: js_join c (l2 :: ls)). change (concat (l :: l2 :: ls)) with (l ++ concat (l2 :: ls)).
  rewrite !(length_app l). specialize (IH l2). cbn [length]. lia.
Qed.
Lemma join_ascii ls : ascii_str (concat ls) → ascii_str (js_join 46 ls).
Proof.
  destruct ls as [|l ls]; [done|]. revert l. induction ls as [|l2 ls IH]; intros l.
  - cbn. by rewrite app_nil_r.
  - change (js_join 46 (l :: l2 :: ls)) with (l ++ 46 :: js_join 46 (l2 :: ls)). change (concat (l :: l2 :: ls)) with (l ++ concat (l2 :: ls)).
    intros [Hl Hr]%Forall_app. apply Forall_app. split; [done|]. constructor; [lia|]. by apply IH.
Qed.

Lemma lower_idemp s : ascii_lower (ascii_lower s) = ascii_lower s.
Proof.
  unfold ascii_lower. rewrite -list_fmap_compose. apply list_fmap_ext. intros _ c _. cbn.
  destruct ((65 <=? c) && (c <=? 90)) eqn:E; [|by rewrite E]. bool_to_prop.
  rewrite (proj2 (Z.leb_gt _ 90)) ?andb_false_r //. lia.
Qed.
Lemma lower_app s t : ascii_lower (s ++ t) = ascii_lower s ++ ascii_lower t.
Proof. apply fmap_app. Qed.
Lemma lower_length s : length (ascii_lower s) = length s.
Proof. apply length_fmap. Qed.

(** The labels of a relay name, with the public name in any case. *)
Lemma parse_relay_name l ls publicName suffix :
  let pn := ascii_lower (js_trim publicName) in pn ≠ [] → ascii_lower suffix = pn →
  Forall (λ l, (1 <= length l <= 63)%nat ∧ 46 ∉ l) (l :: ls) →
  parseRelayEncLabels (js_join 46 (l :: ls) ++ 46 :: suffix) publicName = Some (l :: ls).
Proof.
  intros pn Hpn Hs Hls. unfold parseRelayEncLabels. fold pn.
  assert (length suffix = length pn) as Hlen by (by rewrite -Hs lower_length).
  set (pre := js_join 46 (l :: ls)). assert (0 < length pre)%nat as Hpre.
  { apply Forall_cons in Hls as [[[? _] _] _]. unfold pre. destruct ls as [|l2 ls']; [done|]. cbn [js_join]. rewrite length_app. lia. }
  assert (length (pre ++ 46 :: suffix) = (length pre + S (length pn))%nat) as Hl by (rewrite length_app /= Hlen; lia).
  rewrite (proj2 (Nat.eqb_neq (length pn) 0)); [|by destruct pn]. rewrite (proj2 (Nat.eqb_neq (length (pre ++ _)) 0)); [|lia].
  cbn [orb]. assert (ends_with (46 :: pn) (ascii_lower (pre ++ 46 :: suffix)) = true) as ->.
  { unfold ends_with. rewrite lower_length Hl. apply andb_true_iff. split; [|apply Nat.leb_le; cbn; lia].
    apply bool_decide_eq_true. rewrite lower_app drop_app_exact; [change (ascii_lower (46 :: suffix)) with (46 :: ascii_lower suffix); by rewrite Hs|rewrite lower_length; cbn; lia]. }
  cbn [negb]. rewrite take_app_exact; [|rewrite Hl; cbn; lia]. rewrite (proj2 (Nat.eqb_neq (length pre) 0)); [|lia].
  unfold pre. rewrite split_join; [|eapply Forall_impl; [exact Hls|]; by intros ? []].
  rewrite filter_all; [|eapply Forall_impl; [exact Hls|]; cbn; intros [|] [[? _] _]; [cbn in *; lia|done]].
  cbn [length Nat.eqb]. assert (forallb (λ l, (length l <=? DNS_LABEL_MAX)%nat) (l :: ls) = true) as ->; [|done].
  apply forallb_forall. intros x Hx%list_elem_of_In. rewrite ->Forall_forall in Hls. destruct (Hls x Hx) as [[_ ?] _].
  apply Nat.leb_le. done.
Qed.

Section enc_sni.
Context `{Aead} (hmacSha256 : buffer → jstr → buffer) (sha256hex : buffer → jstr).
(** What the digest and the cipher return: 32 bytes, and bytes. *)
Context (hmac_ok : ∀ k m, length (hmacSha256 k m) = 32%nat ∧ bytes_ok (hmacSha256 k m)).
Context (seal_bytes : ∀ k iv p, bytes_ok k → bytes_ok p → bytes_ok (seal k iv p).1 ∧ bytes_ok (seal k iv p).2).

Abbreviation encode_label := (encodeRelaySniLabel hmacSha256).
Abbreviation decode_label := (decodeRelaySniLabel hmacSha256 sha256hex).
Abbreviation encode_name := (encodeRelayHostname hmacSha256).
Abbreviation decode_name := (decodeRelayFromHostname hmacSha256 sha256hex).

Lemma base62_no_dot b : bytes_ok b → (∃ x, x ∈ b ∧ x ≠ 0) → 46 ∉ base62Encode b.
Proof.
  intros Hb Hx Hin. pose proof (base62Decode_letters _ _ (encode_decode b Hb Hx)) as L. rewrite ->Forall_forall in L.
  apply L in Hin. revert Hin. apply (bool_decide_unpack _). vm_compute. exact I.
Qed.

Lemma base62_ascii b : bytes_ok b → (∃ x, x ∈ b ∧ x ≠ 0) → ascii_str (base62Encode b).
Proof.
  intros Hb Hx. pose proof (base62Decode_letters _ _ (encode_decode b Hb Hx)) as L. eapply Forall_impl; [exact L|].
  assert (Forall (λ c, 0 <= c < 0x80) BASE62) as A by (apply (bool_decide_unpack _); vm_compute; exact I).
  rewrite ->Forall_forall in A. intros c Hc. by apply A.
Qed.

(** What was sealed is opened. *)
Lemma label_roundtrip psk h port now now' nonce labels :
  length nonce = 12%nat → bytes_ok nonce → (∃ x, x ∈ nonce ∧ x ≠ 0) → Z.abs (now' / 1000 - now / 1000) <= 300 →
  encode_label psk h port now nonce = Ret labels →
  ∃ p wire, default (Some 443) port = Some p ∧ 1 <= p <= 65535 ∧ labels = splitDnsLabels (base62Encode wire) ∧
    bytes_ok wire ∧ (∃ x, x ∈ wire ∧ x ≠ 0) ∧
    decode_label psk labels now' = Ret (MkDecoded h p (now / 1000), sha256hex wire) ∧ labels ≠ [] ∧
    (length h <= length wire)%nat ∧ ascii_str h ∧ (1 <= length h <= 253)%nat.
Proof.
  intros Hn Hbn (x & Hx & Hx0) Hw. unfold encodeRelaySniLabel. set (key := deriveEncSniKey hmacSha256 psk).
  assert (length key = 32%nat ∧ bytes_ok key) as [Hk Hkb] by apply hmac_ok.
  intros (pt & Hpt & He)%outcome_bind_Ret. destruct (plaintext_roundtrip _ _ _ now' _ Hpt Hw) as (p & Hp & Hpr & Hparse & Hl & Hptb & Hasc & Hh).
  rewrite Hk in He. cbn [guard_js Nat.eqb] in He. rewrite ret_bind in He.
  pose proof (seal_length key nonce pt) as Hlen. pose proof (seal_bytes key nonce pt Hkb Hptb) as Hsb.
  destruct (seal key nonce pt) as [ct tag] eqn:Hseal. cbn [fst snd] in Hlen, Hsb. destruct Hlen as [Hct Htag], Hsb as [Bct Btag].
  rewrite Htag in He. change (guard_js (16 =? ENC_SNI_TAG_LEN)%nat _) with (Ret ()) in He. rewrite ret_bind in He.
  apply Ret_inj in He as <-. set (wire := nonce ++ ct ++ tag).
  assert (bytes_ok wire) as Hwb by (by rewrite /wire !bytes_ok_app).
  assert (∃ x, x ∈ wire ∧ x ≠ 0) as Hwx by (exists x; split; [by apply elem_of_app; left|done]).
  exists p, wire. split; [done|]. split; [done|]. split; [done|]. split; [done|]. split; [done|].
  destruct (splitDnsLabels_spec (base62Encode wire)) as [Hcat _].
  assert (length h <= length wire)%nat as Hhw by (rewrite /wire !length_app; lia). split; [|split; [|done]].
  - unfold decodeRelaySniLabel. rewrite Hcat encode_decode // ret_bind.
    assert (length wire = 28 + length pt)%nat as Hwl by (rewrite /wire !length_app; lia).
    rewrite (proj2 (Nat.ltb_ge _ _)); [|rewrite Hwl /ENC_SNI_NONCE_LEN /ENC_SNI_TAG_LEN; lia].
    assert (subarray 0 ENC_SNI_NONCE_LEN wire = nonce) as -> by (by apply (subarray_mid [] nonce)).
    assert (drop (length wire - ENC_SNI_TAG_LEN) wire = tag) as ->.
    { rewrite /wire (assoc_L (++)). apply drop_app_exact. rewrite !length_app Htag /ENC_SNI_TAG_LEN. lia. }
    assert (subarray ENC_SNI_NONCE_LEN (length wire - ENC_SNI_TAG_LEN) wire = ct) as ->.
    { apply (subarray_mid nonce ct tag); [done|]. rewrite Hwl /ENC_SNI_TAG_LEN. lia. }
    fold key. rewrite Hk. cbn [guard_js Nat.eqb]. rewrite ret_bind (proj2 (open_seal key nonce pt ct tag)) // Hparse. done.
  - intros E. rewrite E in Hcat. cbn in Hcat. pose proof (encode_decode wire Hwb Hwx) as Hd. rewrite -Hcat in Hd.
    injection Hd as <-. destruct Hwx as (y & Hy & _). by apply not_elem_of_nil in Hy.
Qed.

(** What is decoded, however the public suffix is spelled. *)
Lemma name_roundtrip psk h port publicName now now' nonce sni :
  let pn := ascii_lower (js_trim publicName) in
  length nonce = 12%nat → bytes_ok nonce → (∃ x, x ∈ nonce ∧ x ≠ 0) → Z.abs (now' / 1000 - now / 1000) <= 300 →
  encode_name psk h port publicName now nonce = Ret sni →
  (length (utf8_encode sni) <= 253)%nat ∧
  ∃ p wire labels pre, default (Some 443) port = Some p ∧ sni = pre ++ pn ∧
    (∀ suffix, ascii_lower suffix = pn →
      decode_name (pre ++ suffix) publicName psk now' = Some (MkDecoded h p (now / 1000), sha256hex wire, labels)) ∧
    ascii_str pre ∧ (length h <= length pre)%nat ∧ ascii_str h ∧ (1 <= length h <= 253)%nat.
Proof.
  intros pn Hn Hb Hx Hw (labels & Hl & Hname)%outcome_bind_Ret.
  destruct (label_roundtrip psk h port now now' nonce labels Hn Hb Hx Hw Hl) as (p & wire & Hp & _ & El & Hwb & Hwx & Hdec & Hne & Hhw & Hasc & Hh).
  destruct (splitDnsLabels_spec (base62Encode wire)) as [Hcat Hlen]. rewrite -El in Hcat, Hlen.
  unfold buildRelayHostname in Hname. fold pn in Hname.
  apply outcome_bind_Ret in Hname as (? & Hpn%guard_js_Ret & Hname). apply outcome_bind_Ret in Hname as (? & _ & Hname).
  apply outcome_bind_Ret in Hname as (? & Hmax%guard_js_Ret & Hname). apply Ret_inj in Hname as <-.
  split; [by apply Nat.leb_le in Hmax|]. destruct labels as [|l ls]; [done|].
  exists p, wire, (l :: ls), (js_join 46 (l :: ls) ++ [46]). split; [done|]. split; [by rewrite join_snoc -(assoc_L (++))|].
  destruct Hwx as (w0 & Hw0 & Hwn). pose proof (encode_longer wire w0 Hwb Hw0 Hwn) as Hlong.
  pose proof (base62_ascii wire Hwb (ex_intro _ w0 (conj Hw0 Hwn))) as Ha. rewrite -Hcat in Hlong, Ha.
  assert (∃ x, x ∈ wire ∧ x ≠ 0) as Hwx by by exists w0.
  split; [|split; [apply Forall_app; split; [by apply join_ascii|by repeat constructor]|split; [|done]]]; last first.
  { rewrite length_app. pose proof (join_length 46 (l :: ls)). lia. }
  intros suffix Hs. rewrite -(assoc_L (++)). change ([46] ++ suffix) with (46 :: suffix).
  unfold decodeRelayFromHostname. rewrite parse_relay_name; [by rewrite Hdec| |done|].
  - fold pn. intros E. by rewrite E in Hpn.
  - eapply Forall_impl; [exact Hlen|]. intros lab [? Hsub]. split; [done|]. intros Hin%Hsub. by apply (base62_no_dot wire).
Qed.

(** C29: A name made for a host and port is decoded, within 300 seconds of its making, to
    that host (in its own letters), that port and the second it was made, however the
    public suffix is spelled by what relays the name; it is a name of at most 253 bytes,
    and the nonce need only have a byte that is not zero. *)
Theorem enc_sni_roundtrip psk h port publicName now now' nonce sni :
  length nonce = 12%nat → bytes_ok nonce → (∃ x, x ∈ nonce ∧ x ≠ 0) → Z.abs (now' / 1000 - now / 1000) <= 300 →
  encodeRelayHostname hmacSha256 psk h port publicName now nonce = Ret sni →
  (length (utf8_encode sni) <= 253)%nat ∧
  ∃ p id labels, default (Some 443) port = Some p ∧
    decodeRelayFromHostname hmacSha256 sha256hex sni publicName psk now' = Some (MkDecoded h p (now / 1000), id, labels) ∧
    ∀ suffix, ascii_lower suffix = ascii_lower (js_trim publicName) →
      decodeRelayFromHostname hmacSha256 sha256hex (take (length sni - length suffix) sni ++ suffix) publicName psk now' =
        Some (MkDecoded h p (now / 1000), id, labels).
Proof.
  intros Hn Hb Hx Hw He. destruct (name_roundtrip psk h port publicName now now' nonce sni Hn Hb Hx Hw He)
    as (Hl & p & wire & labels & pre & Hp & -> & Hd & _).
  split; [done|]. exists p, (sha256hex wire), labels. split; [done|]. split; [apply Hd, lower_idemp|].
  intros suffix Hs. rewrite take_app_exact; [by apply Hd|].
  assert (length suffix = length (ascii_lower (js_trim publicName))) as -> by (by rewrite -Hs lower_length). rewrite length_app. lia.
Qed.
End enc_sni.

(** A concrete digest, for the witnesses. *)
Definition toy_hmac (k : buffer) (m : jstr) : buffer := replicate 32 (be_value k mod 256).
Definition toy_sha256hex (b : buffer) : jstr := replicate 64 97.
Lemma toy_hmac_ok k m : length (toy_hmac k m) = 32%nat ∧ bytes_ok (toy_hmac k m).
Proof. split; [done|]. apply Forall_replicate, Z.mod_pos_bound. lia. Qed.
Lemma toy_seal_bytes k iv p : bytes_ok k → bytes_ok p → bytes_ok (toy_seal k iv p).1 ∧ bytes_ok (toy_seal k iv p).2.
Proof.
  intros Hk Hp. split; [done|]. apply Forall_take, Forall_app. split; [done|]. by apply Forall_replicate.
Qed.

Lemma enc_sni_roundtrip_witness : let psk := replicate 32 9 in let nonce := replicate 12 5 in ∃ sni,
  @encodeRelayHostname toy_aead toy_hmac psk (js "example.org") None (js " Relay.Example ") 1000000 nonce = Ret sni ∧
  ∃ id labels, @decodeRelayFromHostname toy_aead toy_hmac toy_sha256hex sni (js " Relay.Example ") psk 1299000 =
    Some (MkDecoded (js "example.org") 443 1000, id, labels).
Proof.
  intros psk nonce.
  assert (∃ sni, @encodeRelayHostname toy_aead toy_hmac psk (js "example.org") None (js " Relay.Example ") 1000000 nonce = Ret sni)
    as [sni Hs] by (eexists; vm_compute; reflexivity).
  exists sni. split; [exact Hs|].
  destruct (@enc_sni_roundtrip toy_aead toy_hmac toy_sha256hex toy_hmac_ok toy_seal_bytes psk (js "example.org") None
    (js " Relay.Example ") 1000000 1299000 nonce sni) as [_ (p & id & labels & [= <-] & Hd & _)].
  - reflexivity.
  - by repeat constructor.
  - exists 5. split; [by left|done].
  - vm_compute. discriminate.
  - exact Hs.
  - exists id, labels. exact Hd.
Defined.
