(* ===== verification/TlsHello.v ===== *)
(** * The first ClientHello of a TLS stream (src/scripts/lib/tls-clienthello-ja3.mjs)

    [parseFirstTlsClientHelloFromTcpBuf] reads the TLS records at the head of a stream up to
    the first whole ClientHello, and [parseTlsClientHelloReadableExtensions] its names,
    protocols and versions.  The lemmas say what a parse that succeeds shows of the bytes:
    the stream is records ([rec_wire]) whose payloads start with the hello, and the hello's
    extension block is extensions ([ext_wire]); and conversely that such bytes parse.
    [short_hello_throws]: a body of exactly 34 bytes, which the length check admits, makes
    the session id's length [undefined] and the next read throw. *)

From S2P Require Import Prelude Bytes JsString.
Local Open Scope Z_scope.
#[local] Unset Default Proof Using.

Definition TLS_MUX_MAX_CLIENT_BUF : Z := 512 * 1024.

(** [{ ok: false, reason }] or a value. *)
Inductive answer (A : Type) := Refused (reason : string) | Accepted (a : A).
Arguments Refused {A} reason.
Arguments Accepted {A} a.

(** [b.readUInt16BE(off)] where a test before it shows that it is in range. *)
Definition u16_at (off : nat) (b : buffer) : nat := Z.to_nat (be_value (subarray off (off + 2) b)).
Definition u8_at (off : nat) (b : buffer) : nat := Z.to_nat (byte_at off b).

(** The fixed part, to the position of the length of the extensions.  A body of 34 bytes
    passes the first test: [ch[34]] is [undefined], every later position [NaN], every
    comparison with it false, and [readUInt16BE(NaN)] throws. *)
Definition hello_offset (ch : buffer) : outcome (answer nat) :=
  if (length ch <? 34)%nat then Ret (Refused "short_ch") else
  match ch !! 34%nat with
  | None => Throw RangeError
  | Some sidLen =>
      let o := (35 + Z.to_nat sidLen)%nat in
      if (length ch <? o + 2)%nat then Ret (Refused "short_ch2") else
      let o := (o + 2 + u16_at o ch)%nat in
      if (length ch <? o + 1)%nat then Ret (Refused "short_ch3") else
      let o := (o + 1 + u8_at o ch)%nat in
      if (length ch <? o + 2)%nat then Ret (Refused "short_ch4") else
      Ret (Accepted o)
  end.

(** ** Extensions *)

Record Exts := MkExts { x_sni : list jstr; x_alpn : list jstr; x_supportedVersions : list Z }.

(** The three loops over the data [ed] of an extension. *)
Fixpoint sni_names (fuel : nat) (ed : buffer) (so : nat) (listLen : Z) : list jstr :=
  match fuel with
  | O => []
  | S fuel =>
      if (so + 3 <=? length ed)%nat && (3 <=? listLen) then
        let nt := byte_at so ed in let nl := u16_at (so + 1) ed in
        if (length ed <? so + 3 + nl)%nat then [] else
        (if nt =? 0 then [utf8_decode (subarray (so + 3) (so + 3 + nl) ed)] else []) ++
        sni_names fuel ed (so + 3 + nl) (listLen - (3 + Z.of_nat nl))
      else []
  end.

Fixpoint alpn_names (fuel : nat) (ed : buffer) (ao : nat) (listLen : Z) : list jstr :=
  match fuel with
  | O => []
  | S fuel =>
      if (ao + 1 <=? length ed)%nat && (0 <? listLen) then
        let pl := u8_at ao ed in
        if (length ed <? ao + 1 + pl)%nat then [] else
        utf8_decode (subarray (ao + 1) (ao + 1 + pl) ed) ::
        alpn_names fuel ed (ao + 1 + pl) (listLen - (1 + Z.of_nat pl))
      else []
  end.

Fixpoint version_list (fuel : nat) (ed : buffer) (pos last : nat) : list Z :=
  match fuel with
  | O => []
  | S fuel =>
      if (pos + 1 <? last)%nat then Z.of_nat (u16_at pos ed) :: version_list fuel ed (pos + 2) last else []
  end.

(** What one extension adds. *)
Definition ext_read (et : nat) (ed : buffer) (x : Exts) : Exts :=
  if (et =? 0)%nat && (2 <=? length ed)%nat then
    MkExts (x_sni x ++ sni_names (length ed) ed 2 (Z.of_nat (u16_at 0 ed))) (x_alpn x) (x_supportedVersions x)
  else if (et =? 16)%nat && (2 <=? length ed)%nat then
    MkExts (x_sni x) (x_alpn x ++ alpn_names (length ed) ed 2 (Z.of_nat (u16_at 0 ed))) (x_supportedVersions x)
  else if (et =? 43)%nat && (1 <=? length ed)%nat then
    MkExts (x_sni x) (x_alpn x)
      (x_supportedVersions x ++ version_list (length ed) ed 1 (Nat.min (length ed) (1 + u8_at 0 ed)))
  else x.

Fixpoint ext_loop (fuel : nat) (extBlock : buffer) (eo : nat) (x : Exts) : answer Exts :=
  match fuel with
  | S fuel =>
      if (eo + 4 <=? length extBlock)%nat then
        let et := u16_at eo extBlock in let el := u16_at (eo + 2) extBlock in
        if (length extBlock <? eo + 4 + el)%nat then Refused "ext_length_overflow" else
        ext_loop fuel extBlock (eo + 4 + el) (ext_read et (subarray (eo + 4) (eo + 4 + el) extBlock) x)
      else if negb (eo =? length extBlock)%nat then Refused "ext_trailing_or_skipped_bytes" else Accepted x
  | O => Refused ""
  end.

Definition parseTlsClientHelloReadableExtensions (ch : buffer) : outcome (answer Exts) :=
  o ← hello_offset ch;
  match o with
  | Refused reason => Ret (Refused reason)
  | Accepted o =>
      let extLen := u16_at o ch in
      if (length ch <? o + 2 + extLen)%nat then Ret (Refused "short_ext") else
      let extBlock := subarray (o + 2) (o + 2 + extLen) ch in
      Ret (ext_loop (S (length extBlock)) extBlock 0 (MkExts [] [] []))
  end.

(** ** Records *)

Record Hello := MkHello { h_exts : Exts; h_bytesConsumed : nat; h_clientHelloBody : buffer }.
Inductive Parse := NeedMore (minTotal : nat) | NotHello (reason : string) | IsHello (h : Hello).

(** The loop over records: [payloads] is their concatenation so far, [hdr] the bytes of the
    handshake header so far. *)
Fixpoint record_loop (fuel : nat) (buf : buffer) (offset : nat) (payloads hdr : buffer) : outcome Parse :=
  match fuel with
  | O => Throw RangeError
  | S fuel =>
      if (length buf - offset <? 5)%nat then Ret (NeedMore (offset + 5)) else
      if negb (byte_at offset buf =? 0x16) then
        Ret (NotHello (if (offset =? 0)%nat then "not_tls_handshake" else "non_handshake_record"))
      else
      let recLen := u16_at (offset + 3) buf in
      let recordEnd := (offset + 5 + recLen)%nat in
      if (recLen <? 1)%nat || (TLS_MUX_MAX_CLIENT_BUF <? Z.of_nat recordEnd) then Ret (NotHello "record_oversize") else
      if (length buf <? recordEnd)%nat then Ret (NeedMore recordEnd) else
      let payload := subarray (offset + 5) recordEnd buf in
      let payloads := payloads ++ payload in
      let hdr := hdr ++ take (4 - length hdr) payload in
      if (length hdr <? 4)%nat then record_loop fuel buf recordEnd payloads hdr else
      if negb (byte_at 0 hdr =? 1) then Ret (NotHello "not_client_hello") else
      let totalHs := (4 + Z.to_nat (be_value (subarray 1 4 hdr)))%nat in
      if (length payloads <? totalHs)%nat then record_loop fuel buf recordEnd payloads hdr else
      let ch := subarray 4 totalHs payloads in
      ext ← parseTlsClientHelloReadableExtensions ch;
      Ret match ext with
          | Refused reason => NotHello reason
          | Accepted x => IsHello (MkHello x recordEnd ch)
          end
  end.

Definition parseFirstTlsClientHelloFromTcpBuf (buf : buffer) : outcome Parse :=
  if (TLS_MUX_MAX_CLIENT_BUF <? blen buf) then Ret (NotHello "buffer_max") else
  if (length buf <? 5)%nat then Ret (NeedMore 5) else
  if negb (byte_at 0 buf =? 0x16) then Ret (NotHello "not_tls_handshake") else
  record_loop (S (length buf)) buf 0 [] [].

(** ** Two-byte lengths *)

Abbreviation be2 n := (be_bytes 2 (Z.of_nat n)).

Lemma u16_at_next off b n r : drop off b = be2 n ++ r → Z.of_nat n < 65536 →
  u16_at off b = n ∧ drop (off + 2) b = r.
Proof.
  intros Hd Hn. unfold u16_at. rewrite (subarray_next off 2 b _ _ Hd) ?length_be_bytes // be_value_bytes; [|lia].
  split; [lia|]. eapply drop_next; [exact Hd|]. by rewrite length_be_bytes.
Qed.

Lemma u16_at_split off b : bytes_ok b → (off + 2 <= length b)%nat →
  drop off b = be2 (u16_at off b) ++ drop (off + 2) b ∧ Z.of_nat (u16_at off b) < 65536.
Proof.
  intros Hb Hl. unfold u16_at. pose proof (bytes_ok_subarray off (off + 2) b Hb) as Hs.
  pose proof (length_subarray off (off + 2) b Hl) as Hsl. pose proof (be_value_range _ Hs) as Hr.
  rewrite Hsl in Hr. replace (off + 2 - off)%nat with 2%nat in Hr, Hsl by lia. change (256 ^ Z.of_nat 2) with 65536 in Hr.
  split; [|lia]. rewrite Z2Nat.id; [|lia]. rewrite be_bytes_value // subarray_plus -drop_drop take_drop. done.
Qed.

Lemma subarray_split a b (l : buffer) : (a <= b <= length l)%nat → drop a l = subarray a b l ++ drop b l.
Proof. intros Hl. unfold subarray. rewrite -{1}(take_drop (b - a) (drop a l)) drop_drop. do 2 f_equal. lia. Qed.

(** ** The extension block *)

Definition ext_enc (x : nat * buffer) : buffer := be2 x.1 ++ be2 (length x.2) ++ x.2.
Definition ext_wire (l : list (nat * buffer)) : buffer := concat (map ext_enc l).
Definition ext_ok (x : nat * buffer) : Prop := Z.of_nat x.1 < 65536 ∧ blen x.2 < 65536.
Definition exts_read (l : list (nat * buffer)) (x : Exts) : Exts := fold_left (λ x e, ext_read e.1 e.2 x) l x.

Lemma ext_wire_app l k : ext_wire (l ++ k) = ext_wire l ++ ext_wire k.
Proof. unfold ext_wire. by rewrite map_app concat_app. Qed.
Lemma ext_enc_length x : length (ext_enc x) = (4 + length x.2)%nat.
Proof. unfold ext_enc. rewrite !length_app !length_be_bytes. lia. Qed.
Lemma ext_wire_length l : (4 * length l <= length (ext_wire l))%nat.
Proof. induction l as [|x l IH]; [done|]. unfold ext_wire in *. cbn [map concat length]. rewrite length_app ext_enc_length. lia. Qed.

(** The head of what is left of a block. *)
Lemma ext_step b eo x l : drop eo b = ext_wire (x :: l) → ext_ok x →
  (eo + 4 <= length b)%nat ∧ u16_at eo b = x.1 ∧ u16_at (eo + 2) b = length x.2 ∧
  (eo + 4 + length x.2 <= length b)%nat ∧ subarray (eo + 4) (eo + 4 + length x.2) b = x.2 ∧
  drop (eo + 4 + length x.2) b = ext_wire l.
Proof.
  intros Hd [Ht Hx]. pose proof (f_equal length Hd) as Hl. change (ext_wire (x :: l)) with (ext_enc x ++ ext_wire l) in *.
  rewrite length_drop length_app ext_enc_length in Hl. unfold ext_enc in Hd. rewrite -!(assoc_L (++)) in Hd.
  destruct (u16_at_next _ _ _ _ Hd Ht) as [-> Hd1]. destruct (u16_at_next _ _ _ _ Hd1 Hx) as [-> Hd2].
  replace (eo + 2 + 2)%nat with (eo + 4)%nat in Hd2 by lia.
  split; [lia|]. split; [done|]. split; [done|]. split; [lia|]. split; [by eapply subarray_next|].
  by eapply drop_next.
Qed.

Lemma ext_loop_wire fuel : ∀ l b eo x, (length l < fuel)%nat → Forall ext_ok l → (eo <= length b)%nat → drop eo b = ext_wire l →
  ext_loop fuel b eo x = Accepted (exts_read l x).
Proof.
  induction fuel as [|fuel IH]; intros l b eo x Hf Hok Hle Hd; [lia|]. cbn [ext_loop]. destruct l as [|e l].
  - pose proof (f_equal length Hd) as Hl. rewrite length_drop in Hl. change (length (ext_wire [])) with 0%nat in Hl.
    rewrite (proj2 (Nat.leb_gt _ _)); [|lia]. by rewrite (proj2 (Nat.eqb_eq _ _)); [|lia].
  - apply Forall_cons in Hok as [He Hok]. destruct (ext_step b eo e l Hd He) as (H1 & -> & -> & H2 & -> & Hd').
    rewrite (proj2 (Nat.leb_le _ _)) // (proj2 (Nat.ltb_ge _ _)) //.
    change (exts_read (e :: l) x) with (exts_read l (ext_read e.1 e.2 x)). apply IH; [cbn in Hf; lia|done|lia|done].
Qed.

Lemma ext_loop_inv fuel : ∀ b eo x r, bytes_ok b → (eo <= length b)%nat → ext_loop fuel b eo x = Accepted r →
  ∃ l, drop eo b = ext_wire l ∧ Forall ext_ok l ∧ r = exts_read l x.
Proof.
  induction fuel as [|fuel IH]; intros b eo x r Hb Hle; [done|]. cbn [ext_loop].
  destruct (Nat.leb_spec (eo + 4) (length b)) as [H1|H1].
  - destruct (Nat.ltb_spec (length b) (eo + 4 + u16_at (eo + 2) b)) as [H2|H2]; [done|].
    intros (l & Hd & Hok & ->)%IH; [|done|done]. set (ed := subarray _ _ b) in *.
    destruct (u16_at_split eo b Hb) as [D1 L1]; [lia|]. destruct (u16_at_split (eo + 2) b Hb) as [D2 L2]; [lia|].
    assert (length ed = u16_at (eo + 2) b) as Hed by (unfold ed; rewrite length_subarray; lia).
    exists ((u16_at eo b, ed) :: l). split; [|split; [|done]].
    + rewrite D1 D2. change (ext_wire (_ :: l)) with (ext_enc (u16_at eo b, ed) ++ ext_wire l). unfold ext_enc. cbn [fst snd].
      rewrite Hed -Hd -!(assoc_L (++)). do 2 f_equal. replace (eo + 2 + 2)%nat with (eo + 4)%nat by lia.
      apply subarray_split. lia.
    + constructor; [split; cbn [fst snd]; unfold blen; [done|by rewrite Hed]|done].
  - destruct (Nat.eqb_spec eo (length b)) as [->|]; [|done]. intros [= <-]. exists []. by rewrite drop_all.
Qed.

(** ** The fixed part depends on what precedes the extensions only *)

Lemma subarray_take a b o (l X : buffer) : (b <= o <= length l)%nat → subarray a b (take o l ++ X) = subarray a b l.
Proof.
  intros Hb. unfold subarray. destruct (Nat.le_gt_cases b a); [by replace (b - a)%nat with 0%nat by lia|].
  rewrite drop_app_le; [|rewrite length_take; lia]. rewrite take_app_le; [|rewrite length_drop length_take; lia].
  rewrite -{2}(take_drop o l) drop_app_le; [|rewrite length_take; lia]. rewrite take_app_le; [done|].
  rewrite length_drop length_take; lia.
Qed.
Lemma lookup_take_app i o (l X : buffer) : (i < o <= length l)%nat → (take o l ++ X) !! i = l !! i.
Proof. intros H. rewrite lookup_app_l; [|rewrite length_take; lia]. apply lookup_take_lt. lia. Qed.
Lemma u16_at_take off o (l X : buffer) : (off + 2 <= o <= length l)%nat → u16_at off (take o l ++ X) = u16_at off l.
Proof. intros H. unfold u16_at. by rewrite subarray_take. Qed.
Lemma u8_at_take off o (l X : buffer) : (off < o <= length l)%nat → u8_at off (take o l ++ X) = u8_at off l.
Proof. intros H. unfold u8_at, byte_at. by rewrite lookup_take_app. Qed.

(** The positions of the walk. *)
Lemma hello_offset_inv ch o : hello_offset ch = Ret (Accepted o) → ∃ sid, ch !! 34%nat = Some sid ∧
  let o1 := (35 + Z.to_nat sid)%nat in let o2 := (o1 + 2 + u16_at o1 ch)%nat in
  o = (o2 + 1 + u8_at o2 ch)%nat ∧ (o + 2 <= length ch)%nat.
Proof.
  unfold hello_offset. destruct (Nat.ltb_spec (length ch) 34); [done|]. destruct (ch !! 34%nat) as [sid|]; [|done].
  cbv zeta. do 3 (case_match; [done|]). intros E. injection E as <-. exists sid. split; [done|]. split; [done|].
  by apply Nat.ltb_ge.
Qed.

Lemma hello_offset_prefix ch o X : hello_offset ch = Ret (Accepted o) → (2 <= length X)%nat →
  hello_offset (take o ch ++ X) = Ret (Accepted o).
Proof.
  intros (sid & Hsid & Ho & Hl)%hello_offset_inv HX. cbv zeta in Ho. unfold hello_offset.
  assert (length (take o ch ++ X) = o + length X)%nat as HL by (rewrite length_app length_take; lia).
  rewrite HL (proj2 (Nat.ltb_ge _ _)); [|lia]. rewrite lookup_take_app; [|lia]. rewrite Hsid. cbv zeta.
  rewrite (proj2 (Nat.ltb_ge _ _)); [|lia]. rewrite u16_at_take; [|lia].
  rewrite (proj2 (Nat.ltb_ge _ _)); [|lia]. rewrite u8_at_take; [|lia].
  rewrite (proj2 (Nat.ltb_ge _ _)); [|lia]. by rewrite -Ho.
Qed.

(** A body that parses: a fixed part, the extensions, and what follows them. *)
Definition hello_body (H : buffer) (l : list (nat * buffer)) (T : buffer) : buffer :=
  H ++ be2 (length (ext_wire l)) ++ ext_wire l ++ T.
Definition fixed_part (H : buffer) : Prop := ∀ X, (2 <= length X)%nat → hello_offset (H ++ X) = Ret (Accepted (length H)).
Definition block_ok (l : list (nat * buffer)) : Prop := Forall ext_ok l ∧ blen (ext_wire l) < 65536.

Lemma hello_body_offset H l T : fixed_part H → hello_offset (hello_body H l T) = Ret (Accepted (length H)).
Proof. intros HH. apply HH. rewrite !length_app length_be_bytes. lia. Qed.

Lemma hello_body_block H l T : block_ok l →
  u16_at (length H) (hello_body H l T) = length (ext_wire l) ∧
  subarray (length H + 2) (length H + 2 + length (ext_wire l)) (hello_body H l T) = ext_wire l.
Proof.
  intros [_ Hl]. unfold hello_body.
  destruct (u16_at_next (length H) (H ++ be2 (length (ext_wire l)) ++ ext_wire l ++ T) (length (ext_wire l)) (ext_wire l ++ T))
    as [-> Hd]; [by rewrite drop_app_length|done|].
  split; [done|]. by eapply subarray_next.
Qed.

Lemma parse_hello_body H l T : fixed_part H → block_ok l →
  parseTlsClientHelloReadableExtensions (hello_body H l T) = Ret (Accepted (exts_read l (MkExts [] [] []))).
Proof.
  intros HH Hb. unfold parseTlsClientHelloReadableExtensions. rewrite hello_body_offset // ret_bind.
  destruct (hello_body_block H l T Hb) as [-> ->]. rewrite (proj2 (Nat.ltb_ge _ _)); [|unfold hello_body; rewrite !length_app length_be_bytes; lia].
  rewrite (ext_loop_wire _ l); [done| |apply Hb|lia|done]. pose proof (ext_wire_length l). lia.
Qed.

Lemma parse_hello_inv ch x : bytes_ok ch → parseTlsClientHelloReadableExtensions ch = Ret (Accepted x) →
  ∃ H l T, ch = hello_body H l T ∧ fixed_part H ∧ block_ok l ∧ x = exts_read l (MkExts [] [] []).
Proof.
  intros Hb. unfold parseTlsClientHelloReadableExtensions. intros ([r|o] & Ho & Hx)%outcome_bind_Ret; [done|].
  destruct (hello_offset_inv ch o Ho) as (_ & _ & _ & Hl). cbv zeta in Hx.
  destruct (u16_at_split o ch Hb Hl) as [D L]. set (n := u16_at o ch) in *.
  destruct (Nat.ltb_spec (length ch) (o + 2 + n)) as [|Hn]; [done|]. apply Ret_inj in Hx.
  apply ext_loop_inv in Hx as (l & Hd & Hok & ->); [|by apply bytes_ok_subarray|lia].
  change (drop 0 ?y) with y in Hd. assert (length (ext_wire l) = n) as Hlen by (rewrite -Hd length_subarray; lia).
  exists (take o ch), l, (drop (o + 2 + n) ch). split; [|split; [|split; [split; [done|unfold blen; lia]|done]]].
  - unfold hello_body. rewrite Hlen -Hd -{1}(take_drop o ch) D. do 2 f_equal. apply subarray_split. lia.
  - intros X HX. rewrite hello_offset_prefix // length_take. do 2 f_equal. lia.
Qed.

(** ** Records

    A record: its first three bytes (the type, 22, and the version) and its payload. *)

Definition rec_enc (r : buffer * buffer) : buffer := r.1 ++ be2 (length r.2) ++ r.2.
Definition rec_wire (rs : list (buffer * buffer)) : buffer := concat (map rec_enc rs).
Definition rec_payload (rs : list (buffer * buffer)) : buffer := concat (map snd rs).
Definition rec_ok (r : buffer * buffer) : Prop :=
  (length r.1 = 3%nat ∧ head r.1 = Some 0x16) ∧ (1 <= length r.2)%nat ∧ blen r.2 < 65536.

(** The total is reached with the last record, not before. *)
Fixpoint minimal (have total : nat) (rs : list (buffer * buffer)) : Prop :=
  match rs with
  | [] => False
  | r :: rs => if (have + length r.2 <? total)%nat then minimal (have + length r.2) total rs else rs = []
  end.

(** The bytes of a handshake message. *)
Definition handshake (ch extra : buffer) : buffer := 1 :: be_bytes 3 (blen ch) ++ ch ++ extra.

Lemma rec_enc_length r : length r.1 = 3%nat → length (rec_enc r) = (5 + length r.2)%nat.
Proof. intros H. unfold rec_enc. rewrite !length_app length_be_bytes. lia. Qed.

Lemma rec_step buf off r rs tail : drop off buf = rec_wire (r :: rs) ++ tail → rec_ok r →
  (off + 5 + length r.2 <= length buf)%nat ∧ byte_at off buf = 0x16 ∧ u16_at (off + 3) buf = length r.2 ∧
  subarray (off + 5) (off + 5 + length r.2) buf = r.2 ∧ drop (off + 5 + length r.2) buf = rec_wire rs ++ tail.
Proof.
  intros Hd ([Hh Ht] & _ & Hr). pose proof (f_equal length Hd) as Hl.
  change (rec_wire (r :: rs)) with (rec_enc r ++ rec_wire rs) in *. rewrite length_drop (length_app (_ ++ _)) (length_app (rec_enc r)) (rec_enc_length r Hh) in Hl.
  unfold rec_enc in Hd. rewrite -!(assoc_L (++)) in Hd. pose proof (drop_next off 3 buf _ _ Hd Hh) as Hd1.
  destruct (u16_at_next _ _ _ _ Hd1 Hr) as [-> Hd2]. replace (off + 3 + 2)%nat with (off + 5)%nat in Hd2 by lia.
  split; [lia|]. split; [|split; [done|split; [by eapply subarray_next|by eapply drop_next]]].
  destruct r.1 as [|b h]; [done|]. injection Ht as ->. by eapply (byte_next off buf).
Qed.

Lemma handshake_take ch extra : be_value (subarray 1 4 (take 4 (handshake ch extra))) = blen ch mod 256 ^ 3.
Proof.
  unfold handshake. change (1 :: be_bytes 3 (blen ch) ++ ch ++ extra) with ((1 :: be_bytes 3 (blen ch)) ++ ch ++ extra).
  rewrite take_app_exact; [|by rewrite /= length_be_bytes]. rewrite -(app_nil_r (be_bytes 3 (blen ch))).
  rewrite (subarray_mid [1] (be_bytes 3 (blen ch)) []) //. by apply be_value_bytes_mod.
Qed.

Lemma hdr_grow (P p : buffer) : take 4 P ++ take (4 - length (take 4 P)) p = take 4 (P ++ p).
Proof.
  rewrite take_app length_take. destruct (Nat.le_gt_cases 4 (length P)) as [H|H].
  - rewrite Nat.min_l //. rewrite (proj2 (Nat.sub_0_le 4 (length P)) H). done.
  - rewrite Nat.min_r; [done|lia].
Qed.

(** Records that carry a hello parse. *)
Lemma record_loop_wire fuel : ∀ rs buf off P ch extra tail x,
  (length rs < fuel)%nat → drop off buf = rec_wire rs ++ tail → Forall rec_ok rs → minimal (length P) (4 + length ch) rs →
  P ++ rec_payload rs = handshake ch extra → blen ch < 2 ^ 24 → blen buf <= TLS_MUX_MAX_CLIENT_BUF →
  parseTlsClientHelloReadableExtensions ch = Ret (Accepted x) →
  record_loop fuel buf off P (take 4 P) = Ret (IsHello (MkHello x (off + length (rec_wire rs)) ch)).
Proof.
  induction fuel as [|fuel IH]; intros rs buf off P ch extra tail x Hf Hd Hok Hmin HP Hch Hmax Hx; [lia|].
  destruct rs as [|r rs]; [done|]. apply Forall_cons in Hok as [Hr Hok]. pose proof Hr as ([Hr1 _] & Hr2 & _).
  destruct (rec_step _ _ _ _ _ Hd Hr) as (Hl & Hb & Hu & Hs & Hd'). cbn [record_loop].
  rewrite (proj2 (Nat.ltb_ge _ _)); [|lia]. rewrite Hb Hu Hs. cbn [negb Z.eqb Pos.eqb].
  rewrite (proj2 (Nat.ltb_ge (length r.2) _)) //. rewrite (proj2 (Z.ltb_ge _ _)); [cbn [orb]|unfold blen in Hmax; lia].
  rewrite (proj2 (Nat.ltb_ge _ _)) // hdr_grow.
  assert (P ++ rec_payload (r :: rs) = (P ++ r.2) ++ rec_payload rs) as E by (by rewrite -(assoc_L (++))).
  assert (off + length (rec_wire (r :: rs)) = off + 5 + length r.2 + length (rec_wire rs))%nat as El.
  { change (rec_wire (r :: rs)) with (rec_enc r ++ rec_wire rs). rewrite (length_app (rec_enc r)) (rec_enc_length r Hr1). lia. }
  rewrite E in HP. rewrite El. cbn [minimal] in Hmin. rewrite -length_app in Hmin.
  assert (length (P ++ r.2) < 4 + length ch → record_loop fuel buf (off + 5 + length r.2) (P ++ r.2) (take 4 (P ++ r.2)) =
    Ret (IsHello (MkHello x (off + 5 + length r.2 + length (rec_wire rs)) ch)))%nat as Hgo.
  { intros Hlt. rewrite (proj2 (Nat.ltb_lt _ _)) // in Hmin. apply (IH rs _ _ _ ch extra tail); [cbn in Hf; lia|done..]. }
  destruct (Nat.ltb_spec (length (take 4 (P ++ r.2))) 4) as [H4|H4]; rewrite length_take in H4; [apply Hgo; lia|].
  assert (take 4 (P ++ r.2) = take 4 (handshake ch extra)) as ->. { rewrite -HP (take_app_le (P ++ r.2)); [done|lia]. }
  change (byte_at 0 (take 4 (handshake ch extra))) with 1. cbn [negb Z.eqb Pos.eqb].
  rewrite handshake_take Z.mod_small; [|split; [unfold blen; lia|exact Hch]]. replace (Z.to_nat (blen ch)) with (length ch) by (unfold blen; lia).
  destruct (Nat.ltb_spec (length (P ++ r.2)) (4 + length ch)) as [Hlt|Hge].
  - replace (take 4 (handshake ch extra)) with (take 4 (P ++ r.2)); [by apply Hgo|]. rewrite -HP (take_app_le (P ++ r.2)); [done|lia].
  - subst rs. cbn [rec_payload map concat] in HP. rewrite app_nil_r in HP.
    assert (subarray 4 (4 + length ch) (P ++ r.2) = ch) as ->.
    { rewrite HP. unfold handshake. apply (subarray_mid (1 :: be_bytes 3 (blen ch)) ch extra); by rewrite /= length_be_bytes. }
    rewrite Hx ret_bind. cbn. do 3 f_equal. lia.
Qed.

(** What a parse that found a hello shows. *)
Definition carries (P : buffer) (rs : list (buffer * buffer)) (h : Hello) (extra : buffer) : Prop :=
  Forall rec_ok rs ∧ minimal (length P) (4 + length (h_clientHelloBody h)) rs ∧
  P ++ rec_payload rs = handshake (h_clientHelloBody h) extra ∧ blen (h_clientHelloBody h) < 2 ^ 24 ∧
  parseTlsClientHelloReadableExtensions (h_clientHelloBody h) = Ret (Accepted (h_exts h)).

Lemma carries_more P r rs h extra : rec_ok r → carries (P ++ r.2) rs h extra →
  (length (P ++ r.2) < 4 + length (h_clientHelloBody h))%nat → carries P (r :: rs) h extra.
Proof.
  intros Hr (Hok & Hmin & HP & H) Hlt. split; [by constructor|]. split; [|split; [|done]].
  - cbn [minimal]. rewrite -length_app (proj2 (Nat.ltb_lt _ _)) //.
  - by rewrite -HP -(assoc_L (++)).
Qed.

Lemma handshake_split P : bytes_ok P → (4 <= length P)%nat → byte_at 0 P = 1 →
  let n := Z.to_nat (be_value (subarray 1 4 (take 4 P))) in (4 + n <= length P)%nat →
  length (subarray 4 (4 + n) P) = n ∧ blen (subarray 4 (4 + n) P) < 2 ^ 24 ∧
  P = handshake (subarray 4 (4 + n) P) (drop (4 + n) P).
Proof.
  intros HP Hl H1 n Hn. destruct P as [|b0 [|b1 [|b2 [|b3 P]]]]; cbn in Hl; try lia. change (b0 = 1) in H1. subst b0.
  change (subarray 1 4 (take 4 _)) with [b1; b2; b3] in n. apply Forall_cons in HP as [_ HP].
  assert (bytes_ok [b1; b2; b3]) as Hb by (by apply (bytes_ok_take 3 (b1 :: b2 :: b3 :: P))).
  pose proof (be_value_range _ Hb) as Hr. change (256 ^ Z.of_nat (length [b1; b2; b3])) with (2 ^ 24) in Hr.
  assert (length (subarray 4 (4 + n) (1 :: b1 :: b2 :: b3 :: P)) = n) as Hlen by (rewrite length_subarray; [lia|done]).
  split; [done|]. split; [unfold blen; rewrite Hlen; unfold n; lia|].
  unfold handshake, blen. rewrite Hlen. replace (Z.of_nat n) with (be_value [b1; b2; b3]) by (unfold n; lia).
  rewrite be_bytes_value //. cbn [app]. do 4 f_equal. apply (subarray_split 4 (4 + n) (1 :: b1 :: b2 :: b3 :: P)). lia.
Qed.

Lemma rec_read buf off : bytes_ok buf → (off + 5 <= length buf)%nat → byte_at off buf = 0x16 →
  let n := u16_at (off + 3) buf in (1 <= n)%nat → (off + 5 + n <= length buf)%nat →
  let r := (subarray off (off + 3) buf, subarray (off + 5) (off + 5 + n) buf) in
  rec_ok r ∧ length r.2 = n ∧ drop off buf = rec_enc r ++ drop (off + 5 + n) buf.
Proof.
  intros Hb Hl H0 n Hn Hl2 r. destruct (u16_at_split (off + 3) buf Hb) as [D L]; [lia|]. fold n in D, L.
  assert (length r.1 = 3%nat) as L1 by (unfold r; cbn [fst]; rewrite length_subarray; lia).
  assert (length r.2 = n) as L2 by (unfold r; cbn [snd]; rewrite length_subarray; lia).
  split; [|split; [done|]].
  - split; [split; [done|]|split; [lia|unfold blen; lia]]. unfold r. cbn [fst]. rewrite head_lookup. unfold subarray.
    rewrite lookup_take_lt; [|lia]. rewrite lookup_drop Nat.add_0_r. unfold byte_at in H0.
    destruct (lookup_lt_is_Some_2 buf off) as [b Hb0]; [lia|]. rewrite Hb0 in H0 |- *. cbn in H0. by f_equal.
  - unfold rec_enc. rewrite L2 -!(assoc_L (++)) (subarray_split off (off + 3) buf); [|lia]. f_equal.
    rewrite D. f_equal. replace (off + 3 + 2)%nat with (off + 5)%nat by lia. apply subarray_split. lia.
Qed.

(** The length in the header of a payload that a hello continues. *)
Lemma carries_length P rs h extra : carries P rs h extra → (4 <= length P)%nat →
  Z.to_nat (be_value (subarray 1 4 (take 4 P))) = length (h_clientHelloBody h).
Proof.
  intros (_ & _ & HP & Hl & _) H4. replace (take 4 P) with (take 4 (handshake (h_clientHelloBody h) extra)).
  - rewrite handshake_take Z.mod_small; [unfold blen; lia|split; [unfold blen; lia|exact Hl]].
  - rewrite -HP take_app_le; [done|lia].
Qed.

Lemma record_loop_inv fuel : ∀ buf off P h, bytes_ok buf → bytes_ok P →
  record_loop fuel buf off P (take 4 P) = Ret (IsHello h) →
  ∃ rs tail extra, drop off buf = rec_wire rs ++ tail ∧ h_bytesConsumed h = (off + length (rec_wire rs))%nat ∧
    carries P rs h extra.
Proof.
  induction fuel as [|fuel IH]; intros buf off P h Hb HP; [done|]. cbn [record_loop].
  destruct (Nat.ltb_spec (length buf - off) 5) as [|H5]; [done|]. destruct (Z.eqb_spec (byte_at off buf) 22) as [H0|]; [|done].
  cbn [negb]. set (n := u16_at (off + 3) buf). destruct (Nat.ltb_spec n 1) as [|Hn]; [done|]. cbn [orb].
  destruct (_ <? _); [done|]. destruct (Nat.ltb_spec (length buf) (off + 5 + n)) as [|Hl]; [done|].
  destruct (rec_read buf off Hb ltac:(lia) H0 Hn Hl) as (Hr & Hrn & Hd). set (r := (_, _)) in *. fold n in Hrn, Hd.
  change (subarray (off + 5) (off + 5 + n) buf) with r.2. rewrite hdr_grow.
  assert (bytes_ok (P ++ r.2)) as HP' by (apply bytes_ok_app; split; [done|by apply bytes_ok_subarray]).
  assert (∀ rs tail extra, drop (off + 5 + n) buf = rec_wire rs ++ tail → h_bytesConsumed h = (off + 5 + n + length (rec_wire rs))%nat →
    carries P (r :: rs) h extra → ∃ rs tail extra, drop off buf = rec_wire rs ++ tail ∧
      h_bytesConsumed h = (off + length (rec_wire rs))%nat ∧ carries P rs h extra) as Hcons.
  { intros rs tail extra Ht Hc Hca. exists (r :: rs), tail, extra. change (rec_wire (r :: rs)) with (rec_enc r ++ rec_wire rs).
    rewrite Hd Ht -(assoc_L (++)) (length_app (rec_enc r)) rec_enc_length; [|apply Hr]. split; [done|]. split; [lia|done]. }
  destruct (Nat.ltb_spec (length (take 4 (P ++ r.2))) 4) as [H4|H4]; rewrite length_take in H4.
  { intros (rs & tail & extra & Ht & Hc & Hca)%IH; [|done..]. apply (Hcons rs tail extra Ht Hc), carries_more; [done..|lia]. }
  destruct (Z.eqb_spec (byte_at 0 (take 4 (P ++ r.2))) 1) as [H1|]; [|done]. cbn [negb].
  set (N := Z.to_nat _). destruct (Nat.ltb_spec (length (P ++ r.2)) (4 + N)) as [Hlt|Hge].
  - intros (rs & tail & extra & Ht & Hc & Hca)%IH; [|done..]. apply (Hcons rs tail extra Ht Hc), carries_more; [done..|].
    rewrite -(carries_length _ _ _ _ Hca); [exact Hlt|lia].
  - intros ([?|x] & Hx & Hh)%outcome_bind_Ret; [done|]. injection Hh as <-.
    assert (byte_at 0 (P ++ r.2) = 1) as H1'. { revert H1. unfold byte_at. by rewrite lookup_take_lt; [|lia]. }
    destruct (handshake_split (P ++ r.2) HP' ltac:(lia) H1' Hge) as (HN & H24 & E). fold N in HN, H24, E.
    apply (Hcons [] _ (drop (4 + N) (P ++ r.2)) eq_refl); [cbn; lia|]. split; [by constructor|]. cbn [h_clientHelloBody h_exts].
    rewrite HN. split; [|split; [|done]].
    + cbn [minimal]. rewrite -length_app (proj2 (Nat.ltb_ge _ _)) //.
    + by rewrite -E /rec_payload /= app_nil_r.
Qed.

(** The two directions for a whole buffer. *)
Lemma parse_first_inv buf h : bytes_ok buf → parseFirstTlsClientHelloFromTcpBuf buf = Ret (IsHello h) →
  ∃ rs tail extra, buf = rec_wire rs ++ tail ∧ h_bytesConsumed h = length (rec_wire rs) ∧ carries [] rs h extra.
Proof.
  intros Hb. unfold parseFirstTlsClientHelloFromTcpBuf. destruct (_ <? blen buf); [done|]. destruct (_ <? 5)%nat; [done|].
  destruct (negb _); [done|]. apply record_loop_inv; [done|constructor].
Qed.

Lemma parse_first_wire rs tail h extra : carries [] rs h extra → blen (rec_wire rs ++ tail) <= TLS_MUX_MAX_CLIENT_BUF →
  h_bytesConsumed h = length (rec_wire rs) → parseFirstTlsClientHelloFromTcpBuf (rec_wire rs ++ tail) = Ret (IsHello h).
Proof.
  intros (Hok & Hmin & HP & H24 & Hx) Hmax Hc. destruct rs as [|r rs]; [done|]. pose proof Hok as [Hr _]%Forall_cons.
  set (buf := rec_wire (r :: rs) ++ tail) in *. destruct (rec_step buf 0 r rs tail eq_refl Hr) as (Hl & Hb & _).
  unfold parseFirstTlsClientHelloFromTcpBuf. rewrite (proj2 (Z.ltb_ge _ _)) // (proj2 (Nat.ltb_ge _ _)); [|lia].
  rewrite Hb. cbn [negb Z.eqb Pos.eqb]. assert (length (r :: rs) <= length buf)%nat as Hlen.
  { unfold buf. rewrite length_app. apply Nat.le_trans with (length (rec_wire (r :: rs))); [|lia].
    clear -Hok. induction Hok as [|q qs ([Hq _] & ? & _) _ IH]; [done|]. change (rec_wire (q :: qs)) with (rec_enc q ++ rec_wire qs).
    rewrite (length_app (rec_enc q)) (rec_enc_length q Hq). cbn [length] in *. lia. }
  rewrite (record_loop_wire _ (r :: rs) buf 0 [] (h_clientHelloBody h) extra tail (h_exts h)) //; [|lia].
  rewrite -Hc. by destruct h.
Qed.

(** ** A body of 34 bytes *)

Lemma hello_offset_throws ch : (∃ e, hello_offset ch = Throw e) ↔ length ch = 34%nat.
Proof.
  unfold hello_offset. destruct (Nat.ltb_spec (length ch) 34) as [H|H]; [split; [by intros [? ?]|lia]|].
  destruct (ch !! 34%nat) as [sid|] eqn:E.
  - apply lookup_lt_Some in E. split; [|lia]. intros [e He]. cbv zeta in He. by do 3 (case_match; [done|]).
  - apply lookup_ge_None in E. split; [lia|]. by eexists.
Qed.

(** A first record that is such a hello. *)
Lemma record_34_throws fuel buf body : length body = 34%nat → (43 <= length buf)%nat → byte_at 0 buf = 0x16 →
  u16_at 3 buf = 38%nat → subarray 5 43 buf = [1; 0; 0; 34] ++ body → record_loop (S fuel) buf 0 [] [] = Throw RangeError.
Proof.
  intros Hl HL Hb Hu Hs. cbn [record_loop Nat.add]. rewrite Hb Hu Hs. cbn [app].
  rewrite (proj2 (Nat.ltb_ge _ 5)); [|lia]. rewrite (proj2 (Nat.ltb_ge (length buf) _)); [|lia].
  pose proof (subarray_mid [1; 0; 0; 34] body [] 4 38 eq_refl) as E. rewrite app_nil_r Hl in E. specialize (E eq_refl). cbn [app] in E.
  assert (parseTlsClientHelloReadableExtensions body = Throw RangeError) as Hp.
  { unfold parseTlsClientHelloReadableExtensions, hello_offset. rewrite Hl. by rewrite lookup_ge_None_2 ?Hl. }
  change (take (4 - length []) (1 :: 0 :: 0 :: 34 :: body)) with [1; 0; 0; 34].
  change (Z.to_nat (be_value (subarray 1 4 [1; 0; 0; 34]))) with 34%nat. cbn [negb Z.eqb Pos.eqb].
  change ((38 <? 1)%nat || (TLS_MUX_MAX_CLIENT_BUF <? Z.of_nat 43)) with false. cbv iota.
  change (Nat.ltb (length [1; 0; 0; 34]) 4) with false. change (negb (byte_at 0 [1; 0; 0; 34] =? 1)) with false. cbv iota.
  rewrite E Hp (proj2 (Nat.ltb_ge (length (1 :: _)) _)); [done|cbn [length]; lia].
Qed.

(** C40: Reading the extensions of a hello throws exactly when its body has 34 bytes; so
    the reader of a stream throws, instead of refusing, on a stream whose first record
    holds such a hello and nothing else, whatever the body holds and whatever follows, up
    to 500000 bytes.  The relay reads the hello in its
    [data] listener, outside any [try], and the process ends. *)
Theorem short_hello_throws :
  (∀ ch, (∃ e, parseTlsClientHelloReadableExtensions ch = Throw e) ↔ length ch = 34%nat) ∧
  ∀ v1 v2 body tail, length body = 34%nat → blen tail <= 500000 →
    parseFirstTlsClientHelloFromTcpBuf ([0x16; v1; v2; 0; 38; 1; 0; 0; 34] ++ body ++ tail) = Throw RangeError.
Proof.
  split.
  - intros ch. rewrite -hello_offset_throws. unfold parseTlsClientHelloReadableExtensions.
    split; intros [e He]; [|exists e; by rewrite He]. destruct (hello_offset ch) as [[?|o]|e']; [done| |by exists e'].
    rewrite ret_bind in He. cbv zeta in He. by case_match.
  - intros v1 v2 body tail Hl Ht. remember ([0x16; v1; v2; 0; 38; 1; 0; 0; 34] ++ body ++ tail) as buf eqn:E.
    assert (length buf = 43 + length tail)%nat as HL by (rewrite E !length_app Hl; cbn; lia).
    assert (subarray 5 43 buf = [1; 0; 0; 34] ++ body) as Hs.
    { rewrite E. apply (subarray_mid [0x16; v1; v2; 0; 38] ([1; 0; 0; 34] ++ body) tail); [done|]. by rewrite length_app Hl. }
    assert (byte_at 0 buf = 0x16 ∧ u16_at 3 buf = 38%nat) as [Hb Hu] by (by rewrite E). clear E.
    unfold parseFirstTlsClientHelloFromTcpBuf. rewrite (proj2 (Z.ltb_ge _ _)); [|unfold blen, TLS_MUX_MAX_CLIENT_BUF in *; rewrite HL; lia].
    rewrite (proj2 (Nat.ltb_ge _ _)); [|lia]. rewrite Hb. apply (record_34_throws _ _ body); [done|lia|done..].
Qed.

Lemma short_hello_throws_witness :
  parseFirstTlsClientHelloFromTcpBuf ([0x16; 3; 1; 0; 38; 1; 0; 0; 34] ++ replicate 34 0 ++ [0x16; 3]) = Throw RangeError.
Proof. apply short_hello_throws; [reflexivity|vm_compute; discriminate]. Defined.
