(* ===== verification/TlsRebuild.v ===== *)
(** * Another name in a ClientHello (src/scripts/lib/transparent-tls-ch-rebuild.mjs)

    The client end of a transparent relay replaces the server name in the first ClientHello
    of a connection by the encrypted one; the exit restores it.  [hello_restored]: replacing
    a name by a longer one and restoring it gives back every byte, the record boundaries
    included.  The proofs work on the shape of a hello with a name ([shape_ok]): replacing
    and restoring both keep all of it but the name and four lengths. *)

From S2P Require Import Prelude Bytes JsString TlsHello.
Local Open Scope Z_scope.
#[local] Unset Default Proof Using.

Definition MAX_PLAINTEXT_RECORD_BYTES : Z := 16 * 1024.

Record Layout := MkLayout {
  hostnameStartChBodyAbs : nat; hostnameLenBytes : nat;
  sniListLenPos : nat; sniExtLenPos : nat; extensionsTotalLenPos : nat }.

(** The first host name in the data of a server-name extension: its position and length. *)
Fixpoint sni_position (fuel : nat) (ed : buffer) (so : nat) (listLen : Z) : option (nat * nat) :=
  match fuel with
  | O => None
  | S fuel =>
      if (so + 3 <=? length ed)%nat && (3 <=? listLen) then
        let nt := byte_at so ed in let nl := u16_at (so + 1) ed in
        if (length ed <? so + 3 + nl)%nat then None else
        if nt =? 0 then Some ((so + 3)%nat, nl) else
        sni_position fuel ed (so + 3 + nl) (listLen - (3 + Z.of_nat nl))
      else None
  end.

(** The same in a block of extensions: also where the data starts. *)
Fixpoint find_loop (fuel : nat) (extBlock : buffer) (eo : nat) : option (nat * (nat * nat)) :=
  match fuel with
  | O => None
  | S fuel =>
      if (eo + 4 <=? length extBlock)%nat then
        let et := u16_at eo extBlock in let el := u16_at (eo + 2) extBlock in
        let bodyRel := (eo + 4)%nat in
        let ed := subarray bodyRel (bodyRel + el) extBlock in
        match (if (et =? 0)%nat && (2 <=? length ed)%nat
               then sni_position (length ed) ed 2 (Z.of_nat (u16_at 0 ed)) else None) with
        | Some p => Some (bodyRel, p)
        | None => find_loop fuel extBlock (eo + 4 + el)
        end
      else None
  end.

Definition findFirstSniLayoutInClientHelloBody (chBody : buffer) : outcome (option Layout) :=
  o ← hello_offset chBody;
  match o with
  | Refused _ => Ret None
  | Accepted o =>
      let extLen := u16_at o chBody in
      let extBlockStart := (o + 2)%nat in
      if (length chBody <? extBlockStart + extLen)%nat then Ret None else
      let extBlock := subarray extBlockStart (extBlockStart + extLen) chBody in
      Ret match find_loop (length extBlock) extBlock 0 with
          | Some (bodyRel, (so, nl)) =>
              Some (MkLayout (extBlockStart + bodyRel + so) nl (extBlockStart + bodyRel) (extBlockStart + bodyRel - 2) o)
          | None => None
          end
  end.

(** Without the tests of the others: what is absent makes the position [NaN], and reading
    there throws. *)
Definition clientHelloBlockedForEncSni (chBody : buffer) : outcome (option string) :=
  if (length chBody <? 34)%nat then Ret (Some "ch_short") else
  match chBody !! 34%nat with
  | None => Throw RangeError
  | Some sidLen =>
      let o := (35 + Z.to_nat sidLen)%nat in
      csLen ← read_u16 o chBody;
      let o := (o + 2 + Z.to_nat csLen)%nat in
      match chBody !! o with
      | None => Throw RangeError
      | Some compLen =>
          let o := (o + 1 + Z.to_nat compLen)%nat in
          if (length chBody <? o + 2)%nat then Ret (Some "ch_short") else
          extLen ← read_u16 o chBody;
          let extEnd := (o + 2 + Z.to_nat extLen)%nat in
          Ret (if (length chBody <? extEnd)%nat then Some "ch_short" else None)
      end
  end.

(** [out.writeUInt16BE(out.readUInt16BE(pos) + delta, pos)] *)
Definition add_u16 (delta : Z) (pos : nat) (out : buffer) : outcome buffer :=
  v ← read_u16 pos out; write_uint 2 (v + delta) pos out.

Definition rebuildClientHelloBodyWithHostname (chBody : buffer) (newHostnameAscii : jstr) : outcome buffer :=
  blocked ← clientHelloBlockedForEncSni chBody;
  match blocked with
  | Some reason => Throw (Error reason)
  | None =>
      layout ← findFirstSniLayoutInClientHelloBody chBody;
      match layout with
      | None => Throw (Error "sni_hostname_offset_not_found")
      | Some layout =>
          let start := hostnameStartChBodyAbs layout in
          let oldHost := subarray start (start + hostnameLenBytes layout) chBody in
          let newB := utf8_encode newHostnameAscii in
          guard_js (negb ((length newB <? 1)%nat || (253 <? length newB)%nat)) (Error "relay_sni_length");;
          let delta := blen newB - blen oldHost in
          let out := buf_alloc (Z.to_nat (blen chBody + delta)) in
          let out := buf_copy (subarray 0 start chBody) 0 out in
          let out := buf_copy newB start out in
          let out := buf_copy (drop (start + hostnameLenBytes layout) chBody) (start + length newB) out in
          out ← write_uint 2 (blen newB) (start - 2) out;
          out ← add_u16 delta (sniListLenPos layout) out;
          out ← add_u16 delta (sniExtLenPos layout) out;
          add_u16 delta (extensionsTotalLenPos layout) out
      end
  end.

(** The loop over the records of the prefix: their headers with the new sizes, and their
    payloads. *)
Fixpoint resize_loop (fuel : nat) (tcpBuf : buffer) (bytesConsumed hostnameStart : nat) (delta : Z)
    (at_ payloadOffset : nat) : outcome (list (buffer * nat) * list buffer) :=
  match fuel with
  | O => Throw RangeError
  | S fuel =>
      if (at_ <? bytesConsumed)%nat then
        size ← read_u16 (at_ + 3) tcpBuf;
        guard_js (size <=? MAX_PLAINTEXT_RECORD_BYTES) (Error "record_plaintext_oversize");;
        let ownsSniStart := (payloadOffset <=? hostnameStart)%nat && (Z.of_nat hostnameStart <? Z.of_nat payloadOffset + size) in
        let newSize := size + (if ownsSniStart then delta else 0) in
        guard_js (negb ((newSize <? 1) || (MAX_PLAINTEXT_RECORD_BYTES <? newSize) ||
            (ownsSniStart && (newSize <=? Z.of_nat hostnameStart - Z.of_nat payloadOffset))))
          (Error "record_layout_resize_unsupported");;
        let n := Z.to_nat size in
        rest ← resize_loop fuel tcpBuf bytesConsumed hostnameStart delta (at_ + 5 + n) (payloadOffset + n);
        Ret ((subarray at_ (at_ + 5) tcpBuf, Z.to_nat newSize) :: rest.1, subarray (at_ + 5) (at_ + 5 + n) tcpBuf :: rest.2)
      else Ret ([], [])
  end.

Fixpoint emit_loop (records : list (buffer * nat)) (newPayload : buffer) (source target : nat) (out : buffer) : outcome buffer :=
  match records with
  | [] => Ret out
  | (header, size) :: records =>
      let out := buf_copy header target out in
      out ← write_uint 2 (Z.of_nat size) (target + 3) out;
      let out := buf_copy (subarray source (source + size) newPayload) (target + 5) out in
      emit_loop records newPayload (source + size) (target + 5 + size) out
  end.

Definition rebuildTcpPrefixWithClientHelloBody (tcpBuf : buffer) (parsed : Hello) (newChBody : buffer) : outcome buffer :=
  let body := h_clientHelloBody parsed in
  layout ← findFirstSniLayoutInClientHelloBody body;
  match layout with
  | None => Throw (Error "sni_hostname_offset_not_found")
  | Some layout =>
      let hostnameStart := (4 + hostnameStartChBodyAbs layout)%nat in
      let delta := blen newChBody - blen body in
      '(records, payloads) ← resize_loop (S (length tcpBuf)) tcpBuf (h_bytesConsumed parsed) hostnameStart delta 0 0;
      let oldPayload := concat payloads in
      handshakeHeader ← write_uint 3 (blen newChBody) 1 (set_byte 0 1 (buf_alloc 4));
      let newPayload := handshakeHeader ++ newChBody ++ drop (4 + length body) oldPayload in
      emit_loop records newPayload 0 0 (buf_alloc (Z.to_nat (Z.of_nat (h_bytesConsumed parsed) + delta)))
  end.

(** [e.message]; the texts of Node's own errors are not modelled. *)
Definition message (e : js_error) : string := match e with Error m => m | _ => EmptyString end.
Definition try_rebuild (o : outcome buffer) : answer buffer :=
  match o with Ret b => Accepted b | Throw e => Refused (message e) end.

Record Rebuilt := MkRebuilt { originHost : jstr; relayHost : jstr; prefixBuf : buffer; tailAfterPrefix : buffer }.

Definition rebuild_prefix (tcpBuf : buffer) (p : Hello) (name : jstr) : answer buffer :=
  try_rebuild (newChBody ← rebuildClientHelloBodyWithHostname (h_clientHelloBody p) name;
               rebuildTcpPrefixWithClientHelloBody tcpBuf p newChBody).

Definition replaceFirstSniInTcpBuffer (tcpBuf : buffer) (newHostnameAscii : jstr) : outcome (answer Rebuilt) :=
  p ← parseFirstTlsClientHelloFromTcpBuf tcpBuf;
  match p with
  | NeedMore _ => Ret (Refused "need_more_client_hello")
  | NotHello reason => Ret (Refused reason)
  | IsHello p =>
      extRead ← parseTlsClientHelloReadableExtensions (h_clientHelloBody p);
      match extRead with
      | Accepted (MkExts (origin :: _) _ _) =>
          blocked ← clientHelloBlockedForEncSni (h_clientHelloBody p);
          match blocked with
          | Some reason => Ret (Refused reason)
          | None =>
              Ret match rebuild_prefix tcpBuf p newHostnameAscii with
                  | Refused reason => Refused reason
                  | Accepted prefix => Accepted (MkRebuilt origin newHostnameAscii prefix (drop (h_bytesConsumed p) tcpBuf))
                  end
          end
      | _ => Ret (Refused "no_sni")
      end
  end.

Definition restoreFirstSniInTcpBuffer (tcpBuf : buffer) (relayHostname originHostname : jstr) : outcome (answer (buffer * buffer)) :=
  p ← parseFirstTlsClientHelloFromTcpBuf tcpBuf;
  match p with
  | NeedMore _ => Ret (Refused "need_more_client_hello")
  | NotHello reason => Ret (Refused reason)
  | IsHello p =>
      extRead ← parseTlsClientHelloReadableExtensions (h_clientHelloBody p);
      match extRead with
      | Accepted (MkExts (name :: _) _ _) =>
          if negb (bool_decide (name = relayHostname)) then Ret (Refused "sni_hostname_not_relay_expectation") else
          Ret match rebuild_prefix tcpBuf p originHostname with
              | Refused reason => Refused reason
              | Accepted prefix => Accepted (prefix, drop (h_bytesConsumed p) tcpBuf)
              end
      | _ => Ret (Refused "sni_hostname_not_relay_expectation")
      end
  end.

(** ** Names in the data of an extension *)

Definition name_enc (x : Z * buffer) : buffer := x.1 :: be2 (length x.2) ++ x.2.
Definition names_wire (l : list (Z * buffer)) : buffer := concat (map name_enc l).
(** Entries that are not host names. *)
Definition others_ok (l : list (Z * buffer)) : Prop := Forall (λ x, x.1 ≠ 0 ∧ blen x.2 < 65536) l.

Lemma name_enc_length x : length (name_enc x) = (3 + length x.2)%nat.
Proof. unfold name_enc. cbn [length]. rewrite length_app length_be_bytes. lia. Qed.

Lemma name_step ed so x r : drop so ed = name_enc x ++ r → blen x.2 < 65536 →
  (so + 3 + length x.2 <= length ed)%nat ∧ byte_at so ed = x.1 ∧ u16_at (so + 1) ed = length x.2 ∧
  subarray (so + 3) (so + 3 + length x.2) ed = x.2 ∧ drop (so + 3 + length x.2) ed = r.
Proof.
  intros Hd Hx. pose proof (f_equal length Hd) as Hl. rewrite length_drop (length_app (name_enc x)) name_enc_length in Hl.
  unfold name_enc in Hd. cbn [app] in Hd. rewrite -(assoc_L (++)) in Hd. destruct (byte_next _ _ _ _ Hd) as [-> Hd1].
  destruct (u16_at_next _ _ _ _ Hd1 Hx) as [-> Hd2]. replace (so + 1 + 2)%nat with (so + 3)%nat in Hd2 by lia.
  split; [lia|]. split; [done|]. split; [done|]. split; [by eapply subarray_next|by eapply drop_next].
Qed.

(** The names depend on what is ahead only. *)
Lemma sni_names_drop f1 : ∀ f2 ed1 ed2 so1 so2 ll, drop so1 ed1 = drop so2 ed2 → (so1 <= length ed1)%nat → (so2 <= length ed2)%nat →
  (length (drop so1 ed1) < f1)%nat → (length (drop so2 ed2) < f2)%nat → sni_names f1 ed1 so1 ll = sni_names f2 ed2 so2 ll.
Proof.
  induction f1 as [|f1 IH]; intros [|f2] ed1 ed2 so1 so2 ll E L1 L2 F1 F2; [lia..|]. cbn [sni_names].
  pose proof (f_equal length E) as El. rewrite length_drop in F1. rewrite !length_drop in F2, El.
  assert (∀ ed so, byte_at so ed = byte_at 0 (drop so ed) ∧ u16_at (so + 1) ed = u16_at 1 (drop so ed) ∧
    ∀ n, subarray (so + 3) (so + 3 + n) ed = subarray 3 (3 + n) (drop so ed)) as R.
  { intros ed so. split; [by rewrite /byte_at lookup_drop Nat.add_0_r|]. unfold u16_at, subarray. rewrite !drop_drop.
    split; [do 3 f_equal; lia|]. intros n. f_equal. lia. }
  destruct (R ed1 so1) as (-> & -> & S1), (R ed2 so2) as (-> & -> & S2). rewrite E.
  destruct (Nat.leb_spec (so1 + 3) (length ed1)) as [H1|H1].
  - rewrite (proj2 (Nat.leb_le _ _)); [|lia]. destruct (3 <=? ll); [cbn [andb]|done]. set (n := u16_at 1 (drop so2 ed2)).
    destruct (Nat.ltb_spec (length ed1) (so1 + 3 + n)) as [H2|H2].
    + by rewrite (proj2 (Nat.ltb_lt _ _)); [|lia].
    + rewrite (proj2 (Nat.ltb_ge _ _)); [|lia]. rewrite S1 S2 E. f_equal.
      apply IH; [by rewrite -!Nat.add_assoc -!drop_drop E|lia|lia|rewrite length_drop; lia|rewrite length_drop; lia].
  - by rewrite (proj2 (Nat.leb_gt _ _)); [|lia].
Qed.

(** What is read behind a name. *)
Definition names_behind (R : buffer) (ll : Z) : list jstr := sni_names (S (length R)) R 0 ll.

Lemma sni_position_wire fuel : ∀ l ed so ll host R, (length (drop so ed) < fuel)%nat → others_ok l → blen host < 65536 →
  drop so ed = names_wire l ++ name_enc (0, host) ++ R → blen (names_wire l) + 3 <= ll →
  sni_position fuel ed so ll = Some ((so + length (names_wire l) + 3)%nat, length host) ∧
  sni_names fuel ed so ll = utf8_decode host :: names_behind R (ll - blen (names_wire l) - 3 - blen host).
Proof.
  induction fuel as [|fuel IH]; intros l ed so ll host R Hf Hok Hh Hd Hll; [lia|]. cbn [sni_position sni_names].
  rewrite length_drop in Hf. destruct l as [|x l].
  - destruct (name_step ed so (0, host) R Hd Hh) as (Hl & -> & -> & -> & Hd'). cbn [fst snd] in *.
    rewrite (proj2 (Nat.leb_le _ _)); [|lia]. rewrite (proj2 (Z.leb_le _ _)); [cbn [andb]|by unfold blen, names_wire in Hll; cbn in Hll].
    rewrite (proj2 (Nat.ltb_ge _ _)) //. cbn [Z.eqb app]. split; [do 2 f_equal; unfold names_wire; cbn; lia|]. f_equal.
    replace (ll - blen (names_wire []) - 3 - blen host) with (ll - (3 + Z.of_nat (length host))) by (unfold blen, names_wire; cbn; lia).
    apply sni_names_drop; [by rewrite Hd'|lia|lia|rewrite length_drop; lia|rewrite length_drop; lia].
  - apply Forall_cons in Hok as [[Hx0 Hx] Hok]. change (names_wire (x :: l)) with (name_enc x ++ names_wire l) in *.
    rewrite -(assoc_L (++)) in Hd. unfold blen in Hll |- *. rewrite (length_app (name_enc x)) name_enc_length in Hll |- *.
    destruct (name_step ed so x _ Hd Hx) as (Hl & -> & -> & _ & Hd'). rewrite (proj2 (Nat.leb_le _ _)); [|lia].
    rewrite (proj2 (Z.leb_le _ _)); [cbn [andb]|lia]. rewrite (proj2 (Nat.ltb_ge _ _)) // (proj2 (Z.eqb_neq _ _)) //. cbv iota.
    destruct (IH l ed (so + 3 + length x.2)%nat (ll - (3 + blen x.2)) host R) as [E1 E2]; [rewrite length_drop; lia|done|done|done|unfold blen; lia|].
    unfold blen in E1, E2. rewrite E1 E2. split; [do 2 f_equal; lia|]. cbn [app]. do 2 f_equal. lia.
Qed.

Lemma sni_position_inv fuel : ∀ ed so ll, bytes_ok ed →
  match sni_position fuel ed so ll with
  | None => sni_names fuel ed so ll = []
  | Some (pos, nl) => ∃ l host R, drop so ed = names_wire l ++ name_enc (0, host) ++ R ∧ others_ok l ∧ length host = nl ∧
      pos = (so + length (names_wire l) + 3)%nat ∧ blen (names_wire l) + 3 <= ll
  end.
Proof.
  induction fuel as [|fuel IH]; intros ed so ll Hb; [done|]. cbn [sni_position sni_names].
  destruct (Nat.leb_spec (so + 3) (length ed)) as [H1|]; [|done]. destruct (Z.leb_spec 3 ll) as [H2|]; [|done]. cbn [andb].
  set (nl := u16_at (so + 1) ed). destruct (Nat.ltb_spec (length ed) (so + 3 + nl)) as [|H3]; [done|].
  destruct (u16_at_split (so + 1) ed Hb) as [D L]; [lia|]. fold nl in D, L.
  set (x := (byte_at so ed, subarray (so + 3) (so + 3 + nl) ed)).
  assert (length x.2 = nl) as Hx by (cbn [snd x]; rewrite length_subarray; lia).
  assert (drop so ed = name_enc x ++ drop (so + 3 + nl) ed) as Hd.
  { unfold name_enc. rewrite Hx. cbn [x fst snd app]. rewrite -(assoc_L (++)).
    rewrite -(subarray_split (so + 3) (so + 3 + nl) ed); [|lia]. replace (so + 3)%nat with (so + 1 + 2)%nat by lia. rewrite -D.
    destruct (drop so ed) as [|b r] eqn:E; [apply (f_equal length) in E; rewrite length_drop in E; cbn in E; lia|].
    destruct (byte_next _ _ _ _ E) as [-> ->]. done. }
  destruct (Z.eqb_spec (byte_at so ed) 0) as [H0|H0].
  - exists [], x.2, (drop (so + 3 + nl) ed). split; [|split; [constructor|]].
    + rewrite Hd. unfold x. by rewrite H0.
    + split; [done|]. split; [unfold names_wire; cbn; lia|done].
  - specialize (IH ed (so + 3 + nl)%nat (ll - (3 + Z.of_nat nl)) Hb).
    destruct (sni_position fuel _ _ _) as [[pos nl']|]; [|exact IH].
    destruct IH as (l & host & R & HR & Hok & Hh & -> & Hll). exists (x :: l), host, R.
    change (names_wire (x :: l)) with (name_enc x ++ names_wire l). rewrite (length_app (name_enc x)) name_enc_length Hx.
    split; [by rewrite Hd HR -(assoc_L (++))|]. split; [by constructor; [rewrite /blen Hx|]|]. split; [done|]. split; [lia|].
    unfold blen in *. rewrite (length_app (name_enc x)) name_enc_length Hx. lia.
Qed.

(** ** The extension with the name *)

(** What the loops make of one extension. *)
Definition ext_position (x : nat * buffer) : option (nat * nat) :=
  if (x.1 =? 0)%nat && (2 <=? length x.2)%nat then sni_position (length x.2) x.2 2 (Z.of_nat (u16_at 0 x.2)) else None.

Lemma ext_read_nameless x e : bytes_ok x.2 → ext_position x = None → x_sni (ext_read x.1 x.2 e) = x_sni e.
Proof.
  intros Hb. unfold ext_position, ext_read. destruct (_ && _); [|by repeat case_match].
  intros H. pose proof (sni_position_inv (length x.2) x.2 2 (Z.of_nat (u16_at 0 x.2)) Hb) as Hi. rewrite H in Hi.
  cbn [x_sni]. rewrite Hi. apply app_nil_r.
Qed.

Lemma exts_read_more l : ∀ e, ∃ more, x_sni (exts_read l e) = x_sni e ++ more.
Proof.
  induction l as [|x l IH]; intros e; [exists []; by rewrite app_nil_r|]. destruct (IH (ext_read x.1 x.2 e)) as [more Hm].
  change (exts_read (x :: l) e) with (exts_read l (ext_read x.1 x.2 e)). rewrite Hm. unfold ext_read.
  repeat case_match; try (by eexists). cbn [x_sni]. rewrite -(assoc_L (++)). by eexists.
Qed.

Lemma exts_read_nameless l e : Forall (λ x, bytes_ok x.2 ∧ ext_position x = None) l → x_sni (exts_read l e) = x_sni e.
Proof.
  intros Hl. revert e. induction Hl as [|x l [Hb Hx] _ IH]; intros e; [done|].
  change (exts_read (x :: l) e) with (exts_read l (ext_read x.1 x.2 e)). rewrite IH. by apply ext_read_nameless.
Qed.

Lemma find_loop_wire fuel : ∀ l x post b eo p, (length l < fuel)%nat → Forall ext_ok (l ++ x :: post) →
  Forall (λ x, ext_position x = None) l → drop eo b = ext_wire (l ++ x :: post) → ext_position x = Some p →
  find_loop fuel b eo = Some ((eo + length (ext_wire l) + 4)%nat, p).
Proof.
  induction fuel as [|fuel IH]; intros l x post b eo p Hf Hok Hl Hd Hx; [lia|]. cbn [find_loop]. destruct l as [|y l].
  - cbn [app] in Hd, Hok. apply Forall_cons in Hok as [Hxk _]. destruct (ext_step _ _ _ _ Hd Hxk) as (H1 & -> & -> & _ & -> & _).
    rewrite (proj2 (Nat.leb_le _ _)) //. unfold ext_position in Hx. rewrite Hx. do 2 f_equal. unfold ext_wire. cbn. lia.
  - rewrite -app_comm_cons in Hd, Hok. apply Forall_cons in Hok as [Hyk Hok]. apply Forall_cons in Hl as [Hy Hl].
    destruct (ext_step _ _ _ _ Hd Hyk) as (H1 & -> & -> & _ & -> & Hd').
    rewrite (proj2 (Nat.leb_le _ _)) //. unfold ext_position in Hy. rewrite Hy (IH l x post b _ p) //; [|cbn in Hf; lia].
    do 2 f_equal. change (ext_wire (y :: l)) with (ext_enc y ++ ext_wire l). rewrite (length_app (ext_enc y)) ext_enc_length. lia.
Qed.

Lemma find_loop_inv fuel : ∀ l b eo rel p, Forall ext_ok l → (eo <= length b)%nat → drop eo b = ext_wire l → find_loop fuel b eo = Some (rel, p) →
  ∃ pre x post, l = pre ++ x :: post ∧ Forall (λ x, ext_position x = None) pre ∧ ext_position x = Some p ∧
    rel = (eo + length (ext_wire pre) + 4)%nat.
Proof.
  induction fuel as [|fuel IH]; intros l b eo rel p Hok Hle Hd; [done|]. cbn [find_loop].
  destruct l as [|x l].
  - pose proof (f_equal length Hd) as Hl. rewrite length_drop in Hl. change (length (ext_wire [])) with 0%nat in Hl.
    rewrite (proj2 (Nat.leb_gt _ _)); [done|lia].
  - apply Forall_cons in Hok as [Hx Hok]. destruct (ext_step _ _ _ _ Hd Hx) as (H1 & -> & -> & H2 & -> & Hd').
    rewrite (proj2 (Nat.leb_le _ _)) //. change (if (x.1 =? 0)%nat && _ then _ else None) with (ext_position x).
    destruct (ext_position x) as [q|] eqn:E.
    + intros [= <- <-]. exists [], x, l. split; [done|]. split; [constructor|]. split; [done|]. unfold ext_wire. cbn. lia.
    + intros Hf. destruct (IH l _ _ _ _ Hok H2 Hd' Hf) as (pre & y & post & -> & Hpre & Hy & ->). exists (x :: pre), y, post.
      split; [done|]. split; [by constructor|]. split; [done|].
      change (ext_wire (x :: pre)) with (ext_enc x ++ ext_wire pre). rewrite (length_app (ext_enc x)) ext_enc_length. lia.
Qed.

(** ** The shape of a hello with a name *)

Record Shape := MkShape {
  s_fixed : buffer;                      (* up to the extensions *)
  s_pre : list (nat * buffer);           (* the extensions before that of the name *)
  s_list : Z;                            (* the length it states for its list *)
  s_others : list (Z * buffer);          (* names of other types *)
  s_host : buffer;
  s_rest : buffer;                       (* the rest of its data *)
  s_post : list (nat * buffer);          (* the extensions after it *)
  s_after : buffer }.                    (* what follows them *)

Definition server_names (s : Shape) : buffer :=
  be_bytes 2 (s_list s) ++ names_wire (s_others s) ++ name_enc (0, s_host s) ++ s_rest s.
Definition s_exts (s : Shape) : list (nat * buffer) := s_pre s ++ (0%nat, server_names s) :: s_post s.
Definition shape_bytes (s : Shape) : buffer := hello_body (s_fixed s) (s_exts s) (s_after s).

Definition shape_ok (s : Shape) : Prop :=
  fixed_part (s_fixed s) ∧ block_ok (s_exts s) ∧ Forall (λ x, bytes_ok x.2 ∧ ext_position x = None) (s_pre s) ∧
  others_ok (s_others s) ∧ blen (names_wire (s_others s)) + 3 <= s_list s < 65536.

(** The same hello with another name. *)
Definition with_host (new : buffer) (s : Shape) : Shape :=
  MkShape (s_fixed s) (s_pre s) (s_list s + (blen new - blen (s_host s))) (s_others s) new (s_rest s) (s_post s) (s_after s).

Lemma with_host_back new s : with_host (s_host s) (with_host new s) = s.
Proof. destruct s. unfold with_host. cbn. f_equal. lia. Qed.

Definition list_pos (s : Shape) : nat := (length (s_fixed s) + 2 + (length (ext_wire (s_pre s)) + 4))%nat.
Definition host_pos (s : Shape) : nat := (list_pos s + (2 + length (names_wire (s_others s)) + 3))%nat.

Lemma server_names_ok s : shape_ok s → blen (s_host s) < 65536 ∧ blen (server_names s) < 65536.
Proof.
  intros (_ & [Hok _] & _). unfold s_exts in Hok. apply Forall_app in Hok as [_ [[_ H] _]%Forall_cons]. cbn [snd] in H.
  split; [|done]. revert H. unfold blen, server_names. rewrite !length_app name_enc_length. cbn [snd]. lia.
Qed.

Lemma names_length l : (length l <= length (names_wire l))%nat.
Proof. induction l as [|x l IH]; [done|]. change (names_wire (x :: l)) with (name_enc x ++ names_wire l). rewrite (length_app (name_enc x)) name_enc_length. cbn. lia. Qed.

(** The other names of its list that are read. *)
Definition rest_names (s : Shape) : list jstr :=
  names_behind (s_rest s) (s_list s - blen (names_wire (s_others s)) - 3 - blen (s_host s)).

(** The name is found where it is, and it is the name that is read. *)
Lemma shape_position s : shape_ok s → ext_position (0%nat, server_names s) =
    Some ((2 + length (names_wire (s_others s)) + 3)%nat, length (s_host s)) ∧
  sni_names (length (server_names s)) (server_names s) 2 (Z.of_nat (u16_at 0 (server_names s))) = utf8_decode (s_host s) :: rest_names s.
Proof.
  intros H. pose proof (server_names_ok s H) as [Hh _]. destruct H as (_ & _ & _ & Ho & Hl1 & Hl2).
  assert (u16_at 0 (server_names s) = Z.to_nat (s_list s) ∧ drop 2 (server_names s) =
    names_wire (s_others s) ++ name_enc (0, s_host s) ++ s_rest s) as [Hu Hd].
  { apply (u16_at_next 0); [|unfold blen in *; lia]. unfold server_names. rewrite Z2Nat.id //. unfold blen in *; lia. }
  assert (Z.of_nat (u16_at 0 (server_names s)) = s_list s) as -> by (rewrite Hu Z2Nat.id //; unfold blen in *; lia).
  pose proof (names_length (s_others s)).
  assert (5 + length (names_wire (s_others s)) <= length (server_names s))%nat as HL.
  { unfold server_names. rewrite !length_app length_be_bytes name_enc_length. lia. }
  unfold ext_position. cbn [fst snd]. rewrite (proj2 (Nat.leb_le 2 _)); [|lia]. cbn [Nat.eqb andb].
  rewrite Hu Z2Nat.id; [|unfold blen in *; lia].
  destruct (sni_position_wire (length (server_names s)) (s_others s) (server_names s) 2 (s_list s) (s_host s) (s_rest s))
    as [E1 E2]; [rewrite length_drop; lia|done|done|done|done|].
  split; [exact E1|exact E2].
Qed.

(** Everything but the name. *)
Definition shape_other (s : Shape) : Exts :=
  let e := exts_read (s_pre s) (MkExts [] [] []) in exts_read (s_post s) (MkExts (rest_names s) (x_alpn e) (x_supportedVersions e)).

Lemma with_host_other new s : shape_other (with_host new s) = shape_other s.
Proof.
  assert (rest_names (with_host new s) = rest_names s) as E.
  { unfold rest_names. cbn [with_host s_rest s_list s_others s_host]. f_equal. lia. }
  unfold shape_other. by rewrite E.
Qed.

Lemma exts_read_first l : ∀ n sni alpn vs, exts_read l (MkExts (n :: sni) alpn vs) =
  let x := exts_read l (MkExts sni alpn vs) in MkExts (n :: x_sni x) (x_alpn x) (x_supportedVersions x).
Proof.
  induction l as [|x l IH]; intros n sni alpn vs; [done|].
  change (exts_read (x :: l) ?e) with (exts_read l (ext_read x.1 x.2 e)).
  assert (ext_read x.1 x.2 (MkExts (n :: sni) alpn vs) = let y := ext_read x.1 x.2 (MkExts sni alpn vs) in
    MkExts (n :: x_sni y) (x_alpn y) (x_supportedVersions y)) as E by (unfold ext_read; by repeat case_match).
  change (exts_read (x :: l) (MkExts (n :: sni) alpn vs)) with (exts_read l (ext_read x.1 x.2 (MkExts (n :: sni) alpn vs))).
  change (exts_read (x :: l) (MkExts sni alpn vs)) with (exts_read l (ext_read x.1 x.2 (MkExts sni alpn vs))).
  rewrite E. cbv zeta. rewrite IH. by destruct (ext_read x.1 x.2 (MkExts sni alpn vs)).
Qed.

Lemma shape_parse s : shape_ok s → parseTlsClientHelloReadableExtensions (shape_bytes s) =
  Ret (Accepted (MkExts (utf8_decode (s_host s) :: x_sni (shape_other s)) (x_alpn (shape_other s)) (x_supportedVersions (shape_other s)))).
Proof.
  intros H. destruct (shape_position s H) as [_ Hm]. destruct H as (Hf & Hb & Hpre & _).
  unfold shape_bytes. rewrite parse_hello_body //. do 2 f_equal. unfold s_exts, exts_read. rewrite fold_left_app. cbn [fold_left fst snd].
  change (fold_left _ (s_pre s) ?e) with (exts_read (s_pre s) e). set (e1 := exts_read (s_pre s) (MkExts [] [] [])).
  change (fold_left _ (s_post s) ?e) with (exts_read (s_post s) e).
  assert (ext_read 0 (server_names s) e1 = MkExts (utf8_decode (s_host s) :: rest_names s) (x_alpn e1) (x_supportedVersions e1)) as ->.
  { unfold ext_read. cbn [Nat.eqb andb]. rewrite (proj2 (Nat.leb_le _ _)); [|unfold server_names; rewrite length_app length_be_bytes; lia].
    by rewrite Hm /e1 exts_read_nameless. }
  by rewrite exts_read_first.
Qed.

Lemma shape_find s : shape_ok s → findFirstSniLayoutInClientHelloBody (shape_bytes s) =
  Ret (Some (MkLayout (host_pos s) (length (s_host s)) (list_pos s) (list_pos s - 2) (length (s_fixed s)))).
Proof.
  intros H. destruct (shape_position s H) as [Hp _]. destruct H as (Hf & Hb & Hpre & _).
  unfold findFirstSniLayoutInClientHelloBody, shape_bytes. rewrite hello_body_offset // ret_bind. cbv zeta.
  destruct (hello_body_block (s_fixed s) _ (s_after s) Hb) as [-> ->].
  rewrite (proj2 (Nat.ltb_ge _ _)); [|unfold hello_body; rewrite !length_app length_be_bytes; lia].
  rewrite (find_loop_wire _ (s_pre s) (0%nat, server_names s) (s_post s) _ 0 _ _ _ _ _ Hp) //.
  - pose proof (ext_wire_length (s_exts s)) as Hl. unfold s_exts in *. rewrite length_app in Hl. cbn [length] in Hl. lia.
  - apply Hb.
  - eapply Forall_impl; [exact Hpre|]. by intros ? [].
Qed.

Lemma ext_wire_bytes l : bytes_ok (ext_wire l) → Forall (λ x, bytes_ok x.2) l.
Proof.
  induction l as [|x l IH]; [constructor|]. change (ext_wire (x :: l)) with (ext_enc x ++ ext_wire l).
  intros [Hx Hl]%bytes_ok_app. unfold ext_enc in Hx. rewrite !bytes_ok_app in Hx. constructor; [tauto|by apply IH].
Qed.

(** A hello that parses, and where a name is found, has the shape. *)
Lemma shape_inv ch x layout : bytes_ok ch → parseTlsClientHelloReadableExtensions ch = Ret (Accepted x) →
  findFirstSniLayoutInClientHelloBody ch = Ret (Some layout) → ∃ s, shape_ok s ∧ ch = shape_bytes s.
Proof.
  intros Hb Hx Hl. destruct (parse_hello_inv ch x Hb Hx) as (H & l & T & -> & HH & Hblk & ->).
  unfold findFirstSniLayoutInClientHelloBody in Hl. rewrite hello_body_offset // ret_bind in Hl. cbv zeta in Hl.
  destruct (hello_body_block H l T Hblk) as [E1 E2]. rewrite E1 E2 in Hl. case_match; [done|].
  destruct (find_loop _ _ _) as [[rel [so nl]]|] eqn:E; [|done]. clear Hl.
  destruct (find_loop_inv _ l _ 0 rel (so, nl) (proj1 Hblk) ltac:(lia) eq_refl E) as (pre & [t d] & post & -> & Hpre & Hp & _).
  unfold hello_body in Hb. rewrite !bytes_ok_app in Hb. destruct Hb as (_ & _ & Hb%ext_wire_bytes & _).
  apply Forall_app in Hb as [Hbp [Hbd _]%Forall_cons]. cbn [snd] in Hbd. unfold ext_position in Hp. cbn [fst snd] in Hp.
  destruct (Nat.eqb_spec t 0) as [->|]; [|done]. destruct (Nat.leb_spec 2 (length d)) as [H2|]; [|done]. cbn [andb] in Hp.
  pose proof (sni_position_inv (length d) d 2 (Z.of_nat (u16_at 0 d)) Hbd) as Hi. rewrite Hp in Hi.
  destruct Hi as (others & host & R & Hd & Ho & Hh & _ & Hll). destruct (u16_at_split 0 d Hbd H2) as [D L].
  exists (MkShape H pre (Z.of_nat (u16_at 0 d)) others host R post T).
  assert (server_names (MkShape H pre (Z.of_nat (u16_at 0 d)) others host R post T) = d) as Es.
  { unfold server_names. cbn. rewrite -Hd. change (drop 0 d) with d in D. by rewrite -D. }
  unfold shape_ok, shape_bytes, s_exts. rewrite Es. cbn. split; [|done]. split; [done|]. split; [done|]. split; [|done].
  apply Forall_and. split; [exact Hbp|exact Hpre].
Qed.

Lemma read_u16_at off b : (off + 2 <= length b)%nat → ∃ v, read_u16 off b = Ret v ∧ Z.to_nat v = u16_at off b.
Proof. intros H. exists (be_value (subarray off (off + 2) b)). split; [by apply read_uint_ok|done]. Qed.

Lemma not_blocked ch o : hello_offset ch = Ret (Accepted o) → (o + 2 + u16_at o ch <= length ch)%nat →
  clientHelloBlockedForEncSni ch = Ret None.
Proof.
  intros (sid & Hsid & Ho & Hl)%hello_offset_inv Hx. cbv zeta in Ho. unfold clientHelloBlockedForEncSni.
  rewrite (proj2 (Nat.ltb_ge _ _)); [|lia]. rewrite Hsid. cbv zeta. set (o1 := (35 + Z.to_nat sid)%nat) in *.
  destruct (read_u16_at o1 ch ltac:(lia)) as (cs & -> & Hcs). rewrite ret_bind Hcs. set (o2 := (o1 + 2 + u16_at o1 ch)%nat) in *.
  destruct (lookup_lt_is_Some_2 ch o2 ltac:(lia)) as [c Hc]. rewrite Hc.
  assert (Z.to_nat c = u8_at o2 ch) as -> by (by rewrite /u8_at /byte_at Hc). rewrite -Ho.
  rewrite (proj2 (Nat.ltb_ge _ _)) //. destruct (read_u16_at o ch Hl) as (e & -> & He). rewrite ret_bind He.
  by rewrite (proj2 (Nat.ltb_ge _ _)).
Qed.

Lemma shape_not_blocked s : shape_ok s → clientHelloBlockedForEncSni (shape_bytes s) = Ret None.
Proof.
  intros (Hf & Hb & _). apply (not_blocked _ (length (s_fixed s))); [by apply hello_body_offset|].
  unfold shape_bytes. destruct (hello_body_block (s_fixed s) _ (s_after s) Hb) as [-> _].
  unfold hello_body. rewrite !length_app length_be_bytes. lia.
Qed.

(** ** Rebuilding the body *)

Lemma write_uint_mid_inv n v (p m q : buffer) off b : write_uint n v off (p ++ m ++ q) = Ret b → off = length p → n = length m →
  0 <= v < 256 ^ Z.of_nat n ∧ b = p ++ be_bytes n v ++ q.
Proof.
  intros H -> ->. apply write_uint_Ret in H as (Hv & _ & ->). split; [done|]. by rewrite buf_copy_mid ?length_be_bytes.
Qed.

Lemma add_u16_mid delta v (p q : buffer) off : off = length p → 0 <= v < 65536 → 0 <= v + delta < 65536 →
  add_u16 delta off (p ++ be_bytes 2 v ++ q) = Ret (p ++ be_bytes 2 (v + delta) ++ q).
Proof.
  intros Ho Hv Hd. unfold add_u16. rewrite read_be_mid // ret_bind. by apply write_uint_mid.
Qed.
Lemma add_u16_mid_inv delta v (p q : buffer) off b : add_u16 delta off (p ++ be_bytes 2 v ++ q) = Ret b → off = length p →
  0 <= v < 65536 → 0 <= v + delta < 65536 ∧ b = p ++ be_bytes 2 (v + delta) ++ q.
Proof.
  intros H Ho Hv. unfold add_u16 in H. rewrite read_be_mid // ret_bind in H.
  by apply (write_uint_mid_inv 2 _ _ _ _ _ _ H).
Qed.

(** The bytes around the four lengths and the name. *)
Lemma shape_pieces s : shape_bytes s =
  s_fixed s ++ be2 (length (ext_wire (s_exts s))) ++ (ext_wire (s_pre s) ++ be2 0) ++ be2 (length (server_names s)) ++
  be_bytes 2 (s_list s) ++ (names_wire (s_others s) ++ [0]) ++ be2 (length (s_host s)) ++ s_host s ++
  (s_rest s ++ ext_wire (s_post s) ++ s_after s).
Proof.
  unfold shape_bytes, hello_body. f_equal. f_equal. unfold s_exts. rewrite ext_wire_app.
  change (ext_wire (_ :: s_post s)) with (ext_enc (0%nat, server_names s) ++ ext_wire (s_post s)).
  unfold ext_enc. cbn [fst snd]. rewrite -!(assoc_L (++)). by do 2 f_equal.
Qed.

(** Copying around the name. *)
Lemma splice (p new q : buffer) : let out := buf_alloc (length p + length new + length q) in
  buf_copy q (length p + length new) (buf_copy new (length p) (buf_copy p 0 out)) = p ++ new ++ q.
Proof.
  cbv zeta. rewrite (buf_alloc_nil (length p + _ + _)) (buf_copy_zero p 0 []) //; [|lia]. cbn [app].
  rewrite (buf_copy_zero new) //; [|lia]. rewrite buf_copy_zero; [|by rewrite length_app|lia].
  replace (_ - _ - _ - _)%nat with 0%nat by lia. by rewrite app_nil_r -(assoc_L (++)).
Qed.

(** The four lengths and the name, between what stays. *)
Section frame.
Variables A B C S : buffer.
Definition frame (x e l n : Z) (h : buffer) : buffer :=
  A ++ be_bytes 2 x ++ B ++ be_bytes 2 e ++ be_bytes 2 l ++ C ++ be_bytes 2 n ++ h ++ S.

Lemma frame_x x e l n h : frame x e l n h = A ++ be_bytes 2 x ++ (B ++ be_bytes 2 e ++ be_bytes 2 l ++ C ++ be_bytes 2 n ++ h ++ S).
Proof. done. Qed.
Lemma frame_e x e l n h : frame x e l n h = (A ++ be_bytes 2 x ++ B) ++ be_bytes 2 e ++ (be_bytes 2 l ++ C ++ be_bytes 2 n ++ h ++ S).
Proof. by rewrite /frame -!(assoc_L (++)). Qed.
Lemma frame_l x e l n h : frame x e l n h = (A ++ be_bytes 2 x ++ B ++ be_bytes 2 e) ++ be_bytes 2 l ++ (C ++ be_bytes 2 n ++ h ++ S).
Proof. by rewrite /frame -!(assoc_L (++)). Qed.
Lemma frame_n x e l n h : frame x e l n h = (A ++ be_bytes 2 x ++ B ++ be_bytes 2 e ++ be_bytes 2 l ++ C) ++ be_bytes 2 n ++ (h ++ S).
Proof. by rewrite /frame -!(assoc_L (++)). Qed.
Lemma frame_h x e l n h : frame x e l n h = (A ++ be_bytes 2 x ++ B ++ be_bytes 2 e ++ be_bytes 2 l ++ C ++ be_bytes 2 n) ++ h ++ S.
Proof. by rewrite /frame -!(assoc_L (++)). Qed.

Definition u16_range (v : Z) : Prop := 0 <= v < 65536.

Lemma patch x e l n h delta xp lp np b : u16_range x → u16_range e → u16_range l →
  xp = length A → lp = (length A + 2 + length B + 2)%nat → np = (lp + 2 + length C)%nat →
  (out ← write_uint 2 (blen h) np (frame x e l n h); out ← add_u16 delta lp out; out ← add_u16 delta (lp - 2) out; add_u16 delta xp out) = Ret b
  ↔ u16_range (blen h) ∧ u16_range (l + delta) ∧ u16_range (e + delta) ∧ u16_range (x + delta) ∧
    b = frame (x + delta) (e + delta) (l + delta) (blen h) h.
Proof.
  intros Hx He Hl -> -> ->. split.
  - intros (o1 & H1 & H)%outcome_bind_Ret. rewrite frame_n in H1.
    apply write_uint_mid_inv in H1 as [? ->]; [|rewrite !length_app !length_be_bytes; lia|by rewrite length_be_bytes].
    rewrite -frame_n in H. apply outcome_bind_Ret in H as (o2 & H2 & H). rewrite frame_l in H2.
    apply add_u16_mid_inv in H2 as [? ->]; [|rewrite !length_app !length_be_bytes; lia|done].
    rewrite -frame_l in H. apply outcome_bind_Ret in H as (o3 & H3 & H). rewrite frame_e in H3.
    apply add_u16_mid_inv in H3 as [? ->]; [|rewrite !length_app !length_be_bytes; lia|done].
    rewrite -frame_e frame_x in H. by apply add_u16_mid_inv in H as [? ->].
  - intros (? & ? & ? & ? & ->). rewrite frame_n write_uint_mid; [|done|rewrite !length_app !length_be_bytes; lia|by rewrite length_be_bytes].
    rewrite ret_bind -frame_n frame_l add_u16_mid //; [|rewrite !length_app !length_be_bytes; lia].
    rewrite ret_bind -frame_l frame_e add_u16_mid //; [|rewrite !length_app !length_be_bytes; lia].
    by rewrite ret_bind -frame_e frame_x add_u16_mid.
Qed.
End frame.

Definition shape_frame (s : Shape) : Z → Z → Z → Z → buffer → buffer :=
  frame (s_fixed s) (ext_wire (s_pre s) ++ be2 0) (names_wire (s_others s) ++ [0]) (s_rest s ++ ext_wire (s_post s) ++ s_after s).

Lemma shape_as_frame s : shape_bytes s =
  shape_frame s (blen (ext_wire (s_exts s))) (blen (server_names s)) (s_list s) (blen (s_host s)) (s_host s).
Proof. apply shape_pieces. Qed.

Lemma with_host_lengths new s :
  blen (server_names (with_host new s)) = blen (server_names s) + (blen new - blen (s_host s)) ∧
  blen (ext_wire (s_exts (with_host new s))) = blen (ext_wire (s_exts s)) + (blen new - blen (s_host s)).
Proof.
  assert (blen (server_names (with_host new s)) = blen (server_names s) + (blen new - blen (s_host s))) as E.
  { unfold blen, server_names. rewrite !length_app !name_enc_length !length_be_bytes. cbn -[names_wire]. lia. }
  assert (∀ d, length (ext_wire (s_pre s ++ (0%nat, d) :: s_post s)) = length (ext_wire (s_pre s)) + (4 + length d + length (ext_wire (s_post s))))%nat as L.
  { intros d. rewrite ext_wire_app length_app. change (ext_wire ((0%nat, d) :: ?l)) with (ext_enc (0%nat, d) ++ ext_wire l).
    by rewrite (length_app (ext_enc _)) ext_enc_length. }
  split; [exact E|]. unfold s_exts. change (s_pre (with_host new s)) with (s_pre s). change (s_post (with_host new s)) with (s_post s).
  unfold blen in *. rewrite !L. lia.
Qed.

(** The numbers a new name needs to fit in. *)
Definition fits (new : buffer) (s : Shape) : Prop :=
  let delta := blen new - blen (s_host s) in
  1 <= blen new <= 253 ∧ u16_range (s_list s + delta) ∧ u16_range (blen (server_names s) + delta) ∧
  u16_range (blen (ext_wire (s_exts s)) + delta).

Lemma rebuild_shape s name ch : shape_ok s →
  rebuildClientHelloBodyWithHostname (shape_bytes s) name = Ret ch ↔
  fits (utf8_encode name) s ∧ ch = shape_bytes (with_host (utf8_encode name) s).
Proof.
  intros H. pose proof (server_names_ok s H) as [Hh Hn]. pose proof H as (_ & [_ Hx] & _ & _ & Hl).
  unfold rebuildClientHelloBodyWithHostname. rewrite shape_not_blocked // ret_bind shape_find // ret_bind.
  cbn [hostnameStartChBodyAbs hostnameLenBytes sniListLenPos sniExtLenPos extensionsTotalLenPos]. set (new := utf8_encode name).
  set (B := ext_wire (s_pre s) ++ be2 0). set (C := names_wire (s_others s) ++ [0]).
  set (Q := s_rest s ++ ext_wire (s_post s) ++ s_after s).
  set (P := s_fixed s ++ be2 (length (ext_wire (s_exts s))) ++ B ++ be2 (length (server_names s)) ++ be_bytes 2 (s_list s) ++ C ++ be2 (length (s_host s))).
  assert (shape_bytes s = P ++ s_host s ++ Q) as E by (by rewrite shape_as_frame /shape_frame frame_h).
  assert (host_pos s = length P) as EP.
  { unfold host_pos, list_pos, P, B, C. rewrite !length_app !length_be_bytes. cbn [length]. lia. }
  assert (subarray 0 (host_pos s) (shape_bytes s) = P ∧ subarray (host_pos s) (host_pos s + length (s_host s)) (shape_bytes s) = s_host s ∧
    drop (host_pos s + length (s_host s)) (shape_bytes s) = Q) as (-> & -> & ->).
  { rewrite E EP. split; [by apply (subarray_mid [] P)|]. split; [by apply subarray_mid|].
    rewrite (assoc_L (++)). apply drop_app_exact. by rewrite length_app. }
  replace (Z.to_nat (blen (shape_bytes s) + (blen new - blen (s_host s)))) with (length P + length new + length Q)%nat; last first.
  { rewrite E /blen !length_app. lia. }
  assert (frame (s_fixed s) B C Q (blen (ext_wire (s_exts s))) (blen (server_names s)) (s_list s) (blen (s_host s)) new = P ++ new ++ Q) as EF.
  { by rewrite frame_h. }
  rewrite EP splice -EF. destruct (with_host_lengths new s) as [W1 W2].
  pose proof (λ b, patch (s_fixed s) B C Q (blen (ext_wire (s_exts s))) (blen (server_names s)) (s_list s) (blen (s_host s)) new
    (blen new - blen (s_host s)) (length (s_fixed s)) (list_pos s) (length P - 2) b) as HP.
  rewrite (shape_as_frame (with_host new s)) W1 W2.
  destruct (Nat.ltb_spec (length new) 1); [|destruct (Nat.ltb_spec 253 (length new))]; cbn [orb negb guard_js].
  - split; [done|]. unfold fits, blen. lia.
  - split; [done|]. unfold fits, blen. lia.
  - rewrite ret_bind HP; [|split; [unfold blen; lia|done]|split; [unfold blen; lia|done]|unfold blen in Hl; split; lia|done| |].
    + unfold fits. fold new. split; [intros (? & ? & ? & ? & ->)|intros ((? & ? & ? & ?) & ->)]; [|].
      * split; [|done]. split; [unfold blen; lia|done].
      * split; [unfold u16_range, blen; lia|done].
    + unfold list_pos, B. rewrite length_app length_be_bytes. lia.
    + unfold P, B, C, list_pos. rewrite !length_app !length_be_bytes. cbn [length]. lia.
Qed.

Lemma with_host_ok new s : shape_ok s → fits new s → blen (s_host s) <= blen new → shape_ok (with_host new s).
Proof.
  intros (Hf & [Hok _] & Hpre & Ho & Hl) (Hn & R1 & R2 & R3) Hle. destruct (with_host_lengths new s) as [W1 W2].
  split; [exact Hf|]. split; [split; [|rewrite W2; apply R3]|].
  - unfold s_exts in *. apply Forall_app in Hok as [Hp [_ Hq]%Forall_cons]. apply Forall_app. split; [exact Hp|].
    constructor; [|exact Hq]. split; [done|]. change (blen (server_names (with_host new s)) < 65536). rewrite W1. apply R2.
  - split; [exact Hpre|]. split; [exact Ho|]. destruct R1. cbn [with_host s_list s_others]. lia.
Qed.

Lemma fits_back new s : shape_ok s → 1 <= blen (s_host s) <= 253 → fits (s_host s) (with_host new s).
Proof.
  intros H Hh. pose proof (server_names_ok s H) as [_ Hn]. destruct H as (_ & [_ Hx] & _ & _ & Hl).
  destruct (with_host_lengths new s) as [W1 W2]. split; [exact Hh|]. rewrite W1 W2. cbn [with_host s_host s_list]. unfold u16_range, blen in *. lia.
Qed.

(** ** Rebuilding the records *)

Section regrow.
Variable hs : nat.

Definition owns (off : nat) (r : buffer * buffer) : bool := (off <=? hs)%nat && (hs <? off + length r.2)%nat.
Definition new_size (delta : Z) (off : nat) (r : buffer * buffer) : Z := blen r.2 + (if owns off r then delta else 0).
Definition size_ok (delta : Z) (off : nat) (r : buffer * buffer) : Prop :=
  blen r.2 <= MAX_PLAINTEXT_RECORD_BYTES ∧ 1 <= new_size delta off r <= MAX_PLAINTEXT_RECORD_BYTES ∧
  (owns off r = true → Z.of_nat hs - Z.of_nat off < new_size delta off r).

(** The same records with other payloads, the one with the name's first byte [delta] longer. *)
Fixpoint regrow (delta : Z) (off : nat) (rs rs' : list (buffer * buffer)) : Prop :=
  match rs, rs' with
  | [], [] => True
  | r :: rs, r' :: rs' => r'.1 = r.1 ∧ blen r'.2 = new_size delta off r ∧ size_ok delta off r ∧ (1 <= length r.2)%nat ∧
      regrow delta (off + length r.2) rs rs'
  | _, _ => False
  end.

Lemma owns_true off r : owns off r = true ↔ (off <= hs < off + length r.2)%nat.
Proof. unfold owns. rewrite andb_true_iff Nat.leb_le Nat.ltb_lt. done. Qed.
Lemma owns_false off r : owns off r = false ↔ ¬ (off <= hs < off + length r.2)%nat.
Proof. by rewrite -owns_true not_true_iff_false. Qed.

(** Past the record with the name. *)
Lemma regrow_past delta off off' rs : ∀ rs', (hs < off)%nat → (hs < off')%nat → regrow delta off rs rs' → regrow (- delta) off' rs' rs.
Proof.
  revert off off'. induction rs as [|r rs IH]; intros off off' [|r' rs'] H1 H2; try done. cbn [regrow].
  intros (-> & Hs & (Hs1 & Hs2 & _) & Hl & Hr). unfold size_ok, new_size in *.
  rewrite (proj2 (owns_false off r)) in Hs, Hs2; [|lia]. rewrite (proj2 (owns_false off' r')); [|lia]. unfold blen in *.
  split; [done|]. split; [lia|]. split; [split; [lia|]; split; [lia|done]|]. split; [lia|]. by apply (IH (off + length r.2)%nat); [lia..|].
Qed.

Lemma regrow_back delta off rs : ∀ rs', (off <= hs)%nat → regrow delta off rs rs' → regrow (- delta) off rs' rs.
Proof.
  revert off. induction rs as [|r rs IH]; intros off [|r' rs'] H1; try done. cbn [regrow].
  intros (-> & Hs & (Hs1 & Hs2 & Hs3) & Hl & Hr). unfold size_ok, new_size in *. destruct (owns off r) eqn:E.
  - specialize (Hs3 eq_refl). apply owns_true in E. rewrite (proj2 (owns_true off r')); [|unfold blen in *; lia]. unfold blen in *.
    split; [done|]. split; [lia|]. split; [split; [lia|]; split; [lia|intros _; lia]|]. split; [lia|].
    by apply (regrow_past _ (off + length r.2)); [lia..|].
  - apply owns_false in E. rewrite (proj2 (owns_false off r')); [|unfold blen in *; lia]. unfold blen in *.
    split; [done|]. split; [lia|]. split; [split; [lia|]; split; [lia|done]|]. split; [lia|].
    replace (off + length r'.2)%nat with (off + length r.2)%nat by lia. by apply IH; [lia|].
Qed.

Lemma regrow_minimal_past delta off a T rs : ∀ rs' a' T', (hs < off)%nat → Z.of_nat a' = Z.of_nat a + delta → Z.of_nat T' = Z.of_nat T + delta →
  regrow delta off rs rs' → minimal a T rs → minimal a' T' rs'.
Proof.
  revert off a. induction rs as [|r rs IH]; intros off a [|r' rs'] a' T' H1 Ha HT; try done. cbn [regrow minimal].
  intros (_ & Hs & _ & _ & Hr) Hm. unfold new_size in Hs. rewrite (proj2 (owns_false off r)) in Hs; [|lia]. unfold blen in Hs.
  destruct (Nat.ltb_spec (a + length r.2) T) as [Hlt|Hge].
  - rewrite (proj2 (Nat.ltb_lt _ _)); [|lia]. apply (IH (off + length r.2)%nat (a + length r.2)%nat); [lia..|done|done].
  - rewrite (proj2 (Nat.ltb_ge _ _)); [|lia]. subst rs. by destruct rs'.
Qed.

Lemma regrow_minimal delta off T rs : ∀ rs' T', (off <= hs)%nat → (hs < T)%nat → (hs < T')%nat → Z.of_nat T' = Z.of_nat T + delta →
  regrow delta off rs rs' → minimal off T rs → minimal off T' rs'.
Proof.
  revert off. induction rs as [|r rs IH]; intros off [|r' rs'] T' H1 HT HT' E; try done. cbn [regrow minimal].
  intros (_ & Hs & _ & _ & Hr) Hm. unfold new_size in Hs. destruct (owns off r) eqn:Ho; unfold blen in Hs.
  - apply owns_true in Ho. destruct (Nat.ltb_spec (off + length r.2) T) as [Hlt|Hge].
    + rewrite (proj2 (Nat.ltb_lt _ _)); [|lia]. apply (regrow_minimal_past delta (off + length r.2) (off + length r.2) T rs); [lia..|done|done].
    + rewrite (proj2 (Nat.ltb_ge _ _)); [|lia]. subst rs. by destruct rs'.
  - apply owns_false in Ho. rewrite (proj2 (Nat.ltb_lt _ _)) in Hm; [|lia]. rewrite (proj2 (Nat.ltb_lt _ _)); [|lia].
    replace (off + length r'.2)%nat with (off + length r.2)%nat by lia. by apply (IH (off + length r.2)%nat); [lia..| |].
Qed.

Lemma regrow_ok delta off rs : ∀ rs', regrow delta off rs rs' → Forall rec_ok rs → Forall rec_ok rs'.
Proof.
  revert off. induction rs as [|r rs IH]; intros off [|r' rs']; try done. cbn [regrow].
  intros (Hh & Hs & (_ & [H1 H2] & _) & _ & Hr) [[H3 _] Hok]%Forall_cons. constructor; [|by eapply IH].
  rewrite /rec_ok Hh. split; [done|]. rewrite -Hs in H1, H2. unfold blen, MAX_PLAINTEXT_RECORD_BYTES in *. lia.
Qed.

(** The sizes the loop computes, and when it accepts them. *)
Fixpoint sized (delta : Z) (off : nat) (rs : list (buffer * buffer)) : list (buffer * nat) :=
  match rs with
  | [] => []
  | r :: rs => (r.1 ++ be2 (length r.2), Z.to_nat (new_size delta off r)) :: sized delta (off + length r.2) rs
  end.
Fixpoint sizes_ok (delta : Z) (off : nat) (rs : list (buffer * buffer)) : Prop :=
  match rs with [] => True | r :: rs => size_ok delta off r ∧ sizes_ok delta (off + length r.2) rs end.
Fixpoint sizes_sum (delta : Z) (off : nat) (rs : list (buffer * buffer)) : Z :=
  match rs with [] => 0 | r :: rs => new_size delta off r + sizes_sum delta (off + length r.2) rs end.

Lemma regrow_sizes delta off rs : ∀ rs', regrow delta off rs rs' → sizes_ok delta off rs.
Proof.
  revert off. induction rs as [|r rs IH]; intros off [|r' rs']; try done. cbn. intros (_ & _ & ? & _ & ?%IH). done.
Qed.

Lemma regrow_exists delta off rs : ∀ P, Forall rec_ok rs → sizes_ok delta off rs → blen P = sizes_sum delta off rs →
  ∃ rs', regrow delta off rs rs' ∧ rec_payload rs' = P.
Proof.
  revert off. induction rs as [|r rs IH]; intros off P Hok Hs HP.
  - exists []. split; [done|]. unfold blen in HP. cbn in HP. by destruct P.
  - apply Forall_cons in Hok as [(_ & H1 & _) Hok]. cbn [sizes_ok sizes_sum] in Hs, HP. destruct Hs as [Hr Hs].
    assert (∀ off rs, sizes_ok delta off rs → 0 <= sizes_sum delta off rs) as Hpos.
    { clear. intros off rs. revert off. induction rs as [|r rs IH]; intros off; cbn; [lia|]. intros [(_ & ? & _) ?%IH]. lia. }
    pose proof (Hpos _ _ Hs) as Hp. pose proof Hr as (_ & Hn & _). set (n := Z.to_nat (new_size delta off r)).
    destruct (IH (off + length r.2)%nat (drop n P) Hok Hs) as (rs' & Hre & HP').
    { unfold blen in *. rewrite length_drop. lia. }
    exists ((r.1, take n P) :: rs'). split.
    + cbn [regrow fst snd]. split; [done|]. split; [unfold blen in *; rewrite length_take; lia|]. done.
    + change (take n P ++ rec_payload rs' = P). by rewrite HP' take_drop.
Qed.

Lemma sizes_sum_past delta off rs : (hs < off)%nat → sizes_sum delta off rs = blen (rec_payload rs).
Proof.
  revert off. induction rs as [|r rs IH]; intros off H; [done|]. cbn [sizes_sum]. rewrite IH; [|lia].
  unfold new_size. rewrite (proj2 (owns_false off r)); [|lia]. change (rec_payload (r :: rs)) with (r.2 ++ rec_payload rs).
  unfold blen. rewrite (length_app r.2). lia.
Qed.
Lemma sizes_sum_owner delta off rs : (off <= hs < off + length (rec_payload rs))%nat →
  sizes_sum delta off rs = blen (rec_payload rs) + delta.
Proof.
  revert off. induction rs as [|r rs IH]; intros off H; [cbn in H; lia|]. cbn [sizes_sum].
  change (rec_payload (r :: rs)) with (r.2 ++ rec_payload rs) in *. unfold blen in *. rewrite ->(length_app r.2) in *.
  unfold new_size. destruct (owns off r) eqn:E.
  - apply owns_true in E. rewrite sizes_sum_past; [|lia]. unfold blen. lia.
  - apply owns_false in E. rewrite IH; [|lia]. unfold blen. lia.
Qed.

Lemma regrow_lengths delta off rs : ∀ rs', Forall rec_ok rs → regrow delta off rs rs' →
  blen (rec_payload rs') = sizes_sum delta off rs ∧ blen (rec_wire rs') = blen (rec_wire rs) + sizes_sum delta off rs - blen (rec_payload rs).
Proof.
  revert off. induction rs as [|r rs IH]; intros off [|r' rs']; try done. cbn [regrow sizes_sum].
  intros [([Hh _] & _) Hok]%Forall_cons (Hh' & Hs & _ & _ & Hr). destruct (IH _ _ Hok Hr) as [E1 E2].
  change (rec_payload (?x :: ?l)) with (x.2 ++ rec_payload l). 
  assert (∀ x l, length x.1 = 3%nat → blen (rec_wire (x :: l)) = 5 + blen x.2 + blen (rec_wire l)) as W.
  { intros x l Hx. change (rec_wire (x :: l)) with (rec_enc x ++ rec_wire l). unfold blen. rewrite (length_app (rec_enc x)) rec_enc_length //. lia. }
  assert (∀ x l, blen (rec_payload (x :: l)) = blen x.2 + blen (rec_payload l)) as Wp.
  { intros x l. change (rec_payload (x :: l)) with (x.2 ++ rec_payload l). unfold blen. rewrite (length_app x.2). lia. }
  rewrite !Wp !W ?Hh' //. lia.
Qed.

(** The two loops on records. *)
Lemma resize_loop_wire fuel : ∀ rs buf consumed delta pos off tail res, (length rs < fuel)%nat → Forall rec_ok rs →
  drop pos buf = rec_wire rs ++ tail → consumed = (pos + length (rec_wire rs))%nat →
  resize_loop fuel buf consumed hs delta pos off = Ret res ↔ sizes_ok delta off rs ∧ res = (sized delta off rs, map snd rs).
Proof.
  induction fuel as [|fuel IH]; intros rs buf consumed delta pos off tail res Hf Hok Hd ->; [lia|]. cbn [resize_loop].
  destruct rs as [|r rs].
  { change (length (rec_wire [])) with 0%nat. rewrite (proj2 (Nat.ltb_ge _ _)); [|lia]. cbn. split; [intros [= <-]; done|by intros [_ ->]]. }
  apply Forall_cons in Hok as [Hr Hok]. destruct (rec_step _ _ _ _ _ Hd Hr) as (Hl & _ & _ & Hs & Hd'). destruct Hr as ([Hh _] & H1 & H2).
  change (rec_wire (r :: rs)) with (rec_enc r ++ rec_wire rs) in *. rewrite (length_app (rec_enc r)) (rec_enc_length r Hh).
  rewrite (proj2 (Nat.ltb_lt _ _)); [|lia]. unfold rec_enc in Hd. rewrite -!(assoc_L (++)) in Hd.
  assert (read_u16 (pos + 3) buf = Ret (blen r.2)) as ->.
  { eapply read_next_be; [by apply (drop_next pos 3 buf _ _ Hd)|lia|unfold blen in *; lia]. }
  assert (subarray pos (pos + 5) buf = r.1 ++ be2 (length r.2)) as ->.
  { rewrite (assoc_L (++)) in Hd. eapply subarray_next; [exact Hd|]. by rewrite length_app length_be_bytes Hh. }
  rewrite ret_bind. replace (Z.to_nat (blen r.2)) with (length r.2) by (unfold blen; lia). rewrite Hs. cbv zeta.
  assert ((off <=? hs)%nat && (Z.of_nat hs <? Z.of_nat off + blen r.2) = owns off r) as ->.
  { unfold owns. f_equal. apply eq_true_iff_eq. rewrite Z.ltb_lt Nat.ltb_lt. unfold blen. lia. }
  change (blen r.2 + (if owns off r then delta else 0)) with (new_size delta off r).
  specialize (IH rs buf (pos + 5 + length r.2 + length (rec_wire rs))%nat delta (pos + 5 + length r.2)%nat (off + length r.2)%nat tail).
  replace (pos + (5 + length r.2 + length (rec_wire rs)))%nat with (pos + 5 + length r.2 + length (rec_wire rs))%nat by lia.
  cbn [sizes_ok sized map]. split.
  - intros (? & G1%guard_js_Ret & H)%outcome_bind_Ret. apply outcome_bind_Ret in H as (? & G2%guard_js_Ret & H).
    apply outcome_bind_Ret in H as (rest & Hrest & H). apply Ret_inj in H as <-.
    apply IH in Hrest as [Hso ->]; [|cbn in Hf; lia|done..]. split; [|done]. split; [|done]. split; [by apply Z.leb_le|].
    rewrite negb_true_iff !orb_false_iff in G2. destruct G2 as [[G2%Z.ltb_ge G3%Z.ltb_ge] G4]. split; [lia|].
    intros Ho. rewrite Ho in G4. cbn [andb] in G4. by apply Z.leb_gt in G4.
  - intros [[(G1 & G2 & G3) Hso] ->]. rewrite (proj2 (Z.leb_le _ _) G1). cbn [guard_js]. rewrite ret_bind.
    assert (negb ((new_size delta off r <? 1) || (MAX_PLAINTEXT_RECORD_BYTES <? new_size delta off r) ||
      owns off r && (new_size delta off r <=? Z.of_nat hs - Z.of_nat off)) = true) as ->.
    { rewrite negb_true_iff !orb_false_iff. split; [split; apply Z.ltb_ge; lia|]. destruct (owns off r); [|done]. cbn [andb].
      apply Z.leb_gt. by apply G3. }
    cbn [guard_js]. rewrite ret_bind (proj2 (IH (sized delta (off + length r.2) rs, map snd rs) _ _ _ _)) //. cbn in Hf. lia.
Qed.

Lemma emit_loop_wire rs : ∀ rs' delta off P source p k X, Forall rec_ok rs → regrow delta off rs rs' →
  drop source P = rec_payload rs' ++ X → (length (rec_wire rs') <= k)%nat →
  emit_loop (sized delta off rs) P source (length p) (p ++ buf_alloc k) = Ret (p ++ rec_wire rs' ++ buf_alloc (k - length (rec_wire rs'))).
Proof.
  induction rs as [|r rs IH]; intros [|r' rs'] delta off P source p k X Hok; try done.
  { intros _ _ _. cbn. by rewrite Nat.sub_0_r. }
  apply Forall_cons in Hok as [([Hh _] & _) Hok]. cbn [regrow sized emit_loop]. intros (Hh' & Hs & (_ & Hr1 & _) & _ & Hr) Hd Hk.
  change (rec_payload (r' :: rs')) with (r'.2 ++ rec_payload rs') in Hd. rewrite -(assoc_L (++)) in Hd.
  change (rec_wire (r' :: rs')) with (rec_enc r' ++ rec_wire rs') in *. rewrite (length_app (rec_enc r')) rec_enc_length ?Hh' // in Hk |- *.
  assert (Z.to_nat (new_size delta off r) = length r'.2) as -> by (rewrite -Hs; unfold blen; lia).
  rewrite (subarray_next source _ P _ _ Hd) //.
  rewrite buf_copy_zero //; [|rewrite length_app length_be_bytes; lia]. rewrite (assoc_L (++) p r.1) -(assoc_L (++) (p ++ r.1)).
  rewrite write_uint_mid; [|unfold MAX_PLAINTEXT_RECORD_BYTES, blen in *; lia|rewrite length_app; lia|by rewrite length_be_bytes].
  rewrite ret_bind. cbv zeta. rewrite (assoc_L (++) (p ++ r.1)) buf_copy_zero; [|rewrite !length_app length_be_bytes; lia|rewrite length_app length_be_bytes; lia].
  assert (((p ++ r.1) ++ be2 (length r'.2)) ++ r'.2 = p ++ rec_enc r') as -> by (by rewrite /rec_enc Hh' -!(assoc_L (++))).
  replace (length p + 5 + length r'.2)%nat with (length (p ++ rec_enc r')) by (rewrite length_app rec_enc_length ?Hh' //; lia).
  rewrite (IH rs' delta (off + length r.2)%nat P _ _ _ X) //; [|by eapply drop_next|rewrite length_app length_be_bytes; lia].
  rewrite length_app length_be_bytes Hh -!(assoc_L (++)).
  by replace (k - (3 + 2) - length r'.2 - length (rec_wire rs'))%nat with (k - (5 + length r'.2 + length (rec_wire rs')))%nat by lia.
Qed.
End regrow.

(** ** Rebuilding the prefix *)

Lemma shape_bytes_length s : length (shape_bytes s) = (host_pos s + length (s_host s) + length (s_rest s ++ ext_wire (s_post s) ++ s_after s))%nat.
Proof.
  rewrite shape_as_frame /shape_frame frame_h. rewrite !length_app !length_be_bytes /host_pos /list_pos. cbn [length]. lia.
Qed.
Lemma with_host_bytes new s : blen (shape_bytes (with_host new s)) = blen (shape_bytes s) + (blen new - blen (s_host s)).
Proof. unfold blen. rewrite !shape_bytes_length. change (host_pos (with_host new s)) with (host_pos s). cbn [with_host s_host s_rest s_post s_after]. lia. Qed.

Lemma handshake_length ch extra : length (handshake ch extra) = (4 + length ch + length extra)%nat.
Proof. unfold handshake. cbn [length]. rewrite !length_app length_be_bytes. lia. Qed.

Lemma rebuild_tcp s new rs tail h extra b : shape_ok s → s_host s ≠ [] → carries [] rs h extra →
  h_clientHelloBody h = shape_bytes s → h_bytesConsumed h = length (rec_wire rs) →
  let ch := shape_bytes (with_host new s) in
  rebuildTcpPrefixWithClientHelloBody (rec_wire rs ++ tail) h ch = Ret b ↔
  blen ch < 2 ^ 24 ∧ ∃ rs', regrow (4 + host_pos s) (blen new - blen (s_host s)) 0 rs rs' ∧ rec_payload rs' = handshake ch extra ∧ b = rec_wire rs'.
Proof.
  intros Hs Hh (Hok & _ & HP & _) Hbody Hc ch. cbn [app] in HP. unfold rebuildTcpPrefixWithClientHelloBody.
  rewrite Hbody shape_find // ret_bind. cbv zeta. cbn [hostnameStartChBodyAbs]. set (hs := (4 + host_pos s)%nat).
  assert (blen ch - blen (shape_bytes s) = blen new - blen (s_host s)) as -> by (rewrite /ch with_host_bytes; lia).
  set (delta := blen new - blen (s_host s)). assert (0 < length (s_host s))%nat as Hh0 by (destruct (s_host s); [done|cbn; lia]).
  assert (0 <= hs < 0 + length (rec_payload rs))%nat as Hhs.
  { rewrite HP Hbody handshake_length shape_bytes_length. unfold hs. lia. }
  assert (length rs < S (length (rec_wire rs ++ tail)))%nat as Hf.
  { rewrite length_app. assert (length rs <= length (rec_wire rs))%nat; [|lia]. clear -Hok.
    induction Hok as [|q qs ([Hq _] & ? & _) _ IH]; [done|]. change (rec_wire (q :: qs)) with (rec_enc q ++ rec_wire qs).
    rewrite (length_app (rec_enc q)) (rec_enc_length q Hq). cbn [length] in *. lia. }
  pose proof (λ res, resize_loop_wire hs _ rs (rec_wire rs ++ tail) (length (rec_wire rs)) delta 0 0 tail res Hf Hok eq_refl eq_refl) as Hres.
  assert (drop (4 + length (shape_bytes s)) (concat (map snd rs)) = extra) as Hex.
  { change (concat (map snd rs)) with (rec_payload rs). rewrite HP Hbody /handshake.
    change (1 :: be_bytes 3 ?n ++ ?c ++ ?e) with ((1 :: be_bytes 3 n) ++ c ++ e). rewrite (assoc_L (++)). apply drop_app_exact.
    by rewrite length_app /= length_be_bytes. }
  change (set_byte 0 1 (buf_alloc 4)) with ([1] ++ [0; 0; 0] ++ []).
  assert (∀ rs', regrow hs delta 0 rs rs' → rec_payload rs' = handshake ch extra →
    emit_loop (sized hs delta 0 rs) (([1] ++ be_bytes 3 (blen ch) ++ []) ++ ch ++ extra) 0 0
      (buf_alloc (Z.to_nat (Z.of_nat (length (rec_wire rs)) + delta))) = Ret (rec_wire rs')) as Hemit.
  { intros rs' Hre Hpay. destruct (regrow_lengths hs delta 0 rs rs' Hok Hre) as [_ L]. rewrite sizes_sum_owner // in L.
    replace (Z.to_nat (Z.of_nat (length (rec_wire rs)) + delta)) with (length (rec_wire rs')) by (unfold blen in L; lia).
    pose proof (emit_loop_wire hs rs rs' delta 0 (handshake ch extra) 0 [] (length (rec_wire rs')) [] Hok Hre) as H.
    rewrite app_nil_r Nat.sub_diag in H. cbn [app buf_alloc replicate] in H. rewrite ?app_nil_r in H |- *. apply H; [by rewrite Hpay|done]. }
  rewrite Hc. split.
  - intros ([recs pays] & [Hso [= -> ->]]%Hres & H)%outcome_bind_Ret. apply outcome_bind_Ret in H as (hh & Hhh & H).
    apply write_uint_mid_inv in Hhh as [H24 ->]; [|done..]. split; [apply H24|]. rewrite Hex in H.
    destruct (regrow_exists hs delta 0 rs (handshake ch extra) Hok Hso) as (rs' & Hre & Hpay).
    { rewrite sizes_sum_owner // HP Hbody. unfold blen. rewrite !handshake_length /ch. pose proof (with_host_bytes new s). unfold blen in *. lia. }
    exists rs'. split; [done|]. split; [done|]. rewrite (Hemit rs' Hre Hpay) in H. by apply Ret_inj in H.
  - intros (H24 & rs' & Hre & Hpay & ->). destruct (Hres (sized hs delta 0 rs, map snd rs)) as [_ Hr]. rewrite Hr; [|split; [by eapply regrow_sizes|reflexivity]].
    rewrite ret_bind. cbv beta iota. rewrite (write_uint_mid 3 (blen ch) [1] [0; 0; 0] [] 1) //; [|split; [unfold blen; lia|exact H24]].
    rewrite ret_bind Hex. by apply Hemit.
Qed.

(** ** Replacing, and restoring *)

Lemma rec_payload_bytes rs : bytes_ok (rec_wire rs) → bytes_ok (rec_payload rs).
Proof.
  induction rs as [|r rs IH]; [done|]. change (rec_wire (r :: rs)) with (rec_enc r ++ rec_wire rs).
  intros [Hr Hl]%bytes_ok_app. apply (bytes_ok_app r.2 (rec_payload rs)). split; [|by apply IH].
  unfold rec_enc in Hr. rewrite !bytes_ok_app in Hr. tauto.
Qed.

(** What a replacement that succeeded shows of the stream. *)
Lemma replaced_inv tcp relay r : bytes_ok tcp → replaceFirstSniInTcpBuffer tcp relay = Ret (Accepted r) →
  ∃ rs h extra s ch, tcp = rec_wire rs ++ tailAfterPrefix r ∧ h_bytesConsumed h = length (rec_wire rs) ∧ carries [] rs h extra ∧
    bytes_ok (s_host s) ∧ shape_ok s ∧ h_clientHelloBody h = shape_bytes s ∧ originHost r = utf8_decode (s_host s) ∧
    rebuildClientHelloBodyWithHostname (shape_bytes s) relay = Ret ch ∧ rebuildTcpPrefixWithClientHelloBody tcp h ch = Ret (prefixBuf r) ∧
    parseFirstTlsClientHelloFromTcpBuf tcp = Ret (IsHello h) ∧ head (x_sni (h_exts h)) = Some (originHost r).
Proof.
  intros Hb. unfold replaceFirstSniInTcpBuffer. intros ([?|?|h] & Hp & H)%outcome_bind_Ret; [done..|].
  destruct (parse_first_inv tcp h Hb Hp) as (rs & tail & extra & E & Hc & Hca). pose proof Hca as (_ & _ & HP & _ & Hx).
  rewrite Hx ret_bind in H. destruct (h_exts h) as [[|origin more] alpn vs] eqn:Ex; [done|].
  apply outcome_bind_Ret in H as ([?|] & _ & H); [done|]. apply Ret_inj in H. unfold rebuild_prefix in H.
  destruct (_ ≫= _) as [prefix|e] eqn:Er; [|done]. cbn [try_rebuild] in H. injection H as <-.
  apply outcome_bind_Ret in Er as (ch & Hch & Hpre). cbn [originHost prefixBuf tailAfterPrefix].
  assert (bytes_ok (h_clientHelloBody h)) as Hbb.
  { rewrite E in Hb. apply bytes_ok_app in Hb as [Hb%rec_payload_bytes _]. cbn [app] in HP. rewrite HP in Hb. unfold handshake in Hb.
    apply Forall_cons in Hb as [_ Hb]. apply (bytes_ok_app (be_bytes 3 _)) in Hb as [_ [Hb _]%bytes_ok_app]. done. }
  assert (∃ layout, findFirstSniLayoutInClientHelloBody (h_clientHelloBody h) = Ret (Some layout)) as [layout Hl].
  { unfold rebuildClientHelloBodyWithHostname in Hch. apply outcome_bind_Ret in Hch as ([?|] & _ & Hch); [done|].
    apply outcome_bind_Ret in Hch as ([l|] & Hl & Hn); [by exists l|done]. }
  destruct (shape_inv _ _ _ Hbb Hx Hl) as (s & Hs & Eb). exists rs, h, extra, s, ch. rewrite Eb in Hch, Hx, Hbb.
  pose proof (shape_parse s Hs) as Hx'. rewrite Hx in Hx'. injection Hx' as -> -> -> ->.
  split; [by rewrite Hc E drop_app_length|]. split; [done|]. split; [done|].
  split; [rewrite shape_as_frame /shape_frame frame_h !bytes_ok_app in Hbb; tauto|]. by rewrite Ex.
Qed.

(** A rebuilt prefix carries the hello with the new name. *)
Lemma rebuilt_carries s relay rs tail h extra ch prefix : shape_ok s → s_host s ≠ [] →
  well_formed relay = true → blen (s_host s) <= blen (utf8_encode relay) → carries [] rs h extra →
  h_clientHelloBody h = shape_bytes s → h_bytesConsumed h = length (rec_wire rs) →
  rebuildClientHelloBodyWithHostname (shape_bytes s) relay = Ret ch →
  rebuildTcpPrefixWithClientHelloBody (rec_wire rs ++ tail) h ch = Ret prefix →
  let s' := with_host (utf8_encode relay) s in
  shape_ok s' ∧ ch = shape_bytes s' ∧ ∃ rs', prefix = rec_wire rs' ∧
    regrow (4 + host_pos s) (blen (utf8_encode relay) - blen (s_host s)) 0 rs rs' ∧ blen (rec_wire rs) <= blen prefix ∧
    h_exts h = MkExts (utf8_decode (s_host s) :: x_sni (shape_other s)) (x_alpn (shape_other s)) (x_supportedVersions (shape_other s)) ∧
    let x := MkExts (relay :: x_sni (shape_other s)) (x_alpn (shape_other s)) (x_supportedVersions (shape_other s)) in
    carries [] rs' (MkHello x (length (rec_wire rs')) ch) extra.
Proof.
  intros Hs Hne Hwf Hle Hca Hbody Hc [Hfit ->]%rebuild_shape Htcp; [|done]. set (new := utf8_encode relay) in *.
  apply (rebuild_tcp s new rs tail h extra) in Htcp as (H24 & rs' & Hre & Hpay & ->); [|done..].
  pose proof (with_host_ok new s Hs Hfit Hle) as Hs'. split; [done|]. split; [done|]. set (s' := with_host new s) in *.
  pose proof (shape_parse s' Hs') as Hx. exists rs'. split; [done|]. split; [done|]. assert (1 <= blen (s_host s)) as Hpos by (unfold blen; destruct (s_host s); [done|cbn; lia]).
  pose proof Hca as (Hok & Hmin & _). rewrite Hbody in Hmin. cbn [app length] in Hmin.
  assert (4 + host_pos s < 4 + length (shape_bytes s) ∧ 4 + host_pos s < 4 + length (shape_bytes s'))%nat as [L1 L2].
  { rewrite !shape_bytes_length. change (host_pos s') with (host_pos s). cbn [s' with_host s_host]. unfold blen in *. lia. }
  pose proof Hca as (_ & _ & HP & _ & Hxs). rewrite Hbody in HP, Hxs. cbn [app] in HP.
  split. { destruct (regrow_lengths _ _ 0 rs rs' Hok Hre) as [_ ->]. rewrite sizes_sum_owner; [lia|]. rewrite HP handshake_length. lia. }
  split. { rewrite (shape_parse s Hs) in Hxs. by injection Hxs. }
  split; [by eapply regrow_ok|]. cbn [h_clientHelloBody h_exts length app]. split; [|split; [done|split; [done|]]]; last first.
  { unfold s' in Hx. rewrite with_host_other in Hx. by rewrite Hx /= utf8_roundtrip. }
  eapply regrow_minimal; [| | | |exact Hre|exact Hmin]; [lia..|]. pose proof (with_host_bytes new s). unfold blen, s' in *. lia.
Qed.

(** Restoring a rebuilt prefix. *)
Lemma restored s relay rs tail h extra ch prefix more : shape_ok s → s_host s ≠ [] → ascii_str (s_host s) → blen (s_host s) <= 253 →
  well_formed relay = true → blen (s_host s) <= blen (utf8_encode relay) → carries [] rs h extra →
  h_clientHelloBody h = shape_bytes s → h_bytesConsumed h = length (rec_wire rs) →
  rebuildClientHelloBodyWithHostname (shape_bytes s) relay = Ret ch →
  rebuildTcpPrefixWithClientHelloBody (rec_wire rs ++ tail) h ch = Ret prefix → blen (prefix ++ more) <= TLS_MUX_MAX_CLIENT_BUF →
  restoreFirstSniInTcpBuffer (prefix ++ more) relay (s_host s) = Ret (Accepted (rec_wire rs, more)).
Proof.
  intros Hs Hne Hascii H253 Hwf Hle Hca Hbody Hc Hch Htcp Hmax.
  destruct (rebuilt_carries s relay rs tail h extra ch prefix Hs Hne Hwf Hle Hca Hbody Hc Hch Htcp)
    as (Hs' & -> & rs' & -> & Hre & _ & _ & Hca'). set (x := MkExts _ _ _) in *.
  set (new := utf8_encode relay) in *. set (s' := with_host new s) in *. set (h' := MkHello x (length (rec_wire rs')) (shape_bytes s')) in *.
  assert (1 <= blen (s_host s)) as Hpos by (unfold blen; destruct (s_host s); [done|cbn; lia]).
  pose proof Hca as (_ & _ & HP & H24' & _). rewrite Hbody in HP, H24'. cbn [app] in HP.
  pose proof Hca' as (_ & _ & _ & _ & Hx). cbn [h' h_clientHelloBody h_exts] in Hx.
  unfold restoreFirstSniInTcpBuffer. rewrite (parse_first_wire rs' more h' extra) // ret_bind.
  cbn [h_clientHelloBody h_bytesConsumed h']. rewrite Hx ret_bind. unfold x.
  rewrite bool_decide_eq_true_2 //. cbn [negb]. unfold rebuild_prefix. cbn [h_clientHelloBody h'].
  assert (rebuildClientHelloBodyWithHostname (shape_bytes s') (s_host s) = Ret (shape_bytes s)) as ->.
  { apply rebuild_shape; [done|]. rewrite ascii_encode //. split; [by apply fits_back|by rewrite /s' with_host_back]. }
  rewrite ret_bind. assert (rebuildTcpPrefixWithClientHelloBody (rec_wire rs' ++ more) h' (shape_bytes s) = Ret (rec_wire rs)) as ->.
  { rewrite -{1}(with_host_back new s). apply (rebuild_tcp s' (s_host s) rs' more h' extra (rec_wire rs)); [done| |done..|].
    - intros E. cbn [s' with_host s_host] in E. unfold blen in *. rewrite E in Hle. cbn in Hle. lia.
    - rewrite with_host_back. split; [done|]. exists rs. change (host_pos s') with (host_pos s). cbn [s' with_host s_host].
      replace (blen (s_host s) - blen new) with (- (blen new - blen (s_host s))) by lia.
      split; [apply regrow_back; [lia|done]|]. by rewrite HP. }
  cbn [try_rebuild]. by rewrite drop_app_length.
Qed.

(** C25: What the client end rewrites the exit restores, byte for byte: if the name in the
    first ClientHello of a stream is replaced by one that is not shorter, then restoring it
    gives the records the stream began with, their boundaries, other extensions and the
    bytes after the hello in its last record included, and leaves what follows alone. *)
Theorem hello_restored tcp relay r more : bytes_ok tcp → replaceFirstSniInTcpBuffer tcp relay = Ret (Accepted r) →
  ascii_str (originHost r) → 1 <= blen (originHost r) <= 253 →
  well_formed relay = true → blen (originHost r) <= blen (utf8_encode relay) → blen (prefixBuf r ++ more) <= TLS_MUX_MAX_CLIENT_BUF →
  ∃ prefix, tcp = prefix ++ tailAfterPrefix r ∧
    restoreFirstSniInTcpBuffer (prefixBuf r ++ more) relay (originHost r) = Ret (Accepted (prefix, more)).
Proof.
  intros Hb Hr Ha Hl Hwf Hle Hmax.
  destruct (replaced_inv tcp relay r Hb Hr) as (rs & h & extra & s & ch & E & Hc & Hca & Hsb & Hs & Hbody & Ho & Hch & Htcp & _).
  assert (originHost r = s_host s) as Eo.
  { rewrite Ho. apply ascii_decode, decode_ascii; [|by rewrite -Ho]. eapply Forall_impl; [exact Hsb|]. unfold byte_ok. lia. }
  rewrite Eo in Ha, Hl, Hle |- *. exists (rec_wire rs). split; [exact E|]. rewrite E in Htcp.
  apply (restored s relay rs (tailAfterPrefix r) h extra ch); try done; [|apply Hl].
  intros En. rewrite En in Hl. by destruct Hl as [[] _].
Qed.

(** A hello with a session id, a GREASE extension, the name [a.io] and one more extension,
    in two records cut in the name, the second with two bytes of a next message. *)
Definition sample_hello : buffer :=
  let ch := [3; 3] ++ replicate 32 7 ++ [1; 9] ++ [0; 2; 0x13; 1] ++ [1; 0] ++ [0; 26] ++
    [0x0a; 0x0a; 0; 0] ++ [0; 0; 0; 9; 0; 7; 0; 0; 4; 97; 46; 105; 111] ++ [0; 43; 0; 5; 4; 3; 4; 3; 3] in
  let msg := [1; 0; 0; 70] ++ ch ++ [20; 0] in
  [0x16; 3; 1; 0; 64] ++ take 64 msg ++ [0x16; 3; 3; 0; 12] ++ drop 64 msg.

Lemma hello_restored_witness : ∃ r, replaceFirstSniInTcpBuffer (sample_hello ++ [1; 2; 3]) (js "token.relay.example") = Ret (Accepted r) ∧
  originHost r = js "a.io" ∧ blen (prefixBuf r) = blen sample_hello + 15 ∧ ∃ prefix, sample_hello ++ [1; 2; 3] = prefix ++ tailAfterPrefix r ∧
    restoreFirstSniInTcpBuffer (prefixBuf r ++ [4; 5]) (js "token.relay.example") (originHost r) = Ret (Accepted (prefix, [4; 5])).
Proof.
  eexists. split; [vm_compute; reflexivity|]. split; [reflexivity|]. split; [reflexivity|].
  apply (hello_restored (sample_hello ++ [1; 2; 3])).
  - apply (bool_decide_unpack _). vm_compute. exact I.
  - vm_compute. reflexivity.
  - apply (bool_decide_unpack _). vm_compute. exact I.
  - vm_compute. split; discriminate.
  - reflexivity.
  - vm_compute. discriminate.
  - vm_compute. discriminate.
Defined.
