(* ===== verification/TlsRetry.v ===== *)
(** * The retry guard of a transparent relay (src/scripts/lib/transparent-tls-retry.mjs)

    TLS 1.3 lets a server answer the ClientHello with a HelloRetryRequest, and the client
    then sends a second hello, with the name in plain text again.  [createHelloRetryGuard]
    stands in both directions of a relayed stream until the server's answer is known, and
    rewrites that second hello as the first was.  [retry_hides_name]: until then nothing but
    rewritten hellos, change-cipher-spec, alerts and early data goes to the exit;
    [retry_chunks]: how the bytes are cut into chunks does not matter.
    The session's limits and the names are arguments; the timer is a flag of the state. *)

From S2P Require Import Prelude Bytes JsString Effects TlsHello TlsRebuild TlsReplay.
Local Open Scope Z_scope.
#[local] Unset Default Proof Using.

Definition relay_fail (suffix : string) : js_error := relayError ("TLS_RELAY_" +:+ suffix).

Definition HRR_RANDOM : buffer :=
  [0xcf; 0x21; 0xad; 0x74; 0xe5; 0x9a; 0x61; 0x11; 0xbe; 0x1d; 0x8c; 0x02; 0x1e; 0x65; 0xb8; 0x91;
   0xc2; 0xa2; 0x11; 0x16; 0x7a; 0xbb; 0x8c; 0x5e; 0x07; 0x9e; 0x09; 0xe2; 0xc8; 0xa8; 0x33; 0x9c].

(** ** The collector of a handshake message *)

(** [records] and [payloads] are the concatenations; [bytes], [payloadBytes] and
    [headerBytes] are lengths. *)
Record HelloRecords := MkRecords { hr_records : buffer; hr_payloads : buffer; hr_header : buffer }.
Definition records_new : HelloRecords := MkRecords [] [] [].
Record Collected := MkCollected { wire : buffer; body : buffer; extraBytes : nat }.

Definition hr_add (limit : Z) (type : Z) (record : buffer) : SM HelloRecords (option Collected) :=
  s ← get;
  if limit <? blen (hr_records s) + blen record then lift (Throw (relay_fail "HANDSHAKE_LIMIT")) else
  let payload := drop 5 record in
  modify (λ s, MkRecords (hr_records s ++ record) (hr_payloads s ++ payload)
                         (hr_header s ++ take (4 - length (hr_header s)) payload));;
  s ← get;
  if (length (hr_header s) <? 4)%nat then mret None else
  if negb (byte_at 0 (hr_header s) =? type) then lift (Throw (relay_fail "RETRY_SEQUENCE")) else
  let len := (4 + Z.to_nat (be_value (subarray 1 4 (hr_header s))))%nat in
  if limit <? Z.of_nat len then lift (Throw (relay_fail "HANDSHAKE_LIMIT")) else
  if (length (hr_payloads s) <? len)%nat then mret None else
  mret (Some (MkCollected (hr_records s) (subarray 4 len (hr_payloads s)) (length (hr_payloads s) - len))).

(** ** The server's hello *)

Record ServerHello := MkServerHello { retry : bool; version : Z }.

(** The loop over its extensions: [seen] holds their types, [version] is what was read. *)
Fixpoint server_exts (fuel : nat) (body : buffer) (offset : nat) (seen : list Z) (version : Z) : outcome Z :=
  match fuel with
  | O => Ret version
  | S fuel =>
      if (offset <? length body)%nat then
        guard_js (offset + 4 <=? length body)%nat (relay_fail "SERVER_HELLO");;
        type ← read_u16 offset body;
        size ← read_u16 (offset + 2) body;
        let offset := (offset + 4)%nat in
        guard_js (negb ((length body <? offset + Z.to_nat size)%nat || bool_decide (type ∈ seen))) (relay_fail "SERVER_HELLO");;
        version ← (if type =? 43 then guard_js (size =? 2) (relay_fail "SERVER_HELLO");; read_u16 offset body else Ret version);
        server_exts fuel body (offset + Z.to_nat size) (type :: seen) version
      else Ret version
  end.

Definition serverHello (body : buffer) : outcome ServerHello :=
  guard_js (38 <=? length body)%nat (relay_fail "SERVER_HELLO");;
  let sidLength := byte_at 34 body in
  let offset := (35 + Z.to_nat sidLength + 3)%nat in
  guard_js (negb ((32 <? sidLength) || (length body <? offset)%nat || negb (byte_at (offset - 1) body =? 0))) (relay_fail "SERVER_HELLO");;
  legacy ← read_u16 0 body;
  version ← (if (offset <? length body)%nat then
      guard_js (offset + 2 <=? length body)%nat (relay_fail "SERVER_HELLO");;
      len ← read_u16 offset body;
      let offset := (offset + 2)%nat in
      guard_js (offset + Z.to_nat len =? length body)%nat (relay_fail "SERVER_HELLO");;
      server_exts (length body) body offset [] legacy
    else Ret legacy);
  let retry := bool_decide (subarray 2 34 body = HRR_RANDOM) in
  guard_js (negb (retry && (negb (version =? 0x0304) || negb (legacy =? 0x0303)))) (relay_fail "SERVER_HELLO");;
  Ret (MkServerHello retry version).

(** ** The guard *)

Inductive direction := Client | Server.
Inductive phase := ServerFirst | ClientRetry | ServerFinal | Done.
#[export] Instance phase_eq_dec : EqDecision phase.
Proof. solve_decision. Defined.
Inductive role := ClientEnd | ExitEnd.

Record Stream := MkStream { pending : buffer; hello : option HelloRecords }.
Record Guard := MkRetryGuard { g_phase : phase; g_client : Stream; g_server : Stream; g_started : bool; g_timer : bool }.

(** What the closure holds. *)
Record Setup := MkSetup {
  maxHelloBytes : Z; maxPendingBytes : Z; g_role : role; g_relayHost : jstr; g_originHost : jstr;
  inputSni : jstr; identity : buffer }.

Definition stream_of (d : direction) (g : Guard) : Stream := match d with Client => g_client g | Server => g_server g end.
Definition set_stream (d : direction) (s : Stream) (g : Guard) : Guard :=
  match d with
  | Client => MkRetryGuard (g_phase g) s (g_server g) (g_started g) (g_timer g)
  | Server => MkRetryGuard (g_phase g) (g_client g) s (g_started g) (g_timer g)
  end.
Definition set_phase (p : phase) (g : Guard) : Guard := MkRetryGuard p (g_client g) (g_server g) (g_started g) (g_timer g).
(** [deadline()]: the timer runs from here, or not. *)
Definition deadline (g : Guard) : Guard :=
  MkRetryGuard (g_phase g) (g_client g) (g_server g) (g_started g) (g_started g && negb (bool_decide (g_phase g = Done))).
Definition set_pending (d : direction) (b : buffer) (g : Guard) : Guard := set_stream d (MkStream b (hello (stream_of d g))) g.
Definition set_hello (d : direction) (h : option HelloRecords) (g : Guard) : Guard := set_stream d (MkStream (pending (stream_of d g)) h) g.

(** The payload of the records of a prefix. *)
Fixpoint prefix_payload (fuel : nat) (prefix : buffer) (at_ : nat) : outcome nat :=
  match fuel with
  | O => Throw RangeError
  | S fuel =>
      if (at_ <? length prefix)%nat then
        size ← read_u16 (at_ + 3) prefix;
        rest ← prefix_payload fuel prefix (at_ + 5 + Z.to_nat size);
        Ret (Z.to_nat size + rest)%nat
      else Ret 0%nat
  end.

(** What names the client: its random and its session id, with the version. *)
Definition hello_identity (b : buffer) : buffer := subarray 0 (35 + u8_at 34 b) b.

Definition createHelloRetryGuard (maxHello maxPending : Z) (parsed : Hello) (prefix : buffer) (r : role) (relay origin : jstr) :
    outcome (option (Setup * Guard)) :=
  if negb (bool_decide (0x0304 ∈ x_supportedVersions (h_exts parsed))) then Ret None else
  match x_sni (h_exts parsed) with
  | [sni] =>
      payloadBytes ← prefix_payload (S (length prefix)) prefix 0;
      guard_js (payloadBytes =? 4 + length (h_clientHelloBody parsed))%nat (relay_fail "RETRY_SEQUENCE");;
      Ret (Some (MkSetup maxHello maxPending r relay origin sni (hello_identity (h_clientHelloBody parsed)),
                 MkRetryGuard ServerFirst (MkStream [] None) (MkStream [] None) false false))
  | _ => Throw (relay_fail "RETRY_IDENTITY")
  end.

Section guard.
Variable c : Setup.

(** The second hello, rewritten as the first was. *)
Definition second_hello (w : buffer) (extra : nat) : outcome buffer :=
  next ← parseFirstTlsClientHelloFromTcpBuf w;
  match next with
  | IsHello next =>
      guard_js (extra =? 0)%nat (relay_fail "RETRY_SEQUENCE");;
      guard_js (bool_decide (x_sni (h_exts next) = [inputSni c]) && bool_decide (0x0304 ∈ x_supportedVersions (h_exts next)) &&
          bool_decide (hello_identity (h_clientHelloBody next) = identity c)) (relay_fail "RETRY_IDENTITY");;
      rebuilt ← match g_role c with
                | ClientEnd =>
                    a ← replaceFirstSniInTcpBuffer w (g_relayHost c);
                    Ret match a with Accepted r => Accepted (prefixBuf r) | Refused x => Refused x end
                | ExitEnd =>
                    a ← restoreFirstSniInTcpBuffer w (g_relayHost c) (g_originHost c);
                    Ret match a with Accepted (p, _) => Accepted p | Refused x => Refused x end
                end;
      match rebuilt with
      | Refused _ => Throw (relay_fail "REBUILD")
      | Accepted p => guard_js (blen p <=? maxPendingBytes c) (relay_fail "PENDING_LIMIT");; Ret p
      end
  | _ => Throw (relay_fail "RETRY_SEQUENCE")
  end.

(** A message was collected. *)
Definition collected (d : direction) (m : Collected) : SM Guard buffer :=
  match d with
  | Server =>
      message ← lift (serverHello (body m));
      g ← get;
      (if retry message then
         if negb (bool_decide (g_phase g = ServerFirst)) || negb (extraBytes m =? 0)%nat then lift (Throw (relay_fail "RETRY_SEQUENCE"))
         else modify (set_phase ClientRetry)
       else
         if bool_decide (g_phase g = ServerFinal) && negb (version message =? 0x0304) then lift (Throw (relay_fail "RETRY_SEQUENCE"))
         else modify (set_phase Done));;
      modify deadline;;
      mret (wire m)
  | Client =>
      p ← lift (second_hello (wire m) (extraBytes m));
      modify (set_phase ServerFinal);;
      modify deadline;;
      mret p
  end.

Definition record (d : direction) (bytes : buffer) : SM Guard buffer :=
  g ← get;
  let type := byte_at 0 bytes in
  if negb (type =? 0x16) then
    if bool_decide (is_Some (hello (stream_of d g))) then lift (Throw (relay_fail "RETRY_SEQUENCE")) else
    if type =? 0x14 then
      if negb (length bytes =? 6)%nat || negb (byte_at 5 bytes =? 1) then lift (Throw (relay_fail "RETRY_CCS")) else mret bytes
    else if type =? 0x15 then mret bytes
    else match d with
         | Client => if (type =? 0x17) && bool_decide (g_phase g = ServerFirst ∨ g_phase g = ClientRetry) then mret bytes
                     else lift (Throw (relay_fail "RETRY_SEQUENCE"))
         | Server => lift (Throw (relay_fail "RETRY_SEQUENCE"))
         end
  else
  if match d with
     | Client => negb (bool_decide (g_phase g = ClientRetry))
     | Server => negb (bool_decide (g_phase g = ServerFirst)) && negb (bool_decide (g_phase g = ServerFinal))
     end then lift (Throw (relay_fail "RETRY_SEQUENCE")) else
  let '(r, h) := hr_add (maxHelloBytes c) (match d with Client => 1 | Server => 2 end) bytes
                   (default records_new (hello (stream_of d g))) in
  modify (set_hello d (Some h));;
  done_ ← lift r;
  match done_ with
  | None => mret []
  | Some m => modify (set_hello d None);; collected d m
  end.

(** The loop over what is pending, to the outputs in order. *)
Fixpoint feed_loop (fuel : nat) (d : direction) : SM Guard buffer :=
  match fuel with
  | O => mret []
  | S fuel =>
      g ← get;
      let p := pending (stream_of d g) in
      if (length p =? 0)%nat then mret [] else
      if bool_decide (g_phase g = Done) then modify (set_pending d []);; mret p else
      if (length p <? 5)%nat then mret [] else
      let type := byte_at 0 p in
      size ← lift (read_u16 3 p);
      if (size =? 0) || ((if type =? 0x17 then 16640 else 16384) <? size) || ((type =? 0x16) && (maxHelloBytes c <? size + 5))
      then lift (Throw (relay_fail "HANDSHAKE_LIMIT")) else
      let n := (Z.to_nat size + 5)%nat in
      if (length p <? n)%nat then mret [] else
      modify (set_pending d (drop n p));;
      transformed ← record d (take n p);
      rest ← feed_loop fuel d;
      mret (transformed ++ rest)
  end.

Definition feed (d : direction) (chunk : buffer) : SM Guard buffer :=
  g ← get;
  let p := pending (stream_of d g) in
  if bool_decide (g_phase g = Done) && (length p =? 0)%nat then mret chunk else
  if maxHelloBytes c + maxPendingBytes c <? blen p + blen chunk then lift (Throw (relay_fail "PENDING_LIMIT")) else
  modify (set_pending d (p ++ chunk));;
  feed_loop (S (length (p ++ chunk))) d.

(** [start()] and [end(direction)]. *)
Definition start : SM Guard () :=
  modify (λ g, deadline (MkRetryGuard (g_phase g) (g_client g) (g_server g) true (g_timer g))).
Definition end_ (d : direction) : SM Guard () :=
  g ← get;
  if negb (length (pending (stream_of d g)) =? 0)%nat || bool_decide (is_Some (hello (stream_of d g)))
  then lift (Throw (relay_fail "HANDSHAKE_EOF")) else mret tt.
End guard.

(** ** Chunks *)

Lemma stream_set d s g : stream_of d (set_stream d s g) = s.
Proof. by destruct d. Qed.
Lemma set_stream_set d s t g : set_stream d s (set_stream d t g) = set_stream d s g.
Proof. by destruct d. Qed.
Lemma set_stream_same d g : set_stream d (stream_of d g) g = g.
Proof. by destruct d, g. Qed.
Lemma set_pending_same d g : set_pending d (pending (stream_of d g)) g = g.
Proof. unfold set_pending. rewrite -{4}(set_stream_same d g). by destruct (stream_of d g). Qed.
Lemma set_pending_set d p q g : set_pending d p (set_pending d q g) = set_pending d p g.
Proof. unfold set_pending. rewrite stream_set set_stream_set. done. Qed.
Lemma set_phase_pending d p b g : set_phase p (set_pending d b g) = set_pending d b (set_phase p g).
Proof. by destruct d. Qed.
Lemma deadline_pending d b g : deadline (set_pending d b g) = set_pending d b (deadline g).
Proof. by destruct d. Qed.
Lemma set_hello_pending d h b g : set_hello d h (set_pending d b g) = set_pending d b (set_hello d h g).
Proof. by destruct d. Qed.
Lemma pending_set d b g : pending (stream_of d (set_pending d b g)) = b.
Proof. unfold set_pending. by rewrite stream_set. Qed.
Lemma hello_set d b g : hello (stream_of d (set_pending d b g)) = hello (stream_of d g).
Proof. unfold set_pending. by rewrite stream_set. Qed.
Lemma phase_set d b g : g_phase (set_pending d b g) = g_phase g.
Proof. by destruct d. Qed.

(** A computation that neither reads nor changes what is pending. *)
Definition blind {A} (d : direction) (m : SM Guard A) : Prop :=
  ∀ b g, m (set_pending d b g) = ((m g).1, set_pending d b (m g).2).

Section blind.
Context (d : direction).
Lemma blind_ret {A} (a : A) : blind d (mret a).
Proof. done. Qed.
Lemma blind_lift {A} (o : outcome A) : blind d (lift o).
Proof. done. Qed.
Lemma blind_bind {A B} (m : SM Guard A) (k : A → SM Guard B) : blind d m → (∀ a, blind d (k a)) → blind d (m ≫= k).
Proof.
  intros Hm Hk b g. unfold mbind, SM_bind. rewrite Hm. destruct (m g) as [[a|e] g']; [|done]. cbn [fst snd]. apply Hk.
Qed.
Lemma blind_get {A} (f : Guard → SM Guard A) : (∀ b g g', f (set_pending d b g) g' = f g g') → (∀ g, blind d (f g)) → blind d (get ≫= f).
Proof. intros Hf Hk b g. rewrite !get_bind Hf. apply Hk. Qed.
Lemma blind_modify f : (∀ b g, f (set_pending d b g) = set_pending d b (f g)) → blind d (modify f).
Proof. intros Hf b g. unfold modify. by rewrite Hf. Qed.
End blind.

Lemma collected_blind c d m : blind d (collected c d m).
Proof.
  destruct d; cbn [collected].
  - apply blind_bind; [apply blind_lift|]. intros p.
    apply blind_bind; [apply blind_modify, set_phase_pending|]. intros [].
    apply blind_bind; [apply blind_modify, deadline_pending|]. intros []. apply blind_ret.
  - apply blind_bind; [apply blind_lift|]. intros sh. apply blind_get; [intros b g g'; by rewrite phase_set|]. intros g.
    apply blind_bind; [|intros []; apply blind_bind; [apply blind_modify, deadline_pending|intros []; apply blind_ret]].
    repeat case_match; first [apply blind_lift|apply blind_modify, set_phase_pending].
Qed.

Lemma record_blind c d bytes : blind d (record c d bytes).
Proof.
  unfold record. apply blind_get; [intros b g g'; by rewrite hello_set phase_set|]. intros g.
  assert (∀ h, blind d (modify (set_hello d h))) as Hh by (intros h; apply blind_modify; intros; apply set_hello_pending).
  destruct (negb _).
  { repeat case_match; first [apply blind_lift|apply blind_ret]. }
  match goal with |- blind d (if ?b then _ else _) => destruct b end; [apply blind_lift|].
  destruct (hr_add _ _ _ _) as [r h]. apply blind_bind; [apply Hh|intros []]. apply blind_bind; [apply blind_lift|].
  intros [m|]; [|apply blind_ret]. apply blind_bind; [apply Hh|intros []; apply collected_blind].
Qed.

Section loop.
Variables (c : Setup) (d : direction).

(** What the loop does with the head of what is pending: it stops with an answer, or takes a
    record. *)
Inductive head_step := Stop (r : outcome buffer) (left : buffer) | Take (n : nat).
Definition head_of (ph : phase) (p : buffer) : head_step :=
  if (length p =? 0)%nat then Stop (Ret []) p else
  if bool_decide (ph = Done) then Stop (Ret p) [] else
  if (length p <? 5)%nat then Stop (Ret []) p else
  let size := be_value (subarray 3 5 p) in
  if (size =? 0) || ((if byte_at 0 p =? 0x17 then 16640 else 16384) <? size) || ((byte_at 0 p =? 0x16) && (maxHelloBytes c <? size + 5))
  then Stop (Throw (relay_fail "HANDSHAKE_LIMIT")) p else
  let n := (Z.to_nat size + 5)%nat in
  if (length p <? n)%nat then Stop (Ret []) p else Take n.

Lemma feed_loop_step fuel p g : feed_loop c (S fuel) d (set_pending d p g) =
  match head_of (g_phase g) p with
  | Stop r q => (r, set_pending d q g)
  | Take n =>
      match record c d (take n p) g with
      | (Ret t, g1) => match feed_loop c fuel d (set_pending d (drop n p) g1) with
                       | (Ret rest, g2) => (Ret (t ++ rest), g2)
                       | (Throw e, g2) => (Throw e, g2)
                       end
      | (Throw e, g1) => (Throw e, set_pending d (drop n p) g1)
      end
  end.
Proof.
  cbn [feed_loop]. rewrite get_bind pending_set phase_set. unfold head_of.
  destruct (Nat.eqb_spec (length p) 0) as [|Hp]; [done|].
  case_bool_decide as Hd. { rewrite modify_bind set_pending_set. done. }
  destruct (Nat.ltb_spec (length p) 5) as [|H5]; [done|]. rewrite read_uint_ok; [|lia].
  unfold mbind at 1, SM_bind at 1. unfold lift. cbv beta iota. set (size := be_value (subarray 3 5 p)).
  change (be_value (subarray 3 (3 + 2) p)) with size. destruct (_ || _); [done|].
  destruct (length p <? Z.to_nat size + 5)%nat; [done|]. rewrite modify_bind set_pending_set.
  unfold mbind, SM_bind. rewrite record_blind. destruct (record c d (take _ p) g) as [[t|e] g1]; [|done]. cbn [fst snd].
  by destruct (feed_loop c fuel d _) as [[rest|e] g2].
Qed.

Lemma head_take ph p n : head_of ph p = Take n → (5 <= n <= length p)%nat.
Proof.
  unfold head_of. do 4 (case_match; [done|]). cbv zeta. match goal with |- (if ?b then _ else Take _) = _ → _ => destruct b eqn:Hn end; [done|].
  apply Nat.ltb_ge in Hn.
  intros E. injection E as <-. lia.
Qed.

Lemma head_stop ph p r q : head_of ph p = Stop (Ret r) q → (r = [] ∧ q = p) ∨ (r = p ∧ q = [] ∧ ph = Done).
Proof.
  unfold head_of. case_match; [intros [= <- <-]; by left|]. case_bool_decide; [intros [= <- <-]; by right|].
  cbv zeta. repeat match goal with |- (if ?b then _ else _) = _ → _ => destruct b end; first [done|intros [= <- <-]; by left].
Qed.

(** More bytes behind do not change what is done with the head. *)
Lemma head_more ph p x : match head_of ph p with
  | Take n => head_of ph (p ++ x) = Take n
  | Stop (Throw e) _ => ∃ q, head_of ph (p ++ x) = Stop (Throw e) q
  | Stop (Ret _) _ => True
  end.
Proof.
  unfold head_of. rewrite length_app. destruct (Nat.eqb_spec (length p) 0) as [|H0]; [done|].
  rewrite (proj2 (Nat.eqb_neq _ _)); [|lia]. case_bool_decide; [done|].
  destruct (Nat.ltb_spec (length p) 5) as [|H5]; [done|]. rewrite (proj2 (Nat.ltb_ge (length p + length x) 5)); [|lia].
  assert (subarray 3 5 (p ++ x) = subarray 3 5 p ∧ byte_at 0 (p ++ x) = byte_at 0 p) as [-> ->].
  { split; [|unfold byte_at; rewrite lookup_app_l; [done|lia]]. pose proof (subarray_take 3 5 (length p) p x) as E. rewrite take_ge // in E. apply E. lia. }
  destruct (_ || _); [by eexists|]. set (n := (Z.to_nat _ + 5)%nat). destruct (Nat.ltb_spec (length p) n) as [|Hn]; [done|].
  by rewrite (proj2 (Nat.ltb_ge (length p + length x) n)); [|lia].
Qed.

Lemma feed_loop_fuel f1 : ∀ f2 p g, (length p < f1)%nat → (length p < f2)%nat →
  feed_loop c f1 d (set_pending d p g) = feed_loop c f2 d (set_pending d p g).
Proof.
  induction f1 as [|f1 IH]; intros [|f2] p g H1 H2; try lia. rewrite !feed_loop_step.
  destruct (head_of (g_phase g) p) as [r q|n] eqn:E; [done|]. apply head_take in E.
  destruct (record c d (take n p) g) as [[t|e] g1]; [|done]. rewrite (IH f2) //; rewrite length_drop; lia.
Qed.

Lemma loop_split f1 : ∀ f2 p x g out g', (length p < f1)%nat → (length (p ++ x) < f2)%nat →
  feed_loop c f2 d (set_pending d (p ++ x) g) = (Ret out, g') →
  ∃ o1 q g1, feed_loop c f1 d (set_pending d p g) = (Ret o1, set_pending d q g1) ∧ (length q <= length p)%nat ∧
    ∀ f3, (length (q ++ x) < f3)%nat → ∃ o2, feed_loop c f3 d (set_pending d (q ++ x) g1) = (Ret o2, g') ∧ out = o1 ++ o2.
Proof.
  induction f1 as [|f1 IH]; intros f2 p x g out g' H1 H2 H; [lia|]. destruct f2 as [|f2]; [lia|].
  rewrite feed_loop_step. pose proof (head_more (g_phase g) p x) as Hm. destruct (head_of (g_phase g) p) as [[o|e] q|n] eqn:E.
  - exists o, q, g. split; [done|]. destruct (head_stop _ _ _ _ E) as [[-> ->]|(-> & -> & Hd)].
    + split; [done|]. intros f3 H3. exists out. split; [|done]. rewrite -H. by apply feed_loop_fuel.
    + split; [cbn; lia|]. intros f3 H3. exists x. rewrite feed_loop_step in H.
      destruct f3 as [|f3]; [lia|]. rewrite feed_loop_step. cbn [app].
      assert (∀ y, head_of (g_phase g) y = Stop (Ret y) []) as Hy.
      { intros y. unfold head_of. rewrite bool_decide_eq_true_2 //. by destruct y. }
      rewrite Hy in H. rewrite Hy. by injection H as <- <-.
  - destruct Hm as [q' Hm]. rewrite feed_loop_step Hm in H. done.
  - rewrite feed_loop_step Hm in H. apply head_take in E. rewrite take_app_le in H; [|lia]. rewrite drop_app_le in H; [|lia].
    destruct (record c d (take n p) g) as [[t|e] g1]; [|done].
    destruct (feed_loop c f2 d _) as [[rest|e] g2] eqn:Hr; [|done]. injection H as <- <-.
    apply (IH f2 (drop n p) x g1 rest g2) in Hr as (o1 & q & g3 & -> & Hq & Hk); [|rewrite length_drop; lia|].
    + exists (t ++ o1), q, g3. split; [done|]. rewrite length_drop in Hq. split; [lia|]. intros f3 H3.
      destruct (Hk f3 H3) as (o2 & E2 & ->). exists o2. split; [done|]. by rewrite (assoc_L (++)).
    + rewrite length_app length_drop. rewrite length_app in H2. lia.
Qed.
End loop.

(** Feeding chunks one after the other. *)
Fixpoint feed_all (c : Setup) (d : direction) (chunks : list buffer) : SM Guard buffer :=
  match chunks with
  | [] => mret []
  | x :: chunks => o ← feed c d x; rest ← feed_all c d chunks; mret (o ++ rest)
  end.

Lemma feed_done c d x g : g_phase g = Done → pending (stream_of d g) = [] → feed c d x g = (Ret x, g).
Proof. intros H1 H2. unfold feed. rewrite get_bind H2 bool_decide_eq_true_2 //. Qed.

Lemma feed_eq c d x g : let p := pending (stream_of d g) in ¬ (g_phase g = Done ∧ p = []) →
  feed c d x g = if maxHelloBytes c + maxPendingBytes c <? blen p + blen x then (Throw (relay_fail "PENDING_LIMIT"), g)
    else feed_loop c (S (length (p ++ x))) d (set_pending d (p ++ x) g).
Proof.
  intros p H. unfold feed. rewrite get_bind. fold p. 
  assert (bool_decide (g_phase g = Done) && (length p =? 0)%nat = false) as ->.
  { apply andb_false_iff. rewrite bool_decide_eq_false Nat.eqb_neq. destruct p; [|by right]. left. intros E. by apply H. }
  destruct (_ <? _); [done|]. by rewrite modify_bind.
Qed.

Lemma feed_split c d x y g out g' : feed c d (x ++ y) g = (Ret out, g') →
  ∃ o1 o2 g1, feed c d x g = (Ret o1, g1) ∧ feed c d y g1 = (Ret o2, g') ∧ out = o1 ++ o2.
Proof.
  set (p := pending (stream_of d g)). destruct (decide (g_phase g = Done ∧ p = [])) as [[H1 H2]|Hn].
  { rewrite feed_done // => [= <- <-]. exists x, y, g. by rewrite !feed_done. }
  rewrite !feed_eq //. fold p. destruct (Z.ltb_spec (maxHelloBytes c + maxPendingBytes c) (blen p + blen (x ++ y))) as [|Hl]; [done|].
  unfold blen in Hl. rewrite length_app in Hl. rewrite (proj2 (Z.ltb_ge _ _)); [|unfold blen; lia]. rewrite (assoc_L (++)).
  intros H. destruct (loop_split c d (S (length (p ++ x))) _ _ _ _ _ _ (Nat.lt_succ_diag_r _) (Nat.lt_succ_diag_r _) H) as (o1 & q & g1 & E1 & Hq & Hk).
  rewrite E1. exists o1. destruct (Hk (S (length (q ++ y))) (Nat.lt_succ_diag_r _)) as (o2 & E2 & ->). exists o2, (set_pending d q g1).
  split; [done|]. split; [|done]. destruct (decide (g_phase (set_pending d q g1) = Done ∧ pending (stream_of d (set_pending d q g1)) = [])) as [[H1 H2]|Hn'].
  - rewrite feed_done //. rewrite pending_set in H2. subst q. rewrite feed_loop_step /= in E2.
    rewrite phase_set in H1. unfold head_of in E2. rewrite H1 in E2. rewrite bool_decide_eq_true_2 // in E2.
    by destruct y; injection E2 as <- <-.
  - rewrite feed_eq // pending_set set_pending_set. rewrite (proj2 (Z.ltb_ge _ _)); [done|]. rewrite length_app in Hq. unfold blen. lia.
Qed.

(** C31: How a stream is cut into chunks does not matter: if the guard takes some bytes at
    once, it takes them in any chunks, and sends on the same bytes and is left in the same
    state; so nothing can be brought past it by splitting it. *)
Theorem retry_chunks c d chunks : ∀ g out g', feed c d (concat chunks) g = (Ret out, g') → chunks ≠ [] →
  feed_all c d chunks g = (Ret out, g').
Proof.
  induction chunks as [|x chunks IH]; intros g out g' H Hne; [done|]. cbn [feed_all concat] in *. destruct chunks as [|y chunks].
  - rewrite app_nil_r in H. unfold mbind, SM_bind. rewrite H. cbn. by rewrite app_nil_r.
  - destruct (feed_split c d x (concat (y :: chunks)) g out g' H) as (o1 & o2 & g1 & E1 & E2 & ->).
    unfold mbind at 1, SM_bind at 1. rewrite E1. unfold mbind at 1, SM_bind at 1. by rewrite (IH g1 o2 g' E2).
Qed.

Definition sample_setup : Setup :=
  MkSetup 65536 131072 ClientEnd (js "token.relay.example") (js "a.io") (js "a.io") [].
Definition sample_guard : Guard := MkRetryGuard ServerFirst (MkStream [] None) (MkStream [] None) true true.

(** A change-cipher-spec and early data, cut in three. *)
Lemma retry_chunks_witness :
  let b := [0x14; 3; 3; 0; 1; 1; 0x17; 3; 3; 0; 2; 9; 9; 0x15] in ∃ g',
  feed sample_setup Client b sample_guard = (Ret (take 13 b), g') ∧
  feed_all sample_setup Client [take 2 b; subarray 2 12 b; drop 12 b] sample_guard = (Ret (take 13 b), g').
Proof.
  intros b. eexists. split; [vm_compute; reflexivity|].
  apply (retry_chunks sample_setup Client [take 2 b; subarray 2 12 b; drop 12 b] sample_guard); [vm_compute; reflexivity|done].
Defined.

(** ** What goes to the exit before the server's answer is known *)

(** One ClientHello and nothing else, as the exit reads it: whole records, no more than it
    takes, with no byte after the message, whose only name is [relay]. *)
Definition names (relay : jstr) (b : buffer) : Prop :=
  ∃ rs h, b = rec_wire rs ∧ h_bytesConsumed h = length b ∧ carries [] rs h [] ∧ x_sni (h_exts h) = [relay].
(** One record that is not handshake: an alert, early data, or a change-cipher-spec as
    TLS 1.3 has it. *)
Definition other_record (b : buffer) : Prop :=
  length b = (5 + u16_at 3 b)%nat ∧ (byte_at 0 b = 0x15 ∨ byte_at 0 b = 0x17 ∨ byte_at 0 b = 0x14 ∧ length b = 6%nat ∧ byte_at 5 b = 1).
Definition veiled (relay : jstr) (b : buffer) : Prop :=
  ∃ items, b = concat items ∧ Forall (λ i, other_record i ∨ names relay i) items.

Lemma veiled_nil relay : veiled relay [].
Proof. by exists []. Qed.
Lemma veiled_one relay b : other_record b ∨ names relay b → veiled relay b.
Proof. intros H. exists [b]. split; [by rewrite /= app_nil_r|by constructor]. Qed.
Lemma veiled_app relay a b : veiled relay a → veiled relay b → veiled relay (a ++ b).
Proof. intros (l & -> & Hl) (k & -> & Hk). exists (l ++ k). rewrite concat_app. split; [done|by apply Forall_app]. Qed.

(** What the collector holds: whole records, and what they carry. *)
Definition collects (h : HelloRecords) : Prop :=
  ∃ rs, Forall rec_ok rs ∧ hr_records h = rec_wire rs ∧ hr_payloads h = rec_payload rs ∧ hr_header h = take 4 (rec_payload rs) ∧
    bytes_ok (rec_wire rs).
(** The client's side of the state. *)
Definition client_ok (g : Guard) : Prop :=
  g_phase g ≠ Done ∧ match hello (g_client g) with Some h => collects h | None => True end.

Lemma rec_wire_app rs rs' : rec_wire (rs ++ rs') = rec_wire rs ++ rec_wire rs'.
Proof. unfold rec_wire. by rewrite map_app concat_app. Qed.
Lemma rec_payload_app rs rs' : rec_payload (rs ++ rs') = rec_payload rs ++ rec_payload rs'.
Proof. unfold rec_payload. by rewrite map_app concat_app. Qed.

(** Records are read in one way only. *)
Lemma rec_wire_prefix rs : ∀ rs' tail, Forall rec_ok rs → Forall rec_ok rs' → rec_wire rs' = rec_wire rs ++ tail →
  ∃ more, rs' = rs ++ more.
Proof.
  induction rs as [|r rs IH]; intros rs' tail Hok Hok' E; [by exists rs'|]. destruct rs' as [|r' rs'].
  { apply (f_equal length) in E. apply Forall_cons in Hok as [[[Hr _] _] _]. change (rec_wire (r :: rs)) with (rec_enc r ++ rec_wire rs) in E.
    rewrite (length_app (rec_enc r ++ _)) (length_app (rec_enc r)) (rec_enc_length r Hr) in E. cbn in E. lia. }
  apply Forall_cons in Hok as [Hr Hok], Hok' as [Hr' Hok'].
  destruct (rec_step (rec_wire (r' :: rs')) 0 r rs tail E Hr) as (_ & _ & Hu & Hp & Hd).
  destruct (rec_step (rec_wire (r' :: rs')) 0 r' rs' [] (eq_sym (app_nil_r _)) Hr') as (_ & _ & Hu' & Hp' & Hd').
  rewrite Hu in Hu'. assert (r.2 = r'.2) as E2 by by rewrite -Hp -Hp' Hu'. rewrite app_nil_r -Hu' Hd in Hd'.
  assert (r.1 = r'.1) as E1.
  { destruct Hr as [[H1 _] _], Hr' as [[H1' _] _]. apply (f_equal (take 3)) in E. change (rec_wire (r :: rs)) with (rec_enc r ++ rec_wire rs) in E.
    change (rec_wire (r' :: rs')) with (rec_enc r' ++ rec_wire rs') in E. unfold rec_enc in E. rewrite -!(assoc_L (++)) in E.
    by rewrite !take_app_exact in E. }
  destruct (IH rs' tail Hok Hok' (eq_sym Hd')) as [more ->]. exists more. cbn. f_equal. destruct r, r'. cbn in *. by subst.
Qed.

(** A hello read from records that carry just as many bytes as it has takes all of them. *)
Lemma carries_exact rs rs' tail h extra : Forall rec_ok rs' → carries [] rs h extra → rec_wire rs' = rec_wire rs ++ tail →
  length (rec_payload rs') = (4 + length (h_clientHelloBody h))%nat → extra = [] ∧ tail = [].
Proof.
  intros Hok' (Hok & _ & HP & _) E Hl. destruct (rec_wire_prefix rs rs' tail Hok Hok' E) as [more ->]. cbn [app] in HP.
  rewrite rec_payload_app HP length_app handshake_length in Hl. split; [apply nil_length_inv; lia|].
  assert (more = []) as ->; [|rewrite app_nil_r -{1}(app_nil_r (rec_wire rs)) in E; by apply app_inv_head in E].
  destruct more as [|r more]; [done|]. apply Forall_app in Hok' as [_ [(_ & H1 & _) _]%Forall_cons].
  change (rec_payload (r :: more)) with (r.2 ++ rec_payload more) in Hl. rewrite length_app in Hl. lia.
Qed.

(** A record on the wire. *)
Lemma record_enc b : bytes_ok b → byte_at 0 b = 0x16 → length b = (5 + u16_at 3 b)%nat → (6 <= length b)%nat →
  ∃ r, rec_ok r ∧ b = rec_enc r ∧ drop 5 b = r.2.
Proof.
  intros Hb H0 Hl H6. destruct (rec_read b 0 Hb ltac:(lia) H0) as (Hr & _ & Hd); [cbn [Nat.add]; lia..|].
  set (r := (_, _)) in *. exists r. change (0 + 3)%nat with 3%nat in Hd. change (drop 0 b) with b in Hd.
  rewrite (drop_ge b) in Hd; [|lia]. rewrite app_nil_r in Hd. split; [done|]. split; [done|].
  unfold r. cbn [snd]. change (0 + 3)%nat with 3%nat. change (0 + 5)%nat with 5%nat. unfold subarray. rewrite take_ge; [done|rewrite ?length_drop; lia].
Qed.

Section hides.
Variable c : Setup.
Hypothesis Hrole : g_role c = ClientEnd.
Hypothesis Hsni : inputSni c ≠ [] ∧ ascii_str (inputSni c) ∧ blen (inputSni c) <= blen (utf8_encode (g_relayHost c)).
Hypothesis Hrelay : well_formed (g_relayHost c) = true.

Lemma second_hello_names rs extra p : Forall rec_ok rs → bytes_ok (rec_wire rs) →
  Z.of_nat (length (rec_payload rs)) = 4 + be_value (subarray 1 4 (take 4 (rec_payload rs))) →
  second_hello c (rec_wire rs) extra = Ret p → names (g_relayHost c) p.
Proof.
  intros Hok Hb Hlen. unfold second_hello. rewrite Hrole. intros ([?|?|next] & Hp & H)%outcome_bind_Ret; [done..|].
  apply outcome_bind_Ret in H as (? & _ & H). apply outcome_bind_Ret in H as (? & Hg%guard_js_Ret & H).
  apply outcome_bind_Ret in H as (a & Ha & H). apply outcome_bind_Ret in Ha as ([?|r] & Hr & Ha); injection Ha as <-; [done|].
  apply outcome_bind_Ret in H as (? & _ & H). apply Ret_inj in H as <-.
  destruct (replaced_inv (rec_wire rs) _ r Hb Hr) as (rs0 & h & ex & s & ch & E & Hc & Hca & Hsb & Hs & Hbody & Ho & Hch & Htcp & Hp' & Hhead).
  rewrite Hp in Hp'. injection Hp' as ->. rewrite !andb_true_iff !bool_decide_eq_true in Hg. destruct Hg as [[Hx _] _].
  destruct Hsni as (Hne & Hasc & Hle). rewrite Hx in Hhead. injection Hhead as Hhead.
  assert (s_host s = inputSni c) as Es.
  { rewrite Hhead Ho. symmetry. apply ascii_decode, decode_ascii; [|by rewrite -Ho -Hhead]. eapply Forall_impl; [exact Hsb|]. unfold byte_ok. lia. }
  assert (length (rec_payload rs) = 4 + length (h_clientHelloBody h))%nat as Hpl.
  { destruct (rec_wire_prefix rs0 rs _ (proj1 Hca) Hok E) as [more ->]. rewrite rec_payload_app in Hlen |- *.
    pose proof Hca as (_ & _ & HP & H24 & _). cbn [app] in HP. rewrite HP take_app_le in Hlen; [|rewrite handshake_length; lia].
    rewrite handshake_take Z.mod_small in Hlen; [|split; [unfold blen; lia|exact H24]]. rewrite HP. unfold blen in Hlen. lia. }
  destruct (carries_exact rs0 rs _ h ex Hok Hca E Hpl) as [-> Et]. rewrite Et app_nil_r in E. rewrite E -(app_nil_r (rec_wire rs0)) in Htcp.
  destruct (rebuilt_carries s (g_relayHost c) rs0 [] h [] ch (prefixBuf r) Hs) as (_ & _ & rs' & -> & _ & _ & Hexts & Hca'); try done; [by rewrite Es..|].
  eexists rs', _. split; [reflexivity|]. split; [|split; [exact Hca'|]]; [done|]. cbn [h_exts x_sni].
  rewrite Hexts in Hx. cbn [x_sni] in Hx. injection Hx as _ Hx. by rewrite Hx.
Qed.

(** What adding a record to the collector gives. *)
Lemma hr_add_collects limit type b h : collects h → bytes_ok b → byte_at 0 b = 0x16 → length b = (5 + u16_at 3 b)%nat → (6 <= length b)%nat →
  let '(r, h') := hr_add limit type b h in collects h' ∧
  match r with
  | Ret (Some m) => wire m = hr_records h' ∧
      extraBytes m = (length (hr_payloads h') - (4 + Z.to_nat (be_value (subarray 1 4 (hr_header h')))))%nat ∧
      (4 + Z.to_nat (be_value (subarray 1 4 (hr_header h'))) <= length (hr_payloads h'))%nat
  | _ => True
  end.
Proof.
  intros (rs & Hok & H1 & H2 & H3 & Hb) Hbb H0 Hl H6. unfold hr_add. rewrite get_bind. destruct (limit <? _); [split; [by exists rs|done]|].
  rewrite modify_bind get_bind. cbn [hr_records hr_payloads hr_header].
  destruct (record_enc b Hbb H0 Hl H6) as (q & Hq & -> & E). rewrite E.
  assert (collects (MkRecords (hr_records h ++ rec_enc q) (hr_payloads h ++ q.2) (hr_header h ++ take (4 - length (hr_header h)) q.2))) as Hc.
  { exists (rs ++ [q]). rewrite rec_wire_app rec_payload_app /rec_wire /rec_payload /= !app_nil_r -/(rec_wire rs) -/(rec_payload rs) H1 H2 H3 hdr_grow.
    split; [apply Forall_app; by split; [|constructor]|]. split_and!; [done..|]. by apply bytes_ok_app. }
  repeat match goal with |- context [if ?x then _ else _] => destruct x eqn:? end; try done. split; [done|]. cbn [wire extraBytes hr_records hr_payloads hr_header].
  split; [done|]. split; [done|]. match goal with H : (_ <? _)%nat = false |- _ => by apply Nat.ltb_ge in H end.
Qed.

Ltac wlp_if := match goal with |- wlp (if ?b then _ else _) _ _ => destruct b eqn:? end.

Lemma collected_names m g : ∀ h, collects h → wire m = hr_records h →
  extraBytes m = (length (hr_payloads h) - (4 + Z.to_nat (be_value (subarray 1 4 (hr_header h)))))%nat →
  (4 + Z.to_nat (be_value (subarray 1 4 (hr_header h))) <= length (hr_payloads h))%nat →
  wlp (collected c Client m) (λ out g', names (g_relayHost c) out ∧ g_phase g' = ServerFinal ∧ g_client g' = g_client g) g.
Proof.
  intros h (rs & Hok & H1 & H2 & H3 & Hb) Hw He Hle. cbn [collected]. apply wlp_bind, wlp_lift. intros p Hs.
  apply wlp_bind, wlp_modify, wlp_bind, wlp_modify, wlp_ret. split; [|done]. rewrite Hw H1 in Hs. apply (second_hello_names rs (extraBytes m)); try done.
  assert (extraBytes m = 0%nat) as Hz.
  { unfold second_hello in Hs. apply outcome_bind_Ret in Hs as ([?|?|?] & _ & Hs); [done..|]. by apply outcome_bind_Ret in Hs as (? & ?%guard_js_Ret%Nat.eqb_eq & _). }
  rewrite H3 H2 in He, Hle. pose proof (be_value_range _ (bytes_ok_subarray 1 4 _ (bytes_ok_take 4 _ (rec_payload_bytes rs Hb)))). lia.
Qed.

Lemma record_veiled b g : client_ok g → bytes_ok b → length b = (5 + u16_at 3 b)%nat → (6 <= length b)%nat →
  wlp (record c Client b) (λ out g', veiled (g_relayHost c) out ∧ client_ok g') g.
Proof.
  intros (Hph & Hh) Hb Hl H6. unfold record. apply wlp_bind, wlp_get. cbn [stream_of].
  destruct (Z.eqb_spec (byte_at 0 b) 0x16) as [H16|H16]; cbn [negb].
  - wlp_if; [by apply wlp_lift|].
    pose proof (hr_add_collects (maxHelloBytes c) 1 b (default records_new (hello (g_client g)))) as Ha.
    destruct (hr_add _ _ _ _) as [r h]. destruct Ha as [Hr Hw]; [|done..|].
    { destruct (hello (g_client g)); [done|]. exists []. by repeat split; try constructor. }
    apply wlp_bind, wlp_modify, wlp_bind, wlp_lift. intros [m|] ->.
    + destruct Hw as (Hw & He & Hle). apply wlp_bind, wlp_modify. apply (wlp_mono _ _ _ _ (collected_names m _ h Hr Hw He Hle)).
      intros p g' (Hn & Hp & Hc). split; [apply veiled_one; by right|]. split; [by rewrite Hp|]. rewrite Hc. done.
    + apply wlp_ret. split; [apply veiled_nil|]. done.
  - assert ((byte_at 0 b = 0x15 ∨ byte_at 0 b = 0x17 ∨ byte_at 0 b = 0x14 ∧ length b = 6%nat ∧ byte_at 5 b = 1) → veiled (g_relayHost c) b) as Hv.
    { intros Ho. apply veiled_one. left. by split. }
    wlp_if; [by apply wlp_lift|]. destruct (Z.eqb_spec (byte_at 0 b) 0x14) as [E|_]; [wlp_if; [by apply wlp_lift|]|].
    { apply wlp_ret. split; [|done]. apply Hv. right. right. match goal with H : _ || _ = false |- _ => apply orb_false_iff in H as [H5%negb_false_iff%Nat.eqb_eq H1%negb_false_iff%Z.eqb_eq] end. done. }
    destruct (Z.eqb_spec (byte_at 0 b) 0x15) as [E|_].
    { apply wlp_ret. split; [apply Hv; by left|done]. }
    destruct (Z.eqb_spec (byte_at 0 b) 0x17) as [E|_]; cbn [andb]; [|by apply wlp_lift]. wlp_if; [|by apply wlp_lift].
    apply wlp_ret. split; [apply Hv; by right; left|done].
Qed.

Lemma head_take_record ph p n : bytes_ok p → head_of c ph p = Take n →
  length (take n p) = (5 + u16_at 3 (take n p))%nat ∧ (6 <= length (take n p))%nat.
Proof.
  intros Hb H. pose proof (head_take c ph p n H) as Hn. rewrite length_take Nat.min_l; [|lia]. revert H.
  unfold head_of. destruct (length p =? 0)%nat; [done|]. destruct (bool_decide _); [done|]. destruct (length p <? 5)%nat; [done|]. cbv zeta. destruct (be_value (subarray 3 5 p) =? 0) eqn:Hz; [done|]. cbn [orb].
  destruct (_ || _); [done|]. destruct (length p <? _)%nat; [done|]. intros E. injection E as E.
  unfold u16_at. pose proof (subarray_take 3 5 n p [] ltac:(lia)) as S. rewrite app_nil_r in S.
  change (3 + 2)%nat with 5%nat. rewrite S. apply Z.eqb_neq in Hz. pose proof (be_value_range _ (bytes_ok_subarray 3 5 p Hb)). lia.
Qed.

Lemma loop_veiled fuel : ∀ p g out g', bytes_ok p → client_ok g → feed_loop c fuel Client (set_pending Client p g) = (Ret out, g') →
  veiled (g_relayHost c) out ∧ client_ok g' ∧ bytes_ok (pending (g_client g')).
Proof.
  induction fuel as [|fuel IH]; intros p g out g' Hp Hg.
  { intros [= <- <-]. split; [apply veiled_nil|done]. }
  rewrite feed_loop_step. destruct (head_of c (g_phase g) p) as [r q|n] eqn:E.
  - intros [= -> <-]. destruct (head_stop _ _ _ _ _ E) as [[-> ->]|(_ & _ & Hd)]; [|by destruct Hg].
    split; [apply veiled_nil|done].
  - destruct (head_take_record _ _ _ Hp E) as [Hl6 H6]. pose proof (record_veiled (take n p) g Hg (bytes_ok_take n p Hp) Hl6 H6) as Hr. unfold wlp in Hr.
    destruct (record c Client (take n p) g) as [[t|e] g1]; [|done]. destruct Hr as [Ht Hg1].
    destruct (feed_loop c fuel Client _) as [[rest|e] g2] eqn:El; [|done]. intros [= <- <-].
    destruct (IH (drop n p) g1 rest g2 (bytes_ok_drop n p Hp) Hg1 El) as (Hv & H2). split; [by apply veiled_app|done].
Qed.

Lemma feed_veiled x g out g' : bytes_ok x → bytes_ok (pending (g_client g)) → client_ok g → feed c Client x g = (Ret out, g') →
  veiled (g_relayHost c) out ∧ client_ok g' ∧ bytes_ok (pending (g_client g')).
Proof.
  intros Hx Hp Hg. rewrite feed_eq; [|intros [? _]; by destruct Hg]. case_match; [done|].
  apply loop_veiled; [by apply bytes_ok_app|done].
Qed.
End hides.

(** The server's side leaves the client's stream alone. *)
Lemma server_feed_client c x cl : keeps (λ g, g_client g = cl) (feed c Server x).
Proof.
  assert (∀ m, keeps (λ g, g_client g = cl) (collected c Server m)) as Hc by (intros m; cbn [collected]; keeps_steps; done).
  assert (∀ b, keeps (λ g, g_client g = cl) (record c Server b)) as Hr.
  { intros b. unfold record. keeps_steps; first [done|apply Hc]. }
  unfold feed. keeps_steps; try done. generalize (S (length (pending (stream_of Server a) ++ x))). intros fuel.
  induction fuel as [|fuel IH]; cbn [feed_loop]; keeps_steps; first [done|apply Hr|exact IH].
Qed.

(** A history of chunks, until one throws (the session then ends): for each the phase it
    came in and what was sent on. *)
Fixpoint guard_run (c : Setup) (ins : list (direction * buffer)) (g : Guard) : list (phase * direction * buffer) :=
  match ins with
  | [] => []
  | (d, x) :: ins =>
      match feed c d x g with
      | (Ret out, g') => (g_phase g, d, out) :: guard_run c ins g'
      | (Throw _, _) => []
      end
  end.

(** Once done, done. *)
Lemma feed_at_done c d x g : g_phase g = Done → g_phase (feed c d x g).2 = Done.
Proof.
  intros Hd. destruct (decide (pending (stream_of d g) = [])) as [He|He]; [by rewrite feed_done|].
  rewrite feed_eq; [|tauto]. destruct (_ <? _); [done|]. rewrite feed_loop_step. unfold head_of.
  destruct (_ =? 0)%nat; [|rewrite bool_decide_eq_true_2 //]; cbn [snd]; by rewrite phase_set.
Qed.

Lemma run_veiled c ins : g_role c = ClientEnd →
  inputSni c ≠ [] ∧ ascii_str (inputSni c) ∧ blen (inputSni c) <= blen (utf8_encode (g_relayHost c)) →
  well_formed (g_relayHost c) = true → Forall (λ i, bytes_ok i.2) ins → ∀ g,
  g_phase g = Done ∨ client_ok g ∧ bytes_ok (pending (g_client g)) →
  Forall (λ o, o.1.1 ≠ Done → o.1.2 = Client → veiled (g_relayHost c) o.2) (guard_run c ins g).
Proof.
  intros Hr Hs Hw Hins. induction Hins as [|[d x] ins Hx _ IH]; intros g Hg; cbn [guard_run]; [constructor|].
  destruct (feed c d x g) as [[out|e] g'] eqn:E; [|constructor]. destruct Hg as [Hd|[Hc Hp]].
  { constructor; [by rewrite Hd|]. apply IH. left. pose proof (feed_at_done c d x g Hd) as H. by rewrite E in H. }
  destruct d.
  - destruct (feed_veiled c Hr Hs Hw x g out g' Hx Hp Hc E) as (Hv & H2 & H3). constructor; [done|]. apply IH. by right.
  - constructor; [by intros _ [=]|]. apply IH. destruct (decide (g_phase g' = Done)) as [|Hd]; [by left|]. right.
    pose proof (server_feed_client c x (g_client g) g eq_refl) as H. rewrite E in H. cbn in H. destruct Hc as [_ Hc]. by rewrite /client_ok H.
Qed.

(** C26: The name stays hidden through a retry: whatever the two sides send, in whatever
    order and chunks, all that the client's end sends to the exit before the server's final
    hello is known is a sequence of whole records: alerts, early data, change-cipher-specs
    of the one allowed form, and groups of handshake records that carry exactly one
    ClientHello, not a byte more, whose only name is the relay's.  A second hello in plain
    text never passes, alone or beside the rewritten one.  The name hidden is ASCII and
    not longer than the relay's, as [encodeRelayHostname] makes it. *)
Theorem retry_hides_name maxHello maxPending parsed prefix relay origin sni c g ins :
  createHelloRetryGuard maxHello maxPending parsed prefix ClientEnd relay origin = Ret (Some (c, g)) →
  x_sni (h_exts parsed) = [sni] → sni ≠ [] → ascii_str sni → blen sni <= blen (utf8_encode relay) → well_formed relay = true →
  Forall (λ i, bytes_ok i.2) ins →
  Forall (λ o, o.1.1 ≠ Done → o.1.2 = Client → veiled relay o.2) (guard_run c ins g).
Proof.
  unfold createHelloRetryGuard. destruct (negb _); [done|]. intros H Hsni Hne Ha Hl Hw Hins. rewrite Hsni in H.
  apply outcome_bind_Ret in H as (? & _ & H). apply outcome_bind_Ret in H as (? & _ & H). injection H as <- <-.
  apply (run_veiled (MkSetup maxHello maxPending ClientEnd relay origin sni _)); [done|by split_and!|done|done|]. right. split; [done|constructor].
Qed.

(** A hello for [a.io], a request to retry, a change-cipher-spec, and the second hello, in
    two records and two chunks. *)
Definition sample_body : buffer :=
  [3; 3] ++ replicate 32 7 ++ [1; 9] ++ [0; 2; 0x13; 1] ++ [1; 0] ++ [0; 22] ++
  [0; 0; 0; 9; 0; 7; 0; 0; 4; 97; 46; 105; 111] ++ [0; 43; 0; 5; 4; 3; 4; 3; 3].
Definition sample_first : buffer := [0x16; 3; 1; 0; 70] ++ [1; 0; 0; 66] ++ sample_body.
Definition sample_second : buffer :=
  let msg := [1; 0; 0; 66] ++ sample_body in [0x16; 3; 3; 0; 30] ++ take 30 msg ++ [0x16; 3; 3; 0; 40] ++ drop 30 msg.
Definition sample_retry_request : buffer :=
  [0x16; 3; 3; 0; 50] ++ [2; 0; 0; 46] ++ [3; 3] ++ HRR_RANDOM ++ [0; 0x13; 1; 0; 0; 6; 0; 43; 0; 2; 3; 4].
Definition sample_history : list (direction * buffer) :=
  [(Server, sample_retry_request); (Client, [0x14; 3; 3; 0; 1; 1] ++ take 50 sample_second); (Client, drop 50 sample_second)].

Definition sample_parsed : Hello := MkHello (MkExts [js "a.io"] [] [0x0304; 0x0303]) 75 sample_body.
Definition sample_end (r : role) (sni : jstr) : Setup :=
  MkSetup 65536 131072 r (js "token.relay.example") (js "a.io") sni (take 36 sample_body).
Definition guard_new : Guard := MkRetryGuard ServerFirst (MkStream [] None) (MkStream [] None) false false.

Lemma retry_hides_name_witness :
  parseFirstTlsClientHelloFromTcpBuf sample_first = Ret (IsHello sample_parsed) ∧
  createHelloRetryGuard 65536 131072 sample_parsed sample_first ClientEnd (js "token.relay.example") (js "a.io") =
    Ret (Some (sample_end ClientEnd (js "a.io"), guard_new)) ∧
  (λ o, (o.1, length o.2)) <$> guard_run (sample_end ClientEnd (js "a.io")) sample_history guard_new =
    [((ServerFirst, Server), 55); ((ClientRetry, Client), 6); ((ClientRetry, Client), 95)]%nat ∧
  Forall (λ o, o.1.1 ≠ Done → o.1.2 = Client → veiled (js "token.relay.example") o.2)
    (guard_run (sample_end ClientEnd (js "a.io")) sample_history guard_new).
Proof.
  assert (createHelloRetryGuard 65536 131072 sample_parsed sample_first ClientEnd (js "token.relay.example") (js "a.io") =
    Ret (Some (sample_end ClientEnd (js "a.io"), guard_new))) as E by (vm_compute; reflexivity).
  split; [vm_compute; reflexivity|]. split; [exact E|]. split; [vm_compute; reflexivity|].
  apply (retry_hides_name 65536 131072 sample_parsed sample_first _ (js "a.io") (js "a.io"));
    [exact E|reflexivity|done|apply (bool_decide_unpack _); vm_compute; exact I|vm_compute; discriminate|reflexivity|].
  apply (bool_decide_unpack _). vm_compute. exact I.
Defined.
