(* ===== verification/TlsRelay.v ===== *)
(** * The two ends of a transparent relay (src/scripts/lib/transparent-tls-runtime.mjs and
    transparent-tls-io.mjs)

    [readRelayHello] collects the first bytes of a connection until they hold a ClientHello;
    [attachTransparentTlsClientSession] then hides its name and sends it to the exit, where
    [wireTransparentTlsEncSniSession] restores it and connects to the origin.  Here are the
    reader ([read_data]) and what each end does from a hello to its first bytes out
    ([client_open], [exit_open]); sockets, the connection itself and the logs are left out.
    [hello_reader_lazy]: the reader, which does not parse again before it can succeed, does
    what one that parses at every chunk does; [relay_transparent]: the exit sends the origin
    the bytes the application sent the client; [relay_admits_once]: no token opens two
    connections. *)

From S2P Require Import Prelude JsMap Bytes JsString Effects Crypto DnsBoot TlsReplay Base62 TlsEncSni TlsHello TlsRebuild TlsRetry.
Local Open Scope Z_scope.
#[local] Unset Default Proof Using.

(** ** The reader of the hello *)

Section reader.
Variables lim_hello lim_pending : nat.

Inductive reading := Reading | Resolved (buffer : buffer) (parsed : Hello) | SessionFailed (code : js_error).
Record Reader := MkReader { rd_buffer : buffer; rd_nextParseAt : nat; rd_state : reading }.
Definition reader_new : Reader := MkReader [] 5 Reading.

Definition rd_fail (code : string) (r : Reader) : Reader := MkReader (rd_buffer r) (rd_nextParseAt r) (SessionFailed (relayError code)).

(** [data(chunk)]: [chunks] and [length] are the bytes so far.  Once resolved or failed the
    listener is removed. *)
Definition read_data (chunk : buffer) (r : Reader) : outcome Reader :=
  match rd_state r with
  | Reading =>
      if (lim_hello + lim_pending <? length (rd_buffer r) + length chunk)%nat then Ret (rd_fail "TLS_RELAY_PENDING_LIMIT" r) else
      let r := MkReader (rd_buffer r ++ chunk) (rd_nextParseAt r) Reading in
      if (length (rd_buffer r) <? rd_nextParseAt r)%nat then Ret r else
      parsed ← parseFirstTlsClientHelloFromTcpBuf (take lim_hello (rd_buffer r));
      Ret match parsed with
          | NeedMore minTotal =>
              let r := MkReader (rd_buffer r) minTotal Reading in
              if (lim_hello <? minTotal)%nat || (lim_hello <=? length (rd_buffer r))%nat
              then rd_fail "TLS_RELAY_HELLO_LIMIT" r else r
          | NotHello _ => rd_fail "TLS_RELAY_HELLO" r
          | IsHello h =>
              match x_sni (h_exts h) with
              | (_ :: _) :: _ =>
                  if (lim_pending <? length (rd_buffer r) - h_bytesConsumed h)%nat then rd_fail "TLS_RELAY_PENDING_LIMIT" r
                  else MkReader (rd_buffer r) (rd_nextParseAt r) (Resolved (rd_buffer r) h)
              | _ => rd_fail "TLS_RELAY_HELLO" r
              end
          end
  | _ => Ret r
  end.

Fixpoint read_all (chunks : list buffer) (r : Reader) : outcome Reader :=
  match chunks with [] => Ret r | x :: chunks => r ← read_data x r; read_all chunks r end.

(** *** One that parses at every chunk *)

Definition eager_data (chunk : buffer) (s : buffer * reading) : outcome (buffer * reading) :=
  match s.2 with
  | Reading =>
      if (lim_hello + lim_pending <? length s.1 + length chunk)%nat
      then Ret (s.1, SessionFailed (relayError "TLS_RELAY_PENDING_LIMIT")) else
      let b := s.1 ++ chunk in
      parsed ← parseFirstTlsClientHelloFromTcpBuf (take lim_hello b);
      Ret (b, match parsed with
              | NeedMore minTotal => if (lim_hello <? minTotal)%nat || (lim_hello <=? length b)%nat
                                     then SessionFailed (relayError "TLS_RELAY_HELLO_LIMIT") else Reading
              | NotHello _ => SessionFailed (relayError "TLS_RELAY_HELLO")
              | IsHello h =>
                  match x_sni (h_exts h) with
                  | (_ :: _) :: _ => if (lim_pending <? length b - h_bytesConsumed h)%nat
                                     then SessionFailed (relayError "TLS_RELAY_PENDING_LIMIT") else Resolved b h
                  | _ => SessionFailed (relayError "TLS_RELAY_HELLO")
                  end
              end)
  | _ => Ret s
  end.
Fixpoint eager_all (chunks : list buffer) (s : buffer * reading) : outcome (buffer * reading) :=
  match chunks with [] => Ret s | x :: chunks => s ← eager_data x s; eager_all chunks s end.
End reader.

Lemma u16_at_app off b x : (off + 2 <= length b)%nat → u16_at off (b ++ x) = u16_at off b.
Proof. intros H. pose proof (u16_at_take off (length b) b x ltac:(lia)) as E. by rewrite take_ge in E. Qed.
Lemma byte_at_app i b x : (i < length b)%nat → byte_at i (b ++ x) = byte_at i b.
Proof. intros H. unfold byte_at. by rewrite lookup_app_l. Qed.
Lemma subarray_app i j b x : (j <= length b)%nat → subarray i j (b ++ x) = subarray i j b.
Proof. intros H. pose proof (subarray_take i j (length b) b x ltac:(lia)) as E. by rewrite take_ge in E. Qed.

(** What is missing is missing until it is there. *)
Lemma need_more_loop f1 : ∀ f2 b x off P hdr m, (f1 <= f2)%nat → (off <= length b)%nat →
  record_loop f1 b off P hdr = Ret (NeedMore m) → (length (b ++ x) < m)%nat → record_loop f2 (b ++ x) off P hdr = Ret (NeedMore m).
Proof.
  induction f1 as [|f1 IH]; intros [|f2] b x off P hdr m Hf Ho H Hm; [done..|lia|]. cbn [record_loop] in *.
  pose proof (length_app b x) as Hx. destruct (Nat.ltb_spec (length b - off) 5) as [H5|H5].
  - injection H as <-. by rewrite (proj2 (Nat.ltb_lt _ _)); [|lia].
  - rewrite (proj2 (Nat.ltb_ge _ _)); [|lia]. rewrite byte_at_app; [|lia]. destruct (negb _); [done|].
    rewrite u16_at_app; [|lia]. set (n := u16_at (off + 3) b) in *. destruct (_ || _); [done|].
    destruct (Nat.ltb_spec (length b) (off + 5 + n)) as [Hl|Hl].
    + injection H as <-. by rewrite (proj2 (Nat.ltb_lt _ _)).
    + rewrite (proj2 (Nat.ltb_ge _ _)); [|lia]. rewrite subarray_app //. cbv zeta in *.
      destruct (_ <? 4)%nat; [apply (IH f2); [lia|lia|done|done]|]. destruct (negb _); [done|].
      destruct (_ <? _)%nat; [apply (IH f2); [lia|lia|done|done]|]. apply outcome_bind_Ret in H as ([?|?] & _ & H); done.
Qed.

Lemma need_more_length fuel : ∀ b off P hdr m, record_loop fuel b off P hdr = Ret (NeedMore m) → (length b < m)%nat.
Proof.
  induction fuel as [|fuel IH]; intros b off P hdr m; [done|]. cbn [record_loop].
  destruct (Nat.ltb_spec (length b - off) 5) as [H5|H5]; [intros [= <-]; lia|].
  destruct (negb _); [done|]. cbv zeta. destruct (_ || _); [done|].
  destruct (Nat.ltb_spec (length b) (off + 5 + u16_at (off + 3) b)) as [Hl|Hl]; [by intros [= <-]|].
  destruct (_ <? 4)%nat; [by intros ?%IH|]. destruct (negb _); [done|]. destruct (_ <? _)%nat; [by intros ?%IH|].
  by intros ([?|?] & _ & H)%outcome_bind_Ret.
Qed.

Lemma need_more b m : parseFirstTlsClientHelloFromTcpBuf b = Ret (NeedMore m) → (length b < m)%nat ∧
  ∀ x, (length (b ++ x) < m)%nat → blen (b ++ x) <= TLS_MUX_MAX_CLIENT_BUF → parseFirstTlsClientHelloFromTcpBuf (b ++ x) = Ret (NeedMore m).
Proof.
  unfold parseFirstTlsClientHelloFromTcpBuf. destruct (_ <? blen b); [done|]. destruct (Nat.ltb_spec (length b) 5) as [H5|H5].
  - intros [= <-]. split; [done|]. intros x Hx Hl. rewrite (proj2 (Z.ltb_ge _ _)) //. by rewrite (proj2 (Nat.ltb_lt _ _)).
  - destruct (negb (byte_at 0 b =? 22)) eqn:E; [done|]. intros H. split; [by eapply need_more_length|]. intros x Hx Hl.
    rewrite (proj2 (Z.ltb_ge _ _)) // (proj2 (Nat.ltb_ge _ _)); [|rewrite length_app; lia]. rewrite byte_at_app; [|lia]. rewrite E.
    apply (need_more_loop (S (length b))); [rewrite length_app; lia|lia|done|done].
Qed.

Section reader_facts.
Variables lim_hello lim_pending : nat.
Hypothesis lim_ok : (5 <= lim_hello)%nat ∧ Z.of_nat lim_hello <= TLS_MUX_MAX_CLIENT_BUF.

(** While it reads, a parse of what there is would ask for the same. *)
Definition reads_as (r : Reader) (s : buffer * reading) : Prop :=
  rd_buffer r = s.1 ∧ rd_state r = s.2 ∧ (rd_state r = Reading → (length (rd_buffer r) < rd_nextParseAt r <= lim_hello)%nat ∧
    parseFirstTlsClientHelloFromTcpBuf (rd_buffer r) = Ret (NeedMore (rd_nextParseAt r))).

(** It reads no more. *)
Ltac settled := split; [done|split; [done|intros; first [done|congruence]]].

Lemma data_same x r s : reads_as r s →
  match read_data lim_hello lim_pending x r, eager_data lim_hello lim_pending x s with
  | Ret r', Ret s' => reads_as r' s' | Throw e, Throw e' => e = e' | _, _ => False end.
Proof.
  destruct s as [b st]. intros (Hb & Hst & Hr). cbn [fst snd] in *. subst. unfold read_data, eager_data. cbn [fst snd].
  destruct (rd_state r) eqn:Es; [|settled..]. destruct (Hr eq_refl) as [Hl Hp]. clear Hr.
  destruct (_ <? _)%nat; [settled|]. cbn [rd_buffer rd_nextParseAt].
  destruct (Nat.ltb_spec (length (rd_buffer r ++ x)) (rd_nextParseAt r)) as [Hlt|Hge].
  - rewrite take_ge; [|lia]. destruct (need_more _ _ Hp) as [_ Hx]. rewrite Hx //; [|unfold blen; lia]. rewrite ret_bind.
    rewrite (proj2 (Nat.ltb_ge _ _)); [|lia]. rewrite (proj2 (Nat.leb_gt _ _)); [|lia]. cbn [orb].
    split; [done|]. split; [done|]. intros _. cbn [rd_buffer rd_nextParseAt]. split; [lia|]. apply Hx; [lia|unfold blen; lia].
  - destruct (parseFirstTlsClientHelloFromTcpBuf (take lim_hello (rd_buffer r ++ x))) as [p|e] eqn:Ep; [|done]. rewrite !ret_bind.
    destruct p as [m|why|h]; [|by split_and!|].
    + destruct (Nat.ltb_spec lim_hello m) as [|Hm]; [settled|]. destruct (Nat.leb_spec lim_hello (length (rd_buffer r ++ x))) as [|Hb]; [settled|].
      split; [done|]. split; [done|]. intros _. cbn. rewrite take_ge in Ep; [|lia]. split; [|exact Ep]. apply need_more in Ep as [? _]. lia.
    + repeat case_match; settled.
Qed.

Lemma all_same chunks : ∀ r s, reads_as r s →
  (λ r, (rd_buffer r, rd_state r)) <$> read_all lim_hello lim_pending chunks r = eager_all lim_hello lim_pending chunks s.
Proof.
  induction chunks as [|x chunks IH]; intros r s H.
  - destruct H as (H1 & H2 & _). cbn. rewrite H1 H2. by destruct s.
  - cbn [read_all eager_all]. pose proof (data_same x r s H) as Hx. destruct (read_data _ _ x r), (eager_data _ _ x s); [|done..|by subst].
    by apply IH.
Qed.
End reader_facts.

(** C32: The reader of the hello, which parses only when it has as many bytes as the last
    parse asked for, does what one that parses at every chunk does: it resolves or fails at
    the same chunk, with the same bytes, hello or error. *)
Theorem hello_reader_lazy lim_hello lim_pending chunks : (5 <= lim_hello)%nat → Z.of_nat lim_hello <= TLS_MUX_MAX_CLIENT_BUF →
  (λ r, (rd_buffer r, rd_state r)) <$> read_all lim_hello lim_pending chunks reader_new =
  eager_all lim_hello lim_pending chunks ([], Reading).
Proof.
  intros H1 H2. apply all_same; [done|]. split; [done|]. split; [done|]. intros _. split; [cbn; lia|done].
Qed.

Lemma hello_reader_lazy_witness :
  let chunks := [take 3 sample_first; subarray 3 40 sample_first; drop 40 sample_first ++ [1]] in
  ∃ h, (λ r, (rd_buffer r, rd_state r)) <$> read_all 1000 1000 chunks reader_new = Ret (sample_first ++ [1], Resolved (sample_first ++ [1]) h) ∧
  eager_all 1000 1000 chunks ([], Reading) = Ret (sample_first ++ [1], Resolved (sample_first ++ [1]) h).
Proof.
  intros chunks. exists sample_parsed.
  assert ((λ r, (rd_buffer r, rd_state r)) <$> read_all 1000 1000 chunks reader_new =
    Ret (sample_first ++ [1], Resolved (sample_first ++ [1]) sample_parsed)) as E by (vm_compute; reflexivity).
  split; [exact E|]. rewrite -(hello_reader_lazy 1000 1000 chunks); [exact E|lia|vm_compute; discriminate].
Defined.

(** ** The two ends *)

Section relay.
Context `{Aead} (hmacSha256 : buffer → jstr → buffer) (sha256hex : buffer → jstr).
Variables lim_hello lim_pending : Z.

(** What is sent first: the rewritten prefix, and the tail, through the guard if any. *)
Definition relayPrelude (prefix tail : buffer) : outcome buffer :=
  guard_js (blen prefix + blen tail <=? lim_pending) (relayError "TLS_RELAY_PENDING_LIMIT");; Ret (prefix ++ tail).

Definition forward_tail (guard : option (Setup * Guard)) (tail : buffer) : outcome (buffer * option (Setup * Guard)) :=
  match guard with
  | None => Ret (tail, None)
  | Some (c, g) => match feed c Client tail g with (Ret out, g) => Ret (out, Some (c, g)) | (Throw e, _) => Throw e end
  end.

(** The client's end, from what the reader resolved to: the relay's name, the first bytes
    for the exit, and the guard. *)
Definition client_open (psk : buffer) (publicName : jstr) (port : option (option Z)) (buffer : buffer) (parsed : Hello)
    (now : Z) (nonce : Bytes.buffer) : outcome (jstr * Bytes.buffer * option (Setup * Guard)) :=
  let pn := js_trim publicName in
  guard_js (negb (length pn =? 0)%nat) (relayError "TLS_RELAY_CONFIG");;
  let origin := default [] (head (x_sni (h_exts parsed))) in
  relayHostname ← match encodeRelayHostname hmacSha256 psk origin port pn now nonce with
                  | Ret name => Ret name
                  | Throw _ => Throw (relayError "TLS_RELAY_ENCODE")
                  end;
  let prefix := subarray 0 (h_bytesConsumed parsed) buffer in
  rewritten ← replaceFirstSniInTcpBuffer prefix relayHostname;
  match rewritten with
  | Refused _ => Throw (relayError "TLS_RELAY_REBUILD")
  | Accepted r =>
      guard ← createHelloRetryGuard lim_hello lim_pending parsed prefix ClientEnd relayHostname origin;
      '(tail, guard) ← forward_tail guard (drop (h_bytesConsumed parsed) buffer);
      prelude ← relayPrelude (prefixBuf r) tail;
      Ret (relayHostname, prelude, guard)
  end.

(** The exit, up to the replay guard. *)
Definition exit_prepare (psk : buffer) (publicName : jstr) (buffer : buffer) (parsed : Hello) (now : Z) :
    outcome (Decoded * jstr * Bytes.buffer * option (Setup * Guard)) :=
  let sni := default [] (head (x_sni (h_exts parsed))) in
  match decodeRelayFromHostname hmacSha256 sha256hex sni publicName psk now with
  | None => Throw (relayError "TLS_RELAY_DECODE")
  | Some (dec, replayId, _) =>
      let prefix := subarray 0 (h_bytesConsumed parsed) buffer in
      restored ← restoreFirstSniInTcpBuffer prefix sni (d_hostname dec);
      match restored with
      | Refused _ => Throw (relayError "TLS_RELAY_REBUILD")
      | Accepted (prefixBuf, _) =>
          guard ← createHelloRetryGuard lim_hello lim_pending parsed prefix ExitEnd sni (d_hostname dec);
          '(tail, guard) ← forward_tail guard (drop (h_bytesConsumed parsed) buffer);
          prelude ← relayPrelude prefixBuf tail;
          Ret (dec, replayId, prelude, guard)
      end
  end.

(** And the rest: where to connect, the first bytes for the origin, and the guard. *)
Definition exit_open (psk : buffer) (publicName : jstr) (buffer : buffer) (parsed : Hello) (now : Z) (clock : option Z) :
    SM ReplayGuard (Decoded * Bytes.buffer * option (Setup * Guard)) :=
  '(dec, replayId, prelude, guard) ← lift (exit_prepare psk publicName buffer parsed now);
  consume replayId (Some (d_issuedAtSeconds dec)) clock;;
  mret (dec, prelude, guard).

(** A history of connections at the exit. *)
Record Connection := MkConnection { k_buffer : buffer; k_parsed : Hello; k_now : Z; k_clock : option Z }.
Fixpoint exit_run (psk : buffer) (publicName : jstr) (conns : list Connection) (g : ReplayGuard) :
    list (outcome (Decoded * buffer * option (Setup * Guard))) * ReplayGuard :=
  match conns with
  | [] => ([], g)
  | k :: conns =>
      let '(r, g) := exit_open psk publicName (k_buffer k) (k_parsed k) (k_now k) (k_clock k) g in
      let '(rs, g) := exit_run psk publicName conns g in (r :: rs, g)
  end.
End relay.

(** The connections that opened. *)
Fixpoint opened {A} (conns : list Connection) (rs : list (outcome A)) : list Connection :=
  match conns, rs with
  | k :: conns, Ret _ :: rs => k :: opened conns rs
  | _ :: conns, Throw _ :: rs => opened conns rs
  | _, _ => []
  end.

(** The token a connection shows, as bytes: whatever the dots and the case of the suffix. *)
Definition shown_token (publicName : jstr) (k : Connection) : option buffer :=
  labels ← parseRelayEncLabels (default [] (head (x_sni (h_exts (k_parsed k))))) publicName;
  match base62Decode (concat labels) with Ret wire => Some wire | Throw _ => None end.

Section once.
Context `{Aead} (hmacSha256 : buffer → jstr → buffer) (sha256hex : buffer → jstr).
Variables (lim_hello lim_pending : Z) (psk : buffer) (publicName : jstr).

(** What the replay guard is told of a token. *)
Definition told (wire : buffer) : jstr * option Z :=
  (sha256hex wire,
   match open (deriveEncSniKey hmacSha256 psk) (subarray 0 ENC_SNI_NONCE_LEN wire)
           (drop (length wire - ENC_SNI_TAG_LEN) wire) (subarray ENC_SNI_NONCE_LEN (length wire - ENC_SNI_TAG_LEN) wire) with
   | Some pt => match read_uint 4 1 pt with Ret i => Some i | Throw _ => None end
   | None => None
   end).

Lemma decoded_told sni now d id labels : decodeRelayFromHostname hmacSha256 sha256hex sni publicName psk now = Some (d, id, labels) →
  ∃ wire, parseRelayEncLabels sni publicName = Some labels ∧ base62Decode (concat labels) = Ret wire ∧ told wire = (id, Some (d_issuedAtSeconds d)).
Proof.
  unfold decodeRelayFromHostname. destruct (parseRelayEncLabels sni publicName) as [ls|]; [|done].
  destruct (decodeRelaySniLabel _ _ _ _ _) as [[d' id']|e] eqn:E; [|done]. intros [= -> -> ->].
  unfold decodeRelaySniLabel in E. apply outcome_bind_Ret in E as (wire & Hw & E). exists wire. split; [done|]. split; [done|].
  destruct (_ <? _)%nat in E; [done|]. apply outcome_bind_Ret in E as (? & _ & E). unfold told.
  destruct (open _ _ _ _) as [pt|]; [|done]. apply outcome_bind_Ret in E as (p & Hp & E). injection E as -> <-.
  unfold parsePlaintext in Hp. destruct (_ <? _)%nat in Hp; [done|]. destruct (negb _) in Hp; [done|].
  apply outcome_bind_Ret in Hp as (i & -> & Hp). destruct (_ <? _) in Hp; [done|]. apply outcome_bind_Ret in Hp as (? & _ & Hp).
  destruct (negb _) in Hp; [done|]. apply outcome_bind_Ret in Hp as (? & _ & Hp). by injection Hp as <-.
Qed.

(** The call a connection makes on the guard, if it gets there. *)
Definition call_of (k : Connection) : option Call :=
  match exit_prepare hmacSha256 sha256hex lim_hello lim_pending psk publicName (k_buffer k) (k_parsed k) (k_now k) with
  | Ret (d, id, _, _) => Some (MkCall id (Some (d_issuedAtSeconds d)) (k_clock k))
  | Throw _ => None
  end.

Lemma call_token k call : call_of k = Some call → ∃ wire, shown_token publicName k = Some wire ∧ token call = told wire.
Proof.
  unfold call_of, exit_prepare, shown_token. destruct (decodeRelayFromHostname _ _ _ _ _ _) as [[[d id] labels]|] eqn:E; [|done].
  destruct (decoded_told _ _ _ _ _ E) as (wire & -> & Hw & Ht). intros Hc. exists wire.
  split; [by rewrite /mbind /option_bind Hw|].
  destruct (restoreFirstSniInTcpBuffer _ _ _) as [[?|[p q]]|]; [done| |done]. rewrite ret_bind in Hc.
  destruct (createHelloRetryGuard _ _ _ _ _ _ _) as [gd|]; [|done]. rewrite ret_bind in Hc.
  destruct (forward_tail _ _) as [[tl gd']|]; [|done]. rewrite ret_bind in Hc.
  destruct (relayPrelude _ _ _) as [pr|]; [|done]. cbn in Hc. injection Hc as <-. by rewrite Ht.
Qed.

Fixpoint calls_of (conns : list Connection) : list Call :=
  match conns with
  | [] => []
  | k :: conns => match call_of k with Some c => c :: calls_of conns | None => calls_of conns end
  end.

Lemma run_calls conns : ∀ g,
  calls_of (opened conns (exit_run hmacSha256 sha256hex lim_hello lim_pending psk publicName conns g).1) =
    admissions (calls_of conns) (replay_run (calls_of conns) g).1 ∧
  Forall (λ k, is_Some (call_of k)) (opened conns (exit_run hmacSha256 sha256hex lim_hello lim_pending psk publicName conns g).1).
Proof.
  induction conns as [|k conns IH]; intros g; [by split; [|constructor]|]. cbn [exit_run].
  assert (exit_open hmacSha256 sha256hex lim_hello lim_pending psk publicName (k_buffer k) (k_parsed k) (k_now k) (k_clock k) g =
    match exit_prepare hmacSha256 sha256hex lim_hello lim_pending psk publicName (k_buffer k) (k_parsed k) (k_now k) with
    | Ret (d, id, pr, gd) => let '(r, g') := consume_call (MkCall id (Some (d_issuedAtSeconds d)) (k_clock k)) g in
        (match r with Ret _ => Ret (d, pr, gd) | Throw e => Throw e end, g')
    | Throw e => (Throw e, g) end) as ->.
  { unfold exit_open, lift, mbind, SM_bind, consume_call. destruct (exit_prepare _ _ _ _ _ _ _ _ _) as [[[[d id] pr] gd]|e]; [|done].
    cbn [c_id c_issued c_clock]. by destruct (consume _ _ _ g) as [[[]|e] g']. }
  destruct (call_of k) as [call|] eqn:Ec; unfold call_of in Ec.
  - destruct (exit_prepare _ _ _ _ _ _ _ _ _) as [[[[d id] pr] gd]|e] eqn:Ep; [|done]. injection Ec as Ec. rewrite Ec.
    assert (call_of k = Some call) as Ek by (by rewrite /call_of Ep Ec).
    destruct (consume_call call g) as [r g'] eqn:Er. specialize (IH g').
    destruct (exit_run _ _ _ _ _ _ conns g') as [rs g2]. cbn [fst snd] in *. destruct IH as [IH1 IH2].
    cbn [calls_of]. rewrite Ek. cbn [replay_run]. rewrite Er. destruct (replay_run (calls_of conns) g') as [rs' g3] eqn:Err.
    cbn [fst]. destruct r as [u|e].
    + cbn [opened admissions calls_of]. rewrite Ek IH1. split; [done|]. constructor; [by rewrite Ek|done].
    + cbn [opened admissions]. done.
  - destruct (exit_prepare _ _ _ _ _ _ _ _ _) as [[[[d id] pr] gd]|e] eqn:Ep; [done|]. specialize (IH g).
    destruct (exit_run _ _ _ _ _ _ conns g) as [rs g2]. cbn [fst snd opened] in *.
    assert (call_of k = None) as Ek by (by rewrite /call_of Ep). cbn [calls_of]. by rewrite Ek.
Qed.

Lemma calls_tokens conns : Forall (λ k, is_Some (call_of k)) conns →
  map token (calls_of conns) = map (λ t, told (default [] t)) (map (shown_token publicName) conns) ∧
  Forall (λ k, is_Some (shown_token publicName k)) conns.
Proof.
  induction 1 as [|k conns [call Hk] _ [IH1 IH2]]; [by split|]. cbn [calls_of]. rewrite Hk. cbn [map].
  destruct (call_token k call Hk) as (wire & Hw & Ht). rewrite IH1 Ht Hw. split; [done|]. by constructor.
Qed.

(** C24: No token opens two connections at the exit, whatever the streams, the clock and the
    order: the connections that open show tokens whose bytes are all different, so that a
    name cannot be used again with its dots moved or its suffix in another case either. *)
Theorem relay_admits_once max conns g : replay_new max = Ret g →
  let k := opened conns (exit_run hmacSha256 sha256hex lim_hello lim_pending psk publicName conns g).1 in
  NoDup (map (shown_token publicName) k) ∧ Forall (λ k, is_Some (shown_token publicName k)) k.
Proof.
  intros Hg k. destruct (run_calls conns g) as [E Hs]. fold k in E, Hs. destruct (calls_tokens k Hs) as [Et Hsome].
  split; [|done]. pose proof (admitted_once max (calls_of conns) g Hg) as Hnd. rewrite -E Et in Hnd.
  by apply NoDup_fmap_1 in Hnd.
Qed.
End once.

(** ** The two ends together *)

Lemma trim_start_twice s : trim_start (trim_start s) = trim_start s.
Proof. induction s as [|c s IH]; [done|]. cbn. destruct (js_space c) eqn:E; [done|]. cbn. by rewrite E. Qed.
Lemma trim_start_prefix s t : trim_start (s ++ t) = s ++ t → trim_start s = s.
Proof.
  destruct s as [|c s]; [done|]. cbn. destruct (js_space c); [|done]. intros E. exfalso.
  assert (∀ u, (length (trim_start u) <= length u)%nat) as L.
  { induction u as [|x u IH]; [done|]. cbn. destruct (js_space x); cbn; lia. }
  pose proof (L (s ++ t)) as Hl. rewrite E in Hl. cbn in Hl. lia.
Qed.
Lemma trim_start_suffix s : ∃ sp, s = sp ++ trim_start s.
Proof.
  induction s as [|c s [sp IH]]; [by exists []|]. cbn. destruct (js_space c); [|by exists []].
  exists (c :: sp). cbn. by f_equal.
Qed.
Lemma trim_idemp s : js_trim (js_trim s) = js_trim s.
Proof.
  unfold js_trim. set (a := trim_start s). destruct (trim_start_suffix (rev a)) as [sp E]. set (b := trim_start (rev a)) in *.
  assert (trim_start (rev b) = rev b) as ->.
  { apply (trim_start_prefix _ (rev sp)). rewrite -rev_app_distr -E rev_involutive. apply trim_start_twice. }
  rewrite rev_involutive. unfold b. by rewrite trim_start_twice.
Qed.
Lemma trim_subset s : js_trim s ⊆ s.
Proof.
  assert (∀ u, trim_start u ⊆ u) as H.
  { intros u. destruct (trim_start_suffix u) as [sp E]. rewrite {2}E. set_solver. }
  assert (∀ u : jstr, rev u ⊆ u) as R.
  { intros u c Hc. by apply list_elem_of_In, in_rev, list_elem_of_In. }
  unfold js_trim. etrans; [apply R|]. etrans; [apply H|]. etrans; [apply R|]. apply H.
Qed.

Lemma lower_ascii s : ascii_str s → ascii_str (ascii_lower s).
Proof.
  intros Hs. apply Forall_fmap. eapply Forall_impl; [exact Hs|]. unfold compose. intros c Hc. cbv beta in *.
  destruct (Z.leb_spec 65 c), (Z.leb_spec c 90); cbn [andb]; lia.
Qed.
Lemma ascii_well_formed s : ascii_str s → well_formed s = true.
Proof.
  induction 1 as [|c s Hc _ IH]; [done|]. cbn. rewrite (proj2 (Z.leb_gt 0xD800 c)); [|lia]. cbn [andb].
  rewrite (proj2 (Z.leb_le 0 c)); [|lia]. rewrite (proj2 (Z.ltb_lt c _)); [|lia]. rewrite (proj2 (Z.leb_gt 0xDC00 c)); [|lia]. done.
Qed.

(** The payload of whole records. *)
Lemma prefix_payload_wire fuel : ∀ rs buf off, (length rs < fuel)%nat → Forall rec_ok rs → (off <= length buf)%nat →
  drop off buf = rec_wire rs → prefix_payload fuel buf off = Ret (length (rec_payload rs)).
Proof.
  induction fuel as [|fuel IH]; intros rs buf off Hf Hok Ho Hd; [lia|]. cbn [prefix_payload]. destruct rs as [|r rs].
  - pose proof (f_equal length Hd) as L. rewrite length_drop in L. cbn in L. by rewrite (proj2 (Nat.ltb_ge _ _)); [|lia].
  - apply Forall_cons in Hok as [Hr Hok]. rewrite -(app_nil_r (rec_wire _)) in Hd.
    destruct (rec_step buf off r rs [] Hd Hr) as (Hl & _ & Hu & _ & Hd').
    rewrite (proj2 (Nat.ltb_lt _ _)); [|lia]. destruct (read_u16_at (off + 3) buf) as (v & -> & Hv); [lia|].
    rewrite ret_bind Hv Hu (IH rs); [|cbn in Hf; lia|done|lia|by rewrite Hd' app_nil_r].
    change (rec_payload (r :: rs)) with (r.2 ++ rec_payload rs). by rewrite ret_bind length_app.
Qed.

Lemma wire_count rs : Forall rec_ok rs → (length rs <= length (rec_wire rs))%nat.
Proof.
  induction 1 as [|q qs ([Hq _] & _) _ IH]; [done|]. change (rec_wire (q :: qs)) with (rec_enc q ++ rec_wire qs).
  rewrite (length_app (rec_enc q)) (rec_enc_length q Hq). cbn [length] in *. lia.
Qed.

Section transparent.
Context `{Aead} (hmacSha256 : buffer → jstr → buffer) (sha256hex : buffer → jstr).
(** What the digests and the cipher return. *)
Context (hmac_ok : ∀ k m, length (hmacSha256 k m) = 32%nat ∧ bytes_ok (hmacSha256 k m)).
Context (seal_bytes : ∀ k iv p, bytes_ok k → bytes_ok p → bytes_ok (seal k iv p).1 ∧ bytes_ok (seal k iv p).2).
Context (sha_hex : ∀ b, replay_id_ok (sha256hex b) = true).
Variables (lim_hello lim_pending : Z) (psk : buffer) (publicName : jstr).
Hypothesis lim_pos : 0 <= lim_hello.

Abbreviation client := (client_open hmacSha256 lim_hello lim_pending psk publicName).

Lemma client_open_inv port b parsed now nonce relay prelude cg : client port b parsed now nonce = Ret (relay, prelude, cg) →
  let origin := default [] (head (x_sni (h_exts parsed))) in
  let prefix := subarray 0 (h_bytesConsumed parsed) b in
  encodeRelayHostname hmacSha256 psk origin port (js_trim publicName) now nonce = Ret relay ∧
  ∃ r g0 tail, replaceFirstSniInTcpBuffer prefix relay = Ret (Accepted r) ∧
    createHelloRetryGuard lim_hello lim_pending parsed prefix ClientEnd relay origin = Ret g0 ∧
    forward_tail g0 (drop (h_bytesConsumed parsed) b) = Ret (tail, cg) ∧
    blen (prefixBuf r) + blen tail <= lim_pending ∧ prelude = prefixBuf r ++ tail.
Proof.
  unfold client_open. intros (? & _ & E)%outcome_bind_Ret. cbv zeta in *.
  apply outcome_bind_Ret in E as (name & Hn & E). destruct (encodeRelayHostname _ _ _ _ _ _ _) as [n|] eqn:En; [|done].
  apply Ret_inj in Hn as ->. apply outcome_bind_Ret in E as (rw & Hrw & E). destruct rw as [?|r]; [done|].
  apply outcome_bind_Ret in E as (g0 & Hg & E). apply outcome_bind_Ret in E as ([tail g1] & Ht & E).
  apply outcome_bind_Ret in E as (pre & Hp & E). injection E as -> -> ->. split; [done|].
  unfold relayPrelude in Hp. apply outcome_bind_Ret in Hp as (? & Hl%guard_js_Ret%Z.leb_le & Hp). apply Ret_inj in Hp as <-.
  by exists r, g0, tail.
Qed.

Lemma encode_time h port pn now nonce sni : encodeRelayHostname hmacSha256 psk h port pn now nonce = Ret sni → 0 <= now / 1000 <= 0xffffffff.
Proof.
  unfold encodeRelayHostname, encodeRelaySniLabel, buildPlaintext.
  intros (labels & (pt & (? & _ & E)%outcome_bind_Ret & _)%outcome_bind_Ret & _)%outcome_bind_Ret.
  destruct (default (Some 443) port); [|done]. apply outcome_bind_Ret in E as (? & _ & E). apply outcome_bind_Ret in E as (? & _ & E).
  apply outcome_bind_Ret in E as (? & Hs%guard_js_Ret & _). apply andb_true_iff in Hs as [?%Z.leb_le ?%Z.ltb_lt]. lia.
Qed.

(** A guard made for what the client's end wrote, when one was made for what it read. *)
Lemma exit_guard parsed prefix parsed' prefix' relay origin cg extra :
  createHelloRetryGuard lim_hello lim_pending parsed prefix ClientEnd relay origin = Ret cg →
  x_supportedVersions (h_exts parsed') = x_supportedVersions (h_exts parsed) →
  length (x_sni (h_exts parsed')) = length (x_sni (h_exts parsed)) →
  prefix_payload (S (length prefix)) prefix 0 = Ret (4 + length (h_clientHelloBody parsed) + extra)%nat →
  prefix_payload (S (length prefix')) prefix' 0 = Ret (4 + length (h_clientHelloBody parsed') + extra)%nat →
  ∃ eg, createHelloRetryGuard lim_hello lim_pending parsed' prefix' ExitEnd relay origin = Ret eg ∧ (cg = None → eg = None).
Proof.
  unfold createHelloRetryGuard. intros Hc -> Hl Hp ->. rewrite Hp in Hc. destruct (negb _); [by exists None|].
  destruct (x_sni (h_exts parsed)) as [|a [|? ?]]; [done| |done]. destruct (x_sni (h_exts parsed')) as [|a' [|? ?]]; [done| |done].
  rewrite !ret_bind in Hc |- *. apply outcome_bind_Ret in Hc as (? & Hg%guard_js_Ret%Nat.eqb_eq & Hc).
  rewrite (proj2 (Nat.eqb_eq _ _)); [|lia]. eexists. split; [reflexivity|]. by apply Ret_inj in Hc as <-.
Qed.

Lemma forward_tail_new parsed prefix r relay origin g tail : 0 <= lim_pending →
  createHelloRetryGuard lim_hello lim_pending parsed prefix r relay origin = Ret g → tail = [] ∨ g = None →
  ∃ g', forward_tail g tail = Ret (tail, g').
Proof.
  intros Hl Hg [->| ->]; [|by eexists]. destruct g as [[c g]|]; [|by eexists]. unfold createHelloRetryGuard in Hg.
  destruct (negb _) in Hg; [done|]. destruct (x_sni _) as [|? [|? ?]]; [done| |done].
  apply outcome_bind_Ret in Hg as (? & _ & Hg). apply outcome_bind_Ret in Hg as (? & _ & Hg). injection Hg as <- <-.
  unfold forward_tail, feed, get, mbind, SM_bind. cbn -[Z.ltb Z.add]. rewrite (proj2 (Z.ltb_ge _ _)); [|unfold blen; cbn; lia].
  by eexists.
Qed.

(** A guard that has admitted nothing admits a token within its time window. *)
Lemma first_token max g wire issued clock : replay_new max = Ret g → 0 <= issued <= 0xffffffff →
  0 <= clock <= MAX_SAFE_INTEGER - ENC_SNI_REPLAY_RETENTION_MS → Z.abs (clock / 1000 - issued) <= 300 →
  (consume (sha256hex wire) (Some issued) (Some clock) g).1 = Ret tt.
Proof.
  intros Hg Hi Hc Hw. unfold replay_new in Hg. destruct (_ || _) eqn:E in Hg; [done|]. apply Ret_inj in Hg as <-.
  apply orb_false_iff in E as [[_ Hm%Z.ltb_ge]%orb_false_iff _]. unfold consume. rewrite sha_hex.
  rewrite (proj2 (Z.ltb_ge issued 0)); [|lia]. rewrite (proj2 (Z.ltb_ge _ issued)); [|lia].
  unfold get, modify, mbind, SM_bind. cbn -[Z.ltb Z.leb Z.add Z.sub Z.div isSafeInteger ENC_SNI_REPLAY_RETENTION_MS ENC_SNI_TS_WINDOW_MS].
  assert (isSafeInteger clock = true ∧ isSafeInteger (clock + ENC_SNI_REPLAY_RETENTION_MS) = true) as [-> ->].
  { unfold isSafeInteger. assert (0 <= ENC_SNI_REPLAY_RETENTION_MS) by done. assert (0 <= MAX_SAFE_INTEGER) by done.
    rewrite !andb_true_iff !Z.leb_le. lia. }
  rewrite (proj2 (Z.ltb_ge clock 0)); [|lia]. cbn [negb orb]. change (ENC_SNI_TS_WINDOW_MS / 1000) with 300.
  rewrite (proj2 (Z.ltb_ge 300 _)) //. cbn -[Z.leb]. by rewrite (proj2 (Z.leb_gt _ _)); [|lia].
Qed.
(** The hello alone. *)
Lemma hello_alone b parsed : bytes_ok b → parseFirstTlsClientHelloFromTcpBuf b = Ret (IsHello parsed) →
  let prefix := subarray 0 (h_bytesConsumed parsed) b in
  parseFirstTlsClientHelloFromTcpBuf prefix = Ret (IsHello parsed) ∧ length prefix = h_bytesConsumed parsed ∧
  prefix ++ drop (h_bytesConsumed parsed) b = b.
Proof.
  intros Hb Hp prefix. assert (blen b <= TLS_MUX_MAX_CLIENT_BUF) as Hm.
  { unfold parseFirstTlsClientHelloFromTcpBuf in Hp. by destruct (Z.ltb_spec TLS_MUX_MAX_CLIENT_BUF (blen b)). }
  destruct (parse_first_inv b parsed Hb Hp) as (rs & tail & extra & E & Hc & Hca).
  assert (prefix = rec_wire rs) as ->. { unfold prefix. rewrite E. apply (subarray_mid [] (rec_wire rs) tail); [done|by rewrite Hc]. }
  split; [|split; [done|by rewrite E Hc drop_app_length]]. rewrite -{1}(app_nil_r (rec_wire rs)). apply (parse_first_wire rs [] parsed extra Hca); [|done].
  rewrite app_nil_r. rewrite E in Hm. unfold blen in *. rewrite length_app in Hm. lia.
Qed.

(** What the client's end wrote: records that the exit parses, decodes and restores. *)
Lemma client_wrote b parsed port now now' nonce relay r tail :
  let origin := default [] (head (x_sni (h_exts parsed))) in
  let prefix := subarray 0 (h_bytesConsumed parsed) b in
  let prelude := prefixBuf r ++ tail in
  bytes_ok b → ascii_str publicName → parseFirstTlsClientHelloFromTcpBuf b = Ret (IsHello parsed) →
  length nonce = 12%nat → bytes_ok nonce → (∃ x, x ∈ nonce ∧ x ≠ 0) → Z.abs (now' / 1000 - now / 1000) <= 300 →
  encodeRelayHostname hmacSha256 psk origin port (js_trim publicName) now nonce = Ret relay →
  replaceFirstSniInTcpBuffer prefix relay = Ret (Accepted r) → blen prelude <= TLS_MUX_MAX_CLIENT_BUF →
  ∃ parsed' (extra : nat) p wire labels,
    parseFirstTlsClientHelloFromTcpBuf prelude = Ret (IsHello parsed') ∧
    h_bytesConsumed parsed' = length (prefixBuf r) ∧ blen prefix <= blen (prefixBuf r) ∧
    head (x_sni (h_exts parsed')) = Some relay ∧
    x_supportedVersions (h_exts parsed') = x_supportedVersions (h_exts parsed) ∧
    length (x_sni (h_exts parsed')) = length (x_sni (h_exts parsed)) ∧
    prefix_payload (S (length prefix)) prefix 0 = Ret (4 + length (h_clientHelloBody parsed) + extra)%nat ∧
    prefix_payload (S (length (prefixBuf r))) (prefixBuf r) 0 = Ret (4 + length (h_clientHelloBody parsed') + extra)%nat ∧
    restoreFirstSniInTcpBuffer (prefixBuf r) relay origin = Ret (Accepted (prefix, [])) ∧
    default (Some 443) port = Some p ∧
    decodeRelayFromHostname hmacSha256 sha256hex relay publicName psk now' = Some (MkDecoded origin p (now / 1000), sha256hex wire, labels).
Proof.
  intros origin prefix prelude Hb Hpn Hp Hn Hnb Hnx Hw Henc Hr Hmax.
  destruct (hello_alone b parsed Hb Hp) as (Hp1 & Hlen & _). fold prefix in Hp1, Hlen.
  assert (bytes_ok prefix) as Hpb by by apply bytes_ok_subarray.
  destruct (replaced_inv prefix relay r Hpb Hr) as (rs & h & extra & s & ch & E & Hc & Hca & Hsb & Hs & Hbody & Ho & Hch & Htcp & Hp2 & Hhd).
  rewrite Hp1 in Hp2. injection Hp2 as <-. assert (tailAfterPrefix r = []) as Et.
  { apply nil_length_inv. pose proof (f_equal length E) as L. rewrite length_app in L. lia. }
  rewrite Et app_nil_r in E. assert (origin = originHost r) as Eo by by rewrite /origin Hhd.
  destruct (name_roundtrip hmacSha256 sha256hex hmac_ok seal_bytes psk origin port (js_trim publicName) now now' nonce relay Hn Hnb Hnx Hw Henc)
    as (_ & p & wire & labels & pre & Hport & Erel & Hdec & Hpre & Hlp & Hoa & Hol). rewrite trim_idemp in Erel, Hdec.
  assert (ascii_str relay) as Hra.
  { rewrite Erel. apply Forall_app. split; [done|]. apply lower_ascii, Forall_forall. intros c Hin%trim_subset. unfold ascii_str in Hpn. rewrite ->Forall_forall in Hpn. by apply Hpn. }
  assert (s_host s = origin) as Es.
  { rewrite Eo Ho. symmetry. apply ascii_decode, decode_ascii; [|by rewrite -Ho -Eo]. eapply Forall_impl; [exact Hsb|]. unfold byte_ok. lia. }
  assert (s_host s ≠ []) as Hne by (rewrite Es; destruct origin; [cbn in Hol; lia|done]).
  assert (blen (s_host s) <= blen (utf8_encode relay)) as Hle.
  { rewrite ascii_encode // Es Erel. unfold blen. rewrite length_app. lia. }
  pose proof (ascii_well_formed relay Hra) as Hwf. rewrite E -(app_nil_r (rec_wire rs)) in Htcp.
  destruct (rebuilt_carries s relay rs [] parsed extra ch (prefixBuf r) Hs Hne Hwf Hle Hca Hbody Hc Hch Htcp)
    as (Hs' & Ech & rs' & Epre & _ & Hgrow & Hx & Hca'). cbv zeta in Hca'.
  set (parsed' := MkHello _ _ _) in Hca'. exists parsed', (length extra), p, wire, labels.
  assert (∀ rs h x, carries [] rs h x → prefix_payload (S (length (rec_wire rs))) (rec_wire rs) 0 =
    Ret (4 + length (h_clientHelloBody h) + length x)%nat) as Hpay.
  { intros q h x (Hok & _ & HP & _). cbn [app] in HP. rewrite (prefix_payload_wire _ q); [|pose proof (wire_count q Hok); lia|done|lia|done].
    by rewrite HP handshake_length. }
  unfold prelude in *. split; [rewrite Epre in Hmax |- *; by apply (parse_first_wire rs' tail parsed' extra)|]. split; [by rewrite /parsed' Epre|].
  split; [by rewrite E|]. split; [done|]. split; [by rewrite Hx|]. split; [by rewrite Hx|]. rewrite E.
  split; [by apply Hpay|]. split; [by rewrite Epre; apply (Hpay rs' parsed')|]. split; [|split; [done|]].
  - rewrite -Es Epre -(app_nil_r (rec_wire rs')) -Epre. apply (restored s relay rs [] parsed extra ch); try done; [by rewrite Es|rewrite Es; unfold blen; lia|].
    rewrite app_nil_r Epre. unfold blen in *. rewrite length_app Epre in Hmax. lia.
  - rewrite Erel -(Hdec (ascii_lower (js_trim publicName)) (lower_idemp _)).
    unfold decodeRelayFromHostname, parseRelayEncLabels. by rewrite trim_idemp.
Qed.

(** C23: The two ends refine a plain relay of the first bytes: if the client's end took the
    bytes of a connection that begin with a ClientHello and sent [prelude] in their place,
    then the exit, from [prelude] alone and within 300 seconds, finds the origin's name and
    port and sends it exactly the bytes the application sent, record boundaries included.
    Either nothing follows the hello or the client does not offer TLS 1.3: what follows a
    hello of TLS 1.3 goes through the retry guard. *)
Theorem relay_transparent b parsed port now now' clock nonce relay prelude cg max g :
  bytes_ok b → ascii_str publicName → parseFirstTlsClientHelloFromTcpBuf b = Ret (IsHello parsed) →
  h_bytesConsumed parsed = length b ∨ 0x0304 ∉ x_supportedVersions (h_exts parsed) →
  length nonce = 12%nat → bytes_ok nonce → (∃ x, x ∈ nonce ∧ x ≠ 0) →
  client_open hmacSha256 lim_hello lim_pending psk publicName port b parsed now nonce = Ret (relay, prelude, cg) → blen prelude <= TLS_MUX_MAX_CLIENT_BUF →
  Z.abs (now' / 1000 - now / 1000) <= 300 → Z.abs (clock / 1000 - now / 1000) <= 300 →
  0 <= clock <= MAX_SAFE_INTEGER - ENC_SNI_REPLAY_RETENTION_MS → replay_new max = Ret g →
  ∃ parsed' p eg, parseFirstTlsClientHelloFromTcpBuf prelude = Ret (IsHello parsed') ∧
    head (x_sni (h_exts parsed')) = Some relay ∧ default (Some 443) port = Some p ∧
    (exit_open hmacSha256 sha256hex lim_hello lim_pending psk publicName prelude parsed' now' (Some clock) g).1 =
      Ret (MkDecoded (default [] (head (x_sni (h_exts parsed)))) p (now / 1000), b, eg).
Proof.
  intros Hb Hpn Hp Htail Hn Hnb Hnx Hcl Hmax Hw Hcw Hclk Hg.
  apply client_open_inv in Hcl as (Henc & r & g0 & tl & Hr & Hg0 & Hft & Hlim & ->).
  destruct (hello_alone b parsed Hb Hp) as (_ & _ & Eb). set (tail := drop (h_bytesConsumed parsed) b) in *.
  set (prefix := subarray 0 (h_bytesConsumed parsed) b) in *.
  assert (0 <= lim_pending) as Hpos by (unfold blen in Hlim; lia).
  assert (tail = [] ∨ 0x0304 ∉ x_supportedVersions (h_exts parsed)) as Ht.
  { destruct Htail as [E|E]; [left|by right]. by rewrite /tail E drop_all. }
  assert (tail = [] ∨ g0 = None) as Hno.
  { destruct Ht as [?|E]; [by left|right]. unfold createHelloRetryGuard in Hg0. rewrite bool_decide_eq_false_2 // in Hg0. by apply Ret_inj in Hg0. }
  destruct (forward_tail_new parsed prefix ClientEnd relay _ g0 tail Hpos Hg0 Hno) as [g' Hft']. rewrite Hft' in Hft. injection Hft as <- _.
  destruct (client_wrote b parsed port now now' nonce relay r tail Hb Hpn Hp Hn Hnb Hnx Hw Henc Hr Hmax)
    as (parsed' & extra & p & wire & labels & Hp' & Hc' & Hgrow & Hhd & Hsv & Hsl & Hpay & Hpay' & Hrest & Hport & Hdec).
  fold prefix in Hgrow, Hpay, Hrest. set (origin := default [] _) in *.
  destruct (exit_guard parsed prefix parsed' (prefixBuf r) relay origin g0 extra Hg0 Hsv Hsl Hpay Hpay') as (eg0 & Heg & Hnone).
  assert (tail = [] ∨ eg0 = None) as Hno' by (destruct Hno as [?|E]; [by left|right; by apply Hnone]).
  destruct (forward_tail_new parsed' (prefixBuf r) ExitEnd relay origin eg0 tail Hpos Heg Hno') as [eg Hfe].
  exists parsed', p, eg. split; [done|]. split; [done|]. split; [done|].
  assert (exit_prepare hmacSha256 sha256hex lim_hello lim_pending psk publicName (prefixBuf r ++ tail) parsed' now' =
    Ret (MkDecoded origin p (now / 1000), sha256hex wire, b, eg)) as Hprep.
  { unfold exit_prepare. rewrite Hhd. cbn [default]. rewrite Hdec. cbn [d_hostname].
    rewrite Hc' drop_app_length. assert (subarray 0 (length (prefixBuf r)) (prefixBuf r ++ tail) = prefixBuf r) as -> by by apply (subarray_mid [] (prefixBuf r) tail).
    rewrite Hrest ret_bind Heg ret_bind Hfe ret_bind. unfold relayPrelude. rewrite (proj2 (Z.leb_le _ _)); [|lia]. cbn [guard_js]. rewrite !ret_bind Eb. done. }
  pose proof (first_token max g wire (now / 1000) clock Hg (encode_time _ _ _ _ _ _ Henc) Hclk Hcw) as Hadm.
  unfold exit_open, lift, mbind, SM_bind. rewrite Hprep. cbn [d_issuedAtSeconds].
  destruct (consume _ _ _ g) as [o g2]. cbn [fst] in Hadm. by rewrite Hadm.
Qed.
End transparent.

(** A hello hidden by the client's end and shown to the exit twice, a second apart. *)
Definition sample_psk : buffer := replicate 32 9.
Definition sample_relayed : outcome (jstr * buffer * option (Setup * Guard)) :=
  @client_open toy_aead toy_hmac 65536 131072 sample_psk (js " Relay.Example ") (Some (Some 8443)) sample_first sample_parsed 1000000 (replicate 12 5).
Definition sample_conns : list Connection :=
  match sample_relayed with
  | Ret (_, prelude, _) =>
      match parseFirstTlsClientHelloFromTcpBuf prelude with
      | Ret (IsHello h) => [MkConnection prelude h 1000000 (Some 1000000); MkConnection prelude h 1001000 (Some 1001000)]
      | _ => []
      end
  | Throw _ => []
  end.

Definition is_ret {A} (o : outcome A) : bool := match o with Ret _ => true | Throw _ => false end.

Lemma relay_admits_once_witness :
  let run := @exit_run toy_aead toy_hmac toy_sha256hex 65536 131072 sample_psk (js "relay.example") sample_conns (MkGuard [] 0 8) in
  map is_ret run.1 = [true; false] ∧
  NoDup (map (shown_token (js "relay.example")) (opened sample_conns run.1)) ∧
  Forall (λ k, is_Some (shown_token (js "relay.example") k)) (opened sample_conns run.1).
Proof.
  intros run. split; [vm_compute; reflexivity|].
  apply (@relay_admits_once toy_aead toy_hmac toy_sha256hex 65536 131072 sample_psk (js "relay.example") 8). reflexivity.
Defined.

Lemma relay_transparent_witness : ∃ relay prelude cg, sample_relayed = Ret (relay, prelude, Some cg) ∧
  ∃ parsed' p eg, parseFirstTlsClientHelloFromTcpBuf prelude = Ret (IsHello parsed') ∧ head (x_sni (h_exts parsed')) = Some relay ∧
    default (Some 443) (Some (Some 8443)) = Some p ∧
    (@exit_open toy_aead toy_hmac toy_sha256hex 65536 131072 sample_psk (js " Relay.Example ") prelude parsed' 1299000 (Some 1299000) (MkGuard [] 0 8)).1 =
      Ret (MkDecoded (js "a.io") p 1000, sample_first, eg).
Proof.
  destruct sample_relayed as [[[relay prelude] [cg|]]|] eqn:E; [|vm_compute in E; discriminate..].
  assert (blen prelude <= 1000) as Hl.
  { revert E. vm_compute. intros [= _ <- _]. discriminate. }
  exists relay, prelude, cg. split; [reflexivity|].
  apply (@relay_transparent toy_aead toy_hmac toy_sha256hex toy_hmac_ok toy_seal_bytes (λ _, eq_refl) 65536 131072 sample_psk
    (js " Relay.Example ") ltac:(lia) sample_first sample_parsed (Some (Some 8443)) 1000000 1299000 1299000 (replicate 12 5) relay prelude (Some cg) 8).
  - apply (bool_decide_unpack _). vm_compute. exact I.
  - apply (bool_decide_unpack _). vm_compute. exact I.
  - vm_compute. reflexivity.
  - left. reflexivity.
  - reflexivity.
  - apply (bool_decide_unpack _). vm_compute. exact I.
  - exists 5. split; [by left|done].
  - exact E.
  - change TLS_MUX_MAX_CLIENT_BUF with 524288. lia.
  - vm_compute. discriminate.
  - vm_compute. discriminate.
  - vm_compute. split; discriminate.
  - reflexivity.
Defined.
